(* ===== verification/_CoqProject ===== *)
-Q . S2P
Prelude.v
Errors.v
StreamIds.v
Config.v
Flow.v
Bounded.v
StreamCore.v
FrameTypes.v
FrameEncode.v
FrameDecode.v
FrameCodec.v
HpackInteger.v
Huffman.v
Syntax.v
HpackTable.v
HpackCodec.v
Validation.v
Stream.v
ConnBase.v
ConnHeaders.v
ConnRecv.v
ConnInv.v
ConnSafe.v
ConnSample.v
ConnFlow.v
ConnSend.v
ConnBlock.v
ConnHandle.v
ConnApi.v
ConnIndep.v
ConnChunks.v
ConnDeliver.v
ConnRequest.v
ConnData.v
ConnTrace.v
ConnFindings.v
ConnOutput.v
WtVarint.v
WtStream.v
WtCapsule.v
WtCodec.v
WtInit.v
WtProtocols.v
WtFields.v
WtSession.v
WtInv.v
WtSafe.v
WtLoop.v
WtApi.v
WtDeliver.v
WtStreams.v
ConnTunnel.v
WtFindings.v
WtClosing.v
WtGrants.v
ConnEvents.v
Tokio.v
TokioWire.v
TokioApi.v
Driver.v
DriverSample.v
DriverSafe.v
DriverAccept.v
DriverAnswer.v
DriverWindows.v
DriverDeliver.v
DriverStreams.v
DriverTunnel.v
DriverFindings.v
NgTypes.v
Nghttp2.v
NgSession.v
NgPlayer.v
NgApi.v
NgProvider.v
NgReports.v
NgOutput.v
NgTokio.v
NgWire.v
NgFindings.v
