(* ===== verification/Prelude.v ===== *)
(** * A verification of the HTTP/2 library in [src/src/] and of its companion crates

    ** The program

    The crate is a sans-I/O implementation of HTTP/2 (RFC 9113) with HPACK
    (RFC 7541).  An application feeds received octets to a [Connection]
    ([connection.rs], [connection/headers.rs]), calls [process], polls events
    and polls the octets to send.  The connection owns a frame decoder and
    encoder ([frame/]), an HPACK encoder and decoder ([hpack/]), flow control
    windows ([flow_control.rs]), settings ([settings.rs], [limits.rs]), a map of
    streams ([stream.rs], [stream/]) and a bounded set of closed stream
    identifiers ([bounded_set.rs]); it validates messages with [validation.rs].

    On top of it, and without calling it, the crate implements WebTransport over
    HTTP/2: a [WtSession] ([webtransport.rs]) is fed the content of a CONNECT
    stream, decodes capsules from it ([webtransport/capsule.rs], with the
    integers of [varint.rs]), keeps the streams of the session
    ([webtransport/stream.rs]) under its own flow control
    ([webtransport/flow_control.rs]), and writes capsules that the application
    sends as content.  Header fields negotiate it ([init.rs], [protocols.rs]).

    The crate [crates/tokio-http2] puts both on a transport.  Its [Connection]
    ([connection.rs]) writes what the sans-I/O connection hands out and feeds it
    what it reads, in [async] methods.  A [WtServerRequest] ([webtransport.rs])
    accepts or rejects a WebTransport request; an accepted one becomes a driver
    task that owns the connection and the session, takes commands from the
    application through a channel, and hands it streams, data and datagrams
    through others.

    Beside this implementation the repository has another one to compare it
    with: [crates/shiguredo_nghttp2] wraps the C library nghttp2 in a [Session]
    ([session.rs]).  The session registers callbacks, which collect the fields
    and the content of each stream and turn frames into events, keeps for each
    stream the octets that wait to be sent, from which a read callback supplies
    nghttp2, and gathers what nghttp2 wants to write.  [crates/tokio-nghttp2]
    puts the session on a transport like [crates/tokio-http2].

    ** How the code is modelled

    A method of a struct is a state transformer [ST S E A := S -> result E A * S]
    on the record of the struct ([Prelude]); [result] has, next to [Ok] and
    [Err], the outcome [Panic] for a slice index out of range, a failed
    [expect] or an overflow of an addition in debug builds, so a theorem that
    excludes [Panic] says the code cannot panic.  A machine integer is a [Z];
    [as] casts are written out as [mod 2^n], and where the source adds or
    subtracts without a check, the model panics outside the range.  Octets are a
    [list Z] with the predicate [bytes_ok].  [String] reasons are the format
    templates of the source.  A [HashMap] is a [gmap]; where the code iterates
    over one, the order is an argument (class [HashOrder] with the law
    [HashOrderLaws] that every key comes once).

    The C library nghttp2 is not under [src/], so it is an argument as well
    (class [Nghttp2]).  A call of one of its functions is a [script]: the library
    invokes callbacks one after another, may look at what each returned, and
    ends with a result.  What the theorems need of it are the laws of
    [Nghttp2Laws], from its documentation: [nghttp2_session_mem_send2] hands out
    what it produced, and produces no more than it has queued and read from the
    data provider.  [NgPlayer] has a library that keeps the laws.

    ** The files, in dependency order

    - [Prelude]: outcomes, the state monad and its weakest preconditions ([wp]),
      octets, slices, bit fields and the tactics and lemmas all files share.
    - [Errors] ([error.rs], [decode_error.rs]), [StreamIds] ([stream_id.rs]),
      [Config] ([settings.rs], [limits.rs]), [Flow] ([flow_control.rs]),
      [Bounded] ([bounded_set.rs], [bounded_map.rs]).
    - [StreamCore] ([stream/state.rs], [stream/buffer.rs]): the stream state
      machine, proved to refine the lifecycle of RFC 9113 section 5.1, and the
      buffers.
    - [FrameTypes], [FrameEncode], [FrameDecode] ([frame.rs], [frame/]), and
      [FrameCodec]: the round trip of frame streams, independence of the decoder
      from the way octets are cut, absence of panics.
    - [HpackInteger], [Huffman], [Syntax], [HpackTable], [HpackCodec]
      ([hpack/], [syntax.rs]): integers, the Huffman code, field syntax, the
      dynamic table as a FIFO, and the round trip of header blocks.
    - [Validation] ([validation.rs]): the checks of section 8, proved equivalent
      to a declarative specification.
    - [Stream] ([stream.rs], [event.rs]), [ConnBase] (the connection's state and
      its sending methods), [ConnHeaders] (header blocks), [ConnRecv] (the frame
      handlers and [process]).
    - [ConnInv], [ConnSafe], [ConnHandle], [ConnApi]: the connection's invariant
      [wf], kept by every method and handler, and the theorem that no sequence
      of public calls panics.  [ConnSample]: concrete connections for the
      witnesses.
    - [ConnFlow]: what a flush sends, as data frames cut by both windows and the
      frame size.  [ConnBlock]: how a header block is cut into frames.
      [ConnIndep], [ConnChunks]: the handlers do not look at the frame decoder,
      so processing does not depend on how octets were cut.  [ConnDeliver]:
      octets delivered are frames handled, and fragments are put together.
      [ConnRequest], [ConnData]: a request and content from one connection to
      the events of another.  [ConnTrace]: what holds over whole runs.
      [ConnOutput]: what a connection writes.  [ConnFindings]: concrete runs
      where the code departs from RFC 9113.
    - [WtVarint] ([webtransport/error.rs], [varint.rs]), [WtStream]
      ([webtransport/stream.rs], [flow_control.rs]), [WtCapsule] ([capsule.rs])
      and [WtCodec]: the wire form of a capsule as a function, the round trip
      of capsules under any cutting of their octets.
    - [WtInit] ([init.rs], [is_tchar]), [WtProtocols] ([protocols.rs],
      [exporter.rs]) and [WtFields]: the structured-field parsers are total,
      and what they return.
    - [WtSession] ([webtransport.rs]): the session.  [WtInv], [WtSafe]: its
      invariant, kept by every method and every capsule.  [WtLoop]: the loop
      ends and does not depend on how octets were cut.  [WtApi]: no sequence of
      calls panics, and what is sent and delivered is counted.  [WtDeliver]:
      stream data from one session to the events of another.  [WtStreams]: the
      same for many streams at once, by what the receiver accepted instead of by
      its windows.  [WtFindings]:
      concrete runs where the session departs from its documentation.
    - [ConnTunnel]: both halves together, stream data of a WebTransport session
      carried by two HTTP/2 connections.
    - [ConnEvents]: the events a connection reports carry octets.  [WtClosing]:
      how many streams the octets of a session may still end.  Both serve the
      driver.
    - [Tokio] ([tokio-http2/src/error.rs], [connection.rs], parts of [server.rs]
      and [client.rs]): the connection over a class [Transport], whose documented
      behaviour is [TransportLaws].  An [async fn] that never completes, or whose
      future is dropped at an [await], ends in [Dropped].  [TokioWire]: every
      method is a run of the inner connection of which exactly the output is
      written.  [TokioApi]: a concrete transport, and what is on the wire after
      any operations.
    - [Driver] ([tokio-http2/src/webtransport.rs]): the request, the driver task
      with its loop as a sequence of turns, the methods of the application, and
      a log of what is sent into channels.  [DriverSample]: a client's octets
      and the server that reads them, computed with the models.  [DriverSafe]:
      the invariant [ok] of the driver, kept by every turn.  [DriverAnswer]:
      every command is answered once, and what success means.  [DriverAccept]:
      which requests become sessions, and that a driver never panics.
      [DriverWindows]: the credit of received octets is given back.
      [DriverDeliver]: channels are private to a stream, and what is written to
      a stream is read by the application.  [DriverStreams]: the same for many
      streams whose octets come in any number of DATA events, with windows that
      are opened in between.  [DriverTunnel]: the whole way, from a client's
      session over two HTTP/2 connections to the application of a server.
      [DriverFindings]: concrete runs that lose octets or depart from the
      documentation.
    - [NgTypes] ([shiguredo_nghttp2/src/types.rs], [error.rs]): settings, fields,
      frame types, error codes, events.  [Nghttp2]: the C library as a class, its
      constants and structs ([nghttp2-sys]), its laws, and the functions of
      [error.rs], [options.rs], [validation.rs] and [lib.rs] that call it.
    - [NgSession] ([session.rs]): the session with its callbacks and methods.
      [NgPlayer]: a concrete library for the witnesses.  [NgApi]: sequences of
      calls and the transcript of what they and the callbacks returned.
      [NgProvider]: what the read callback supplies is what was submitted.
      [NgReports]: how callbacks become events.  [NgOutput]: the loop of [send]
      ends, and what it hands out.
    - [NgTokio] ([tokio-nghttp2/src/connection.rs], parts of [client.rs],
      [server.rs], [error.rs]): the connection over the [Transport] of [Tokio].
      [NgWire]: what is on the wire after any operations.  [NgFindings]:
      concrete runs in which the wrapper does not do what it means to.

    ** Fuel and bounds

    Loops over a list or an integer are structural.  The loops that are not
    take fuel: [decode_loop] of HPACK the octets left, [flush_loop] one more
    than the buffered octets, [send_continuations] the octets left,
    [process_loop] one more than the decoder's measure (the buffered octets and
    the pending header).  In the WebTransport half [process_loop] takes one more
    than the buffered octets (a capsule has at least two), [create_loop] the
    number of identifiers of a type up to the announced one, and the loops of
    the field parsers one more than the octets left.  In the tokio layer the
    flush loops take two turns (polling hands out everything at once), [next_event]
    the number of reads that complete before it is dropped, and the loop over the
    events of a session one more than there are.  [send_loop] of the nghttp2 wrapper
    takes one more than the library has queued and the send buffers hold, because
    a turn that hands out octets uses up some of either.  Running out of fuel is a
    [Panic], so the theorems that exclude panics also show that the fuel is
    enough.

    ** Not modelled

    The [Display] texts with their arguments and the captured source location of
    errors; the getters, which are the projections of the records; the
    test-only code.  [WtSession::flow_control_mut] lends the flow control of a
    session to the application: it is the definition [on_flow_control], but the
    theorems about sequences of calls do not let the application change it that
    way.  Sockets, TLS handshakes and certificates ([tls.rs], and [bind] and
    the first half of [accept] and [connect]) are I/O of tokio and rustls: the
    transport, its TLS version and its keying material are parameters, and so
    are the channels of tokio, whose use is logged.  The methods of
    [ServerConnection] and [Client] that only call the same method of the
    connection, and those that only read a channel, have no definition of their
    own.  The scheduling of [select!] is any sequence of turns.  The functions of
    nghttp2 itself are C code: [nghttp2-sys] only declares them, and [build.rs]
    builds them.  The memory that [Drop] frees and the pointers of the FFI are
    not modelled; a null [user_data] is.  The examples, the interoperability
    programs, the fuzz targets and the tests are not part of the development.

    ** Left open

    The delivery of streams to the application of a server
    ([streams_are_read_as_written], [webtransport_reaches_application]) is about
    DATA events in a row: commands of the application between them, and capsules
    other than stream data, are left out, and it is assumed that the driver
    handles the events without an error; the connection that reports the events
    is one to which the octets are delivered at once, not the one the driver
    drives through its transport.  What a driver writes to the transport is known only as far as the
    connection below it goes ([tokio_connection_writes_frames]): which capsules a
    whole run of a driver puts on the wire is not stated.  Nothing is proved
    about how the scheduler of tokio chooses between the branches of [select!].

    This file: what every component shares. *)

From Stdlib Require Export ZArith Lia Bool.
From Stdlib Require Ascii.
From stdpp Require Export base tactics option list numbers strings gmap sets.

#[global] Open Scope Z_scope.

(** ** Outcomes of Rust code

    [Result<A, E>] with the third way a Rust function can end: a panic (a
    slice index out of range, a failed [expect], an [unreachable!]). *)
Inductive result (E A : Type) : Type :=
| Ok (a : A)
| Err (e : E)
| Panic.
Arguments Ok {E A} a.
Arguments Err {E A} e.
Arguments Panic {E A}.

Definition rbind {E A B} (r : result E A) (k : A -> result E B) : result E B :=
  match r with
  | Ok a => k a
  | Err e => Err e
  | Panic => Panic
  end.

(** [Result::map_err]. *)
Definition map_err {E F A} (f : E -> F) (r : result E A) : result F A :=
  match r with
  | Ok a => Ok a
  | Err e => Err (f e)
  | Panic => Panic
  end.

(** [Option::ok_or]. *)
Definition ok_or {E A} (o : option A) (e : E) : result E A :=
  match o with Some a => Ok a | None => Err e end.

(** [Result::expect]: an error becomes a panic. *)
Definition expect {E F A} (r : result E A) : result F A :=
  match r with
  | Ok a => Ok a
  | _ => Panic
  end.

Definition is_ok {E A} (r : result E A) : bool :=
  match r with Ok _ => true | _ => false end.

Definition is_err {E A} (r : result E A) : bool :=
  match r with Err _ => true | _ => false end.

(** ** Stateful Rust code

    A method taking [&mut self]: the state is returned with the outcome also
    when the outcome is an error, because Rust keeps whatever was mutated
    before the [?] that returned. *)
Definition ST (S E A : Type) : Type := S -> result E A * S.

Section StateMonad.
Context {S E : Type}.

Definition ret {A} (a : A) : ST S E A := fun s => (Ok a, s).
Definition throw {A} (e : E) : ST S E A := fun s => (Err e, s).
Definition panic {A} : ST S E A := fun s => (Panic, s).
Definition bind {A B} (m : ST S E A) (k : A -> ST S E B) : ST S E B :=
  fun s =>
    match m s with
    | (Ok a, s') => k a s'
    | (Err e, s') => (Err e, s')
    | (Panic, s') => (Panic, s')
    end.
Definition gets {A} (f : S -> A) : ST S E A := fun s => (Ok (f s), s).
Definition modify (f : S -> S) : ST S E unit := fun s => (Ok tt, f s).
(** A pure computation used inside a method. *)
Definition lift {A} (r : result E A) : ST S E A := fun s => (r, s).
(** The outcome of a call whose error is inspected, not propagated. *)
Definition attempt {A} (m : ST S E A) : ST S E (result E A) :=
  fun s =>
    match m s with
    | (Panic, s') => (Panic, s')
    | (r, s') => (Ok r, s')
    end.
End StateMonad.

(** A method of a field: run it on the field and store the field back. *)
Definition zoom {S T E A} (get : S -> T) (set : T -> S -> S) (m : ST T E A) : ST S E A :=
  fun s => let '(r, t) := m (get s) in (r, set t s).

Declare Scope rust_scope.
Delimit Scope rust_scope with rust.
#[global] Open Scope rust_scope.

Notation "'let?' x := r 'in' k" := (rbind r (fun x => k))
  (at level 10, x pattern, r at level 200, k at level 200,
   format "'[' 'let?'  x  :=  r  'in'  '//' k ']'") : rust_scope.
Notation "'let!' x := m 'in' k" := (bind m (fun x => k))
  (at level 10, x pattern, m at level 200, k at level 200,
   format "'[' 'let!'  x  :=  m  'in'  '//' k ']'") : rust_scope.
Notation "m ';!' k" := (bind m (fun _ => k))
  (at level 199, k at level 200, right associativity) : rust_scope.

(** ** Record update

    [r <| f := v |>] is the struct [r] with the field [f] assigned.  A record
    type has one [Eta] instance that lists its constructor and its fields; the
    setter of each field is computed from it. *)
Class Eta (R : Type) := eta : R -> R.

Class Setter {R T : Type} (get : R -> T) := set_field : T -> R -> R.
Arguments set_field {R T} get {_} _ _ /.

Ltac build_setter R T get :=
  let e := constr:(_ : Eta R) in
  let e' := eval hnf in e in
  exact (fun (v : T) (r : R) =>
           ltac:(let b := eval cbv beta in (e' r) in
                 lazymatch b with
                 | context C [ get r ] => let b' := context C [ v ] in exact b'
                 end)).

#[global] Hint Extern 0 (@Setter ?R ?T ?get) => build_setter R T get : typeclass_instances.

Notation "r <| f := v |>" := (set_field f v r)
  (at level 1, f constr at level 8, v at level 200, left associativity,
   format "r <| f  :=  v |>") : rust_scope.

(** ** Machine integers and bytes

    An unsigned [w]-bit integer is a [Z]; a cast that can drop bits is one of
    the [as_*] functions.  A byte string is a list of [Z], each a [byte_ok]. *)
Definition as_u8 (x : Z) : Z := x mod 2 ^ 8.
Definition as_u32 (x : Z) : Z := x mod 2 ^ 32.

Definition u8_ok (x : Z) : Prop := 0 <= x < 2 ^ 8.
Definition u16_ok (x : Z) : Prop := 0 <= x < 2 ^ 16.
Definition u31_ok (x : Z) : Prop := 0 <= x < 2 ^ 31.
Definition u32_ok (x : Z) : Prop := 0 <= x < 2 ^ 32.
Definition u64_ok (x : Z) : Prop := 0 <= x < 2 ^ 64.
Definition bytes_ok (l : list Z) : Prop := Forall u8_ok l.

Definition U32_MAX : Z := 2 ^ 32 - 1.
Definition USIZE_MAX : Z := 2 ^ 64 - 1.
Definition I64_MAX : Z := 2 ^ 63 - 1.

(** [usize::saturating_sub], [usize::saturating_add]. *)
Definition saturating_sub (a b : Z) : Z := Z.max 0 (a - b).
Definition saturating_add (a b : Z) : Z := Z.min USIZE_MAX (a + b).

(** [checked_add] on [u64]. *)
Definition checked_add (a b : Z) : option Z :=
  if a + b <? 2 ^ 64 then Some (a + b) else None.

Definition is_multiple_of (x m : Z) : bool := x mod m =? 0.

(** The [len()] of a vector or slice, as a [usize]. *)
Definition len {A} (l : list A) : Z := Z.of_nat (length l).

(** [&l[a..b]], which panics out of range, and [l[i]]. *)
Definition slice {E A} (l : list A) (a b : Z) : result E (list A) :=
  if (0 <=? a) && (a <=? b) && (b <=? len l)
  then Ok (take (Z.to_nat (b - a)) (drop (Z.to_nat a) l))
  else Panic.
Definition index {E A} (l : list A) (i : Z) : result E A :=
  if 0 <=? i
  then match l !! Z.to_nat i with Some x => Ok x | None => Panic end
  else Panic.

(** [&l[a..]]. *)
Definition slice_from {E A} (l : list A) (a : Z) : result E (list A) := slice l a (len l).

(** [a - b] on [usize], which panics when it would go below zero. *)
Definition sub_usize {E} (a b : Z) : result E Z := if a <? b then Panic else Ok (a - b).

(** [a + b] on [usize], which panics on overflow. *)
Definition add_usize {E} (a b : Z) : result E Z := if a + b <? 2 ^ 64 then Ok (a + b) else Panic.

(** Four consecutive octets of a slice. *)
Definition read4 {E A} (f : Z -> Z -> Z -> Z -> A) (l : list Z) (i : Z) : result E A :=
  let? b0 := index l i in
  let? b1 := index l (i + 1) in
  let? b2 := index l (i + 2) in
  let? b3 := index l (i + 3) in
  Ok (f b0 b1 b2 b3).

(** [b"..."]: the bytes of an ASCII literal. *)
Fixpoint bstr (s : string) : list Z :=
  match s with
  | EmptyString => []
  | String c s' => Z.of_N (Ascii.N_of_ascii c) :: bstr s'
  end.

(** [x.to_string()] of an unsigned number. *)
Fixpoint decimal_loop (fuel : nat) (n : Z) : list Z :=
  match fuel with
  | O => []
  | S fuel => (if n <? 10 then [] else decimal_loop fuel (n / 10)) ++ [48 + n mod 10]
  end.
Definition to_decimal (n : Z) : list Z := decimal_loop 20 n.

(** [==] and [starts_with] on byte slices. *)
Fixpoint bytes_eqb (x y : list Z) : bool :=
  match x, y with
  | [], [] => true
  | a :: x', c :: y' => (a =? c) && bytes_eqb x' y'
  | _, _ => false
  end.
Fixpoint starts_with (l p : list Z) {struct p} : bool :=
  match p, l with
  | [], _ => true
  | c :: p', a :: l' => (a =? c) && starts_with l' p'
  | _, [] => false
  end.

(** [u32::from_be_bytes], and the same with the top bit masked off, which is
    how the frame decoder reads a 31-bit field. *)
Definition u16_from_be (b0 b1 : Z) : Z := Z.lor (Z.shiftl b0 8) b1.
Definition u32_from_be (b0 b1 b2 b3 : Z) : Z :=
  Z.lor (Z.lor (Z.lor (Z.shiftl b0 24) (Z.shiftl b1 16)) (Z.shiftl b2 8)) b3.
Definition u31_from_be (b0 b1 b2 b3 : Z) : Z :=
  Z.lor (Z.lor (Z.lor (Z.shiftl (Z.land b0 0x7f) 24) (Z.shiftl b1 16)) (Z.shiftl b2 8)) b3.

(** [to_be_bytes]. *)
Definition u16_to_be (x : Z) : list Z := [as_u8 (Z.shiftr x 8); as_u8 x].
Definition u32_to_be (x : Z) : list Z :=
  [as_u8 (Z.shiftr x 24); as_u8 (Z.shiftr x 16); as_u8 (Z.shiftr x 8); as_u8 x].

#[global] Arguments len : simpl never.
#[global] Arguments as_u8 : simpl never.
#[global] Arguments as_u32 : simpl never.
#[global] Arguments u16_to_be : simpl never.
#[global] Arguments u32_to_be : simpl never.
#[global] Arguments u16_from_be : simpl never.
#[global] Arguments u31_from_be : simpl never.
#[global] Arguments u32_from_be : simpl never.

(** [buf[i] = v] on a slice, which panics out of range. *)
Definition set_index {E} (i v : Z) : ST (list Z) E unit :=
  fun buf => if (0 <=? i) && (i <? len buf) then (Ok tt, <[Z.to_nat i := v]> buf) else (Panic, buf).

(** ** Automation *)

(** Splits the [if]s, [match]es and conjunctions of a goal produced by
    unfolding a translated function. *)
Ltac break_match :=
  match goal with
  | |- context [ match ?x with _ => _ end ] =>
      lazymatch x with
      | context [ match _ with _ => _ end ] => fail
      | _ => destruct x eqn:?
      end
  end.
Ltac break_match_in H :=
  match type of H with
  | context [ match ?x with _ => _ end ] =>
      lazymatch x with
      | context [ match _ with _ => _ end ] => fail
      | _ => destruct x eqn:?
      end
  end.

(** Turns boolean comparisons of the context into propositions. *)
Ltac zbool :=
  repeat match goal with
  | H : (_ <? _) = true |- _ => apply Z.ltb_lt in H
  | H : (_ <? _) = false |- _ => apply Z.ltb_ge in H
  | H : (_ <=? _) = true |- _ => apply Z.leb_le in H
  | H : (_ <=? _) = false |- _ => apply Z.leb_gt in H
  | H : (_ =? _) = true |- _ => apply Z.eqb_eq in H
  | H : (_ =? _) = false |- _ => apply Z.eqb_neq in H
  | H : (_ >? _) = _ |- _ => rewrite Z.gtb_ltb in H
  | H : (_ >=? _) = _ |- _ => rewrite Z.geb_leb in H
  | H : andb _ _ = true |- _ => apply andb_true_iff in H as [? ?]
  | H : andb _ _ = false |- _ => apply andb_false_iff in H
  | H : orb _ _ = false |- _ => apply orb_false_iff in H as [? ?]
  | H : orb _ _ = true |- _ => apply orb_true_iff in H
  | H : negb _ = true |- _ => apply negb_true_iff in H
  | H : negb _ = false |- _ => apply negb_false_iff in H
  end.

(** ** Lemmas on lists with [usize] lengths *)

Create Rewrite HintDb len.

Lemma len_nil {A} : len (@nil A) = 0.
Proof. reflexivity. Qed.
Lemma len_cons {A} (x : A) l : len (x :: l) = 1 + len l.
Proof. unfold len. cbn [length]. lia. Qed.
Lemma len_app {A} (l1 l2 : list A) : len (l1 ++ l2) = len l1 + len l2.
Proof. unfold len. rewrite length_app. lia. Qed.
Lemma len_nonneg {A} (l : list A) : 0 <= len l.
Proof. unfold len. lia. Qed.
Lemma len_take {A} (l : list A) n : len (take n l) = Z.min (Z.of_nat n) (len l).
Proof. unfold len. rewrite length_take. lia. Qed.
Lemma len_drop {A} (l : list A) n : len (drop n l) = Z.max 0 (len l - Z.of_nat n).
Proof. unfold len. rewrite length_drop. lia. Qed.
Lemma len_replicate {A} n (x : A) : len (replicate n x) = Z.of_nat n.
Proof. unfold len. by rewrite length_replicate. Qed.
Lemma len_zero_nil {A} (l : list A) : len l = 0 -> l = [].
Proof. destruct l; [done|]. rewrite len_cons. pose proof (len_nonneg l). lia. Qed.
Lemma length_len {A} (l : list A) : length l = Z.to_nat (len l).
Proof. unfold len. lia. Qed.

Lemma len_u16_to_be x : len (u16_to_be x) = 2.
Proof. reflexivity. Qed.
Lemma len_u32_to_be x : len (u32_to_be x) = 4.
Proof. reflexivity. Qed.

#[export] Hint Rewrite len_u16_to_be len_u32_to_be : len.
#[export] Hint Rewrite @len_nil @len_cons @len_app @len_take @len_drop @len_replicate : len.

(** Arithmetic goals about lengths. *)
Ltac len_lia :=
  autorewrite with len in *;
  repeat match goal with
  | |- context [ len ?l ] =>
      lazymatch goal with
      | _ : 0 <= len l |- _ => fail
      | _ => pose proof (len_nonneg l)
      end
  | _ : context [ len ?l ] |- _ =>
      lazymatch goal with
      | _ : 0 <= len l |- _ => fail
      | _ => pose proof (len_nonneg l)
      end
  end;
  lia.

Lemma slice_spec {E A} (l : list A) a c :
  0 <= a <= c -> c <= len l ->
  @slice E A l a c = Ok (take (Z.to_nat (c - a)) (drop (Z.to_nat a) l)).
Proof.
  intros. unfold slice.
  replace ((0 <=? a) && (a <=? c) && (c <=? len l)) with true; [done|].
  symmetry. rewrite !andb_true_iff, !Z.leb_le. lia.
Qed.

Lemma slice_no_err {E A} (l : list A) a c e : @slice E A l a c <> Err e.
Proof. unfold slice. by case_match. Qed.

Lemma slice_Ok_inv {E A} (l : list A) a c x :
  @slice E A l a c = Ok x ->
  0 <= a <= c /\ c <= len l /\ x = take (Z.to_nat (c - a)) (drop (Z.to_nat a) l).
Proof.
  unfold slice. case_match; [|done]. intros [= <-]. zbool. repeat split; lia.
Qed.

(** The slice of a concatenation that starts where its second part starts. *)
Lemma slice_app_mid {E A} (x y z : list A) :
  @slice E A (x ++ y ++ z) (len x) (len x + len y) = Ok y.
Proof.
  rewrite slice_spec; [|len_lia|len_lia]. f_equal.
  unfold len. replace (Z.to_nat (Z.of_nat (length x))) with (length x) by lia.
  rewrite drop_app_length.
  replace (Z.to_nat _) with (length y) by lia. apply take_app_length.
Qed.

Lemma slice_from_app {E A} (x y : list A) : @slice_from E A (x ++ y) (len x) = Ok y.
Proof.
  unfold slice_from. pose proof (@slice_app_mid E A x y []) as H.
  rewrite app_nil_r in H. rewrite len_app. exact H.
Qed.

Lemma slice_from_0 {E A} (l : list A) : @slice_from E A l 0 = Ok l.
Proof. apply (slice_from_app (E:=E) [] l). Qed.

Lemma slice_prefix {E A} (x y : list A) : @slice E A (x ++ y) 0 (len x) = Ok x.
Proof. apply (@slice_app_mid E A [] x y). Qed.

Lemma slice_from_spec {E A} (l : list A) a :
  0 <= a <= len l -> @slice_from E A l a = Ok (drop (Z.to_nat a) l).
Proof.
  intros. unfold slice_from. rewrite slice_spec by lia. f_equal.
  apply take_ge. unfold len in *. rewrite length_drop. lia.
Qed.

Lemma index_spec {E A} (l : list A) i :
  0 <= i < len l -> exists x, @index E A l i = Ok x /\ l !! Z.to_nat i = Some x.
Proof.
  intros [H1 H2]. unfold index. assert ((0 <=? i) = true) as -> by lia.
  destruct (lookup_lt_is_Some_2 l (Z.to_nat i)) as [x Hx]; [unfold len in *; lia|].
  rewrite Hx. eauto.
Qed.

Lemma index_cons_0 {E A} (x : A) l : @index E A (x :: l) 0 = Ok x.
Proof. reflexivity. Qed.

Lemma bytes_eqb_eq x y : bytes_eqb x y = true <-> x = y.
Proof.
  revert y; induction x as [|a x IH]; destruct y as [|c y]; cbn; try done.
  rewrite andb_true_iff, Z.eqb_eq, IH. split; [intros [-> ->]|intros [= -> ->]]; done.
Qed.

Lemma bytes_eqb_refl x : bytes_eqb x x = true.
Proof. by apply bytes_eqb_eq. Qed.

Lemma bytes_eqb_neq x y : bytes_eqb x y = false <-> x <> y.
Proof. rewrite <- bytes_eqb_eq. destruct (bytes_eqb x y); naive_solver. Qed.

Lemma starts_with_spec l p : starts_with l p = true <-> exists r, l = p ++ r.
Proof.
  revert l; induction p as [|c p IH]; intros l.
  - split; [by exists l|done].
  - cbn. destruct l as [|a l]; [split; [done|by intros [? ?]]|].
    rewrite andb_true_iff, Z.eqb_eq, IH.
    split; [intros [-> [r ->]]; by exists r|intros [r [= -> ->]]; eauto].
Qed.

Lemma set_index_app {E} p x junk v :
  @set_index E (len p) v (p ++ x :: junk) = (Ok tt, p ++ v :: junk).
Proof.
  unfold set_index. rewrite len_app, len_cons.
  pose proof (len_nonneg p). pose proof (len_nonneg junk).
  replace ((0 <=? len p) && (len p <? _)) with true by (symmetry; lia).
  do 2 f_equal. rewrite <- length_len.
  rewrite insert_app_r_alt by lia. by rewrite Nat.sub_diag.
Qed.

(** ** Lemmas on bytes and bit fields *)

Lemma bytes_ok_app l1 l2 : bytes_ok (l1 ++ l2) <-> bytes_ok l1 /\ bytes_ok l2.
Proof. apply Forall_app. Qed.

Lemma slice_bytes_ok {E} l a b x : bytes_ok l -> @slice E Z l a b = Ok x -> bytes_ok x.
Proof.
  intros Hl (_ & _ & ->)%slice_Ok_inv. apply Forall_take, Forall_drop, Hl.
Qed.

Lemma lor_shiftl_add a n c : 0 <= n -> 0 <= c < 2 ^ n -> Z.lor (Z.shiftl a n) c = a * 2 ^ n + c.
Proof.
  intros Hn Hc. rewrite <- Z.shiftl_mul_pow2 by done.
  symmetry. apply Z.add_nocarry_lor.
  apply Z.bits_inj'. intros i Hi. rewrite Z.land_spec, Z.bits_0.
  destruct (Z.lt_ge_cases i n).
  - by rewrite Z.shiftl_spec_low.
  - replace c with (c mod 2 ^ n) by (by apply Z.mod_small).
    rewrite Z.mod_pow2_bits_high, andb_false_r by lia. done.
Qed.

Lemma land_ones_mod x n : 0 <= n -> Z.land x (Z.ones n) = x mod 2 ^ n.
Proof. apply Z.land_ones. Qed.

Lemma u16_from_be_arith b0 b1 : u8_ok b1 -> u16_from_be b0 b1 = b0 * 2 ^ 8 + b1.
Proof. intros H. unfold u16_from_be. by rewrite lor_shiftl_add. Qed.

Lemma u32_from_be_arith b0 b1 b2 b3 :
  u8_ok b1 -> u8_ok b2 -> u8_ok b3 ->
  u32_from_be b0 b1 b2 b3 = b0 * 2 ^ 24 + b1 * 2 ^ 16 + b2 * 2 ^ 8 + b3.
Proof.
  unfold u8_ok, u32_from_be. intros H1 H2 H3.
  rewrite <- !Z.lor_assoc.
  rewrite (lor_shiftl_add b2 8) by lia.
  rewrite (lor_shiftl_add b1 16) by lia.
  rewrite (lor_shiftl_add b0 24) by lia. lia.
Qed.

Lemma u31_from_be_u32 b0 b1 b2 b3 :
  u31_from_be b0 b1 b2 b3 = u32_from_be (b0 mod 2 ^ 7) b1 b2 b3.
Proof. unfold u31_from_be. change 0x7f with (Z.ones 7). by rewrite Z.land_ones. Qed.

Lemma u31_from_be_ok b0 b1 b2 b3 :
  u8_ok b1 -> u8_ok b2 -> u8_ok b3 -> u31_ok (u31_from_be b0 b1 b2 b3).
Proof.
  intros. rewrite u31_from_be_u32, u32_from_be_arith by done.
  unfold u8_ok, u31_ok in *. pose proof (Z.mod_pos_bound b0 (2 ^ 7)). lia.
Qed.

Lemma u32_from_be_ok b0 b1 b2 b3 :
  u8_ok b0 -> u8_ok b1 -> u8_ok b2 -> u8_ok b3 -> u32_ok (u32_from_be b0 b1 b2 b3).
Proof. intros. rewrite u32_from_be_arith by done. unfold u8_ok, u32_ok in *. lia. Qed.

Lemma as_u8_ok x : u8_ok (as_u8 x).
Proof. unfold as_u8, u8_ok. apply Z.mod_pos_bound. lia. Qed.
#[export] Hint Resolve as_u8_ok : core.

Lemma as_u8_small x : u8_ok x -> as_u8 x = x.
Proof. intros. by apply Z.mod_small. Qed.
Lemma as_u32_small x : u32_ok x -> as_u32 x = x.
Proof. intros. by apply Z.mod_small. Qed.

(** A property of octets that can be decided by trying them all. *)
Lemma u8_check (P : Z -> bool) :
  forallb P (map Z.of_nat (seq 0 256)) = true -> forall x, u8_ok x -> P x = true.
Proof.
  intros H x Hx. apply (proj1 (forallb_forall P _) H). apply in_map_iff.
  exists (Z.to_nat x). unfold u8_ok in Hx. split; [lia|]. apply in_seq. lia.
Qed.

(** Solves equations between bit fields once shifts, masks and casts are
    written as division and remainder. *)
Ltac byte_arith :=
  unfold u8_ok, u16_ok, u31_ok, u32_ok, u64_ok, as_u8, as_u32 in *;
  rewrite ?Z.shiftr_div_pow2 by lia;
  Z.div_mod_to_equations; lia.

Lemma u16_be_roundtrip x :
  u16_ok x -> u16_from_be (as_u8 (Z.shiftr x 8)) (as_u8 x) = x.
Proof. intros. rewrite u16_from_be_arith by done. byte_arith. Qed.

Lemma u32_be_roundtrip x :
  u32_ok x ->
  u32_from_be (as_u8 (Z.shiftr x 24)) (as_u8 (Z.shiftr x 16)) (as_u8 (Z.shiftr x 8)) (as_u8 x) = x.
Proof. intros. rewrite u32_from_be_arith by done. byte_arith. Qed.

(** ** Outcomes without panic

    [safe P r]: the outcome is not a panic, and a result satisfies [P]. *)
Definition safe {E A} (P : A -> Prop) (r : result E A) : Prop :=
  match r with Ok a => P a | Err _ => True | Panic => False end.

Lemma safe_bind {E A B} (P : A -> Prop) (Q : B -> Prop) (r : result E A) (k : A -> result E B) :
  safe P r -> (forall a, P a -> safe Q (k a)) -> safe Q (rbind r k).
Proof. destruct r; cbn; auto. Qed.

Lemma safe_if {E A} (P : A -> Prop) (b : bool) (r1 r2 : result E A) :
  (b = true -> safe P r1) -> (b = false -> safe P r2) -> safe P (if b then r1 else r2).
Proof. destruct b; auto. Qed.

Lemma safe_weaken {E A} (P Q : A -> Prop) (r : result E A) :
  (forall a, P a -> Q a) -> safe P r -> safe Q r.
Proof. destruct r; cbn; auto. Qed.

Lemma safe_slice {E} l a b :
  bytes_ok l -> 0 <= a <= b -> b <= len l -> safe bytes_ok (@slice E Z l a b).
Proof.
  intros Hl ??. destruct (slice l a b) as [x|e|] eqn:Eq; cbn; [|done|].
  - by eapply slice_bytes_ok.
  - rewrite slice_spec in Eq by done. done.
Qed.

(** ** Hoare triples for methods

    [hoare P m Q]: from a state satisfying [P], [m] ends with an outcome and a
    state related by [Q]. *)
Definition hoare {S E A} (P : S -> Prop) (m : ST S E A) (Q : result E A -> S -> Prop) : Prop :=
  forall s, P s -> Q (fst (m s)) (snd (m s)).

(** [inv I m]: [m] never panics from a state of [I] and ends, with or without
    an error, in a state of [I]. *)
Definition inv {S E A} (I : S -> Prop) (m : ST S E A) : Prop :=
  hoare I m (fun r s => r <> Panic /\ I s).

Lemma hoare_bind {S E A B} (P : S -> Prop) (m : ST S E A) (k : A -> ST S E B) R Q :
  hoare P m R ->
  (forall a, hoare (fun s => R (Ok a) s) (k a) Q) ->
  (forall e s, R (Err e) s -> Q (Err e) s) ->
  (forall s, R Panic s -> Q Panic s) ->
  hoare P (bind m k) Q.
Proof.
  intros Hm Hk He Hp s Hs. specialize (Hm s Hs). unfold bind.
  destruct (m s) as [[a|e|] s']; cbn in *; [by apply Hk|auto|auto].
Qed.

Lemma hoare_weaken {S E A} (P P' : S -> Prop) (m : ST S E A) (Q Q' : result E A -> S -> Prop) :
  (forall s, P' s -> P s) -> (forall r s, Q r s -> Q' r s) ->
  hoare P m Q -> hoare P' m Q'.
Proof. intros HP HQ Hm s Hs. auto. Qed.

Lemma inv_bind {S E A B} (I : S -> Prop) (m : ST S E A) (k : A -> ST S E B) :
  inv I m -> (forall a, inv I (k a)) -> inv I (bind m k).
Proof.
  intros Hm Hk. eapply hoare_bind; [exact Hm| | |].
  - intros a s [_ Hs]. by apply Hk.
  - by intros e s [_ Hs].
  - by intros s [? _].
Qed.

Lemma inv_ret {S E A} (I : S -> Prop) (a : A) : inv (E:=E) I (ret a).
Proof. by intros s Hs. Qed.
Lemma inv_throw {S E A} (I : S -> Prop) (e : E) : inv (A:=A) I (throw e).
Proof. by intros s Hs. Qed.
Lemma inv_gets {S E A} (I : S -> Prop) (f : S -> A) : inv (E:=E) I (gets f).
Proof. by intros s Hs. Qed.
Lemma inv_modify {S E} (I : S -> Prop) (f : S -> S) :
  (forall s, I s -> I (f s)) -> inv (E:=E) I (modify f).
Proof. intros Hf s Hs. split; [done|]. by apply Hf. Qed.

(** Running a method whose outcome is known. *)
Lemma bind_Ok {S E A B} (m : ST S E A) (k : A -> ST S E B) s a s' :
  m s = (Ok a, s') -> bind m k s = k a s'.
Proof. unfold bind. by intros ->. Qed.
Lemma bind_Err {S E A B} (m : ST S E A) (k : A -> ST S E B) s e s' :
  m s = (Err e, s') -> bind m k s = (Err e, s').
Proof. unfold bind. by intros ->. Qed.
Lemma bind_inv_Ok {S E A B} (m : ST S E A) (k : A -> ST S E B) s b s' :
  bind m k s = (Ok b, s') -> exists a s1, m s = (Ok a, s1) /\ k a s1 = (Ok b, s').
Proof. unfold bind. destruct (m s) as [[a|e|] s1]; [by exists a, s1|done|done]. Qed.
Lemma bind_gets {S E A B} (f : S -> A) (k : A -> ST S E B) s : bind (gets f) k s = k (f s) s.
Proof. done. Qed.
Lemma bind_ret {S E A B} (a : A) (k : A -> ST S E B) s : bind (ret a) k s = k a s.
Proof. done. Qed.
Lemma bind_modify {S E B} (f : S -> S) (k : unit -> ST S E B) s : bind (modify f) k s = k tt (f s).
Proof. done. Qed.
Lemma bind_lift_Ok {S E A B} (a : A) (k : A -> ST S E B) s : bind (lift (Ok a)) k s = k a s.
Proof. done. Qed.
Lemma bind_assoc {S E A B C} (m : ST S E A) (k : A -> ST S E B) (k' : B -> ST S E C) s :
  bind (bind m k) k' s = bind m (fun a => bind (k a) k') s.
Proof. unfold bind. by destruct (m s) as [[]]. Qed.

(** Running a method one primitive at a time. *)
Ltac runs := repeat first [rewrite bind_assoc | rewrite bind_gets | rewrite bind_ret | rewrite bind_modify | rewrite bind_lift_Ok].

(** ** Weakest preconditions

    [wp m Q X s]: from the state [s] the method [m] does not panic; when it
    returns a value, value and state satisfy [Q], and when it returns an error,
    the state it leaves satisfies [X]. *)
Definition wp {S E A} (m : ST S E A) (Q : A -> S -> Prop) (X : S -> Prop) (s : S) : Prop :=
  match m s with
  | (Ok a, s') => Q a s'
  | (Err _, s') => X s'
  | (Panic, _) => False
  end.

Section wp.
Context {S E : Type}.

Lemma wp_mono {A} (m : ST S E A) (Q Q' : A -> S -> Prop) (X X' : S -> Prop) s :
  wp m Q X s -> (forall a s', Q a s' -> Q' a s') -> (forall s', X s' -> X' s') -> wp m Q' X' s.
Proof. unfold wp. intros H HQ HX. destruct (m s) as [[a|e|] s']; auto. Qed.

Lemma wp_bind {A B} (m : ST S E A) (k : A -> ST S E B) Q X s :
  wp m (fun a => wp (k a) Q X) X s -> wp (bind m k) Q X s.
Proof. unfold wp, bind. by destruct (m s) as [[a|e|] s']. Qed.

(** Sequencing: the first method's postcondition is the second's precondition. *)
Lemma wp_seq {A B} (m : ST S E A) (k : A -> ST S E B) R X' Q X s :
  wp m R X' s -> (forall a s', R a s' -> wp (k a) Q X s') -> (forall s', X' s' -> X s') ->
  wp (bind m k) Q X s.
Proof. intros Hm Hk HX. apply wp_bind. eapply wp_mono; [exact Hm|auto|auto]. Qed.

Lemma wp_ret {A} (a : A) (Q : A -> S -> Prop) X s : Q a s -> wp (E:=E) (ret a) Q X s.
Proof. done. Qed.
Lemma wp_throw {A} (e : E) (Q : A -> S -> Prop) (X : S -> Prop) s : X s -> wp (throw e) Q X s.
Proof. done. Qed.
Lemma wp_gets {A B} (f : S -> A) (k : A -> ST S E B) Q X s :
  wp (k (f s)) Q X s -> wp (bind (gets f) k) Q X s.
Proof. done. Qed.
Lemma wp_modify (f : S -> S) (Q : unit -> S -> Prop) X s : Q tt (f s) -> wp (E:=E) (modify f) Q X s.
Proof. done. Qed.
Lemma wp_modify_seq {B} (f : S -> S) (k : unit -> ST S E B) Q X s :
  wp (k tt) Q X (f s) -> wp (bind (modify f) k) Q X s.
Proof. done. Qed.
Lemma wp_lift {A B} (r : result E A) (P : A -> Prop) (k : A -> ST S E B) Q (X : S -> Prop) s :
  safe P r -> (forall a, r = Ok a -> P a -> wp (k a) Q X s) -> X s -> wp (bind (lift r) k) Q X s.
Proof. intros Hr Hk HX. unfold wp, bind, lift. destruct r; cbn in *; [by apply Hk|done|done]. Qed.
Lemma wp_lift_ok {A B} (a : A) (k : A -> ST S E B) Q X s : wp (k a) Q X s -> wp (bind (lift (Ok a)) k) Q X s.
Proof. done. Qed.
Lemma wp_attempt {A B} (m : ST S E A) (k : result E A -> ST S E B) Q X s :
  wp m (fun a => wp (k (Ok a)) Q X) (fun s' => forall e, wp (k (Err e)) Q X s') s ->
  wp (bind (attempt m) k) Q X s.
Proof.
  unfold wp, bind, attempt. destruct (m s) as [[a|e|] s']; [done| |done]. intros H. exact (H e).
Qed.
Lemma wp_assoc {A B C} (m : ST S E A) (k : A -> ST S E B) (h : B -> ST S E C) Q X s :
  wp (bind m (fun a => bind (k a) h)) Q X s -> wp (bind (bind m k) h) Q X s.
Proof. unfold wp, bind. by destruct (m s) as [[a|e|] s']. Qed.
Lemma wp_zoom {T A} (get : S -> T) (set : T -> S -> S) (m : ST T E A) Q X s :
  wp m (fun a t => Q a (set t s)) (fun t => X (set t s)) (get s) -> wp (zoom get set m) Q X s.
Proof. unfold wp, zoom. by destruct (m (get s)) as [[a|e|] t]. Qed.

End wp.

Create HintDb rust.
#[export] Hint Resolve inv_bind inv_ret inv_throw inv_gets inv_modify : rust.
