(* ===== verification/Errors.v ===== *)
(** * Errors: the error values of the HTTP/2 layer

    Models [src/src/error.rs] and [src/src/decode_error.rs].  An [Error] carries
    its [ErrorKind] and its reason.  A reason built by [format!] is
    represented by its template, because no code of the crate reads a reason
    back; the caller's location and the backtrace are diagnostics of the same
    kind and are left out. *)

From S2P Require Import Prelude.

(** ** Error codes (RFC 9113 section 7) *)
Module ErrorCode.

Inductive t : Type :=
| NoError | ProtocolError | InternalError | FlowControlError | SettingsTimeout
| StreamClosed | FrameSizeError | RefusedStream | Cancel | CompressionError
| ConnectError | EnhanceYourCalm | InadequateSecurity | Http11Required
| WtError | WtStreamStateError | WtFlowControlError
| Unknown (code : Z).

#[global] Instance eq_dec : EqDecision t.
Proof. solve_decision. Defined.

Definition from_u32 (value : Z) : t :=
  match value with
  | 0x00 => NoError
  | 0x01 => ProtocolError
  | 0x02 => InternalError
  | 0x03 => FlowControlError
  | 0x04 => SettingsTimeout
  | 0x05 => StreamClosed
  | 0x06 => FrameSizeError
  | 0x07 => RefusedStream
  | 0x08 => Cancel
  | 0x09 => CompressionError
  | 0x0a => ConnectError
  | 0x0b => EnhanceYourCalm
  | 0x0c => InadequateSecurity
  | 0x0d => Http11Required
  | 0x100 => WtError
  | 0x101 => WtStreamStateError
  | 0x102 => WtFlowControlError
  | _ => Unknown value
  end.

Definition as_u32 (c : t) : Z :=
  match c with
  | NoError => 0x00
  | ProtocolError => 0x01
  | InternalError => 0x02
  | FlowControlError => 0x03
  | SettingsTimeout => 0x04
  | StreamClosed => 0x05
  | FrameSizeError => 0x06
  | RefusedStream => 0x07
  | Cancel => 0x08
  | CompressionError => 0x09
  | ConnectError => 0x0a
  | EnhanceYourCalm => 0x0b
  | InadequateSecurity => 0x0c
  | Http11Required => 0x0d
  | WtError => 0x100
  | WtStreamStateError => 0x101
  | WtFlowControlError => 0x102
  | Unknown code => code
  end.

(** The codes [from_u32] can produce: [Unknown] only holds an unassigned code. *)
Definition canonical (c : t) : Prop := from_u32 (as_u32 c) = c.

End ErrorCode.

(** ** Error kinds *)
Module ErrorKind.

Inductive t : Type :=
| ConnectionError (code : ErrorCode.t)
| StreamError (code : ErrorCode.t)
| HpackError.

#[global] Instance eq_dec : EqDecision t.
Proof. solve_decision. Defined.

End ErrorKind.

(** ** Errors *)
Module Error.

Record t : Type := mk { kind : ErrorKind.t; reason : string }.

Definition with_reason (kind : ErrorKind.t) (reason : string) : t := mk kind reason.
Definition new (kind : ErrorKind.t) : t := with_reason kind "".

Definition connection_error (code : ErrorCode.t) (reason : string) : t :=
  with_reason (ErrorKind.ConnectionError code) reason.
Definition stream_error (code : ErrorCode.t) (reason : string) : t :=
  with_reason (ErrorKind.StreamError code) reason.
Definition hpack_error (reason : string) : t := with_reason ErrorKind.HpackError reason.
Definition protocol_error (reason : string) : t :=
  connection_error ErrorCode.ProtocolError reason.
Definition frame_size_error (reason : string) : t :=
  connection_error ErrorCode.FrameSizeError reason.

Definition is_connection_error (e : t) : bool :=
  match kind e with ErrorKind.ConnectionError _ => true | _ => false end.
Definition is_stream_error (e : t) : bool :=
  match kind e with ErrorKind.StreamError _ => true | _ => false end.
Definition error_code (e : t) : option ErrorCode.t :=
  match kind e with
  | ErrorKind.ConnectionError code | ErrorKind.StreamError code => Some code
  | _ => None
  end.

End Error.

(** [error::Result<T>]. *)
Abbreviation Result := (result Error.t).

(** ** Decode errors *)
Module DecodeError.

Inductive t : Type :=
| BufferTooShort (required available : Z)
| Incomplete.

Definition check_buffer_size (required : Z) (buf : list Z) : result t unit :=
  if len buf <? required then Err (BufferTooShort required (len buf)) else Ok tt.

Definition to_string (e : t) : string :=
  match e with
  | BufferTooShort _ _ => "buffer too short: required {required} bytes, available {available} bytes"
  | Incomplete => "incomplete input"
  end.

(** [impl From<DecodeError> for Error]. *)
Definition into_error (e : t) : Error.t :=
  Error.connection_error ErrorCode.FrameSizeError (to_string e).

End DecodeError.

(** ** Lemmas *)

Lemma error_code_roundtrip x : ErrorCode.as_u32 (ErrorCode.from_u32 x) = x.
Proof.
  unfold ErrorCode.from_u32.
  repeat match goal with
  | |- context [ match ?p with _ => _ end ] => is_var p; destruct p; try reflexivity
  end.
Qed.

Lemma error_code_from_canonical x : ErrorCode.canonical (ErrorCode.from_u32 x).
Proof. unfold ErrorCode.canonical. by rewrite error_code_roundtrip. Qed.

Lemma error_code_as_u32_inj c d :
  ErrorCode.canonical c -> ErrorCode.canonical d ->
  ErrorCode.as_u32 c = ErrorCode.as_u32 d -> c = d.
Proof. unfold ErrorCode.canonical. congruence. Qed.
