(* ===== verification/StreamIds.v ===== *)
(** * StreamIds: stream identifiers checked when they are built

    Models [src/src/stream_id.rs].  A [NonZeroU32] is a [Z]; that it is not
    zero, that it fits 31 bits and that its parity is right are the
    well-formedness predicates of this file, which every constructor that
    returns [Ok] establishes. *)

From S2P Require Import Prelude Errors.

Module Parity.
Inductive t : Type := Odd | Even.
End Parity.

Module StreamIdError.
Inductive t : Type :=
| Reserved
| ParityMismatch (expected : Parity.t) (got : Z)
| OutOfRange (value : Z).
End StreamIdError.

Definition STREAM_ID_MAX : Z := Z.shiftl 1 31 - 1.

(** [NonZeroU32::new]. *)
Definition NonZeroU32_new (n : Z) : option Z := if n =? 0 then None else Some n.

Module ClientStreamId.

Record t : Type := mk { get : Z }.

Definition new (id : Z) : result StreamIdError.t t :=
  if id =? 0 then Err StreamIdError.Reserved
  else if id >? STREAM_ID_MAX then Err (StreamIdError.OutOfRange id)
  else if is_multiple_of id 2 then Err (StreamIdError.ParityMismatch Parity.Odd id)
  else let? nz := expect (ok_or (NonZeroU32_new id) tt) in Ok (mk nz).

(** [from_static] panics (at compile time) where [new] returns an error. *)
Definition from_static (id : Z) : result StreamIdError.t t :=
  if id >? STREAM_ID_MAX then Panic
  else if is_multiple_of id 2 then Panic
  else match NonZeroU32_new id with Some v => Ok (mk v) | None => Panic end.

Definition from_validated_parts (id : Z) : t := mk id.
Definition as_u32 (id : t) : Z := get id.

Definition wf (id : t) : Prop := 0 < get id <= STREAM_ID_MAX /\ get id mod 2 = 1.

#[global] Instance eq_dec : EqDecision t.
Proof. solve_decision. Defined.

End ClientStreamId.

Module ServerStreamId.

Record t : Type := mk { get : Z }.

Definition new (id : Z) : result StreamIdError.t t :=
  if id =? 0 then Err StreamIdError.Reserved
  else if id >? STREAM_ID_MAX then Err (StreamIdError.OutOfRange id)
  else if negb (is_multiple_of id 2) then Err (StreamIdError.ParityMismatch Parity.Even id)
  else let? nz := expect (ok_or (NonZeroU32_new id) tt) in Ok (mk nz).

Definition from_static (id : Z) : result StreamIdError.t t :=
  if id >? STREAM_ID_MAX then Panic
  else if negb (is_multiple_of id 2) then Panic
  else match NonZeroU32_new id with Some v => Ok (mk v) | None => Panic end.

Definition from_validated_parts (id : Z) : t := mk id.
Definition as_u32 (id : t) : Z := get id.

Definition wf (id : t) : Prop := 0 < get id <= STREAM_ID_MAX /\ get id mod 2 = 0.

#[global] Instance eq_dec : EqDecision t.
Proof. solve_decision. Defined.

End ServerStreamId.

Module NonZeroStreamId.

Inductive t : Type :=
| Client (id : ClientStreamId.t)
| Server (id : ServerStreamId.t).

Definition new (id : Z) : result StreamIdError.t t :=
  if id =? 0 then Err StreamIdError.Reserved
  else if id >? STREAM_ID_MAX then Err (StreamIdError.OutOfRange id)
  else if is_multiple_of id 2
  then let? nz := expect (ok_or (NonZeroU32_new id) tt) in
       Ok (Server (ServerStreamId.from_validated_parts nz))
  else let? nz := expect (ok_or (NonZeroU32_new id) tt) in
       Ok (Client (ClientStreamId.from_validated_parts nz)).

Definition from_static (id : Z) : result StreamIdError.t t :=
  if id =? 0 then Panic
  else if id >? STREAM_ID_MAX then Panic
  else if is_multiple_of id 2
  then let? i := ServerStreamId.from_static id in Ok (Server i)
  else let? i := ClientStreamId.from_static id in Ok (Client i).

Definition from_validated_parts (id : Z) : t :=
  if is_multiple_of id 2
  then Server (ServerStreamId.from_validated_parts id)
  else Client (ClientStreamId.from_validated_parts id).

Definition as_u32 (id : t) : Z :=
  match id with
  | Client id => ClientStreamId.as_u32 id
  | Server id => ServerStreamId.as_u32 id
  end.

Definition client (id : t) : option ClientStreamId.t :=
  match id with Client id => Some id | Server _ => None end.
Definition server (id : t) : option ServerStreamId.t :=
  match id with Client _ => None | Server id => Some id end.

Definition wf (id : t) : Prop :=
  match id with
  | Client id => ClientStreamId.wf id
  | Server id => ServerStreamId.wf id
  end.

#[global] Instance eq_dec : EqDecision t.
Proof. solve_decision. Defined.

End NonZeroStreamId.

Module StreamId.

Inductive t : Type :=
| Connection
| Client (id : ClientStreamId.t)
| Server (id : ServerStreamId.t).

Definition from_wire (id : Z) : t :=
  if id =? 0 then Connection
  else if is_multiple_of id 2
  then Server (ServerStreamId.from_validated_parts id)
  else Client (ClientStreamId.from_validated_parts id).

Definition as_u32 (id : t) : Z :=
  match id with
  | Connection => 0
  | Client id => ClientStreamId.as_u32 id
  | Server id => ServerStreamId.as_u32 id
  end.

Definition non_zero (id : t) : option NonZeroStreamId.t :=
  match id with
  | Connection => None
  | Client id => Some (NonZeroStreamId.Client id)
  | Server id => Some (NonZeroStreamId.Server id)
  end.

(** [impl From<NonZeroStreamId> for StreamId]. *)
Definition from (id : NonZeroStreamId.t) : t :=
  match id with
  | NonZeroStreamId.Client id => Client id
  | NonZeroStreamId.Server id => Server id
  end.

Definition wf (id : t) : Prop :=
  match id with
  | Connection => True
  | Client id => ClientStreamId.wf id
  | Server id => ServerStreamId.wf id
  end.

#[global] Instance eq_dec : EqDecision t.
Proof. solve_decision. Defined.

End StreamId.

(** ** Lemmas *)

Lemma STREAM_ID_MAX_val : STREAM_ID_MAX = 2 ^ 31 - 1.
Proof. reflexivity. Qed.

Lemma is_multiple_of_2_true x : is_multiple_of x 2 = true <-> x mod 2 = 0.
Proof. apply Z.eqb_eq. Qed.
Lemma is_multiple_of_2_false x : is_multiple_of x 2 = false <-> x mod 2 = 1.
Proof. unfold is_multiple_of. rewrite Z.eqb_neq. pose proof (Z.mod_pos_bound x 2). lia. Qed.

(** Every raw value in range gives a well-formed identifier that reads back. *)
Lemma nz_from_validated_wf x :
  0 < x <= STREAM_ID_MAX -> NonZeroStreamId.wf (NonZeroStreamId.from_validated_parts x).
Proof.
  intros H. unfold NonZeroStreamId.from_validated_parts. case_match eqn:E; (split; [done|]).
  - by apply is_multiple_of_2_true.
  - by apply is_multiple_of_2_false.
Qed.

Lemma nz_from_validated_as_u32 x :
  NonZeroStreamId.as_u32 (NonZeroStreamId.from_validated_parts x) = x.
Proof. unfold NonZeroStreamId.from_validated_parts. by case_match. Qed.

Lemma nz_as_u32_inv id :
  NonZeroStreamId.wf id -> NonZeroStreamId.from_validated_parts (NonZeroStreamId.as_u32 id) = id.
Proof.
  unfold NonZeroStreamId.from_validated_parts. destruct id as [[i]|[i]]; intros [_ H]; cbn in *.
  - by apply is_multiple_of_2_false in H as ->.
  - by apply is_multiple_of_2_true in H as ->.
Qed.

Lemma nz_as_u32_range id : NonZeroStreamId.wf id -> 0 < NonZeroStreamId.as_u32 id < 2 ^ 31.
Proof. rewrite <- (Z.sub_add 1 (2 ^ 31)), <- STREAM_ID_MAX_val. destruct id as [[i]|[i]]; cbn; intros [H _]; cbn in *; lia. Qed.

Lemma from_wire_as_u32 x : StreamId.as_u32 (StreamId.from_wire x) = x.
Proof. unfold StreamId.from_wire. case_match eqn:E; zbool; [done|]. by case_match. Qed.

Lemma from_wire_wf x : 0 <= x <= STREAM_ID_MAX -> StreamId.wf (StreamId.from_wire x).
Proof.
  intros H. unfold StreamId.from_wire. case_match eqn:E; zbool; [done|].
  case_match eqn:E'; (split; [cbn; lia|]).
  - by apply is_multiple_of_2_true.
  - by apply is_multiple_of_2_false.
Qed.

Lemma from_wire_as_u32_inv id : StreamId.wf id -> StreamId.from_wire (StreamId.as_u32 id) = id.
Proof.
  unfold StreamId.from_wire. destruct id as [|[i]|[i]]; cbn; [done| |]; intros [H1 H2]; cbn in *.
  - destruct (Z.eqb_spec i 0); [lia|]. by apply is_multiple_of_2_false in H2 as ->.
  - destruct (Z.eqb_spec i 0); [lia|]. by apply is_multiple_of_2_true in H2 as ->.
Qed.

Lemma as_u32_range id : StreamId.wf id -> 0 <= StreamId.as_u32 id < 2 ^ 31.
Proof. rewrite <- (Z.sub_add 1 (2 ^ 31)), <- STREAM_ID_MAX_val. destruct id as [|[i]|[i]]; cbn; [done| |]; intros [H _]; cbn in *; lia. Qed.

Lemma from_nz_wf id : NonZeroStreamId.wf id -> StreamId.wf (StreamId.from id).
Proof. by destruct id. Qed.
Lemma from_nz_as_u32 id : StreamId.as_u32 (StreamId.from id) = NonZeroStreamId.as_u32 id.
Proof. by destruct id. Qed.

Lemma from_nz_validated x :
  x <> 0 -> StreamId.from (NonZeroStreamId.from_validated_parts x) = StreamId.from_wire x.
Proof.
  intros Hx. unfold NonZeroStreamId.from_validated_parts, StreamId.from_wire. destruct (Z.eqb_spec x 0); [done|].
  by case_match.
Qed.

#[export] Hint Resolve nz_from_validated_wf from_wire_wf from_nz_wf : rust.

(** [new] and the decoder's [from_validated_parts] agree on every value. *)
Lemma nz_new_spec x :
  NonZeroStreamId.new x =
  if x =? 0 then Err StreamIdError.Reserved
  else if x >? STREAM_ID_MAX then Err (StreamIdError.OutOfRange x)
  else Ok (NonZeroStreamId.from_validated_parts x).
Proof.
  unfold NonZeroStreamId.new, NonZeroStreamId.from_validated_parts, NonZeroU32_new.
  repeat case_match; cbn in *; congruence.
Qed.

(** ** Properties *)

(** Stream identifiers are parsed exactly. A 31-bit value read off the
    wire gives a well-formed identifier that reads back as the same number;
    the fallible constructor accepts a number exactly when it is a non-zero
    31-bit value and then agrees with the wire decoding; the client and server
    constructors accept exactly the odd and the even ones among these. *)
Theorem stream_id_parsing_exact (x : Z) :
  0 <= x ->
  (x <= STREAM_ID_MAX ->
   StreamId.wf (StreamId.from_wire x) /\ StreamId.as_u32 (StreamId.from_wire x) = x) /\
  (is_ok (NonZeroStreamId.new x) = (0 <? x) && (x <=? STREAM_ID_MAX)) /\
  (forall id, NonZeroStreamId.new x = Ok id ->
     NonZeroStreamId.wf id /\ StreamId.from id = StreamId.from_wire x) /\
  is_ok (ClientStreamId.new x) = is_ok (NonZeroStreamId.new x) && (x mod 2 =? 1) /\
  is_ok (ServerStreamId.new x) = is_ok (NonZeroStreamId.new x) && (x mod 2 =? 0).
Proof.
  intros Hx. pose proof (Z.mod_pos_bound x 2 ltac:(lia)) as H2. split_and!.
  - intros. split; [by apply from_wire_wf|apply from_wire_as_u32].
  - rewrite nz_new_spec. repeat case_match; zbool; cbn; lia.
  - intros id. rewrite nz_new_spec. repeat case_match; zbool; try done. intros [= <-].
    split; [apply nz_from_validated_wf; lia|].
    unfold NonZeroStreamId.from_validated_parts, StreamId.from_wire.
    repeat case_match; zbool; try done; congruence.
  - rewrite nz_new_spec. unfold ClientStreamId.new, NonZeroU32_new, is_multiple_of.
    repeat case_match; simplify_eq; cbn in *; zbool; try done; try lia.
  - rewrite nz_new_spec. unfold ServerStreamId.new, NonZeroU32_new, is_multiple_of.
    repeat case_match; simplify_eq; cbn in *; zbool; try done; try lia.
Qed.

Lemma stream_id_parsing_exact_witness :
  is_ok (ClientStreamId.new 7) = is_ok (NonZeroStreamId.new 7) && (7 mod 2 =? 1).
Proof. exact (proj1 (proj2 (proj2 (proj2 (stream_id_parsing_exact 7 ltac:(done)))))). Defined.
