(* ===== verification/Config.v ===== *)
(** * Config: SETTINGS values and local limits

    Models [src/src/settings.rs] (the range-checked setting values, the parsed
    [Setting], the accumulated [Settings]) and [src/src/limits.rs] (the local
    limits and their builder). *)

From S2P Require Import Prelude.

Definition DEFAULT_HEADER_TABLE_SIZE : Z := 4096.
Definition DEFAULT_ENABLE_PUSH : bool := false.
Definition DEFAULT_MAX_CONCURRENT_STREAMS : option Z := None.
Definition DEFAULT_INITIAL_WINDOW_SIZE : Z := 65535.
Definition DEFAULT_MAX_FRAME_SIZE : Z := 16384.
Definition DEFAULT_MAX_HEADER_LIST_SIZE : option Z := None.
Definition MIN_MAX_FRAME_SIZE : Z := 16384.
Definition MAX_MAX_FRAME_SIZE : Z := 16777215.
Definition MAX_INITIAL_WINDOW_SIZE : Z := 2147483647.

Module SettingError.

Inductive t : Type :=
| EnablePushNotBoolean (value : Z)
| InitialWindowSizeOutOfRange (value max : Z)
| MaxFrameSizeOutOfRange (value min max : Z)
| EnableConnectProtocolNotBoolean (value : Z)
| NoRfc7540PrioritiesNotBoolean (value : Z)
| WtEnabledNotBoolean (value : Z).

Definition to_string (e : t) : string :=
  match e with
  | EnablePushNotBoolean _ => "SETTINGS_ENABLE_PUSH must be 0 or 1, got {value}"
  | InitialWindowSizeOutOfRange _ _ => "SETTINGS_INITIAL_WINDOW_SIZE {value} exceeds maximum {max}"
  | MaxFrameSizeOutOfRange _ _ _ => "SETTINGS_MAX_FRAME_SIZE {value} out of range {min}..={max}"
  | EnableConnectProtocolNotBoolean _ => "SETTINGS_ENABLE_CONNECT_PROTOCOL must be 0 or 1, got {value}"
  | NoRfc7540PrioritiesNotBoolean _ => "SETTINGS_NO_RFC7540_PRIORITIES must be 0 or 1, got {value}"
  | WtEnabledNotBoolean _ => "SETTINGS_WT_ENABLED must be 0 or 1, got {value}"
  end.

End SettingError.

(** ** Range-checked values *)
Module WindowSize.

Record t : Type := mk { get : Z }.

Definition MAX : Z := MAX_INITIAL_WINDOW_SIZE.

Definition new (size : Z) : result SettingError.t t :=
  if size >? MAX then Err (SettingError.InitialWindowSizeOutOfRange size MAX)
  else Ok (mk size).

Definition from_static (size : Z) : result SettingError.t t :=
  if size <=? MAX then Ok (mk size) else Panic.

Definition wf (w : t) : Prop := 0 <= get w <= MAX.

#[global] Instance eq_dec : EqDecision t.
Proof. solve_decision. Defined.

End WindowSize.

Module MaxFrameSize.

Record t : Type := mk { get : Z }.

Definition MIN : Z := MIN_MAX_FRAME_SIZE.
Definition MAX : Z := MAX_MAX_FRAME_SIZE.

Definition new (size : Z) : result SettingError.t t :=
  if negb ((MIN <=? size) && (size <=? MAX))
  then Err (SettingError.MaxFrameSizeOutOfRange size MIN MAX)
  else Ok (mk size).

Definition from_static (size : Z) : result SettingError.t t :=
  if size >=? MIN then (if size <=? MAX then Ok (mk size) else Panic) else Panic.

Definition wf (m : t) : Prop := MIN <= get m <= MAX.

#[global] Instance eq_dec : EqDecision t.
Proof. solve_decision. Defined.

End MaxFrameSize.

(** ** One setting of a SETTINGS frame *)
Module Setting.

Inductive t : Type :=
| HeaderTableSize (v : Z)
| EnablePush (b : bool)
| MaxConcurrentStreams (v : Z)
| InitialWindowSize (ws : WindowSize.t)
| MaxFrameSize (mfs : MaxFrameSize.t)
| MaxHeaderListSize (v : Z)
| EnableConnectProtocol (b : bool)
| NoRfc7540Priorities (b : bool)
| WtInitialMaxData (v : Z)
| WtInitialMaxStreamDataUni (v : Z)
| WtInitialMaxStreamDataBidiLocal (v : Z)
| WtInitialMaxStreamsUni (v : Z)
| WtInitialMaxStreamsBidi (v : Z)
| WtInitialMaxStreamDataBidiRemote (v : Z)
| WtEnabled (b : bool)
| Unknown (id value : Z).

#[global] Instance eq_dec : EqDecision t.
Proof. solve_decision. Defined.

Definition from_wire (id value : Z) : result SettingError.t t :=
  match id with
  | 0x01 => Ok (HeaderTableSize value)
  | 0x02 =>
      if value >? 1 then Err (SettingError.EnablePushNotBoolean value)
      else Ok (EnablePush (value =? 1))
  | 0x03 => Ok (MaxConcurrentStreams value)
  | 0x04 => let? ws := WindowSize.new value in Ok (InitialWindowSize ws)
  | 0x05 => let? mfs := MaxFrameSize.new value in Ok (MaxFrameSize mfs)
  | 0x06 => Ok (MaxHeaderListSize value)
  | 0x08 =>
      if value >? 1 then Err (SettingError.EnableConnectProtocolNotBoolean value)
      else Ok (EnableConnectProtocol (value =? 1))
  | 0x09 =>
      if value >? 1 then Err (SettingError.NoRfc7540PrioritiesNotBoolean value)
      else Ok (NoRfc7540Priorities (value =? 1))
  | 0x2b61 => Ok (WtInitialMaxData value)
  | 0x2b62 => Ok (WtInitialMaxStreamDataUni value)
  | 0x2b63 => Ok (WtInitialMaxStreamDataBidiLocal value)
  | 0x2b64 => Ok (WtInitialMaxStreamsUni value)
  | 0x2b65 => Ok (WtInitialMaxStreamsBidi value)
  | 0x2b66 => Ok (WtInitialMaxStreamDataBidiRemote value)
  | 0x2b67 =>
      if value >? 1 then Err (SettingError.WtEnabledNotBoolean value)
      else Ok (WtEnabled (value =? 1))
  | _ => Ok (Unknown id value)
  end.

Definition as_wire (s : t) : Z * Z :=
  match s with
  | HeaderTableSize v => (0x01, v)
  | EnablePush b => (0x02, Z.b2z b)
  | MaxConcurrentStreams v => (0x03, v)
  | InitialWindowSize ws => (0x04, WindowSize.get ws)
  | MaxFrameSize mfs => (0x05, MaxFrameSize.get mfs)
  | MaxHeaderListSize v => (0x06, v)
  | EnableConnectProtocol b => (0x08, Z.b2z b)
  | NoRfc7540Priorities b => (0x09, Z.b2z b)
  | WtInitialMaxData v => (0x2b61, v)
  | WtInitialMaxStreamDataUni v => (0x2b62, v)
  | WtInitialMaxStreamDataBidiLocal v => (0x2b63, v)
  | WtInitialMaxStreamsUni v => (0x2b64, v)
  | WtInitialMaxStreamsBidi v => (0x2b65, v)
  | WtInitialMaxStreamDataBidiRemote v => (0x2b66, v)
  | WtEnabled b => (0x2b67, Z.b2z b)
  | Unknown id value => (id, value)
  end.

(** What a setting built through the public constructors satisfies: its value
    fits [u32], its range-checked payload is in range, and [Unknown] does not
    hold an identifier [from_wire] knows. *)
Definition known_ids : list Z :=
  [0x01; 0x02; 0x03; 0x04; 0x05; 0x06; 0x08; 0x09; 0x2b61; 0x2b62; 0x2b63; 0x2b64;
   0x2b65; 0x2b66; 0x2b67].

Definition wf (s : t) : Prop :=
  match s with
  | InitialWindowSize ws => WindowSize.wf ws
  | MaxFrameSize mfs => MaxFrameSize.wf mfs
  | Unknown id value => u16_ok id /\ u32_ok value /\ id ∉ known_ids
  | EnablePush _ | EnableConnectProtocol _ | NoRfc7540Priorities _ | WtEnabled _ => True
  | HeaderTableSize v | MaxConcurrentStreams v | MaxHeaderListSize v
  | WtInitialMaxData v | WtInitialMaxStreamDataUni v | WtInitialMaxStreamDataBidiLocal v
  | WtInitialMaxStreamsUni v | WtInitialMaxStreamsBidi v
  | WtInitialMaxStreamDataBidiRemote v => u32_ok v
  end.

End Setting.

(** ** Local limits (limits.rs) *)
Module LimitsError.
Inductive t : Type :=
| WebtransportRequiresConnectProtocol
| WebtransportRequiresWtEnabled.
End LimitsError.

Module Limits.

Record t : Type := mk {
  max_concurrent_streams : option Z;
  initial_window_size : WindowSize.t;
  max_frame_size : MaxFrameSize.t;
  max_header_list_size : option Z;
  header_table_size : Z;
  connection_window_size : WindowSize.t;
  enable_connect_protocol : bool;
  no_rfc7540_priorities : bool;
  wt_enabled : bool;
  wt_initial_max_data : option Z;
  wt_initial_max_stream_data_uni : option Z;
  wt_initial_max_stream_data_bidi_local : option Z;
  wt_initial_max_streams_uni : option Z;
  wt_initial_max_streams_bidi : option Z;
  wt_initial_max_stream_data_bidi_remote : option Z
}.

End Limits.

Module LimitsBuilder.

Record t : Type := mk {
  max_concurrent_streams : option Z;
  initial_window_size : WindowSize.t;
  max_frame_size : MaxFrameSize.t;
  max_header_list_size : option Z;
  header_table_size : Z;
  connection_window_size : WindowSize.t;
  enable_connect_protocol : bool;
  no_rfc7540_priorities : bool;
  wt_enabled : bool;
  wt_initial_max_data : option Z;
  wt_initial_max_stream_data_uni : option Z;
  wt_initial_max_stream_data_bidi_local : option Z;
  wt_initial_max_streams_uni : option Z;
  wt_initial_max_streams_bidi : option Z;
  wt_initial_max_stream_data_bidi_remote : option Z
}.

#[global] Instance eta_builder : Eta t := fun s =>
  mk (max_concurrent_streams s)
      (initial_window_size s)
      (max_frame_size s)
      (max_header_list_size s)
      (header_table_size s)
      (connection_window_size s)
      (enable_connect_protocol s)
      (no_rfc7540_priorities s)
      (wt_enabled s)
      (wt_initial_max_data s)
      (wt_initial_max_stream_data_uni s)
      (wt_initial_max_stream_data_bidi_local s)
      (wt_initial_max_streams_uni s)
      (wt_initial_max_streams_bidi s)
      (wt_initial_max_stream_data_bidi_remote s).

Definition with_max_concurrent_streams (v : option Z) (s : t) : t := s <| max_concurrent_streams := v |>.
Definition with_initial_window_size (v : WindowSize.t) (s : t) : t := s <| initial_window_size := v |>.
Definition with_max_frame_size (v : MaxFrameSize.t) (s : t) : t := s <| max_frame_size := v |>.
Definition with_max_header_list_size (v : option Z) (s : t) : t := s <| max_header_list_size := v |>.
Definition with_header_table_size (v : Z) (s : t) : t := s <| header_table_size := v |>.

(** The builder's [connection_window_size] asserts its lower bound. *)
Definition with_connection_window_size (size : WindowSize.t) (s : t) : result LimitsError.t t :=
  if WindowSize.get size >=? DEFAULT_INITIAL_WINDOW_SIZE
  then Ok (s <| connection_window_size := size |>)
  else Panic.

Definition with_enable_connect_protocol (v : bool) (s : t) : t := s <| enable_connect_protocol := v |>.
Definition with_no_rfc7540_priorities (v : bool) (s : t) : t := s <| no_rfc7540_priorities := v |>.
Definition with_wt_enabled (v : bool) (s : t) : t := s <| wt_enabled := v |>.

Definition webtransport (max_data max_stream_data_uni max_stream_data_bidi_local
    max_streams_uni max_streams_bidi max_stream_data_bidi_remote : option Z) (s : t) : t :=
  s <| wt_initial_max_data := max_data |>
    <| wt_initial_max_stream_data_uni := max_stream_data_uni |>
    <| wt_initial_max_stream_data_bidi_local := max_stream_data_bidi_local |>
    <| wt_initial_max_streams_uni := max_streams_uni |>
    <| wt_initial_max_streams_bidi := max_streams_bidi |>
    <| wt_initial_max_stream_data_bidi_remote := max_stream_data_bidi_remote |>.

Definition is_some {A} (o : option A) : bool := match o with Some _ => true | None => false end.

Definition has_webtransport_settings (s : t) : bool :=
  is_some (wt_initial_max_data s)
  || is_some (wt_initial_max_stream_data_uni s)
  || is_some (wt_initial_max_stream_data_bidi_local s)
  || is_some (wt_initial_max_streams_uni s)
  || is_some (wt_initial_max_streams_bidi s)
  || is_some (wt_initial_max_stream_data_bidi_remote s).

Definition to_limits (s : t) : Limits.t :=
  Limits.mk (max_concurrent_streams s)
      (initial_window_size s)
      (max_frame_size s)
      (max_header_list_size s)
      (header_table_size s)
      (connection_window_size s)
      (enable_connect_protocol s)
      (no_rfc7540_priorities s)
      (wt_enabled s)
      (wt_initial_max_data s)
      (wt_initial_max_stream_data_uni s)
      (wt_initial_max_stream_data_bidi_local s)
      (wt_initial_max_streams_uni s)
      (wt_initial_max_streams_bidi s)
      (wt_initial_max_stream_data_bidi_remote s).

Definition build (s : t) : result LimitsError.t Limits.t :=
  if negb (enable_connect_protocol s) && (wt_enabled s || has_webtransport_settings s)
  then Err LimitsError.WebtransportRequiresConnectProtocol
  else if negb (wt_enabled s) && has_webtransport_settings s
  then Err LimitsError.WebtransportRequiresWtEnabled
  else Ok (to_limits s).

(** [build_static] panics where [build] returns an error. *)
Definition build_static (s : t) : result LimitsError.t Limits.t :=
  if negb (enable_connect_protocol s) && (wt_enabled s || has_webtransport_settings s)
  then Panic
  else if negb (wt_enabled s) && has_webtransport_settings s
  then Panic
  else Ok (to_limits s).

End LimitsBuilder.

(** [Limits::builder]. *)
Definition Limits_builder : LimitsBuilder.t :=
  LimitsBuilder.mk (Some 100) (WindowSize.mk DEFAULT_INITIAL_WINDOW_SIZE)
    (MaxFrameSize.mk DEFAULT_MAX_FRAME_SIZE) (Some 16384) DEFAULT_HEADER_TABLE_SIZE
    (WindowSize.mk DEFAULT_INITIAL_WINDOW_SIZE) false false false None None None None None None.

(** [Limits::default]. *)
Definition Limits_default : result LimitsError.t Limits.t :=
  expect (LimitsBuilder.build Limits_builder).

(** ** The settings in force (settings.rs) *)
Module Settings.

Record t : Type := mk {
  header_table_size : Z;
  enable_push : bool;
  max_concurrent_streams : option Z;
  initial_window_size : WindowSize.t;
  max_frame_size : MaxFrameSize.t;
  max_header_list_size : option Z;
  enable_connect_protocol : bool;
  no_rfc7540_priorities : bool;
  wt_initial_max_data : option Z;
  wt_initial_max_stream_data_uni : option Z;
  wt_initial_max_stream_data_bidi_local : option Z;
  wt_initial_max_streams_uni : option Z;
  wt_initial_max_streams_bidi : option Z;
  wt_initial_max_stream_data_bidi_remote : option Z;
  wt_enabled : bool
}.

#[global] Instance eta_settings : Eta t := fun s =>
  mk (header_table_size s)
      (enable_push s)
      (max_concurrent_streams s)
      (initial_window_size s)
      (max_frame_size s)
      (max_header_list_size s)
      (enable_connect_protocol s)
      (no_rfc7540_priorities s)
      (wt_initial_max_data s)
      (wt_initial_max_stream_data_uni s)
      (wt_initial_max_stream_data_bidi_local s)
      (wt_initial_max_streams_uni s)
      (wt_initial_max_streams_bidi s)
      (wt_initial_max_stream_data_bidi_remote s)
      (wt_enabled s).

Definition default : t :=
  mk DEFAULT_HEADER_TABLE_SIZE DEFAULT_ENABLE_PUSH DEFAULT_MAX_CONCURRENT_STREAMS
     (WindowSize.mk DEFAULT_INITIAL_WINDOW_SIZE) (MaxFrameSize.mk DEFAULT_MAX_FRAME_SIZE)
     DEFAULT_MAX_HEADER_LIST_SIZE false false None None None None None None false.

Definition new : t := default.

Definition from_limits (limits : Limits.t) : t :=
  mk (Limits.header_table_size limits)
     DEFAULT_ENABLE_PUSH
     (Limits.max_concurrent_streams limits)
     (Limits.initial_window_size limits)
     (Limits.max_frame_size limits)
     (Limits.max_header_list_size limits)
     (Limits.enable_connect_protocol limits)
     (Limits.no_rfc7540_priorities limits)
     (Limits.wt_initial_max_data limits)
     (Limits.wt_initial_max_stream_data_uni limits)
     (Limits.wt_initial_max_stream_data_bidi_local limits)
     (Limits.wt_initial_max_streams_uni limits)
     (Limits.wt_initial_max_streams_bidi limits)
     (Limits.wt_initial_max_stream_data_bidi_remote limits)
     (Limits.wt_enabled limits).

Definition apply (setting : Setting.t) (s : t) : t :=
  match setting with
  | Setting.HeaderTableSize v => s <| header_table_size := v |>
  | Setting.EnablePush b => s <| enable_push := b |>
  | Setting.MaxConcurrentStreams v => s <| max_concurrent_streams := Some v |>
  | Setting.InitialWindowSize ws => s <| initial_window_size := ws |>
  | Setting.MaxFrameSize mfs => s <| max_frame_size := mfs |>
  | Setting.MaxHeaderListSize v => s <| max_header_list_size := Some v |>
  | Setting.EnableConnectProtocol b => s <| enable_connect_protocol := b |>
  | Setting.NoRfc7540Priorities b => s <| no_rfc7540_priorities := b |>
  | Setting.WtInitialMaxData v => s <| wt_initial_max_data := Some v |>
  | Setting.WtInitialMaxStreamDataUni v => s <| wt_initial_max_stream_data_uni := Some v |>
  | Setting.WtInitialMaxStreamDataBidiLocal v =>
      s <| wt_initial_max_stream_data_bidi_local := Some v |>
  | Setting.WtInitialMaxStreamsUni v => s <| wt_initial_max_streams_uni := Some v |>
  | Setting.WtInitialMaxStreamsBidi v => s <| wt_initial_max_streams_bidi := Some v |>
  | Setting.WtInitialMaxStreamDataBidiRemote v =>
      s <| wt_initial_max_stream_data_bidi_remote := Some v |>
  | Setting.WtEnabled b => s <| wt_enabled := b |>
  | Setting.Unknown _ _ => s
  end.

(** [if let Some(v) = o { list.push(f(v)) }] *)
Definition push_some {A B} (o : option A) (f : A -> B) : list B :=
  match o with Some v => [f v] | None => [] end.

Definition to_settings_list (s : t) : list Setting.t :=
  [Setting.HeaderTableSize (header_table_size s); Setting.EnablePush (enable_push s)]
  ++ push_some (max_concurrent_streams s) Setting.MaxConcurrentStreams
  ++ [Setting.InitialWindowSize (initial_window_size s); Setting.MaxFrameSize (max_frame_size s)]
  ++ push_some (max_header_list_size s) Setting.MaxHeaderListSize
  ++ (if enable_connect_protocol s then [Setting.EnableConnectProtocol true] else [])
  ++ (if no_rfc7540_priorities s then [Setting.NoRfc7540Priorities true] else [])
  ++ push_some (wt_initial_max_data s) Setting.WtInitialMaxData
  ++ push_some (wt_initial_max_stream_data_uni s) Setting.WtInitialMaxStreamDataUni
  ++ push_some (wt_initial_max_stream_data_bidi_local s) Setting.WtInitialMaxStreamDataBidiLocal
  ++ push_some (wt_initial_max_streams_uni s) Setting.WtInitialMaxStreamsUni
  ++ push_some (wt_initial_max_streams_bidi s) Setting.WtInitialMaxStreamsBidi
  ++ push_some (wt_initial_max_stream_data_bidi_remote s) Setting.WtInitialMaxStreamDataBidiRemote
  ++ (if wt_enabled s then [Setting.WtEnabled true] else []).

(** Every value is one a peer may hold: in range for its wire field. *)
Definition opt_u32_ok (o : option Z) : Prop := match o with Some v => u32_ok v | None => True end.

Definition wf (s : t) : Prop :=
  u32_ok (header_table_size s) /\ opt_u32_ok (max_concurrent_streams s) /\
  WindowSize.wf (initial_window_size s) /\ MaxFrameSize.wf (max_frame_size s) /\
  opt_u32_ok (max_header_list_size s) /\ opt_u32_ok (wt_initial_max_data s) /\
  opt_u32_ok (wt_initial_max_stream_data_uni s) /\
  opt_u32_ok (wt_initial_max_stream_data_bidi_local s) /\
  opt_u32_ok (wt_initial_max_streams_uni s) /\ opt_u32_ok (wt_initial_max_streams_bidi s) /\
  opt_u32_ok (wt_initial_max_stream_data_bidi_remote s).

End Settings.

(** ** Lemmas *)

(** Case analysis of a [match] on a wire constant. *)
Ltac destruct_const :=
  repeat match goal with
  | |- context [ match ?p with _ => _ end ] => is_var p; destruct p; try reflexivity
  end.

Lemma setting_as_wire_ok s :
  Setting.wf s -> u16_ok (fst (Setting.as_wire s)) /\ u32_ok (snd (Setting.as_wire s)).
Proof.
  unfold u16_ok, u32_ok.
  destruct s as [|c| | [w] | [m] | |c|c| | | | | | |c| id v]; cbn;
    unfold u32_ok, WindowSize.wf, MaxFrameSize.wf; cbn; intros H;
    try (destruct c; cbn); try lia.
  - unfold WindowSize.MAX, MAX_INITIAL_WINDOW_SIZE in H. lia.
  - unfold MaxFrameSize.MIN, MaxFrameSize.MAX, MIN_MAX_FRAME_SIZE, MAX_MAX_FRAME_SIZE in H. lia.
  - destruct H as (H1 & H2 & _). unfold u16_ok in *. lia.
Qed.

Lemma from_wire_unknown id v :
  id ∉ Setting.known_ids -> Setting.from_wire id v = Ok (Setting.Unknown id v).
Proof.
  intros H. unfold Setting.from_wire. destruct_const;
    (exfalso; apply H; apply (bool_decide_unpack _); vm_compute; exact I).
Qed.

Lemma window_size_new_wf ws : WindowSize.wf ws -> WindowSize.new (WindowSize.get ws) = Ok ws.
Proof.
  destruct ws as [w]. unfold WindowSize.wf, WindowSize.new. cbn. intros H.
  destruct (w >? _) eqn:E; [|done]. zbool. lia.
Qed.
Lemma max_frame_size_new_wf m : MaxFrameSize.wf m -> MaxFrameSize.new (MaxFrameSize.get m) = Ok m.
Proof.
  destruct m as [m]. unfold MaxFrameSize.wf, MaxFrameSize.new. cbn. intros H.
  assert ((MaxFrameSize.MIN <=? m) && (m <=? MaxFrameSize.MAX) = true) as -> by lia. done.
Qed.

(** Sending a setting and parsing it gives the setting back. *)
Lemma setting_wire_roundtrip s :
  Setting.wf s -> let '(id, v) := Setting.as_wire s in Setting.from_wire id v = Ok s.
Proof.
  destruct s as [|c| | ws | m | |c|c| | | | | | |c| id v]; cbn [Setting.as_wire Setting.wf];
    intros H; try reflexivity; try (destruct c; reflexivity).
  - cbn. by rewrite window_size_new_wf.
  - cbn. by rewrite max_frame_size_new_wf.
  - apply from_wire_unknown, H.
Qed.

(** A parsed setting is well formed and writes back the bytes it came from. *)
Lemma from_wire_Ok_wf id v s :
  u16_ok id -> u32_ok v -> Setting.from_wire id v = Ok s ->
  Setting.wf s /\ Setting.as_wire s = (id, v).
Proof.
  intros Hid Hv. destruct (decide (id ∈ Setting.known_ids)) as [Hin|Hout].
  - unfold Setting.known_ids in Hin. unfold u32_ok in Hv.
    repeat (apply elem_of_cons in Hin as [->|Hin]); [..|by apply elem_of_nil in Hin];
      cbn; unfold WindowSize.new, MaxFrameSize.new, WindowSize.wf, MaxFrameSize.wf;
      try (destruct (v >? 1) eqn:Hb; [done|]; intros [= <-]; zbool;
           assert (v = 0 \/ v = 1) as [-> | ->] by lia; done).
    all: try (intros [= <-]; done).
    + destruct (v >? _) eqn:Hb; [done|]. intros [= <-]. zbool. cbn. split; [|done].
      unfold WindowSize.wf. cbn. lia.
    + destruct (negb _) eqn:Hb; [done|]. intros [= <-]. zbool. cbn. split; [|done].
      unfold MaxFrameSize.wf. cbn. lia.
  - rewrite from_wire_unknown by done. intros [= <-]. cbn. done.
Qed.

(** The two shapes of step in [to_settings_list]: an optional value and a flag
    that is sent only when it is set. *)
Lemma fold_apply_push_some {A} (o : option A) f (set : option A -> Settings.t -> Settings.t) s :
  (forall v, Settings.apply (f v) s = set (Some v) s) -> set None s = s ->
  foldl (fun s x => Settings.apply x s) s (Settings.push_some o f) = set o s.
Proof. intros Hs Hn. destruct o; cbn; [apply Hs|by rewrite Hn]. Qed.

Lemma fold_apply_flag (c : bool) x (set : bool -> Settings.t -> Settings.t) s :
  Settings.apply x s = set true s -> set false s = s ->
  foldl (fun s x => Settings.apply x s) s (if c then [x] else []) = set c s.
Proof. intros Ht Hf. destruct c; cbn; [apply Ht|by rewrite Hf]. Qed.

(** Applying the advertised list to the protocol defaults rebuilds the record. *)
Lemma settings_list_apply s :
  foldl (fun s x => Settings.apply x s) Settings.default (Settings.to_settings_list s) = s.
Proof.
  unfold Settings.to_settings_list. rewrite !foldl_app.
  destruct s as [h ep mcs iws mfs mhls ecp nrp d su sbl stu stb sbr en]. cbn.
  rewrite (fold_apply_push_some mcs _ (fun o s => s <| Settings.max_concurrent_streams := o |>)) by done; cbn.
  rewrite (fold_apply_push_some mhls _ (fun o s => s <| Settings.max_header_list_size := o |>)) by done; cbn.
  rewrite (fold_apply_flag ecp _ (fun o s => s <| Settings.enable_connect_protocol := o |>)) by done; cbn.
  rewrite (fold_apply_flag nrp _ (fun o s => s <| Settings.no_rfc7540_priorities := o |>)) by done; cbn.
  rewrite (fold_apply_push_some d _ (fun o s => s <| Settings.wt_initial_max_data := o |>)) by done; cbn.
  rewrite (fold_apply_push_some su _ (fun o s => s <| Settings.wt_initial_max_stream_data_uni := o |>)) by done; cbn.
  rewrite (fold_apply_push_some sbl _ (fun o s => s <| Settings.wt_initial_max_stream_data_bidi_local := o |>)) by done; cbn.
  rewrite (fold_apply_push_some stu _ (fun o s => s <| Settings.wt_initial_max_streams_uni := o |>)) by done; cbn.
  rewrite (fold_apply_push_some stb _ (fun o s => s <| Settings.wt_initial_max_streams_bidi := o |>)) by done; cbn.
  rewrite (fold_apply_push_some sbr _ (fun o s => s <| Settings.wt_initial_max_stream_data_bidi_remote := o |>)) by done; cbn.
  by rewrite (fold_apply_flag en _ (fun o s => s <| Settings.wt_enabled := o |>)) by done.
Qed.

Lemma settings_apply_wf x s : Setting.wf x -> Settings.wf s -> Settings.wf (Settings.apply x s).
Proof. unfold Settings.wf. destruct x; cbn; tauto. Qed.

Lemma settings_default_wf : Settings.wf Settings.default.
Proof. repeat split; by vm_compute. Qed.

Lemma push_some_wf {A} (o : option A) (f : A -> Setting.t) :
  (forall v, o = Some v -> Setting.wf (f v)) -> Forall Setting.wf (Settings.push_some o f).
Proof. destruct o; cbn; auto. Qed.

Lemma flag_wf (c : bool) x : Setting.wf x -> Forall Setting.wf (if c then [x] else []).
Proof. destruct c; auto. Qed.

Lemma settings_list_wf s : Settings.wf s -> Forall Setting.wf (Settings.to_settings_list s).
Proof.
  unfold Settings.wf, Settings.to_settings_list. intros H. decompose_Forall.
  all: repeat first [apply push_some_wf; intros ? Hv | apply flag_wf | apply Forall_app_2 | apply Forall_cons_2 | apply Forall_nil_2];
    try rewrite Hv in H; cbn in H |- *; tauto.
Qed.

(** What the peer does with the (identifier, value) pairs of a SETTINGS frame. *)
Fixpoint parse_settings (l : list (Z * Z)) : result SettingError.t (list Setting.t) :=
  match l with
  | [] => Ok []
  | (id, v) :: l =>
      let? x := Setting.from_wire id v in
      let? xs := parse_settings l in
      Ok (x :: xs)
  end.

Lemma parse_settings_wire l : Forall Setting.wf l -> parse_settings (map Setting.as_wire l) = Ok l.
Proof.
  induction 1 as [|x l Hx _ IH]; [done|]. cbn [map parse_settings].
  pose proof (setting_wire_roundtrip x Hx) as Hr. destruct (Setting.as_wire x) as [id v].
  by rewrite Hr, IH.
Qed.

(** ** Properties *)

(** C39: SETTINGS are exchanged faithfully. The list a connection advertises,
    written as wire pairs and parsed back, is accepted setting by setting, and
    applying it to the protocol's default values rebuilds exactly the settings
    record it was made from: nothing that differs from the defaults is left
    out and no value is altered or rejected. *)
Theorem settings_exchange_faithful (s : Settings.t) :
  Settings.wf s ->
  exists l, parse_settings (map Setting.as_wire (Settings.to_settings_list s)) = Ok l /\
            foldl (fun s x => Settings.apply x s) Settings.default l = s.
Proof.
  intros H. eexists. split; [by apply parse_settings_wire, settings_list_wf|apply settings_list_apply].
Qed.

Lemma settings_exchange_faithful_witness :
  exists l, parse_settings (map Setting.as_wire (Settings.to_settings_list Settings.default)) = Ok l /\
            foldl (fun s x => Settings.apply x s) Settings.default l = Settings.default.
Proof. refine (settings_exchange_faithful Settings.default _). repeat split; by vm_compute. Defined.
