(* ===== verification/Flow.v ===== *)
(** * Flow: HTTP/2 flow-control windows

    Models [src/src/flow_control.rs].  The windows are [i64] in the code; they
    are [Z] here, and [FlowControl.wf] bounds them well inside [i64], so the
    additions of the code never overflow. *)

From S2P Require Import Prelude Errors Config.

Definition MAX_WINDOW_SIZE : Z := 2147483647.

Module FlowControl.

Record t : Type := mk {
  send_window : Z;
  recv_window : Z;
  send_initial : Z;
  recv_initial : Z
}.

#[global] Instance eta_fc : Eta t := fun s =>
  mk (send_window s) (recv_window s) (send_initial s) (recv_initial s).

Definition new (initial_window_size : Z) : t :=
  mk initial_window_size initial_window_size initial_window_size initial_window_size.

Definition with_separate_windows (send_initial recv_initial : Z) : t :=
  mk send_initial recv_initial send_initial recv_initial.

Definition default : t := new DEFAULT_INITIAL_WINDOW_SIZE.

Definition send_available (s : t) : Z :=
  if send_window s >? 0 then send_window s else 0.

(** [i64::try_from] on a [usize]. *)
Definition i64_try_from (size : Z) : Result Z :=
  if size <=? I64_MAX then Ok size
  else Err (Error.connection_error ErrorCode.FlowControlError "data size too large").

Definition consume_send (size : Z) : ST t Error.t unit :=
  let! size := lift (i64_try_from size) in
  let! w := gets send_window in
  if size >? w
  then throw (Error.connection_error ErrorCode.FlowControlError "send window exhausted")
  else modify (fun s => s <| send_window := send_window s - size |>).

Definition consume_recv (size : Z) : ST t Error.t unit :=
  let! size := lift (i64_try_from size) in
  let! w := gets recv_window in
  if size >? w
  then throw (Error.connection_error ErrorCode.FlowControlError "recv window exceeded")
  else modify (fun s => s <| recv_window := recv_window s - size |>).

Definition recv_window_update (increment : Z) : ST t Error.t unit :=
  if increment =? 0
  then throw (Error.connection_error ErrorCode.ProtocolError "WINDOW_UPDATE with zero increment")
  else
    let! new_window := gets (fun s => send_window s + increment) in
    if new_window >? MAX_WINDOW_SIZE
    then throw (Error.connection_error ErrorCode.FlowControlError "window size overflow")
    else modify (fun s => s <| send_window := new_window |>).

Definition add_recv_window (increment : Z) : ST t Error.t unit :=
  if increment =? 0
  then throw (Error.connection_error ErrorCode.ProtocolError "window increment must be non-zero")
  else
    let! new_window := gets (fun s => recv_window s + increment) in
    if new_window >? MAX_WINDOW_SIZE
    then throw (Error.connection_error ErrorCode.FlowControlError "window size overflow")
    else modify (fun s => s <| recv_window := new_window |>).

Definition update_initial_window_size (new_size : Z) : ST t Error.t unit :=
  let! delta := gets (fun s => new_size - send_initial s) in
  let! new_window := gets (fun s => send_window s + delta) in
  if new_window >? MAX_WINDOW_SIZE
  then throw (Error.connection_error ErrorCode.FlowControlError
                "window size overflow after SETTINGS update")
  else modify (fun s => s <| send_window := new_window |> <| send_initial := new_size |>).

Definition should_send_window_update (s : t) : bool :=
  recv_window s <? recv_initial s / 2.

Definition window_update_increment (s : t) : Z :=
  let target := recv_initial s in
  let increment := target - recv_window s in
  if (increment >? 0) && (increment <=? MAX_WINDOW_SIZE) then as_u32 increment else 0.

(** ** Specification *)

(** The bounds every window keeps. The send window may be negative after
    SETTINGS shrank it, but never by more than the size it shrank from. *)
Definition wf (s : t) : Prop :=
  0 <= send_initial s <= MAX_WINDOW_SIZE /\
  0 <= recv_initial s <= MAX_WINDOW_SIZE /\
  send_initial s - MAX_WINDOW_SIZE <= send_window s <= MAX_WINDOW_SIZE /\
  0 <= recv_window s <= MAX_WINDOW_SIZE.

(** The events that change a window, as the peer and the application see them. *)
Inductive event : Type :=
| Sent (n : Z)                 (* DATA octets sent *)
| Credited (n : Z)             (* WINDOW_UPDATE received *)
| Resized (n : Z)              (* SETTINGS_INITIAL_WINDOW_SIZE received *)
| Received (n : Z)             (* DATA octets received *)
| Granted (n : Z).             (* WINDOW_UPDATE sent *)

Definition event_ok (e : event) : Prop :=
  match e with
  | Sent n | Received n => 0 <= n
  | Credited n | Granted n => 0 <= n
  | Resized n => 0 <= n <= MAX_WINDOW_SIZE
  end.

Definition step (e : event) : ST t Error.t unit :=
  match e with
  | Sent n => consume_send n
  | Credited n => recv_window_update n
  | Resized n => update_initial_window_size n
  | Received n => consume_recv n
  | Granted n => add_recv_window n
  end.

(** The windows as credit accounts: initial size plus credit minus use. *)
Fixpoint sent (es : list event) : Z :=
  match es with [] => 0 | Sent n :: es => n + sent es | _ :: es => sent es end.
Fixpoint credited (es : list event) : Z :=
  match es with [] => 0 | Credited n :: es => n + credited es | _ :: es => credited es end.
Fixpoint received (es : list event) : Z :=
  match es with [] => 0 | Received n :: es => n + received es | _ :: es => received es end.
Fixpoint granted (es : list event) : Z :=
  match es with [] => 0 | Granted n :: es => n + granted es | _ :: es => granted es end.

(** A run of accepted events; one that is rejected leaves the windows alone. *)
Inductive run : t -> list event -> t -> Prop :=
| run_nil s : run s [] s
| run_ok s e s' es s'' :
    event_ok e -> step e s = (Ok tt, s') -> run s' es s'' -> run s (e :: es) s''
| run_rejected s e err s' es s'' :
    step e s = (Err err, s') -> run s' es s'' -> run s es s''.

End FlowControl.

(** ** Lemmas *)
Import FlowControl.

Ltac unfold_fc :=
  unfold FlowControl.consume_send, FlowControl.consume_recv, FlowControl.recv_window_update,
    FlowControl.add_recv_window, FlowControl.update_initial_window_size,
    FlowControl.i64_try_from, bind, lift, gets, modify, throw.

Lemma fc_step_total e s :
  exists r s', step e s = (r, s') /\ r <> Panic.
Proof. destruct e; cbn; unfold_fc; repeat case_match; simplify_eq; eauto. Qed.

Lemma fc_step_err e s err s' : step e s = (Err err, s') -> s' = s.
Proof. destruct e; cbn; unfold_fc; repeat case_match; intros; simplify_eq; done. Qed.

Lemma fc_new_wf n : 0 <= n <= MAX_WINDOW_SIZE -> wf (FlowControl.new n).
Proof. unfold wf. cbn. lia. Qed.

Lemma fc_separate_wf a c :
  0 <= a <= MAX_WINDOW_SIZE -> 0 <= c <= MAX_WINDOW_SIZE -> wf (with_separate_windows a c).
Proof. unfold wf. cbn. lia. Qed.

Lemma fc_step_wf e s : event_ok e -> wf s -> wf (snd (step e s)).
Proof.
  unfold wf. destruct e; cbn; unfold_fc; intros He Hs; repeat case_match; simplify_eq; zbool;
    cbn in *; lia.
Qed.

Lemma fc_consume_send_spec n s :
  0 <= n <= I64_MAX ->
  consume_send n s =
  if n <=? send_window s then (Ok tt, s <| send_window := send_window s - n |>)
  else (Err (Error.connection_error ErrorCode.FlowControlError "send window exhausted"), s).
Proof.
  intros Hn. unfold_fc. assert ((n <=? I64_MAX) = true) as -> by lia.
  rewrite Z.gtb_ltb, Z.ltb_antisym. by destruct (n <=? send_window s).
Qed.

Lemma fc_consume_recv_spec n s :
  0 <= n <= I64_MAX ->
  consume_recv n s =
  if n <=? recv_window s then (Ok tt, s <| recv_window := recv_window s - n |>)
  else (Err (Error.connection_error ErrorCode.FlowControlError "recv window exceeded"), s).
Proof.
  intros Hn. unfold_fc. assert ((n <=? I64_MAX) = true) as -> by lia.
  rewrite Z.gtb_ltb, Z.ltb_antisym. by destruct (n <=? recv_window s).
Qed.

Lemma fc_send_available s : send_available s = Z.max 0 (send_window s).
Proof. unfold send_available. case_match; zbool; lia. Qed.

Lemma fc_run_wf s es s' : run s es s' -> wf s -> wf s'.
Proof.
  induction 1 as [|s e s1 es s' He Hs Hr IH|s e err s1 es s' Hs Hr IH]; [done| |]; intros Hwf; apply IH.
  - change s1 with (snd (Ok (E:=Error.t) tt, s1)). rewrite <- Hs. by apply fc_step_wf.
  - by apply fc_step_err in Hs as ->.
Qed.

Lemma fc_step_accounts e s s' :
  step e s = (Ok tt, s') ->
  send_window s' - send_initial s' = send_window s - send_initial s + credited [e] - sent [e] /\
  recv_window s' = recv_window s + granted [e] - received [e] /\
  recv_initial s' = recv_initial s.
Proof.
  destruct e; cbn; unfold_fc; repeat case_match; intros; simplify_eq; cbn; lia.
Qed.

Lemma fc_run_accounts s es s' :
  run s es s' ->
  send_window s' - send_initial s' = send_window s - send_initial s + credited es - sent es /\
  recv_window s' = recv_window s + granted es - received es /\
  recv_initial s' = recv_initial s.
Proof.
  induction 1 as [s|s e s1 es s' He Hs Hr IH|s e err s1 es s' Hs Hr IH].
  - cbn. lia.
  - apply fc_step_accounts in Hs. destruct e; cbn in *; lia.
  - apply fc_step_err in Hs as ->. exact IH.
Qed.

(** ** Properties *)

(** C32: Flow-control windows are exact credit accounts. Take any sequence of
    window operations (accepted ones and rejected ones, in any order) on a pair
    of windows created with initial sizes [a] (peer's) and [c] (ours). Both
    windows stay within the 2^31-1 bound of RFC 9113, the send window equals
    the current initial size plus the credit received minus the octets sent,
    also across SETTINGS changes, the receive window equals [c] plus the
    credit granted minus the octets received, and so the peer is never let to
    send more than it was granted. *)
Theorem flow_windows_are_credit_accounts (a c : Z) (es : list FlowControl.event) (s : FlowControl.t) :
  0 <= a <= MAX_WINDOW_SIZE -> 0 <= c <= MAX_WINDOW_SIZE ->
  FlowControl.run (FlowControl.with_separate_windows a c) es s ->
  FlowControl.wf s /\
  FlowControl.send_window s =
    FlowControl.send_initial s + FlowControl.credited es - FlowControl.sent es /\
  FlowControl.recv_window s = c + FlowControl.granted es - FlowControl.received es /\
  FlowControl.received es <= c + FlowControl.granted es.
Proof.
  intros Ha Hc Hr. assert (FlowControl.wf s) as Hwf by (eapply fc_run_wf; [done|by apply fc_separate_wf]).
  apply fc_run_accounts in Hr as (H1 & H2 & _). cbn in H1, H2.
  split_and!; [done|lia|lia|]. destruct Hwf as (_ & _ & _ & ?). lia.
Qed.

Lemma flow_windows_are_credit_accounts_witness :
  FlowControl.wf (FlowControl.mk (-65035) 65035 100 65535).
Proof.
  refine (proj1 (flow_windows_are_credit_accounts 65535 65535
    [FlowControl.Sent 65535; FlowControl.Resized 100; FlowControl.Received 1000;
     FlowControl.Credited 400; FlowControl.Granted 500] _ _ _ _)).
  - by vm_compute.
  - by vm_compute.
  - do 3 (eapply run_ok; [by vm_compute|reflexivity|]).
    eapply (run_rejected _ (FlowControl.Sent 1)); [reflexivity|].
    do 2 (eapply run_ok; [by vm_compute|reflexivity|]). apply run_nil.
Defined.
