(* ===== verification/Bounded.v ===== *)
(** * Bounded: the bounded ordered collections

    Models [src/src/bounded_set.rs] and [src/src/bounded_map.rs].  A
    [BTreeSet]/[BTreeMap] is the ascending list of its keys (with their
    values); [pop_first] is the tail of that list. *)

From Stdlib Require Import Sorting.Sorted.
From S2P Require Import Prelude.

Module BoundedMap.

Record t (V : Type) : Type := mk { inner : list (Z * V); max_size : Z }.
Arguments mk {V} inner max_size.
Arguments inner {V} _.
Arguments max_size {V} _.

Definition new {V} (max_size : Z) : t V := mk [] max_size.

(** [BTreeMap::insert]: the value of an equal key is replaced. *)
Fixpoint btree_insert {V} (k : Z) (v : V) (l : list (Z * V)) : list (Z * V) :=
  match l with
  | [] => [(k, v)]
  | (k', v') :: l' =>
      if k <? k' then (k, v) :: l
      else if k =? k' then (k, v) :: l'
      else (k', v') :: btree_insert k v l'
  end.

(** [while self.inner.len() > self.max_size { pop_first() }] *)
Fixpoint evict {V} (max : Z) (l : list (Z * V)) : list (Z * V) :=
  match l with
  | [] => []
  | _ :: l' => if len l >? max then evict max l' else l
  end.

Definition insert {V} (k : Z) (v : V) (m : t V) : t V :=
  mk (evict (max_size m) (btree_insert k v (inner m))) (max_size m).

Fixpoint btree_get {V} (k : Z) (l : list (Z * V)) : option V :=
  match l with
  | [] => None
  | (k', v) :: l' => if k =? k' then Some v else btree_get k l'
  end.

Definition get {V} (k : Z) (m : t V) : option V := btree_get k (inner m).

Definition contains {V} (k : Z) (m : t V) : bool :=
  match get k m with Some _ => true | None => false end.

Definition keys {V} (l : list (Z * V)) : list Z := map fst l.

(** Ascending keys and no more entries than the bound. *)
Definition wf {V} (m : t V) : Prop :=
  StronglySorted Z.lt (keys (inner m)) /\ len (inner m) <= max_size m.

End BoundedMap.

(** A set is a map to [unit]; [bounded_set.rs] repeats the code of
    [bounded_map.rs] on [BTreeSet]. *)
Module BoundedSet.

Record t : Type := mk { inner : list Z; max_size : Z }.

Definition new (max_size : Z) : t := mk [] max_size.

(** [BTreeSet::insert]. *)
Fixpoint btree_insert (v : Z) (l : list Z) : list Z :=
  match l with
  | [] => [v]
  | x :: l' => if v <? x then v :: l else if v =? x then l else x :: btree_insert v l'
  end.

Fixpoint evict (max : Z) (l : list Z) : list Z :=
  match l with
  | [] => []
  | _ :: l' => if len l >? max then evict max l' else l
  end.

Definition insert (v : Z) (s : t) : t :=
  mk (evict (max_size s) (btree_insert v (inner s))) (max_size s).

Definition contains (v : Z) (s : t) : bool := existsb (Z.eqb v) (inner s).

Definition wf (s : t) : Prop :=
  StronglySorted Z.lt (inner s) /\ len (inner s) <= max_size s.

End BoundedSet.

(** ** Lemmas *)
Import BoundedSet.

Lemma set_contains_spec v s : contains v s = true <-> v ∈ inner s.
Proof.
  unfold contains. rewrite existsb_exists, list_elem_of_In.
  split; [intros (x & Hx & ->%Z.eqb_eq); done|intros H; exists v; by rewrite Z.eqb_refl].
Qed.

Lemma set_btree_insert_elem v l x : x ∈ btree_insert v l <-> x = v \/ x ∈ l.
Proof.
  induction l as [|y l IH]; cbn.
  - set_solver.
  - destruct (v <? y) eqn:E1; [set_solver|].
    destruct (v =? y) eqn:E2; zbool; subst; [set_solver|].
    rewrite !elem_of_cons, IH. set_solver.
Qed.

Lemma set_btree_insert_sorted v l :
  StronglySorted Z.lt l -> StronglySorted Z.lt (btree_insert v l).
Proof.
  induction 1 as [|y l Hl IH Hy]; cbn.
  - repeat constructor.
  - destruct (v <? y) eqn:E1; zbool.
    + constructor; [by constructor|]. constructor; [done|].
      eapply Forall_impl; [exact Hy|]. cbn. lia.
    + destruct (v =? y) eqn:E2; zbool; [by constructor|]. constructor; [done|].
      apply Forall_forall. intros x [->|Hx]%set_btree_insert_elem; [lia|].
      rewrite Forall_forall in Hy. auto.
Qed.

(** Eviction drops a prefix, as long as needed and no longer. *)
Lemma set_evict_spec max l :
  0 <= max ->
  exists d, l = d ++ evict max l /\ len d = Z.max 0 (len l - max).
Proof.
  intros Hm. induction l as [|x l IH]; cbn [evict].
  - exists []. rewrite len_nil. split; [done|lia].
  - destruct (len (x :: l) >? max) eqn:E; zbool.
    + destruct IH as (d & Hd & Hl). exists (x :: d). cbn. rewrite <- Hd.
      split; [done|]. len_lia.
    + exists []. rewrite len_nil. split; [done|]. lia.
Qed.

Lemma sorted_app_lt (l1 l2 : list Z) x y :
  StronglySorted Z.lt (l1 ++ l2) -> x ∈ l1 -> y ∈ l2 -> x < y.
Proof.
  induction l1 as [|z l1 IH]; cbn; [set_solver|].
  intros Hs Hx Hy. inversion Hs as [|? ? Hs' Hz]; subst.
  rewrite Forall_forall in Hz. apply elem_of_cons in Hx as [->|Hx]; [|auto].
  apply Hz. set_solver.
Qed.

Lemma sorted_app_r (l1 l2 : list Z) :
  StronglySorted Z.lt (l1 ++ l2) -> StronglySorted Z.lt l2.
Proof. induction l1 as [|z l1 IH]; cbn; [done|]. intros H. inversion H; auto. Qed.

Lemma bounded_set_new_wf max : 0 <= max -> wf (new max).
Proof. intros. split; [constructor|done]. Qed.

Lemma bounded_set_insert_wf v s : wf s -> 0 <= max_size s -> wf (insert v s).
Proof.
  intros [Hs Hl] Hm. unfold insert, wf. cbn.
  destruct (set_evict_spec (max_size s) (btree_insert v (inner s)) Hm) as (d & Hd & Hlen).
  pose proof (set_btree_insert_sorted v _ Hs) as Hs'.
  split.
  - rewrite Hd in Hs'. by apply sorted_app_r in Hs'.
  - assert (len (btree_insert v (inner s)) = len d + len (evict (max_size s) (btree_insert v (inner s)))) as Hle
      by (rewrite Hd at 1; by rewrite len_app).
    lia.
Qed.

Lemma bounded_set_max_insert v s : max_size (insert v s) = max_size s.
Proof. done. Qed.

(** What an insertion keeps: the new element and the old ones, less the
    smallest when there are too many. *)
Lemma bounded_set_insert_elem v s :
  wf s -> 0 <= max_size s ->
  exists d, (forall x, x ∈ d \/ x ∈ inner (insert v s) <-> x = v \/ x ∈ inner s) /\
            (forall x y, x ∈ d -> y ∈ inner (insert v s) -> x < y) /\
            (len (inner s) < max_size s -> d = []).
Proof.
  intros [Hs Hl] Hm. unfold insert. cbn.
  destruct (set_evict_spec (max_size s) (btree_insert v (inner s)) Hm) as (d & Hd & Hlen).
  exists d. pose proof (set_btree_insert_sorted v _ Hs) as Hs'. rewrite Hd in Hs'.
  split_and!.
  - intros x. rewrite <- set_btree_insert_elem, <- elem_of_app. by rewrite <- Hd.
  - intros x y. by apply sorted_app_lt.
  - intros Hlt. apply len_zero_nil. rewrite Hlen.
    assert (len (btree_insert v (inner s)) <= len (inner s) + 1); [|lia].
    clear. induction (inner s) as [|y l IH]; cbn [btree_insert]; [done|].
    repeat case_match; len_lia.
Qed.

(** Eviction keeps a suffix, and evicting early loses nothing that evicting
    once at the end would keep. *)
Lemma set_evict_drop max l :
  0 <= max -> evict max l = drop (length l - Z.to_nat max) l.
Proof.
  intros Hm. induction l as [|x l IH]; [by rewrite drop_nil|].
  change (evict max (x :: l)) with (if len (x :: l) >? max then evict max l else x :: l).
  destruct (len (x :: l) >? max) eqn:E; zbool; unfold len in E; cbn [length] in *.
  - rewrite IH. by replace (S (length l) - Z.to_nat max)%nat with (S (length l - Z.to_nat max)) by lia.
  - by replace (S (length l) - Z.to_nat max)%nat with 0%nat by lia.
Qed.

Lemma set_btree_insert_longer v l : len l <= len (btree_insert v l).
Proof. induction l as [|x l IH]; cbn [btree_insert]; repeat case_match; len_lia. Qed.

Lemma evict_over max x l : len (x :: l) > max -> evict max (x :: l) = evict max l.
Proof.
  intros H. change (evict max (x :: l)) with (if len (x :: l) >? max then evict max l else x :: l).
  destruct (len (x :: l) >? max) eqn:E; zbool; [done|lia].
Qed.

Lemma set_insert_smaller v l : Forall (Z.lt v) l -> btree_insert v l = v :: l.
Proof.
  destruct l as [|x l]; [done|]. intros H. inversion H; subst. cbn.
  by assert ((v <? x) = true) as -> by lia.
Qed.

Lemma set_evict_insert max v l :
  StronglySorted Z.lt l ->
  evict max (btree_insert v (evict max l)) = evict max (btree_insert v l).
Proof.
  induction 1 as [|x l Hl IH Hx]; [done|].
  destruct (Z.le_gt_cases (len (x :: l)) max) as [Hle|Hgt].
  { change (evict max (x :: l)) with (if len (x :: l) >? max then evict max l else x :: l).
    destruct (len (x :: l) >? max) eqn:E; zbool; [lia|done]. }
  rewrite (evict_over max x l), IH by lia. cbn [btree_insert].
  assert (len (x :: l) = len l + 1) as Hlen by len_lia.
  destruct (v <? x) eqn:E1; [|destruct (v =? x) eqn:E2]; zbool.
  - rewrite !evict_over by (rewrite ?len_cons in *; lia). rewrite set_insert_smaller, evict_over; [done|len_lia|].
    eapply Forall_impl; [exact Hx|]. cbn. lia.
  - subst. rewrite evict_over by lia. by rewrite set_insert_smaller, evict_over by (done || len_lia).
  - rewrite evict_over; [done|]. pose proof (set_btree_insert_longer v l). len_lia.
Qed.

(** All the values of [xs], sorted and without duplicates: the unbounded set. *)
Definition btree_of (xs : list Z) : list Z := foldl (fun l v => btree_insert v l) [] xs.

Lemma btree_of_snoc xs v : btree_of (xs ++ [v]) = btree_insert v (btree_of xs).
Proof. unfold btree_of. by rewrite foldl_app. Qed.

Lemma btree_of_sorted xs : StronglySorted Z.lt (btree_of xs).
Proof.
  induction xs as [|v xs IH] using rev_ind; [constructor|].
  rewrite btree_of_snoc. by apply set_btree_insert_sorted.
Qed.

Lemma btree_of_elem xs x : x ∈ btree_of xs <-> x ∈ xs.
Proof.
  induction xs as [|v xs IH] using rev_ind; [done|].
  rewrite btree_of_snoc, set_btree_insert_elem, IH. set_solver.
Qed.

Lemma insert_all_evict max xs :
  foldl (fun s v => insert v s) (new max) xs = mk (evict max (btree_of xs)) max.
Proof.
  induction xs as [|v xs IH] using rev_ind; [done|].
  rewrite foldl_app, IH, btree_of_snoc. unfold insert. cbn [foldl inner max_size].
  by rewrite set_evict_insert by apply btree_of_sorted.
Qed.

(** ** Properties *)

(** A bounded set remembers exactly the largest values ever inserted. For
    any sequence of insertions into a fresh set of capacity [max], the content
    is the last [max] elements of the sorted, duplicate-free list of all the
    inserted values: evicting on every insertion never costs a value that the
    capacity has room for, in whatever order the values came. *)
Theorem bounded_set_keeps_largest (max : Z) (xs : list Z) :
  0 <= max ->
  exists all,
    StronglySorted Z.lt all /\ (forall x, x ∈ all <-> x ∈ xs) /\
    inner (foldl (fun s v => BoundedSet.insert v s) (BoundedSet.new max) xs)
      = drop (length all - Z.to_nat max) all.
Proof.
  intros Hm. exists (btree_of xs). split_and!.
  - apply btree_of_sorted.
  - apply btree_of_elem.
  - rewrite insert_all_evict. by apply set_evict_drop.
Qed.

Lemma bounded_set_keeps_largest_witness :
  exists all,
    StronglySorted Z.lt all /\ (forall x, x ∈ all <-> x ∈ [9; 3; 7; 1; 7; 5]) /\
    inner (foldl (fun s v => BoundedSet.insert v s) (BoundedSet.new 3) [9; 3; 7; 1; 7; 5])
      = drop (length all - Z.to_nat 3) all.
Proof. exact (bounded_set_keeps_largest 3 [9; 3; 7; 1; 7; 5] ltac:(done)). Defined.
