(* ===== verification/StreamCore.v ===== *)
(** * StreamCore: one HTTP/2 stream

    Models [src/src/stream/state.rs] (the state machine), [src/src/stream/buffer.rs]
    (the send and receive buffers). *)

From S2P Require Import Prelude Errors StreamIds Config Flow.

(** ** State machine *)
Module StreamState.

Inductive t : Type :=
| Idle | ReservedLocal | ReservedRemote | Open | HalfClosedLocal | HalfClosedRemote | Closed.

#[global] Instance eq_dec : EqDecision t.
Proof. solve_decision. Defined.

Definition is_open (s : t) : bool := match s with Open => true | _ => false end.
Definition is_closed (s : t) : bool := match s with Closed => true | _ => false end.
Definition can_send (s : t) : bool :=
  match s with Open | HalfClosedRemote => true | _ => false end.
Definition can_recv (s : t) : bool :=
  match s with Open | HalfClosedLocal => true | _ => false end.

End StreamState.

Module StateMachine.
Import StreamState.

Record t : Type := mk { state : StreamState.t }.

#[global] Instance eta_sm : Eta t := fun s => mk (state s).

Definition new : t := mk Idle.

Definition send_headers (end_stream : bool) : ST t Error.t unit :=
  let! st := gets state in
  let set st' := modify (fun s => s <| state := st' |>) in
  match st with
  | Idle => if end_stream then set HalfClosedLocal else set Open
  | ReservedLocal => if end_stream then set Closed else set HalfClosedRemote
  | Open => if end_stream then set HalfClosedLocal else set Open
  | HalfClosedRemote => if end_stream then set Closed else set HalfClosedRemote
  | _ => throw (Error.stream_error ErrorCode.StreamClosed "cannot send HEADERS in current state")
  end.

Definition recv_headers (end_stream : bool) : ST t Error.t unit :=
  let! st := gets state in
  let set st' := modify (fun s => s <| state := st' |>) in
  match st with
  | Idle => if end_stream then set HalfClosedRemote else set Open
  | ReservedRemote => if end_stream then set Closed else set HalfClosedLocal
  | Open | HalfClosedLocal =>
      if end_stream
      then (if bool_decide (st = HalfClosedLocal) then set Closed else set HalfClosedRemote)
      else set st
  | _ => throw (Error.stream_error ErrorCode.StreamClosed
                  "cannot receive HEADERS in current state")
  end.

Definition send_data (_end_stream : bool) : ST t Error.t unit :=
  let! st := gets state in
  match st with
  | Open | HalfClosedRemote => ret tt
  | _ => throw (Error.stream_error ErrorCode.StreamClosed "cannot send DATA in current state")
  end.

Definition complete_send_data (end_stream : bool) : ST t Error.t unit :=
  if negb end_stream then ret tt
  else
    let! st := gets state in
    match st with
    | Open => modify (fun s => s <| state := HalfClosedLocal |>)
    | HalfClosedRemote => modify (fun s => s <| state := Closed |>)
    | _ => throw (Error.stream_error ErrorCode.StreamClosed
                    "complete_send_data called in invalid state")
    end.

Definition recv_data (end_stream : bool) : ST t Error.t unit :=
  let! st := gets state in
  match st with
  | Open =>
      if end_stream then modify (fun s => s <| state := HalfClosedRemote |>) else ret tt
  | HalfClosedLocal =>
      if end_stream then modify (fun s => s <| state := Closed |>) else ret tt
  | _ => throw (Error.stream_error ErrorCode.StreamClosed
                  "cannot receive DATA in current state")
  end.

Definition send_rst_stream : ST t Error.t unit := modify (fun s => s <| state := Closed |>).
Definition recv_rst_stream : ST t Error.t unit := modify (fun s => s <| state := Closed |>).

Definition sent_end_stream (s : t) : bool :=
  match state s with HalfClosedLocal | Closed => true | _ => false end.
Definition received_end_stream (s : t) : bool :=
  match state s with HalfClosedRemote | Closed => true | _ => false end.

(** ** Specification

    The operations a connection performs on a stream it did not reserve, and
    what an observer remembers of those that succeeded: whether HEADERS opened
    the stream, which sides ended it, and whether it was reset. *)
Inductive op : Type :=
| SendHeaders (end_stream : bool)
| RecvHeaders (end_stream : bool)
| SendData (end_stream : bool)          (* queueing DATA: no transition *)
| CompleteSendData (end_stream : bool)  (* the frame left: the transition *)
| RecvData (end_stream : bool)
| SendRst
| RecvRst.

Definition step (o : op) : ST t Error.t unit :=
  match o with
  | SendHeaders e => send_headers e
  | RecvHeaders e => recv_headers e
  | SendData e => send_data e
  | CompleteSendData e => complete_send_data e
  | RecvData e => recv_data e
  | SendRst => send_rst_stream
  | RecvRst => recv_rst_stream
  end.

Record history : Type := mk_history {
  opened : bool; local_ended : bool; remote_ended : bool; was_reset : bool
}.

Definition start : history := mk_history false false false false.

Definition observe (o : op) (h : history) : history :=
  match o with
  | SendHeaders e => mk_history true (local_ended h || e) (remote_ended h) (was_reset h)
  | RecvHeaders e => mk_history true (local_ended h) (remote_ended h || e) (was_reset h)
  | SendData _ => h
  | CompleteSendData e => mk_history (opened h) (local_ended h || e) (remote_ended h) (was_reset h)
  | RecvData e => mk_history (opened h) (local_ended h) (remote_ended h || e) (was_reset h)
  | SendRst | RecvRst => mk_history (opened h) (local_ended h) (remote_ended h) true
  end.

(** RFC 9113 section 5.1 without server push: the state is a function of the
    history. *)
Definition abstract_state (h : history) : StreamState.t :=
  if was_reset h then Closed
  else if negb (opened h) then Idle
  else match local_ended h, remote_ended h with
       | false, false => Open
       | true, false => HalfClosedLocal
       | false, true => HalfClosedRemote
       | true, true => Closed
       end.

(** Whether the specification lets an operation happen: a side that ended the
    stream sends nothing more, DATA needs an opened stream, nothing but a
    reset happens after a reset. *)
Definition allowed (o : op) (h : history) : bool :=
  match o with
  | SendHeaders _ => negb (was_reset h) && negb (local_ended h)
  | RecvHeaders _ => negb (was_reset h) && negb (remote_ended h)
  | SendData _ => negb (was_reset h) && opened h && negb (local_ended h)
  | CompleteSendData e => negb e || (negb (was_reset h) && opened h && negb (local_ended h))
  | RecvData _ => negb (was_reset h) && opened h && negb (remote_ended h)
  | SendRst | RecvRst => true
  end.

(** All sequences of operations on a fresh stream, with the history they leave:
    a rejected operation is not recorded. *)
Inductive runs : t -> history -> Prop :=
| runs_start : runs new start
| runs_ok s h o s' : runs s h -> step o s = (Ok tt, s') -> runs s' (observe o h)
| runs_err s h o e s' : runs s h -> step o s = (Err e, s') -> runs s' h.

End StateMachine.

(** ** Buffers *)
Module SendBuffer.

Record t : Type := mk { data : list Z; max_size : Z }.

#[global] Instance eta_sb : Eta t := fun s => mk (data s) (max_size s).

Definition new (max_size : Z) : t := mk [] max_size.

Definition push (d : list Z) : ST t Error.t Z :=
  let! available := gets (fun s => saturating_sub (max_size s) (len (data s))) in
  let to_push := Z.min (len d) available in
  let! pushed := lift (slice d 0 to_push) in
  modify (fun s => s <| data := data s ++ pushed |>) ;!
  ret (len d - to_push).

Definition can_push (s : t) (size : Z) : bool :=
  saturating_add (len (data s)) size <=? max_size s.

(** [drain(..size).collect()] *)
Definition pop (max : Z) : ST t Error.t (list Z) :=
  let! size := gets (fun s => Z.min (len (data s)) max) in
  let! out := gets (fun s => take (Z.to_nat size) (data s)) in
  modify (fun s => s <| data := drop (Z.to_nat size) (data s) |>) ;!
  ret out.

Definition length (s : t) : Z := len (data s).
Definition is_empty (s : t) : bool := match data s with [] => true | _ => false end.

End SendBuffer.

Module RecvBuffer.

Record t : Type := mk { data : list Z; max_size : Z }.

#[global] Instance eta_rb : Eta t := fun s => mk (data s) (max_size s).

Definition new (max_size : Z) : t := mk [] max_size.

Definition push (d : list Z) : ST t Error.t bool :=
  let! full := gets (fun s => saturating_add (len (data s)) (len d) >? max_size s) in
  if full then ret false
  else modify (fun s => s <| data := data s ++ d |>) ;! ret true.

Definition pop (max : Z) : ST t Error.t (list Z) :=
  let! size := gets (fun s => Z.min (len (data s)) max) in
  let! out := gets (fun s => take (Z.to_nat size) (data s)) in
  modify (fun s => s <| data := drop (Z.to_nat size) (data s) |>) ;!
  ret out.

Definition length (s : t) : Z := len (data s).
Definition is_empty (s : t) : bool := match data s with [] => true | _ => false end.

End RecvBuffer.

(** ** Lemmas *)
Import StreamState StateMachine.

Ltac unfold_sm :=
  unfold StateMachine.send_headers, StateMachine.recv_headers, StateMachine.send_data,
    StateMachine.complete_send_data, StateMachine.recv_data, StateMachine.send_rst_stream,
    StateMachine.recv_rst_stream, bind, gets, modify, throw, ret.

Lemma sm_step_total o s : fst (StateMachine.step o s) <> Panic.
Proof. by destruct s as [[]], o as [[]|[]|[]|[]|[]| |]. Qed.

Lemma sm_step_err o s e s' : StateMachine.step o s = (Err e, s') -> s' = s.
Proof. destruct s as [[]], o as [[]|[]|[]|[]|[]| |]; vm_compute; congruence. Qed.

(** One operation against the specification. *)
Lemma sm_step_refines o s h :
  state s = abstract_state h -> (opened h = false -> local_ended h = false /\ remote_ended h = false) ->
  if allowed o h
  then exists s', StateMachine.step o s = (Ok tt, s') /\ state s' = abstract_state (observe o h)
  else exists e, StateMachine.step o s = (Err e, s).
Proof.
  destruct s as [st], h as [[] [] [] []]; cbn; intros -> Hh;
    try (destruct Hh; [done|discriminate]);
    destruct o as [[]|[]|[]|[]|[]| |]; vm_compute; eauto.
Qed.

Lemma observe_opened o h :
  allowed o h = true ->
  (opened h = false -> local_ended h = false /\ remote_ended h = false) ->
  opened (observe o h) = false -> local_ended (observe o h) = false /\ remote_ended (observe o h) = false.
Proof.
  destruct h as [[] [] [] []], o as [[]|[]|[]|[]|[]| |]; cbn; intros ? Hh ?; try done;
    by destruct Hh.
Qed.

Lemma sm_runs_refines s h :
  runs s h ->
  state s = abstract_state h /\
  (opened h = false -> local_ended h = false /\ remote_ended h = false).
Proof.
  induction 1 as [|s h o s' _ [IH1 IH2] Hs|s h o e s' _ IH Hs]; [split; [done|by intros; split]| |].
  - pose proof (sm_step_refines o s h IH1 IH2) as Ho.
    destruct (allowed o h) eqn:Ha; [|by destruct Ho as [e He]; congruence].
    destruct Ho as (s1 & H1 & H2). rewrite H1 in Hs. injection Hs as <-.
    split; [exact H2|by apply observe_opened].
  - by apply sm_step_err in Hs as ->.
Qed.

(** *** Buffers *)

Lemma send_push_spec d s :
  0 <= SendBuffer.max_size s ->
  exists k, 0 <= k <= len d /\
    k = Z.min (len d) (Z.max 0 (SendBuffer.max_size s - len (SendBuffer.data s))) /\
    SendBuffer.push d s =
      (Ok (len d - k),
       SendBuffer.mk (SendBuffer.data s ++ take (Z.to_nat k) d) (SendBuffer.max_size s)).
Proof.
  intros Hm. unfold SendBuffer.push, bind, gets, lift, modify, ret, saturating_sub. cbn.
  set (k := Z.min _ _). exists k.
  assert (0 <= k <= len d) as Hk by (subst k; len_lia).
  rewrite slice_spec by lia. cbn. rewrite Z.sub_0_r, drop_0. done.
Qed.

(** The check made before queueing makes the push total. *)
Lemma send_push_all d s :
  SendBuffer.can_push s (len d) = true -> SendBuffer.max_size s < USIZE_MAX ->
  SendBuffer.push d s =
    (Ok 0, SendBuffer.mk (SendBuffer.data s ++ d) (SendBuffer.max_size s)).
Proof.
  unfold SendBuffer.can_push, saturating_add. intros Hc Hm. zbool.
  pose proof (len_nonneg (SendBuffer.data s)). pose proof (len_nonneg d).
  destruct (send_push_spec d s) as (k & Hk & Hd & ->); [lia|].
  assert (k = len d) as -> by lia.
  rewrite Z.sub_diag, take_ge; [done|]. unfold len. lia.
Qed.

Lemma send_pop_spec n s :
  0 <= n ->
  SendBuffer.pop n s =
    (Ok (take (Z.to_nat n) (SendBuffer.data s)),
     SendBuffer.mk (drop (Z.to_nat n) (SendBuffer.data s)) (SendBuffer.max_size s)).
Proof.
  intros Hn. unfold SendBuffer.pop, bind, gets, modify, ret. cbn.
  destruct (Z.le_gt_cases (len (SendBuffer.data s)) n) as [H|H].
  - rewrite Z.min_l by done. rewrite !take_ge, !drop_ge by (unfold len in *; lia). done.
  - by rewrite Z.min_r by lia.
Qed.

Lemma recv_push_spec d s :
  RecvBuffer.push d s =
  if saturating_add (len (RecvBuffer.data s)) (len d) <=? RecvBuffer.max_size s
  then (Ok true, RecvBuffer.mk (RecvBuffer.data s ++ d) (RecvBuffer.max_size s))
  else (Ok false, s).
Proof.
  unfold RecvBuffer.push, bind, gets, modify, ret.
  rewrite Z.gtb_ltb, Z.ltb_antisym.
  by destruct (saturating_add _ _ <=? RecvBuffer.max_size s).
Qed.

(** A history of pushes and pops on a send buffer: what was accepted and what
    was handed out. *)
Inductive buffer_op : Type := Push (d : list Z) | Pop (n : Z).

Fixpoint buffer_run (ops : list buffer_op) (s : SendBuffer.t) : list Z * list Z * SendBuffer.t :=
  match ops with
  | [] => ([], [], s)
  | Push d :: ops =>
      match SendBuffer.push d s with
      | (Ok rest, s') =>
          let '(i, o, s'') := buffer_run ops s' in
          (take (Z.to_nat (len d - rest)) d ++ i, o, s'')
      | (_, s') => buffer_run ops s'
      end
  | Pop n :: ops =>
      match SendBuffer.pop n s with
      | (Ok d, s') => let '(i, o, s'') := buffer_run ops s' in (i, d ++ o, s'')
      | (_, s') => buffer_run ops s'
      end
  end.

Lemma buffer_run_fifo ops s :
  Forall (fun o => match o with Push _ => True | Pop n => 0 <= n end) ops ->
  len (SendBuffer.data s) <= SendBuffer.max_size s ->
  let '(i, o, s') := buffer_run ops s in
  SendBuffer.data s ++ i = o ++ SendBuffer.data s' /\
  len (SendBuffer.data s') <= SendBuffer.max_size s' /\
  SendBuffer.max_size s' = SendBuffer.max_size s.
Proof.
  intros Hops. revert s. induction Hops as [|[d|n] ops Ho _ IH]; intros s Hs; cbn [buffer_run].
  - by rewrite app_nil_r.
  - pose proof (len_nonneg (SendBuffer.data s)).
    destruct (send_push_spec d s) as (k & Hk & Hd & ->); [lia|].
    replace (len d - (len d - k)) with k by lia.
    set (s1 := SendBuffer.mk _ _).
    assert (len (SendBuffer.data s1) <= SendBuffer.max_size s1) as H1.
    { subst s1. cbn. rewrite len_app, len_take. len_lia. }
    specialize (IH s1 H1). destruct (buffer_run ops s1) as [[i o] s2].
    destruct IH as (H2 & H3 & H4). split_and!; [|done|done].
    rewrite <- H2. subst s1. cbn. by rewrite <- app_assoc.
  - rewrite send_pop_spec by done. set (s1 := SendBuffer.mk _ _).
    assert (len (SendBuffer.data s1) <= SendBuffer.max_size s1) as H1.
    { subst s1. cbn. pose proof (len_nonneg (SendBuffer.data s)). rewrite len_drop. lia. }
    specialize (IH s1 H1). destruct (buffer_run ops s1) as [[i o] s2].
    destruct IH as (H2 & H3 & H4). split_and!; [|done|done].
    rewrite <- app_assoc, <- H2, app_assoc. subst s1. cbn. by rewrite take_drop.
Qed.

(** ** Properties *)

(** C31: The stream state machine refines the life cycle of RFC 9113 section
    5.1. For every sequence of operations on a fresh stream, accepted or
    rejected, the concrete state is the one the specification reads off the
    history of accepted operations (opened, ended by each side, reset); the
    next operation succeeds exactly when the specification allows it and then
    lands in the specified state, and a refused operation changes nothing. *)
Theorem stream_state_refines_lifecycle (s : StateMachine.t) (h : StateMachine.history)
    (o : StateMachine.op) :
  StateMachine.runs s h ->
  state s = StateMachine.abstract_state h /\
  if StateMachine.allowed o h
  then exists s', StateMachine.step o s = (Ok tt, s') /\
                  state s' = StateMachine.abstract_state (StateMachine.observe o h)
  else exists e, StateMachine.step o s = (Err e, s).
Proof. intros [H1 H2]%sm_runs_refines. split; [done|by apply sm_step_refines]. Qed.

Lemma stream_state_refines_lifecycle_witness :
  exists e, StateMachine.step (StateMachine.RecvData true) (StateMachine.mk HalfClosedRemote)
            = (Err e, StateMachine.mk HalfClosedRemote).
Proof.
  refine (proj2 (stream_state_refines_lifecycle (StateMachine.mk HalfClosedRemote)
    (StateMachine.mk_history true false true false) (StateMachine.RecvData true) _)).
  apply (runs_ok (StateMachine.mk Open) (StateMachine.mk_history true false false false)
           (StateMachine.RecvData true)); [|reflexivity].
  apply (runs_ok StateMachine.new StateMachine.start (StateMachine.SendHeaders false));
    [constructor|reflexivity].
Defined.

(** The send buffer is a bounded FIFO. Over any sequence of pushes
    (partially accepted when the buffer fills) and pops, what was buffered
    followed by what was accepted is exactly what was handed out followed by
    what is still buffered, in order and without loss or duplication, and the
    buffer never exceeds its configured size. *)
Theorem send_buffer_is_bounded_fifo (max : Z) (ops : list buffer_op) :
  0 <= max -> Forall (fun o => match o with Push _ => True | Pop n => 0 <= n end) ops ->
  let '(accepted, popped, s) := buffer_run ops (SendBuffer.new max) in
  accepted = popped ++ SendBuffer.data s /\ len (SendBuffer.data s) <= max.
Proof.
  intros Hm Hops. pose proof (buffer_run_fifo ops (SendBuffer.new max) Hops Hm) as H.
  destruct (buffer_run ops _) as [[i o] s]. cbn in H. destruct H as (H1 & H2 & H3).
  split; [done|lia].
Qed.

Lemma send_buffer_is_bounded_fifo_witness :
  [1; 2; 3; 4] = [1; 2] ++ [3; 4] /\ len [3; 4] <= 3.
Proof.
  refine (send_buffer_is_bounded_fifo 3 [Push [1; 2]; Pop 1; Push [3; 4]; Push [5]; Pop 1] _ _).
  - done.
  - repeat (apply Forall_cons_2; [done|]). apply Forall_nil_2.
Defined.
