(* ===== verification/FrameTypes.v ===== *)
(** * FrameTypes: the frames of HTTP/2 as data

    Models [src/src/frame.rs] (frame types, headers and payload records),
    [src/src/frame/flags.rs] and the range-checked field types of
    [src/src/frame/error.rs]. *)

From S2P Require Import Prelude Errors StreamIds Config.

Definition FRAME_HEADER_SIZE : Z := 9.

(** ** Frame types *)
Module FrameType.

Inductive t : Type :=
| Data | Headers | Priority | RstStream | Settings | PushPromise | Ping | Goaway
| WindowUpdate | Continuation | PriorityUpdate.

#[global] Instance eq_dec : EqDecision t.
Proof. solve_decision. Defined.

Definition name (ft : t) : string :=
  match ft with
  | Data => "DATA"
  | Headers => "HEADERS"
  | Priority => "PRIORITY"
  | RstStream => "RST_STREAM"
  | Settings => "SETTINGS"
  | PushPromise => "PUSH_PROMISE"
  | Ping => "PING"
  | Goaway => "GOAWAY"
  | WindowUpdate => "WINDOW_UPDATE"
  | Continuation => "CONTINUATION"
  | PriorityUpdate => "PRIORITY_UPDATE"
  end.

Definition from_u8 (value : Z) : option t :=
  match value with
  | 0x00 => Some Data
  | 0x01 => Some Headers
  | 0x02 => Some Priority
  | 0x03 => Some RstStream
  | 0x04 => Some Settings
  | 0x05 => Some PushPromise
  | 0x06 => Some Ping
  | 0x07 => Some Goaway
  | 0x08 => Some WindowUpdate
  | 0x09 => Some Continuation
  | 0x10 => Some PriorityUpdate
  | _ => None
  end.

Definition as_u8 (ft : t) : Z :=
  match ft with
  | Data => 0x00
  | Headers => 0x01
  | Priority => 0x02
  | RstStream => 0x03
  | Settings => 0x04
  | PushPromise => 0x05
  | Ping => 0x06
  | Goaway => 0x07
  | WindowUpdate => 0x08
  | Continuation => 0x09
  | PriorityUpdate => 0x10
  end.

End FrameType.

(** ** Flags *)
Module FrameFlags.

Record t : Type := mk { bits : Z }.

Definition END_STREAM : Z := 0x01.
Definition ACK : Z := 0x01.
Definition END_HEADERS : Z := 0x04.
Definition PADDED : Z := 0x08.
Definition PRIORITY : Z := 0x20.

Definition empty : t := mk 0.
Definition from_bits (bits : Z) : t := mk bits.
Definition contains (f : t) (flag : Z) : bool := Z.land (bits f) flag =? flag.
Definition set (f : t) (flag : Z) : t := mk (Z.lor (bits f) flag).
Definition is_end_stream (f : t) : bool := contains f END_STREAM.
Definition is_ack (f : t) : bool := contains f ACK.
Definition is_end_headers (f : t) : bool := contains f END_HEADERS.
Definition is_padded (f : t) : bool := contains f PADDED.
Definition is_priority (f : t) : bool := contains f PRIORITY.

End FrameFlags.

(** ** Range-checked fields (frame/error.rs) *)
Module FrameError.

Inductive t : Type :=
| ZeroStreamIdNotAllowed (frame_type : FrameType.t)
| NonZeroStreamIdNotAllowed (frame_type : FrameType.t) (stream_id : Z)
| ZeroWindowIncrement
| WindowIncrementOutOfRange (value : Z)
| InvalidWeight (value : Z)
| PaddingExceedsPayload (padding payload_len : Z)
| LastStreamIdOutOfRange (value : Z).

End FrameError.

Module WindowIncrement.

Record t : Type := mk { get : Z }.

Definition MAX : Z := Z.shiftl 1 31 - 1.

Definition new (increment : Z) : result FrameError.t t :=
  if increment =? 0 then Err FrameError.ZeroWindowIncrement
  else if increment >? MAX then Err (FrameError.WindowIncrementOutOfRange increment)
  else let? nz := expect (ok_or (NonZeroU32_new increment) tt) in Ok (mk nz).

Definition from_static (increment : Z) : result FrameError.t t :=
  if increment <=? MAX
  then match NonZeroU32_new increment with Some v => Ok (mk v) | None => Panic end
  else Panic.

Definition from_validated_parts (increment : Z) : t := mk increment.
Definition as_u32 (i : t) : Z := get i.

Definition wf (i : t) : Prop := 0 < get i <= MAX.

End WindowIncrement.

Module Weight.

Record t : Type := mk { as_wire : Z }.

Definition new (wire_value : Z) : result FrameError.t t :=
  if wire_value >? 255 then Err (FrameError.InvalidWeight wire_value)
  else Ok (mk (as_u8 wire_value)).

Definition from_static (wire_value : Z) : result FrameError.t t :=
  if wire_value <=? 255 then Ok (mk (as_u8 wire_value)) else Panic.

Definition from_validated_parts (wire_value : Z) : t := mk wire_value.

(** A [u16], so that 255 + 1 fits. *)
Definition weight_value (w : t) : Z := as_wire w + 1.

End Weight.

Module LastStreamId.

Record t : Type := mk { get : Z }.

Definition MAX : Z := Z.shiftl 1 31 - 1.

Definition new (id : Z) : result FrameError.t t :=
  if id >? MAX then Err (FrameError.LastStreamIdOutOfRange id) else Ok (mk id).

Definition from_static (id : Z) : result FrameError.t t :=
  if id <=? MAX then Ok (mk id) else Panic.

Definition from_validated_parts (id : Z) : t := mk id.

Definition wf (i : t) : Prop := 0 <= get i <= MAX.

End LastStreamId.

(** ** Frames *)
Module FrameHeader.

Record t : Type := mk {
  length : Z;
  frame_type : Z;
  flags : FrameFlags.t;
  stream_id : Z
}.

#[global] Instance eta_header : Eta t := fun s =>
  mk (length s) (frame_type s) (flags s) (stream_id s).

Definition new (frame_type : FrameType.t) (flags : FrameFlags.t) (stream_id : Z) : t :=
  mk 0 (FrameType.as_u8 frame_type) flags stream_id.

Definition with_length (n : Z) (h : t) : t := h <| length := n |>.

Definition wf (h : t) : Prop :=
  0 <= length h < 2 ^ 24 /\ u8_ok (frame_type h) /\ u8_ok (FrameFlags.bits (flags h)) /\
  u31_ok (stream_id h).

End FrameHeader.

Module DataFrame.

Record t : Type := mk {
  stream_id : NonZeroStreamId.t;
  end_stream : bool;
  data : list Z;
  pad_length : option Z
}.

#[global] Instance eta_data : Eta t := fun s =>
  mk (stream_id s) (end_stream s) (data s) (pad_length s).

Definition new (stream_id : NonZeroStreamId.t) (data : list Z) : t :=
  mk stream_id false data None.
Definition with_end_stream (v : bool) (f : t) : t := f <| end_stream := v |>.
Definition with_padding (n : Z) (f : t) : t := f <| pad_length := Some n |>.

End DataFrame.

Module PriorityFields.

Record t : Type := mk {
  exclusive : bool;
  stream_dependency : StreamId.t;
  weight : Weight.t
}.

End PriorityFields.

Module HeadersFrame.

Record t : Type := mk {
  stream_id : NonZeroStreamId.t;
  end_stream : bool;
  end_headers : bool;
  priority_fields : option PriorityFields.t;
  header_block_fragment : list Z;
  pad_length : option Z
}.

#[global] Instance eta_headers : Eta t := fun s =>
  mk (stream_id s) (end_stream s) (end_headers s) (priority_fields s)
     (header_block_fragment s) (pad_length s).

Definition new (stream_id : NonZeroStreamId.t) (fragment : list Z) : t :=
  mk stream_id false true None fragment None.
Definition with_end_stream (v : bool) (f : t) : t := f <| end_stream := v |>.
Definition with_end_headers (v : bool) (f : t) : t := f <| end_headers := v |>.
Definition with_padding (n : Z) (f : t) : t := f <| pad_length := Some n |>.

End HeadersFrame.

Module PriorityFrame.

Record t : Type := mk {
  stream_id : NonZeroStreamId.t;
  exclusive : bool;
  stream_dependency : StreamId.t;
  weight : Weight.t
}.

End PriorityFrame.

Module RstStreamFrame.

Record t : Type := mk { stream_id : NonZeroStreamId.t; error_code : Z }.

Definition new (stream_id : NonZeroStreamId.t) (error_code : Z) : t := mk stream_id error_code.

End RstStreamFrame.

Module SettingsFrame.

Record t : Type := mk { is_ack : bool; settings : list Setting.t }.

#[global] Instance eta_sf : Eta t := fun s => mk (is_ack s) (settings s).

Definition new : t := mk false [].
Definition ack : t := mk true [].
Definition from_settings (l : list Setting.t) : t := mk false l.
Definition add (s : Setting.t) (f : t) : t := f <| settings := settings f ++ [s] |>.

End SettingsFrame.

Module PingFrame.

(** [opaque_data] is a [u8; 8] array. *)
Record t : Type := mk { is_ack : bool; opaque_data : list Z }.

Definition new (opaque_data : list Z) : t := mk false opaque_data.
Definition ack (opaque_data : list Z) : t := mk true opaque_data.

End PingFrame.

Module GoawayFrame.

Record t : Type := mk {
  last_stream_id : LastStreamId.t;
  error_code : Z;
  debug_data : list Z
}.

#[global] Instance eta_goaway : Eta t := fun s =>
  mk (last_stream_id s) (error_code s) (debug_data s).

Definition new (last_stream_id : LastStreamId.t) (error_code : Z) : t :=
  mk last_stream_id error_code [].
Definition with_debug_data (d : list Z) (f : t) : t := f <| debug_data := d |>.

End GoawayFrame.

Module WindowUpdateFrame.

Record t : Type := mk {
  stream_id : StreamId.t;
  window_size_increment : WindowIncrement.t
}.

Definition for_connection (increment : WindowIncrement.t) : t := mk StreamId.Connection increment.
Definition for_stream (stream_id : NonZeroStreamId.t) (increment : WindowIncrement.t) : t :=
  mk (StreamId.from stream_id) increment.

End WindowUpdateFrame.

Module ContinuationFrame.

Record t : Type := mk {
  stream_id : NonZeroStreamId.t;
  end_headers : bool;
  header_block_fragment : list Z
}.

#[global] Instance eta_cont : Eta t := fun s =>
  mk (stream_id s) (end_headers s) (header_block_fragment s).

Definition new (stream_id : NonZeroStreamId.t) (fragment : list Z) : t :=
  mk stream_id false fragment.
Definition with_end_headers (v : bool) (f : t) : t := f <| end_headers := v |>.

End ContinuationFrame.

Module PriorityUpdateFrame.

Record t : Type := mk {
  prioritized_element_id : NonZeroStreamId.t;
  priority_field_value : list Z
}.

Definition new (id : NonZeroStreamId.t) (value : list Z) : t := mk id value.

End PriorityUpdateFrame.

Module Frame.

Inductive t : Type :=
| Data (f : DataFrame.t)
| Headers (f : HeadersFrame.t)
| Priority (f : PriorityFrame.t)
| RstStream (f : RstStreamFrame.t)
| Settings (f : SettingsFrame.t)
| PushPromise (stream_id : StreamId.t)
| Ping (f : PingFrame.t)
| Goaway (f : GoawayFrame.t)
| WindowUpdate (f : WindowUpdateFrame.t)
| Continuation (f : ContinuationFrame.t)
| PriorityUpdate (f : PriorityUpdateFrame.t)
| Unknown (header : FrameHeader.t) (payload : list Z).

Definition stream_id (f : t) : StreamId.t :=
  match f with
  | Data f => StreamId.from (DataFrame.stream_id f)
  | Headers f => StreamId.from (HeadersFrame.stream_id f)
  | Priority f => StreamId.from (PriorityFrame.stream_id f)
  | RstStream f => StreamId.from (RstStreamFrame.stream_id f)
  | Settings _ => StreamId.Connection
  | PushPromise stream_id => stream_id
  | Ping _ => StreamId.Connection
  | Goaway _ => StreamId.Connection
  | WindowUpdate f => WindowUpdateFrame.stream_id f
  | Continuation f => StreamId.from (ContinuationFrame.stream_id f)
  | PriorityUpdate _ => StreamId.Connection
  | Unknown header _ => StreamId.from_wire (FrameHeader.stream_id header)
  end.

Definition frame_type (f : t) : option FrameType.t :=
  match f with
  | Data _ => Some FrameType.Data
  | Headers _ => Some FrameType.Headers
  | Priority _ => Some FrameType.Priority
  | RstStream _ => Some FrameType.RstStream
  | Settings _ => Some FrameType.Settings
  | PushPromise _ => Some FrameType.PushPromise
  | Ping _ => Some FrameType.Ping
  | Goaway _ => Some FrameType.Goaway
  | WindowUpdate _ => Some FrameType.WindowUpdate
  | Continuation _ => Some FrameType.Continuation
  | PriorityUpdate _ => Some FrameType.PriorityUpdate
  | Unknown _ _ => None
  end.

(** Well-formed frames: identifiers, increments and settings in range, payload
    octets in range.  What the decoder guarantees and the encoder needs. *)
Definition opt_u8_ok (o : option Z) : Prop := match o with Some n => u8_ok n | None => True end.

Definition wf (f : t) : Prop :=
  match f with
  | Data f =>
      NonZeroStreamId.wf (DataFrame.stream_id f) /\ bytes_ok (DataFrame.data f) /\
      opt_u8_ok (DataFrame.pad_length f)
  | Headers f =>
      NonZeroStreamId.wf (HeadersFrame.stream_id f) /\
      bytes_ok (HeadersFrame.header_block_fragment f) /\
      opt_u8_ok (HeadersFrame.pad_length f) /\
      match HeadersFrame.priority_fields f with
      | Some p => StreamId.wf (PriorityFields.stream_dependency p) /\
                  u8_ok (Weight.as_wire (PriorityFields.weight p))
      | None => True
      end
  | Priority f =>
      NonZeroStreamId.wf (PriorityFrame.stream_id f) /\
      StreamId.wf (PriorityFrame.stream_dependency f) /\
      u8_ok (Weight.as_wire (PriorityFrame.weight f))
  | RstStream f =>
      NonZeroStreamId.wf (RstStreamFrame.stream_id f) /\ u32_ok (RstStreamFrame.error_code f)
  | Settings f =>
      Forall Setting.wf (SettingsFrame.settings f) /\
      (SettingsFrame.is_ack f = true -> SettingsFrame.settings f = [])
  | PushPromise id => StreamId.wf id /\ id <> StreamId.Connection
  | Ping f => bytes_ok (PingFrame.opaque_data f) /\ len (PingFrame.opaque_data f) = 8
  | Goaway f =>
      LastStreamId.wf (GoawayFrame.last_stream_id f) /\ u32_ok (GoawayFrame.error_code f) /\
      bytes_ok (GoawayFrame.debug_data f)
  | WindowUpdate f =>
      StreamId.wf (WindowUpdateFrame.stream_id f) /\
      WindowIncrement.wf (WindowUpdateFrame.window_size_increment f)
  | Continuation f =>
      NonZeroStreamId.wf (ContinuationFrame.stream_id f) /\
      bytes_ok (ContinuationFrame.header_block_fragment f)
  | PriorityUpdate f =>
      NonZeroStreamId.wf (PriorityUpdateFrame.prioritized_element_id f) /\
      bytes_ok (PriorityUpdateFrame.priority_field_value f)
  | Unknown h payload =>
      FrameHeader.wf h /\ FrameType.from_u8 (FrameHeader.frame_type h) = None /\
      bytes_ok payload /\ FrameHeader.length h = len payload
  end.

End Frame.

(** ** Lemmas *)

Lemma frame_type_roundtrip ft : FrameType.from_u8 (FrameType.as_u8 ft) = Some ft.
Proof. by destruct ft. Qed.

Lemma frame_type_from_u8_Some x ft : FrameType.from_u8 x = Some ft -> FrameType.as_u8 ft = x.
Proof.
  unfold FrameType.from_u8. intros H.
  repeat match type of H with
  | context [ match ?p with _ => _ end ] => is_var p; destruct p; try discriminate
  end; by injection H as <-.
Qed.

Lemma window_increment_new_wf i :
  0 < i <= WindowIncrement.MAX -> WindowIncrement.new i = Ok (WindowIncrement.mk i).
Proof.
  intros H. unfold WindowIncrement.new, NonZeroU32_new.
  assert ((i =? 0) = false) as -> by lia.
  assert ((i >? WindowIncrement.MAX) = false) as -> by lia. done.
Qed.
