(* ===== verification/FrameEncode.v ===== *)
(** * FrameEncode: writing frames

    Models [src/src/frame/encoder.rs]: one definition per [encode_*] method,
    appending to the encoder's buffer. *)

From S2P Require Import Prelude Errors StreamIds Config FrameTypes.

Module FrameEncoder.

Record t : Type := mk { buf : list Z }.

#[global] Instance eta_enc : Eta t := fun s => mk (buf s).

Definition new : t := mk [].
Definition clear : ST t Error.t unit := modify (fun s => s <| buf := [] |>).
Definition take : ST t Error.t (list Z) :=
  let! out := gets buf in
  modify (fun s => s <| buf := [] |>) ;! ret out.

(** [self.buf.extend_from_slice] / [push]. *)
Definition extend (l : list Z) : ST t Error.t unit := modify (fun s => s <| buf := buf s ++ l |>).

(** The 31-bit fields are written with the top bit cleared. *)
Definition u31_to_be (x : Z) : list Z :=
  [as_u8 (Z.land (Z.shiftr x 24) 0x7f); as_u8 (Z.land (Z.shiftr x 16) 0xff);
   as_u8 (Z.land (Z.shiftr x 8) 0xff); as_u8 (Z.land x 0xff)].

Definition encode_header (h : FrameHeader.t) : ST t Error.t unit :=
  extend [as_u8 (Z.land (Z.shiftr (FrameHeader.length h) 16) 0xff);
          as_u8 (Z.land (Z.shiftr (FrameHeader.length h) 8) 0xff);
          as_u8 (Z.land (FrameHeader.length h) 0xff)] ;!
  extend [FrameHeader.frame_type h] ;!
  extend [FrameFlags.bits (FrameHeader.flags h)] ;!
  extend (u31_to_be (FrameHeader.stream_id h)).

(** [if c { flags.set(flag) }] *)
Definition set_if (c : bool) (flag : Z) (flags : FrameFlags.t) : FrameFlags.t :=
  if c then FrameFlags.set flags flag else flags.

Definition encode_data (frame : DataFrame.t) : ST t Error.t unit :=
  let flags := set_if (DataFrame.end_stream frame) FrameFlags.END_STREAM FrameFlags.empty in
  let '(length, pad_length, flags) :=
    match DataFrame.pad_length frame with
    | Some pad_len =>
        (as_u32 (1 + as_u32 (len (DataFrame.data frame)) + pad_len), Some pad_len,
         FrameFlags.set flags FrameFlags.PADDED)
    | None => (as_u32 (len (DataFrame.data frame)), None, flags)
    end in
  let header := FrameHeader.with_length length
    (FrameHeader.new FrameType.Data flags (NonZeroStreamId.as_u32 (DataFrame.stream_id frame))) in
  encode_header header ;!
  match pad_length with Some pad_len => extend [pad_len] | None => ret tt end ;!
  extend (DataFrame.data frame) ;!
  match pad_length with
  | Some pad_len => extend (replicate (Z.to_nat pad_len) 0)
  | None => ret tt
  end.

Definition encode_headers (frame : HeadersFrame.t) : ST t Error.t unit :=
  let flags := set_if (HeadersFrame.end_stream frame) FrameFlags.END_STREAM FrameFlags.empty in
  let flags := set_if (HeadersFrame.end_headers frame) FrameFlags.END_HEADERS flags in
  let '(length, pad_length, flags) :=
    match HeadersFrame.pad_length frame with
    | Some pad_len =>
        (as_u32 (1 + as_u32 (len (HeadersFrame.header_block_fragment frame)) + pad_len),
         Some pad_len, FrameFlags.set flags FrameFlags.PADDED)
    | None => (as_u32 (len (HeadersFrame.header_block_fragment frame)), None, flags)
    end in
  let header := FrameHeader.with_length length
    (FrameHeader.new FrameType.Headers flags
       (NonZeroStreamId.as_u32 (HeadersFrame.stream_id frame))) in
  encode_header header ;!
  match pad_length with Some pad_len => extend [pad_len] | None => ret tt end ;!
  extend (HeadersFrame.header_block_fragment frame) ;!
  match pad_length with
  | Some pad_len => extend (replicate (Z.to_nat pad_len) 0)
  | None => ret tt
  end.

Definition encode_priority (_frame : PriorityFrame.t) : ST t Error.t unit :=
  throw (Error.protocol_error "PRIORITY frame is deprecated in RFC 9113 and should not be sent").

Definition encode_rst_stream (frame : RstStreamFrame.t) : ST t Error.t unit :=
  let header := FrameHeader.with_length 4
    (FrameHeader.new FrameType.RstStream FrameFlags.empty
       (NonZeroStreamId.as_u32 (RstStreamFrame.stream_id frame))) in
  encode_header header ;!
  extend (u32_to_be (RstStreamFrame.error_code frame)).

(** The body of the loop over the settings. *)
Definition encode_setting (s : Setting.t) : list Z :=
  let '(id, value) := Setting.as_wire s in u16_to_be id ++ u32_to_be value.

Definition encode_settings (frame : SettingsFrame.t) : ST t Error.t unit :=
  let flags := set_if (SettingsFrame.is_ack frame) FrameFlags.ACK FrameFlags.empty in
  let length :=
    if SettingsFrame.is_ack frame then 0 else as_u32 (len (SettingsFrame.settings frame) * 6) in
  let header := FrameHeader.with_length length (FrameHeader.new FrameType.Settings flags 0) in
  encode_header header ;!
  if negb (SettingsFrame.is_ack frame)
  then extend (concat (map encode_setting (SettingsFrame.settings frame)))
  else ret tt.

Definition encode_ping (frame : PingFrame.t) : ST t Error.t unit :=
  let flags := set_if (PingFrame.is_ack frame) FrameFlags.ACK FrameFlags.empty in
  let header := FrameHeader.with_length 8 (FrameHeader.new FrameType.Ping flags 0) in
  encode_header header ;!
  extend (PingFrame.opaque_data frame).

Definition encode_goaway (frame : GoawayFrame.t) : ST t Error.t unit :=
  let length := as_u32 (8 + len (GoawayFrame.debug_data frame)) in
  let header := FrameHeader.with_length length
    (FrameHeader.new FrameType.Goaway FrameFlags.empty 0) in
  encode_header header ;!
  extend (u31_to_be (LastStreamId.get (GoawayFrame.last_stream_id frame))) ;!
  extend (u32_to_be (GoawayFrame.error_code frame)) ;!
  extend (GoawayFrame.debug_data frame).

Definition encode_window_update (frame : WindowUpdateFrame.t) : ST t Error.t unit :=
  let header := FrameHeader.with_length 4
    (FrameHeader.new FrameType.WindowUpdate FrameFlags.empty
       (StreamId.as_u32 (WindowUpdateFrame.stream_id frame))) in
  encode_header header ;!
  extend (u31_to_be (WindowIncrement.as_u32 (WindowUpdateFrame.window_size_increment frame))).

Definition encode_continuation (frame : ContinuationFrame.t) : ST t Error.t unit :=
  let flags := set_if (ContinuationFrame.end_headers frame) FrameFlags.END_HEADERS
                 FrameFlags.empty in
  let length := as_u32 (len (ContinuationFrame.header_block_fragment frame)) in
  let header := FrameHeader.with_length length
    (FrameHeader.new FrameType.Continuation flags
       (NonZeroStreamId.as_u32 (ContinuationFrame.stream_id frame))) in
  encode_header header ;!
  extend (ContinuationFrame.header_block_fragment frame).

Definition encode_priority_update (frame : PriorityUpdateFrame.t) : ST t Error.t unit :=
  let length := as_u32 (4 + len (PriorityUpdateFrame.priority_field_value frame)) in
  let header := FrameHeader.with_length length
    (FrameHeader.new FrameType.PriorityUpdate FrameFlags.empty 0) in
  encode_header header ;!
  extend (u31_to_be (NonZeroStreamId.as_u32 (PriorityUpdateFrame.prioritized_element_id frame))) ;!
  extend (PriorityUpdateFrame.priority_field_value frame).

Definition encode_unknown (header : FrameHeader.t) (payload : list Z) : ST t Error.t unit :=
  let header := FrameHeader.with_length (as_u32 (len payload)) header in
  encode_header header ;!
  extend payload.

Definition encode (frame : Frame.t) : ST t Error.t unit :=
  match frame with
  | Frame.Data f => encode_data f
  | Frame.Headers f => encode_headers f
  | Frame.Priority f => encode_priority f
  | Frame.RstStream f => encode_rst_stream f
  | Frame.Settings f => encode_settings f
  | Frame.PushPromise _ =>
      throw (Error.protocol_error "PUSH_PROMISE is not supported and should not be sent")
  | Frame.Ping f => encode_ping f
  | Frame.Goaway f => encode_goaway f
  | Frame.WindowUpdate f => encode_window_update f
  | Frame.Continuation f => encode_continuation f
  | Frame.PriorityUpdate f => encode_priority_update f
  | Frame.Unknown header payload => encode_unknown header payload
  end.

(** ** Specification: the octets of a frame *)

Definition header_bytes (length frame_type flags stream_id : Z) : list Z :=
  [as_u8 (Z.shiftr length 16); as_u8 (Z.shiftr length 8); as_u8 length; frame_type; flags]
  ++ u31_to_be stream_id.

Definition flag_if (c : bool) (flag : Z) : Z := if c then flag else 0.

Definition pad_prefix (p : option Z) : list Z := match p with Some n => [n] | None => [] end.
Definition pad_suffix (p : option Z) : list Z :=
  match p with Some n => replicate (Z.to_nat n) 0 | None => [] end.
Definition pad_flag (p : option Z) : Z :=
  match p with Some _ => FrameFlags.PADDED | None => 0 end.

(** Type, flags, stream identifier and payload of each frame that can be sent. *)
Definition wire_parts (frame : Frame.t) : option (Z * Z * Z * list Z) :=
  match frame with
  | Frame.Data f =>
      Some (0x0, flag_if (DataFrame.end_stream f) 0x1 + pad_flag (DataFrame.pad_length f),
            NonZeroStreamId.as_u32 (DataFrame.stream_id f),
            pad_prefix (DataFrame.pad_length f) ++ DataFrame.data f
            ++ pad_suffix (DataFrame.pad_length f))
  | Frame.Headers f =>
      Some (0x1, flag_if (HeadersFrame.end_stream f) 0x1
                 + flag_if (HeadersFrame.end_headers f) 0x4
                 + pad_flag (HeadersFrame.pad_length f),
            NonZeroStreamId.as_u32 (HeadersFrame.stream_id f),
            pad_prefix (HeadersFrame.pad_length f) ++ HeadersFrame.header_block_fragment f
            ++ pad_suffix (HeadersFrame.pad_length f))
  | Frame.RstStream f =>
      Some (0x3, 0, NonZeroStreamId.as_u32 (RstStreamFrame.stream_id f),
            u32_to_be (RstStreamFrame.error_code f))
  | Frame.Settings f =>
      Some (0x4, flag_if (SettingsFrame.is_ack f) 0x1, 0,
            if SettingsFrame.is_ack f then []
            else concat (map encode_setting (SettingsFrame.settings f)))
  | Frame.Ping f => Some (0x6, flag_if (PingFrame.is_ack f) 0x1, 0, PingFrame.opaque_data f)
  | Frame.Goaway f =>
      Some (0x7, 0, 0, u31_to_be (LastStreamId.get (GoawayFrame.last_stream_id f))
                       ++ u32_to_be (GoawayFrame.error_code f) ++ GoawayFrame.debug_data f)
  | Frame.WindowUpdate f =>
      Some (0x8, 0, StreamId.as_u32 (WindowUpdateFrame.stream_id f),
            u31_to_be (WindowIncrement.get (WindowUpdateFrame.window_size_increment f)))
  | Frame.Continuation f =>
      Some (0x9, flag_if (ContinuationFrame.end_headers f) 0x4,
            NonZeroStreamId.as_u32 (ContinuationFrame.stream_id f),
            ContinuationFrame.header_block_fragment f)
  | Frame.PriorityUpdate f =>
      Some (0x10, 0, 0,
            u31_to_be (NonZeroStreamId.as_u32 (PriorityUpdateFrame.prioritized_element_id f))
            ++ PriorityUpdateFrame.priority_field_value f)
  | Frame.Unknown h payload =>
      Some (FrameHeader.frame_type h, FrameFlags.bits (FrameHeader.flags h),
            FrameHeader.stream_id h, payload)
  | Frame.Priority _ | Frame.PushPromise _ => None
  end.

Definition wire (frame : Frame.t) : option (list Z) :=
  match wire_parts frame with
  | Some (ty, flags, sid, payload) => Some (header_bytes (len payload) ty flags sid ++ payload)
  | None => None
  end.

(** The length of the payload of a frame. *)
Definition payload_len (frame : Frame.t) : Z :=
  match wire_parts frame with Some (_, _, _, payload) => len payload | None => 0 end.

End FrameEncoder.

(** ** Lemmas *)
Import FrameEncoder.

#[global] Arguments header_bytes : simpl never.
#[global] Arguments u31_to_be : simpl never.
#[global] Arguments encode_header : simpl never.

Lemma len_u31_to_be x : len (u31_to_be x) = 4.
Proof. reflexivity. Qed.
#[export] Hint Rewrite len_u31_to_be : len.

Lemma land_ff x : Z.land x 0xff = x mod 2 ^ 8.
Proof. change 0xff with (Z.ones 8). by rewrite Z.land_ones. Qed.
Lemma as_u8_land_ff x : as_u8 (Z.land x 0xff) = as_u8 x.
Proof. rewrite land_ff. unfold as_u8. by rewrite Zmod_mod. Qed.

Lemma encode_header_spec h s :
  encode_header h s =
  (Ok tt, mk (buf s ++ header_bytes (FrameHeader.length h) (FrameHeader.frame_type h)
                (FrameFlags.bits (FrameHeader.flags h)) (FrameHeader.stream_id h))).
Proof.
  unfold encode_header, header_bytes, extend, bind, modify. cbn.
  rewrite !as_u8_land_ff, <- !app_assoc. done.
Qed.

Lemma extend_spec l s : extend l s = (Ok tt, mk (buf s ++ l)).
Proof. done. Qed.

Lemma len_concat_settings l : len (concat (map encode_setting l)) = len l * 6.
Proof.
  induction l as [|s l IH]; [done|]. cbn [map concat].
  rewrite len_app, IH, len_cons.
  assert (len (encode_setting s) = 6) as -> by (unfold encode_setting; by destruct (Setting.as_wire s)).
  lia.
Qed.

Lemma len_padded p d :
  Frame.opt_u8_ok p ->
  len (pad_prefix p ++ d ++ pad_suffix p) =
  match p with Some n => 1 + len d + n | None => len d end.
Proof.
  destruct p as [n|]; cbn; intros Hp; autorewrite with len; [|lia].
  unfold u8_ok in Hp. rewrite Z2Nat.id by lia. lia.
Qed.

(** The four writes shared by the two paddable frames. *)
Lemma encode_padded_spec h p d s n ty fl sid :
  FrameHeader.length h = n -> FrameHeader.frame_type h = ty ->
  FrameFlags.bits (FrameHeader.flags h) = fl -> FrameHeader.stream_id h = sid ->
  (encode_header h ;!
   match p with Some pad_len => extend [pad_len] | None => ret tt end ;!
   extend d ;!
   match p with Some pad_len => extend (replicate (Z.to_nat pad_len) 0) | None => ret tt end) s =
  (Ok tt, mk (buf s ++ header_bytes n ty fl sid ++ pad_prefix p ++ d ++ pad_suffix p)).
Proof.
  intros <- <- <- <-. unfold bind. rewrite encode_header_spec.
  destruct p; unfold extend, modify, ret; cbn -[header_bytes];
    rewrite <- ?app_assoc, ?app_nil_r; done.
Qed.

(** The same for the frames whose payload is written in one to three pieces. *)
Lemma encode_body_spec h d s :
  (encode_header h ;! extend d) s =
  (Ok tt, mk (buf s ++ header_bytes (FrameHeader.length h) (FrameHeader.frame_type h)
                (FrameFlags.bits (FrameHeader.flags h)) (FrameHeader.stream_id h) ++ d)).
Proof. unfold bind. rewrite encode_header_spec, extend_spec. cbn. by rewrite <- app_assoc. Qed.

Lemma extend_extend d1 d2 s : (extend d1 ;! extend d2) s = extend (d1 ++ d2) s.
Proof. unfold bind, extend, modify. cbn. by rewrite <- app_assoc. Qed.

Lemma bind_ext {S E A B} (m : ST S E A) (k k' : A -> ST S E B) s :
  (forall a s', k a s' = k' a s') -> bind m k s = bind m k' s.
Proof. intros H. unfold bind. destruct (m s) as [[]]; auto. Qed.

(** The encoder appends exactly the specified octets, or rejects a frame that
    must not be sent and leaves its buffer alone. *)
Lemma encode_data_spec f s :
  payload_len (Frame.Data f) < 2 ^ 32 -> Frame.wf (Frame.Data f) ->
  exists bytes, wire (Frame.Data f) = Some bytes /\
    encode (Frame.Data f) s = (Ok tt, mk (buf s ++ bytes)).
Proof.
  unfold wire, payload_len. cbn [wire_parts encode]. intros Hlen (Hs & Hd & Hp).
  eexists; split; [reflexivity|].
  rewrite len_padded in * by done. pose proof (len_nonneg (DataFrame.data f)).
  unfold encode_data. destruct f as [sid es d [pad|]]; cbn in *; unfold u8_ok in *;
    [apply (encode_padded_spec _ (Some pad) d s) | apply (encode_padded_spec _ None d s)];
    cbn; try done; rewrite ?(as_u32_small (len d)), ?as_u32_small by (unfold u32_ok; lia);
    done || by destruct es.
Qed.

Lemma encode_headers_spec f s :
  payload_len (Frame.Headers f) < 2 ^ 32 -> Frame.wf (Frame.Headers f) ->
  exists bytes, wire (Frame.Headers f) = Some bytes /\
    encode (Frame.Headers f) s = (Ok tt, mk (buf s ++ bytes)).
Proof.
  unfold wire, payload_len. cbn [wire_parts encode]. intros Hlen (Hs & Hd & Hp & _).
  eexists; split; [reflexivity|].
  rewrite len_padded in * by done. pose proof (len_nonneg (HeadersFrame.header_block_fragment f)).
  unfold encode_headers. destruct f as [sid es eh pf d [pad|]]; cbn in *; unfold u8_ok in *;
    [apply (encode_padded_spec _ (Some pad) d s) | apply (encode_padded_spec _ None d s)];
    cbn; try done; rewrite ?(as_u32_small (len d)), ?as_u32_small by (unfold u32_ok; lia);
    done || by destruct es, eh.
Qed.

Lemma encode_spec f s :
  payload_len f < 2 ^ 32 -> Frame.wf f ->
  match wire f with
  | Some bytes => encode f s = (Ok tt, mk (buf s ++ bytes))
  | None => exists reason, encode f s = (Err (Error.protocol_error reason), s)
  end.
Proof.
  intros Hlen Hwf.
  destruct f as [f|f|f|f|f|f|f|f|f|f|f|h p]; try (by eexists).
  - by destruct (encode_data_spec f s) as (? & -> & ->).
  - by destruct (encode_headers_spec f s) as (? & -> & ->).
  - cbn. unfold encode_rst_stream. by rewrite encode_body_spec.
  - destruct f as [[] l]; unfold wire, payload_len in *; cbn -[as_u32] in *.
    + unfold encode_settings, bind. by rewrite encode_header_spec.
    + unfold encode_settings. cbn -[as_u32]. rewrite encode_body_spec, len_concat_settings in *.
      cbn. rewrite as_u32_small; [done|]. unfold u32_ok. len_lia.
  - destruct f as [ack d], Hwf as [_ Hd]. cbn in *. unfold encode_ping, wire. cbn.
    rewrite encode_body_spec, Hd. by destruct ack.
  - unfold wire, payload_len in *. cbn in *. unfold encode_goaway.
    rewrite (bind_ext _ _ (fun _ => extend (u31_to_be (LastStreamId.get (GoawayFrame.last_stream_id f))
              ++ u32_to_be (GoawayFrame.error_code f) ++ GoawayFrame.debug_data f)))
      by (intros; unfold bind, extend, modify; cbn; by rewrite <- !app_assoc).
    rewrite encode_body_spec. cbn. autorewrite with len in *.
    rewrite as_u32_small by (unfold u32_ok; len_lia).
    rewrite Z.add_assoc. done.
  - cbn. unfold encode_window_update. by rewrite encode_body_spec.
  - unfold wire, payload_len in *. cbn in *. unfold encode_continuation.
    rewrite encode_body_spec. cbn -[as_u32]. rewrite as_u32_small by (unfold u32_ok; len_lia).
    by destruct (ContinuationFrame.end_headers f).
  - unfold wire, payload_len in *. cbn in *. unfold encode_priority_update.
    rewrite (bind_ext _ _ (fun _ => extend (u31_to_be (NonZeroStreamId.as_u32
              (PriorityUpdateFrame.prioritized_element_id f))
              ++ PriorityUpdateFrame.priority_field_value f)))
      by (intros; apply extend_extend).
    rewrite encode_body_spec. cbn. autorewrite with len in *.
    rewrite as_u32_small by (unfold u32_ok; len_lia).
    done.
  - unfold wire, payload_len in *. cbn in *. unfold encode_unknown.
    rewrite encode_body_spec. cbn -[as_u32]. rewrite as_u32_small by (unfold u32_ok; len_lia). done.
Qed.
