(* ===== verification/FrameDecode.v ===== *)
(** * FrameDecode: reading frames

    Models [src/src/frame/decoder.rs]: [decode_header], one [decode_*] function
    per frame type over the header and the payload octets, and the incremental
    [FrameDecoder].  A slice index or range that Rust would reject is the
    outcome [Panic]; the theorems show it does not happen. *)

From S2P Require Import Prelude Errors StreamIds Config FrameTypes FrameEncode.

(** ** Decoding functions *)

Definition decode_header (buf : list Z) : Result FrameHeader.t :=
  if len buf <? FRAME_HEADER_SIZE then Err (DecodeError.into_error DecodeError.Incomplete)
  else
    let? b0 := index buf 0 in
    let? b1 := index buf 1 in
    let? b2 := index buf 2 in
    let length := Z.lor (Z.lor (Z.shiftl b0 16) (Z.shiftl b1 8)) b2 in
    let? frame_type := index buf 3 in
    let? b4 := index buf 4 in
    let flags := FrameFlags.from_bits b4 in
    let? stream_id := read4 u31_from_be buf 5 in
    Ok (FrameHeader.mk length frame_type flags stream_id).

Definition require_non_zero_stream_id (raw : Z) (frame_name : string)
  : Result NonZeroStreamId.t :=
  let? nz := ok_or (NonZeroU32_new raw)
               (Error.protocol_error (frame_name ++ " frame with stream ID 0")%string) in
  Ok (NonZeroStreamId.from_validated_parts nz).

Definition decode_data (header : FrameHeader.t) (payload : list Z) : Result Frame.t :=
  let? stream_id := require_non_zero_stream_id (FrameHeader.stream_id header) "DATA" in
  let end_stream := FrameFlags.is_end_stream (FrameHeader.flags header) in
  let padded := FrameFlags.is_padded (FrameHeader.flags header) in
  let? (data, pad_length) :=
    if padded then
      if len payload =? 0
      then Err (Error.frame_size_error "PADDED flag set but no padding length")
      else
        let? pad_len := index payload 0 in
        if len payload <? 1 + pad_len
        then Err (Error.protocol_error "padding length exceeds frame payload")
        else
          let? data_end := sub_usize (len payload) pad_len in
          let? data := slice payload 1 data_end in
          Ok (data, Some pad_len)
    else Ok (payload, None) in
  Ok (Frame.Data (DataFrame.mk stream_id end_stream data pad_length)).

(** The five octets of the priority fields at [offset]. *)
Definition read_priority_fields (payload : list Z) (offset : Z)
  : Result (bool * StreamId.t * Weight.t) :=
  let? b0 := index payload offset in
  let exclusive := negb (Z.land b0 0x80 =? 0) in
  let? stream_dependency := read4 u31_from_be payload offset in
  let? w := index payload (offset + 4) in
  let weight := Weight.from_validated_parts w in
  Ok (exclusive, StreamId.from_wire stream_dependency, weight).

Definition decode_headers (header : FrameHeader.t) (payload : list Z) : Result Frame.t :=
  let? stream_id := require_non_zero_stream_id (FrameHeader.stream_id header) "HEADERS" in
  let end_stream := FrameFlags.is_end_stream (FrameHeader.flags header) in
  let end_headers := FrameFlags.is_end_headers (FrameHeader.flags header) in
  let padded := FrameFlags.is_padded (FrameHeader.flags header) in
  let priority := FrameFlags.is_priority (FrameHeader.flags header) in
  let? (offset, data_end, pad_length) :=
    if padded then
      if len payload =? 0
      then Err (Error.frame_size_error "PADDED flag set but no padding length")
      else
        let? pad_len := index payload 0 in
        if len payload <? 1 + pad_len
        then Err (Error.protocol_error "padding length exceeds frame payload")
        else
          let? data_end := sub_usize (len payload) pad_len in
          Ok (1, data_end, Some pad_len)
    else Ok (0, len payload, None) in
  let? (priority_fields, offset) :=
    if priority then
      let? room := sub_usize data_end offset in
      if room <? 5
      then Err (Error.frame_size_error
                  "PRIORITY flag set but insufficient data for priority fields")
      else
        let? (exclusive, stream_dependency, weight) := read_priority_fields payload offset in
        Ok (Some (PriorityFields.mk exclusive stream_dependency weight), offset + 5)
    else Ok (None, offset) in
  let? header_block_fragment := slice payload offset data_end in
  Ok (Frame.Headers (HeadersFrame.mk stream_id end_stream end_headers priority_fields
                       header_block_fragment pad_length)).

Definition decode_priority (header : FrameHeader.t) (payload : list Z) : Result Frame.t :=
  let? stream_id := require_non_zero_stream_id (FrameHeader.stream_id header) "PRIORITY" in
  if negb (len payload =? 5)
  then Err (Error.stream_error ErrorCode.FrameSizeError "PRIORITY frame must be 5 bytes")
  else
    let? (exclusive, stream_dependency, weight) := read_priority_fields payload 0 in
    Ok (Frame.Priority (PriorityFrame.mk stream_id exclusive stream_dependency weight)).

Definition decode_rst_stream (header : FrameHeader.t) (payload : list Z) : Result Frame.t :=
  let? stream_id := require_non_zero_stream_id (FrameHeader.stream_id header) "RST_STREAM" in
  if negb (len payload =? 4)
  then Err (Error.frame_size_error "RST_STREAM frame must be 4 bytes")
  else
    let? error_code := read4 u32_from_be payload 0 in
    Ok (Frame.RstStream (RstStreamFrame.mk stream_id error_code)).

(** The error a rejected setting is turned into. *)
Definition setting_error (e : SettingError.t) : Error.t :=
  let error_code :=
    match e with
    | SettingError.InitialWindowSizeOutOfRange _ _ => ErrorCode.FlowControlError
    | _ => ErrorCode.ProtocolError
    end in
  Error.connection_error error_code "{SettingError}".

(** [for chunk in payload.chunks(6)]: a last chunk shorter than six octets
    would make the indexing panic. *)
Fixpoint settings_chunks (payload : list Z) (frame : SettingsFrame.t) : Result SettingsFrame.t :=
  match payload with
  | [] => Ok frame
  | c0 :: c1 :: c2 :: c3 :: c4 :: c5 :: rest =>
      let? setting := map_err setting_error
                        (Setting.from_wire (u16_from_be c0 c1) (u32_from_be c2 c3 c4 c5)) in
      settings_chunks rest (SettingsFrame.add setting frame)
  | _ => Panic
  end.

Definition decode_settings (header : FrameHeader.t) (payload : list Z) : Result Frame.t :=
  if negb (FrameHeader.stream_id header =? 0)
  then Err (Error.protocol_error "SETTINGS frame with non-zero stream ID")
  else
    let ack := FrameFlags.is_ack (FrameHeader.flags header) in
    if ack then
      if negb (len payload =? 0)
      then Err (Error.frame_size_error "SETTINGS ACK frame with non-empty payload")
      else Ok (Frame.Settings SettingsFrame.ack)
    else if negb (is_multiple_of (len payload) 6)
    then Err (Error.frame_size_error "SETTINGS frame payload must be a multiple of 6 bytes")
    else
      let? frame := settings_chunks payload SettingsFrame.new in
      Ok (Frame.Settings frame).

Definition decode_ping (header : FrameHeader.t) (payload : list Z) : Result Frame.t :=
  if negb (FrameHeader.stream_id header =? 0)
  then Err (Error.protocol_error "PING frame with non-zero stream ID")
  else if negb (len payload =? 8)
  then Err (Error.frame_size_error "PING frame must be 8 bytes")
  else
    let ack := FrameFlags.is_ack (FrameHeader.flags header) in
    let opaque_data := payload in
    Ok (Frame.Ping (PingFrame.mk ack opaque_data)).

Definition decode_goaway (header : FrameHeader.t) (payload : list Z) : Result Frame.t :=
  if negb (FrameHeader.stream_id header =? 0)
  then Err (Error.protocol_error "GOAWAY frame with non-zero stream ID")
  else if len payload <? 8
  then Err (Error.frame_size_error "GOAWAY frame must be at least 8 bytes")
  else
    let? last_stream_id_raw := read4 u31_from_be payload 0 in
    let last_stream_id := LastStreamId.from_validated_parts last_stream_id_raw in
    let? error_code := read4 u32_from_be payload 4 in
    let? debug_data := if len payload >? 8 then slice_from payload 8 else Ok [] in
    Ok (Frame.Goaway (GoawayFrame.mk last_stream_id error_code debug_data)).

Definition decode_window_update (header : FrameHeader.t) (payload : list Z) : Result Frame.t :=
  if negb (len payload =? 4)
  then Err (Error.frame_size_error "WINDOW_UPDATE frame must be 4 bytes")
  else
    let? raw_increment := read4 u31_from_be payload 0 in
    if raw_increment =? 0 then
      if FrameHeader.stream_id header =? 0
      then Err (Error.connection_error ErrorCode.ProtocolError
                  "WINDOW_UPDATE with zero increment on connection")
      else Err (Error.stream_error ErrorCode.ProtocolError
                  "WINDOW_UPDATE with zero increment on stream")
    else
      let? nz := expect (ok_or (NonZeroU32_new raw_increment) tt) in
      let window_size_increment := WindowIncrement.from_validated_parts nz in
      Ok (Frame.WindowUpdate
            (WindowUpdateFrame.mk (StreamId.from_wire (FrameHeader.stream_id header))
               window_size_increment)).

Definition decode_continuation (header : FrameHeader.t) (payload : list Z) : Result Frame.t :=
  let? stream_id := require_non_zero_stream_id (FrameHeader.stream_id header) "CONTINUATION" in
  let end_headers := FrameFlags.is_end_headers (FrameHeader.flags header) in
  let header_block_fragment := payload in
  Ok (Frame.Continuation (ContinuationFrame.mk stream_id end_headers header_block_fragment)).

Definition decode_push_promise (header : FrameHeader.t) (_payload : list Z) : Result Frame.t :=
  if FrameHeader.stream_id header =? 0
  then Err (Error.protocol_error "PUSH_PROMISE frame with stream ID 0")
  else Ok (Frame.PushPromise (StreamId.from_wire (FrameHeader.stream_id header))).

Definition decode_priority_update (header : FrameHeader.t) (payload : list Z) : Result Frame.t :=
  if negb (FrameHeader.stream_id header =? 0)
  then Err (Error.protocol_error "PRIORITY_UPDATE frame with non-zero stream ID")
  else if len payload <? 4
  then Err (Error.frame_size_error "PRIORITY_UPDATE frame must be at least 4 bytes")
  else
    let? raw_id := read4 u31_from_be payload 0 in
    let? nz_id := ok_or (NonZeroU32_new raw_id)
      (Error.protocol_error "PRIORITY_UPDATE prioritized element ID must not be 0") in
    let prioritized_element_id := NonZeroStreamId.from_validated_parts nz_id in
    let? priority_field_value := if len payload >? 4 then slice_from payload 4 else Ok [] in
    Ok (Frame.PriorityUpdate
          (PriorityUpdateFrame.mk prioritized_element_id priority_field_value)).

Definition decode_frame (header : FrameHeader.t) (payload : list Z) : Result Frame.t :=
  match FrameType.from_u8 (FrameHeader.frame_type header) with
  | Some FrameType.Data => decode_data header payload
  | Some FrameType.Headers => decode_headers header payload
  | Some FrameType.Priority => decode_priority header payload
  | Some FrameType.RstStream => decode_rst_stream header payload
  | Some FrameType.Settings => decode_settings header payload
  | Some FrameType.PushPromise => decode_push_promise header payload
  | Some FrameType.Ping => decode_ping header payload
  | Some FrameType.Goaway => decode_goaway header payload
  | Some FrameType.WindowUpdate => decode_window_update header payload
  | Some FrameType.Continuation => decode_continuation header payload
  | Some FrameType.PriorityUpdate => decode_priority_update header payload
  | None => Ok (Frame.Unknown header payload)
  end.

(** ** The incremental decoder *)
Module FrameDecoder.

Record t : Type := mk {
  max_frame_size : Z;
  buf : list Z;
  current_header : option FrameHeader.t;
  last_decoded_stream_id : option Z
}.

#[global] Instance eta_dec : Eta t := fun s =>
  mk (max_frame_size s) (buf s) (current_header s) (last_decoded_stream_id s).

Definition new (max_frame_size : Z) : t := mk max_frame_size [] None None.
Definition default : t := new DEFAULT_MAX_FRAME_SIZE.

Definition feed (data : list Z) (s : t) : t := s <| buf := buf s ++ data |>.

(** The first half of [decode]: reads the header unless one is pending.
    [false] stands for the early [return Ok(None)]. *)
Definition read_header : ST t Error.t bool :=
  let! pending := gets current_header in
  match pending with
  | Some _ => ret true
  | None =>
      let! b := gets buf in
      if len b <? FRAME_HEADER_SIZE then ret false
      else
        let! first := lift (slice b 0 FRAME_HEADER_SIZE) in
        let! header := lift (decode_header first) in
        let! max := gets max_frame_size in
        if FrameHeader.length header >? max
        then throw (Error.frame_size_error "frame size {} exceeds max frame size {}")
        else
          modify (fun s => s <| current_header := Some header |>) ;!
          let! rest := lift (slice_from b FRAME_HEADER_SIZE) in
          modify (fun s => s <| buf := rest |>) ;!
          ret true
  end.

Definition decode : ST t Error.t (option Frame.t) :=
  let! have_header := read_header in
  if negb have_header then ret None
  else
    let! pending := gets current_header in
    let! header := lift (expect (ok_or pending tt)) in
    let payload_len := FrameHeader.length header in
    let! b := gets buf in
    if len b <? payload_len then ret None
    else
      modify (fun s => s <| current_header := None |>) ;!
      modify (fun s => s <| last_decoded_stream_id := Some (FrameHeader.stream_id header) |>) ;!
      let! payload := lift (slice b 0 payload_len) in
      let! rest := lift (slice_from b payload_len) in
      modify (fun s => s <| buf := rest |>) ;!
      let! frame := lift (decode_frame header payload) in
      ret (Some frame).

Definition buffered_len (s : t) : Z := len (buf s).

Definition clear (s : t) : t := s <| buf := [] |> <| current_header := None |>.

(** The decoder's invariant: octets in range, a pending header well formed and
    within the frame size limit. *)
Definition wf (s : t) : Prop :=
  bytes_ok (buf s) /\
  match current_header s with
  | Some h => FrameHeader.wf h /\ FrameHeader.length h <= max_frame_size s
  | None => True
  end.

(** Draining the decoder, as its caller does: every complete frame of the
    buffer, up to the first error.  [fuel] bounds the number of frames; [None]
    stands for running out of it, or for a panic. *)
Fixpoint decode_all (fuel : nat) (s : t) : option (list Frame.t * option Error.t * t) :=
  match fuel with
  | O => None
  | S fuel =>
      match decode s with
      | (Ok None, s') => Some ([], None, s')
      | (Ok (Some f), s') =>
          '(fs, stop, s'') ← decode_all fuel s'; Some (f :: fs, stop, s'')
      | (Err e, s') => Some ([], Some e, s')
      | (Panic, s') => None
      end
  end.

(** A frame takes at least the octets of its header, or the header that is
    already pending, so this many calls are enough. *)
Definition measure (s : t) : nat :=
  length (buf s) + match current_header s with Some _ => 1 | None => 0 end.
Definition drain (s : t) : option (list Frame.t * option Error.t * t) :=
  decode_all (S (measure s)) s.

(** Feeding a list of chunks, draining after each; an error ends the session. *)
Fixpoint drain_chunks (chunks : list (list Z)) (s : t)
  : option (list Frame.t * option Error.t * t) :=
  match chunks with
  | [] => Some ([], None, s)
  | c :: chunks =>
      '(fs, stop, s') ← drain (feed c s);
      match stop with
      | Some e => Some (fs, Some e, s')
      | None => '(fs', stop', s'') ← drain_chunks chunks s'; Some (fs ++ fs', stop', s'')
      end
  end.

End FrameDecoder.

(** ** Lemmas: safety of the decoding functions *)

Lemma u8_ok_lookup l i x : bytes_ok l -> l !! i = Some x -> u8_ok x.
Proof. intros Hl. by apply Forall_lookup_1. Qed.

Lemma index_byte {E} l i :
  bytes_ok l -> 0 <= i < len l -> exists x, @index E Z l i = Ok x /\ u8_ok x.
Proof.
  intros Hl Hi. destruct (index_spec (E:=E) l i Hi) as (x & Hx & Hin).
  exists x. eauto using u8_ok_lookup.
Qed.

Lemma read4_spec {E A} (f : Z -> Z -> Z -> Z -> A) l i :
  bytes_ok l -> 0 <= i -> i + 4 <= len l ->
  exists b0 b1 b2 b3, @read4 E A f l i = Ok (f b0 b1 b2 b3) /\
    u8_ok b0 /\ u8_ok b1 /\ u8_ok b2 /\ u8_ok b3.
Proof.
  intros Hl Hi Hn. unfold read4.
  destruct (index_byte (E:=E) l i) as (b0 & -> & ?); [done|lia|].
  destruct (index_byte (E:=E) l (i + 1)) as (b1 & -> & ?); [done|lia|].
  destruct (index_byte (E:=E) l (i + 2)) as (b2 & -> & ?); [done|lia|].
  destruct (index_byte (E:=E) l (i + 3)) as (b3 & -> & ?); [done|lia|].
  cbn. eauto 10.
Qed.

Lemma read_u31 {E} l i :
  bytes_ok l -> 0 <= i -> i + 4 <= len l ->
  exists x, @read4 E Z u31_from_be l i = Ok x /\ u31_ok x.
Proof.
  intros Hl Hi Hn. destruct (read4_spec (E:=E) u31_from_be l i Hl Hi Hn)
    as (b0 & b1 & b2 & b3 & -> & ? & ? & ? & ?).
  eauto using u31_from_be_ok.
Qed.

Lemma read_u32 {E} l i :
  bytes_ok l -> 0 <= i -> i + 4 <= len l ->
  exists x, @read4 E Z u32_from_be l i = Ok x /\ u32_ok x.
Proof.
  intros Hl Hi Hn. destruct (read4_spec (E:=E) u32_from_be l i Hl Hi Hn)
    as (b0 & b1 & b2 & b3 & -> & ? & ? & ? & ?).
  eauto using u32_from_be_ok.
Qed.

Lemma u24_arith b0 b1 b2 :
  u8_ok b1 -> u8_ok b2 ->
  Z.lor (Z.lor (Z.shiftl b0 16) (Z.shiftl b1 8)) b2 = b0 * 2 ^ 16 + b1 * 2 ^ 8 + b2.
Proof.
  unfold u8_ok. intros.
  rewrite <- Z.lor_assoc, (lor_shiftl_add b1 8), (lor_shiftl_add b0 16) by lia. lia.
Qed.

Lemma decode_header_wf buf :
  bytes_ok buf -> FRAME_HEADER_SIZE <= len buf ->
  exists h, decode_header buf = Ok h /\ FrameHeader.wf h.
Proof.
  intros Hl Hn. unfold decode_header, FRAME_HEADER_SIZE in *.
  replace (len buf <? 9) with false by lia.
  destruct (index_byte (E:=Error.t) buf 0) as (b0 & -> & ?); [done|lia|].
  destruct (index_byte (E:=Error.t) buf 1) as (b1 & -> & ?); [done|lia|].
  destruct (index_byte (E:=Error.t) buf 2) as (b2 & -> & ?); [done|lia|].
  destruct (index_byte (E:=Error.t) buf 3) as (b3 & -> & ?); [done|lia|].
  destruct (index_byte (E:=Error.t) buf 4) as (b4 & -> & ?); [done|lia|].
  destruct (read_u31 (E:=Error.t) buf 5) as (x & -> & ?); [done|lia|lia|].
  cbn. eexists; split; [done|]. unfold FrameHeader.wf. cbn. rewrite u24_arith by done.
  unfold u8_ok in *. split; [lia|done].
Qed.

Lemma require_non_zero_safe raw name :
  u31_ok raw -> safe NonZeroStreamId.wf (require_non_zero_stream_id raw name).
Proof.
  intros Hr. unfold require_non_zero_stream_id, NonZeroU32_new.
  destruct (raw =? 0) eqn:E; cbn; [done|]. apply nz_from_validated_wf.
  zbool. rewrite STREAM_ID_MAX_val. unfold u31_ok in *. lia.
Qed.

Lemma read_priority_safe payload i :
  bytes_ok payload -> 0 <= i -> i + 5 <= len payload ->
  safe (fun '(_, dep, w) => StreamId.wf dep /\ u8_ok (Weight.as_wire w))
       (read_priority_fields payload i).
Proof.
  intros Hl Hi Hn. unfold read_priority_fields.
  destruct (index_byte (E:=Error.t) payload i) as (b0 & -> & ?); [done|lia|].
  destruct (read_u31 (E:=Error.t) payload i) as (x & -> & ?); [done|lia|lia|].
  destruct (index_byte (E:=Error.t) payload (i + 4)) as (w & -> & ?); [done|lia|].
  cbn. split; [|done]. apply from_wire_wf. rewrite STREAM_ID_MAX_val. unfold u31_ok in *. lia.
Qed.

(** The padding of DATA and HEADERS. *)
Lemma safe_padding {A} (P : A -> Prop) payload (k : Z -> Result A) :
  bytes_ok payload ->
  (forall p, u8_ok p -> 1 + p <= len payload -> safe P (k p)) ->
  safe P (if len payload =? 0
          then Err (Error.frame_size_error "PADDED flag set but no padding length")
          else
            let? pad_len := index payload 0 in
            if len payload <? 1 + pad_len
            then Err (Error.protocol_error "padding length exceeds frame payload")
            else k pad_len).
Proof.
  intros Hl Hk. destruct (len payload =? 0) eqn:E; [done|]. zbool.
  destruct (index_byte (E:=Error.t) payload 0) as (p & -> & ?); [done|len_lia|].
  cbn. destruct (len payload <? 1 + p) eqn:E'; [done|]. zbool. by apply Hk.
Qed.

Lemma decode_data_safe h payload :
  FrameHeader.wf h -> bytes_ok payload -> safe Frame.wf (decode_data h payload).
Proof.
  intros (_ & _ & _ & Hs) Hl. unfold decode_data.
  eapply safe_bind; [by apply require_non_zero_safe|]. intros sid Hsid. cbv zeta.
  eapply safe_bind with (P := fun '(d, p) => bytes_ok d /\ Frame.opt_u8_ok p).
  - apply safe_if; intros _; [|done].
    apply safe_padding; [done|]. intros p Hp Hn. unfold sub_usize.
    replace (len payload <? p) with false by (unfold u8_ok in *; lia). cbn.
    eapply safe_bind; [apply safe_slice; [done|unfold u8_ok in *; lia..]|]. done.
  - by intros [d p] [Hd Hp].
Qed.

Lemma decode_headers_safe h payload :
  FrameHeader.wf h -> bytes_ok payload -> safe Frame.wf (decode_headers h payload).
Proof.
  intros (_ & _ & _ & Hs) Hl. unfold decode_headers. pose proof (len_nonneg payload) as H0.
  eapply safe_bind; [by apply require_non_zero_safe|]. intros sid Hsid. cbv zeta.
  eapply safe_bind with (P := fun '(offset, data_end, p) =>
    0 <= offset <= data_end /\ data_end <= len payload /\ Frame.opt_u8_ok p).
  { apply safe_if; intros _; [|cbn; lia].
    apply safe_padding; [done|]. intros p Hp Hn. unfold sub_usize.
    replace (len payload <? p) with false by (unfold u8_ok in *; lia). cbn.
    unfold u8_ok in *. lia. }
  intros [[offset data_end] p] (Ho & He & Hp).
  eapply safe_bind with (P := fun '(pf, offset') =>
    0 <= offset' <= data_end /\
    match pf with
    | Some f => StreamId.wf (PriorityFields.stream_dependency f) /\
                u8_ok (Weight.as_wire (PriorityFields.weight f))
    | None => True
    end).
  { apply safe_if; intros _; [|cbn; lia].
    unfold sub_usize. replace (data_end <? offset) with false by lia. cbn.
    apply safe_if; intros Hr; [done|]. zbool.
    eapply safe_bind; [apply read_priority_safe; [done|lia..]|].
    intros [[excl dep] w] ?. split; [lia|done]. }
  intros [pf offset'] [Ho' Hpf].
  eapply safe_bind; [apply safe_slice; [done|lia..]|]. by intros frag Hfrag.
Qed.

Lemma setting_from_wire_safe id value :
  u16_ok id -> u32_ok value ->
  safe Setting.wf (map_err setting_error (Setting.from_wire id value)).
Proof.
  intros Hi Hv. destruct (Setting.from_wire id value) as [s|e|] eqn:E; cbn; [|done|].
  - by eapply from_wire_Ok_wf.
  - revert E. unfold Setting.from_wire, WindowSize.new, MaxFrameSize.new, rbind.
    by repeat case_match.
Qed.

(** Induction six octets at a time. *)
Lemma chunks6_ind (P : list Z -> Prop) :
  P [] ->
  (forall c0 c1 c2 c3 c4 c5 l, P l -> P (c0 :: c1 :: c2 :: c3 :: c4 :: c5 :: l)) ->
  forall l, len l mod 6 = 0 -> P l.
Proof.
  intros H0 Hs. assert (forall n l, length l = (n * 6)%nat -> P l) as H.
  { induction n as [|n IH]; intros l Hl; [by destruct l|].
    do 6 (destruct l as [|? l]; [cbn in Hl; lia|]). apply Hs, IH. cbn in Hl. lia. }
  intros l Hl. apply (H (Z.to_nat (len l / 6))).
  unfold len in *. Z.div_mod_to_equations. lia.
Qed.

Lemma settings_chunks_safe payload f :
  len payload mod 6 = 0 -> bytes_ok payload ->
  Forall Setting.wf (SettingsFrame.settings f) -> SettingsFrame.is_ack f = false ->
  safe (fun f' => Forall Setting.wf (SettingsFrame.settings f') /\
                  SettingsFrame.is_ack f' = false) (settings_chunks payload f).
Proof.
  intros Hn. revert f. pattern payload. revert payload Hn. apply chunks6_ind.
  - by intros f _ Hf Ha.
  - intros c0 c1 c2 c3 c4 c5 l IH f Hl Hf Ha. cbn [settings_chunks].
    unfold bytes_ok in *.
    repeat match goal with H : Forall u8_ok (_ :: _) |- _ => apply Forall_cons in H as [??] end.
    eapply safe_bind; [apply setting_from_wire_safe|].
    + rewrite u16_from_be_arith by done. unfold u8_ok, u16_ok in *. lia.
    + by apply u32_from_be_ok.
    + intros s Hs. apply IH; [done| |exact Ha].
      cbn. apply Forall_app. by repeat constructor.
Qed.

Lemma decode_settings_safe h payload :
  bytes_ok payload -> safe Frame.wf (decode_settings h payload).
Proof.
  intros Hl. unfold decode_settings. apply safe_if; intros _; [done|]. cbv zeta.
  apply safe_if; intros _; [by apply safe_if|].
  apply safe_if; intros Hm; [done|]. zbool. apply Z.eqb_eq in Hm.
  eapply safe_bind; [by apply settings_chunks_safe|].
  intros f [Hf Ha]. cbn. split; [done|]. by rewrite Ha.
Qed.

Lemma safe_tail {E} payload n :
  bytes_ok payload -> 0 <= n ->
  safe (E:=E) bytes_ok (if len payload >? n then slice_from payload n else Ok []).
Proof.
  intros Hl Hn. apply safe_if; intros Hc; [|by constructor]. zbool.
  apply safe_slice; [done|lia..].
Qed.

Lemma decode_frame_safe h payload :
  FrameHeader.wf h -> bytes_ok payload -> len payload = FrameHeader.length h ->
  safe Frame.wf (decode_frame h payload).
Proof.
  intros Hh Hl Hn. pose proof Hh as (_ & _ & _ & Hs).
  assert (0 <= FrameHeader.stream_id h <= STREAM_ID_MAX)
    by (rewrite STREAM_ID_MAX_val; unfold u31_ok in *; lia).
  unfold decode_frame. destruct (FrameType.from_u8 _) as [[]|] eqn:Ety.
  - by apply decode_data_safe.
  - by apply decode_headers_safe.
  - unfold decode_priority. eapply safe_bind; [by apply require_non_zero_safe|].
    intros sid Hsid. apply safe_if; intros Hc; [done|]. zbool.
    eapply safe_bind; [apply read_priority_safe; [done|lia..]|]. by intros [[excl dep] w].
  - unfold decode_rst_stream. eapply safe_bind; [by apply require_non_zero_safe|].
    intros sid Hsid. apply safe_if; intros Hc; [done|]. zbool.
    destruct (read_u32 (E:=Error.t) payload 0) as (x & -> & ?); [done|lia..|done].
  - by apply decode_settings_safe.
  - unfold decode_push_promise. apply safe_if; intros Hc; [done|]. zbool. cbn.
    split; [auto with rust|]. unfold StreamId.from_wire.
    replace (FrameHeader.stream_id h =? 0) with false by lia. by case_match.
  - unfold decode_ping. apply safe_if; intros _; [done|]. apply safe_if; intros Hc; [done|].
    zbool. done.
  - unfold decode_goaway. apply safe_if; intros _; [done|]. apply safe_if; intros Hc; [done|].
    zbool. destruct (read_u31 (E:=Error.t) payload 0) as (x & -> & Hx); [done|lia..|].
    destruct (read_u32 (E:=Error.t) payload 4) as (y & -> & ?); [done|lia..|]. cbn [rbind].
    eapply safe_bind; [by apply safe_tail|]. intros d Hd. cbn. split_and!; try done.
    unfold LastStreamId.wf. change LastStreamId.MAX with (2 ^ 31 - 1).
    unfold u31_ok in *. cbn [LastStreamId.get LastStreamId.from_validated_parts]. lia.
  - unfold decode_window_update. apply safe_if; intros Hc; [done|]. zbool.
    destruct (read_u31 (E:=Error.t) payload 0) as (x & -> & Hx); [done|lia..|]. cbn [rbind].
    apply safe_if; intros Hz; [by apply safe_if|]. unfold NonZeroU32_new. rewrite Hz. zbool.
    cbn. split; [auto with rust|].
    unfold WindowIncrement.wf. change WindowIncrement.MAX with (2 ^ 31 - 1).
    unfold u31_ok in *. cbn [WindowIncrement.get WindowIncrement.from_validated_parts]. lia.
  - unfold decode_continuation. eapply safe_bind; [by apply require_non_zero_safe|].
    by intros sid Hsid.
  - unfold decode_priority_update. apply safe_if; intros _; [done|].
    apply safe_if; intros Hc; [done|]. zbool.
    destruct (read_u31 (E:=Error.t) payload 0) as (x & -> & Hx); [done|lia..|]. cbn [rbind].
    unfold NonZeroU32_new. destruct (x =? 0) eqn:Hz; [done|]. zbool. cbn [rbind ok_or].
    eapply safe_bind; [by apply safe_tail|]. intros d Hd. cbn. split; [|done].
    apply nz_from_validated_wf. rewrite STREAM_ID_MAX_val. unfold u31_ok in *. lia.
  - by cbn.
Qed.
