(* ===== verification/FrameCodec.v ===== *)
(** * FrameCodec: the frame decoder against the frame encoder

    The theorems that relate [FrameEncode.v] and [FrameDecode.v]: what the
    encoder writes is read back as it was, in whatever chunks it arrives, and
    the incremental decoder never panics and keeps its invariant. *)

From S2P Require Import Prelude Errors StreamIds Config FrameTypes FrameEncode FrameDecode.

(** ** Lemmas: decoding what was encoded *)

Import FrameEncoder(u31_to_be, header_bytes, wire_parts, wire, payload_len, flag_if,
  pad_flag, pad_prefix, pad_suffix, encode_setting, encode).

(** HEADERS priority fields are read but never written. *)
Definition no_priority (f : Frame.t) : Prop :=
  match f with Frame.Headers f => HeadersFrame.priority_fields f = None | _ => True end.

Lemma read4_spec_at {E A} (f : Z -> Z -> Z -> Z -> A) p a b c d r :
  @read4 E A f (p ++ a :: b :: c :: d :: r) (len p) = Ok (f a b c d).
Proof.
  unfold read4, index. pose proof (len_nonneg p) as Hp.
  replace (0 <=? len p) with true by lia. replace (0 <=? len p + 1) with true by lia.
  replace (0 <=? len p + 2) with true by lia. replace (0 <=? len p + 3) with true by lia.
  rewrite !Z2Nat.inj_add by lia. unfold len. rewrite Nat2Z.id.
  assert (forall k, (p ++ a :: b :: c :: d :: r) !! (length p + k)%nat =
                    (a :: b :: c :: d :: r) !! k) as Hk.
  { intros k. rewrite lookup_app_r by lia. f_equal. lia. }
  rewrite <- (Nat.add_0_r (length p)) at 1. by rewrite !Hk.
Qed.

Lemma u31_be_roundtrip x :
  u31_ok x ->
  u31_from_be (as_u8 (Z.land (Z.shiftr x 24) 0x7f)) (as_u8 (Z.land (Z.shiftr x 16) 0xff))
    (as_u8 (Z.land (Z.shiftr x 8) 0xff)) (as_u8 (Z.land x 0xff)) = x.
Proof.
  intros Hx. rewrite !as_u8_land_ff. change 0x7f with (Z.ones 7). rewrite Z.land_ones by lia.
  rewrite u31_from_be_u32, u32_from_be_arith by done. byte_arith.
Qed.

Lemma read_u31_to_be {E} p x r :
  u31_ok x -> @read4 E Z u31_from_be (p ++ u31_to_be x ++ r) (len p) = Ok x.
Proof. intros Hx. unfold u31_to_be. cbn [app]. by rewrite read4_spec_at, u31_be_roundtrip. Qed.

Lemma read_u32_to_be {E} p x r :
  u32_ok x -> @read4 E Z u32_from_be (p ++ u32_to_be x ++ r) (len p) = Ok x.
Proof. intros Hx. unfold u32_to_be. cbn [app]. by rewrite read4_spec_at, u32_be_roundtrip. Qed.

Lemma read_u31_to_be_0 {E} x r :
  u31_ok x -> @read4 E Z u31_from_be (u31_to_be x ++ r) 0 = Ok x.
Proof. apply (read_u31_to_be []). Qed.

Lemma read_u32_to_be_0 {E} x r :
  u32_ok x -> @read4 E Z u32_from_be (u32_to_be x ++ r) 0 = Ok x.
Proof. apply (read_u32_to_be []). Qed.

Lemma decode_header_bytes n ty fl sid r :
  0 <= n < 2 ^ 24 -> u31_ok sid ->
  decode_header (header_bytes n ty fl sid ++ r) =
  Ok (FrameHeader.mk n ty (FrameFlags.from_bits fl) sid).
Proof.
  intros Hn Hs. unfold decode_header, FRAME_HEADER_SIZE.
  replace (len _ <? 9) with false
    by (unfold header_bytes; autorewrite with len; pose proof (len_nonneg r); lia).
  unfold header_bytes. rewrite <- app_assoc.
  change 5 with (len [as_u8 (Z.shiftr n 16); as_u8 (Z.shiftr n 8); as_u8 n; ty; fl]).
  rewrite read_u31_to_be by done.
  transitivity (@Ok Error.t _ (FrameHeader.mk
    (Z.lor (Z.lor (Z.shiftl (as_u8 (Z.shiftr n 16)) 16) (Z.shiftl (as_u8 (Z.shiftr n 8)) 8))
       (as_u8 n)) ty (FrameFlags.from_bits fl) sid)); [reflexivity|].
  rewrite u24_arith by done. do 2 f_equal. byte_arith.
Qed.

(** The flags of a frame, read back from the octet they were added up in. *)
Lemma flag_bits_spec s h p :
  let fl := FrameFlags.from_bits (flag_if s 0x1 + flag_if h 0x4 + pad_flag p) in
  FrameFlags.is_end_stream fl = s /\ FrameFlags.is_end_headers fl = h /\
  FrameFlags.is_padded fl = match p with Some _ => true | None => false end /\ FrameFlags.is_priority fl = false.
Proof. by destruct s, h, p. Qed.

Lemma require_non_zero_ok id name :
  NonZeroStreamId.wf id ->
  require_non_zero_stream_id (NonZeroStreamId.as_u32 id) name = Ok id.
Proof.
  intros Hid. pose proof (nz_as_u32_range id Hid).
  unfold require_non_zero_stream_id, NonZeroU32_new.
  replace (_ =? 0) with false by lia. cbn. by rewrite nz_as_u32_inv.
Qed.

(** What DATA and HEADERS read back of their padded payload. *)
Lemma padded_slice {E} n d :
  u8_ok n ->
  @slice E Z (n :: d ++ replicate (Z.to_nat n) 0) 1
    (len (n :: d ++ replicate (Z.to_nat n) 0) - n) = Ok d.
Proof.
  intros Hn. pose proof (@slice_app_mid E Z [n] d (replicate (Z.to_nat n) 0)) as H.
  autorewrite with len in *. unfold u8_ok in *. rewrite Z2Nat.id in * by lia.
  replace (1 + (len d + n) - n) with (1 + len d) by lia. exact H.
Qed.

Lemma padded_long n (d : list Z) :
  u8_ok n -> 1 + n <= len (n :: d ++ replicate (Z.to_nat n) 0).
Proof. unfold u8_ok. intros. autorewrite with len. pose proof (len_nonneg d). lia. Qed.

Lemma settings_chunks_wire l f :
  Forall Setting.wf l ->
  settings_chunks (concat (map encode_setting l)) f =
  Ok (SettingsFrame.mk (SettingsFrame.is_ack f) (SettingsFrame.settings f ++ l)).
Proof.
  intros Hl. revert f. induction Hl as [|s l Hs Hl IH]; intros [ack ss]; cbn [map concat].
  - cbn. by rewrite app_nil_r.
  - unfold encode_setting at 1. pose proof (setting_wire_roundtrip s Hs) as Hrt.
    pose proof (setting_as_wire_ok s Hs) as [Hid Hv].
    destruct (Setting.as_wire s) as [id v]. cbn in Hid, Hv.
    unfold u16_to_be, u32_to_be. cbn [app settings_chunks].
    rewrite u16_be_roundtrip, u32_be_roundtrip, Hrt by done. cbn [map_err rbind].
    rewrite IH. cbn. by rewrite <- app_assoc.
Qed.

Lemma tail_of {E} (p d : list Z) :
  (if len (p ++ d) >? len p then @slice_from E Z (p ++ d) (len p) else Ok []) = Ok d.
Proof.
  rewrite slice_from_app. rewrite len_app. case_match; [done|]. zbool.
  rewrite (len_zero_nil d); [done|]. pose proof (len_nonneg d). lia.
Qed.

Lemma decode_data_wire f ty fl sid payload :
  Frame.wf (Frame.Data f) -> wire_parts (Frame.Data f) = Some (ty, fl, sid, payload) ->
  decode_frame (FrameHeader.mk (len payload) ty (FrameFlags.from_bits fl) sid) payload
  = Ok (Frame.Data f).
Proof.
  destruct f as [id es d p]. intros (Hid & Hd & Hp) [= <- <- <- <-]. cbn in Hid, Hp.
  cbn [decode_frame FrameType.from_u8 FrameHeader.frame_type]. unfold decode_data.
  pose proof (flag_bits_spec es false p) as Hfl. cbn [flag_if] in Hfl.
  rewrite Z.add_0_r in Hfl. destruct Hfl as (He & _ & Hpad & _).
  cbn [FrameHeader.flags FrameHeader.stream_id DataFrame.end_stream DataFrame.stream_id
       DataFrame.pad_length DataFrame.data].
  rewrite require_non_zero_ok by done. cbn [rbind]. rewrite He, Hpad.
  destruct p as [n|]; cbn [pad_prefix pad_suffix app rbind].
  - cbn in Hp. pose proof (padded_long n d Hp). set (pl := n :: d ++ _) in *.
    replace (len pl =? 0) with false by (unfold u8_ok in Hp; lia).
    subst pl. rewrite index_cons_0. cbn [rbind]. unfold sub_usize.
    replace (len _ <? 1 + n) with false by lia.
    replace (len _ <? n) with false by lia. cbn [rbind]. by rewrite padded_slice.
  - by rewrite app_nil_r.
Qed.

Lemma decode_headers_wire f ty fl sid payload :
  Frame.wf (Frame.Headers f) -> no_priority (Frame.Headers f) ->
  wire_parts (Frame.Headers f) = Some (ty, fl, sid, payload) ->
  decode_frame (FrameHeader.mk (len payload) ty (FrameFlags.from_bits fl) sid) payload
  = Ok (Frame.Headers f).
Proof.
  destruct f as [id es eh pf d p]. intros (Hid & Hd & Hp & _) Hnp [= <- <- <- <-].
  cbn in Hid, Hp, Hnp. subst pf.
  cbn [decode_frame FrameType.from_u8 FrameHeader.frame_type]. unfold decode_headers.
  pose proof (flag_bits_spec es eh p) as (He & Hh & Hpad & Hpr).
  cbn [FrameHeader.flags FrameHeader.stream_id HeadersFrame.end_stream HeadersFrame.stream_id
       HeadersFrame.end_headers HeadersFrame.pad_length HeadersFrame.header_block_fragment].
  rewrite require_non_zero_ok by done. cbn [rbind]. rewrite He, Hh, Hpad, Hpr.
  destruct p as [n|]; cbn [pad_prefix pad_suffix app rbind].
  - cbn in Hp. pose proof (padded_long n d Hp). set (pl := n :: d ++ _) in *.
    replace (len pl =? 0) with false by (unfold u8_ok in Hp; lia).
    subst pl. rewrite index_cons_0. cbn [rbind]. unfold sub_usize.
    replace (len _ <? 1 + n) with false by lia.
    replace (len _ <? n) with false by lia. cbn [rbind]. by rewrite padded_slice.
  - rewrite app_nil_r. pose proof (@slice_from_0 Error.t Z d) as Hs. unfold slice_from in Hs.
    by rewrite Hs.
Qed.

Lemma decode_frame_wire f :
  Frame.wf f -> no_priority f ->
  match wire_parts f with
  | Some (ty, fl, sid, payload) =>
      decode_frame (FrameHeader.mk (len payload) ty (FrameFlags.from_bits fl) sid) payload = Ok f
  | None => True
  end.
Proof.
  intros Hwf Hnp. destruct f as [f|f|f|f|f|f|f|f|f|f|f|h pl]; try exact I;
    [by apply decode_data_wire|by apply decode_headers_wire| | | | | | | |];
    cbn [wire_parts]; unfold decode_frame; cbn [FrameType.from_u8 FrameHeader.frame_type].
  - destruct f as [id code], Hwf as [Hid Hc]. cbn in *. unfold decode_rst_stream. cbn.
    rewrite require_non_zero_ok by done. cbn.
    rewrite <- (app_nil_r (u32_to_be code)), read_u32_to_be_0 by done. done.
  - destruct f as [ack l], Hwf as [Hl Ha]. cbn in *. unfold decode_settings. cbn.
    destruct ack; cbn; [by rewrite Ha|]. rewrite len_concat_settings.
    unfold is_multiple_of. rewrite Z.mod_mul by done. cbn.
    by rewrite settings_chunks_wire.
  - destruct f as [ack d], Hwf as [Hb Hd]. cbn in *. unfold decode_ping. cbn. rewrite Hd.
    by destruct ack.
  - destruct f as [[last] code d], Hwf as (Hl & Hc & Hd).
    unfold decode_goaway. cbn -[app] in *.
    pose proof (len_nonneg d). rewrite !len_app, len_u31_to_be, len_u32_to_be.
    replace (_ <? 8) with false by lia. unfold LastStreamId.wf in Hl. cbn in Hl.
    change LastStreamId.MAX with (2 ^ 31 - 1) in Hl.
    rewrite read_u31_to_be_0 by (unfold u31_ok; lia). cbn [rbind].
    change 4 with (len (u31_to_be last)) at 1. rewrite read_u32_to_be by done. cbn [rbind].
    pose proof (@tail_of Error.t (u31_to_be last ++ u32_to_be code) d) as Ht.
    rewrite <- app_assoc, !len_app, len_u31_to_be, len_u32_to_be in Ht.
    change (4 + 4) with 8 in Ht. rewrite Ht. done.
  - destruct f as [id [inc]], Hwf as [Hid Hi]. unfold WindowIncrement.wf in Hi. cbn in *.
    change WindowIncrement.MAX with (2 ^ 31 - 1) in Hi. unfold decode_window_update. cbn.
    rewrite <- (app_nil_r (u31_to_be inc)), read_u31_to_be_0 by (unfold u31_ok; lia).
    cbn. unfold NonZeroU32_new. replace (inc =? 0) with false by lia. cbn.
    by rewrite from_wire_as_u32_inv.
  - destruct f as [id eh d], Hwf as [Hid Hd]. cbn in *. unfold decode_continuation. cbn.
    rewrite require_non_zero_ok by done. by destruct eh.
  - destruct f as [id d], Hwf as [Hid Hd].
    unfold decode_priority_update. cbn -[app] in *.
    pose proof (len_nonneg d). rewrite len_app, len_u31_to_be. replace (_ <? 4) with false by lia.
    pose proof (nz_as_u32_range id Hid).
    rewrite read_u31_to_be_0 by (unfold u31_ok; lia). cbn [rbind].
    unfold NonZeroU32_new. replace (_ =? 0) with false by lia. cbn [rbind ok_or].
    pose proof (@tail_of Error.t (u31_to_be (NonZeroStreamId.as_u32 id)) d) as Ht.
    rewrite len_app, len_u31_to_be in Ht. rewrite Ht. cbn. by rewrite nz_as_u32_inv.
  - destruct h as [n ty fl sid], Hwf as (Hh & Hty & _ & Hn). cbn in *. rewrite Hty, <- Hn.
    by destruct fl.
Qed.

(** ** Lemmas: the incremental decoder *)

(** The header at the front of a buffer of at least nine octets. *)
Definition front_header (b : list Z) : option FrameHeader.t :=
  match decode_header (firstn 9 b) with Ok h => Some h | _ => None end.

(** The decoder with [h] read off its buffer, and with [h]'s payload taken. *)
Definition with_header (h : FrameHeader.t) (s : FrameDecoder.t) : FrameDecoder.t :=
  FrameDecoder.mk (FrameDecoder.max_frame_size s) (drop 9 (FrameDecoder.buf s)) (Some h)
    (FrameDecoder.last_decoded_stream_id s).
Definition consumed (h : FrameHeader.t) (s : FrameDecoder.t) : FrameDecoder.t :=
  FrameDecoder.mk (FrameDecoder.max_frame_size s)
    (drop (Z.to_nat (FrameHeader.length h)) (FrameDecoder.buf s)) None
    (Some (FrameHeader.stream_id h)).

Lemma result_map_Some_eq (r : Result Frame.t) (s : FrameDecoder.t) :
  (let! frame := lift r in ret (Some frame)) s =
  (match r with Ok f => Ok (Some f) | Err e => Err e | Panic => Panic end, s).
Proof. unfold bind, lift, ret. by destruct r. Qed.

Lemma decode_pending h s :
  FrameDecoder.current_header s = Some h -> 0 <= FrameHeader.length h ->
  FrameDecoder.decode s =
  if len (FrameDecoder.buf s) <? FrameHeader.length h then (Ok None, s)
  else (match decode_frame h (firstn (Z.to_nat (FrameHeader.length h)) (FrameDecoder.buf s)) with
        | Ok f => Ok (Some f) | Err e => Err e | Panic => Panic
        end, consumed h s).
Proof.
  intros Hc Hn. destruct s as [m b ch l]. cbn in Hc. subst ch.
  unfold FrameDecoder.decode, FrameDecoder.read_header, bind, gets, ret, lift, modify. cbn.
  destruct (len b <? FrameHeader.length h) eqn:E; [done|]. zbool.
  rewrite slice_spec by lia. rewrite slice_from_spec by lia. rewrite Z.sub_0_r. cbn.
  by destruct (decode_frame h _).
Qed.

Lemma front_header_wf b :
  bytes_ok b -> 9 <= len b -> exists h, front_header b = Some h /\ FrameHeader.wf h /\
    decode_header (firstn 9 b) = Ok h.
Proof.
  intros Hb Hn. destruct (decode_header_wf (firstn 9 b)) as (h & Hh & Hwf).
  - by apply Forall_take.
  - unfold FRAME_HEADER_SIZE. rewrite len_take. lia.
  - exists h. unfold front_header. by rewrite Hh.
Qed.

Lemma decode_fresh s :
  FrameDecoder.current_header s = None -> bytes_ok (FrameDecoder.buf s) ->
  FrameDecoder.decode s =
  if len (FrameDecoder.buf s) <? 9 then (Ok None, s)
  else match front_header (FrameDecoder.buf s) with
       | Some h =>
           if FrameHeader.length h >? FrameDecoder.max_frame_size s
           then (Err (Error.frame_size_error "frame size {} exceeds max frame size {}"), s)
           else FrameDecoder.decode (with_header h s)
       | None => (Panic, s)
       end.
Proof.
  intros Hc Hb. destruct s as [m b ch l]. cbn in Hc, Hb. subst ch.
  unfold FrameDecoder.decode at 1, FrameDecoder.read_header, bind at 1 2 3 4, gets at 1 2, ret,
    FRAME_HEADER_SIZE. cbn.
  destruct (len b <? 9) eqn:E; [done|]. zbool.
  destruct (front_header_wf b) as (h & -> & Hh & Hd); [done..|].
  unfold bind, gets, ret, lift, modify, throw.
  rewrite slice_spec by lia. rewrite slice_from_spec by lia.
  change (Z.to_nat (9 - 0)) with 9%nat. change (Z.to_nat 9) with 9%nat. cbn -[firstn].
  rewrite drop_0, Hd. by destruct (FrameHeader.length h >? m).
Qed.

Lemma wf_with_header h s :
  FrameDecoder.wf s -> FrameHeader.wf h ->
  FrameHeader.length h <= FrameDecoder.max_frame_size s -> FrameDecoder.wf (with_header h s).
Proof. intros [Hb _] Hh Hm. split; [by apply Forall_drop|done]. Qed.

(** What one call can do, and that it keeps the invariant. *)
Inductive decode_outcome (s : FrameDecoder.t) : result Error.t (option Frame.t) -> FrameDecoder.t -> Prop :=
| Outcome_more s' : FrameDecoder.wf s' -> decode_outcome s (Ok None) s'
| Outcome_frame h f s' :
    FrameDecoder.wf s' -> Frame.wf f -> FrameHeader.length h <= FrameDecoder.max_frame_size s ->
    FrameDecoder.last_decoded_stream_id s' = Some (FrameHeader.stream_id h) ->
    (exists payload, len payload = FrameHeader.length h /\ decode_frame h payload = Ok f) ->
    decode_outcome s (Ok (Some f)) s'
| Outcome_error e s' : FrameDecoder.wf s' -> decode_outcome s (Err e) s'.

Lemma decode_pending_outcome h s :
  FrameDecoder.wf s -> FrameDecoder.current_header s = Some h ->
  decode_outcome s (fst (FrameDecoder.decode s)) (snd (FrameDecoder.decode s)).
Proof.
  intros Hwf Hc. pose proof Hwf as [Hb Hh]. rewrite Hc in Hh. destruct Hh as [Hh Hm].
  rewrite (decode_pending h) by (done || apply Hh).
  destruct (_ <? _) eqn:E; [by constructor|]. zbool. cbn [fst snd].
  set (payload := firstn _ _).
  assert (bytes_ok payload) as Hp by by apply Forall_take.
  assert (len payload = FrameHeader.length h) as Hl.
  { subst payload. rewrite len_take. destruct Hh as [Hh _]. lia. }
  pose proof (decode_frame_safe h payload Hh Hp Hl) as Hsafe.
  assert (FrameDecoder.wf (consumed h s)) by (split; [by apply Forall_drop|done]).
  destruct (decode_frame h payload) as [f|e|] eqn:Ed; cbn in Hsafe; [|by constructor|done].
  by apply (Outcome_frame s h f (consumed h s)); eauto.
Qed.

Lemma decode_outcome_ok s :
  FrameDecoder.wf s ->
  decode_outcome s (fst (FrameDecoder.decode s)) (snd (FrameDecoder.decode s)).
Proof.
  intros Hwf. destruct (FrameDecoder.current_header s) as [h|] eqn:Hc;
    [by eapply decode_pending_outcome|].
  pose proof Hwf as [Hb _]. rewrite decode_fresh by done.
  destruct (_ <? 9) eqn:E; [by constructor|]. zbool.
  destruct (front_header_wf (FrameDecoder.buf s)) as (h & -> & Hh & _); [done..|].
  destruct (_ >? _) eqn:Em; [by constructor|]. zbool.
  destruct (decode_pending_outcome h (with_header h s)) as []; [|done|..].
  - by apply wf_with_header.
  - by constructor.
  - by eapply Outcome_frame.
  - by constructor.
Qed.

Lemma decode_decreases s f s' :
  FrameDecoder.wf s -> FrameDecoder.decode s = (Ok (Some f), s') ->
  (FrameDecoder.measure s' < FrameDecoder.measure s)%nat.
Proof.
  unfold FrameDecoder.measure.
  assert (forall h s, FrameDecoder.wf s -> FrameDecoder.current_header s = Some h ->
    FrameDecoder.decode s = (Ok (Some f), s') ->
    (length (FrameDecoder.buf s') <= length (FrameDecoder.buf s))%nat /\
    FrameDecoder.current_header s' = None) as Hpend.
  { intros h s0 [Hb Hh] Hc. rewrite Hc in Hh. destruct Hh as [Hh Hm].
    rewrite (decode_pending h) by (done || apply Hh). destruct (_ <? _); [done|].
    destruct (decode_frame h _); [|done|done]. intros [= _ <-]. cbn.
    rewrite length_drop. split; [lia|done]. }
  intros Hwf Hd. destruct (FrameDecoder.current_header s) as [h|] eqn:Hc.
  - destruct (Hpend h s Hwf Hc Hd) as [? ->]. lia.
  - pose proof Hwf as [Hb _]. rewrite decode_fresh in Hd by done.
    destruct (_ <? 9) eqn:E; [done|]. zbool.
    destruct (front_header_wf (FrameDecoder.buf s)) as (h & Hf & Hh & _); [done..|].
    rewrite Hf in Hd. destruct (_ >? _) eqn:Em; [done|]. zbool.
    destruct (Hpend h (with_header h s)) as [Hl ->]; [by apply wf_with_header|done|done|].
    cbn in Hl. rewrite length_drop in Hl. unfold len in E. lia.
Qed.

Lemma feed_wf b s : bytes_ok b -> FrameDecoder.wf s -> FrameDecoder.wf (FrameDecoder.feed b s).
Proof. intros Hb [Hs Hh]. split; [by apply Forall_app|exact Hh]. Qed.

Lemma front_header_feed b s :
  9 <= len (FrameDecoder.buf s) ->
  front_header (FrameDecoder.buf s ++ b) = front_header (FrameDecoder.buf s).
Proof. intros Hn. unfold front_header. rewrite take_app_le; [done|]. unfold len in Hn. lia. Qed.

(** The outcome of a call does not depend on octets that arrive later, unless
    it is to ask for more. *)
Definition feed_commutes (s : FrameDecoder.t) (b : list Z) : Prop :=
  match FrameDecoder.decode s with
  | (Ok None, s') => FrameDecoder.decode (FrameDecoder.feed b s) =
                     FrameDecoder.decode (FrameDecoder.feed b s')
  | (r, s') => FrameDecoder.decode (FrameDecoder.feed b s) = (r, FrameDecoder.feed b s')
  end.

Lemma decode_feed_pending h s b :
  FrameDecoder.wf s -> FrameDecoder.current_header s = Some h -> feed_commutes s b.
Proof.
  intros [Hb Hh] Hc. rewrite Hc in Hh. destruct Hh as [[Hn Hh] Hm]. unfold feed_commutes.
  rewrite (decode_pending h s) by (done || apply Hn).
  destruct (_ <? _) eqn:E; [done|]. zbool.
  rewrite (decode_pending h) by (done || apply Hn). cbn [FrameDecoder.buf FrameDecoder.feed set_field].
  rewrite len_app. pose proof (len_nonneg b). replace (_ <? _) with false by lia.
  assert (Z.to_nat (FrameHeader.length h) <= length (FrameDecoder.buf s))%nat by (unfold len in *; lia).
  rewrite take_app_le by done.
  assert (consumed h (FrameDecoder.feed b s) = FrameDecoder.feed b (consumed h s)) as ->.
  { unfold consumed, FrameDecoder.feed. cbn. by rewrite drop_app_le. }
  by destruct (decode_frame h _).
Qed.

Lemma decode_feed s b : FrameDecoder.wf s -> bytes_ok b -> feed_commutes s b.
Proof.
  intros Hwf Hb. destruct (FrameDecoder.current_header s) as [h|] eqn:Hc;
    [by eapply decode_feed_pending|].
  pose proof Hwf as [Hs _]. unfold feed_commutes. rewrite (decode_fresh s) by done.
  destruct (_ <? 9) eqn:E; [done|]. zbool.
  rewrite (decode_fresh (FrameDecoder.feed b s)) by (done || by apply Forall_app).
  cbn [FrameDecoder.buf FrameDecoder.feed FrameDecoder.max_frame_size set_field].
  rewrite len_app. pose proof (len_nonneg b). replace (_ <? _) with false by lia.
  rewrite front_header_feed by done.
  destruct (front_header_wf (FrameDecoder.buf s)) as (h & -> & Hh & _); [done..|].
  destruct (_ >? _) eqn:Em; [done|]. zbool.
  assert (with_header h (FrameDecoder.feed b s) = FrameDecoder.feed b (with_header h s)) as ->.
  { unfold with_header, FrameDecoder.feed. cbn. rewrite drop_app_le; [done|unfold len in *; lia]. }
  by apply (decode_feed_pending h (with_header h s)); [apply wf_with_header|].
Qed.

(** [drains s fs stop s']: calling [decode] from [s] until it asks for more or
    fails. *)
Inductive drains : FrameDecoder.t -> list Frame.t -> option Error.t -> FrameDecoder.t -> Prop :=
| Drain_more s s' : FrameDecoder.decode s = (Ok None, s') -> drains s [] None s'
| Drain_error s e s' : FrameDecoder.decode s = (Err e, s') -> drains s [] (Some e) s'
| Drain_frame s f s' fs stop s'' :
    FrameDecoder.decode s = (Ok (Some f), s') -> drains s' fs stop s'' ->
    drains s (f :: fs) stop s''.

Lemma decode_wf s r s' : FrameDecoder.wf s -> FrameDecoder.decode s = (r, s') -> FrameDecoder.wf s'.
Proof. intros Hwf Hd. pose proof (decode_outcome_ok s Hwf) as H. rewrite Hd in H. by inversion H. Qed.

Lemma decode_all_drains fuel s :
  FrameDecoder.wf s -> (FrameDecoder.measure s < fuel)%nat ->
  exists fs stop s', FrameDecoder.decode_all fuel s = Some (fs, stop, s') /\
    drains s fs stop s' /\ FrameDecoder.wf s'.
Proof.
  revert s. induction fuel as [|fuel IH]; intros s Hwf Hm; [lia|]. cbn [FrameDecoder.decode_all].
  pose proof (decode_outcome_ok s Hwf) as Hout.
  destruct (FrameDecoder.decode s) as [[[f|]|e|] s'] eqn:E; cbn in Hout; [| | |by inversion Hout].
  - pose proof (decode_decreases s f s' Hwf E).
    destruct (IH s') as (fs & stop & s'' & -> & Hd & Hwf''); [by eapply decode_wf|lia|].
    exists (f :: fs), stop, s''. split_and!; try done. by econstructor.
  - eexists _, _, _. split_and!; [done|by constructor|by eapply decode_wf].
  - eexists _, _, _. split_and!; [done|by constructor|by eapply decode_wf].
Qed.

Lemma drains_det s fs1 stop1 s1 fs2 stop2 s2 :
  drains s fs1 stop1 s1 -> drains s fs2 stop2 s2 -> fs1 = fs2 /\ stop1 = stop2 /\ s1 = s2.
Proof.
  intros H. revert fs2 stop2 s2.
  induction H as [s s' E|s e s' E|s f s' fs stop s'' E _ IH]; intros fs2 stop2 s2 H2;
    inversion H2; subst; rewrite E in *; simplify_eq; try done.
  destruct (IH _ _ _ ltac:(eassumption)) as (-> & -> & ->). done.
Qed.

Lemma drain_spec s :
  FrameDecoder.wf s -> exists fs stop s', FrameDecoder.drain s = Some (fs, stop, s') /\
    drains s fs stop s' /\ FrameDecoder.wf s'.
Proof. intros Hwf. apply decode_all_drains; [done|lia]. Qed.

Lemma drains_drain s fs stop s' :
  FrameDecoder.wf s -> drains s fs stop s' -> FrameDecoder.drain s = Some (fs, stop, s').
Proof.
  intros Hwf Hd. destruct (drain_spec s Hwf) as (fs2 & stop2 & s2 & -> & Hd2 & _).
  by destruct (drains_det _ _ _ _ _ _ _ Hd Hd2) as (-> & -> & ->).
Qed.

(** Only the first call depends on the state. *)
Lemma drains_same s1 s2 fs stop s' :
  FrameDecoder.decode s1 = FrameDecoder.decode s2 -> drains s1 fs stop s' -> drains s2 fs stop s'.
Proof. intros E H. inversion H; subst; rewrite E in *; by econstructor. Qed.

Lemma drains_feed s fs stop s1 b :
  FrameDecoder.wf s -> bytes_ok b -> drains s fs stop s1 ->
  match stop with
  | Some e => drains (FrameDecoder.feed b s) fs (Some e) (FrameDecoder.feed b s1)
  | None => forall fs2 stop2 s2,
      drains (FrameDecoder.feed b s1) fs2 stop2 s2 ->
      drains (FrameDecoder.feed b s) (fs ++ fs2) stop2 s2
  end.
Proof.
  intros Hwf Hb H. induction H as [s s' E|s e s' E|s f s' fs stop s'' E Hd IH];
    pose proof (decode_feed s b Hwf Hb) as Hf; unfold feed_commutes in Hf; rewrite E in Hf.
  - intros fs2 stop2 s2 H2. cbn. by eapply drains_same.
  - by constructor.
  - assert (FrameDecoder.wf s') as Hs' by (by eapply decode_wf).
    specialize (IH Hs'). destruct stop as [e|]; [by econstructor|].
    intros fs2 stop2 s2 H2. cbn. econstructor; [done|]. by apply IH.
Qed.

Lemma drain_chunks_spec chunks s :
  FrameDecoder.wf s -> Forall bytes_ok chunks ->
  exists fs stop s1 s2,
    FrameDecoder.drain_chunks chunks s = Some (fs, stop, s1) /\
    FrameDecoder.wf s1 /\
    (forall s0 fs0, FrameDecoder.wf s0 -> drains s0 fs0 None s ->
       drains (FrameDecoder.feed (concat chunks) s0) (fs0 ++ fs) stop s2) /\
    (stop = None -> s1 = s2).
Proof.
  intros Hwf Hc. revert s Hwf. induction Hc as [|c chunks Hc Hcs IH]; intros s Hwf.
  - exists [], None, s, s. split_and!; try done. intros s0 fs0 H0 Hd. cbn. rewrite app_nil_r.
    destruct s0 as [m b ch l]. unfold FrameDecoder.feed. cbn. by rewrite app_nil_r.
  - cbn [FrameDecoder.drain_chunks concat].
    destruct (drain_spec (FrameDecoder.feed c s)) as (fs & stop & s1 & -> & Hd1 & Hwf1);
      [by apply feed_wf|]. cbn.
    assert (bytes_ok (concat chunks)) as Hcat by by apply Forall_concat.
    assert (forall s0, FrameDecoder.feed (c ++ concat chunks) s0 =
              FrameDecoder.feed (concat chunks) (FrameDecoder.feed c s0)) as Hassoc.
    { intros [m b ch l]. unfold FrameDecoder.feed. cbn. by rewrite app_assoc. }
    destruct stop as [e|].
    + exists fs, (Some e), s1, (FrameDecoder.feed (concat chunks) s1). split_and!; try done.
      intros s0 fs0 H0 Hd0. rewrite Hassoc.
      pose proof (drains_feed s0 fs0 None s c H0 Hc Hd0 _ _ _ Hd1) as Hd.
      apply (drains_feed _ _ _ _ (concat chunks)) in Hd; [done|by apply feed_wf|done].
    + destruct (IH s1 Hwf1) as (fs' & stop' & s1' & s2 & -> & Hwf' & Hall & Heq). cbn.
      exists (fs ++ fs'), stop', s1', s2. split_and!; try done.
      intros s0 fs0 H0 Hd0. rewrite Hassoc, app_assoc.
      apply Hall; [by apply feed_wf|]. by apply (drains_feed s0 fs0 None s c).
Qed.

(** ** Lemmas: the encoder's output through the decoder *)

Definition encode_all : list Frame.t -> ST FrameEncoder.t Error.t unit :=
  foldr (fun f k => encode f ;! k) (ret tt).

(** The frames that can be sent to a decoder with the limit [m]. *)
Definition sendable (m : Z) (f : Frame.t) : Prop :=
  Frame.wf f /\ no_priority f /\ payload_len f < 2 ^ 24 /\ payload_len f <= m /\ wire f <> None.

Lemma wire_parts_ok f ty fl sid payload :
  Frame.wf f -> wire_parts f = Some (ty, fl, sid, payload) ->
  u31_ok sid /\ u8_ok fl /\ u8_ok ty /\ sid = StreamId.as_u32 (Frame.stream_id f).
Proof.
  intros Hwf Hp. unfold u31_ok, u8_ok.
  destruct f as [f|f|f|f|f|f|f|f|f|f|f|h pl]; try discriminate;
    unfold wire_parts in Hp; apply (inj Some) in Hp;
    apply pair_equal_spec in Hp as [Hp _]; apply pair_equal_spec in Hp as [Hp <-];
    apply pair_equal_spec in Hp as [<- <-]; cbn [Frame.stream_id]; rewrite ?from_nz_as_u32.
  - destruct f as [id es d p], Hwf as [Hid _]. pose proof (nz_as_u32_range _ Hid). cbn in *.
    split_and!; try lia; by destruct es, p.
  - destruct f as [id es eh pf d p], Hwf as [Hid _]. pose proof (nz_as_u32_range _ Hid). cbn in *.
    split_and!; try lia; by destruct es, eh, p.
  - destruct Hwf as [Hid _]. pose proof (nz_as_u32_range _ Hid). split_and!; lia.
  - by destruct (SettingsFrame.is_ack f).
  - by destruct (PingFrame.is_ack f).
  - done.
  - destruct Hwf as [Hid _]. pose proof (as_u32_range _ Hid). split_and!; lia.
  - destruct Hwf as [Hid _]. pose proof (nz_as_u32_range _ Hid).
    split_and!; try lia; by destruct (ContinuationFrame.end_headers f).
  - done.
  - destruct Hwf as [(_ & Hty & Hfl & Hsid) _]. unfold u8_ok, u31_ok in *.
    rewrite from_wire_as_u32. split_and!; try lia.
Qed.

Lemma bytes_u31_to_be x : bytes_ok (u31_to_be x).
Proof. by repeat constructor; apply as_u8_ok. Qed.
Lemma bytes_u32_to_be x : bytes_ok (u32_to_be x).
Proof. by repeat constructor; apply as_u8_ok. Qed.
Lemma bytes_u16_to_be x : bytes_ok (u16_to_be x).
Proof. by repeat constructor; apply as_u8_ok. Qed.

Lemma bytes_padded p d :
  Frame.opt_u8_ok p -> bytes_ok d -> bytes_ok (pad_prefix p ++ d ++ pad_suffix p).
Proof.
  intros Hp Hd. apply bytes_ok_app. destruct p as [n|]; cbn.
  - split; [by repeat constructor; apply Hp|]. apply bytes_ok_app. split; [done|].
    apply Forall_replicate. by unfold u8_ok.
  - rewrite app_nil_r. by split; [constructor|].
Qed.

Lemma bytes_settings l : bytes_ok (concat (map encode_setting l)).
Proof.
  induction l as [|s l IH]; [constructor|]. cbn [map concat]. apply bytes_ok_app.
  split; [|done]. unfold encode_setting. destruct (Setting.as_wire s).
  apply bytes_ok_app. auto using bytes_u16_to_be, bytes_u32_to_be.
Qed.

Lemma wire_bytes_ok f bytes : Frame.wf f -> wire f = Some bytes -> bytes_ok bytes.
Proof.
  unfold wire. intros Hwf. destruct (wire_parts f) as [[[[ty fl] sid] payload]|] eqn:E; [|done].
  intros Hw. apply (inj Some) in Hw as <-. destruct (wire_parts_ok f ty fl sid payload Hwf E)
    as (_ & Hfl & Hty & _).
  apply bytes_ok_app. split.
  { unfold header_bytes. apply bytes_ok_app. split; [|apply bytes_u31_to_be].
    repeat constructor; try apply as_u8_ok; apply Hty || apply Hfl. }
  destruct f as [f|f|f|f|f|f|f|f|f|f|f|h pl]; try discriminate;
    unfold wire_parts in E; apply (inj Some) in E; apply pair_equal_spec in E as [_ <-].
  - destruct Hwf as (_ & Hd & Hp). by apply bytes_padded.
  - destruct Hwf as (_ & Hd & Hp & _). by apply bytes_padded.
  - apply bytes_u32_to_be.
  - case_match; [constructor|apply bytes_settings].
  - apply Hwf.
  - rewrite !bytes_ok_app. split_and!; [apply bytes_u31_to_be|apply bytes_u32_to_be|apply Hwf].
  - apply bytes_u31_to_be.
  - apply Hwf.
  - apply bytes_ok_app. split; [apply bytes_u31_to_be|apply Hwf].
  - apply Hwf.
Qed.

Lemma decode_wire m f bytes rest l :
  sendable m f -> wire f = Some bytes -> bytes_ok rest ->
  FrameDecoder.decode (FrameDecoder.mk m (bytes ++ rest) None l) =
  (Ok (Some f), FrameDecoder.mk m rest None (Some (StreamId.as_u32 (Frame.stream_id f)))).
Proof.
  intros (Hwf & Hnp & Hlen & Hm & _) Hw Hrest. pose proof (wire_bytes_ok f bytes Hwf Hw) as Hb.
  unfold wire, payload_len in *. pose proof (decode_frame_wire f Hwf Hnp) as Hdec.
  destruct (wire_parts f) as [[[[ty fl] sid] payload]|] eqn:E; [|done].
  destruct (wire_parts_ok f ty fl sid payload Hwf E) as (Hsid & _ & _ & Hs).
  apply (inj Some) in Hw. subst bytes.
  pose proof (len_nonneg payload). pose proof (len_nonneg rest).
  rewrite decode_fresh by (done || cbn; by apply bytes_ok_app).
  cbn [FrameDecoder.buf FrameDecoder.max_frame_size].
  rewrite <- app_assoc. rewrite len_app, len_app.
  replace (len (header_bytes _ _ _ _)) with 9 by reflexivity.
  replace (_ <? 9) with false by lia.
  assert (front_header (header_bytes (len payload) ty fl sid ++ payload ++ rest) =
          Some (FrameHeader.mk (len payload) ty (FrameFlags.from_bits fl) sid)) as ->.
  { unfold front_header.
    change 9%nat with (length (header_bytes (len payload) ty fl sid)).
    rewrite take_app_length. rewrite <- (app_nil_r (header_bytes _ _ _ _)).
    by rewrite decode_header_bytes by (done || lia). }
  cbn [FrameHeader.length]. replace (_ >? m) with false by lia.
  rewrite (decode_pending (FrameHeader.mk (len payload) ty (FrameFlags.from_bits fl) sid))
    by (done || cbn; lia).
  unfold with_header. cbn [FrameDecoder.buf FrameHeader.length].
  change 9%nat with (length (header_bytes (len payload) ty fl sid)). rewrite drop_app_length.
  rewrite len_app. replace (_ <? len payload) with false by lia.
  unfold consumed. cbn [FrameDecoder.buf FrameDecoder.max_frame_size FrameHeader.length
                        FrameHeader.stream_id].
  rewrite <- length_len, take_app_length, drop_app_length, Hdec. by rewrite Hs.
Qed.

Lemma encode_all_spec m fs s :
  Forall (sendable m) fs ->
  exists bytes, encode_all fs s = (Ok tt, FrameEncoder.mk (FrameEncoder.buf s ++ bytes)) /\
    bytes_ok bytes /\
    forall l, exists l', drains (FrameDecoder.mk m bytes None l) fs None (FrameDecoder.mk m [] None l').
Proof.
  intros Hfs. revert s. induction Hfs as [|f fs Hf Hfs IH]; intros s.
  - exists []. split_and!; [destruct s; cbn; by rewrite app_nil_r|constructor|].
    intros l. exists l. by constructor.
  - pose proof Hf as (Hwf & _ & Hlen & _ & Hw). cbn [encode_all foldr].
    pose proof (encode_spec f s ltac:(lia) Hwf) as Hs.
    destruct (wire f) as [bytes|] eqn:E; [|done].
    destruct (IH (FrameEncoder.mk (FrameEncoder.buf s ++ bytes))) as (bs & Hbs & Hok & Hd).
    exists (bytes ++ bs). unfold bind. rewrite Hs. fold (encode_all fs). rewrite Hbs. cbn.
    split_and!; [by rewrite app_assoc|apply bytes_ok_app; by split; [eapply wire_bytes_ok|]|].
    intros l. destruct (Hd (Some (StreamId.as_u32 (Frame.stream_id f)))) as [l' Hl'].
    exists l'. econstructor; [by eapply decode_wire|done].
Qed.

Lemma decoder_new_wf m : FrameDecoder.wf (FrameDecoder.new m).
Proof. split; [constructor|done]. Qed.

(** However the octets of some frames are cut, the decoder reads the frames. *)
Lemma encode_all_drains m fs :
  Forall (sendable m) fs ->
  exists bytes, encode_all fs FrameEncoder.new = (Ok tt, FrameEncoder.mk bytes) /\
    forall chunks, concat chunks = bytes ->
    exists s, FrameDecoder.drain_chunks chunks (FrameDecoder.new m) = Some (fs, None, s) /\
      FrameDecoder.buf s = [] /\ FrameDecoder.current_header s = None.
Proof.
  intros Hfs. destruct (encode_all_spec m fs FrameEncoder.new Hfs) as (bytes & Hb & Hok & Hd).
  exists bytes. split; [done|]. intros chunks Hc. subst bytes. destruct (Hd None) as [l' Hl].
  assert (Forall bytes_ok chunks) as Hcs by by apply Forall_concat.
  destruct (drain_chunks_spec chunks (FrameDecoder.new m) (decoder_new_wf m) Hcs)
    as (fs' & stop & s1 & s2 & -> & _ & Hall & Heq).
  specialize (Hall (FrameDecoder.new m) [] (decoder_new_wf m) ltac:(by constructor)).
  cbn [app] in Hall. destruct (drains_det _ _ _ _ _ _ _ Hall Hl) as (-> & -> & ->).
  rewrite Heq by done. eauto.
Qed.

(** HEADERS without its priority fields, which the encoder ignores. *)
Definition unprioritized (f : Frame.t) : Frame.t :=
  match f with
  | Frame.Headers h =>
      Frame.Headers (HeadersFrame.mk (HeadersFrame.stream_id h) (HeadersFrame.end_stream h) (HeadersFrame.end_headers h) None
                       (HeadersFrame.header_block_fragment h) (HeadersFrame.pad_length h))
  | _ => f
  end.

Lemma encode_unprioritized f : encode (unprioritized f) = encode f.
Proof. by destruct f as [|[]| | | | | | | | | |]. Qed.

Lemma encode_all_unprioritized fs : encode_all (map unprioritized fs) = encode_all fs.
Proof. induction fs as [|f fs IH]; [done|]. cbn [map encode_all foldr]. by rewrite encode_unprioritized, <- IH. Qed.

(** ** Properties *)

(** C29: Frames survive the wire. The encoder accepts every sequence of
    well-formed frames of the kinds it writes (all but PRIORITY and PUSH_PROMISE,
    which it refuses), with payloads below 2^24 octets, and its octets, cut into
    arbitrary chunks, are read back by an incremental decoder whose frame size
    limit the payloads keep: the same frames, in order, with no error and with
    nothing left in its buffer. Only the priority fields of a HEADERS frame are
    lost, which the encoder documents that it ignores: the frame is read back
    without them. *)
Theorem frame_stream_roundtrip m fs :
  Forall (fun f => sendable m (unprioritized f)) fs ->
  exists bytes, encode_all fs FrameEncoder.new = (Ok tt, FrameEncoder.mk bytes) /\
    forall chunks, concat chunks = bytes ->
    exists s, FrameDecoder.drain_chunks chunks (FrameDecoder.new m) = Some (map unprioritized fs, None, s) /\
      FrameDecoder.buf s = [] /\ FrameDecoder.current_header s = None.
Proof.
  intros Hfs. rewrite <- encode_all_unprioritized. apply encode_all_drains. by apply Forall_map.
Qed.

Definition sample_frames : list Frame.t :=
  [Frame.Settings (SettingsFrame.from_settings
     [Setting.MaxConcurrentStreams 100; Setting.InitialWindowSize (WindowSize.mk 1000)]);
   Frame.Headers (HeadersFrame.mk (NonZeroStreamId.Client (ClientStreamId.mk 1)) false true
     (Some (PriorityFields.mk false (StreamId.from_wire 3) (Weight.mk 7))) [130; 135] None);
   Frame.Data (DataFrame.mk (NonZeroStreamId.Client (ClientStreamId.mk 1)) true [1; 2; 3] (Some 2))].

Lemma frame_stream_roundtrip_witness :
  exists bytes, encode_all sample_frames FrameEncoder.new = (Ok tt, FrameEncoder.mk bytes) /\
    exists s, FrameDecoder.drain_chunks (map (fun x => [x]) bytes) (FrameDecoder.new 16384) =
      Some (map unprioritized sample_frames, None, s) /\
    FrameDecoder.buf s = [] /\ FrameDecoder.current_header s = None.
Proof.
  destruct (frame_stream_roundtrip 16384 sample_frames) as (bytes & He & Hd).
  - unfold sample_frames, unprioritized, sendable, payload_len, wire.
    repeat constructor; cbn; try done; try lia; unfold u32_ok; try lia; by vm_compute.
  - exists bytes. split; [exact He|]. apply Hd. clear. induction bytes as [|b l IH]; [done|]. cbn. by rewrite IH.
Defined.

(** Cutting the input differently never changes what the decoder delivers:
    the frames and the error (if any) of draining chunk by chunk are those of
    draining the whole input at once, and the decoder always terminates. *)
Theorem decoder_chunking_invariant m chunks :
  Forall bytes_ok chunks ->
  exists fs stop s s',
    FrameDecoder.drain_chunks chunks (FrameDecoder.new m) = Some (fs, stop, s) /\
    FrameDecoder.drain (FrameDecoder.feed (concat chunks) (FrameDecoder.new m))
    = Some (fs, stop, s').
Proof.
  intros Hcs. destruct (drain_chunks_spec chunks (FrameDecoder.new m) (decoder_new_wf m) Hcs)
    as (fs & stop & s1 & s2 & Hd & _ & Hall & _).
  specialize (Hall (FrameDecoder.new m) [] (decoder_new_wf m) ltac:(by constructor)).
  exists fs, stop, s1, s2. split; [done|]. apply drains_drain; [|done].
  apply feed_wf; [by apply Forall_concat|apply decoder_new_wf].
Qed.

Lemma decoder_chunking_invariant_witness :
  exists fs stop s s',
    FrameDecoder.drain_chunks [[0; 0; 4; 3; 0; 0]; [0; 0; 1; 0; 0; 0; 8]] (FrameDecoder.new 16384)
    = Some (fs, stop, s) /\
    FrameDecoder.drain (FrameDecoder.feed (concat [[0; 0; 4; 3; 0; 0]; [0; 0; 1; 0; 0; 0; 8]])
      (FrameDecoder.new 16384)) = Some (fs, stop, s').
Proof.
  apply (decoder_chunking_invariant 16384 [[0; 0; 4; 3; 0; 0]; [0; 0; 1; 0; 0; 0; 8]]).
  repeat constructor; by vm_compute.
Defined.

(** On any input the decoder never panics and keeps its invariant; a frame
    it returns is well formed and came from a payload within the frame size
    limit. *)
Theorem decoder_never_panics s :
  FrameDecoder.wf s ->
  let '(r, s') := FrameDecoder.decode s in
  r <> Panic /\ FrameDecoder.wf s' /\
  match r with
  | Ok (Some f) => Frame.wf f /\
      exists h payload, decode_frame h payload = Ok f /\ len payload = FrameHeader.length h /\
        FrameHeader.length h <= FrameDecoder.max_frame_size s
  | _ => True
  end.
Proof.
  intros Hwf. pose proof (decode_outcome_ok s Hwf) as H.
  destruct (FrameDecoder.decode s) as [r s']. cbn in H.
  inversion H as [s1 ?|h f s1 ? ? ? ? (p & ? & ?)|e s1 ?]; subst; [done| |done].
  split_and!; [done..|]. by exists h, p.
Qed.

Lemma decoder_never_panics_witness :
  let s := FrameDecoder.mk 16384 [0; 0; 3; 0; 8; 0; 0; 0; 1; 2; 0; 0] None None in
  let '(r, s') := FrameDecoder.decode s in
  r <> Panic /\ FrameDecoder.wf s' /\
  match r with
  | Ok (Some f) => Frame.wf f /\
      exists h payload, decode_frame h payload = Ok f /\ len payload = FrameHeader.length h /\
        FrameHeader.length h <= FrameDecoder.max_frame_size s
  | _ => True
  end.
Proof.
  apply (decoder_never_panics (FrameDecoder.mk 16384 [0; 0; 3; 0; 8; 0; 0; 0; 1; 2; 0; 0] None None)).
  split; [|done]. repeat constructor; by vm_compute.
Defined.
