(* ===== verification/HpackInteger.v ===== *)
(** * HpackInteger: the prefix integers of HPACK

    Models [src/src/hpack/integer.rs].  [encode] writes into a caller's buffer,
    which is its state; [decode] reads a slice.  The encoder's loop shifts a
    [u64] right by seven bits, so ten rounds are enough ([LOOP_FUEL]). *)

From S2P Require Import Prelude Errors.

Module HpackInteger.

Definition LOOP_FUEL : nat := 10.

Definition buffer_too_short : Error.t :=
  Error.hpack_error "HPACK integer encode buffer too short".

(** [while remaining >= 128 { .. }], then the last octet.  Running out of fuel
    is the outcome [Panic]. *)
Fixpoint encode_loop (fuel : nat) (remaining offset : Z) : ST (list Z) Error.t Z :=
  match fuel with
  | O => panic
  | S fuel =>
      let! buf_len := gets len in
      if remaining >=? 128 then
        if offset >=? buf_len then throw buffer_too_short
        else
          set_index offset (Z.lor 0x80 (as_u8 (Z.land remaining 0x7f))) ;!
          encode_loop fuel (Z.shiftr remaining 7) (offset + 1)
      else if offset >=? buf_len then throw buffer_too_short
      else
        set_index offset (as_u8 remaining) ;!
        ret (offset + 1)
  end.

Definition encode (value prefix_bits prefix_value : Z) : ST (list Z) Error.t Z :=
  let! buf_len := gets len in
  if buf_len =? 0 then throw buffer_too_short
  else
    let max_prefix := Z.shiftl 1 prefix_bits - 1 in
    if value <? max_prefix then
      set_index 0 (Z.lor prefix_value (as_u8 value)) ;! ret 1
    else
      set_index 0 (Z.lor prefix_value (as_u8 max_prefix)) ;!
      encode_loop LOOP_FUEL (value - max_prefix) 1.

Fixpoint encoded_len_loop (fuel : nat) (remaining n : Z) : Z :=
  match fuel with
  | O => n
  | S fuel =>
      if remaining >=? 128 then encoded_len_loop fuel (Z.shiftr remaining 7) (n + 1) else n
  end.

Definition encoded_len (value prefix_bits : Z) : Z :=
  let max_prefix := Z.shiftl 1 prefix_bits - 1 in
  if value <? max_prefix then 1
  else encoded_len_loop LOOP_FUEL (value - max_prefix) 1 + 1.

(** [loop { .. }] over [rest = buf[offset..]]. *)
Fixpoint decode_loop (rest : list Z) (value shift offset : Z) : Result (Z * Z) :=
  match rest with
  | [] => Err (Error.hpack_error "incomplete HPACK integer")
  | byte :: rest =>
      if shift >=? 63 then Err (Error.hpack_error "HPACK integer overflow")
      else
        let contribution := Z.land byte 0x7f in
        let? value := ok_or (checked_add value (Z.shiftl contribution shift))
                        (Error.hpack_error "HPACK integer overflow") in
        if Z.land byte 0x80 =? 0 then Ok (value, offset + 1)
        else decode_loop rest value (shift + 7) (offset + 1)
  end.

Definition decode (buf : list Z) (prefix_bits : Z) : Result (Z * Z) :=
  match buf with
  | [] => Err (Error.hpack_error "incomplete HPACK integer")
  | b0 :: rest =>
      let max_prefix := Z.shiftl 1 prefix_bits - 1 in
      let prefix_mask := as_u8 max_prefix in
      let first_byte := Z.land b0 prefix_mask in
      if first_byte <? max_prefix then Ok (first_byte, 1)
      else decode_loop rest max_prefix 0 1
  end.

(** ** Specification *)

(** The continuation octets of a value, least significant group first. *)
Fixpoint tail_octets (fuel : nat) (r : Z) : list Z :=
  match fuel with
  | O => []
  | S fuel => if r <? 128 then [r] else (128 + r mod 128) :: tail_octets fuel (r / 128)
  end.

(** The octets of [value] behind an [n]-bit prefix whose other bits are [p]. *)
Definition octets (value n p : Z) : list Z :=
  let max_prefix := 2 ^ n - 1 in
  if value <? max_prefix then [p + value]
  else (p + max_prefix) :: tail_octets LOOP_FUEL (value - max_prefix).

(** A prefix length of RFC 7541 with flag bits above it. *)
Definition prefix_ok (n p : Z) : Prop := 1 <= n <= 8 /\ u8_ok p /\ p mod 2 ^ n = 0.

End HpackInteger.

(** ** Lemmas *)
Import HpackInteger(octets, tail_octets, prefix_ok, LOOP_FUEL).

Lemma shiftl_1_pow n : 0 <= n -> Z.shiftl 1 n = 2 ^ n.
Proof. intros. by rewrite Z.shiftl_1_l. Qed.

Lemma prefix_range n : 1 <= n <= 8 -> 1 <= 2 ^ n - 1 < 2 ^ 8.
Proof.
  intros H. pose proof (Z.pow_le_mono_r 2 1 n ltac:(lia) ltac:(lia)).
  pose proof (Z.pow_le_mono_r 2 n 8 ltac:(lia) ltac:(lia)). lia.
Qed.

(** Flag bits above the prefix and a value below it do not overlap. *)
Lemma lor_prefix n p v :
  0 <= n -> p mod 2 ^ n = 0 -> 0 <= v < 2 ^ n -> Z.lor p v = p + v.
Proof.
  intros Hn Hp Hv. pose proof (Z.div_mod p (2 ^ n) ltac:(lia)) as Hd. rewrite Hp, Z.add_0_r in Hd.
  rewrite Hd, (Z.mul_comm (2 ^ n)), <- Z.shiftl_mul_pow2 by done.
  rewrite lor_shiftl_add by done. by rewrite Z.shiftl_mul_pow2.
Qed.

Lemma land_7f x : Z.land x 0x7f = x mod 2 ^ 7.
Proof. change 0x7f with (Z.ones 7). by rewrite Z.land_ones. Qed.

(** A continuation octet: its low bits and its top bit. *)
Lemma land_80 x : u8_ok x -> Z.land x 0x80 = if x <? 128 then 0 else 128.
Proof.
  intros H. apply Z.eqb_eq. revert x H. by apply u8_check; vm_compute.
Qed.

Lemma tail_octets_nonempty fuel r : (0 < fuel)%nat -> tail_octets fuel r <> [].
Proof. destruct fuel; [lia|]. cbn. by case_match. Qed.

Lemma tail_octets_len k r : len (tail_octets k r) <= Z.of_nat k.
Proof.
  revert r. induction k as [|k IH]; intros r; [done|]. cbn [tail_octets].
  destruct (_ <? 128); [change (len [r]) with 1; lia|]. rewrite len_cons.
  specialize (IH (r / 128)). lia.
Qed.

Lemma octets_len value n p : 1 <= len (octets value n p) <= 11.
Proof.
  unfold octets. destruct (_ <? _); [by vm_compute|]. rewrite len_cons.
  pose proof (tail_octets_len LOOP_FUEL (value - (2 ^ n - 1))) as Ht.
  pose proof (len_nonneg (tail_octets LOOP_FUEL (value - (2 ^ n - 1)))).
  change (Z.of_nat LOOP_FUEL) with 10 in Ht. lia.
Qed.

Lemma octets_bytes_ok value n p : 0 <= value -> prefix_ok n p -> bytes_ok (octets value n p).
Proof.
  intros Hv (Hn & Hp & Hm). unfold octets. pose proof (prefix_range n Hn).
  assert (forall v, 0 <= v < 2 ^ n -> u8_ok (p + v)) as Hpv.
  { intros v Hv'. unfold u8_ok in *. split; [lia|].
    rewrite (Z.div_mod p (2 ^ n)), Hm by lia.
    assert (2 ^ 8 = 2 ^ n * 2 ^ (8 - n)) as H8 by (rewrite <- Z.pow_add_r by lia; f_equal; lia).
    rewrite H8 in *. pose proof (Z.div_lt_upper_bound p (2 ^ n) (2 ^ (8 - n)) ltac:(lia) ltac:(lia)).
    nia. }
  destruct (_ <? _) eqn:E; zbool.
  - constructor; [apply Hpv; lia|constructor].
  - constructor; [apply Hpv; lia|].
    assert (0 <= value - (2 ^ n - 1)) as Hr by lia. revert Hr.
    generalize (value - (2 ^ n - 1)). induction LOOP_FUEL as [|k IH]; intros r Hr; [constructor|].
    cbn. destruct (r <? 128) eqn:Er; zbool.
    + constructor; [unfold u8_ok; lia|constructor].
    + constructor; [unfold u8_ok; pose proof (Z.mod_pos_bound r 128); lia|].
      apply IH. apply Z.div_pos; lia.
Qed.

(** *** The encoder *)

Lemma continuation_octet r :
  0 <= r -> Z.lor 0x80 (as_u8 (Z.land r 0x7f)) = 128 + r mod 128.
Proof.
  intros Hr. rewrite land_7f. change (2 ^ 7) with 128.
  pose proof (Z.mod_pos_bound r 128 ltac:(lia)).
  rewrite as_u8_small by (unfold u8_ok; lia). by rewrite (lor_prefix 7) by (done || lia).
Qed.

Lemma int_encode_loop_S fuel r off buf :
  HpackInteger.encode_loop (S fuel) r off buf =
  if r <? 128 then
    if len buf <=? off then (Err HpackInteger.buffer_too_short, buf)
    else (set_index off (as_u8 r) ;! ret (off + 1)) buf
  else if len buf <=? off then (Err HpackInteger.buffer_too_short, buf)
  else (set_index off (Z.lor 0x80 (as_u8 (Z.land r 0x7f))) ;!
        HpackInteger.encode_loop fuel (Z.shiftr r 7) (off + 1)) buf.
Proof.
  cbn [HpackInteger.encode_loop]. unfold bind at 1, gets.
  rewrite !Z.geb_leb, Z.leb_antisym. destruct (r <? 128); cbn [negb]; by destruct (len buf <=? off).
Qed.

(** The loop writes the continuation octets behind what is there, or reports
    that the buffer is too short. *)
Lemma int_encode_loop_spec fuel r p junk :
  0 <= r < 2 ^ (7 * Z.of_nat fuel) -> (0 < fuel)%nat ->
  let tail := tail_octets fuel r in
  if len tail <=? len junk
  then HpackInteger.encode_loop fuel r (len p) (p ++ junk)
       = (Ok (len p + len tail), p ++ tail ++ drop (length tail) junk)
  else fst (HpackInteger.encode_loop fuel r (len p) (p ++ junk))
       = Err HpackInteger.buffer_too_short.
Proof.
  revert r p junk. induction fuel as [|fuel IH]; intros r p junk Hr Hf; [lia|].
  cbn zeta. rewrite int_encode_loop_S. cbn [tail_octets]. rewrite len_app.
  pose proof (len_nonneg p). pose proof (len_nonneg junk).
  destruct (r <? 128) eqn:Er; zbool.
  - change (len [r]) with 1.
    destruct junk as [|x junk].
    + change (len []) with 0. replace (len p + 0 <=? len p) with true by lia. done.
    + rewrite len_cons. pose proof (len_nonneg junk). replace (1 <=? _) with true by lia.
      replace (_ <=? len p) with false by lia.
      unfold bind. rewrite set_index_app. cbn. rewrite as_u8_small by (unfold u8_ok; lia). done.
  - rewrite len_cons.
    destruct junk as [|x junk].
    + change (len []) with 0. replace (len p + 0 <=? len p) with true by lia.
      pose proof (len_nonneg (tail_octets fuel (r / 128))).
      by replace (1 + _ <=? 0) with false by lia.
    + rewrite len_cons. pose proof (len_nonneg junk). replace (_ <=? len p) with false by lia.
      unfold bind. rewrite set_index_app, continuation_octet by lia.
      change (p ++ (128 + r mod 128) :: junk) with (p ++ [128 + r mod 128] ++ junk).
      rewrite app_assoc.
      assert (len p + 1 = len (p ++ [128 + r mod 128])) as -> by (rewrite len_app; reflexivity).
      rewrite Z.shiftr_div_pow2 by lia. change (2 ^ 7) with 128 in *.
      assert (0 < fuel)%nat by (destruct fuel; [cbn in Hr; lia|lia]).
      assert (0 <= r / 128 < 2 ^ (7 * Z.of_nat fuel)).
      { split; [apply Z.div_pos; lia|]. apply Z.div_lt_upper_bound; [lia|].
        change 128 with (2 ^ 7). rewrite <- Z.pow_add_r by lia.
        replace (7 + 7 * Z.of_nat fuel) with (7 * Z.of_nat (S fuel)) by lia. lia. }
      specialize (IH (r / 128) (p ++ [128 + r mod 128]) junk ltac:(done) ltac:(done)).
      cbn zeta in IH. replace (1 + len (tail_octets fuel (r / 128)) <=? 1 + len junk)
        with (len (tail_octets fuel (r / 128)) <=? len junk)
        by (apply eq_true_iff_eq; rewrite !Z.leb_le; lia).
      destruct (_ <=? len junk) eqn:El; [|done]. rewrite IH.
      rewrite <- !app_assoc. cbn. rewrite len_app. change (len [_]) with 1. do 2 f_equal. lia.
Qed.

(** [encode] writes exactly the specified octets when the buffer has room for
    them, and reports an error otherwise. *)
Lemma int_encode_spec value n p buf :
  0 <= value < 2 ^ 64 -> prefix_ok n p ->
  let out := octets value n p in
  if len out <=? len buf
  then HpackInteger.encode value n p buf = (Ok (len out), out ++ drop (length out) buf)
  else fst (HpackInteger.encode value n p buf) = Err HpackInteger.buffer_too_short.
Proof.
  intros Hv (Hn & Hp & Hm). cbn zeta. unfold HpackInteger.encode, octets.
  rewrite shiftl_1_pow by lia. pose proof (prefix_range n Hn).
  unfold bind at 1, gets. cbn zeta beta iota. destruct buf as [|x buf].
  - change (len [] =? 0) with true. destruct (_ <? _); [done|]. rewrite len_cons.
    pose proof (len_nonneg (tail_octets LOOP_FUEL (value - (2 ^ n - 1)))).
    by replace (1 + _ <=? len []) with false by (symmetry; apply Z.leb_gt; change (len []) with 0; lia).
  - rewrite len_cons. pose proof (len_nonneg buf).
    replace (1 + len buf =? 0) with false by lia.
    destruct (value <? 2 ^ n - 1) eqn:E; zbool.
    + change (len [p + value]) with 1. replace (1 <=? _) with true by lia.
      unfold bind. rewrite (set_index_app [] x buf). cbn.
      rewrite as_u8_small by (unfold u8_ok; lia). by rewrite (lor_prefix n) by lia.
    + rewrite len_cons. unfold bind. rewrite (set_index_app [] x buf). cbn [app].
      rewrite as_u8_small by (unfold u8_ok; lia). rewrite (lor_prefix n) by lia.
      pose proof (int_encode_loop_spec LOOP_FUEL (value - (2 ^ n - 1)) [p + (2 ^ n - 1)] buf) as Hl.
      change (len [p + (2 ^ n - 1)]) with 1 in Hl. cbn zeta in Hl.
      specialize (Hl ltac:(unfold LOOP_FUEL; lia) ltac:(unfold LOOP_FUEL; lia)).
      replace (1 + len (tail_octets LOOP_FUEL (value - (2 ^ n - 1))) <=? 1 + len buf)
        with (len (tail_octets LOOP_FUEL (value - (2 ^ n - 1))) <=? len buf)
        by (apply eq_true_iff_eq; rewrite !Z.leb_le; lia).
      destruct (_ <=? len buf); exact Hl.
Qed.

Lemma int_encoded_len_spec value n :
  0 <= value < 2 ^ 64 -> 1 <= n <= 8 ->
  HpackInteger.encoded_len value n = len (octets value n 0).
Proof.
  intros Hv Hn. unfold HpackInteger.encoded_len, octets. rewrite shiftl_1_pow by lia.
  pose proof (prefix_range n Hn).
  destruct (_ <? _) eqn:E; zbool; [done|]. rewrite len_cons.
  assert (forall k r a, 0 <= r < 2 ^ (7 * Z.of_nat k) -> (0 < k)%nat ->
    HpackInteger.encoded_len_loop k r a + 1 = a + len (tail_octets k r)) as Hloop.
  { induction k as [|k IH]; intros r a Hr Hk; [lia|].
    cbn [HpackInteger.encoded_len_loop tail_octets]. rewrite Z.geb_leb, Z.leb_antisym.
    destruct (r <? 128) eqn:Er; cbn [negb]; [reflexivity|]. zbool.
    rewrite Z.shiftr_div_pow2 by lia. change (2 ^ 7) with 128 in *. rewrite len_cons.
    assert (0 < k)%nat by (destruct k; [cbn in Hr; lia|lia]).
    rewrite IH; [lia| |done]. split; [apply Z.div_pos; lia|].
    apply Z.div_lt_upper_bound; [lia|]. change 128 with (2 ^ 7). rewrite <- Z.pow_add_r by lia.
    replace (7 + 7 * Z.of_nat k) with (7 * Z.of_nat (S k)) by lia. lia. }
  apply Hloop; unfold LOOP_FUEL; lia.
Qed.

(** *** The decoder *)

Lemma checked_add_ok a b : a + b < 2 ^ 64 -> checked_add a b = Some (a + b).
Proof. intros. unfold checked_add. by replace (_ <? _) with true by lia. Qed.

Lemma shiftl_group r s : 0 <= s -> Z.shiftl r s = r * 2 ^ s.
Proof. intros. by apply Z.shiftl_mul_pow2. Qed.

Lemma int_decode_loop_spec fuel r value shift off rest :
  0 <= r < 2 ^ (7 * Z.of_nat fuel) -> (0 < fuel)%nat ->
  0 <= shift < 63 -> r < 2 ^ (63 - shift) -> value + r * 2 ^ shift < 2 ^ 64 ->
  HpackInteger.decode_loop (tail_octets fuel r ++ rest) value shift off =
  Ok (value + r * 2 ^ shift, off + len (tail_octets fuel r)).
Proof.
  revert r value shift off. induction fuel as [|fuel IH]; intros r value shift off Hr Hf Hs Hr2 Hv;
    [lia|].
  cbn [tail_octets]. destruct (r <? 128) eqn:Er; zbool; cbn [app HpackInteger.decode_loop];
    replace (shift >=? 63) with false by lia; rewrite shiftl_group, land_7f by lia.
  - change (2 ^ 7) with 128. rewrite (Z.mod_small r) by lia. rewrite checked_add_ok by done. cbn [ok_or rbind].
    rewrite land_80 by (unfold u8_ok; lia). by replace (r <? 128) with true by lia.
  - change (2 ^ 7) with 128. pose proof (Z.mod_pos_bound r 128 ltac:(lia)) as Hmod.
    assert ((128 + r mod 128) mod 128 = r mod 128) as ->.
    { Z.div_mod_to_equations. lia. }
    assert (r = 128 * (r / 128) + r mod 128) as Hdm by (apply Z.div_mod; lia).
    assert (0 < 2 ^ shift) by (apply Z.pow_pos_nonneg; lia).
    assert (2 ^ (shift + 7) = 2 ^ shift * 128) as Hp7 by (rewrite Z.pow_add_r by lia; done).
    assert (0 <= r / 128) by (apply Z.div_pos; lia).
    rewrite checked_add_ok by nia. cbn [ok_or rbind].
    rewrite land_80 by (unfold u8_ok; lia). replace (_ <? 128) with false by lia.
    change (128 =? 0) with false. cbn iota.
    assert (shift + 7 < 63).
    { destruct (Z.lt_ge_cases (shift + 7) 63) as [|Hge]; [done|].
      pose proof (Z.pow_le_mono_r 2 (63 - shift) 7 ltac:(lia) ltac:(lia)). lia. }
    assert (0 < fuel)%nat by (destruct fuel; [cbn in Hr; lia|lia]).
    rewrite IH; try done; try lia.
    + rewrite len_cons. do 2 f_equal; [nia|lia].
    + split; [done|]. apply Z.div_lt_upper_bound; [lia|]. change 128 with (2 ^ 7).
      rewrite <- Z.pow_add_r by lia.
      replace (7 + 7 * Z.of_nat fuel) with (7 * Z.of_nat (S fuel)) by lia. lia.
    + apply Z.div_lt_upper_bound; [lia|]. change 128 with (2 ^ 7).
      rewrite <- Z.pow_add_r by lia. replace (7 + (63 - (shift + 7))) with (63 - shift) by lia. lia.
Qed.

(** The low bits of the first octet. *)
Lemma first_octet n p v :
  1 <= n <= 8 -> p mod 2 ^ n = 0 -> 0 <= v < 2 ^ n ->
  Z.land (p + v) (as_u8 (Z.shiftl 1 n - 1)) = v.
Proof.
  intros Hn Hp Hv. pose proof (prefix_range n Hn). rewrite shiftl_1_pow by lia.
  rewrite as_u8_small by (unfold u8_ok; lia).
  replace (2 ^ n - 1) with (Z.ones n) by (rewrite Z.ones_equiv; lia).
  rewrite Z.land_ones by lia. rewrite <- Z.add_mod_idemp_l, Hp by lia. by apply Z.mod_small.
Qed.

(** What was encoded is read back, with the number of octets it took. *)
Lemma decode_octets value n p rest :
  prefix_ok n p -> 0 <= value < 2 ^ 63 ->
  HpackInteger.decode (octets value n p ++ rest) n = Ok (value, len (octets value n p)).
Proof.
  intros (Hn & Hp & Hm) Hv. unfold HpackInteger.decode, octets. pose proof (prefix_range n Hn).
  assert (Z.shiftl 1 n - 1 = 2 ^ n - 1) as Hmax by (rewrite shiftl_1_pow; lia).
  destruct (_ <? _) eqn:E; zbool; cbn [app]; rewrite first_octet by lia; rewrite Hmax.
  - by replace (value <? 2 ^ n - 1) with true by lia.
  - rewrite Z.ltb_irrefl. rewrite len_cons.
    rewrite int_decode_loop_spec; [|unfold LOOP_FUEL; lia..].
    rewrite Z.mul_1_r. do 2 f_equal. lia.
Qed.

(** On arbitrary octets: never a panic, a [u64], at least one octet and at most
    ten of those available. *)
Lemma int_decode_loop_bounds rest value shift off v c :
  0 <= value -> 0 <= shift -> bytes_ok rest ->
  HpackInteger.decode_loop rest value shift off = Ok (v, c) ->
  value <= v < 2 ^ 64 /\ off < c <= off + len rest /\ (c - off - 1) * 7 + shift < 63.
Proof.
  intros Hv Hs Hr. revert value shift off Hv Hs.
  induction Hr as [|b rest Hb Hr IH]; intros value shift off Hv Hs; [done|].
  cbn [HpackInteger.decode_loop]. destruct (shift >=? 63) eqn:E; [done|]. zbool.
  rewrite shiftl_group, land_7f by lia. unfold checked_add.
  destruct (_ <? 2 ^ 64) eqn:E2; [|done]. zbool. cbn [ok_or rbind].
  pose proof (Z.mod_pos_bound b (2 ^ 7) ltac:(lia)).
  assert (0 < 2 ^ shift) by (apply Z.pow_pos_nonneg; lia).
  assert (0 <= b mod 2 ^ 7 * 2 ^ shift) by (apply Z.mul_nonneg_nonneg; lia).
  rewrite len_cons. pose proof (len_nonneg rest).
  destruct (Z.land b 128 =? 0); [intros [= <- <-]; lia|].
  intros Hd. apply IH in Hd; lia.
Qed.

(** Nine groups of seven bits at most are added to the prefix. *)
Lemma int_decode_loop_value rest value j off v c :
  0 <= j -> value < 2 ^ 8 + 2 ^ (7 * j) -> bytes_ok rest ->
  HpackInteger.decode_loop rest value (7 * j) off = Ok (v, c) -> v < 2 ^ 8 + 2 ^ 63.
Proof.
  intros Hj Hv Hr. revert value j off Hj Hv.
  induction Hr as [|b rest Hb Hr IH]; intros value j off Hj Hv; [done|].
  cbn [HpackInteger.decode_loop]. destruct (7 * j >=? 63) eqn:E; [done|]. zbool.
  rewrite shiftl_group, land_7f by lia. unfold checked_add.
  destruct (_ <? 2 ^ 64) eqn:E2; [|done]. zbool. cbn [ok_or rbind].
  pose proof (Z.mod_pos_bound b (2 ^ 7) ltac:(lia)).
  assert (2 ^ (7 * (j + 1)) = 2 ^ (7 * j) * 128) as Hp
    by (replace (7 * (j + 1)) with (7 * j + 7) by lia; rewrite Z.pow_add_r by lia; done).
  assert (value + b mod 2 ^ 7 * 2 ^ (7 * j) < 2 ^ 8 + 2 ^ (7 * (j + 1))).
  { rewrite Hp. change (2 ^ 7) with 128 in *. pose proof (Z.pow_pos_nonneg 2 (7 * j)). nia. }
  destruct (Z.land b 128 =? 0).
  - intros [= <- _]. assert (2 ^ (7 * (j + 1)) <= 2 ^ 63) by (apply Z.pow_le_mono_r; lia). lia.
  - intros Hd. replace (7 * j + 7) with (7 * (j + 1)) in Hd by lia. by apply IH in Hd; [|lia|].
Qed.

Lemma int_decode_loop_no_panic rest value shift off :
  HpackInteger.decode_loop rest value shift off <> Panic.
Proof.
  revert value shift off. induction rest as [|b rest IH]; intros value shift off; [done|].
  cbn [HpackInteger.decode_loop]. case_match; [done|]. unfold checked_add.
  case_match; [|done]. cbn [ok_or rbind]. case_match; [done|]. apply IH.
Qed.

Lemma int_decode_bounds buf n :
  1 <= n <= 8 -> bytes_ok buf ->
  match HpackInteger.decode buf n with
  | Ok (v, c) => 0 <= v < 2 ^ 8 + 2 ^ 63 /\ 1 <= c <= 10 /\ c <= len buf
  | Err _ => True
  | Panic => False
  end.
Proof.
  intros Hn Hb. pose proof (prefix_range n Hn). unfold HpackInteger.decode.
  destruct Hb as [|b buf Hb Hbuf]; [done|].
  rewrite shiftl_1_pow by lia. rewrite as_u8_small by (unfold u8_ok; lia).
  rewrite len_cons. pose proof (len_nonneg buf).
  replace (2 ^ n - 1) with (Z.ones n) by (rewrite Z.ones_equiv; lia).
  rewrite Z.land_ones by lia. rewrite Z.ones_equiv.
  pose proof (Z.mod_pos_bound b (2 ^ n) ltac:(lia)).
  destruct (_ <? _) eqn:E; zbool; [lia|].
  destruct (HpackInteger.decode_loop _ _ _ _) as [[v c]|e|] eqn:Ed; [|done|].
  - assert (v < 2 ^ 8 + 2 ^ 63)
      by (eapply (int_decode_loop_value _ _ 0); [| |exact Hbuf|exact Ed]; lia).
    apply int_decode_loop_bounds in Ed; [lia|lia|lia|done].
  - by apply int_decode_loop_no_panic in Ed.
Qed.

(** ** Properties *)

(** An integer below 2^63 written behind any prefix by [encode] is read
    back by [decode] with the number of octets it was written in; the sixteen
    octets the HPACK encoder reserves are always enough. *)
Theorem hpack_integer_roundtrip value n p buf rest :
  0 <= value < 2 ^ 63 -> prefix_ok n p -> len buf = 16 ->
  exists written buf', HpackInteger.encode value n p buf = (Ok written, buf') /\
    written = HpackInteger.encoded_len value n /\
    HpackInteger.decode (firstn (Z.to_nat written) buf' ++ rest) n = Ok (value, written).
Proof.
  intros Hv Hp Hbuf. pose proof (int_encode_spec value n p buf ltac:(lia) Hp) as He. cbn zeta in He.
  assert (len (octets value n p) = len (octets value n 0)) as Hl
    by (unfold octets; destruct (_ <? _); [done|by rewrite !len_cons]).
  pose proof (octets_len value n p).
  replace (len (octets value n p) <=? len buf) with true in He by lia.
  eexists _, _. split; [exact He|]. destruct Hp as [Hn Hp]. split.
  - rewrite int_encoded_len_spec by (done || lia). done.
  - rewrite <- length_len, take_app_length. by apply decode_octets.
Qed.

Lemma hpack_integer_roundtrip_witness :
  exists written buf', HpackInteger.encode 1337 5 0x20 (replicate 16 0) = (Ok written, buf') /\
    written = HpackInteger.encoded_len 1337 5 /\
    HpackInteger.decode (firstn (Z.to_nat written) buf' ++ [7]) 5 = Ok (1337, written).
Proof.
  apply (hpack_integer_roundtrip 1337 5 0x20 (replicate 16 0) [7]);
    [lia|split; [lia|split; [split; vm_compute; congruence|reflexivity]]|reflexivity].
Defined.

(** C38: On any octets [decode] returns an error or a value below
    2^63 + 2^8, well within [u64], read from at most ten of them; it never panics. *)
Theorem hpack_integer_decode_bounds buf n :
  1 <= n <= 8 -> bytes_ok buf ->
  match HpackInteger.decode buf n with
  | Ok (v, c) => 0 <= v < 2 ^ 8 + 2 ^ 63 /\ 1 <= c <= 10 /\ c <= len buf
  | Err _ => True
  | Panic => False
  end.
Proof. apply int_decode_bounds. Qed.

Lemma hpack_integer_decode_bounds_witness :
  match HpackInteger.decode [31; 154; 10] 5 with
  | Ok (v, c) => 0 <= v < 2 ^ 8 + 2 ^ 63 /\ 1 <= c <= 10 /\ c <= len [31; 154; 10]
  | Err _ => True
  | Panic => False
  end.
Proof.
  apply (hpack_integer_decode_bounds [31; 154; 10] 5); [lia|].
  repeat constructor; vm_compute; congruence.
Defined.
