(* ===== verification/Huffman.v ===== *)
(** * Huffman: the string coding of HPACK

    Models [src/src/hpack/huffman.rs]: the code table, the encoder with its
    left-aligned 64-bit accumulator and the decoder that searches the table for
    the code at the front of its accumulator. *)

From S2P Require Import Prelude Errors HpackInteger.

Module Huffman.

Record HuffmanSym : Type := mk { bits : Z; code : Z }.

Definition HUFFMAN_TABLE : list HuffmanSym :=
  [mk 13 0xffc00000; mk 23 0xffffb000; mk 28 0xfffffe20; mk 28 0xfffffe30;
   mk 28 0xfffffe40; mk 28 0xfffffe50; mk 28 0xfffffe60; mk 28 0xfffffe70;
   mk 28 0xfffffe80; mk 24 0xffffea00; mk 30 0xfffffff0; mk 28 0xfffffe90;
   mk 28 0xfffffea0; mk 30 0xfffffff4; mk 28 0xfffffeb0; mk 28 0xfffffec0;
   mk 28 0xfffffed0; mk 28 0xfffffee0; mk 28 0xfffffef0; mk 28 0xffffff00;
   mk 28 0xffffff10; mk 28 0xffffff20; mk 30 0xfffffff8; mk 28 0xffffff30;
   mk 28 0xffffff40; mk 28 0xffffff50; mk 28 0xffffff60; mk 28 0xffffff70;
   mk 28 0xffffff80; mk 28 0xffffff90; mk 28 0xffffffa0; mk 28 0xffffffb0;
   mk 6 0x50000000; mk 10 0xfe000000; mk 10 0xfe400000; mk 12 0xffa00000;
   mk 13 0xffc80000; mk 6 0x54000000; mk 8 0xf8000000; mk 11 0xff400000;
   mk 10 0xfe800000; mk 10 0xfec00000; mk 8 0xf9000000; mk 11 0xff600000;
   mk 8 0xfa000000; mk 6 0x58000000; mk 6 0x5c000000; mk 6 0x60000000;
   mk 5 0x00000000; mk 5 0x08000000; mk 5 0x10000000; mk 6 0x64000000;
   mk 6 0x68000000; mk 6 0x6c000000; mk 6 0x70000000; mk 6 0x74000000;
   mk 6 0x78000000; mk 6 0x7c000000; mk 7 0xb8000000; mk 8 0xfb000000;
   mk 15 0xfff80000; mk 6 0x80000000; mk 12 0xffb00000; mk 10 0xff000000;
   mk 13 0xffd00000; mk 6 0x84000000; mk 7 0xba000000; mk 7 0xbc000000;
   mk 7 0xbe000000; mk 7 0xc0000000; mk 7 0xc2000000; mk 7 0xc4000000;
   mk 7 0xc6000000; mk 7 0xc8000000; mk 7 0xca000000; mk 7 0xcc000000;
   mk 7 0xce000000; mk 7 0xd0000000; mk 7 0xd2000000; mk 7 0xd4000000;
   mk 7 0xd6000000; mk 7 0xd8000000; mk 7 0xda000000; mk 7 0xdc000000;
   mk 7 0xde000000; mk 7 0xe0000000; mk 7 0xe2000000; mk 7 0xe4000000;
   mk 8 0xfc000000; mk 7 0xe6000000; mk 8 0xfd000000; mk 13 0xffd80000;
   mk 19 0xfffe0000; mk 13 0xffe00000; mk 14 0xfff00000; mk 6 0x88000000;
   mk 15 0xfffa0000; mk 5 0x18000000; mk 6 0x8c000000; mk 5 0x20000000;
   mk 6 0x90000000; mk 5 0x28000000; mk 6 0x94000000; mk 6 0x98000000;
   mk 6 0x9c000000; mk 5 0x30000000; mk 7 0xe8000000; mk 7 0xea000000;
   mk 6 0xa0000000; mk 6 0xa4000000; mk 6 0xa8000000; mk 5 0x38000000;
   mk 6 0xac000000; mk 7 0xec000000; mk 6 0xb0000000; mk 5 0x40000000;
   mk 5 0x48000000; mk 6 0xb4000000; mk 7 0xee000000; mk 7 0xf0000000;
   mk 7 0xf2000000; mk 7 0xf4000000; mk 7 0xf6000000; mk 15 0xfffc0000;
   mk 11 0xff800000; mk 14 0xfff40000; mk 13 0xffe80000; mk 28 0xffffffc0;
   mk 20 0xfffe6000; mk 22 0xffff4800; mk 20 0xfffe7000; mk 20 0xfffe8000;
   mk 22 0xffff4c00; mk 22 0xffff5000; mk 22 0xffff5400; mk 23 0xffffb200;
   mk 22 0xffff5800; mk 23 0xffffb400; mk 23 0xffffb600; mk 23 0xffffb800;
   mk 23 0xffffba00; mk 23 0xffffbc00; mk 24 0xffffeb00; mk 23 0xffffbe00;
   mk 24 0xffffec00; mk 24 0xffffed00; mk 22 0xffff5c00; mk 23 0xffffc000;
   mk 24 0xffffee00; mk 23 0xffffc200; mk 23 0xffffc400; mk 23 0xffffc600;
   mk 23 0xffffc800; mk 21 0xfffee000; mk 22 0xffff6000; mk 23 0xffffca00;
   mk 22 0xffff6400; mk 23 0xffffcc00; mk 23 0xffffce00; mk 24 0xffffef00;
   mk 22 0xffff6800; mk 21 0xfffee800; mk 20 0xfffe9000; mk 22 0xffff6c00;
   mk 22 0xffff7000; mk 23 0xffffd000; mk 23 0xffffd200; mk 21 0xfffef000;
   mk 23 0xffffd400; mk 22 0xffff7400; mk 22 0xffff7800; mk 24 0xfffff000;
   mk 21 0xfffef800; mk 22 0xffff7c00; mk 23 0xffffd600; mk 23 0xffffd800;
   mk 21 0xffff0000; mk 21 0xffff0800; mk 22 0xffff8000; mk 21 0xffff1000;
   mk 23 0xffffda00; mk 22 0xffff8400; mk 23 0xffffdc00; mk 23 0xffffde00;
   mk 20 0xfffea000; mk 22 0xffff8800; mk 22 0xffff8c00; mk 22 0xffff9000;
   mk 23 0xffffe000; mk 22 0xffff9400; mk 22 0xffff9800; mk 23 0xffffe200;
   mk 26 0xfffff800; mk 26 0xfffff840; mk 20 0xfffeb000; mk 19 0xfffe2000;
   mk 22 0xffff9c00; mk 23 0xffffe400; mk 22 0xffffa000; mk 25 0xfffff600;
   mk 26 0xfffff880; mk 26 0xfffff8c0; mk 26 0xfffff900; mk 27 0xfffffbc0;
   mk 27 0xfffffbe0; mk 26 0xfffff940; mk 24 0xfffff100; mk 25 0xfffff680;
   mk 19 0xfffe4000; mk 21 0xffff1800; mk 26 0xfffff980; mk 27 0xfffffc00;
   mk 27 0xfffffc20; mk 26 0xfffff9c0; mk 27 0xfffffc40; mk 24 0xfffff200;
   mk 21 0xffff2000; mk 21 0xffff2800; mk 26 0xfffffa00; mk 26 0xfffffa40;
   mk 28 0xffffffd0; mk 27 0xfffffc60; mk 27 0xfffffc80; mk 27 0xfffffca0;
   mk 20 0xfffec000; mk 24 0xfffff300; mk 20 0xfffed000; mk 21 0xffff3000;
   mk 22 0xffffa400; mk 21 0xffff3800; mk 21 0xffff4000; mk 23 0xffffe600;
   mk 22 0xffffa800; mk 22 0xffffac00; mk 25 0xfffff700; mk 25 0xfffff780;
   mk 24 0xfffff400; mk 24 0xfffff500; mk 26 0xfffffa80; mk 23 0xffffe800;
   mk 26 0xfffffac0; mk 27 0xfffffcc0; mk 26 0xfffffb00; mk 26 0xfffffb40;
   mk 27 0xfffffce0; mk 27 0xfffffd00; mk 27 0xfffffd20; mk 27 0xfffffd40;
   mk 27 0xfffffd60; mk 28 0xffffffe0; mk 27 0xfffffd80; mk 27 0xfffffda0;
   mk 27 0xfffffdc0; mk 27 0xfffffde0; mk 27 0xfffffe00; mk 26 0xfffffb80;
   mk 30 0xfffffffc].

(** [HUFFMAN_TABLE[byte as usize]]. *)
Definition sym (byte : Z) : Result HuffmanSym := index HUFFMAN_TABLE byte.

Definition bits_of (byte : Z) : Result Z := let? s := sym byte in Ok (bits s).

Fixpoint sum_bits (data : list Z) (acc : Z) : Result Z :=
  match data with
  | [] => Ok acc
  | byte :: data => let? b := bits_of byte in sum_bits data (acc + b)
  end.

(** [usize::div_ceil(8)]. *)
Definition div_ceil8 (x : Z) : Z := (x + 7) / 8.

Definition encoded_len (data : list Z) : Result Z :=
  let? b := sum_bits data 0 in Ok (div_ceil8 b).

(** [while acc_bits >= 8 { .. }] of the encoder: writes the complete octets at
    the top of the accumulator.  Each round takes eight bits, so [acc_bits]
    rounds are enough. *)
Fixpoint flush (fuel : nat) (acc acc_bits offset : Z) : ST (list Z) Error.t (Z * Z * Z) :=
  match fuel with
  | O => ret (acc, acc_bits, offset)
  | S fuel =>
      if acc_bits >=? 8 then
        set_index offset (as_u8 (Z.shiftr acc 56)) ;!
        flush fuel (Z.shiftl acc 8 mod 2 ^ 64) (acc_bits - 8) (offset + 1)
      else ret (acc, acc_bits, offset)
  end.

(** [for &byte in data { .. }] of the encoder. *)
Fixpoint encode_loop (data : list Z) (acc acc_bits offset : Z)
  : ST (list Z) Error.t (Z * Z * Z) :=
  match data with
  | [] => ret (acc, acc_bits, offset)
  | byte :: data =>
      let! s := lift (sym byte) in
      let code_64 := Z.shiftl (code s) 32 in
      let acc := Z.lor acc (Z.shiftr code_64 acc_bits) in
      let acc_bits := acc_bits + bits s in
      let! (acc, acc_bits, offset) := flush (Z.to_nat acc_bits) acc acc_bits offset in
      encode_loop data acc acc_bits offset
  end.

Definition encode (data : list Z) : ST (list Z) Error.t Z :=
  let! required := lift (encoded_len data) in
  let! buf_len := gets len in
  if buf_len <? required
  then throw (Error.hpack_error
    "Huffman encode buffer too short: required {required} bytes, available {} bytes")
  else
    let! (acc, acc_bits, offset) := encode_loop data 0 0 0 in
    if acc_bits >? 0 then
      let padding_bits := 8 - acc_bits in
      let padding_mask := Z.shiftl 1 padding_bits - 1 in
      let byte := Z.lor (as_u8 (Z.shiftr acc 56)) (as_u8 padding_mask) in
      set_index offset byte ;!
      ret (offset + 1)
    else ret offset.

(** [let _ = encode(..)] drops an error, not a panic. *)
Definition encode_to_vec (data : list Z) : Result (list Z) :=
  let? n := encoded_len data in
  let buf := replicate (Z.to_nat n) 0 in
  match encode data buf with
  | (Panic, _) => Panic
  | (_, buf) => Ok buf
  end.

(** The 32 bits at the top of an accumulator of [acc_bits] bits. *)
Definition current (acc acc_bits : Z) : Z :=
  if acc_bits >=? 32 then as_u32 (Z.shiftr acc (acc_bits - 32))
  else as_u32 (Z.shiftl acc (32 - acc_bits)).

(** The test of the inner [for] loop: [!((1u32 << (32 - bits)) - 1)] is the
    mask of the [bits] high bits. *)
Definition matches (s : HuffmanSym) (acc acc_bits : Z) : bool :=
  (bits s <=? acc_bits) &&
  (let mask :=
     if bits s >=? 32 then U32_MAX else U32_MAX - (Z.shiftl 1 (32 - bits s) - 1) in
   Z.land (current acc acc_bits) mask =? code s).

(** [for (sym_idx, sym) in HUFFMAN_TABLE.iter().enumerate()]. *)
Fixpoint search (table : list HuffmanSym) (idx acc acc_bits : Z) : option (Z * HuffmanSym) :=
  match table with
  | [] => None
  | s :: table =>
      if matches s acc acc_bits then Some (idx, s) else search table (idx + 1) acc acc_bits
  end.

(** [1u64 << n], which panics when [n] is 64 or more. *)
Definition shl_1_u64 (n : Z) : Result Z := if n <? 64 then Ok (Z.shiftl 1 n) else Panic.

(** ['decode: while acc_bits >= 5 { .. }].  A symbol takes five bits at least,
    so [acc_bits] rounds are enough. *)
Fixpoint decode_while (fuel : nat) (result : list Z) (acc acc_bits : Z)
  : Result (list Z * Z * Z) :=
  match fuel with
  | O => Ok (result, acc, acc_bits)
  | S fuel =>
      if acc_bits >=? 5 then
        match search HUFFMAN_TABLE 0 acc acc_bits with
        | Some (sym_idx, s) =>
            if sym_idx =? 256
            then Err (Error.hpack_error
                        "EOS symbol in Huffman-encoded string literal is not allowed")
            else
              let result := result ++ [as_u8 sym_idx] in
              let acc_bits := acc_bits - bits s in
              let? acc :=
                if acc_bits >? 0
                then let? m := shl_1_u64 acc_bits in Ok (Z.land acc (m - 1))
                else Ok 0 in
              decode_while fuel result acc acc_bits
        | None => Ok (result, acc, acc_bits)
        end
      else Ok (result, acc, acc_bits)
  end.

(** [for &byte in data { .. }] of the decoder. *)
Fixpoint decode_loop (data : list Z) (result : list Z) (acc acc_bits : Z)
  : Result (list Z * Z * Z) :=
  match data with
  | [] => Ok (result, acc, acc_bits)
  | byte :: data =>
      let acc := Z.lor (Z.shiftl acc 8 mod 2 ^ 64) byte in
      let acc_bits := acc_bits + 8 in
      let? (result, acc, acc_bits) := decode_while (Z.to_nat acc_bits) result acc acc_bits in
      decode_loop data result acc acc_bits
  end.

Definition decode (data : list Z) : Result (list Z) :=
  let? (result, acc, acc_bits) := decode_loop data [] 0 0 in
  if (acc_bits >? 0) && (acc_bits <=? 7) then
    let? m := shl_1_u64 acc_bits in
    let mask := m - 1 in
    if Z.land acc mask =? mask then Ok result
    else Err (Error.hpack_error "invalid Huffman padding")
  else if acc_bits >? 7 then Err (Error.hpack_error "incomplete Huffman data")
  else Ok result.

End Huffman.

(** ** Specification: strings of bits *)

(** The value of a string of bits, most significant first, and the [n] low bits
    of a value. *)
Fixpoint bval (l : list bool) : Z :=
  match l with
  | [] => 0
  | b :: l => Z.b2z b * 2 ^ len l + bval l
  end.
Fixpoint to_bits (n : nat) (v : Z) : list bool :=
  match n with
  | O => []
  | S n => Z.testbit v (Z.of_nat n) :: to_bits n v
  end.

Fixpoint bprefix (p l : list bool) : bool :=
  match p, l with
  | [], _ => true
  | a :: p, b :: l => Bool.eqb a b && bprefix p l
  | _, [] => false
  end.

(** The bits of a symbol, of a string of symbols, and of a string of octets. *)
Definition code_bits (s : Huffman.HuffmanSym) : list bool :=
  to_bits (Z.to_nat (Huffman.bits s)) (Z.shiftr (Huffman.code s) (32 - Huffman.bits s)).
Definition sym_bits (i : Z) : list bool :=
  match Huffman.HUFFMAN_TABLE !! Z.to_nat i with Some s => code_bits s | None => [] end.
Definition enc_bits (data : list Z) : list bool := concat (map sym_bits data).
Definition byte_bits (b : Z) : list bool := to_bits 8 b.
Definition data_bits (data : list Z) : list bool := concat (map byte_bits data).

Definition ones (k : nat) : list bool := replicate k true.

(** No code of the table starts a string. *)
Definition no_code (R : list bool) : Prop :=
  forall s, s ∈ Huffman.HUFFMAN_TABLE -> bprefix (code_bits s) R = false.

(** ** Lemmas: strings of bits *)

Lemma bval_range l : 0 <= bval l < 2 ^ len l.
Proof.
  induction l as [|b l IH]; cbn [bval]; [done|]. rewrite len_cons.
  pose proof (len_nonneg l). rewrite Z.pow_add_r by lia. destruct b; cbn [Z.b2z]; lia.
Qed.

Lemma bval_app x y : bval (x ++ y) = bval x * 2 ^ len y + bval y.
Proof.
  induction x as [|b x IH]; [done|]. cbn [bval app]. rewrite IH, len_app.
  pose proof (len_nonneg x). pose proof (len_nonneg y). rewrite Z.pow_add_r by lia. lia.
Qed.

Lemma len_to_bits n v : len (to_bits n v) = Z.of_nat n.
Proof. induction n as [|n IH]; [done|]. cbn [to_bits]. rewrite len_cons, IH. lia. Qed.

Lemma bval_to_bits n v : bval (to_bits n v) = v mod 2 ^ Z.of_nat n.
Proof.
  induction n as [|n IH]; [by rewrite Z.mod_1_r|]. cbn [to_bits bval].
  rewrite len_to_bits, IH, Z.testbit_spec' by lia.
  rewrite Nat2Z.inj_succ, <- Z.add_1_r, Z.pow_add_r by lia. change (2 ^ 1) with 2.
  rewrite (Z.rem_mul_r v (2 ^ Z.of_nat n) 2) by lia. lia.
Qed.

Lemma bval_inj x y : len x = len y -> bval x = bval y -> x = y.
Proof.
  revert y. induction x as [|a x IH]; intros [|b y]; rewrite ?len_cons; cbn [bval].
  - done.
  - pose proof (len_nonneg y). change (len []) with 0. lia.
  - pose proof (len_nonneg x). change (len []) with 0. lia.
  - intros Hl Hv. assert (len x = len y) as Hl' by lia. rewrite Hl' in Hv.
    pose proof (bval_range x) as Hx. pose proof (bval_range y) as Hy. rewrite Hl' in Hx.
    assert (a = b) as ->. { destruct a, b; cbn [Z.b2z] in Hv; (done || lia). }
    f_equal. apply IH; [done|lia].
Qed.

Lemma bprefix_spec p l : bprefix p l = true <-> exists r, l = p ++ r.
Proof.
  revert l. induction p as [|a p IH]; intros l; cbn; [split; eauto|].
  destruct l as [|b l]; [split; [done|by intros [r ?]]|].
  rewrite andb_true_iff, eqb_true_iff, IH.
  split; [intros [-> [r ->]]; by exists r|intros [r [= -> ->]]; eauto].
Qed.

Lemma bprefix_app p r : bprefix p (p ++ r) = true.
Proof. apply bprefix_spec. by exists r. Qed.

(** Two prefixes of one string are comparable. *)
Lemma prefix_comparable (x y r s : list bool) :
  x ++ r = y ++ s -> bprefix x y = true \/ bprefix y x = true.
Proof.
  revert y. induction x as [|a x IH]; intros [|b y]; cbn; auto.
  intros [= -> H]. rewrite Bool.eqb_reflx. cbn. by apply IH.
Qed.

Lemma bval_ones k : bval (ones k) = 2 ^ Z.of_nat k - 1.
Proof.
  induction k as [|k IH]; [done|]. unfold ones in *. cbn [replicate bval].
  rewrite IH, len_replicate, Nat2Z.inj_succ, <- Z.add_1_r, Z.pow_add_r by lia. cbn [Z.b2z]. lia.
Qed.

Lemma len_ones k : len (ones k) = Z.of_nat k.
Proof. apply len_replicate. Qed.

Lemma ones_of_bval R : bval R = 2 ^ len R - 1 -> R = ones (length R).
Proof.
  intros H. apply bval_inj; [by rewrite len_ones|]. rewrite bval_ones. exact H.
Qed.

(** ** Lemmas: the table *)

Definition sym_ok (s : Huffman.HuffmanSym) : bool :=
  (5 <=? Huffman.bits s) && (Huffman.bits s <=? 30) &&
  (Huffman.code s =? Z.shiftr (Huffman.code s) (32 - Huffman.bits s) * 2 ^ (32 - Huffman.bits s)) &&
  (0 <=? Huffman.code s) && (Huffman.code s <? 2 ^ 32).

Fixpoint prefix_free (cs : list (list bool)) : bool :=
  match cs with
  | [] => true
  | c :: cs => forallb (fun d => negb (bprefix c d) && negb (bprefix d c)) cs && prefix_free cs
  end.

(** Every string of [n] bits has one of [cs] in front: the empty string is in
    [cs], or the two halves of [cs] cover the strings of [n - 1] bits. *)
Definition tails (b : bool) (cs : list (list bool)) : list (list bool) :=
  omap (fun c => match c with x :: c => if Bool.eqb x b then Some c else None | [] => None end) cs.
Fixpoint covers (n : nat) (cs : list (list bool)) : bool :=
  if existsb (fun c => match c with [] => true | _ => false end) cs then true
  else match n with
       | O => false
       | S n => covers n (tails true cs) && covers n (tails false cs)
       end.

Lemma table_sym_ok : forallb sym_ok Huffman.HUFFMAN_TABLE = true.
Proof. by vm_compute. Qed.
Lemma table_prefix_free : prefix_free (map code_bits Huffman.HUFFMAN_TABLE) = true.
Proof. by vm_compute. Qed.
Lemma table_covers : covers 30 (map code_bits Huffman.HUFFMAN_TABLE) = true.
Proof. by vm_compute. Qed.
(** No code is a string of seven ones or fewer. *)
Lemma table_no_short_ones :
  forallb (fun s => negb (bprefix (code_bits s) (ones 7))) Huffman.HUFFMAN_TABLE = true.
Proof. by vm_compute. Qed.

Lemma sym_in_table s :
  s ∈ Huffman.HUFFMAN_TABLE ->
  5 <= Huffman.bits s <= 30 /\ 0 <= Huffman.code s < 2 ^ 32 /\
  Huffman.code s = Z.shiftr (Huffman.code s) (32 - Huffman.bits s) * 2 ^ (32 - Huffman.bits s).
Proof.
  intros Hs. apply list_elem_of_In in Hs.
  pose proof (proj1 (forallb_forall _ _) table_sym_ok s Hs) as H. unfold sym_ok in H. zbool. lia.
Qed.

Lemma len_code_bits s : s ∈ Huffman.HUFFMAN_TABLE -> len (code_bits s) = Huffman.bits s.
Proof. intros Hs%sym_in_table. unfold code_bits. rewrite len_to_bits. lia. Qed.

Lemma bval_code_bits s :
  s ∈ Huffman.HUFFMAN_TABLE -> bval (code_bits s) * 2 ^ (32 - Huffman.bits s) = Huffman.code s.
Proof.
  intros Hs. pose proof (sym_in_table s Hs) as (Hb & Hc & Heq). unfold code_bits.
  rewrite bval_to_bits, Z2Nat.id by lia. rewrite Z.mod_small; [lia|].
  rewrite Z.shiftr_div_pow2 by lia. split; [apply Z.div_pos; lia|].
  apply Z.div_lt_upper_bound; [lia|]. rewrite <- Z.pow_add_r by lia.
  replace (32 - Huffman.bits s + Huffman.bits s) with 32 by lia. lia.
Qed.

Lemma prefix_free_spec cs i j c d :
  prefix_free cs = true -> cs !! i = Some c -> cs !! j = Some d -> bprefix c d = true -> i = j.
Proof.
  revert i j. induction cs as [|x cs IH]; intros i j; [done|]. cbn [prefix_free].
  rewrite andb_true_iff, forallb_forall. intros [Hx Hcs] Hi Hj Hp.
  destruct i as [|i], j as [|j]; cbn in Hi, Hj; simplify_eq; [done| | |].
  - apply list_elem_of_lookup_2, list_elem_of_In, Hx in Hj. zbool. congruence.
  - apply list_elem_of_lookup_2, list_elem_of_In, Hx in Hi. zbool. congruence.
  - f_equal. by eapply IH.
Qed.

(** Two symbols whose codes start one string are the same. *)
Lemma codes_unique i j s t R :
  Huffman.HUFFMAN_TABLE !! i = Some s -> Huffman.HUFFMAN_TABLE !! j = Some t ->
  bprefix (code_bits s) R = true -> bprefix (code_bits t) R = true -> i = j.
Proof.
  intros Hi Hj [r Hr]%bprefix_spec [q Hq]%bprefix_spec. subst R.
  assert (map code_bits Huffman.HUFFMAN_TABLE !! i = Some (code_bits s)) as Hi'
    by (by rewrite list_lookup_fmap, Hi).
  assert (map code_bits Huffman.HUFFMAN_TABLE !! j = Some (code_bits t)) as Hj'
    by (by rewrite list_lookup_fmap, Hj).
  destruct (prefix_comparable _ _ _ _ Hq) as [H|H].
  - by apply (prefix_free_spec _ _ _ _ _ table_prefix_free Hi' Hj').
  - symmetry. by apply (prefix_free_spec _ _ _ _ _ table_prefix_free Hj' Hi').
Qed.

Lemma covers_spec n cs R :
  covers n cs = true -> (n <= length R)%nat -> exists c, c ∈ cs /\ bprefix c R = true.
Proof.
  revert cs R. induction n as [|n IH]; intros cs R; cbn [covers];
    (destruct (existsb _ cs) eqn:E;
     [apply existsb_exists in E as ([|? ?] & Hin & ?); [|done]; intros _ _; exists [];
      split; [by apply list_elem_of_In|done]|]); [done|].
  rewrite andb_true_iff. intros [Ht Hf] Hl. destruct R as [|b R]; [cbn in Hl; lia|].
  assert (covers n (tails b cs) = true) as Hb by (by destruct b).
  destruct (IH (tails b cs) R Hb) as (c & Hc & Hp); [cbn in Hl; lia|].
  unfold tails in Hc. apply list_elem_of_omap in Hc as ([|x c'] & Hin & Hx); [done|].
  destruct (Bool.eqb x b) eqn:Ex; [|done]. apply eqb_prop in Ex as ->. injection Hx as ->.
  exists (b :: c). split; [done|]. cbn. by rewrite Bool.eqb_reflx.
Qed.

(** A string no code starts is shorter than the longest code. *)
Lemma no_code_short R : no_code R -> len R < 30.
Proof.
  intros H. destruct (Z.lt_ge_cases (len R) 30) as [|Hge]; [done|].
  destruct (covers_spec 30 _ R table_covers) as (c & Hc & Hp); [unfold len in Hge; lia|].
  apply list_elem_of_fmap in Hc as (s & -> & Hs). rewrite (H s Hs) in Hp. done.
Qed.

Lemma no_code_ones k : (k <= 7)%nat -> no_code (ones k).
Proof.
  intros Hk s Hs. apply list_elem_of_In in Hs.
  pose proof (proj1 (forallb_forall _ _) table_no_short_ones s Hs) as H.
  cbn beta in H. zbool.
  destruct (bprefix (code_bits s) (ones k)) eqn:E; [|done].
  apply bprefix_spec in E as [r Hr].
  assert (bprefix (code_bits s) (ones 7) = true); [|congruence].
  apply bprefix_spec. exists (r ++ ones (7 - k)). rewrite app_assoc, <- Hr. unfold ones.
  rewrite <- replicate_add. f_equal. lia.
Qed.

(** A string shorter than the shortest code. *)
Lemma no_code_lt5 R : len R < 5 -> no_code R.
Proof.
  intros Hl s Hs. destruct (bprefix (code_bits s) R) eqn:E; [|done].
  apply bprefix_spec in E as [r ->]. rewrite len_app, len_code_bits in Hl by done.
  pose proof (sym_in_table s Hs). pose proof (len_nonneg r). lia.
Qed.

(** ** Lemmas: the decoder *)

Lemma div_pow2_split x a b : 0 <= a -> 0 <= b -> x / 2 ^ (a + b) = x / 2 ^ a / 2 ^ b.
Proof. intros. by rewrite Z.pow_add_r, Z.div_div by lia. Qed.

(** The top [k] bits of the 32 examined are the first [k] bits of the string. *)
Lemma current_top R k :
  0 <= k <= len R -> k <= 32 ->
  Huffman.current (bval R) (len R) / 2 ^ (32 - k) = bval (take (Z.to_nat k) R).
Proof.
  intros Hk Hk32. pose proof (bval_range R) as HR.
  assert (bval R = bval (take (Z.to_nat k) R) * 2 ^ (len R - k) + bval (drop (Z.to_nat k) R))
    as Hsplit.
  { rewrite <- (take_drop (Z.to_nat k) R) at 1. rewrite bval_app, len_drop. do 3 f_equal. lia. }
  pose proof (bval_range (drop (Z.to_nat k) R)) as Hd. rewrite len_drop in Hd.
  replace (Z.max 0 (len R - Z.of_nat (Z.to_nat k))) with (len R - k) in Hd by lia.
  assert (bval R / 2 ^ (len R - k) = bval (take (Z.to_nat k) R)) as Hq.
  { rewrite Hsplit, Z.div_add_l by lia. rewrite Z.div_small by lia. lia. }
  unfold Huffman.current. destruct (len R >=? 32) eqn:E; zbool.
  - rewrite Z.shiftr_div_pow2 by lia. rewrite as_u32_small.
    + rewrite <- div_pow2_split by lia. rewrite <- Hq. do 2 f_equal. lia.
    + split; [apply Z.div_pos; lia|]. apply Z.div_lt_upper_bound; [lia|].
      rewrite <- Z.pow_add_r by lia. replace (len R - 32 + 32) with (len R) by lia. lia.
  - rewrite Z.shiftl_mul_pow2 by lia. rewrite as_u32_small.
    + replace (32 - k) with ((32 - len R) + (len R - k)) by lia.
      rewrite div_pow2_split, Z.div_mul by lia. done.
    + split; [nia|]. replace 32 with (len R + (32 - len R)) at 2 by lia.
      rewrite Z.pow_add_r by lia. nia.
Qed.

(** Clearing the low bits with the mask. *)
Lemma land_high_mask x k :
  0 <= k <= 32 -> 0 <= x < 2 ^ 32 ->
  Z.land x (U32_MAX - (Z.shiftl 1 k - 1)) = x / 2 ^ k * 2 ^ k.
Proof.
  intros Hk Hx. rewrite shiftl_1_pow by lia.
  assert (U32_MAX - (2 ^ k - 1) = Z.shiftl (Z.ones (32 - k)) k) as ->.
  { rewrite Z.shiftl_mul_pow2, Z.ones_equiv by lia. unfold U32_MAX.
    replace 32 with ((32 - k) + k) at 1 by lia. rewrite Z.pow_add_r by lia. lia. }
  rewrite <- Z.shiftl_mul_pow2, <- Z.shiftr_div_pow2 by lia.
  apply Z.bits_inj'. intros i Hi. rewrite Z.land_spec.
  destruct (Z.lt_ge_cases i k) as [Hik|Hik].
  - rewrite !Z.shiftl_spec_low by lia. by rewrite andb_false_r.
  - rewrite !Z.shiftl_spec, Z.shiftr_spec by lia. replace (i - k + k) with i by lia.
    destruct (Z.lt_ge_cases i 32) as [H32|H32].
    + rewrite Z.ones_spec_low by lia. by rewrite andb_true_r.
    + rewrite Z.ones_spec_high by lia. rewrite andb_false_r. symmetry.
      replace x with (x mod 2 ^ 32) by (by apply Z.mod_small).
      by rewrite Z.mod_pow2_bits_high by lia.
Qed.

Lemma current_u32 R : 0 <= Huffman.current (bval R) (len R) < 2 ^ 32.
Proof. unfold Huffman.current. case_match; apply Z.mod_pos_bound; lia. Qed.

Lemma matches_spec s R :
  s ∈ Huffman.HUFFMAN_TABLE -> Huffman.matches s (bval R) (len R) = bprefix (code_bits s) R.
Proof.
  intros Hs. pose proof (sym_in_table s Hs) as (Hb & _ & _). apply eq_true_iff_eq.
  unfold Huffman.matches. replace (Huffman.bits s >=? 32) with false by lia.
  rewrite andb_true_iff, Z.leb_le, Z.eqb_eq.
  rewrite land_high_mask by (lia || apply current_u32). rewrite bprefix_spec.
  rewrite <- (bval_code_bits s Hs). split.
  - intros [Hle Heq]. rewrite current_top in Heq by lia.
    apply Z.mul_cancel_r in Heq; [|lia]. exists (drop (Z.to_nat (Huffman.bits s)) R).
    rewrite <- (take_drop (Z.to_nat (Huffman.bits s)) R) at 1. f_equal.
    apply bval_inj; [|done]. rewrite len_take, len_code_bits by done. lia.
  - intros [r ->]. pose proof (len_nonneg r).
    assert (Huffman.bits s <= len (code_bits s ++ r)) by (rewrite len_app, len_code_bits; lia || done).
    split; [done|]. rewrite current_top by lia. do 2 f_equal.
    rewrite <- (len_code_bits s Hs), <- length_len. apply take_app_length.
Qed.

Lemma search_spec table idx R :
  (forall s, s ∈ table -> s ∈ Huffman.HUFFMAN_TABLE) ->
  match Huffman.search table idx (bval R) (len R) with
  | Some (k, s) => exists i, k = idx + Z.of_nat i /\ table !! i = Some s /\
      bprefix (code_bits s) R = true
  | None => forall s, s ∈ table -> bprefix (code_bits s) R = false
  end.
Proof.
  revert idx. induction table as [|t table IH]; intros idx Ht; cbn [Huffman.search].
  - intros s Hs. by apply elem_of_nil in Hs.
  - rewrite matches_spec by (apply Ht; by left).
    destruct (bprefix (code_bits t) R) eqn:E.
    + exists 0%nat. split; [lia|done].
    + specialize (IH (idx + 1) ltac:(intros; apply Ht; by right)).
      destruct (Huffman.search _ _ _ _) as [[k s]|].
      * destruct IH as (i & -> & Hi & Hp). exists (S i). split; [lia|done].
      * intros s [->|Hs]%elem_of_cons; auto.
Qed.

Lemma enc_bits_app x y : enc_bits (x ++ y) = enc_bits x ++ enc_bits y.
Proof. unfold enc_bits. by rewrite map_app, concat_app. Qed.
Lemma data_bits_app x y : data_bits (x ++ y) = data_bits x ++ data_bits y.
Proof. unfold data_bits. by rewrite map_app, concat_app. Qed.

(** What the decoder can report on a string of bits: symbols and a rest no
    code starts, or an end-of-string code. *)
Definition decodes (result : list Z) (R : list bool) (r : Result (list Z * Z * Z)) : Prop :=
  match r with
  | Ok (result', acc, acc_bits) => exists new R',
      result' = result ++ new /\ bytes_ok new /\ R = enc_bits new ++ R' /\
      acc = bval R' /\ acc_bits = len R' /\ no_code R'
  | Err _ => exists new X, bytes_ok new /\ R = enc_bits new ++ sym_bits 256 ++ X
  | Panic => False
  end.

Lemma decodes_done result R : no_code R -> decodes result R (Ok (result, bval R, len R)).
Proof. intros H. exists [], R. rewrite app_nil_r. split_and!; try done. constructor. Qed.

Lemma decode_while_spec fuel result R :
  (length R <= fuel)%nat -> len R < 64 ->
  decodes result R (Huffman.decode_while fuel result (bval R) (len R)).
Proof.
  revert result R. induction fuel as [|fuel IH]; intros result R Hf Hl.
  { destruct R; [|cbn in Hf; lia]. apply decodes_done, no_code_lt5. by vm_compute. }
  cbn [Huffman.decode_while]. destruct (len R >=? 5) eqn:E; zbool;
    [|by apply decodes_done, no_code_lt5; lia].
  pose proof (search_spec Huffman.HUFFMAN_TABLE 0 R (fun s H => H)) as Hs.
  destruct (Huffman.search _ _ _ _) as [[k s]|]; [|by apply decodes_done].
  destruct Hs as (i & -> & Hi & [R' HR]%bprefix_spec). rewrite Z.add_0_l.
  assert (s ∈ Huffman.HUFFMAN_TABLE) as Hin by (by eapply list_elem_of_lookup_2).
  assert (sym_bits (Z.of_nat i) = code_bits s) as Hsym by (unfold sym_bits; by rewrite Nat2Z.id, Hi).
  assert (i < 257)%nat as Hi257 by (apply lookup_lt_Some in Hi; exact Hi).
  destruct (Z.of_nat i =? 256) eqn:Ei; zbool.
  { exists [], R'. split; [constructor|]. cbn. by rewrite <- Ei, Hsym. }
  pose proof (sym_in_table s Hin) as (Hb & _). pose proof (len_code_bits s Hin) as Hlen.
  assert (len R - Huffman.bits s = len R') as -> by (rewrite HR, len_app; lia).
  assert ((if len R' >? 0 then let? m := Huffman.shl_1_u64 (len R') in Ok (Z.land (bval R) (m - 1))
           else Ok 0) = @Ok Error.t Z (bval R')) as ->.
  { pose proof (len_nonneg R'). pose proof (bval_range R'). destruct (len R' >? 0) eqn:E0; zbool.
    - unfold Huffman.shl_1_u64. replace (len R' <? 64) with true by (rewrite HR, len_app in Hl; lia).
      cbn [rbind]. f_equal. rewrite shiftl_1_pow by lia.
      replace (2 ^ len R' - 1) with (Z.ones (len R')) by (rewrite Z.ones_equiv; lia).
      rewrite Z.land_ones by lia. rewrite HR, bval_app, Z.add_comm, Z.mod_add by lia.
      by apply Z.mod_small.
    - by rewrite (len_zero_nil R') by lia. }
  cbn [rbind]. rewrite as_u8_small by (unfold u8_ok; lia).
  assert (decodes (result ++ [Z.of_nat i]) R'
            (Huffman.decode_while fuel (result ++ [Z.of_nat i]) (bval R') (len R'))) as Hrec.
  { apply IH; rewrite HR in *; [rewrite length_app in Hf; unfold len in Hlen; lia|].
    rewrite len_app in Hl. lia. }
  assert (u8_ok (Z.of_nat i)) as Hu by (unfold u8_ok; lia).
  unfold decodes in *. destruct (Huffman.decode_while _ _ _ _) as [[[res acc] n]|e|]; [| |done].
  - destruct Hrec as (new & R2 & -> & Hnew & HR2 & -> & -> & Hno).
    exists (Z.of_nat i :: new), R2. rewrite <- app_assoc. split_and!; try done.
    + by constructor.
    + rewrite HR, HR2. unfold enc_bits. cbn [map concat]. by rewrite Hsym, app_assoc.
  - destruct Hrec as (new & X & Hnew & HR2). exists (Z.of_nat i :: new), X.
    split; [by constructor|]. rewrite HR, HR2. unfold enc_bits. cbn [map concat].
    by rewrite Hsym, app_assoc.
Qed.

Lemma byte_bits_spec b : u8_ok b -> bval (byte_bits b) = b /\ len (byte_bits b) = 8.
Proof.
  intros Hb. unfold byte_bits. rewrite bval_to_bits, len_to_bits. split; [|done].
  by apply Z.mod_small.
Qed.

Lemma decode_loop_bits data result R :
  bytes_ok data -> no_code R ->
  decodes result (R ++ data_bits data) (Huffman.decode_loop data result (bval R) (len R)).
Proof.
  intros Hd. revert result R. induction Hd as [|b data Hb Hd IH]; intros result R HR.
  { cbn. rewrite app_nil_r. by apply decodes_done. }
  cbn [Huffman.decode_loop]. destruct (byte_bits_spec b Hb) as [Hbv Hbl].
  pose proof (no_code_short R HR) as Hshort. pose proof (bval_range R) as Hrange.
  pose proof (len_nonneg R).
  assert (2 ^ len R <= 2 ^ 29) by (apply Z.pow_le_mono_r; lia).
  assert (Z.lor (Z.shiftl (bval R) 8 mod 2 ^ 64) b = bval (R ++ byte_bits b)) as ->.
  { rewrite Z.mod_small by (rewrite Z.shiftl_mul_pow2; lia).
    rewrite lor_shiftl_add by (done || lia). rewrite bval_app, Hbv, Hbl. done. }
  assert (len R + 8 = len (R ++ byte_bits b)) as -> by (rewrite len_app, Hbl; done).
  pose proof (decode_while_spec (Z.to_nat (len (R ++ byte_bits b))) result (R ++ byte_bits b)) as Hw.
  rewrite <- length_len in Hw. rewrite <- length_len.
  specialize (Hw (le_n _) ltac:(rewrite len_app, Hbl; lia)).
  unfold data_bits. cbn [map concat]. fold (data_bits data). rewrite app_assoc.
  destruct (Huffman.decode_while _ _ _ _) as [[[res acc] n]|e|]; cbn [rbind]; [| |done].
  - destruct Hw as (new & R' & -> & Hnew & HR' & -> & -> & Hno).
    specialize (IH (result ++ new) R' Hno). unfold decodes in *.
    destruct (Huffman.decode_loop _ _ _ _) as [[[res acc] n]|e|]; [| |done].
    + destruct IH as (new2 & R2 & -> & Hnew2 & HR2 & -> & -> & Hno2).
      exists (new ++ new2), R2. rewrite enc_bits_app, HR', <- !app_assoc, HR2.
      split_and!; try done. by apply Forall_app.
    + destruct IH as (new2 & X & Hnew2 & HX). exists (new ++ new2), X.
      rewrite enc_bits_app, HR', <- !app_assoc, HX. split; [by apply Forall_app|done].
  - destruct Hw as (new & X & Hnew & HX). exists new, (X ++ data_bits data).
    split; [done|]. rewrite HX. by rewrite <- !app_assoc.
Qed.

(** ** Lemmas: unique decoding *)

Lemma sym_bits_in x :
  0 <= x <= 256 ->
  exists s, Huffman.HUFFMAN_TABLE !! Z.to_nat x = Some s /\ sym_bits x = code_bits s.
Proof.
  intros Hx. unfold sym_bits.
  destruct (lookup_lt_is_Some_2 Huffman.HUFFMAN_TABLE (Z.to_nat x)) as [s Hs].
  - change (length Huffman.HUFFMAN_TABLE) with 257%nat. lia.
  - rewrite Hs. eauto.
Qed.

Lemma sym_bits_inj x y r q :
  0 <= x <= 256 -> 0 <= y <= 256 -> sym_bits x ++ r = sym_bits y ++ q -> x = y.
Proof.
  intros Hx Hy Heq. destruct (sym_bits_in x Hx) as (s & Hs & Es).
  destruct (sym_bits_in y Hy) as (t & Ht & Et). rewrite Es, Et in Heq.
  assert (Z.to_nat x = Z.to_nat y); [|lia].
  eapply (codes_unique _ _ s t (code_bits s ++ r)); eauto using bprefix_app.
  rewrite Heq. apply bprefix_app.
Qed.

Lemma no_code_sym R x q : no_code R -> 0 <= x <= 256 -> R <> sym_bits x ++ q.
Proof.
  intros HR Hx ->. destruct (sym_bits_in x Hx) as (s & Hs & Es).
  specialize (HR s (list_elem_of_lookup_2 _ _ _ Hs)). by rewrite Es, bprefix_app in HR.
Qed.

(** Symbols at the front of an encoded string are its own. *)
Lemma enc_bits_front s1 s2 R Y :
  bytes_ok s1 -> bytes_ok s2 -> no_code R -> enc_bits s1 ++ R = enc_bits s2 ++ Y ->
  exists t, s1 = s2 ++ t /\ Y = enc_bits t ++ R.
Proof.
  intros H1 H2 HR. revert s1 H1. induction H2 as [|y s2 Hy H2 IH]; intros s1 H1 Heq.
  - by exists s1.
  - unfold u8_ok in Hy. unfold enc_bits in *. cbn [map concat] in Heq.
    rewrite <- app_assoc in Heq. destruct H1 as [|x s1 Hx H1]; cbn [map concat app] in Heq.
    + by apply no_code_sym in Heq; [|done|lia].
    + rewrite <- app_assoc in Heq. unfold u8_ok in Hx.
      assert (x = y) as -> by (eapply sym_bits_inj; [..|exact Heq]; lia).
      apply app_inv_head in Heq. destruct (IH s1 H1 Heq) as (t & -> & ->). by exists t.
Qed.

Lemma enc_bits_not_eos s1 s2 R X :
  bytes_ok s1 -> bytes_ok s2 -> no_code R -> enc_bits s1 ++ R <> enc_bits s2 ++ sym_bits 256 ++ X.
Proof.
  intros H1 H2 HR Heq. destruct (enc_bits_front s1 s2 R _ H1 H2 HR Heq) as (t & -> & Ht).
  apply Forall_app in H1 as [_ Ht1]. destruct Ht1 as [|x t Hx Ht1].
  - symmetry in Ht. by apply no_code_sym in Ht; [|done|lia].
  - unfold enc_bits in Ht. cbn [map concat] in Ht. rewrite <- app_assoc in Ht.
    unfold u8_ok in Hx. apply sym_bits_inj in Ht; lia.
Qed.

(** [decode] accepts exactly the encodings: codes followed by at most seven
    ones. *)
Lemma huffman_decode_spec data :
  bytes_ok data ->
  match Huffman.decode data with
  | Ok r => bytes_ok r /\ exists k, (k <= 7)%nat /\ data_bits data = enc_bits r ++ ones k
  | Err _ => forall r k, bytes_ok r -> (k <= 7)%nat -> data_bits data <> enc_bits r ++ ones k
  | Panic => False
  end.
Proof.
  intros Hd. unfold Huffman.decode.
  pose proof (decode_loop_bits data [] [] Hd ltac:(apply no_code_lt5; by vm_compute)) as H.
  change (bval []) with 0 in H. change (len (@nil bool)) with 0 in H. rewrite app_nil_l in H.
  destruct (Huffman.decode_loop data [] 0 0) as [[[res acc] n]|e|]; cbn [rbind]; [| |done].
  - destruct H as (new & R & -> & Hnew & HR & -> & -> & Hno). rewrite app_nil_l.
    pose proof (len_nonneg R) as Hlen. pose proof (bval_range R) as Hval.
    assert (forall r k, bytes_ok r -> (k <= 7)%nat -> data_bits data = enc_bits r ++ ones k ->
              R = ones k) as Huniq.
    { intros r k Hr Hk Heq. rewrite HR in Heq.
      destruct (enc_bits_front new r R (ones k) Hnew Hr Hno Heq) as (t & -> & Ht).
      apply Forall_app in Hnew as [_ Ht1]. destruct Ht1 as [|x t Hx Ht1]; [by rewrite Ht|].
      unfold enc_bits in Ht. cbn [map concat] in Ht. rewrite <- app_assoc in Ht.
      unfold u8_ok in Hx. apply no_code_sym in Ht; [done|by apply no_code_ones|lia]. }
    destruct ((len R >? 0) && (len R <=? 7)) eqn:E1; zbool.
    + unfold Huffman.shl_1_u64. replace (len R <? 64) with true by lia. cbn [rbind].
      rewrite shiftl_1_pow by lia.
      replace (2 ^ len R - 1) with (Z.ones (len R)) by (rewrite Z.ones_equiv; lia).
      rewrite Z.land_ones, Z.mod_small by lia. rewrite Z.ones_equiv.
      destruct (bval R =? Z.pred (2 ^ len R)) eqn:E2; zbool.
      * split; [done|]. exists (length R). split; [unfold len in *; lia|].
        rewrite HR. f_equal. apply ones_of_bval. lia.
      * intros r k Hr Hk Heq. rewrite (Huniq r k Hr Hk Heq), bval_ones, len_ones in E2. lia.
    + destruct (len R >? 7) eqn:E2; zbool.
      * intros r k Hr Hk Heq. rewrite (Huniq r k Hr Hk Heq), len_ones in E2. lia.
      * split; [done|]. exists 0%nat. split; [lia|]. rewrite HR. f_equal.
        apply len_zero_nil. destruct E1 as [E1|E1]; zbool; lia.
  - destruct H as (new & X & Hnew & HX). intros r k Hr Hk Heq. rewrite HX in Heq.
    symmetry in Heq. revert Heq. apply enc_bits_not_eos; [done..|by apply no_code_ones].
Qed.

(** ** Lemmas: the encoder *)

Lemma sym_lookup b : u8_ok b -> exists s, Huffman.sym b = Ok s /\
  s ∈ Huffman.HUFFMAN_TABLE /\ sym_bits b = code_bits s.
Proof.
  intros Hb. unfold u8_ok in Hb. destruct (sym_bits_in b ltac:(lia)) as (s & Hs & Eb).
  exists s. unfold Huffman.sym, index. replace (0 <=? b) with true by lia. rewrite Hs.
  split_and!; [done|by eapply list_elem_of_lookup_2|done].
Qed.

Lemma encoded_len_bits data :
  bytes_ok data -> Huffman.encoded_len data = Ok ((len (enc_bits data) + 7) / 8).
Proof.
  intros Hd. unfold Huffman.encoded_len.
  assert (forall a, Huffman.sum_bits data a = Ok (a + len (enc_bits data))) as H.
  { induction Hd as [|b data Hb Hd IH]; intros a; cbn [Huffman.sum_bits].
    - change (len (enc_bits [])) with 0. by rewrite Z.add_0_r.
    - unfold Huffman.bits_of. destruct (sym_lookup b Hb) as (s & -> & Hs & Eb). cbn [rbind].
      rewrite IH. unfold enc_bits. cbn [map concat]. rewrite Eb, len_app, len_code_bits by done.
      by rewrite Z.add_assoc. }
  rewrite H. done.
Qed.

(** The accumulator of the encoder: [R] at the top of 64 bits. *)
Definition top64 (R : list bool) : Z := bval R * 2 ^ (64 - len R).

Lemma top64_split B R :
  len B = 8 -> len B + len R <= 64 ->
  as_u8 (Z.shiftr (top64 (B ++ R)) 56) = bval B /\
  Z.shiftl (top64 (B ++ R)) 8 mod 2 ^ 64 = top64 R.
Proof.
  intros HB Hl. pose proof (bval_range B) as Hb. pose proof (bval_range R) as Hr.
  pose proof (len_nonneg R). rewrite HB in Hb.
  assert (top64 (B ++ R) = bval B * 2 ^ 56 + bval R * 2 ^ (56 - len R)) as ->.
  { unfold top64. rewrite bval_app, len_app, HB, Z.mul_add_distr_r, <- Z.mul_assoc.
    rewrite <- Z.pow_add_r by lia. f_equal; do 2 f_equal; lia. }
  assert (2 ^ 56 = 2 ^ len R * 2 ^ (56 - len R)) as H56 by (rewrite <- Z.pow_add_r by lia; f_equal; lia).
  assert (0 < 2 ^ (56 - len R)) by (apply Z.pow_pos_nonneg; lia).
  assert (0 <= bval R * 2 ^ (56 - len R) < 2 ^ 56) by (split; [nia|rewrite H56; nia]).
  split.
  - rewrite Z.shiftr_div_pow2, Z.div_add_l, (Z.div_small (bval R * _)) by lia.
    rewrite Z.add_0_r. by apply as_u8_small.
  - rewrite Z.shiftl_mul_pow2 by lia. unfold top64.
    replace (64 - len R) with ((56 - len R) + 8) by lia. rewrite Z.pow_add_r by lia.
    replace ((bval B * 2 ^ 56 + bval R * 2 ^ (56 - len R)) * 2 ^ 8)
      with (bval R * (2 ^ (56 - len R) * 2 ^ 8) + bval B * 2 ^ 64) by lia.
    rewrite Z.mod_add by lia. apply Z.mod_small. lia.
Qed.

Lemma byte_bits_bval B : len B = 8 -> byte_bits (bval B) = B.
Proof.
  intros HB. pose proof (bval_range B) as Hb. rewrite HB in Hb. apply bval_inj.
  - unfold byte_bits. by rewrite len_to_bits, HB.
  - by apply byte_bits_spec.
Qed.

Lemma flush_spec fuel R p junk :
  (length R <= fuel)%nat -> len R <= 64 -> len R / 8 <= len junk ->
  exists out R', Huffman.flush fuel (top64 R) (len R) (len p) (p ++ junk) =
      (Ok (top64 R', len R', len p + len out), p ++ out ++ drop (length out) junk) /\
    R = data_bits out ++ R' /\ len R' < 8 /\ bytes_ok out.
Proof.
  revert R p junk. induction fuel as [|fuel IH]; intros R p junk Hf Hl Hj; cbn [Huffman.flush].
  { destruct R; [|cbn in Hf; lia]. exists [], []. cbn. rewrite Z.add_0_r, drop_0.
    split_and!; try done. constructor. }
  destruct (len R >=? 8) eqn:E; zbool.
  - assert (exists B R1, R = B ++ R1 /\ len B = 8) as (B & R1 & -> & HB).
    { exists (take 8 R), (drop 8 R). rewrite take_drop, len_take. split; [done|lia]. }
    rewrite len_app, HB in *. destruct (top64_split B R1) as [Hbyte Hrest]; [done|lia|].
    rewrite Hbyte, Hrest. pose proof (len_nonneg R1).
    destruct junk as [|x junk].
    { change (len []) with 0 in Hj. assert (1 <= (8 + len R1) / 8); [|lia].
      apply Z.div_le_lower_bound; lia. }
    unfold bind. rewrite set_index_app. rewrite len_cons in Hj.
    change (p ++ bval B :: junk) with (p ++ [bval B] ++ junk). rewrite app_assoc.
    replace (8 + len R1 - 8) with (len R1) by lia.
    replace (len p + 1) with (len (p ++ [bval B])) by (rewrite len_app; reflexivity).
    destruct (IH R1 (p ++ [bval B]) junk) as (out & R' & Heq & HR & HR' & Hout).
    + rewrite length_app in Hf. unfold len in HB. lia.
    + lia.
    + replace (8 + len R1) with (len R1 + 1 * 8) in Hj by lia. rewrite Z.div_add in Hj by lia. lia.
    + exists (bval B :: out), R'. rewrite Heq. split_and!; [|..|done|].
      * rewrite <- !app_assoc. cbn. do 3 f_equal. autorewrite with len. lia.
      * unfold data_bits. cbn [map concat]. rewrite byte_bits_bval, <- app_assoc by done.
        f_equal. exact HR.
      * constructor; [|done]. pose proof (bval_range B) as Hv. by rewrite HB in Hv.
  - exists [], R. cbn. rewrite Z.add_0_r, drop_0. split_and!; try done. constructor.
Qed.

Lemma top64_add R s :
  len R + len (code_bits s) <= 64 -> s ∈ Huffman.HUFFMAN_TABLE ->
  Z.lor (top64 R) (Z.shiftr (Z.shiftl (Huffman.code s) 32) (len R)) = top64 (R ++ code_bits s).
Proof.
  intros Hl Hs. pose proof (sym_in_table s Hs) as (Hb & _). rewrite len_code_bits in Hl by done.
  rewrite <- (bval_code_bits s Hs). pose proof (len_nonneg R).
  pose proof (bval_range (code_bits s)) as Hc. rewrite len_code_bits in Hc by done.
  assert (Z.shiftr (Z.shiftl (bval (code_bits s) * 2 ^ (32 - Huffman.bits s)) 32) (len R)
          = bval (code_bits s) * 2 ^ (64 - len R - Huffman.bits s)) as ->.
  { rewrite Z.shiftr_div_pow2, Z.shiftl_mul_pow2, <- Z.mul_assoc, <- Z.pow_add_r by lia.
    replace (32 - Huffman.bits s + 32) with ((64 - len R - Huffman.bits s) + len R) by lia.
    rewrite Z.pow_add_r, Z.mul_assoc, Z.div_mul by lia. done. }
  unfold top64. rewrite <- Z.shiftl_mul_pow2 by lia. rewrite lor_shiftl_add; [|lia|].
  - rewrite bval_app, len_app, len_code_bits by done. rewrite Z.mul_add_distr_r, <- Z.mul_assoc.
    rewrite <- Z.pow_add_r by lia. f_equal; do 2 f_equal; lia.
  - assert (2 ^ (64 - len R) = 2 ^ Huffman.bits s * 2 ^ (64 - len R - Huffman.bits s)) as ->
      by (rewrite <- Z.pow_add_r by lia; f_equal; lia).
    assert (0 < 2 ^ (64 - len R - Huffman.bits s)) by (apply Z.pow_pos_nonneg; lia). nia.
Qed.

(** The loop over the octets: what it has written and kept of the codes. *)
Lemma encode_loop_bits data R p junk :
  bytes_ok data -> len R < 8 -> (len R + len (enc_bits data)) / 8 <= len junk ->
  exists out R', Huffman.encode_loop data (top64 R) (len R) (len p) (p ++ junk) =
      (Ok (top64 R', len R', len p + len out), p ++ out ++ drop (length out) junk) /\
    R ++ enc_bits data = data_bits out ++ R' /\ len R' < 8 /\ bytes_ok out.
Proof.
  intros Hd. revert R p junk. induction Hd as [|b data Hb Hd IH]; intros R p junk HR Hj;
    cbn [Huffman.encode_loop].
  { exists [], R. cbn. rewrite Z.add_0_r, drop_0, app_nil_r. split_and!; try done. constructor. }
  destruct (sym_lookup b Hb) as (s & -> & Hs & Eb). unfold lift, bind at 1.
  pose proof (len_code_bits s Hs) as Hcl. pose proof (sym_in_table s Hs) as (Hbits & _).
  rewrite top64_add by (done || lia). rewrite <- Hcl, <- len_app.
  assert (enc_bits (b :: data) = code_bits s ++ enc_bits data) as Henc
    by (unfold enc_bits; cbn [map concat]; by rewrite Eb).
  rewrite Henc, len_app, Z.add_assoc, <- len_app in Hj.
  set (R0 := R ++ code_bits s) in *. pose proof (len_nonneg (enc_bits data)). pose proof (len_nonneg R).
  assert (len R0 <= 64) by (subst R0; rewrite len_app; lia).
  destruct (flush_spec (Z.to_nat (len R0)) R0 p junk) as (out1 & R1 & Heq & HR1 & HR1' & Hout1).
  { rewrite length_len. lia. }
  { done. }
  { etransitivity; [|exact Hj]. apply Z.div_le_mono; lia. }
  unfold bind. rewrite Heq. rewrite app_assoc.
  assert (len R0 = 8 * len out1 + len R1) as HlR0.
  { rewrite HR1, len_app. f_equal. clear -Hout1. induction Hout1 as [|x o Hx Ho IH]; [done|].
    unfold data_bits in *. cbn [map concat]. rewrite len_app, IH, len_cons.
    destruct (byte_bits_spec x Hx) as [_ ->]. lia. }
  pose proof (len_nonneg out1). pose proof (len_nonneg R1). pose proof (len_nonneg junk).
  assert ((8 * len out1 + len R1 + len (enc_bits data)) / 8
          = len out1 + (len R1 + len (enc_bits data)) / 8) as Hdiv.
  { rewrite <- Z.add_assoc, (Z.mul_comm 8), Z.div_add_l by lia. done. }
  pose proof (Z.div_pos (len R1 + len (enc_bits data)) 8 ltac:(lia) ltac:(lia)).
  rewrite HlR0, Hdiv in Hj. rewrite <- len_app.
  destruct (IH R1 (p ++ out1) (drop (length out1) junk)) as (out2 & R2 & Heq2 & HR2 & HR2' & Hout2).
  { done. }
  { rewrite len_drop. fold (len out1). lia. }
  exists (out1 ++ out2), R2. rewrite Heq2. split_and!; [|..|done|by apply Forall_app].
  - rewrite !len_app, length_app, drop_drop, <- !app_assoc. do 3 f_equal. lia.
  - rewrite Henc, app_assoc. fold R0. rewrite HR1, data_bits_app, <- !app_assoc. f_equal. done.
Qed.

Lemma padding_byte R :
  0 < len R < 8 ->
  Z.lor (as_u8 (Z.shiftr (top64 R) 56)) (as_u8 (Z.shiftl 1 (8 - len R) - 1))
  = bval (R ++ ones (8 - length R)).
Proof.
  intros HR. pose proof (bval_range R) as Hv. unfold top64.
  assert (Z.of_nat (8 - length R) = 8 - len R) as H8 by (unfold len in *; lia).
  assert (0 < 2 ^ (8 - len R)) by (apply Z.pow_pos_nonneg; lia).
  assert (2 ^ 8 = 2 ^ len R * 2 ^ (8 - len R)) as H28 by (rewrite <- Z.pow_add_r by lia; f_equal; lia).
  rewrite Z.shiftr_div_pow2 by lia. replace (64 - len R) with ((8 - len R) + 56) by lia.
  rewrite Z.pow_add_r, Z.mul_assoc, Z.div_mul by lia. rewrite shiftl_1_pow by lia.
  assert (2 ^ (8 - len R) <= 2 ^ 8) by (apply Z.pow_le_mono_r; lia).
  rewrite !as_u8_small by (unfold u8_ok; nia).
  rewrite <- Z.shiftl_mul_pow2, lor_shiftl_add by lia.
  rewrite bval_app, len_ones, bval_ones, H8. done.
Qed.

Lemma len_data_bits data : bytes_ok data -> len (data_bits data) = 8 * len data.
Proof.
  induction 1 as [|x o Hx Ho IH]; [done|]. unfold data_bits in *. cbn [map concat].
  rewrite len_app, IH, len_cons. destruct (byte_bits_spec x Hx) as [_ ->]. lia.
Qed.

Lemma encode_to_vec_spec data :
  bytes_ok data -> exists out k, Huffman.encode_to_vec data = Ok out /\ bytes_ok out /\
    (k <= 7)%nat /\ data_bits out = enc_bits data ++ ones k.
Proof.
  intros Hd. unfold Huffman.encode_to_vec. rewrite encoded_len_bits by done. cbn [rbind].
  set (n := (len (enc_bits data) + 7) / 8). pose proof (len_nonneg (enc_bits data)) as H0.
  assert (len (enc_bits data) <= 8 * n < len (enc_bits data) + 8) as Hn
    by (subst n; Z.div_mod_to_equations; lia).
  set (junk := replicate (Z.to_nat n) 0).
  assert (len junk = n) as Hjunk by (subst junk; rewrite len_replicate; lia).
  unfold Huffman.encode, bind, lift, gets. rewrite encoded_len_bits by done. fold n.
  rewrite Hjunk, Z.ltb_irrefl.
  destruct (encode_loop_bits data [] [] junk Hd) as (out & R & Heq & HR & HR' & Hout).
  { by vm_compute. }
  { change (len (@nil bool)) with 0. rewrite Hjunk. apply Z.div_le_upper_bound; lia. }
  change (top64 []) with 0 in Heq. change (len (@nil bool)) with 0 in Heq.
  change (len (@nil Z)) with 0 in Heq. cbn [app] in Heq, HR. rewrite Heq, Z.add_0_l.
  assert (len (enc_bits data) = 8 * len out + len R) as Hlen
    by (rewrite HR, len_app, len_data_bits by done; done).
  pose proof (len_nonneg R). pose proof (len_nonneg out).
  assert (len (drop (length out) junk) = n - len out) as Hrest
    by (rewrite len_drop; fold (len out); lia).
  destruct (len R >? 0) eqn:E; zbool.
  - destruct (drop (length out) junk) as [|x rest] eqn:Ed; [change (len []) with 0 in Hrest; lia|].
    rewrite set_index_app, padding_byte by lia. rewrite len_cons in Hrest.
    pose proof (len_nonneg rest). rewrite (len_zero_nil rest) by lia.
    set (B := R ++ ones (8 - length R)).
    assert (len B = 8) as HB by (subst B; rewrite len_app, len_ones; unfold len in *; lia).
    exists (out ++ [bval B]), (8 - length R)%nat. split_and!; [done|..].
    + apply Forall_app. split; [done|]. constructor; [|constructor].
      pose proof (bval_range B) as Hb. by rewrite HB in Hb.
    + unfold len in *. lia.
    + rewrite data_bits_app, HR. unfold data_bits at 2. cbn [map concat].
      rewrite byte_bits_bval, app_nil_r, <- app_assoc by done. done.
  - exists out, 0%nat. cbn [fst snd]. unfold ret.
    rewrite (len_zero_nil (drop (length out) junk)), app_nil_r by lia.
    split_and!; [done|done|lia|]. rewrite HR, (len_zero_nil R) by lia.
    by rewrite !app_nil_r.
Qed.

Lemma data_bits_inj x y : bytes_ok x -> bytes_ok y -> data_bits x = data_bits y -> x = y.
Proof.
  intros Hx. revert y. induction Hx as [|a x Ha Hx IH]; intros y Hy Heq.
  - destruct Hy as [|b y Hb Hy]; [done|]. apply (f_equal len) in Heq.
    rewrite !len_data_bits, len_cons in Heq by (by constructor).
    pose proof (len_nonneg y). change (len []) with 0 in Heq. lia.
  - destruct Hy as [|b y Hb Hy].
    + apply (f_equal len) in Heq. rewrite !len_data_bits, len_cons in Heq by (by constructor).
      pose proof (len_nonneg x). change (len []) with 0 in Heq. lia.
    + unfold data_bits in Heq. cbn [map concat] in Heq.
      destruct (byte_bits_spec a Ha) as [Hav Hal], (byte_bits_spec b Hb) as [Hbv Hbl].
      apply app_inj_1 in Heq as [Hab Heq]; [|unfold len in *; lia].
      f_equal; [congruence|]. by apply IH.
Qed.

(** Encoding then decoding gives the string back. *)
Lemma huffman_decode_encode data :
  bytes_ok data -> exists out, Huffman.encode_to_vec data = Ok out /\ bytes_ok out /\
    Huffman.decode out = Ok data.
Proof.
  intros Hd. destruct (encode_to_vec_spec data Hd) as (out & k & He & Hout & Hk & Hbits).
  exists out. split_and!; [done..|]. pose proof (huffman_decode_spec out Hout) as H.
  destruct (Huffman.decode out) as [r|e|]; [| |done].
  - destruct H as [Hr (k' & Hk' & Hbits')]. f_equal. rewrite Hbits in Hbits'.
    destruct (enc_bits_front data r (ones k) (ones k')) as (t & -> & Ht);
      [done|done|by apply no_code_ones|done|].
    apply Forall_app in Hd as [_ Ht1]. destruct Ht1 as [|x t Hx Ht1]; [by rewrite app_nil_r|].
    unfold enc_bits in Ht. cbn [map concat] in Ht. rewrite <- app_assoc in Ht. unfold u8_ok in Hx.
    apply no_code_sym in Ht; [done|by apply no_code_ones|lia].
  - by destruct (H data k Hd Hk).
Qed.

(** ** Properties *)

(** C37: Huffman coding is a bijection onto its image: every string is encoded
    (no panic, no error) and decoded to itself; and whatever octets [decode]
    accepts are the encoding of what it returns, so an overlong or wrongly
    padded string is always rejected, and never with a panic. *)
Theorem huffman_roundtrip data :
  bytes_ok data ->
  (exists out, Huffman.encode_to_vec data = Ok out /\ bytes_ok out /\
     Huffman.decode out = Ok data) /\
  match Huffman.decode data with
  | Ok s => Huffman.encode_to_vec s = Ok data
  | Err _ => forall s, bytes_ok s -> Huffman.encode_to_vec s <> Ok data
  | Panic => False
  end.
Proof.
  intros Hd. split; [by apply huffman_decode_encode|].
  pose proof (huffman_decode_spec data Hd) as H. destruct (Huffman.decode data) as [s|e|] eqn:Edec; [| |done].
  - destruct H as [Hs (k & Hk & Hbits)].
    destruct (encode_to_vec_spec s Hs) as (out & k' & -> & Hout & Hk' & Hbits'). f_equal.
    apply data_bits_inj; [done..|]. rewrite Hbits, Hbits'. do 2 f_equal.
    apply (f_equal len) in Hbits, Hbits'. rewrite len_data_bits, len_app, len_ones in * by done. lia.
  - intros s Hs Heq. destruct (encode_to_vec_spec s Hs) as (out & k & He & Hout & Hk & Hbits).
    rewrite He in Heq. injection Heq as ->. by apply (H s k).
Qed.

Lemma huffman_roundtrip_witness :
  (exists out, Huffman.encode_to_vec (bstr "www.example.com") = Ok out /\ bytes_ok out /\
     Huffman.decode out = Ok (bstr "www.example.com")) /\
  match Huffman.decode (bstr "www.example.com") with
  | Ok s => Huffman.encode_to_vec s = Ok (bstr "www.example.com")
  | Err _ => forall s, bytes_ok s -> Huffman.encode_to_vec s <> Ok (bstr "www.example.com")
  | Panic => False
  end.
Proof.
  apply (huffman_roundtrip (bstr "www.example.com")).
  unfold bytes_ok. repeat constructor; vm_compute; congruence.
Defined.

(** The example of RFC 7541, appendix C.4.1. *)
Example huffman_rfc_example :
  Huffman.encode_to_vec (bstr "www.example.com")
  = Ok [0xf1; 0xe3; 0xc2; 0xe5; 0xf2; 0x3a; 0x6b; 0xa0; 0xab; 0x90; 0xf4; 0xff].
Proof. vm_compute. reflexivity. Qed.
