(* ===== verification/Syntax.v ===== *)
(** * Syntax: the octets a header field may hold

    Models [src/src/syntax.rs] and the error type of [src/src/hpack/error.rs].
    The source has each check twice: as a function that returns an error, and
    as a [const fn] that panics (at compile time) on the same input. *)

From S2P Require Import Prelude Errors.

Module HeaderFieldError.

Inductive t : Type :=
| EmptyFieldName
| UppercaseFieldName (name : list Z)
| InvalidFieldNameByte (name : list Z) (byte : Z)
| InvalidFieldValueByte (name : list Z) (byte : Z)
| FieldValueLeadingOrTrailingWhitespace (name : list Z)
| UnknownPseudoHeader (name : list Z)
| InvalidPseudoHeaderValue (name value : list Z).

End HeaderFieldError.

Module Syntax.

(** ** Classes of octets *)

Definition in_range (lo hi b : Z) : bool := (lo <=? b) && (b <=? hi).
Definition is_ascii_uppercase (b : Z) : bool := in_range 65 90 b.
Definition is_ascii_lowercase (b : Z) : bool := in_range 97 122 b.
Definition is_ascii_digit (b : Z) : bool := in_range 48 57 b.
Definition is_ascii_alphabetic (b : Z) : bool := is_ascii_uppercase b || is_ascii_lowercase b.
Definition is_ascii_alphanumeric (b : Z) : bool := is_ascii_alphabetic b || is_ascii_digit b.
Definition COLON : Z := 58.

(** ['!' '#' '$' '%' '&' ''' '*' '+' '-' '.' '^' '_' '`' '|' '~']. *)
Definition is_token_punct (b : Z) : bool :=
  existsb (Z.eqb b) [33; 35; 36; 37; 38; 39; 42; 43; 45; 46; 94; 95; 96; 124; 126].

Definition is_token_char_lower (b : Z) : bool :=
  is_token_punct b || is_ascii_digit b || is_ascii_lowercase b.
Definition is_token_char_case_insensitive (b : Z) : bool :=
  is_token_punct b || is_ascii_digit b || is_ascii_lowercase b || is_ascii_uppercase b.

Definition is_valid_token_case_insensitive (value : list Z) : bool :=
  negb (len value =? 0) && forallb is_token_char_case_insensitive value.

Definition is_scheme_char (b : Z) : bool :=
  is_ascii_alphanumeric b || (b =? 43) || (b =? 45) || (b =? 46).
Definition is_valid_scheme (value : list Z) : bool :=
  match value with
  | [] => false
  | first :: rest => if negb (is_ascii_alphabetic first) then false else forallb is_scheme_char rest
  end.

Definition is_sp_htab (b : Z) : bool := (b =? 0x20) || (b =? 0x09).
Definition opt_is_ws (o : option Z) : bool :=
  match o with Some b => is_sp_htab b | None => false end.
Definition is_nul_cr_lf (b : Z) : bool := (b =? 0x00) || (b =? 0x0d) || (b =? 0x0a).

(** ** The checks that return an error *)

(** [for (i, &b) in name.iter().enumerate()]. *)
Fixpoint validate_name_loop (name : list Z) (i : Z) (rest : list Z)
  : result HeaderFieldError.t unit :=
  match rest with
  | [] => Ok tt
  | b :: rest =>
      if is_ascii_uppercase b then Err (HeaderFieldError.UppercaseFieldName name)
      else if b =? COLON then
        if negb (i =? 0) then Err (HeaderFieldError.InvalidFieldNameByte name b)
        else validate_name_loop name (i + 1) rest
      else if negb (is_token_char_lower b)
      then Err (HeaderFieldError.InvalidFieldNameByte name b)
      else validate_name_loop name (i + 1) rest
  end.

Definition validate_field_name (name : list Z) : result HeaderFieldError.t unit :=
  if len name =? 0 then Err HeaderFieldError.EmptyFieldName
  else validate_name_loop name 0 name.

Fixpoint validate_value_loop (name rest : list Z) : result HeaderFieldError.t unit :=
  match rest with
  | [] => Ok tt
  | b :: rest =>
      if is_nul_cr_lf b then Err (HeaderFieldError.InvalidFieldValueByte name b)
      else validate_value_loop name rest
  end.

Definition validate_field_value (name value : list Z) : result HeaderFieldError.t unit :=
  if opt_is_ws (head value)
  then Err (HeaderFieldError.FieldValueLeadingOrTrailingWhitespace name)
  else if opt_is_ws (last value)
  then Err (HeaderFieldError.FieldValueLeadingOrTrailingWhitespace name)
  else validate_value_loop name value.

Definition validate_pseudo_header (name value : list Z) : result HeaderFieldError.t unit :=
  let invalid := Err (HeaderFieldError.InvalidPseudoHeaderValue name value) in
  if (len name =? 0) || negb (match head name with Some b => b =? COLON | None => false end)
  then Ok tt
  else if bytes_eqb name (bstr ":method") then
    if negb (is_valid_token_case_insensitive value) then invalid else Ok tt
  else if bytes_eqb name (bstr ":scheme") then
    if negb (is_valid_scheme value) then invalid else Ok tt
  else if bytes_eqb name (bstr ":path") then
    if negb (len value =? 0) && negb (bytes_eqb value (bstr "*"))
       && negb (starts_with value (bstr "/"))
    then invalid else Ok tt
  else if bytes_eqb name (bstr ":status") then
    if negb (len value =? 3) || negb (forallb is_ascii_digit value) then invalid else Ok tt
  else if bytes_eqb name (bstr ":protocol") then
    if negb (is_valid_token_case_insensitive value) then invalid else Ok tt
  else if bytes_eqb name (bstr ":authority") then Ok tt
  else Err (HeaderFieldError.UnknownPseudoHeader name).

(** ** The checks that panic *)

(** [while i < l.len() { if bad(l[i]) { panic!(..) } i += 1; }]. *)
Fixpoint panic_unless_all {E} (ok : Z -> bool) (l : list Z) : result E unit :=
  match l with
  | [] => Ok tt
  | b :: l => if negb (ok b) then Panic else panic_unless_all ok l
  end.

Fixpoint check_name_loop {E} (i : Z) (rest : list Z) : result E unit :=
  match rest with
  | [] => Ok tt
  | b :: rest =>
      if is_ascii_uppercase b then Panic
      else if b =? COLON then
        if negb (i =? 0) then Panic else check_name_loop (i + 1) rest
      else if negb (is_token_char_lower b) then Panic
      else check_name_loop (i + 1) rest
  end.

Definition check_field_name_const {E} (name : list Z) : result E unit :=
  if len name =? 0 then Panic else check_name_loop 0 name.

Definition check_field_value_const {E} (value : list Z) : result E unit :=
  let? _ :=
    if len value >? 0 then
      let? first := index value 0 in
      if is_sp_htab first then Panic
      else
        let? l := index value (len value - 1) in
        if is_sp_htab l then Panic else Ok tt
    else Ok tt in
  panic_unless_all (fun b => negb (is_nul_cr_lf b)) value.

Definition check_token_nonempty_const {E} (value : list Z) : result E unit :=
  if len value =? 0 then Panic else panic_unless_all is_token_char_case_insensitive value.

Definition check_scheme_const {E} (value : list Z) : result E unit :=
  match value with
  | [] => Panic
  | first :: rest =>
      if negb (is_ascii_alphabetic first) then Panic else panic_unless_all is_scheme_char rest
  end.

Definition check_path_const {E} (value : list Z) : result E unit :=
  match value with
  | [] => Ok tt
  | first :: rest =>
      if (len value =? 1) && (first =? 42) then Ok tt
      else if negb (first =? 47) then Panic
      else Ok tt
  end.

(** [bytes_eq]: the lengths first, then octet by octet. *)
Definition bytes_eq (a b : list Z) : bool :=
  if negb (len a =? len b) then false else bytes_eqb a b.

Definition check_pseudo_header_const {E} (name value : list Z) : result E unit :=
  if (len name =? 0) || negb (match head name with Some b => b =? COLON | None => false end)
  then Ok tt
  else if bytes_eq name (bstr ":method") then check_token_nonempty_const value
  else if bytes_eq name (bstr ":scheme") then check_scheme_const value
  else if bytes_eq name (bstr ":authority") then Ok tt
  else if bytes_eq name (bstr ":path") then check_path_const value
  else if bytes_eq name (bstr ":protocol") then check_token_nonempty_const value
  else if bytes_eq name (bstr ":status") then
    if negb (len value =? 3) then Panic else panic_unless_all is_ascii_digit value
  else Panic.

(** ** Specification *)

(** A field name: a token without upper-case letters, after an optional colon. *)
Definition name_ok (name : list Z) : bool :=
  match name with
  | [] => false
  | c :: rest => ((c =? COLON) || is_token_char_lower c) && forallb is_token_char_lower rest
  end.

(** A field value: no NUL, CR or LF, no SP or HTAB at either end. *)
Definition value_ok (value : list Z) : bool :=
  negb (opt_is_ws (head value)) &&
  negb (opt_is_ws (last value)) &&
  forallb (fun b => negb (is_nul_cr_lf b)) value.

Definition is_pseudo (name : list Z) : bool := starts_with name (bstr ":").

Definition pseudo_value_ok (name value : list Z) : bool :=
  if bytes_eqb name (bstr ":method") || bytes_eqb name (bstr ":protocol")
  then is_valid_token_case_insensitive value
  else if bytes_eqb name (bstr ":scheme") then is_valid_scheme value
  else if bytes_eqb name (bstr ":path")
  then (len value =? 0) || bytes_eqb value (bstr "*") || starts_with value (bstr "/")
  else if bytes_eqb name (bstr ":status") then (len value =? 3) && forallb is_ascii_digit value
  else bytes_eqb name (bstr ":authority").

(** A header field as the library lets an application build it. *)
Definition field_ok (name value : list Z) : bool :=
  name_ok name && value_ok value && (negb (is_pseudo name) || pseudo_value_ok name value).

(** [std::str::from_utf8(v).is_ok()]: the well-formed octet sequences of the
    Unicode standard. *)
Definition utf8_tail (b : Z) : bool := in_range 0x80 0xBF b.
Fixpoint utf8_valid (l : list Z) : bool :=
  match l with
  | [] => true
  | b0 :: l1 =>
      if b0 <? 0x80 then utf8_valid l1
      else match l1 with
      | [] => false
      | b1 :: l2 =>
          if in_range 0xC2 0xDF b0 then utf8_tail b1 && utf8_valid l2
          else match l2 with
          | [] => false
          | b2 :: l3 =>
              if in_range 0xE0 0xEF b0 then
                in_range (if b0 =? 0xE0 then 0xA0 else 0x80)
                                (if b0 =? 0xED then 0x9F else 0xBF) b1
                && utf8_tail b2 && utf8_valid l3
              else match l3 with
              | [] => false
              | b3 :: l4 =>
                  in_range 0xF0 0xF4 b0 &&
                  in_range (if b0 =? 0xF0 then 0x90 else 0x80)
                                  (if b0 =? 0xF4 then 0x8F else 0xBF) b1
                  && utf8_tail b2 && utf8_tail b3 && utf8_valid l4
              end
          end
      end
  end.

End Syntax.

(** ** Lemmas *)
Import Syntax.

Lemma bytes_eq_eqb a b : bytes_eq a b = bytes_eqb a b.
Proof.
  unfold bytes_eq. destruct (len a =? len b) eqn:E; [done|]. cbn. zbool. symmetry.
  apply bytes_eqb_neq. intros ->. done.
Qed.

Lemma panic_unless_all_spec {E} ok l :
  @panic_unless_all E ok l = if forallb ok l then Ok tt else Panic.
Proof. induction l as [|b l IH]; [done|]. cbn. destruct (ok b); [apply IH|done]. Qed.

Lemma upper_not_lower b : is_token_char_lower b = true -> is_ascii_uppercase b = false.
Proof.
  unfold is_token_char_lower, is_token_punct, is_ascii_uppercase, is_ascii_digit,
    is_ascii_lowercase, in_range. cbn. lia.
Qed.

Lemma colon_not_lower : is_token_char_lower COLON = false.
Proof. reflexivity. Qed.

Lemma validate_name_tail name rest i :
  0 < i -> is_ok (validate_name_loop name i rest) = forallb is_token_char_lower rest.
Proof.
  revert i. induction rest as [|b rest IH]; intros i Hi; [done|]. cbn.
  destruct (is_token_char_lower b) eqn:E; cbn.
  - rewrite (upper_not_lower b E). destruct (Z.eqb_spec b COLON) as [->|]; [done|].
    apply IH. lia.
  - destruct (is_ascii_uppercase b); [done|]. destruct (b =? COLON); [|done].
    by replace (i =? 0) with false by lia.
Qed.

Lemma validate_field_name_spec name : is_ok (validate_field_name name) = name_ok name.
Proof.
  unfold validate_field_name. destruct name as [|c rest]; [done|].
  rewrite len_cons. pose proof (len_nonneg rest). replace (_ =? 0) with false by lia.
  cbn [name_ok validate_name_loop]. destruct (Z.eqb_spec c COLON) as [->|Hc].
  - change (is_ascii_uppercase COLON) with false. cbn. by apply validate_name_tail.
  - cbn. destruct (is_token_char_lower c) eqn:E; cbn.
    + rewrite (upper_not_lower c E). by apply validate_name_tail.
    + by destruct (is_ascii_uppercase c).
Qed.

Lemma validate_value_loop_spec name l :
  is_ok (validate_value_loop name l) = forallb (fun b => negb (is_nul_cr_lf b)) l.
Proof. induction l as [|b l IH]; [done|]. cbn. destruct (is_nul_cr_lf b); [done|apply IH]. Qed.

Lemma validate_field_value_spec name value :
  is_ok (validate_field_value name value) = value_ok value.
Proof.
  unfold validate_field_value, value_ok. destruct (opt_is_ws (head value)); [done|].
  destruct (opt_is_ws (last value)); [done|]. apply validate_value_loop_spec.
Qed.

Lemma head_is_pseudo name :
  (len name =? 0) || negb (match head name with Some b => b =? COLON | None => false end)
  = negb (is_pseudo name).
Proof.
  destruct name as [|b name]; [done|]. rewrite len_cons. pose proof (len_nonneg name).
  replace (_ =? 0) with false by lia. unfold is_pseudo. cbn. by rewrite andb_true_r.
Qed.

Lemma validate_pseudo_header_spec name value :
  is_ok (validate_pseudo_header name value) = negb (is_pseudo name) || pseudo_value_ok name value.
Proof.
  unfold validate_pseudo_header. rewrite head_is_pseudo.
  destruct (is_pseudo name); cbn [negb orb]; [|done]. unfold pseudo_value_ok.
  repeat (match goal with |- context [ bytes_eqb name ?l ] =>
            destruct (bytes_eqb name l) eqn:?; cbn [orb] end);
    try (by rewrite bytes_eqb_eq in *; subst);
    repeat match goal with |- context [ negb ?b ] => destruct b; cbn [negb orb andb] end; try done.
Qed.

Lemma check_name_loop_spec {E} name i rest :
  @check_name_loop E i rest = if is_ok (validate_name_loop name i rest) then Ok tt else Panic.
Proof.
  revert i. induction rest as [|b rest IH]; intros i; [done|]. cbn.
  destruct (is_ascii_uppercase b); [done|]. destruct (b =? COLON).
  - destruct (i =? 0); cbn; [apply IH|done].
  - destruct (is_token_char_lower b); cbn; [apply IH|done].
Qed.

Lemma check_field_name_spec {E} name :
  @check_field_name_const E name = if name_ok name then Ok tt else Panic.
Proof.
  rewrite <- validate_field_name_spec. unfold check_field_name_const, validate_field_name.
  destruct (len name =? 0); [done|]. apply check_name_loop_spec.
Qed.

Lemma check_field_value_spec {E} value :
  @check_field_value_const E value = if value_ok value then Ok tt else Panic.
Proof.
  unfold check_field_value_const, value_ok. rewrite panic_unless_all_spec.
  destruct value as [|b value] using rev_ind; [done|].
  rewrite last_snoc. destruct value as [|a value].
  - cbn [app]. change (len [b]) with 1. change (@index E Z [b] 0) with (@Ok E Z b).
    change (@index E Z [b] (1 - 1)) with (@Ok E Z b). cbn [rbind].
    change (1 >? 0) with true. cbn. by destruct (is_sp_htab b), (is_nul_cr_lf b).
  - change ((a :: value) ++ [b]) with (a :: (value ++ [b])).
    rewrite len_cons, len_app. pose proof (len_nonneg value).
    change (len [b]) with 1. replace (_ >? 0) with true by lia. rewrite index_cons_0. cbn [rbind].
    change (head (a :: value ++ [b])) with (Some a). cbn [opt_is_ws].
    destruct (is_sp_htab a); [done|].
    replace (1 + (len value + 1) - 1) with (len (a :: value)) by (rewrite len_cons; lia).
    assert (@index E Z (a :: value ++ [b]) (len (a :: value)) = Ok b) as ->.
    { unfold index. replace (0 <=? _) with true by (rewrite len_cons; lia).
      rewrite <- length_len. change (a :: value ++ [b]) with ((a :: value) ++ [b]).
      by rewrite lookup_app_r, Nat.sub_diag by lia. }
    cbn [rbind]. by destruct (is_sp_htab b).
Qed.

Lemma check_scheme_spec {E} value :
  @check_scheme_const E value = if is_valid_scheme value then Ok tt else Panic.
Proof.
  destruct value as [|a value]; [done|]. cbn. rewrite panic_unless_all_spec.
  by destruct (is_ascii_alphabetic a).
Qed.

Lemma check_token_spec {E} value :
  @check_token_nonempty_const E value
  = if is_valid_token_case_insensitive value then Ok tt else Panic.
Proof.
  unfold check_token_nonempty_const, is_valid_token_case_insensitive.
  rewrite panic_unless_all_spec. by destruct (len value =? 0).
Qed.

Lemma check_path_spec {E} value :
  @check_path_const E value =
  if (len value =? 0) || bytes_eqb value (bstr "*") || starts_with value (bstr "/")
  then Ok tt else Panic.
Proof.
  change (bstr "*") with [42]. change (bstr "/") with [47].
  destruct value as [|a [|c value]]; [done|..]; cbn [check_path_const].
  - change (len [a]) with 1. cbn. rewrite !andb_true_r. destruct (a =? 42); cbn; [done|]. by destruct (a =? 47).
  - rewrite !len_cons. pose proof (len_nonneg value).
    replace (1 + (1 + _) =? 1) with false by lia. replace (1 + (1 + _) =? 0) with false by lia.
    cbn. rewrite andb_false_r, andb_true_r. cbn. by destruct (a =? 47).
Qed.

Lemma check_pseudo_header_spec {E} name value :
  @check_pseudo_header_const E name value =
  if negb (is_pseudo name) || pseudo_value_ok name value then Ok tt else Panic.
Proof.
  unfold check_pseudo_header_const. rewrite head_is_pseudo, !bytes_eq_eqb.
  destruct (is_pseudo name); cbn [negb orb]; [|done]. unfold pseudo_value_ok.
  rewrite !check_token_spec, check_scheme_spec, check_path_spec, panic_unless_all_spec.
  repeat (match goal with |- context [ bytes_eqb name ?l ] =>
            destruct (bytes_eqb name l) eqn:?; cbn [orb] end);
    try done; try (by rewrite bytes_eqb_eq in *; subst); by destruct (len value =? 3).
Qed.

Lemma validate_name_loop_no_panic name i rest : validate_name_loop name i rest <> Panic.
Proof.
  revert i. induction rest as [|b rest IH]; intros i; [done|]. cbn.
  destruct (is_ascii_uppercase b); [done|]. destruct (b =? COLON).
  - destruct (negb (i =? 0)); [done|apply IH].
  - destruct (negb (is_token_char_lower b)); [done|apply IH].
Qed.

Lemma validate_no_panic name value :
  validate_field_name name <> Panic /\ validate_field_value name value <> Panic /\
  validate_pseudo_header name value <> Panic.
Proof.
  split_and!.
  - unfold validate_field_name. case_match; [done|]. apply validate_name_loop_no_panic.
  - unfold validate_field_value. do 2 (case_match; [done|]).
    induction value as [|b l IH]; [done|]. cbn. case_match; [done|].
    clear -l. induction l as [|c l IH]; [done|]. cbn. by case_match.
  - unfold validate_pseudo_header. by repeat case_match.
Qed.
