(* ===== verification/HpackTable.v ===== *)
(** * HpackTable: header fields and the two tables of HPACK

    Models [src/src/hpack/table.rs] (header fields and the static table) and
    [src/src/hpack/dynamic_table.rs]. *)

From S2P Require Import Prelude Errors Config Syntax.

(** ** Header fields *)
Module HeaderField.

Record t : Type := mk { name : list Z; value : list Z; sensitive : bool }.

#[global] Instance eq_dec : EqDecision t.
Proof. solve_decision. Defined.

Definition new_with_sensitive (name value : list Z) (sensitive : bool)
  : result HeaderFieldError.t t :=
  let? _ := Syntax.validate_field_name name in
  let? _ := Syntax.validate_field_value name value in
  let? _ := Syntax.validate_pseudo_header name value in
  Ok (mk name value sensitive).

Definition new (name value : list Z) : result HeaderFieldError.t t :=
  new_with_sensitive name value false.

Definition from_static (name value : list Z) : result HeaderFieldError.t t :=
  let? _ := Syntax.check_field_name_const name in
  let? _ := Syntax.check_field_value_const value in
  let? _ := Syntax.check_pseudo_header_const name value in
  Ok (mk name value false).

Definition from_validated_parts (name value : list Z) (sensitive : bool) : t :=
  mk name value sensitive.

Definition size (f : t) : Z := len (name f) + len (value f) + 32.

(** What the codec needs of a field: octets. *)
Definition octets_ok (f : t) : Prop := bytes_ok (name f) /\ bytes_ok (value f).

End HeaderField.

(** ** The static table *)
Module StaticTable.

Record entry : Type := mk { name : list Z; value : list Z }.

Definition to_header_field (e : entry) : HeaderField.t :=
  HeaderField.mk (name e) (value e) false.

Definition STATIC_TABLE : list entry :=
  [mk (bstr "") (bstr "");
   mk (bstr ":authority") (bstr "");
   mk (bstr ":method") (bstr "GET");
   mk (bstr ":method") (bstr "POST");
   mk (bstr ":path") (bstr "/");
   mk (bstr ":path") (bstr "/index.html");
   mk (bstr ":scheme") (bstr "http");
   mk (bstr ":scheme") (bstr "https");
   mk (bstr ":status") (bstr "200");
   mk (bstr ":status") (bstr "204");
   mk (bstr ":status") (bstr "206");
   mk (bstr ":status") (bstr "304");
   mk (bstr ":status") (bstr "400");
   mk (bstr ":status") (bstr "404");
   mk (bstr ":status") (bstr "500");
   mk (bstr "accept-charset") (bstr "");
   mk (bstr "accept-encoding") (bstr "gzip, deflate");
   mk (bstr "accept-language") (bstr "");
   mk (bstr "accept-ranges") (bstr "");
   mk (bstr "accept") (bstr "");
   mk (bstr "access-control-allow-origin") (bstr "");
   mk (bstr "age") (bstr "");
   mk (bstr "allow") (bstr "");
   mk (bstr "authorization") (bstr "");
   mk (bstr "cache-control") (bstr "");
   mk (bstr "content-disposition") (bstr "");
   mk (bstr "content-encoding") (bstr "");
   mk (bstr "content-language") (bstr "");
   mk (bstr "content-length") (bstr "");
   mk (bstr "content-location") (bstr "");
   mk (bstr "content-range") (bstr "");
   mk (bstr "content-type") (bstr "");
   mk (bstr "cookie") (bstr "");
   mk (bstr "date") (bstr "");
   mk (bstr "etag") (bstr "");
   mk (bstr "expect") (bstr "");
   mk (bstr "expires") (bstr "");
   mk (bstr "from") (bstr "");
   mk (bstr "host") (bstr "");
   mk (bstr "if-match") (bstr "");
   mk (bstr "if-modified-since") (bstr "");
   mk (bstr "if-none-match") (bstr "");
   mk (bstr "if-range") (bstr "");
   mk (bstr "if-unmodified-since") (bstr "");
   mk (bstr "last-modified") (bstr "");
   mk (bstr "link") (bstr "");
   mk (bstr "location") (bstr "");
   mk (bstr "max-forwards") (bstr "");
   mk (bstr "proxy-authenticate") (bstr "");
   mk (bstr "proxy-authorization") (bstr "");
   mk (bstr "range") (bstr "");
   mk (bstr "referer") (bstr "");
   mk (bstr "refresh") (bstr "");
   mk (bstr "retry-after") (bstr "");
   mk (bstr "server") (bstr "");
   mk (bstr "set-cookie") (bstr "");
   mk (bstr "strict-transport-security") (bstr "");
   mk (bstr "transfer-encoding") (bstr "");
   mk (bstr "user-agent") (bstr "");
   mk (bstr "vary") (bstr "");
   mk (bstr "via") (bstr "");
   mk (bstr "www-authenticate") (bstr "")].

Definition STATIC_TABLE_SIZE : Z := 61.

Definition get_static_entry (index : Z) : Result (option entry) :=
  if (1 <=? index) && (index <=? STATIC_TABLE_SIZE)
  then let? e := Prelude.index STATIC_TABLE index in Ok (Some e)
  else Ok None.

End StaticTable.

(** ** Searching a table

    Both tables are searched the same way: the first entry with the name and
    the value, or else the first one with the name. *)
Section search.
Context {A : Type} (name_of value_of : A -> list Z) (nm vl : list Z).

Fixpoint find_loop (l : list A) (i : Z) (name_match : option Z) : option (Z * bool) :=
  match l with
  | [] => match name_match with Some i => Some (i, false) | None => None end
  | e :: l =>
      if bytes_eqb (name_of e) nm then
        if bytes_eqb (value_of e) vl then Some (i, true)
        else find_loop l (i + 1) (match name_match with None => Some i | Some _ => name_match end)
      else find_loop l (i + 1) name_match
  end.

End search.

(** [STATIC_TABLE.iter().enumerate().skip(1)]. *)
Definition find_static_index (nm vl : list Z) : option (Z * bool) :=
  find_loop StaticTable.name StaticTable.value nm vl (drop 1 StaticTable.STATIC_TABLE) 1 None.

(** ** The dynamic table *)
Module DynamicTable.

(** Newest entry first. *)
Record t : Type := mk { entries : list HeaderField.t; size : Z; max_size : Z }.

#[global] Instance eta_dyn : Eta t := fun s => mk (entries s) (size s) (max_size s).

Definition new (max_size : Z) : t := mk [] 0 max_size.
Definition default : t := new DEFAULT_HEADER_TABLE_SIZE.
Definition is_empty (d : t) : bool := len (entries d) =? 0.

(** [Vec::pop]: takes the last (the oldest) entry off. *)
Fixpoint pop (l : list HeaderField.t) : option (list HeaderField.t * HeaderField.t) :=
  match l with
  | [] => None
  | [e] => Some ([], e)
  | e :: l =>
      match pop l with Some (l', removed) => Some (e :: l', removed) | None => None end
  end.

(** [while self.size + extra > self.max_size { pop or break }]: the loop of
    [insert_entry] ([extra] is the size of the new entry) and of [evict]
    ([extra] is zero).  A subtraction below zero panics.  Each round removes an
    entry, so one round more than there are entries is enough. *)
Fixpoint evict_loop {E} (fuel : nat) (extra : Z) (d : t) : result E t :=
  match fuel with
  | O => Panic
  | S fuel =>
      if size d + extra >? max_size d then
        match pop (entries d) with
        | Some (rest, removed) =>
            let? size' := sub_usize (size d) (HeaderField.size removed) in
            evict_loop fuel extra (d <| entries := rest |> <| size := size' |>)
        | None => Ok d
        end
      else Ok d
  end.

Definition evict {E} (d : t) : result E t := evict_loop (S (length (entries d))) 0 d.

Definition clear (d : t) : t := d <| entries := [] |> <| size := 0 |>.

Definition set_max_size {E} (max : Z) (d : t) : result E t := evict (d <| max_size := max |>).

Definition insert_entry {E} (entry : HeaderField.t) (d : t) : result E t :=
  let entry_size := HeaderField.size entry in
  if entry_size >? max_size d then Ok (clear d)
  else
    let? d := evict_loop (S (length (entries d))) entry_size d in
    Ok (d <| entries := entry :: entries d |> <| size := size d + entry_size |>).

Definition insert (name value : list Z) (d : t) : result HeaderFieldError.t t :=
  let? entry := HeaderField.new name value in insert_entry entry d.

Definition insert_validated {E} (name value : list Z) (d : t) : result E t :=
  insert_entry (HeaderField.from_validated_parts name value false) d.

(** [self.entries.get(index)]. *)
Definition get (d : t) (index : Z) : option HeaderField.t := entries d !! Z.to_nat index.

Definition get_by_absolute_index (d : t) (index : Z) : option HeaderField.t :=
  if index <=? StaticTable.STATIC_TABLE_SIZE then None
  else get d (index - StaticTable.STATIC_TABLE_SIZE - 1).

Definition find (d : t) (nm vl : list Z) : option (Z * bool) :=
  find_loop HeaderField.name HeaderField.value nm vl (entries d) 0 None.

(** ** Specification *)

Definition total (l : list HeaderField.t) : Z := foldr (fun e a => HeaderField.size e + a) 0 l.

(** The size field is the size of the entries and within the maximum. *)
Definition wf (d : t) : Prop :=
  size d = total (entries d) /\ size d <= max_size d /\ Forall HeaderField.octets_ok (entries d).

(** The longest prefix of [l] (its newest entries) that fits [room]. *)
Fixpoint fit (room : Z) (l : list HeaderField.t) : list HeaderField.t :=
  match l with
  | [] => []
  | e :: l => if HeaderField.size e <=? room then e :: fit (room - HeaderField.size e) l else []
  end.

End DynamicTable.

(** ** Lemmas: header fields *)

Lemma rbind_is_ok {E A B} (r : result E A) (k : A -> result E B) :
  is_ok (rbind r k) = match r with Ok a => is_ok (k a) | _ => false end.
Proof. by destruct r. Qed.

Lemma new_with_sensitive_spec name value sens :
  if Syntax.field_ok name value
  then HeaderField.new_with_sensitive name value sens = Ok (HeaderField.mk name value sens)
  else exists e, HeaderField.new_with_sensitive name value sens = Err e.
Proof.
  unfold Syntax.field_ok, HeaderField.new_with_sensitive.
  rewrite <- (validate_field_name_spec name), <- (validate_field_value_spec name value),
    <- (validate_pseudo_header_spec name value).
  pose proof (validate_no_panic name value) as (H1 & H2 & H3).
  destruct (Syntax.validate_field_name name) as [[]|e|]; cbn; [|by eexists|done].
  destruct (Syntax.validate_field_value name value) as [[]|e|]; cbn; [|by eexists|done].
  destruct (Syntax.validate_pseudo_header name value) as [[]|e|]; cbn; [done|by eexists|done].
Qed.

Lemma from_static_spec name value :
  HeaderField.from_static name value =
  if Syntax.field_ok name value then Ok (HeaderField.mk name value false) else Panic.
Proof.
  unfold HeaderField.from_static, Syntax.field_ok.
  rewrite check_field_name_spec, check_field_value_spec, check_pseudo_header_spec.
  destruct (Syntax.name_ok name); [|done]. destruct (Syntax.value_ok value); [|done].
  by destruct (negb _ || _).
Qed.

Lemma field_size_pos f : 32 <= HeaderField.size f.
Proof.
  unfold HeaderField.size. pose proof (len_nonneg (HeaderField.name f)).
  pose proof (len_nonneg (HeaderField.value f)). lia.
Qed.

(** ** Lemmas: searching *)

Section search_lemmas.
Context {A : Type} (name_of value_of : A -> list Z) (nm vl : list Z).

Lemma find_loop_spec l i o :
  (forall k, o = Some k -> 0 <= k < i) -> 0 <= i ->
  match find_loop name_of value_of nm vl l i o with
  | Some (k, true) => i <= k /\ exists e, l !! Z.to_nat (k - i) = Some e /\ name_of e = nm /\ value_of e = vl
  | Some (k, false) =>
      (o = Some k \/ i <= k /\ exists e, l !! Z.to_nat (k - i) = Some e /\ name_of e = nm) /\
      (forall e, e ∈ l -> name_of e = nm -> value_of e <> vl)
  | None => o = None /\ forall e, e ∈ l -> name_of e <> nm
  end.
Proof.
  revert i o. induction l as [|e l IH]; intros i o Ho Hi; cbn [find_loop].
  { destruct o as [k|]; (split; [auto|]); intros e He; by apply elem_of_nil in He. }
  destruct (bytes_eqb (name_of e) nm) eqn:En; [destruct (bytes_eqb (value_of e) vl) eqn:Ev|].
  - apply bytes_eqb_eq in En, Ev. split; [lia|]. exists e.
    by replace (Z.to_nat (i - i)) with 0%nat by lia.
  - apply bytes_eqb_eq in En. apply bytes_eqb_neq in Ev.
    set (o' := match o with None => Some i | Some _ => o end).
    assert (forall k, o' = Some k -> 0 <= k < i + 1) as Ho'.
    { subst o'. intros k'. destruct o as [k|]; intros [= <-]; [|lia]. specialize (Ho k eq_refl). lia. }
    specialize (IH (i + 1) o' Ho' ltac:(lia)). destruct (find_loop _ _ _ _ l _ _) as [[k []]|].
    + destruct IH as (Hk & e' & Hl & ?).
      split; [lia|]. exists e'. replace (Z.to_nat (k - i)) with (S (Z.to_nat (k - (i + 1)))) by lia. done.
    + destruct IH as (Hk & Hall).
      split; [|intros e' [->|He]%elem_of_cons; auto].
      destruct Hk as [Hk|(Hk & e' & Hl & Hn)].
      * subst o'. destruct o as [k'|]; injection Hk as <-; [by left|]. right. split; [lia|]. exists e.
        by replace (Z.to_nat (i - i)) with 0%nat by lia.
      * right. split; [lia|]. exists e'.
        replace (Z.to_nat (k - i)) with (S (Z.to_nat (k - (i + 1)))) by lia. done.
    + destruct IH as [Hk _]. subst o'. by destruct o.
  - apply bytes_eqb_neq in En. assert (forall k, o = Some k -> 0 <= k < i + 1) as Ho'
      by (intros k Hk; specialize (Ho k Hk); lia).
    specialize (IH (i + 1) o Ho' ltac:(lia)). destruct (find_loop _ _ _ _ l _ _) as [[k []]|].
    + destruct IH as (Hk & e' & Hl & ?). split; [lia|]. exists e'.
      replace (Z.to_nat (k - i)) with (S (Z.to_nat (k - (i + 1)))) by lia. done.
    + destruct IH as (Hk & Hall). split; [|intros e' [->|He]%elem_of_cons; auto; congruence].
      destruct Hk as [Hk|(Hk & e' & Hl & Hn)]; [by left|right]. split; [lia|]. exists e'.
      replace (Z.to_nat (k - i)) with (S (Z.to_nat (k - (i + 1)))) by lia. done.
    + destruct IH as [Hk Hall]. split; [done|]. intros e' [->|He]%elem_of_cons; auto.
Qed.

(** What a search that starts with no match returns. *)
Lemma find_loop_found l i k exact :
  0 <= i -> find_loop name_of value_of nm vl l i None = Some (k, exact) ->
  i <= k < i + len l /\ exists e, l !! Z.to_nat (k - i) = Some e /\ name_of e = nm /\
    (exact = true -> value_of e = vl).
Proof.
  intros Hi Hf. pose proof (find_loop_spec l i None ltac:(done) Hi) as H. rewrite Hf in H.
  assert (i <= k /\ exists e, l !! Z.to_nat (k - i) = Some e /\ name_of e = nm /\
            (exact = true -> value_of e = vl)) as (Hk & e & Hl & He).
  { destruct exact.
    - destruct H as (Hk & e & Hl & Hn & Hv). eauto 10.
    - destruct H as [[?|(Hk & e & Hl & Hn)] _]; [done|]. split; [done|]. by exists e. }
  split; [|eauto]. apply lookup_lt_Some in Hl. unfold len. lia.
Qed.

End search_lemmas.

Lemma len_static_table : len StaticTable.STATIC_TABLE = 62.
Proof. vm_compute. reflexivity. Qed.

Lemma find_static_index_spec nm vl k exact :
  find_static_index nm vl = Some (k, exact) ->
  exists e, StaticTable.get_static_entry k = Ok (Some e) /\ 1 <= k <= 61 /\
    StaticTable.name e = nm /\ (exact = true -> StaticTable.value e = vl).
Proof.
  unfold find_static_index, StaticTable.get_static_entry, StaticTable.STATIC_TABLE_SIZE.
  pose proof len_static_table as H62.
  set (T := StaticTable.STATIC_TABLE) in *. clearbody T. intros Hf.
  apply find_loop_found in Hf as (Hk & e & Hl & Hn & Hv); [|lia]. rewrite len_drop in Hk.
  exists e. split_and!; [|lia..|done|done].
  replace ((1 <=? k) && (k <=? 61)) with true by (symmetry; lia). unfold index.
  replace (0 <=? k) with true by lia. rewrite lookup_drop in Hl.
  replace (1 + Z.to_nat (k - 1))%nat with (Z.to_nat k) in Hl by lia. by rewrite Hl.
Qed.

Lemma get_static_entry_no_panic k : StaticTable.get_static_entry k <> Panic.
Proof.
  unfold StaticTable.get_static_entry, StaticTable.STATIC_TABLE_SIZE.
  destruct (_ && _) eqn:E; [|done]. zbool.
  destruct (index_spec (E:=Error.t) StaticTable.STATIC_TABLE k) as (e & -> & _); [|done].
  rewrite len_static_table. lia.
Qed.

(** ** Lemmas: the dynamic table *)
Import DynamicTable(fit, total, pop, evict_loop).

Lemma pop_snoc l e : pop (l ++ [e]) = Some (l, e).
Proof.
  induction l as [|x l IH]; [done|]. cbn [app pop]. destruct (l ++ [e]) eqn:E; [|by rewrite IH].
  by apply app_nil in E as [_ ?].
Qed.

Lemma total_app x y : total (x ++ y) = total x + total y.
Proof. induction x as [|e x IH]; cbn; [done|]. fold (total (x ++ y)) (total x). lia. Qed.

Lemma total_nonneg l : 0 <= total l.
Proof.
  induction l as [|e l IH]; cbn; [done|]. fold (total l). pose proof (field_size_pos e). lia.
Qed.

Lemma fit_all room l : total l <= room -> fit room l = l.
Proof.
  revert room. induction l as [|e l IH]; intros room H; [done|]. cbn in *. fold (total l) in H.
  pose proof (total_nonneg l). replace (_ <=? room) with true by lia. f_equal. apply IH. lia.
Qed.

Lemma fit_total room l : 0 <= room -> total (fit room l) <= room.
Proof.
  revert room. induction l as [|e l IH]; intros room H; [done|]. cbn [fit].
  destruct (_ <=? room) eqn:E; zbool; [|done]. cbn. fold (total (fit (room - HeaderField.size e) l)).
  specialize (IH (room - HeaderField.size e)). lia.
Qed.

Lemma fit_prefix room l : exists r, l = fit room l ++ r.
Proof.
  revert room. induction l as [|e l IH]; intros room; [by exists []|]. cbn [fit].
  destruct (_ <=? room); [|by exists (e :: l)].
  destruct (IH (room - HeaderField.size e)) as [r Hr]. exists r. cbn. by rewrite <- Hr.
Qed.

(** Dropping the oldest entry of a list that does not fit changes nothing. *)
Lemma fit_snoc room l e : room < total (l ++ [e]) -> fit room (l ++ [e]) = fit room l.
Proof.
  revert room. induction l as [|x l IH]; intros room H; cbn in *.
  - by replace (_ <=? room) with false by lia.
  - fold (total (l ++ [e])) in H. destruct (_ <=? room); [|done]. f_equal. apply IH. lia.
Qed.

Lemma evict_loop_spec {E} fuel extra d :
  (length (DynamicTable.entries d) < fuel)%nat ->
  DynamicTable.size d = total (DynamicTable.entries d) ->
  @evict_loop E fuel extra d =
  Ok (let kept := fit (DynamicTable.max_size d - extra) (DynamicTable.entries d) in
      DynamicTable.mk kept (total kept) (DynamicTable.max_size d)).
Proof.
  destruct d as [l sz mx]. cbn [DynamicTable.entries DynamicTable.size DynamicTable.max_size].
  revert l sz. induction fuel as [|fuel IH]; intros l sz Hf Hs; [lia|]. cbn [evict_loop].
  cbn [DynamicTable.entries DynamicTable.size DynamicTable.max_size].
  destruct (sz + extra >? mx) eqn:Eq; zbool.
  - destruct l as [|e l _] using rev_ind; [by subst|].
    rewrite pop_snoc. rewrite Hs, total_app in *. cbn in Hs, Eq |- *. rewrite Z.add_0_r in *.
    pose proof (total_nonneg l). unfold sub_usize.
    replace (total l + HeaderField.size e <? HeaderField.size e) with false by lia. cbn.
    rewrite IH; [|rewrite length_app in Hf; cbn in Hf; lia|lia].
    rewrite fit_snoc; [done|]. rewrite total_app. cbn. lia.
  - rewrite fit_all by lia. by rewrite <- Hs.
Qed.

(** Inserting keeps the newest entries that fit, the new one first. *)
Lemma insert_entry_spec {E} e d :
  DynamicTable.wf d ->
  @DynamicTable.insert_entry E e d =
  Ok (let kept := fit (DynamicTable.max_size d) (e :: DynamicTable.entries d) in
      DynamicTable.mk kept (total kept) (DynamicTable.max_size d)).
Proof.
  intros (Hs & Hm & _). unfold DynamicTable.insert_entry. cbn [fit]. rewrite Z.gtb_ltb, Z.ltb_antisym.
  destruct (HeaderField.size e <=? DynamicTable.max_size d); cbn [negb]; [|done].
  rewrite evict_loop_spec by (done || lia). cbn. do 2 f_equal. apply Z.add_comm.
Qed.

(** Changing the maximum keeps the newest entries that fit. *)
Lemma set_max_size_spec {E} m d :
  DynamicTable.wf d ->
  @DynamicTable.set_max_size E m d =
  Ok (let kept := fit m (DynamicTable.entries d) in DynamicTable.mk kept (total kept) m).
Proof.
  intros (Hs & Hm & _). unfold DynamicTable.set_max_size, DynamicTable.evict.
  rewrite evict_loop_spec by (done || cbn; lia). cbn. by rewrite Z.sub_0_r.
Qed.

Lemma fit_wf m l :
  0 <= m -> Forall HeaderField.octets_ok l ->
  DynamicTable.wf (DynamicTable.mk (fit m l) (total (fit m l)) m).
Proof.
  intros Hm Hl. split_and!; [done|by apply fit_total|]. cbn.
  destruct (fit_prefix m l) as [r Hr]. rewrite Hr in Hl. by apply Forall_app in Hl as [? _].
Qed.

(** ** Properties *)

(** Every way to build a header field applies the same syntax: [new]
    accepts exactly the fields of [Syntax.field_ok] (otherwise it returns an
    error, never a panic), and the compile-time [from_static] accepts the same
    fields and panics on the others. *)
Theorem header_field_constructors_agree name value :
  HeaderField.from_static name value =
    match HeaderField.new name value with Ok f => Ok f | _ => Panic end /\
  (Syntax.field_ok name value = true <->
   HeaderField.new name value = Ok (HeaderField.mk name value false)) /\
  HeaderField.new name value <> Panic.
Proof.
  rewrite from_static_spec. pose proof (new_with_sensitive_spec name value false) as H.
  unfold HeaderField.new. destruct (Syntax.field_ok name value); [by rewrite H|].
  destruct H as [e ->]. done.
Qed.

(** C33: The dynamic table is a bounded first-in first-out list: inserting puts
    the entry first and keeps the longest run of newest entries that fits the
    maximum size (none when the entry itself does not fit), shrinking the
    maximum keeps the newest that fit, the recorded size is always the size of
    the entries and never above the maximum, and no subtraction underflows. *)
Theorem dynamic_table_refines_fifo e m d :
  DynamicTable.wf d -> 0 <= m -> HeaderField.octets_ok e ->
  (exists d', @DynamicTable.insert_entry Error.t e d = Ok d' /\ DynamicTable.wf d' /\
     DynamicTable.entries d' = fit (DynamicTable.max_size d) (e :: DynamicTable.entries d) /\
     DynamicTable.max_size d' = DynamicTable.max_size d) /\
  (exists d', @DynamicTable.set_max_size Error.t m d = Ok d' /\ DynamicTable.wf d' /\
     DynamicTable.entries d' = fit m (DynamicTable.entries d) /\ DynamicTable.max_size d' = m).
Proof.
  intros Hwf Hm He. rewrite insert_entry_spec, set_max_size_spec by done.
  destruct Hwf as (Hs & Hsm & Hok). pose proof (total_nonneg (DynamicTable.entries d)).
  split; eexists; (split; [done|]); (split; [|done]); apply fit_wf; try lia; [by constructor|done].
Qed.

Definition sample_field : HeaderField.t := HeaderField.mk (bstr "cookie") (bstr "a=b") false.

Lemma dynamic_table_refines_fifo_witness :
  let d := DynamicTable.mk [sample_field] 41 100 in
  (exists d', @DynamicTable.insert_entry Error.t sample_field d = Ok d' /\ DynamicTable.wf d' /\
     DynamicTable.entries d' = fit (DynamicTable.max_size d) (sample_field :: DynamicTable.entries d) /\
     DynamicTable.max_size d' = DynamicTable.max_size d) /\
  (exists d', @DynamicTable.set_max_size Error.t 40 d = Ok d' /\ DynamicTable.wf d' /\
     DynamicTable.entries d' = fit 40 (DynamicTable.entries d) /\ DynamicTable.max_size d' = 40).
Proof.
  apply (dynamic_table_refines_fifo sample_field 40 (DynamicTable.mk [sample_field] 41 100));
    [|lia|split; repeat constructor; vm_compute; congruence].
  split_and!; [reflexivity|vm_compute; congruence|].
  repeat constructor; vm_compute; congruence.
Defined.
