(* ===== verification/HpackCodec.v ===== *)
(** * HpackCodec: encoding and decoding header blocks

    Models [src/src/hpack/encoder.rs] and [src/src/hpack/decoder.rs].  The
    encoder appends to the caller's buffer, which its methods take and return;
    the decoder is a state that keeps its changes when it fails. *)

From S2P Require Import Prelude Errors Config HpackInteger Huffman Syntax HpackTable.

(** ** The encoder *)
Module Encoder.

Record t : Type := mk { dynamic_table : DynamicTable.t; use_huffman : bool }.

#[global] Instance eta_enc : Eta t := fun s => mk (dynamic_table s) (use_huffman s).

Definition new (max_table_size : Z) : t := mk (DynamicTable.new max_table_size) true.
Definition default : t := new DEFAULT_HEADER_TABLE_SIZE.
Definition set_huffman (b : bool) (e : t) : t := e <| use_huffman := b |>.

Definition set_max_table_size (max : Z) (e : t) : Result t :=
  let? d := DynamicTable.set_max_size max (dynamic_table e) in
  Ok (e <| dynamic_table := d |>).

(** [let mut temp = [0u8; 16]; let len = integer::encode(..).expect(..);
    buf.extend_from_slice(&temp[..len])]. *)
Definition push_integer (buf : list Z) (value prefix_bits prefix_value : Z) : Result (list Z) :=
  let '(r, temp) := HpackInteger.encode value prefix_bits prefix_value (replicate 16 0) in
  let? n := expect r in
  let? octets := slice temp 0 n in
  Ok (buf ++ octets).

Definition encode_string (e : t) (buf data : list Z) : Result (list Z) :=
  let literal :=
    let? buf := push_integer buf (len data) 7 0x00 in Ok (buf ++ data) in
  if use_huffman e then
    let? encoded := Huffman.encode_to_vec data in
    if len encoded <? len data then
      let? buf := push_integer buf (len encoded) 7 0x80 in Ok (buf ++ encoded)
    else literal
  else literal.

Definition encode_indexed (e : t) (buf : list Z) (index : Z) : Result (list Z) :=
  push_integer buf index 7 0x80.

Definition encode_literal_indexed (e : t) (buf : list Z) (name_index : Z) (value : list Z)
  : Result (list Z) :=
  let? buf := push_integer buf name_index 6 0x40 in encode_string e buf value.

Definition encode_literal_new (e : t) (buf name value : list Z) : Result (list Z) :=
  let? buf := encode_string e (buf ++ [0x40]) name in encode_string e buf value.

Definition encode_literal_without_indexing_indexed (e : t) (buf : list Z) (name_index : Z)
  (value : list Z) : Result (list Z) :=
  let? buf := push_integer buf name_index 4 0x00 in encode_string e buf value.

Definition encode_literal_without_indexing_new (e : t) (buf name value : list Z)
  : Result (list Z) :=
  let? buf := encode_string e (buf ++ [0x00]) name in encode_string e buf value.

Definition encode_never_indexed_with_name_index (e : t) (buf : list Z) (name_index : Z)
  (value : list Z) : Result (list Z) :=
  let? buf := push_integer buf name_index 4 0x10 in encode_string e buf value.

Definition encode_never_indexed_new (e : t) (buf name value : list Z) : Result (list Z) :=
  let? buf := encode_string e (buf ++ [0x10]) name in encode_string e buf value.

Definition find_index (e : t) (name value : list Z) : option (Z * bool) :=
  match find_static_index name value with
  | Some (index, exact) =>
      if exact then Some (index, true)
      else match DynamicTable.find (dynamic_table e) name value with
           | Some (dyn_index, true) => Some (StaticTable.STATIC_TABLE_SIZE + 1 + dyn_index, true)
           | _ => Some (index, false)
           end
  | None =>
      match DynamicTable.find (dynamic_table e) name value with
      | Some (dyn_index, exact) => Some (StaticTable.STATIC_TABLE_SIZE + 1 + dyn_index, exact)
      | None => None
      end
  end.

Definition encode_header (e : t) (buf name value : list Z) (indexing : bool)
  : Result (list Z * t) :=
  match find_index e name value with
  | Some (index, exact) =>
      if exact then let? buf := encode_indexed e buf index in Ok (buf, e)
      else if indexing then
        let? buf := encode_literal_indexed e buf index value in
        let? d := DynamicTable.insert_validated name value (dynamic_table e) in
        Ok (buf, e <| dynamic_table := d |>)
      else
        let? buf := encode_literal_without_indexing_indexed e buf index value in Ok (buf, e)
  | None =>
      if indexing then
        let? buf := encode_literal_new e buf name value in
        let? d := DynamicTable.insert_validated name value (dynamic_table e) in
        Ok (buf, e <| dynamic_table := d |>)
      else
        let? buf := encode_literal_without_indexing_new e buf name value in Ok (buf, e)
  end.

Definition encode_header_sensitive (e : t) (buf name value : list Z) : Result (list Z) :=
  match find_index e name value with
  | Some (index, _) => encode_never_indexed_with_name_index e buf index value
  | None => encode_never_indexed_new e buf name value
  end.

Fixpoint encode (e : t) (buf : list Z) (headers : list HeaderField.t) : Result (list Z * t) :=
  match headers with
  | [] => Ok (buf, e)
  | header :: headers =>
      let? (buf, e) :=
        if HeaderField.sensitive header then
          let? buf := encode_header_sensitive e buf (HeaderField.name header)
                        (HeaderField.value header) in
          Ok (buf, e)
        else encode_header e buf (HeaderField.name header) (HeaderField.value header) true in
      encode e buf headers
  end.

Definition encode_size_update (e : t) (buf : list Z) (new_size : Z) : Result (list Z) :=
  push_integer buf new_size 5 0x20.

End Encoder.

(** ** The decoder *)
Module Decoder.

Record t : Type := mk {
  dynamic_table : DynamicTable.t;
  max_table_size : Z;
  max_header_list_size : option Z
}.

#[global] Instance eta_dec : Eta t := fun s =>
  mk (dynamic_table s) (max_table_size s) (max_header_list_size s).

Definition new (max_table_size : Z) : t :=
  mk (DynamicTable.new max_table_size) max_table_size None.
Definition default : t := new DEFAULT_HEADER_TABLE_SIZE.

Definition set_max_header_list_size (max : option Z) (d : t) : t :=
  d <| max_header_list_size := max |>.

Definition set_max_table_size (max : Z) (d : t) : Result t :=
  let? dt := DynamicTable.set_max_size max (dynamic_table d) in
  Ok (d <| max_table_size := max |> <| dynamic_table := dt |>).

Definition get_header_by_index (d : t) (index : Z) : Result HeaderField.t :=
  if index <=? StaticTable.STATIC_TABLE_SIZE then
    let? entry := StaticTable.get_static_entry index in
    ok_or (option_map StaticTable.to_header_field entry)
      (Error.hpack_error "invalid static table index")
  else
    ok_or (DynamicTable.get_by_absolute_index (dynamic_table d) index)
      (Error.hpack_error "invalid dynamic table index").

Definition decode_string (data : list Z) : Result (list Z * Z) :=
  match data with
  | [] => Err (Error.hpack_error "incomplete HPACK string")
  | b0 :: _ =>
      let huffman_encoded := negb (Z.land b0 0x80 =? 0) in
      let? (length, consumed) := HpackInteger.decode data 7 in
      let? e := add_usize consumed length in
      if len data <? e then Err (Error.hpack_error "incomplete HPACK string")
      else
        let? string_data := slice data consumed e in
        let? s := if huffman_encoded then Huffman.decode string_data else Ok string_data in
        Ok (s, e)
  end.

Definition decode_indexed (d : t) (data : list Z) : Result (HeaderField.t * Z) :=
  let? (index, consumed) := HpackInteger.decode data 7 in
  if index =? 0 then Err (Error.hpack_error "invalid index 0")
  else
    let? header := get_header_by_index d index in
    Ok (header, consumed).

(** The name of a literal: a string, or the name of an indexed entry. *)
Definition decode_name (d : t) (data : list Z) (name_index consumed : Z)
  : Result (list Z * Z) :=
  if name_index =? 0 then
    let? rest := slice_from data consumed in
    let? (n, c) := decode_string rest in
    Ok (n, consumed + c)
  else
    let? header := get_header_by_index d name_index in
    Ok (HeaderField.name header, consumed).

(** The three literal representations differ in the width of the index and in
    the flag of the field. *)
Definition decode_literal_with (d : t) (data : list Z) (prefix_bits : Z) (sensitive : bool)
  : Result (HeaderField.t * Z) :=
  let? (name_index, consumed) := HpackInteger.decode data prefix_bits in
  let? (name, consumed) := decode_name d data name_index consumed in
  let? rest := slice_from data consumed in
  let? (value, c) := decode_string rest in
  Ok (HeaderField.from_validated_parts name value sensitive, consumed + c).

Definition decode_literal_indexed (d : t) (data : list Z) : Result (HeaderField.t * Z) :=
  decode_literal_with d data 6 false.
Definition decode_literal (d : t) (data : list Z) : Result (HeaderField.t * Z) :=
  decode_literal_with d data 4 false.
Definition decode_literal_never_indexed (d : t) (data : list Z) : Result (HeaderField.t * Z) :=
  decode_literal_with d data 4 true.

Definition decode_size_update (data : list Z) : ST t Error.t Z :=
  let! (new_size, consumed) := lift (HpackInteger.decode data 5) in
  let! max := gets max_table_size in
  if new_size >? max
  then throw (Error.hpack_error "dynamic table size update exceeds maximum")
  else
    let! dt := gets dynamic_table in
    let! dt := lift (DynamicTable.set_max_size new_size dt) in
    modify (fun d => d <| dynamic_table := dt |>) ;!
    ret consumed.

(** One turn of the loop: the representation at the front of [data], with the
    updated [seen_header]. *)
Definition decode_representation (data : list Z) (seen_header : bool)
  : ST t Error.t (option HeaderField.t * Z * bool) :=
  let! first_byte := lift (index data 0) in
  let! self := gets (fun d => d) in
  if negb (Z.land first_byte 0x80 =? 0) then
    let! (header, consumed) := lift (decode_indexed self data) in
    ret (Some header, consumed, true)
  else if negb (Z.land first_byte 0x40 =? 0) then
    let! (header, consumed) := lift (decode_literal_indexed self data) in
    let! dt := lift (DynamicTable.insert_validated (HeaderField.name header)
                       (HeaderField.value header) (dynamic_table self)) in
    modify (fun d => d <| dynamic_table := dt |>) ;!
    ret (Some header, consumed, true)
  else if negb (Z.land first_byte 0x20 =? 0) then
    if seen_header
    then throw (Error.hpack_error
      "dynamic table size update must be at the beginning of header block")
    else
      let! consumed := decode_size_update data in
      ret (None, consumed, seen_header)
  else if negb (Z.land first_byte 0x10 =? 0) then
    let! (header, consumed) := lift (decode_literal_never_indexed self data) in
    ret (Some header, consumed, true)
  else
    let! (header, consumed) := lift (decode_literal self data) in
    ret (Some header, consumed, true).

(** [while offset < data.len()].  A representation takes an octet at least, so
    as many turns as there are octets are enough; running out is [Panic]. *)
Fixpoint decode_loop (fuel : nat) (data : list Z) (offset : Z) (seen_header : bool)
  (header_list_size : Z) (headers : list HeaderField.t) : ST t Error.t (list HeaderField.t) :=
  if offset <? len data then
    match fuel with
    | O => panic
    | S fuel =>
        let! rest := lift (slice_from data offset) in
        let! (header, consumed, seen_header) := decode_representation rest seen_header in
        let offset := offset + consumed in
        match header with
        | Some header =>
            let header_list_size := saturating_add header_list_size (HeaderField.size header) in
            let! max := gets max_header_list_size in
            if match max with Some max => header_list_size >? max | None => false end
            then throw (Error.hpack_error
              "decoded header list size exceeds SETTINGS_MAX_HEADER_LIST_SIZE")
            else decode_loop fuel data offset seen_header header_list_size (headers ++ [header])
        | None => decode_loop fuel data offset seen_header header_list_size headers
        end
    end
  else ret headers.

Definition decode (data : list Z) : ST t Error.t (list HeaderField.t) :=
  decode_loop (length data) data 0 false 0 [].

(** ** Invariant *)

Definition entry_ok (f : HeaderField.t) : Prop :=
  HeaderField.octets_ok f /\ HeaderField.sensitive f = false.

(** The table within the size this side allows, its entries octets. *)
Definition wf (d : t) : Prop :=
  DynamicTable.wf (dynamic_table d) /\
  Forall (fun f => HeaderField.sensitive f = false) (DynamicTable.entries (dynamic_table d)) /\
  0 <= DynamicTable.max_size (dynamic_table d) <= max_table_size d.

(** The size of a header list, as [SETTINGS_MAX_HEADER_LIST_SIZE] counts it. *)
Definition list_size (l : list HeaderField.t) : Z := DynamicTable.total l.

End Decoder.

(** ** Lemmas: integers and strings *)
Import HpackInteger(octets, prefix_ok).
Import DynamicTable(fit, total).

Lemma push_integer_spec buf v n p :
  0 <= v < 2 ^ 64 -> prefix_ok n p -> Encoder.push_integer buf v n p = Ok (buf ++ octets v n p).
Proof.
  intros Hv Hp. unfold Encoder.push_integer.
  pose proof (int_encode_spec v n p (replicate 16 0) Hv Hp) as He. cbn zeta in He.
  pose proof (octets_len v n p). rewrite len_replicate in He.
  change (Z.of_nat 16) with 16 in He.
  replace (len (octets v n p) <=? 16) with true in He by lia. rewrite He. cbn [expect rbind].
  by rewrite slice_prefix.
Qed.

Lemma prefix_7_80 : prefix_ok 7 0x80.
Proof. by repeat split. Qed.
Lemma prefix_7_00 : prefix_ok 7 0x00.
Proof. by repeat split. Qed.
Lemma prefix_6_40 : prefix_ok 6 0x40.
Proof. by repeat split. Qed.
Lemma prefix_5_20 : prefix_ok 5 0x20.
Proof. by repeat split. Qed.
Lemma prefix_4_10 : prefix_ok 4 0x10.
Proof. by repeat split. Qed.
Lemma prefix_4_00 : prefix_ok 4 0x00.
Proof. by repeat split. Qed.
#[local] Hint Resolve prefix_7_80 prefix_7_00 prefix_6_40 prefix_5_20 prefix_4_10 prefix_4_00 : core.

(** The first octet of an integer: its flag bits, and a value below them. *)
Lemma octets_first v n p :
  0 <= v -> 1 <= n <= 8 -> exists x r, octets v n p = (p + x) :: r /\ 0 <= x < 2 ^ n.
Proof.
  intros Hv Hn. pose proof (prefix_range n Hn). unfold octets. destruct (_ <? _) eqn:E; zbool.
  - exists v, []. split; [done|lia].
  - eexists (2 ^ n - 1), _. split; [done|lia].
Qed.

(** The tests the decoder makes on a first octet. *)
Lemma first_byte_class b :
  u8_ok b ->
  (Z.land b 0x80 =? 0) = (b <? 128) /\ (Z.land b 0x40 =? 0) = (b mod 128 <? 64) /\
  (Z.land b 0x20 =? 0) = (b mod 64 <? 32) /\ (Z.land b 0x10 =? 0) = (b mod 32 <? 16).
Proof.
  intros Hb.
  assert (Bool.eqb (Z.land b 0x80 =? 0) (b <? 128) && Bool.eqb (Z.land b 0x40 =? 0) (b mod 128 <? 64)
    && Bool.eqb (Z.land b 0x20 =? 0) (b mod 64 <? 32)
    && Bool.eqb (Z.land b 0x10 =? 0) (b mod 32 <? 16) = true) as H.
  { revert b Hb. apply u8_check. by vm_compute. }
  rewrite !andb_true_iff, !eqb_true_iff in H. tauto.
Qed.

(** A string behind the integer of its length. *)
Lemma decode_string_octets s p rest :
  (p = 0 \/ p = 0x80) -> len s < 2 ^ 63 ->
  Decoder.decode_string ((octets (len s) 7 p ++ s) ++ rest) =
  let? r := if p =? 0 then Ok s else Huffman.decode s in
  Ok (r, len (octets (len s) 7 p ++ s)).
Proof.
  intros Hp Hs. assert (prefix_ok 7 p) as Hpre by (destruct Hp as [-> | ->]; auto).
  pose proof (len_nonneg s) as H0. unfold Decoder.decode_string.
  destruct (octets_first (len s) 7 p H0 ltac:(lia)) as (x & r & Hoct & Hx).
  assert ((octets (len s) 7 p ++ s) ++ rest = (p + x) :: (r ++ s) ++ rest) as Hshape
    by (by rewrite Hoct).
  rewrite Hshape. rewrite <- Hshape, <- app_assoc.
  rewrite decode_octets by (done || lia). cbn [rbind].
  pose proof (octets_len (len s) 7 p). unfold add_usize. replace (_ <? 2 ^ 64) with true by lia.
  cbn [rbind]. rewrite !len_app. pose proof (len_nonneg rest).
  replace (_ <? _) with false by lia. rewrite slice_app_mid. cbn [rbind].
  change (2 ^ 7) with 128 in Hx.
  assert (u8_ok (p + x)) as Hu by (destruct Hp as [-> | ->]; unfold u8_ok; lia).
  rewrite land_80 by done. destruct Hp as [-> | ->].
  - by replace (0 + x <? 128) with true by lia.
  - by replace (128 + x <? 128) with false by lia.
Qed.

Lemma encode_string_spec e data :
  bytes_ok data -> len data < 2 ^ 63 ->
  exists out, (forall buf, Encoder.encode_string e buf data = Ok (buf ++ out)) /\ bytes_ok out /\
    forall rest, Decoder.decode_string (out ++ rest) = Ok (data, len out).
Proof.
  intros Hd Hl. pose proof (len_nonneg data). unfold Encoder.encode_string.
  assert (exists out, (forall buf, (let? buf := Encoder.push_integer buf (len data) 7 0x00 in
              Ok (buf ++ data)) = Ok (buf ++ out)) /\ bytes_ok out /\
            forall rest, Decoder.decode_string (out ++ rest) = Ok (data, len out)) as Hlit.
  { exists (octets (len data) 7 0 ++ data). split_and!.
    - intros buf. rewrite push_integer_spec by (auto || lia). cbn [rbind]. by rewrite <- app_assoc.
    - apply Forall_app. split; [by apply octets_bytes_ok; auto|done].
    - intros rest. by rewrite decode_string_octets by (auto || lia). }
  destruct (Encoder.use_huffman e); [|done].
  destruct (huffman_decode_encode data Hd) as (enc & -> & Henc & Hdec). cbn [rbind].
  destruct (len enc <? len data) eqn:E; [|done]. zbool. pose proof (len_nonneg enc).
  exists (octets (len enc) 7 0x80 ++ enc). split_and!.
  - intros buf. rewrite push_integer_spec by (auto || lia). cbn [rbind]. by rewrite <- app_assoc.
  - apply Forall_app. split; [by apply octets_bytes_ok; auto|done].
  - intros rest. rewrite decode_string_octets by (auto || lia). cbn [Z.eqb]. by rewrite Hdec.
Qed.

(** ** Lemmas: one representation *)

(** The tables of the two ends are the same. *)
Definition sync (e : Encoder.t) (d : Decoder.t) : Prop :=
  Encoder.dynamic_table e = Decoder.dynamic_table d /\ Decoder.wf d /\
  DynamicTable.max_size (Decoder.dynamic_table d) < 2 ^ 62.

(** A field that can be sent: octets, of a length that fits. *)
Definition sendable_field (h : HeaderField.t) : Prop :=
  HeaderField.octets_ok h /\ len (HeaderField.name h) < 2 ^ 62 /\ len (HeaderField.value h) < 2 ^ 62.

Lemma entries_count l : 32 * len l <= DynamicTable.total l.
Proof.
  induction l as [|e l IH]; [done|]. rewrite len_cons. cbn. fold (DynamicTable.total l).
  pose proof (field_size_pos e). lia.
Qed.

(** An index the encoder finds names the same field for the decoder. *)
Lemma find_index_spec e d name value i exact :
  sync e d -> Encoder.find_index e name value = Some (i, exact) ->
  1 <= i < 2 ^ 62 /\ exists h, Decoder.get_header_by_index d i = Ok h /\
    HeaderField.name h = name /\ HeaderField.sensitive h = false /\
    (exact = true -> HeaderField.value h = value).
Proof.
  intros (Hsync & (Hwf & Hns & _) & Hmax). unfold Encoder.find_index, Decoder.get_header_by_index.
  rewrite Hsync. unfold StaticTable.STATIC_TABLE_SIZE.
  assert (forall k b, DynamicTable.find (Decoder.dynamic_table d) name value = Some (k, b) ->
    1 <= 61 + 1 + k < 2 ^ 62 /\
    exists h, ok_or (DynamicTable.get_by_absolute_index (Decoder.dynamic_table d) (61 + 1 + k))
                (Error.hpack_error "invalid dynamic table index") = Ok h /\
    (61 + 1 + k <=? 61) = false /\
    HeaderField.name h = name /\ HeaderField.sensitive h = false /\
    (b = true -> HeaderField.value h = value)) as Hdyn.
  { intros k b Hf. apply find_loop_found in Hf as (Hk & h & Hl & Hn & Hv); [|lia].
    destruct Hwf as (Hs & Hm & _). pose proof (entries_count (DynamicTable.entries (Decoder.dynamic_table d))).
    split; [lia|]. exists h. unfold DynamicTable.get_by_absolute_index, StaticTable.STATIC_TABLE_SIZE.
    replace (61 + 1 + k <=? 61) with false by lia. unfold DynamicTable.get.
    replace (61 + 1 + k - 61 - 1) with k by lia. rewrite Z.sub_0_r in Hl. rewrite Hl.
    split_and!; try done. by apply (Forall_lookup_1 _ _ _ _ Hns Hl). }
  assert (forall k b, find_static_index name value = Some (k, b) ->
    1 <= k < 2 ^ 62 /\ exists h,
    (if k <=? 61
     then let? entry := StaticTable.get_static_entry k in
          ok_or (option_map StaticTable.to_header_field entry)
            (Error.hpack_error "invalid static table index")
     else ok_or (DynamicTable.get_by_absolute_index (Decoder.dynamic_table d) k)
            (Error.hpack_error "invalid dynamic table index")) = Ok h /\
    HeaderField.name h = name /\ HeaderField.sensitive h = false /\
    (b = true -> HeaderField.value h = value)) as Hstat.
  { intros k b (en & He & Hk & Hn & Hv)%find_static_index_spec. split; [lia|].
    replace (k <=? 61) with true by lia. rewrite He. cbn. eexists; split; [done|]. done. }
  destruct (find_static_index name value) as [[k []]|] eqn:Es.
  - intros [= <- <-]. by apply Hstat.
  - destruct (DynamicTable.find _ name value) as [[k' []]|] eqn:Ed; intros [= <- <-];
      try (by apply Hstat); destruct (Hdyn k' true eq_refl) as (Hr & h & Hg & -> & Hrest); eauto.
  - destruct (DynamicTable.find _ name value) as [[k' b']|] eqn:Ed; [|done]. intros [= <- <-].
    destruct (Hdyn k' b' eq_refl) as (Hr & h & Hg & -> & Hrest); eauto.
Qed.

(** A literal whose name is an index, and one whose name is a string. *)
Lemma decode_literal_name_index d i n p name value vout rest h sens :
  prefix_ok n p -> 1 <= i < 2 ^ 62 -> Decoder.get_header_by_index d i = Ok h ->
  HeaderField.name h = name ->
  (forall rest, Decoder.decode_string (vout ++ rest) = Ok (value, len vout)) ->
  Decoder.decode_literal_with d ((octets i n p ++ vout) ++ rest) n sens =
  Ok (HeaderField.mk name value sens, len (octets i n p ++ vout)).
Proof.
  intros Hp Hi Hget Hname Hv. unfold Decoder.decode_literal_with. rewrite <- app_assoc.
  rewrite decode_octets by (done || lia). cbn [rbind]. unfold Decoder.decode_name.
  replace (i =? 0) with false by lia. rewrite Hget. cbn [rbind]. rewrite slice_from_app. cbn [rbind].
  rewrite Hv. cbn [rbind]. by rewrite Hname, len_app.
Qed.

Lemma decode_literal_name_string d n p name value nout vout rest sens :
  prefix_ok n p -> 2 <= n ->
  (forall rest, Decoder.decode_string (nout ++ rest) = Ok (name, len nout)) ->
  (forall rest, Decoder.decode_string (vout ++ rest) = Ok (value, len vout)) ->
  Decoder.decode_literal_with d (([p] ++ nout ++ vout) ++ rest) n sens =
  Ok (HeaderField.mk name value sens, len ([p] ++ nout ++ vout)).
Proof.
  intros Hp Hn Hno Hv. unfold Decoder.decode_literal_with.
  assert ([p] = octets 0 n p) as Hoct.
  { unfold octets. pose proof (Z.pow_le_mono_r 2 2 n ltac:(lia) Hn).
    replace (0 <? 2 ^ n - 1) with true by lia. by rewrite Z.add_0_r. }
  rewrite Hoct, <- !app_assoc. rewrite decode_octets by (done || lia). cbn [rbind].
  unfold Decoder.decode_name. change (0 =? 0) with true. cbn iota. rewrite slice_from_app. cbn [rbind].
  rewrite Hno. cbn [rbind].
  rewrite (app_assoc (octets 0 n p)), <- len_app, slice_from_app. cbn [rbind].
  rewrite Hv. cbn [rbind]. by rewrite !len_app, Z.add_assoc.
Qed.

(** Which branch of the decoder a first octet takes. *)
Lemma representation_branch d out rest seen b r x p n :
  out = b :: r -> b = p + x -> 0 <= x < 2 ^ n -> (p, n) ∈ [(0x80, 7); (0x40, 6); (0x10, 4); (0x00, 4)] ->
  Decoder.decode_representation (out ++ rest) seen d =
  (let! self := gets (fun d => d) in
   if p =? 0x80 then
     let! (header, consumed) := lift (Decoder.decode_indexed self (out ++ rest)) in
     ret (Some header, consumed, true)
   else if p =? 0x40 then
     let! (header, consumed) := lift (Decoder.decode_literal_indexed self (out ++ rest)) in
     let! dt := lift (DynamicTable.insert_validated (HeaderField.name header)
                        (HeaderField.value header) (Decoder.dynamic_table self)) in
     modify (fun d => d <| Decoder.dynamic_table := dt |>) ;!
     ret (Some header, consumed, true)
   else if p =? 0x10 then
     let! (header, consumed) := lift (Decoder.decode_literal_never_indexed self (out ++ rest)) in
     ret (Some header, consumed, true)
   else
     let! (header, consumed) := lift (Decoder.decode_literal self (out ++ rest)) in
     ret (Some header, consumed, true)) d.
Proof.
  intros -> -> Hx Hp. unfold Decoder.decode_representation. cbn [app].
  rewrite index_cons_0. unfold lift at 1, bind at 1.
  assert (u8_ok (p + x)) as Hu.
  { unfold u8_ok. repeat (apply elem_of_cons in Hp as [[= -> ->]|Hp]; [lia|]). by apply elem_of_nil in Hp. }
  destruct (first_byte_class (p + x) Hu) as (-> & -> & -> & ->).
  repeat (apply elem_of_cons in Hp as [[= -> ->]|Hp];
    [|]); [..|by apply elem_of_nil in Hp]; change (2 ^ 7) with 128 in *;
    change (2 ^ 6) with 64 in *; change (2 ^ 4) with 16 in *.
  - by replace (128 + x <? 128) with false by lia.
  - replace (64 + x <? 128) with true by lia.
    by replace ((64 + x) mod 128 <? 64) with false by (rewrite Z.mod_small; lia).
  - replace (16 + x <? 128) with true by lia.
    replace ((16 + x) mod 128 <? 64) with true by (rewrite Z.mod_small; lia).
    replace ((16 + x) mod 64 <? 32) with true by (rewrite Z.mod_small; lia).
    by replace ((16 + x) mod 32 <? 16) with false by (rewrite Z.mod_small; lia).
  - replace (0 + x <? 128) with true by lia.
    replace ((0 + x) mod 128 <? 64) with true by (rewrite Z.mod_small; lia).
    replace ((0 + x) mod 64 <? 32) with true by (rewrite Z.mod_small; lia).
    by replace ((0 + x) mod 32 <? 16) with true by (rewrite Z.mod_small; lia).
Qed.

(** Inserting a field into the table of both ends keeps them the same. *)
Lemma sync_insert e d name value :
  sync e d -> bytes_ok name -> bytes_ok value ->
  exists dt, (forall E, @DynamicTable.insert_validated E name value (Decoder.dynamic_table d) = Ok dt) /\
    sync (e <| Encoder.dynamic_table := dt |>) (d <| Decoder.dynamic_table := dt |>).
Proof.
  intros (Hs & (Hwf & Hns & Hm) & Hmax) Hn Hv. unfold DynamicTable.insert_validated.
  eexists. split; [intros E; by rewrite insert_entry_spec by done|].
  set (l := _ :: _).
  assert (DynamicTable.wf (DynamicTable.mk (fit (DynamicTable.max_size (Decoder.dynamic_table d)) l)
    (total (fit (DynamicTable.max_size (Decoder.dynamic_table d)) l))
    (DynamicTable.max_size (Decoder.dynamic_table d)))) as Hwf'.
  { apply fit_wf; [lia|]. constructor; [done|]. apply Hwf. }
  split; [done|]. split; [|exact Hmax]. split; [exact Hwf'|]. split; [|exact Hm].
  destruct (fit_prefix (DynamicTable.max_size (Decoder.dynamic_table d)) l) as [r Hr].
  assert (Forall (fun f => HeaderField.sensitive f = false) l) as Hl by by constructor.
  rewrite Hr in Hl. by apply Forall_app in Hl as [? _].
Qed.

(** What encoding one field gives: octets the decoder reads back as the field,
    with the two tables still the same. *)
Definition encodes_to (e : Encoder.t) (d : Decoder.t) (h : HeaderField.t) (buf : list Z)
  (r : Result (list Z * Encoder.t)) : Prop :=
  exists out e' d', r = Ok (buf ++ out, e') /\ bytes_ok out /\ 1 <= len out /\ sync e' d' /\
    Decoder.max_table_size d' = Decoder.max_table_size d /\
    Decoder.max_header_list_size d' = Decoder.max_header_list_size d /\
    forall rest seen, Decoder.decode_representation (out ++ rest) seen d = (Ok (Some h, len out, true), d').

Lemma in_prefixes p n :
  (p, n) = (0x80, 7) \/ (p, n) = (0x40, 6) \/ (p, n) = (0x10, 4) \/ (p, n) = (0x00, 4) ->
  (p, n) ∈ [(0x80, 7); (0x40, 6); (0x10, 4); (0x00, 4)].
Proof. rewrite !elem_of_cons. tauto. Qed.

(** The octets of a literal start like its prefix. *)
Lemma literal_first p n i tail :
  0 <= i -> 1 <= n <= 8 ->
  exists x r, octets i n p ++ tail = (p + x) :: r /\ 0 <= x < 2 ^ n /\ 1 <= len (octets i n p ++ tail).
Proof.
  intros Hi Hn. destruct (octets_first i n p Hi Hn) as (x & r & Ho & Hx).
  exists x, (r ++ tail). rewrite Ho. split_and!; [done|lia|lia|]. rewrite len_app, len_cons.
  pose proof (len_nonneg r). pose proof (len_nonneg tail). lia.
Qed.

Lemma single_first p n tail :
  1 <= n -> exists x r, [p] ++ tail = (p + x) :: r /\ 0 <= x < 2 ^ n /\ 1 <= len ([p] ++ tail).
Proof.
  intros Hn. exists 0, tail. rewrite Z.add_0_r. pose proof (len_nonneg tail).
  pose proof (Z.pow_pos_nonneg 2 n). split_and!; [done|lia..|]. cbn. rewrite len_cons. lia.
Qed.

(** The value of an exact match is sent as its index alone. *)
Lemma encode_indexed_spec e d h buf i hh :
  sync e d -> 1 <= i < 2 ^ 62 -> Decoder.get_header_by_index d i = Ok hh -> hh = h ->
  encodes_to e d h buf (let? buf := Encoder.encode_indexed e buf i in Ok (buf, e)).
Proof.
  intros Hsync Hi Hget ->. unfold Encoder.encode_indexed.
  rewrite push_integer_spec by (auto || lia). cbn [rbind].
  destruct (literal_first 0x80 7 i [] ltac:(lia) ltac:(lia)) as (x & r & Ho & Hx & Hlen).
  rewrite app_nil_r in Ho, Hlen.
  exists (octets i 7 0x80), e, d.
  split; [done|]. split; [by apply octets_bytes_ok; auto; lia|]. do 4 (split; [done|]).
  intros rest seen. rewrite (representation_branch d _ rest seen _ _ x 0x80 7 Ho) by
    (done || apply in_prefixes; tauto).
  unfold bind, gets, lift, ret. cbn [Z.eqb Pos.eqb]. unfold Decoder.decode_indexed.
  rewrite decode_octets by (auto || lia). cbn [rbind]. replace (i =? 0) with false by lia.
  rewrite Hget. done.
Qed.

(** A literal that is added to the table. *)
Lemma encode_insert_spec e d h buf out name value x r :
  sync e d -> bytes_ok name -> bytes_ok value -> h = HeaderField.mk name value false ->
  bytes_ok out -> out = (0x40 + x) :: r -> 0 <= x < 2 ^ 6 -> 1 <= len out ->
  (forall rest, Decoder.decode_literal_with d (out ++ rest) 6 false = Ok (h, len out)) ->
  encodes_to e d h buf
    (let? dt := DynamicTable.insert_validated name value (Encoder.dynamic_table e) in
     Ok (buf ++ out, e <| Encoder.dynamic_table := dt |>)).
Proof.
  intros Hsync Hn Hv -> Hout Hshape Hx Hlen Hdec.
  destruct (sync_insert e d name value Hsync Hn Hv) as (dt & Hins & Hsync').
  pose proof Hsync as [Heq _]. rewrite Heq, Hins. cbn [rbind].
  eexists out, _, _. split; [done|]. do 2 (split; [done|]). split; [exact Hsync'|].
  do 2 (split; [done|]). intros rest seen.
  rewrite (representation_branch d _ rest seen _ _ x 0x40 6 Hshape) by
    (done || apply in_prefixes; tauto).
  unfold bind, gets, lift, ret, modify. cbn [Z.eqb Pos.eqb]. unfold Decoder.decode_literal_indexed.
  rewrite Hdec. cbn [HeaderField.name HeaderField.value]. by rewrite Hins.
Qed.

(** A literal that is never added to a table. *)
Lemma encode_never_spec e d h buf out x r :
  sync e d -> bytes_ok out -> out = (0x10 + x) :: r -> 0 <= x < 2 ^ 4 -> 1 <= len out ->
  (forall rest, Decoder.decode_literal_with d (out ++ rest) 4 true = Ok (h, len out)) ->
  encodes_to e d h buf (Ok (buf ++ out, e)).
Proof.
  intros Hsync Hout Hshape Hx Hlen Hdec.
  exists out, e, d. do 6 (split; [done|]). intros rest seen.
  rewrite (representation_branch d _ rest seen _ _ x 0x10 4 Hshape) by
    (done || apply in_prefixes; tauto).
  unfold bind, gets, lift, ret. cbn [Z.eqb Pos.eqb]. unfold Decoder.decode_literal_never_indexed.
  by rewrite Hdec.
Qed.

Lemma encode_field_spec e d h buf :
  sync e d -> sendable_field h -> HeaderField.sensitive h = false ->
  encodes_to e d h buf
    (Encoder.encode_header e buf (HeaderField.name h) (HeaderField.value h) true).
Proof.
  destruct h as [name value sens]. intros Hsync ((Hn & Hv) & Hln & Hlv) Hs. cbn in *. subst sens.
  unfold Encoder.encode_header.
  destruct (encode_string_spec e value Hv ltac:(lia)) as (vout & Hvenc & Hvok & Hvdec).
  destruct (Encoder.find_index e name value) as [[i exact]|] eqn:Ef.
  - destruct (find_index_spec e d name value i exact Hsync Ef) as (Hi & hh & Hget & Hhn & Hhs & Hhv).
    destruct exact.
    + eapply encode_indexed_spec; [done..|]. destruct hh. cbn in *. rewrite Hhn, Hhs, Hhv by done. done.
    + destruct (literal_first 0x40 6 i vout ltac:(lia) ltac:(lia)) as (x & r & Ho & Hx & Hlen).
      unfold Encoder.encode_literal_indexed. rewrite push_integer_spec by (auto || lia). cbn [rbind].
      rewrite Hvenc. cbn [rbind]. rewrite <- app_assoc.
      apply (encode_insert_spec e d _ buf _ name value x r); try done.
      * apply Forall_app. split; [by apply octets_bytes_ok; auto; lia|done].
      * intros rest. by apply (decode_literal_name_index d i 6 0x40 name value vout rest hh); auto.
  - destruct (encode_string_spec e name Hn ltac:(lia)) as (nout & Hnenc & Hnok & Hndec).
    destruct (single_first 0x40 6 (nout ++ vout) ltac:(lia)) as (x & r & Ho & Hx & Hlen).
    unfold Encoder.encode_literal_new. rewrite Hnenc. cbn [rbind]. rewrite Hvenc. cbn [rbind].
    rewrite <- !app_assoc.
    apply (encode_insert_spec e d _ buf _ name value x r); try done.
    + apply Forall_app. split; [|by apply Forall_app]. constructor; [by unfold u8_ok|constructor].
    + intros rest. apply decode_literal_name_string; (done || auto).
Qed.

Lemma encode_sensitive_spec e d h buf :
  sync e d -> sendable_field h -> HeaderField.sensitive h = true ->
  encodes_to e d h buf
    (let? buf := Encoder.encode_header_sensitive e buf (HeaderField.name h) (HeaderField.value h) in
     Ok (buf, e)).
Proof.
  destruct h as [name value sens]. intros Hsync ((Hn & Hv) & Hln & Hlv) Hs. cbn in *. subst sens.
  unfold Encoder.encode_header_sensitive.
  destruct (encode_string_spec e value Hv ltac:(lia)) as (vout & Hvenc & Hvok & Hvdec).
  destruct (Encoder.find_index e name value) as [[i exact]|] eqn:Ef.
  - destruct (find_index_spec e d name value i exact Hsync Ef) as (Hi & hh & Hget & Hhn & _).
    destruct (literal_first 0x10 4 i vout ltac:(lia) ltac:(lia)) as (x & r & Ho & Hx & Hlen).
    unfold Encoder.encode_never_indexed_with_name_index.
    rewrite push_integer_spec by (auto || lia). cbn [rbind]. rewrite Hvenc. cbn [rbind].
    rewrite <- app_assoc. apply (encode_never_spec e d _ buf _ x r); try done.
    + apply Forall_app. split; [by apply octets_bytes_ok; auto; lia|done].
    + intros rest. by apply (decode_literal_name_index d i 4 0x10 name value vout rest hh); auto.
  - destruct (encode_string_spec e name Hn ltac:(lia)) as (nout & Hnenc & Hnok & Hndec).
    destruct (single_first 0x10 4 (nout ++ vout) ltac:(lia)) as (x & r & Ho & Hx & Hlen).
    unfold Encoder.encode_never_indexed_new. rewrite Hnenc. cbn [rbind]. rewrite Hvenc. cbn [rbind].
    rewrite <- !app_assoc. apply (encode_never_spec e d _ buf _ x r); try done.
    + apply Forall_app. split; [|by apply Forall_app]. constructor; [by unfold u8_ok|constructor].
    + intros rest. apply decode_literal_name_string; (done || auto).
Qed.

(** ** Lemmas: header blocks *)

(** The size of a list is within the limit the decoder enforces. *)
Definition within_limit (d : Decoder.t) (size : Z) : Prop :=
  size < 2 ^ 64 /\ match Decoder.max_header_list_size d with Some m => size <= m | None => True end.

Lemma slice_from_pre {E A} (pre out : list A) : @slice_from E A (pre ++ out) (len pre) = Ok out.
Proof. apply slice_from_app. Qed.

Lemma total_cons h l : total (h :: l) = HeaderField.size h + total l.
Proof. done. Qed.

(** One turn of the decoder's loop over a field. *)
Lemma decode_loop_field fuel pre out rest seen size acc h d d' :
  1 <= len out -> (0 < fuel)%nat ->
  (forall rest seen, Decoder.decode_representation (out ++ rest) seen d = (Ok (Some h, len out, true), d')) ->
  Decoder.max_header_list_size d' = Decoder.max_header_list_size d ->
  0 <= size -> within_limit d (size + HeaderField.size h) ->
  Decoder.decode_loop fuel (pre ++ out ++ rest) (len pre) seen size acc d =
  Decoder.decode_loop (pred fuel) ((pre ++ out) ++ rest) (len (pre ++ out)) true
    (size + HeaderField.size h) (acc ++ [h]) d'.
Proof.
  intros Hlen Hfuel Hrep Hmax Hsize [Hlim Hm]. destruct fuel as [|fuel]; [lia|].
  cbn [Decoder.decode_loop pred].
  replace (len pre <? len (pre ++ out ++ rest)) with true
    by (rewrite !len_app; pose proof (len_nonneg rest); lia).
  unfold bind at 1, lift at 1. rewrite slice_from_pre. unfold bind at 1. rewrite Hrep.
  unfold bind, gets. rewrite Hmax. pose proof (field_size_pos h).
  assert (saturating_add size (HeaderField.size h) = size + HeaderField.size h) as ->
    by (unfold saturating_add, USIZE_MAX; lia).
  rewrite <- len_app, app_assoc.
  destruct (Decoder.max_header_list_size d) as [m|]; [|done].
  by replace (_ >? m) with false by lia.
Qed.

Lemma decode_encode_loop hs e d buf :
  sync e d -> Forall sendable_field hs ->
  exists out e' d', Encoder.encode e buf hs = Ok (buf ++ out, e') /\ bytes_ok out /\ sync e' d' /\
    Decoder.max_table_size d' = Decoder.max_table_size d /\
    Decoder.max_header_list_size d' = Decoder.max_header_list_size d /\
    forall fuel pre seen size acc,
      (length out <= fuel)%nat -> 0 <= size -> within_limit d (size + total hs) ->
      Decoder.decode_loop fuel (pre ++ out) (len pre) seen size acc d = (Ok (acc ++ hs), d').
Proof.
  intros Hsync Hhs. revert e d buf Hsync. induction Hhs as [|h hs Hh Hhs IH]; intros e d buf Hsync.
  { exists [], e, d. rewrite app_nil_r. split_and!; try done; [constructor|].
    intros fuel pre seen size acc _ _ _. rewrite !app_nil_r.
    destruct fuel; cbn; by rewrite Z.ltb_irrefl. }
  cbn [Encoder.encode].
  assert (encodes_to e d h buf (if HeaderField.sensitive h
    then let? buf := Encoder.encode_header_sensitive e buf (HeaderField.name h) (HeaderField.value h) in
         Ok (buf, e)
    else Encoder.encode_header e buf (HeaderField.name h) (HeaderField.value h) true))
    as (out & e1 & d1 & -> & Hout & Hlen & Hsync1 & Hmt1 & Hml1 & Hdec).
  { destruct (HeaderField.sensitive h) eqn:Es;
      [by apply encode_sensitive_spec|by apply encode_field_spec]. }
  cbn [rbind].
  destruct (IH e1 d1 (buf ++ out) Hsync1) as (out2 & e2 & d2 & Henc & Hout2 & Hsync2 & Hmt2 & Hml2 & Hloop).
  exists (out ++ out2), e2, d2. rewrite Henc, <- app_assoc. split; [done|].
  split; [by apply Forall_app|]. split; [done|]. split; [congruence|]. split; [congruence|].
  intros fuel pre seen size acc Hfuel Hsize Hlim. rewrite length_app in Hfuel.
  rewrite total_cons in Hlim. pose proof (total_nonneg hs). pose proof (field_size_pos h).
  unfold len in Hlen. rewrite (decode_loop_field fuel pre out out2 seen size acc h d d1); try done.
  - rewrite Hloop; [by rewrite <- app_assoc|lia|lia|].
    unfold within_limit in *. rewrite Hml1, <- Z.add_assoc. done.
  - lia.
  - destruct Hlim as [Hlim Hm]. split; [lia|]. destruct (Decoder.max_header_list_size d); [lia|done].
Qed.

Lemma decode_encode hs e d :
  sync e d -> Forall sendable_field hs -> within_limit d (Decoder.list_size hs) ->
  exists out e' d', Encoder.encode e [] hs = Ok (out, e') /\ bytes_ok out /\
    Decoder.decode out d = (Ok hs, d') /\ sync e' d' /\
    Decoder.max_table_size d' = Decoder.max_table_size d /\
    Decoder.max_header_list_size d' = Decoder.max_header_list_size d.
Proof.
  intros Hsync Hhs Hlim.
  destruct (decode_encode_loop hs e d [] Hsync Hhs) as (out & e' & d' & He & Hok & Hs & Hmt & Hml & Hloop).
  exists out, e', d'. split_and!; try done. by apply (Hloop (length out) [] false 0 []).
Qed.

(** ** Lemmas: the decoder on arbitrary octets *)

Lemma decode_string_safe data :
  bytes_ok data ->
  safe (fun '(s, c) => bytes_ok s /\ 1 <= c <= len data) (Decoder.decode_string data).
Proof.
  intros Hd. unfold Decoder.decode_string. destruct data as [|b data']; [done|].
  set (data := b :: data') in *. pose proof (int_decode_bounds data 7 ltac:(lia) Hd) as Hb.
  destruct (HpackInteger.decode data 7) as [[v c]|e|]; [|done|done]. cbn [rbind].
  unfold add_usize. replace (c + v <? 2 ^ 64) with true by lia. cbn [rbind].
  apply safe_if; intros E; [done|]. zbool.
  eapply safe_bind; [apply safe_slice; [done|lia..]|]. intros s Hs.
  eapply safe_bind with (P := bytes_ok).
  - apply safe_if; intros _; [|done]. pose proof (huffman_decode_spec s Hs) as H.
    by destruct (Huffman.decode s) as [r| |]; [destruct H| |].
  - intros r Hr. cbn. split; [done|lia].
Qed.

(** A well-formed field: octets, and not sensitive (as in every table). *)
Lemma static_entries_ok :
  forallb (fun e => forallb (fun b => (0 <=? b) && (b <? 256))
                      (StaticTable.name e ++ StaticTable.value e)) StaticTable.STATIC_TABLE = true.
Proof. by vm_compute. Qed.

Lemma static_entry_ok k e :
  StaticTable.get_static_entry k = Ok (Some e) ->
  HeaderField.octets_ok (StaticTable.to_header_field e).
Proof.
  pose proof static_entries_ok as H. unfold StaticTable.get_static_entry.
  set (T := StaticTable.STATIC_TABLE) in *. clearbody T. destruct (_ && _); [|done].
  unfold index. destruct (0 <=? k); [|done]. destruct (T !! Z.to_nat k) as [e'|] eqn:El; [|done].
  intros [= ->]. apply list_elem_of_lookup_2, list_elem_of_In in El.
  apply (proj1 (forallb_forall _ _) H) in El. rewrite forallb_app, andb_true_iff in El.
  assert (forall l, forallb (fun b => (0 <=? b) && (b <? 256)) l = true -> bytes_ok l) as Hl.
  { intros l Hf. apply Forall_forall. intros x Hx. apply list_elem_of_In in Hx.
    apply (proj1 (forallb_forall _ _) Hf) in Hx. zbool. unfold u8_ok. lia. }
  destruct El. by split; apply Hl.
Qed.

Lemma get_header_by_index_safe d i :
  Decoder.wf d -> safe Decoder.entry_ok (Decoder.get_header_by_index d i).
Proof.
  intros (Hwf & Hns & _). unfold Decoder.get_header_by_index. apply safe_if; intros _.
  - pose proof (get_static_entry_no_panic i).
    destruct (StaticTable.get_static_entry i) as [[e|]|e|] eqn:E; cbn; try done.
    split; [by eapply static_entry_ok|done].
  - destruct (DynamicTable.get_by_absolute_index _ i) as [h|] eqn:E; cbn; [|done].
    unfold DynamicTable.get_by_absolute_index, DynamicTable.get in E. destruct (_ <=? _); [done|].
    destruct Hwf as (_ & _ & Hok).
    split; [exact (Forall_lookup_1 _ _ _ _ Hok E)|exact (Forall_lookup_1 _ _ _ _ Hns E)].
Qed.

Lemma decode_literal_safe d data n sens :
  Decoder.wf d -> bytes_ok data -> 1 <= n <= 8 ->
  safe (fun '(h, c) => HeaderField.octets_ok h /\ HeaderField.sensitive h = sens /\ 1 <= c <= len data)
    (Decoder.decode_literal_with d data n sens).
Proof.
  intros Hwf Hd Hn. unfold Decoder.decode_literal_with.
  pose proof (int_decode_bounds data n Hn Hd) as Hb.
  destruct (HpackInteger.decode data n) as [[i c]|e|]; [|done|done]. cbn [rbind].
  assert (forall k, 0 <= k <= len data ->
    safe (E:=Error.t) (fun r => bytes_ok r /\ len r = len data - k) (slice_from data k)) as Hslice.
  { intros k Hk. rewrite slice_from_spec by lia. cbn. split; [by apply Forall_drop|].
    rewrite len_drop. lia. }
  eapply safe_bind with (P := fun '(nm, k) => bytes_ok nm /\ 1 <= k <= len data).
  - unfold Decoder.decode_name. apply safe_if; intros _.
    + eapply safe_bind; [apply Hslice; lia|]. intros r [Hr Hlr].
      eapply safe_bind; [by apply decode_string_safe|]. intros [s k] [Hs Hk]. cbn. split; [done|lia].
    + eapply safe_bind; [by apply get_header_by_index_safe|]. intros h [[Hh _] _]. cbn.
      split; [done|lia].
  - intros [nm k] [Hnm Hk]. eapply safe_bind; [apply Hslice; lia|]. intros r [Hr Hlr].
    eapply safe_bind; [by apply decode_string_safe|]. intros [v k'] [Hv Hk']. cbn. split_and!; try done; lia.
Qed.

(** What a turn of the loop keeps: no panic, the invariant, the two limits. *)
Definition keeps {A} (Q : A -> Prop) (d : Decoder.t) (r : result Error.t A * Decoder.t) : Prop :=
  safe Q (fst r) /\ Decoder.wf (snd r) /\
  Decoder.max_table_size (snd r) = Decoder.max_table_size d /\
  Decoder.max_header_list_size (snd r) = Decoder.max_header_list_size d.

Lemma keeps_same {A} (Q : A -> Prop) d r : Decoder.wf d -> safe Q r -> keeps Q d (r, d).
Proof. by intros. Qed.

Lemma wf_fit d m l :
  0 <= m <= Decoder.max_table_size d -> Forall Decoder.entry_ok l ->
  Decoder.wf (d <| Decoder.dynamic_table := DynamicTable.mk (fit m l) (total (fit m l)) m |>).
Proof.
  intros Hm Hl. destruct (fit_prefix m l) as [r Hr].
  assert (Forall Decoder.entry_ok (fit m l)) as Hf by (rewrite Hr in Hl; by apply Forall_app in Hl as [? _]).
  assert (Forall HeaderField.octets_ok l) as Ho by (eapply Forall_impl; [exact Hl|]; by intros x []).
  split; [apply fit_wf; [lia|done]|]. split; [|cbn; lia].
  eapply Forall_impl; [exact Hf|]. by intros x [].
Qed.

Lemma wf_entries d : Decoder.wf d -> Forall Decoder.entry_ok (DynamicTable.entries (Decoder.dynamic_table d)).
Proof.
  intros ((_ & _ & Ho) & Hs & _). apply Forall_forall. intros x Hx. split.
  - by eapply Forall_forall in Ho. - by eapply Forall_forall in Hs.
Qed.

Lemma decode_size_update_keeps data d :
  Decoder.wf d -> bytes_ok data ->
  keeps (fun c => 1 <= c <= len data) d (Decoder.decode_size_update data d).
Proof.
  intros Hwf Hd. unfold Decoder.decode_size_update, bind, lift, gets, modify, ret, throw.
  pose proof (int_decode_bounds data 5 ltac:(lia) Hd) as Hb.
  destruct (HpackInteger.decode data 5) as [[v c]|e|]; [|by apply keeps_same|done].
  destruct (v >? Decoder.max_table_size d) eqn:E; [by apply keeps_same|]. zbool.
  pose proof Hwf as (Hdt & _). rewrite set_max_size_spec by done. cbn.
  split; [cbn; lia|]. split; [|done]. apply wf_fit; [lia|by apply wf_entries].
Qed.

Lemma decode_representation_keeps data seen d :
  Decoder.wf d -> bytes_ok data -> 1 <= len data ->
  keeps (fun '(h, c, _) => 1 <= c <= len data /\
           match h with Some h => HeaderField.octets_ok h | None => True end) d
    (Decoder.decode_representation data seen d).
Proof.
  intros Hwf Hd Hl. unfold Decoder.decode_representation.
  destruct (index_spec (E:=Error.t) data 0 ltac:(lia)) as (b & Hb & _).
  unfold bind at 1 2, lift at 1, gets at 1. rewrite Hb.
  destruct (negb (Z.land b 128 =? 0)).
  { unfold bind, lift, ret. unfold Decoder.decode_indexed.
    pose proof (int_decode_bounds data 7 ltac:(lia) Hd) as Hi.
    destruct (HpackInteger.decode data 7) as [[i c]|e|]; [|by apply keeps_same|done]. cbn [rbind].
    destruct (i =? 0); [by apply keeps_same|].
    pose proof (get_header_by_index_safe d i Hwf) as Hg.
    destruct (Decoder.get_header_by_index d i) as [h|e|]; cbn [rbind]; [|by apply keeps_same|done].
    destruct Hg as [Hg _]. apply keeps_same; [done|]. cbn. split; [lia|done]. }
  assert (forall n sens, 1 <= n <= 8 -> match Decoder.decode_literal_with d data n sens with
    | Ok (h, c) => HeaderField.octets_ok h /\ 1 <= c <= len data
    | Err _ => True | Panic => False end) as Hlit.
  { intros n sens Hn. pose proof (decode_literal_safe d data n sens Hwf Hd Hn) as H.
    destruct (Decoder.decode_literal_with d data n sens) as [[h c]| |]; [|done..]. destruct H as (? & _ & ?). done. }
  destruct (negb (Z.land b 64 =? 0)).
  { unfold bind, lift, ret, modify, Decoder.decode_literal_indexed. specialize (Hlit 6 false ltac:(lia)).
    destruct (Decoder.decode_literal_with d data 6 false) as [[h c]|e|]; [|by apply keeps_same|done].
    pose proof Hwf as (Hdt & _ & Hm). unfold DynamicTable.insert_validated.
    rewrite insert_entry_spec by done. cbn zeta. destruct Hlit as [Hh Hc].
    split; [cbn; split; [lia|done]|]. split; [|done]. apply wf_fit; [done|].
    constructor; [by split|by apply wf_entries]. }
  destruct (negb (Z.land b 32 =? 0)).
  { destruct seen; [by apply keeps_same|]. unfold bind, ret.
    pose proof (decode_size_update_keeps data d Hwf Hd) as Hk.
    destruct (Decoder.decode_size_update data d) as [[c|e|] d']; destruct Hk as (Hc & Hrest); cbn in *; done. }
  destruct (negb (Z.land b 16 =? 0)).
  - unfold bind, lift, ret, Decoder.decode_literal_never_indexed. specialize (Hlit 4 true ltac:(lia)).
    destruct (Decoder.decode_literal_with d data 4 true) as [[h c]|e|]; [|by apply keeps_same|done].
    destruct Hlit. by apply keeps_same.
  - unfold bind, lift, ret, Decoder.decode_literal. specialize (Hlit 4 false ltac:(lia)).
    destruct (Decoder.decode_literal_with d data 4 false) as [[h c]|e|]; [|by apply keeps_same|done].
    destruct Hlit. by apply keeps_same.
Qed.

(** What a decoded block satisfies. *)
Definition block_ok (d : Decoder.t) (hs : list HeaderField.t) : Prop :=
  Forall HeaderField.octets_ok hs /\
  forall m, Decoder.max_header_list_size d = Some m -> m < USIZE_MAX -> Decoder.list_size hs <= m.

Lemma decode_loop_keeps fuel data offset seen size acc d :
  Decoder.wf d -> bytes_ok data -> 0 <= offset <= len data -> len data - offset <= Z.of_nat fuel ->
  size = Z.min USIZE_MAX (total acc) -> block_ok d acc ->
  keeps (block_ok d) d (Decoder.decode_loop fuel data offset seen size acc d).
Proof.
  revert offset seen size acc d. induction fuel as [|fuel IH];
    intros offset seen size acc d Hwf Hd Hoff Hfuel Hsize Hacc; cbn [Decoder.decode_loop];
    (destruct (offset <? len data) eqn:E; zbool; [|by apply keeps_same]); [lia|].
  unfold bind at 1, lift at 1. rewrite slice_from_spec by lia.
  set (rest := drop (Z.to_nat offset) data).
  assert (len rest = len data - offset) as Hrest by (subst rest; rewrite len_drop; lia).
  assert (bytes_ok rest) as Hrok by by apply Forall_drop.
  pose proof (decode_representation_keeps rest seen d Hwf Hrok ltac:(lia)) as Hk.
  unfold bind at 1.
  destruct (Decoder.decode_representation rest seen d) as [[[[h c] seen']|e|] d'];
    destruct Hk as (Hc & Hwf' & Hmt & Hml); cbn in Hc, Hwf', Hmt, Hml; [|done|done].
  destruct Hc as [Hc Hh].
  assert (forall r, keeps (block_ok d') d' r -> keeps (block_ok d) d r) as Hup.
  { intros r (H1 & H2 & H3 & H4). unfold keeps, block_ok in *. rewrite Hml in *.
    split_and!; [done|done|congruence|congruence]. }
  destruct h as [h|]; [|by apply Hup, IH; [..|unfold block_ok in *; rewrite Hml]; try lia].
  unfold bind, gets. pose proof (field_size_pos h). pose proof (total_nonneg acc).
  assert (saturating_add size (HeaderField.size h) = Z.min USIZE_MAX (total (acc ++ [h]))) as Hsat.
  { rewrite total_app, total_cons. change (total []) with 0. unfold saturating_add. lia. }
  destruct (match Decoder.max_header_list_size d' with Some _ => _ | None => _ end) eqn:El.
  { by apply Hup, keeps_same. }
  apply Hup, IH; try done; try lia. destruct Hacc as [Hf Hm]. split.
  - apply Forall_app. split; [done|]. constructor; [done|constructor].
  - intros m Hmm Hlt. rewrite Hmm in El. zbool. rewrite Hsat in El.
    unfold Decoder.list_size. lia.
Qed.

Lemma decode_keeps data d :
  Decoder.wf d -> bytes_ok data -> (forall m, Decoder.max_header_list_size d = Some m -> 0 <= m) ->
  keeps (block_ok d) d (Decoder.decode data d).
Proof.
  intros Hwf Hd Hm. apply decode_loop_keeps; try done; try lia.
  - pose proof (len_nonneg data). lia.
  - unfold len. lia.
  - split; [constructor|]. intros m Hmm _. by apply Hm.
Qed.

Lemma sync_new m : 0 <= m < 2 ^ 62 -> sync (Encoder.new m) (Decoder.new m).
Proof.
  intros Hm. split; [done|]. split; [|cbn; lia]. split; [|split; [constructor|cbn; lia]].
  split_and!; cbn; [done|lia|constructor].
Qed.

(** A size update that both ends apply keeps the tables the same. *)
Lemma size_update_sync e d m :
  sync e d -> 0 <= m <= Decoder.max_table_size d -> m < 2 ^ 62 ->
  exists out e' d', Encoder.set_max_table_size m e = Ok e' /\
    Encoder.encode_size_update e' [] m = Ok out /\
    (forall rest, Decoder.decode_representation (out ++ rest) false d = (Ok (None, len out, false), d')) /\
    sync e' d' /\ Decoder.max_table_size d' = Decoder.max_table_size d /\
    Decoder.max_header_list_size d' = Decoder.max_header_list_size d /\ 1 <= len out /\ bytes_ok out.
Proof.
  intros (Hs & Hwf & Hmax) Hm Hm62. pose proof Hwf as (Hdt & _).
  unfold Encoder.set_max_table_size. rewrite Hs, set_max_size_spec by done. cbn [rbind].
  unfold Encoder.encode_size_update. rewrite push_integer_spec by (auto || lia).
  destruct (literal_first 0x20 5 m [] ltac:(lia) ltac:(lia)) as (x & r & Ho & Hx & Hlen).
  rewrite app_nil_r in Ho, Hlen. cbn [app].
  eexists (octets m 5 0x20), _, (d <| Decoder.dynamic_table :=
    DynamicTable.mk (fit m (DynamicTable.entries (Decoder.dynamic_table d)))
      (total (fit m (DynamicTable.entries (Decoder.dynamic_table d)))) m |>).
  split; [done|]. split; [done|].
  split; [|split; [|do 3 (split; [done|]); by apply octets_bytes_ok; auto; lia]].
  - intros rest. unfold Decoder.decode_representation. rewrite Ho at 1. cbn [app]. rewrite index_cons_0.
    unfold bind at 1 2, lift at 1, gets at 1. change (2 ^ 5) with 32 in Hx.
    destruct (first_byte_class (32 + x) ltac:(unfold u8_ok; lia)) as (-> & -> & -> & _).
    replace (32 + x <? 128) with true by lia.
    replace ((32 + x) mod 128 <? 64) with true by (rewrite Z.mod_small; lia).
    replace ((32 + x) mod 64 <? 32) with false by (rewrite Z.mod_small; lia). cbn [negb].
    unfold bind, ret, Decoder.decode_size_update, bind, lift, gets, modify, throw, ret.
    rewrite decode_octets by (auto || lia).
    replace (m >? Decoder.max_table_size d) with false by lia.
    by rewrite set_max_size_spec by done.
  - split; [done|]. split; [by apply wf_fit; [|apply wf_entries]|cbn; lia].
Qed.

(** ** Properties *)

(** C30: Encoding a header list and decoding it gives the list back, fields in
    order and with their sensitive flags, and leaves the dynamic tables of both
    ends equal, so the next block can be sent; encoding never fails. *)
Theorem hpack_roundtrip hs e d :
  sync e d -> Forall sendable_field hs -> within_limit d (Decoder.list_size hs) ->
  exists out e' d', Encoder.encode e [] hs = Ok (out, e') /\ bytes_ok out /\
    Decoder.decode out d = (Ok hs, d') /\ sync e' d' /\
    Decoder.max_table_size d' = Decoder.max_table_size d /\
    Decoder.max_header_list_size d' = Decoder.max_header_list_size d.
Proof. apply decode_encode. Qed.

Definition sample_headers : list HeaderField.t :=
  [HeaderField.mk (bstr ":method") (bstr "GET") false;
   HeaderField.mk (bstr "cookie") (bstr "secret") true;
   HeaderField.mk (bstr "x-a") (bstr "1") false].

Lemma hpack_roundtrip_witness :
  exists out e' d', Encoder.encode (Encoder.new 4096) [] sample_headers = Ok (out, e') /\ bytes_ok out /\
    Decoder.decode out (Decoder.new 4096) = (Ok sample_headers, d') /\ sync e' d' /\
    Decoder.max_table_size d' = Decoder.max_table_size (Decoder.new 4096) /\
    Decoder.max_header_list_size d' = Decoder.max_header_list_size (Decoder.new 4096).
Proof.
  apply (hpack_roundtrip sample_headers (Encoder.new 4096) (Decoder.new 4096)).
  - apply sync_new. lia.
  - unfold sample_headers. repeat constructor; vm_compute; congruence.
  - split; [vm_compute; congruence|done].
Defined.

(** C34: On any octets the decoder terminates without a panic, keeps its table
    within the size it advertised, and never delivers a header list larger than
    [SETTINGS_MAX_HEADER_LIST_SIZE] (in the measure of RFC 9113). *)
Theorem hpack_decoder_safe data d :
  Decoder.wf d -> bytes_ok data -> (forall m, Decoder.max_header_list_size d = Some m -> 0 <= m) ->
  keeps (block_ok d) d (Decoder.decode data d).
Proof. apply decode_keeps. Qed.

Lemma hpack_decoder_safe_witness :
  keeps (block_ok (Decoder.new 4096)) (Decoder.new 4096) (Decoder.decode [0x82; 0x40; 1; 97; 1; 98] (Decoder.new 4096)).
Proof.
  apply (hpack_decoder_safe [0x82; 0x40; 1; 97; 1; 98] (Decoder.new 4096)).
  - apply (sync_new 4096). lia.
  - repeat constructor; vm_compute; congruence.
  - done.
Defined.

(** When the encoder changes the size of its table and announces it, the
    decoder follows and the tables are equal again, as long as the new size is
    within what the decoder allows. *)
Theorem hpack_size_update_resyncs e d m :
  sync e d -> 0 <= m <= Decoder.max_table_size d -> m < 2 ^ 62 ->
  exists out e' d', Encoder.set_max_table_size m e = Ok e' /\
    Encoder.encode_size_update e' [] m = Ok out /\
    (forall rest, Decoder.decode_representation (out ++ rest) false d = (Ok (None, len out, false), d')) /\
    sync e' d' /\ Decoder.max_table_size d' = Decoder.max_table_size d.
Proof.
  intros Hs Hm Hm62. destruct (size_update_sync e d m Hs Hm Hm62) as (out & e' & d' & H). naive_solver.
Qed.

Lemma hpack_size_update_resyncs_witness :
  exists out e' d', Encoder.set_max_table_size 100 (Encoder.new 4096) = Ok e' /\
    Encoder.encode_size_update e' [] 100 = Ok out /\
    (forall rest, Decoder.decode_representation (out ++ rest) false (Decoder.new 4096)
                  = (Ok (None, len out, false), d')) /\
    sync e' d' /\ Decoder.max_table_size d' = Decoder.max_table_size (Decoder.new 4096).
Proof.
  apply (hpack_size_update_resyncs (Encoder.new 4096) (Decoder.new 4096) 100);
    [apply sync_new; lia|cbn; lia|lia].
Defined.
