(* ===== verification/Validation.v ===== *)
(** * Validation: which header lists are well-formed messages

    Models [src/src/validation.rs].  Every error is a stream error of type
    PROTOCOL_ERROR; the [ValidationError] it is built from is its reason. *)

From S2P Require Import Prelude Errors Syntax HpackTable.

Module ValidationError.

Inductive t : Type :=
| InvalidHeaderField (e : HeaderFieldError.t)
| MissingPseudoHeader (name : string)
| DuplicatePseudoHeader (name : string)
| PseudoHeaderAfterRegular
| DisallowedPseudoHeader (name : list Z)
| PseudoHeaderInTrailers (name : list Z)
| ForbiddenHeader (name : list Z)
| InvalidTeHeader
| EmptyPath
| AsteriskPathOnNonOptions
| ConnectWithPathOrScheme
| ConnectInvalidAuthority
| NonConnectMissingPathOrScheme
| ExtendedConnectMissingSchemeOrPath
| ExtendedConnectInvalidAuthority
| ProtocolOnNonConnect
| HostAuthorityMismatch
| AuthorityWithUserinfo
| MissingAuthority
| Status101NotSupported
| WebTransportRequiresHttps.

(** The text of the error, as a template. *)
Definition to_string (e : t) : string :=
  match e with
  | InvalidHeaderField _ => "invalid header field: {e}"
  | MissingPseudoHeader _ => "missing required pseudo-header: {name}"
  | DuplicatePseudoHeader _ => "duplicate pseudo-header: {name}"
  | PseudoHeaderAfterRegular => "pseudo-header after regular header"
  | DisallowedPseudoHeader _ => "pseudo-header not allowed in this context: {}"
  | PseudoHeaderInTrailers _ => "pseudo-header not allowed in trailers: {}"
  | ForbiddenHeader _ => "forbidden header: {}"
  | InvalidTeHeader => "TE header with value other than 'trailers'"
  | EmptyPath => ":path is empty"
  | AsteriskPathOnNonOptions => ":path '*' is only allowed for OPTIONS requests"
  | ConnectWithPathOrScheme => "CONNECT request must not include :path or :scheme"
  | ConnectInvalidAuthority => "CONNECT :authority must be in authority-form (host:port)"
  | NonConnectMissingPathOrScheme => "non-CONNECT request must include :path and :scheme"
  | ExtendedConnectMissingSchemeOrPath => "Extended CONNECT request must include :scheme and :path"
  | ExtendedConnectInvalidAuthority =>
      "Extended CONNECT :authority must be a valid authority (host[:port])"
  | ProtocolOnNonConnect => ":protocol is only allowed with CONNECT method"
  | HostAuthorityMismatch => "Host header differs from :authority pseudo-header"
  | AuthorityWithUserinfo => ":authority must not include userinfo"
  | MissingAuthority => "http/https request must include :authority or Host header"
  | Status101NotSupported => ":status 101 is not supported over HTTP/2"
  | WebTransportRequiresHttps =>
      ":protocol=webtransport requires :scheme=https (draft-ietf-webtrans-http2-16 Section 3.2)"
  end.

End ValidationError.

Module Validation.

Definition malformed_error (e : ValidationError.t) : Error.t :=
  Error.stream_error ErrorCode.ProtocolError (ValidationError.to_string e).

(** ** Octet strings *)

Definition to_ascii_lowercase (b : Z) : Z := if Syntax.is_ascii_uppercase b then b + 32 else b.
Definition eq_ignore_ascii_case (a b : list Z) : bool :=
  bytes_eqb (map to_ascii_lowercase a) (map to_ascii_lowercase b).

Definition strip_suffix (l suffix : list Z) : option (list Z) :=
  if starts_with (rev l) (rev suffix) then Some (take (length l - length suffix) l) else None.

(** [iter().position(p)] and [iter().rposition(p)]. *)
Fixpoint position (p : Z -> bool) (l : list Z) (i : Z) : option Z :=
  match l with
  | [] => None
  | b :: l => if p b then Some i else position p l (i + 1)
  end.
Fixpoint rposition (p : Z -> bool) (l : list Z) (i : Z) : option Z :=
  match l with
  | [] => None
  | b :: l =>
      match rposition p l (i + 1) with
      | Some k => Some k
      | None => if p b then Some i else None
      end
  end.

Definition is_ascii_hexdigit (b : Z) : bool :=
  Syntax.is_ascii_digit b || Syntax.in_range 97 102 b || Syntax.in_range 65 70 b.

Definition strip_default_port (authority : list Z) (scheme : option (list Z)) : list Z :=
  let strip port := match strip_suffix authority port with Some a => a | None => authority end in
  match scheme with
  | Some s =>
      if eq_ignore_ascii_case s (bstr "http") then strip (bstr ":80")
      else if eq_ignore_ascii_case s (bstr "https") then strip (bstr ":443")
      else authority
  | None => authority
  end.

(** ** Authorities *)

(** [s.parse::<u32>()] on decimal digits. *)
Fixpoint parse_u32 (l : list Z) (acc : Z) : option Z :=
  match l with
  | [] => Some acc
  | b :: l =>
      let acc := acc * 10 + (b - 48) in
      if acc <=? U32_MAX then parse_u32 l acc else None
  end.

Definition is_valid_port (port : list Z) : bool :=
  if (len port =? 0) || negb (forallb Syntax.is_ascii_digit port) then false
  else match parse_u32 port 0 with
       | None => false
       | Some n => n <=? 65535
       end.

Definition is_valid_ipv6_literal_chars (inner : list Z) : bool :=
  negb (len inner =? 0) &&
  forallb (fun b => is_ascii_hexdigit b || (b =? 58) || (b =? 46)) inner.

(** ['-' '.' '_' '~' '!' '$' '&' ''' '(' ')' '*' '+' ',' ';' '=']. *)
Definition is_reg_name_byte (b : Z) : bool :=
  Syntax.is_ascii_alphanumeric b ||
  existsb (Z.eqb b) [45; 46; 95; 126; 33; 36; 38; 39; 40; 41; 42; 43; 44; 59; 61].

(** [while i < host.len()] over [host[i..]]. *)
Fixpoint reg_name_loop (rest : list Z) : bool :=
  match rest with
  | [] => true
  | b :: rest =>
      if b =? 37 then
        match rest with
        | h1 :: h2 :: rest =>
            if negb (is_ascii_hexdigit h1) || negb (is_ascii_hexdigit h2) then false
            else reg_name_loop rest
        | _ => false
        end
      else if negb (is_reg_name_byte b) then false
      else reg_name_loop rest
  end.

Definition is_valid_reg_name (host : list Z) : bool :=
  if len host =? 0 then false else reg_name_loop host.

Definition is_valid_authority (authority : list Z) (port_required : bool) : Result bool :=
  if len authority =? 0 then Ok false
  else if starts_with authority (bstr "[") then
    match position (Z.eqb 93) authority 0 with
    | None => Ok false
    | Some bracket_end =>
        let? inner := slice authority 1 bracket_end in
        if negb (is_valid_ipv6_literal_chars inner) then Ok false
        else
          let? rest := slice_from authority (bracket_end + 1) in
          if len rest =? 0 then Ok (negb port_required)
          else if negb (starts_with rest (bstr ":")) then Ok false
          else let? port := slice_from rest 1 in Ok (is_valid_port port)
    end
  else
    let? (host, port) :=
      match rposition (Z.eqb 58) authority 0 with
      | Some colon_pos =>
          let? host := slice authority 0 colon_pos in
          let? port := slice_from authority (colon_pos + 1) in
          Ok (host, Some port)
      | None => Ok (authority, None)
      end in
    if negb (is_valid_reg_name host) then Ok false
    else match port with
         | Some port => Ok (is_valid_port port)
         | None => Ok (negb port_required)
         end.

Definition is_valid_connect_authority (authority : list Z) : Result bool :=
  is_valid_authority authority true.
Definition is_valid_extended_connect_authority (authority : list Z) : Result bool :=
  is_valid_authority authority false.

(** ** Single fields *)

Definition check_field (header : HeaderField.t) : Result unit :=
  let name := HeaderField.name header in
  let value := HeaderField.value header in
  let wrap e := malformed_error (ValidationError.InvalidHeaderField e) in
  let? _ := map_err wrap (Syntax.validate_field_name name) in
  let? _ := map_err wrap (Syntax.validate_field_value name value) in
  map_err wrap (Syntax.validate_pseudo_header name value).

Definition validate_forbidden_header_common (name : list Z) : Result unit :=
  if eq_ignore_ascii_case name (bstr "connection")
     || eq_ignore_ascii_case name (bstr "keep-alive")
     || eq_ignore_ascii_case name (bstr "proxy-connection")
     || eq_ignore_ascii_case name (bstr "transfer-encoding")
     || eq_ignore_ascii_case name (bstr "upgrade")
  then Err (malformed_error (ValidationError.ForbiddenHeader name))
  else Ok tt.

Definition validate_forbidden_header_for_request (name value : list Z) : Result unit :=
  let? _ := validate_forbidden_header_common name in
  if eq_ignore_ascii_case name (bstr "te")
     && negb (eq_ignore_ascii_case value (bstr "trailers"))
  then Err (malformed_error ValidationError.InvalidTeHeader)
  else Ok tt.

Definition validate_forbidden_header_for_response (name : list Z) : Result unit :=
  let? _ := validate_forbidden_header_common name in
  if eq_ignore_ascii_case name (bstr "te")
  then Err (malformed_error (ValidationError.ForbiddenHeader name))
  else Ok tt.

(** ** Requests *)

(** The local variables of [validate_request_headers]. *)
Record scan : Type := Scan {
  seen_method : bool; seen_scheme : bool; seen_authority : bool; seen_path : bool;
  seen_protocol : bool;
  protocol_value : option (list Z);
  past_pseudo : bool;
  method : option (list Z);
  scheme_value : option (list Z);
  authority_value : option (list Z);
  host_value : option (list Z);
  path_value : option (list Z)
}.

#[global] Instance eta_scan : Eta scan := fun s =>
  Scan (seen_method s) (seen_scheme s) (seen_authority s) (seen_path s) (seen_protocol s)
    (protocol_value s) (past_pseudo s) (method s) (scheme_value s) (authority_value s)
    (host_value s) (path_value s).

Definition scan_start : scan :=
  Scan false false false false false None false None None None None None.

Definition duplicate (name : string) : Result scan :=
  Err (malformed_error (ValidationError.DuplicatePseudoHeader name)).

(** The body of the loop over the headers. *)
Definition scan_request_header (header : HeaderField.t) (s : scan) : Result scan :=
  let? _ := check_field header in
  let name := HeaderField.name header in
  let value := HeaderField.value header in
  if starts_with name (bstr ":") then
    if past_pseudo s then Err (malformed_error ValidationError.PseudoHeaderAfterRegular)
    else if bytes_eqb name (bstr ":method") then
      if seen_method s then duplicate ":method"
      else Ok (s <| seen_method := true |> <| method := Some value |>)
    else if bytes_eqb name (bstr ":scheme") then
      if seen_scheme s then duplicate ":scheme"
      else Ok (s <| seen_scheme := true |> <| scheme_value := Some value |>)
    else if bytes_eqb name (bstr ":authority") then
      if seen_authority s then duplicate ":authority"
      else Ok (s <| seen_authority := true |> <| authority_value := Some value |>)
    else if bytes_eqb name (bstr ":path") then
      if seen_path s then duplicate ":path"
      else Ok (s <| path_value := Some value |> <| seen_path := true |>)
    else if bytes_eqb name (bstr ":protocol") then
      if seen_protocol s then duplicate ":protocol"
      else Ok (s <| seen_protocol := true |> <| protocol_value := Some value |>)
    else if bytes_eqb name (bstr ":status") then
      Err (malformed_error (ValidationError.DisallowedPseudoHeader name))
    else Err (malformed_error (ValidationError.DisallowedPseudoHeader name))
  else
    let s := s <| past_pseudo := true |> in
    let? _ := validate_forbidden_header_for_request name value in
    if eq_ignore_ascii_case name (bstr "host")
    then Ok (s <| host_value := Some value |>)
    else Ok s.

Fixpoint scan_request (headers : list HeaderField.t) (s : scan) : Result scan :=
  match headers with
  | [] => Ok s
  | header :: headers => let? s := scan_request_header header s in scan_request headers s
  end.

Definition opt_eqb (o : option (list Z)) (v : list Z) : bool :=
  match o with Some x => bytes_eqb x v | None => false end.
Definition opt_eq_nocase (o : option (list Z)) (v : list Z) : bool :=
  match o with Some x => eq_ignore_ascii_case x v | None => false end.
Definition is_http_scheme (o : option (list Z)) : bool :=
  opt_eq_nocase o (bstr "http") || opt_eq_nocase o (bstr "https").

(** What follows the loop. *)
Definition check_request (s : scan) : Result unit :=
  let err e := Err (malformed_error e) in
  if match authority_value s, host_value s with
     | Some authority, Some host =>
         negb (eq_ignore_ascii_case (strip_default_port authority (scheme_value s))
                 (strip_default_port host (scheme_value s)))
     | _, _ => false
     end
  then err ValidationError.HostAuthorityMismatch
  else if negb (seen_method s) then err (ValidationError.MissingPseudoHeader ":method")
  else if match authority_value s with
          | Some authority =>
              existsb (Z.eqb 64) authority &&
              (is_http_scheme (scheme_value s) || opt_eqb (method s) (bstr "CONNECT"))
          | None => false
          end
  then err ValidationError.AuthorityWithUserinfo
  else if opt_eqb (method s) (bstr "CONNECT") then
    if seen_protocol s then
      if negb (seen_scheme s) then err ValidationError.ExtendedConnectMissingSchemeOrPath
      else if negb (seen_path s) then err ValidationError.ExtendedConnectMissingSchemeOrPath
      else if negb (seen_authority s) then err (ValidationError.MissingPseudoHeader ":authority")
      else
        let? valid := match authority_value s with
                      | Some authority => is_valid_extended_connect_authority authority
                      | None => Ok true
                      end in
        if negb valid then err ValidationError.ExtendedConnectInvalidAuthority
        else if opt_eqb (protocol_value s) (bstr "webtransport")
                && negb (opt_eq_nocase (scheme_value s) (bstr "https"))
        then err ValidationError.WebTransportRequiresHttps
        else Ok tt
    else if seen_path s || seen_scheme s then err ValidationError.ConnectWithPathOrScheme
    else if negb (seen_authority s) then err (ValidationError.MissingPseudoHeader ":authority")
    else
      let? valid := match authority_value s with
                    | Some authority => is_valid_connect_authority authority
                    | None => Ok true
                    end in
      if negb valid then err ValidationError.ConnectInvalidAuthority else Ok tt
  else if seen_protocol s then err ValidationError.ProtocolOnNonConnect
  else if negb (seen_scheme s) then err (ValidationError.MissingPseudoHeader ":scheme")
  else if negb (seen_path s) then err (ValidationError.MissingPseudoHeader ":path")
  else if opt_eqb (path_value s) (bstr "*") && negb (opt_eqb (method s) (bstr "OPTIONS"))
  then err ValidationError.AsteriskPathOnNonOptions
  else if is_http_scheme (scheme_value s) && opt_eqb (path_value s) []
  then err ValidationError.EmptyPath
  else if is_http_scheme (scheme_value s) && negb (seen_authority s)
          && match host_value s with None => true | Some _ => false end
  then err ValidationError.MissingAuthority
  else Ok tt.

Definition validate_request_headers (headers : list HeaderField.t) : Result unit :=
  let? s := scan_request headers scan_start in check_request s.

(** ** Responses and trailers *)

Fixpoint scan_response (headers : list HeaderField.t) (seen_status past_pseudo : bool)
  : Result unit :=
  match headers with
  | [] =>
      if negb seen_status
      then Err (malformed_error (ValidationError.MissingPseudoHeader ":status"))
      else Ok tt
  | header :: headers =>
      let? _ := check_field header in
      let name := HeaderField.name header in
      if starts_with name (bstr ":") then
        if past_pseudo then Err (malformed_error ValidationError.PseudoHeaderAfterRegular)
        else if bytes_eqb name (bstr ":status") then
          if seen_status
          then Err (malformed_error (ValidationError.DuplicatePseudoHeader ":status"))
          else if bytes_eqb (HeaderField.value header) (bstr "101")
          then Err (malformed_error ValidationError.Status101NotSupported)
          else scan_response headers true past_pseudo
        else Err (malformed_error (ValidationError.DisallowedPseudoHeader name))
      else
        let? _ := validate_forbidden_header_for_response name in
        scan_response headers seen_status true
  end.

Definition validate_response_headers (headers : list HeaderField.t) : Result unit :=
  scan_response headers false false.

Fixpoint validate_trailers (headers : list HeaderField.t) : Result unit :=
  match headers with
  | [] => Ok tt
  | header :: headers =>
      let? _ := check_field header in
      let name := HeaderField.name header in
      if starts_with name (bstr ":")
      then Err (malformed_error (ValidationError.PseudoHeaderInTrailers name))
      else
        let? _ := validate_forbidden_header_for_response name in
        validate_trailers headers
  end.

(** ** Specification *)

(** The first value of a field, and the last value of [host]. *)
Fixpoint first_value (n : list Z) (hs : list HeaderField.t) : option (list Z) :=
  match hs with
  | [] => None
  | h :: hs => if bytes_eqb (HeaderField.name h) n then Some (HeaderField.value h) else first_value n hs
  end.
Fixpoint last_host (hs : list HeaderField.t) : option (list Z) :=
  match hs with
  | [] => None
  | h :: hs =>
      match last_host hs with
      | Some v => Some v
      | None => if eq_ignore_ascii_case (HeaderField.name h) (bstr "host")
                   && negb (starts_with (HeaderField.name h) (bstr ":"))
                then Some (HeaderField.value h) else None
      end
  end.

Definition is_pseudo (h : HeaderField.t) : bool := starts_with (HeaderField.name h) (bstr ":").
Definition field_ok (h : HeaderField.t) : bool :=
  Syntax.field_ok (HeaderField.name h) (HeaderField.value h).

(** Fields that make sense only on one HTTP/1 connection. *)
Definition connection_specific (name : list Z) : bool :=
  existsb (eq_ignore_ascii_case name)
    (map bstr ["connection"; "keep-alive"; "proxy-connection"; "transfer-encoding"; "upgrade"]%string).

Definition request_names : list (list Z) :=
  map bstr [":method"; ":scheme"; ":authority"; ":path"; ":protocol"]%string.

Definition regular_request_ok (h : HeaderField.t) : bool :=
  negb (connection_specific (HeaderField.name h)) &&
  negb (eq_ignore_ascii_case (HeaderField.name h) (bstr "te")
        && negb (eq_ignore_ascii_case (HeaderField.value h) (bstr "trailers"))).
Definition regular_response_ok (h : HeaderField.t) : bool :=
  negb (connection_specific (HeaderField.name h)) &&
  negb (eq_ignore_ascii_case (HeaderField.name h) (bstr "te")).

(** Pseudo-header fields first, each of them known and given once; then regular
    fields, none of them connection-specific. *)
Definition request_fields_ok (hs : list HeaderField.t) : Prop :=
  Forall (fun h => field_ok h = true) hs /\
  exists ps rs, hs = ps ++ rs /\
    Forall (fun h => is_pseudo h = true /\ HeaderField.name h ∈ request_names) ps /\
    NoDup (map HeaderField.name ps) /\
    Forall (fun h => is_pseudo h = false /\ regular_request_ok h = true) rs.

(** What the fields must say together. *)
Definition request_semantics (hs : list HeaderField.t) : Prop :=
  let m := first_value (bstr ":method") hs in
  let scheme := first_value (bstr ":scheme") hs in
  let authority := first_value (bstr ":authority") hs in
  let path := first_value (bstr ":path") hs in
  let protocol := first_value (bstr ":protocol") hs in
  let host := last_host hs in
  is_Some m /\
  (forall a h, authority = Some a -> host = Some h ->
     eq_ignore_ascii_case (strip_default_port a scheme) (strip_default_port h scheme) = true) /\
  (forall a, authority = Some a -> existsb (Z.eqb 64) a = true ->
     is_http_scheme scheme = false /\ m <> Some (bstr "CONNECT")) /\
  if opt_eqb m (bstr "CONNECT") then
    match protocol with
    | Some pr =>
        is_Some scheme /\ is_Some path /\
        (exists a, authority = Some a /\ is_valid_extended_connect_authority a = Ok true) /\
        (pr = bstr "webtransport" -> opt_eq_nocase scheme (bstr "https") = true)
    | None =>
        scheme = None /\ path = None /\
        exists a, authority = Some a /\ is_valid_connect_authority a = Ok true
    end
  else
    protocol = None /\ is_Some scheme /\ is_Some path /\
    (path = Some (bstr "*") -> m = Some (bstr "OPTIONS")) /\
    (is_http_scheme scheme = true -> path <> Some [] /\ (is_Some authority \/ is_Some host)).

(** The local variables after the fields [hs]. *)
Definition seen (o : option (list Z)) : bool := match o with Some _ => true | None => false end.
Definition summary (hs : list HeaderField.t) : scan :=
  let m := first_value (bstr ":method") hs in
  let scheme := first_value (bstr ":scheme") hs in
  let authority := first_value (bstr ":authority") hs in
  let path := first_value (bstr ":path") hs in
  let protocol := first_value (bstr ":protocol") hs in
  Scan (seen m) (seen scheme) (seen authority) (seen path) (seen protocol) protocol
    (existsb (fun h => negb (is_pseudo h)) hs) m scheme authority (last_host hs) path.

End Validation.

(** ** Lemmas: single fields *)
Import Validation.

Lemma check_field_spec h :
  if field_ok h then check_field h = Ok tt else exists e, check_field h = Err (malformed_error e).
Proof.
  unfold check_field, field_ok, Syntax.field_ok.
  rewrite <- (validate_field_name_spec (HeaderField.name h)),
    <- (validate_field_value_spec (HeaderField.name h) (HeaderField.value h)),
    <- (validate_pseudo_header_spec (HeaderField.name h) (HeaderField.value h)).
  pose proof (validate_no_panic (HeaderField.name h) (HeaderField.value h)) as (H1 & H2 & H3).
  destruct (Syntax.validate_field_name _) as [[]|e|]; cbn; [|by eexists|done].
  destruct (Syntax.validate_field_value _ _) as [[]|e|]; cbn; [|by eexists|done].
  destruct (Syntax.validate_pseudo_header _ _) as [[]|e|]; cbn; [done|by eexists|done].
Qed.

Lemma forbidden_common_spec name :
  validate_forbidden_header_common name =
  if connection_specific name then Err (malformed_error (ValidationError.ForbiddenHeader name)) else Ok tt.
Proof.
  unfold validate_forbidden_header_common, connection_specific. cbn [existsb map].
  rewrite orb_false_r, !orb_assoc. done.
Qed.

Lemma forbidden_request_spec h :
  if regular_request_ok h
  then validate_forbidden_header_for_request (HeaderField.name h) (HeaderField.value h) = Ok tt
  else exists e, validate_forbidden_header_for_request (HeaderField.name h) (HeaderField.value h)
       = Err (malformed_error e).
Proof.
  unfold validate_forbidden_header_for_request, regular_request_ok. rewrite forbidden_common_spec.
  destruct (connection_specific _); cbn; [by eexists|].
  destruct (eq_ignore_ascii_case _ _ && _); cbn; [by eexists|done].
Qed.

Lemma forbidden_response_spec h :
  if regular_response_ok h
  then validate_forbidden_header_for_response (HeaderField.name h) = Ok tt
  else exists e, validate_forbidden_header_for_response (HeaderField.name h) = Err (malformed_error e).
Proof.
  unfold validate_forbidden_header_for_response, regular_response_ok. rewrite forbidden_common_spec.
  destruct (connection_specific _); cbn; [by eexists|].
  destruct (eq_ignore_ascii_case _ _); cbn; [by eexists|done].
Qed.

Lemma first_value_app n p h :
  first_value n (p ++ [h]) =
  match first_value n p with
  | Some v => Some v
  | None => if bytes_eqb (HeaderField.name h) n then Some (HeaderField.value h) else None
  end.
Proof.
  induction p as [|x p IH]; [done|]. cbn.
  destruct (bytes_eqb (HeaderField.name x) n); [done|exact IH].
Qed.

Lemma last_host_app p h :
  last_host (p ++ [h]) =
  if eq_ignore_ascii_case (HeaderField.name h) (bstr "host") && negb (is_pseudo h)
  then Some (HeaderField.value h) else last_host p.
Proof.
  unfold is_pseudo. induction p as [|x p IH]; cbn -[bstr].
  - done.
  - rewrite IH. by destruct (_ && negb (starts_with (HeaderField.name h) _)).
Qed.

Lemma first_value_seen n hs :
  seen (first_value n hs) = existsb (fun x => bytes_eqb (HeaderField.name x) n) hs.
Proof. induction hs as [|x hs IH]; [done|]. cbn. by destruct (bytes_eqb _ _). Qed.

(** ** Lemmas: the scan of a request *)

(** The field [h] may follow the fields [p]. *)
Definition step_ok (p : list HeaderField.t) (h : HeaderField.t) : bool :=
  field_ok h &&
  if is_pseudo h then
    negb (existsb (fun x => negb (is_pseudo x)) p) &&
    existsb (bytes_eqb (HeaderField.name h)) request_names &&
    negb (existsb (fun x => bytes_eqb (HeaderField.name x) (HeaderField.name h)) p)
  else regular_request_ok h.

Fixpoint steps_ok (p hs : list HeaderField.t) : bool :=
  match hs with
  | [] => true
  | h :: hs => step_ok p h && steps_ok (p ++ [h]) hs
  end.

Lemma summary_pseudo p h :
  is_pseudo h = true ->
  summary (p ++ [h]) =
  let v n := first_value n (p ++ [h]) in
  Scan (seen (v (bstr ":method"))) (seen (v (bstr ":scheme"))) (seen (v (bstr ":authority")))
    (seen (v (bstr ":path"))) (seen (v (bstr ":protocol"))) (v (bstr ":protocol"))
    (past_pseudo (summary p)) (v (bstr ":method")) (v (bstr ":scheme")) (v (bstr ":authority"))
    (host_value (summary p)) (v (bstr ":path")).
Proof.
  intros Hp. unfold summary. cbn [past_pseudo host_value]. cbv zeta.
  rewrite last_host_app, existsb_app, Hp. cbn [existsb negb].
  by rewrite Hp, andb_false_r, !orb_false_r.
Qed.

Lemma option_eta {A} (o : option A) : match o with Some v => Some v | None => None end = o.
Proof. by destruct o. Qed.

(** Evaluates comparisons of literal names. *)
Ltac eval_names :=
  repeat match goal with
  | |- context [ bytes_eqb (bstr ?a) (bstr ?b) ] =>
      let r := eval vm_compute in (bytes_eqb (bstr a) (bstr b)) in
      change (bytes_eqb (bstr a) (bstr b)) with r
  end; cbv iota.

Lemma step_pseudo p h :
  is_pseudo h = true -> field_ok h = true ->
  existsb (fun x => negb (is_pseudo x)) p = false ->
  if existsb (bytes_eqb (HeaderField.name h)) request_names &&
     negb (existsb (fun x => bytes_eqb (HeaderField.name x) (HeaderField.name h)) p)
  then scan_request_header h (summary p) = Ok (summary (p ++ [h]))
  else exists e, scan_request_header h (summary p) = Err (malformed_error e).
Proof.
  intros Hp Hf Hr. unfold scan_request_header. pose proof (check_field_spec h) as Hc.
  rewrite Hf in Hc. rewrite Hc. cbn [rbind]. pose proof Hp as Hp'. unfold is_pseudo in Hp'. rewrite Hp'.
  assert (past_pseudo (summary p) = false) as Hpast by exact Hr. rewrite Hpast.
  rewrite summary_pseudo by done. rewrite Hpast. cbv zeta beta. rewrite !first_value_app.
  unfold request_names. cbn [map existsb].
  destruct h as [name value sens]. cbn [HeaderField.name HeaderField.value] in *.
  assert (forall n, seen (first_value n p) = existsb (fun x => bytes_eqb (HeaderField.name x) n) p)
    as Hseen by (intros; apply first_value_seen).
  destruct (bytes_eqb name (bstr ":method")) eqn:E1;
    [apply bytes_eqb_eq in E1; subst name|
  destruct (bytes_eqb name (bstr ":scheme")) eqn:E2;
    [apply bytes_eqb_eq in E2; subst name|
  destruct (bytes_eqb name (bstr ":authority")) eqn:E3;
    [apply bytes_eqb_eq in E3; subst name|
  destruct (bytes_eqb name (bstr ":path")) eqn:E4;
    [apply bytes_eqb_eq in E4; subst name|
  destruct (bytes_eqb name (bstr ":protocol")) eqn:E5;
    [apply bytes_eqb_eq in E5; subst name|]]]]].
  1-5: rewrite <- Hseen; unfold summary; cbv zeta;
    cbn [seen_method seen_scheme seen_authority seen_path seen_protocol orb andb];
    match goal with |- context [ negb (seen ?o) ] => destruct o eqn:?; cbn [seen negb andb];
      [by eexists|] end;
    eval_names; by rewrite ?option_eta, Hr.
  cbn [orb andb]. destruct (bytes_eqb name (bstr ":status")); by eexists.
Qed.

Lemma not_request_name h n :
  is_pseudo h = false -> n ∈ request_names -> bytes_eqb (HeaderField.name h) n = false.
Proof.
  intros Hp Hn. apply bytes_eqb_neq. intros <-. revert Hp.
  unfold request_names in Hn. cbn [map] in Hn. unfold is_pseudo.
  repeat (apply elem_of_cons in Hn as [->|Hn]; [done|]). by apply elem_of_nil in Hn.
Qed.

Lemma step_regular p h :
  is_pseudo h = false -> field_ok h = true ->
  if regular_request_ok h
  then scan_request_header h (summary p) = Ok (summary (p ++ [h]))
  else exists e, scan_request_header h (summary p) = Err (malformed_error e).
Proof.
  intros Hp Hf. unfold scan_request_header. pose proof (check_field_spec h) as Hc.
  rewrite Hf in Hc. rewrite Hc. cbn [rbind]. pose proof Hp as Hp'. unfold is_pseudo in Hp'. rewrite Hp'.
  pose proof (forbidden_request_spec h) as Hreg. destruct (regular_request_ok h).
  - rewrite Hreg. cbn [rbind]. unfold summary. cbv zeta.
    rewrite !first_value_app, !(not_request_name h) by
      (done || (unfold request_names; cbn [map]; rewrite !elem_of_cons; tauto)).
    rewrite last_host_app, existsb_app. cbn [existsb]. rewrite Hp, !option_eta. cbn [negb].
    rewrite andb_true_r, orb_true_r. by destruct (eq_ignore_ascii_case _ _).
  - destruct Hreg as [e ->]. by eexists.
Qed.

Lemma scan_step p h :
  if step_ok p h
  then scan_request_header h (summary p) = Ok (summary (p ++ [h]))
  else exists e, scan_request_header h (summary p) = Err (malformed_error e).
Proof.
  unfold step_ok. destruct (field_ok h) eqn:Hf; cbn [andb].
  - destruct (is_pseudo h) eqn:Hp; [|by apply step_regular].
    destruct (existsb (fun x => negb (is_pseudo x)) p) eqn:Hr; cbn [negb andb]; [|by apply step_pseudo].
    unfold scan_request_header. pose proof (check_field_spec h) as Hc. rewrite Hf in Hc. rewrite Hc.
    cbn [rbind]. unfold is_pseudo in Hp. rewrite Hp.
    assert (past_pseudo (summary p) = true) as -> by exact Hr. by eexists.
  - unfold scan_request_header. pose proof (check_field_spec h) as Hc. rewrite Hf in Hc.
    destruct Hc as [e ->]. by eexists.
Qed.

Lemma scan_request_spec p hs :
  if steps_ok p hs
  then scan_request hs (summary p) = Ok (summary (p ++ hs))
  else exists e, scan_request hs (summary p) = Err (malformed_error e).
Proof.
  revert p. induction hs as [|h hs IH]; intros p; cbn [steps_ok scan_request]; [by rewrite app_nil_r|].
  pose proof (scan_step p h) as Hs. destruct (step_ok p h); cbn [andb].
  - rewrite Hs. cbn [rbind]. specialize (IH (p ++ [h])). by rewrite <- app_assoc in IH.
  - destruct Hs as [e ->]. by eexists.
Qed.

(** After a regular field, only regular fields. *)
Lemma steps_ok_regular p hs :
  existsb (fun x => negb (is_pseudo x)) p = true ->
  steps_ok p hs = true <->
  Forall (fun h => field_ok h = true) hs /\
  Forall (fun h => is_pseudo h = false /\ regular_request_ok h = true) hs.
Proof.
  revert p. induction hs as [|h hs IH]; intros p Hp; cbn [steps_ok].
  { split; [by split; constructor|done]. }
  rewrite andb_true_iff, IH, !Forall_cons by (rewrite existsb_app, Hp; done).
  unfold step_ok. rewrite Hp. destruct (field_ok h), (is_pseudo h); cbn; naive_solver.
Qed.

Lemma existsb_name_in n l :
  existsb (fun x => bytes_eqb (HeaderField.name x) n) l = true <-> n ∈ map HeaderField.name l.
Proof.
  rewrite existsb_exists. split.
  - intros (x & Hx & <-%bytes_eqb_eq). apply list_elem_of_fmap. exists x.
    split; [done|by apply list_elem_of_In].
  - intros (x & -> & Hx)%list_elem_of_fmap. exists x. rewrite bytes_eqb_refl.
    split; [by apply list_elem_of_In|done].
Qed.

Lemma in_request_names n : existsb (bytes_eqb n) request_names = true <-> n ∈ request_names.
Proof.
  rewrite existsb_exists. split.
  - intros (x & Hx & ->%bytes_eqb_eq). by apply list_elem_of_In.
  - intros Hn. exists n. rewrite bytes_eqb_refl. split; [by apply list_elem_of_In|done].
Qed.

Definition pseudo_run (p ps : list HeaderField.t) : Prop :=
  Forall (fun h => is_pseudo h = true /\ HeaderField.name h ∈ request_names) ps /\
  NoDup (map HeaderField.name (p ++ ps)).

Lemma steps_ok_spec p hs :
  existsb (fun x => negb (is_pseudo x)) p = false -> NoDup (map HeaderField.name p) ->
  steps_ok p hs = true <->
  Forall (fun h => field_ok h = true) hs /\
  exists ps rs, hs = ps ++ rs /\ pseudo_run p ps /\
    Forall (fun h => is_pseudo h = false /\ regular_request_ok h = true) rs.
Proof.
  revert p. induction hs as [|h hs IH]; intros p Hp Hnd; cbn [steps_ok].
  { split; [|done]. intros _. split; [constructor|]. exists [], []. unfold pseudo_run.
    rewrite !app_nil_r. split_and!; try done; constructor. }
  rewrite andb_true_iff, Forall_cons. unfold step_ok at 1. rewrite Hp.
  destruct (is_pseudo h) eqn:Hh.
  - cbn [negb andb]. rewrite !andb_true_iff, negb_true_iff, in_request_names.
    rewrite <- not_true_iff_false, existsb_name_in.
    assert (existsb (fun x => negb (is_pseudo x)) (p ++ [h]) = false) as Hp'
      by (rewrite existsb_app, Hp; cbn [existsb]; by rewrite Hh).
    split.
    + intros ((Hf & Hin & Hfresh) & Hs). apply IH in Hs as (Hfs & ps & rs & -> & [Hps Hnd'] & Hrs);
        [|done|rewrite map_app; cbn; apply NoDup_app; split_and!; [done|set_solver|apply NoDup_singleton]].
      split; [done|]. exists (h :: ps), rs. rewrite <- app_assoc in Hnd'. cbn in Hnd'.
      split_and!; try done. split; [by constructor|done].
    + intros ([Hf Hfs] & ps & rs & Heq & [Hps Hnd'] & Hrs). destruct ps as [|h' ps].
      { cbn in Heq. subst rs. apply Forall_cons in Hrs as [[? _] _]. congruence. }
      injection Heq as <- ->. apply Forall_cons in Hps as [[_ Hin] Hps].
      assert (NoDup (map HeaderField.name (p ++ [h]))) as Hnd1.
      { rewrite map_app in *. cbn in *. apply NoDup_app in Hnd' as (? & Hd & _).
        apply NoDup_app. split_and!; [done|set_solver|apply NoDup_singleton]. }
      split.
      * split_and!; try done. rewrite map_app in Hnd1. apply NoDup_app in Hnd1 as (_ & Hd & _).
        intros Hin'. by apply (Hd (HeaderField.name h) Hin'), list_elem_of_singleton.
      * apply IH; [done..|]. split; [done|]. exists ps, rs. unfold pseudo_run. rewrite <- app_assoc. done.
  - cbn [negb andb]. rewrite andb_true_iff.
    rewrite steps_ok_regular by (rewrite existsb_app; cbn [existsb]; rewrite Hh; apply orb_true_r).
    split.
    + intros ((Hf & Hr) & Hfs & Hrs). split; [done|]. exists [], (h :: hs). unfold pseudo_run.
      rewrite app_nil_r. split_and!; [done|constructor|done|by constructor].
    + intros ([Hf Hfs] & ps & rs & Heq & [Hps _] & Hrs). destruct ps as [|h' ps].
      * cbn in Heq. subst rs. apply Forall_cons in Hrs as [[_ ?] ?]. done.
      * injection Heq as <- ->. apply Forall_cons in Hps as [[? _] _]. congruence.
Qed.

(** ** Lemmas: authorities *)

Lemma position_bounds p l i k : position p l i = Some k -> i <= k < i + len l.
Proof.
  revert i. induction l as [|b l IH]; intros i; [done|]. cbn [position]. rewrite len_cons.
  pose proof (len_nonneg l). destruct (p b); [intros [= <-]; lia|]. intros Hk. apply IH in Hk. lia.
Qed.

Lemma rposition_bounds p l i k : rposition p l i = Some k -> i <= k < i + len l.
Proof.
  revert i k. induction l as [|b l IH]; intros i k; [done|]. cbn [rposition]. rewrite len_cons.
  pose proof (len_nonneg l). destruct (rposition p l (i + 1)) as [k'|] eqn:E.
  - intros [= <-]. apply IH in E. lia.
  - destruct (p b); [intros [= <-]; lia|done].
Qed.

(** The slices of [is_valid_authority] are in range. *)
Lemma is_valid_authority_total authority port_required :
  exists b, is_valid_authority authority port_required = Ok b.
Proof.
  unfold is_valid_authority. destruct (len authority =? 0); [by eexists|].
  destruct (starts_with authority (bstr "[")) eqn:Es.
  - apply starts_with_spec in Es as [r ->]. change (bstr "[") with [91]. cbn [app].
    destruct (position (Z.eqb 93) (91 :: r) 0) as [k|] eqn:Ep; [|by eexists].
    cbn [position] in Ep. change (93 =? 91) with false in Ep. cbn iota in Ep.
    apply position_bounds in Ep. rewrite slice_spec by (rewrite ?len_cons; lia). cbn [rbind].
    destruct (negb _); [by eexists|]. rewrite slice_from_spec by (rewrite ?len_cons; lia). cbn [rbind].
    set (rest := drop _ _). destruct (len rest =? 0) eqn:E0; [by eexists|].
    destruct (negb _); [by eexists|]. zbool.
    rewrite slice_from_spec by (pose proof (len_nonneg rest); lia). by eexists.
  - destruct (rposition (Z.eqb 58) authority 0) as [k|] eqn:Er; cbn [rbind].
    + apply rposition_bounds in Er. rewrite slice_spec by lia. cbn [rbind].
      rewrite slice_from_spec by lia. cbn [rbind]. destruct (negb _); by eexists.
    + destruct (negb _); by eexists.
Qed.

(** ** Lemmas: the checks after the scan *)

Lemma opt_eqb_spec o v : opt_eqb o v = true <-> o = Some v.
Proof.
  destruct o as [x|]; cbn; [|done]. rewrite bytes_eqb_eq. split; [by intros ->|by intros [= ->]].
Qed.
Lemma opt_eqb_false o v : opt_eqb o v = false <-> o <> Some v.
Proof. rewrite <- opt_eqb_spec. destruct (opt_eqb o v); naive_solver. Qed.

Lemma seen_Some o : seen o = true <-> is_Some o.
Proof. destruct o; cbn; [by split; [eexists|]|]. split; [done|by intros [? ?]]. Qed.

(** [ok_iff r P]: the check accepts exactly under [P], and otherwise returns a
    malformed-message error. *)
Definition ok_iff (r : Result unit) (P : Prop) : Prop :=
  match r with
  | Ok _ => P
  | Err e => ~ P /\ exists v, e = malformed_error v
  | Panic => False
  end.

Lemma ok_iff_true P : P -> ok_iff (Ok tt) P.
Proof. done. Qed.
Lemma ok_iff_err v P : ~ P -> ok_iff (Err (malformed_error v)) P.
Proof. intros H. split; [done|by eexists]. Qed.

(** A check in front of others. *)
Lemma ok_iff_guard (c : bool) v r (P : Prop) :
  (c = true -> ~ P) -> (c = false -> ok_iff r P) ->
  ok_iff (if c then Err (malformed_error v) else r) P.
Proof. destruct c; intros H1 H2; [by apply ok_iff_err, H1|by apply H2]. Qed.

Lemma check_request_spec hs : ok_iff (check_request (summary hs)) (request_semantics hs).
Proof.
  unfold request_semantics, summary, check_request. cbv zeta.
  cbn [authority_value host_value scheme_value seen_method method seen_protocol seen_scheme seen_path
       seen_authority protocol_value path_value].
  set (m := first_value (bstr ":method") hs). set (sch := first_value (bstr ":scheme") hs).
  set (au := first_value (bstr ":authority") hs). set (pa := first_value (bstr ":path") hs).
  set (pr := first_value (bstr ":protocol") hs). set (ho := last_host hs).
  clearbody m sch au pa pr ho.
  apply ok_iff_guard; intros Hhost.
  { intros (_ & H & _). destruct au as [a|], ho as [h|]; try done.
    specialize (H a h eq_refl eq_refl). by rewrite H in Hhost. }
  apply ok_iff_guard; intros Hm.
  { intros [[x ->] _]. done. }
  zbool. apply seen_Some in Hm.
  apply ok_iff_guard; intros Hat.
  { intros (_ & _ & H & _). destruct au as [a|]; [|done]. zbool.
    destruct (H a eq_refl ltac:(done)) as [Hh Hc].
    match goal with Hor : _ \/ _ |- _ =>
      destruct Hor as [Hx|Hx]; [congruence|by apply opt_eqb_spec in Hx] end. }
  assert ((forall a h, au = Some a -> ho = Some h ->
     eq_ignore_ascii_case (strip_default_port a sch) (strip_default_port h sch) = true)) as H1.
  { intros a h -> ->. by apply negb_false_iff in Hhost. }
  assert (forall a, au = Some a -> existsb (Z.eqb 64) a = true ->
     is_http_scheme sch = false /\ m <> Some (bstr "CONNECT")) as H2.
  { intros a -> Hx. rewrite Hx in Hat. cbn [andb] in Hat. zbool. split; [done|by apply opt_eqb_false]. }
  destruct (opt_eqb m (bstr "CONNECT")) eqn:Ec.
  - destruct pr as [p|]; cbn [seen].
    + apply ok_iff_guard; intros Hs; [zbool; intros (_ & _ & _ & [x ->] & _); done|].
      apply ok_iff_guard; intros Hp; [zbool; intros (_ & _ & _ & _ & [x ->] & _); done|].
      apply ok_iff_guard; intros Ha; [zbool; intros (_ & _ & _ & _ & _ & (x & -> & _) & _); done|].
      zbool. apply seen_Some in Hs, Hp, Ha. destruct Ha as [a ->].
      destruct (is_valid_authority_total a false) as [b Hb]. unfold is_valid_extended_connect_authority.
      rewrite Hb. cbn [rbind]. apply ok_iff_guard; intros Hv.
      { zbool. subst b. intros (_ & _ & _ & _ & _ & (x & [= <-] & Hx) & _). congruence. }
      zbool. subst b. apply ok_iff_guard; intros Hw.
      { zbool. intros (_ & _ & _ & _ & _ & _ & Hrule). cbn [opt_eqb] in *.
        rewrite bytes_eqb_eq in *. rewrite Hrule in * by done. done. }
      split_and!; try done. { by exists a. }
      intros ->. cbn [opt_eqb] in Hw. rewrite bytes_eqb_refl in Hw. cbn [andb] in Hw. by apply negb_false_iff in Hw.
    + apply ok_iff_guard; intros Hs.
      { apply orb_true_iff in Hs. intros (_ & _ & _ & -> & -> & _). by destruct Hs. }
      apply ok_iff_guard; intros Ha; [zbool; intros (_ & _ & _ & _ & _ & x & -> & _); done|].
      zbool. apply seen_Some in Ha. destruct Ha as [a ->].
      destruct (is_valid_authority_total a true) as [b Hb]. unfold is_valid_connect_authority.
      rewrite Hb. cbn [rbind]. apply ok_iff_guard; intros Hv.
      { zbool. subst b. intros (_ & _ & _ & _ & _ & x & [= <-] & Hx). congruence. }
      zbool. subst b. split_and!; try done; [by destruct sch|by destruct pa|]. by exists a.
  - apply opt_eqb_false in Ec. apply ok_iff_guard; intros Hp.
    { intros (_ & _ & _ & -> & _). done. }
    apply ok_iff_guard; intros Hs; [zbool; intros (_ & _ & _ & _ & [x ->] & _); done|].
    apply ok_iff_guard; intros Hpa; [zbool; intros (_ & _ & _ & _ & _ & [x ->] & _); done|].
    zbool. apply seen_Some in Hs, Hpa.
    apply ok_iff_guard; intros Hstar.
    { zbool. intros (_ & _ & _ & _ & _ & _ & Hrule & _). rewrite opt_eqb_spec, opt_eqb_false in *.
      match goal with Hx : m <> Some (bstr "OPTIONS") |- _ => by apply Hx, Hrule end. }
    apply ok_iff_guard; intros He.
    { zbool. rewrite opt_eqb_spec in *. intros (_ & _ & _ & _ & _ & _ & _ & Hrule). by apply Hrule. }
    apply ok_iff_guard; intros Hau.
    { zbool. intros (_ & _ & _ & _ & _ & _ & _ & Hrule).
      destruct Hrule as [_ [[x ->]|[x ->]]]; done. }
    assert (path_rule : pa = Some (bstr "*") -> m = Some (bstr "OPTIONS")).
    { intros ->. cbn [opt_eqb] in Hstar. rewrite bytes_eqb_refl in Hstar. cbn [andb] in Hstar.
      apply negb_false_iff in Hstar. by apply opt_eqb_spec. }
    split_and!; try done; [by destruct pr|]. intros Hh. rewrite Hh in He, Hau. cbn [andb] in He, Hau.
    split; [by apply opt_eqb_false|]. destruct au; [by left|]. destruct ho; [by right|]. done.
Qed.

(** ** Lemmas: responses and trailers *)

Lemma scan_response_regular hs :
  ok_iff (scan_response hs true true)
    (Forall (fun h => field_ok h = true) hs /\
     Forall (fun h => is_pseudo h = false /\ regular_response_ok h = true) hs).
Proof.
  induction hs as [|h hs IH]; cbn [scan_response]; [by split; constructor|].
  pose proof (check_field_spec h) as Hc. destruct (field_ok h) eqn:Hf.
  2: { destruct Hc as [e ->]. apply ok_iff_err. intros [[? _]%Forall_cons _]. congruence. }
  rewrite Hc. cbn [rbind]. change (starts_with (HeaderField.name h) (bstr ":")) with (is_pseudo h).
  apply ok_iff_guard; intros Hp.
  { intros [_ [[? _] _]%Forall_cons]. congruence. }
  pose proof (forbidden_response_spec h) as Hr. destruct (regular_response_ok h) eqn:Hreg.
  - rewrite Hr. cbn [rbind]. destruct (scan_response hs true true) as [[]|e|]; [| |done].
    + destruct IH as [H1 H2]. split; by constructor.
    + destruct IH as [Hn He]. split; [|done]. intros [[_ H1]%Forall_cons [_ H2]%Forall_cons]. by apply Hn.
  - destruct Hr as [e ->]. apply ok_iff_err. intros [_ [[_ ?] _]%Forall_cons]. congruence.
Qed.

Definition response_ok (hs : list HeaderField.t) : Prop :=
  Forall (fun h => field_ok h = true) hs /\
  exists status rs, hs = status :: rs /\ HeaderField.name status = bstr ":status" /\
    HeaderField.value status <> bstr "101" /\
    Forall (fun h => is_pseudo h = false /\ regular_response_ok h = true) rs.

Lemma status_not_regular h : HeaderField.name h = bstr ":status" -> is_pseudo h = true.
Proof. unfold is_pseudo. by intros ->. Qed.

Lemma bytes_eqb_true_neq x y : bytes_eqb x y = false -> x <> y.
Proof. by apply bytes_eqb_neq. Qed.

(** Once a regular field came first there is no room for [:status]. *)
Lemma scan_response_late hs :
  ok_iff (scan_response hs false true) False.
Proof.
  induction hs as [|h hs IH]; cbn [scan_response negb]; [apply ok_iff_err; tauto|].
  pose proof (check_field_spec h) as Hc. destruct (field_ok h).
  2: { destruct Hc as [e ->]. apply ok_iff_err; tauto. }
  rewrite Hc. cbn [rbind]. apply ok_iff_guard; [tauto|intros _].
  pose proof (forbidden_response_spec h) as Hr. destruct (regular_response_ok h).
  - rewrite Hr. exact IH.
  - destruct Hr as [e ->]. apply ok_iff_err; tauto.
Qed.

Lemma scan_response_seen hs :
  ok_iff (scan_response hs true false)
    (Forall (fun h => field_ok h = true) hs /\
     Forall (fun h => is_pseudo h = false /\ regular_response_ok h = true) hs).
Proof.
  destruct hs as [|h hs]; cbn [scan_response]; [by split; constructor|].
  pose proof (scan_response_regular (h :: hs)) as IH. cbn [scan_response] in IH.
  pose proof (check_field_spec h) as Hc. destruct (field_ok h) eqn:Hf.
  2: { destruct Hc as [e He]. rewrite He in *. exact IH. }
  rewrite Hc in *. cbn [rbind] in *. destruct (starts_with (HeaderField.name h) (bstr ":")) eqn:Hp.
  - destruct IH as [IH _]. destruct (bytes_eqb _ _); by apply ok_iff_err.
  - exact IH.
Qed.

Lemma validate_response_spec hs : ok_iff (validate_response_headers hs) (response_ok hs).
Proof.
  unfold validate_response_headers. destruct hs as [|h hs]; cbn [scan_response negb].
  { apply ok_iff_err. by intros (_ & ? & ? & ? & _). }
  pose proof (check_field_spec h) as Hc. destruct (field_ok h) eqn:Hf.
  2: { destruct Hc as [e ->]. apply ok_iff_err. intros [[? _]%Forall_cons _]. congruence. }
  rewrite Hc. cbn [rbind]. destruct (starts_with (HeaderField.name h) (bstr ":")) eqn:Hp.
  - destruct (bytes_eqb (HeaderField.name h) (bstr ":status")) eqn:En.
    + apply bytes_eqb_eq in En. apply ok_iff_guard; intros Ev.
      { apply bytes_eqb_eq in Ev. intros (_ & st & rs & [= <- <-] & _ & ? & _). done. }
      apply bytes_eqb_neq in Ev. pose proof (scan_response_seen hs) as Hs.
      destruct (scan_response hs true false) as [[]|e|]; [| |done].
      * destruct Hs as [H1 H2]. split; [by constructor|]. by exists h, hs.
      * destruct Hs as [Hn He]. split; [|done].
        intros ([_ H1]%Forall_cons & st & rs & [= <- <-] & _ & _ & H2). by apply Hn.
    + apply ok_iff_err. apply bytes_eqb_neq in En. by intros (_ & st & rs & [= <- <-] & ? & _).
  - assert (~ response_ok (h :: hs)) as Hno.
    { intros (_ & st & rs & [= <- <-] & Hst & _). apply status_not_regular in Hst.
      unfold is_pseudo in Hst. congruence. }
    pose proof (forbidden_response_spec h) as Hr. destruct (regular_response_ok h).
    + rewrite Hr. cbn [rbind]. pose proof (scan_response_late hs) as Hl.
      destruct (scan_response hs false true) as [[]|e|]; [done| |done]. destruct Hl as [_ He]. done.
    + destruct Hr as [e ->]. by apply ok_iff_err.
Qed.

Lemma validate_trailers_spec hs :
  ok_iff (validate_trailers hs)
    (Forall (fun h => field_ok h = true) hs /\
     Forall (fun h => is_pseudo h = false /\ regular_response_ok h = true) hs).
Proof.
  induction hs as [|h hs IH]; cbn [validate_trailers]; [by split; constructor|].
  pose proof (check_field_spec h) as Hc. destruct (field_ok h) eqn:Hf.
  2: { destruct Hc as [e ->]. apply ok_iff_err. intros [[? _]%Forall_cons _]. congruence. }
  rewrite Hc. cbn [rbind]. change (starts_with (HeaderField.name h) (bstr ":")) with (is_pseudo h).
  apply ok_iff_guard; intros Hp.
  { intros [_ [[? _] _]%Forall_cons]. congruence. }
  pose proof (forbidden_response_spec h) as Hr. destruct (regular_response_ok h) eqn:Hreg.
  - rewrite Hr. cbn [rbind]. destruct (validate_trailers hs) as [[]|e|]; [| |done].
    + destruct IH as [H1 H2]. split; by constructor.
    + destruct IH as [Hn He]. split; [|done]. intros [[_ H1]%Forall_cons [_ H2]%Forall_cons]. by apply Hn.
  - destruct Hr as [e ->]. apply ok_iff_err. intros [_ [[_ ?] _]%Forall_cons]. congruence.
Qed.

Lemma validate_request_spec hs :
  ok_iff (validate_request_headers hs) (request_fields_ok hs /\ request_semantics hs).
Proof.
  unfold validate_request_headers. pose proof (scan_request_spec [] hs) as Hs.
  change (summary []) with scan_start in Hs. rewrite app_nil_l in Hs.
  pose proof (steps_ok_spec [] hs eq_refl NoDup_nil_2) as Hspec. unfold pseudo_run in Hspec.
  cbn [app] in Hspec.
  assert (steps_ok [] hs = true <-> request_fields_ok hs) as Hiff.
  { rewrite Hspec. unfold request_fields_ok. naive_solver. }
  destruct (steps_ok [] hs).
  - rewrite Hs. cbn [rbind]. pose proof (check_request_spec hs) as Hc.
    assert (request_fields_ok hs) as Hf by by apply Hiff.
    destruct (check_request (summary hs)) as [[]|e|]; [| |done].
    + by split.
    + destruct Hc as [Hn He]. split; [|done]. by intros [_ ?].
  - destruct Hs as [e ->]. apply ok_iff_err. intros [Hf _]. by apply Hiff in Hf.
Qed.

(** ** Properties *)

(** C35: A request header list is accepted exactly when its fields are
    well-formed (known pseudo-headers first and given once, no
    connection-specific field) and consistent (method, scheme, path, authority,
    host, CONNECT and extended CONNECT rules of RFC 9113 section 8.3 and RFC
    8441); any other list is a stream error of type PROTOCOL_ERROR, never a
    panic. *)
Theorem request_validation_exact hs :
  match validate_request_headers hs with
  | Ok _ => request_fields_ok hs /\ request_semantics hs
  | Err e => ~ (request_fields_ok hs /\ request_semantics hs) /\
             Error.kind e = ErrorKind.StreamError ErrorCode.ProtocolError
  | Panic => False
  end.
Proof.
  pose proof (validate_request_spec hs) as H. unfold ok_iff in H.
  destruct (validate_request_headers hs); [done| |done]. destruct H as [Hn [v ->]]. done.
Qed.

(** C36: A response header list is accepted exactly when it is [:status] (not
    101) followed by regular fields without connection-specific ones, and
    trailers exactly when they are such regular fields; anything else is a
    stream error of type PROTOCOL_ERROR. *)
Theorem response_and_trailer_validation_exact hs :
  ok_iff (validate_response_headers hs) (response_ok hs) /\
  ok_iff (validate_trailers hs)
    (Forall (fun h => field_ok h = true) hs /\
     Forall (fun h => is_pseudo h = false /\ regular_response_ok h = true) hs).
Proof. split; [apply validate_response_spec|apply validate_trailers_spec]. Qed.
