(* ===== verification/Stream.v ===== *)
(** * Stream: the per-stream record and the events reported to the application

    Models [src/src/stream.rs] ([Stream] with its constructor and setters; the
    getters are the record's projections) and [src/src/event.rs] ([Event]). *)

From S2P Require Import Prelude Errors StreamIds Config Flow StreamCore HpackTable.

Module Stream.

Record t : Type := mk {
  id : StreamId.t;
  state : StateMachine.t;
  flow_control : FlowControl.t;
  headers : list HeaderField.t;
  recv_buffer : RecvBuffer.t;
  send_buffer : SendBuffer.t;
  pending_end_stream : bool;
  initial_headers_received : bool;
  expected_content_length : option Z;
  received_content_length : Z;
  connect_established : bool;
  request_method : option (list Z);
  has_protocol : bool;
  protocol : option (list Z);
  no_content : bool;
  final_response_sent : bool
}.

#[global] Instance eta_stream : Eta t := fun s =>
  mk (id s) (state s) (flow_control s) (headers s) (recv_buffer s) (send_buffer s)
     (pending_end_stream s) (initial_headers_received s) (expected_content_length s)
     (received_content_length s) (connect_established s) (request_method s) (has_protocol s)
     (protocol s) (no_content s) (final_response_sent s).

Definition new (id : StreamId.t) (send_initial_window_size recv_initial_window_size : Z) : t :=
  mk id StateMachine.new
     (FlowControl.with_separate_windows send_initial_window_size recv_initial_window_size)
     [] (RecvBuffer.new recv_initial_window_size) (SendBuffer.new DEFAULT_INITIAL_WINDOW_SIZE)
     false false None 0 false None false None false false.

(** [stream.state()] is the state of the state machine. *)
Definition get_state (s : t) : StreamState.t := StateMachine.state (state s).
Definition is_open (s : t) : bool := StreamState.is_open (get_state s).
Definition is_closed (s : t) : bool := StreamState.is_closed (get_state s).

(** The [*_mut] accessors: running a method of a component of the stream. *)
Definition state_machine_mut {A} (m : ST StateMachine.t Error.t A) : ST t Error.t A :=
  zoom state (fun v s => s <| state := v |>) m.
Definition flow_control_mut {A} (m : ST FlowControl.t Error.t A) : ST t Error.t A :=
  zoom flow_control (fun v s => s <| flow_control := v |>) m.
Definition recv_buffer_mut {A} (m : ST RecvBuffer.t Error.t A) : ST t Error.t A :=
  zoom recv_buffer (fun v s => s <| recv_buffer := v |>) m.
Definition send_buffer_mut {A} (m : ST SendBuffer.t Error.t A) : ST t Error.t A :=
  zoom send_buffer (fun v s => s <| send_buffer := v |>) m.

Definition set_headers (v : list HeaderField.t) : ST t Error.t unit :=
  modify (fun s => s <| headers := v |>).
Definition set_pending_end_stream (v : bool) : ST t Error.t unit :=
  modify (fun s => s <| pending_end_stream := v |>).
Definition set_initial_headers_received (v : bool) : ST t Error.t unit :=
  modify (fun s => s <| initial_headers_received := v |>).
Definition set_expected_content_length (v : option Z) : ST t Error.t unit :=
  modify (fun s => s <| expected_content_length := v |>).
(** [self.received_content_length += length], on [u64]. *)
Definition add_received_content_length (n : Z) : ST t Error.t unit :=
  let! r := gets received_content_length in
  let! r' := lift (add_usize r n) in
  modify (fun s => s <| received_content_length := r' |>).
Definition set_connect_established (v : bool) : ST t Error.t unit :=
  modify (fun s => s <| connect_established := v |>).
Definition set_request_method (v : list Z) : ST t Error.t unit :=
  modify (fun s => s <| request_method := Some v |>).
Definition set_has_protocol (v : bool) : ST t Error.t unit :=
  modify (fun s => s <| has_protocol := v |>).
Definition set_protocol (v : list Z) : ST t Error.t unit :=
  modify (fun s => s <| protocol := Some v |>).
Definition set_no_content (v : bool) : ST t Error.t unit :=
  modify (fun s => s <| no_content := v |>).
Definition set_final_response_sent (v : bool) : ST t Error.t unit :=
  modify (fun s => s <| final_response_sent := v |>).

(** ** Specification: the record's invariant *)
Definition wf (s : t) : Prop :=
  FlowControl.wf (flow_control s) /\
  bytes_ok (SendBuffer.data (send_buffer s)) /\
  SendBuffer.max_size (send_buffer s) = DEFAULT_INITIAL_WINDOW_SIZE /\
  len (SendBuffer.data (send_buffer s)) <= DEFAULT_INITIAL_WINDOW_SIZE /\
  0 <= received_content_length s.

End Stream.

Module Event.

Inductive t : Type :=
| ConnectionPreface
| SettingsReceived (ack : bool)
| HeadersReceived (stream_id : StreamId.t) (headers : list HeaderField.t) (end_stream : bool)
    (protocol : option (list Z))
| DataReceived (stream_id : StreamId.t) (data : list Z) (end_stream : bool)
| TrailersReceived (stream_id : StreamId.t) (trailers : list HeaderField.t)
| StreamReset (stream_id : StreamId.t) (error_code : ErrorCode.t)
    (connection_window_consumed : Z)
| DataDiscarded (stream_id : StreamId.t) (connection_window_consumed : Z)
| StreamClosed (stream_id : StreamId.t)
| PingReceived (opaque_data : list Z) (ack : bool)
| GoawayReceived (last_stream_id : StreamId.t) (error_code : ErrorCode.t) (debug_data : list Z)
| WindowUpdateReceived (stream_id : StreamId.t) (increment : Z)
| PriorityUpdateReceived (stream_id : StreamId.t) (priority_field_value : list Z)
| ConnectionError (error_code : ErrorCode.t) (reason : string).

Definition stream_id (e : t) : option StreamId.t :=
  match e with
  | HeadersReceived id _ _ _ | DataReceived id _ _ | TrailersReceived id _
  | StreamReset id _ _ | DataDiscarded id _ | StreamClosed id
  | PriorityUpdateReceived id _ => Some id
  | WindowUpdateReceived id _ =>
      match id with StreamId.Connection => None | _ => Some id end
  | _ => None
  end.

Definition is_connection_level (e : t) : bool :=
  match e with
  | ConnectionPreface | SettingsReceived _ | PingReceived _ _ | GoawayReceived _ _ _
  | ConnectionError _ _ => true
  | WindowUpdateReceived StreamId.Connection _ => true
  | _ => false
  end.

End Event.
