(* ===== verification/ConnBase.v ===== *)
(** * ConnBase: the connection state, its output side and the operations shared
      by the handlers

    Models [src/src/connection.rs]: the [Connection] struct and its constructors,
    the preface, the operations that send (SETTINGS, DATA with its send buffer,
    RST_STREAM, PING, GOAWAY, WINDOW_UPDATE) and the queries on the stream map.
    A method is a state transformer on the connection; [streams] is a finite
    map from stream identifiers. *)

From S2P Require Import Prelude Errors StreamIds Config Flow Bounded StreamCore FrameTypes.
From S2P Require Import FrameEncode FrameDecode HpackTable HpackCodec Stream.

Definition CONNECTION_PREFACE : list Z :=
  bstr "PRI * HTTP/2.0" ++ [13; 10; 13; 10] ++ bstr "SM" ++ [13; 10; 13; 10].
Definition CONNECTION_PREFACE_LEN : Z := 24.

Module Role.
Inductive t : Type := Client | Server.
#[global] Instance eq_dec : EqDecision t.
Proof. solve_decision. Defined.
End Role.

Module ConnectionState.
Inductive t : Type := WaitingPreface | Active | GoawaySent | GoawayReceived | Closed.
#[global] Instance eq_dec : EqDecision t.
Proof. solve_decision. Defined.
End ConnectionState.

Definition CLOSED_STREAMS_MAX_SIZE : Z := 10000.

Module Connection.

Record t : Type := mk {
  role : Role.t;
  state : ConnectionState.t;
  local_settings : Settings.t;
  remote_settings : Settings.t;
  flow_control : FlowControl.t;
  streams : gmap Z Stream.t;
  closed_streams : BoundedSet.t;
  next_stream_id : Z;
  last_recv_stream_id : Z;
  last_successful_stream_id : Z;
  last_sent_goaway_stream_id : option Z;
  hpack_encoder : Encoder.t;
  hpack_decoder : Decoder.t;
  frame_decoder : FrameDecoder.t;
  frame_encoder : FrameEncoder.t;
  output_buffer : list Z;
  events : list Event.t;
  pending_settings_count : Z;
  preface_received : bool;
  preface_sent : bool;
  header_continuation_stream : option Z;
  header_block_fragment : list Z;
  header_end_stream : bool;
  header_concurrent_limit_exceeded : bool;
  connect_established_headers_received : bool;
  initial_no_rfc7540_priorities : option bool;
  peer_sent_enable_connect_protocol : bool;
  pending_table_size_update : option (Z * Z);
  preface_buffer : list Z;
  connection_window_size : Z;
  connection_window_update_sent : bool
}.

#[global] Instance eta_conn : Eta t := fun c =>
  mk (role c) (state c) (local_settings c) (remote_settings c) (flow_control c) (streams c)
     (closed_streams c) (next_stream_id c) (last_recv_stream_id c) (last_successful_stream_id c)
     (last_sent_goaway_stream_id c) (hpack_encoder c) (hpack_decoder c) (frame_decoder c)
     (frame_encoder c) (output_buffer c) (events c) (pending_settings_count c)
     (preface_received c) (preface_sent c) (header_continuation_stream c)
     (header_block_fragment c) (header_end_stream c) (header_concurrent_limit_exceeded c)
     (connect_established_headers_received c) (initial_no_rfc7540_priorities c)
     (peer_sent_enable_connect_protocol c) (pending_table_size_update c) (preface_buffer c)
     (connection_window_size c) (connection_window_update_sent c).

(** The methods of a connection. *)
Abbreviation M := (ST t Error.t).

Definition new (role : Role.t) (limits : Limits.t) : t :=
  let local_settings := Settings.from_limits limits in
  let next_stream_id := match role with Role.Client => 1 | Role.Server => 2 end in
  let hpack_decoder :=
    Decoder.set_max_header_list_size (Settings.max_header_list_size local_settings)
      (Decoder.new (Limits.header_table_size limits)) in
  mk role ConnectionState.WaitingPreface local_settings Settings.new
     (FlowControl.new DEFAULT_INITIAL_WINDOW_SIZE) ∅ (BoundedSet.new CLOSED_STREAMS_MAX_SIZE)
     next_stream_id 0 0 None (Encoder.new (Limits.header_table_size limits)) hpack_decoder
     (FrameDecoder.new (MaxFrameSize.get (Limits.max_frame_size limits))) FrameEncoder.new
     [] [] 0 false false None [] false false false None false None []
     (WindowSize.get (Limits.connection_window_size limits)) false.

Definition client (limits : Limits.t) : t := new Role.Client limits.
Definition server (limits : Limits.t) : t := new Role.Server limits.

Definition is_active (c : t) : bool := bool_decide (state c = ConnectionState.Active).
Definition is_closed (c : t) : bool := bool_decide (state c = ConnectionState.Closed).

(** ** Access to the components *)

Definition push_event (e : Event.t) : M unit := modify (fun c => c <| events := events c ++ [e] |>).

Definition on_flow_control {A} (m : ST FlowControl.t Error.t A) : M A :=
  zoom flow_control (fun v c => c <| flow_control := v |>) m.

(** [self.streams.get_mut(&sid)] followed by methods of the stream; the caller
    has established that the entry exists. *)
Definition stream_mut {A} (sid : Z) (m : ST Stream.t Error.t A) : M A :=
  fun c =>
    match streams c !! sid with
    | None => (Panic, c)
    | Some s => let '(r, s') := m s in (r, c <| streams := <[sid := s']> (streams c) |>)
    end.

Definition stream_not_found : Error.t :=
  Error.stream_error ErrorCode.StreamClosed "stream not found".

(** [self.streams.get_mut(&sid).ok_or_else(..)?] *)
Definition require_stream (sid : Z) : M Stream.t :=
  let! s := gets (fun c => streams c !! sid) in lift (ok_or s stream_not_found).

Definition contains_stream (sid : Z) (c : t) : bool :=
  match streams c !! sid with Some _ => true | None => false end.

(** [self.closed_streams.insert(sid); self.streams.remove(&sid)] *)
Definition forget_stream (sid : Z) : M unit :=
  modify (fun c => c <| closed_streams := BoundedSet.insert sid (closed_streams c) |>) ;!
  modify (fun c => c <| streams := delete sid (streams c) |>).

(** The order in which a [HashMap] yields its keys: unspecified, it may depend
    on anything, and it yields every key once. *)
Class HashOrder := hash_order : t -> list Z.
Class HashOrderLaws (O : HashOrder) :=
  hash_order_keys : forall c, hash_order c ≡ₚ (map_to_list (streams c)).*1.

(** ** Output *)

Definition send_frame (frame : Frame.t) : M unit :=
  zoom frame_encoder (fun v c => c <| frame_encoder := v |>) (FrameEncoder.encode frame) ;!
  modify (fun c => c <| output_buffer := output_buffer c ++ FrameEncoder.buf (frame_encoder c) |>) ;!
  zoom frame_encoder (fun v c => c <| frame_encoder := v |>) FrameEncoder.clear.

Definition poll_event : M (option Event.t) :=
  let! es := gets events in
  match es with
  | [] => ret None
  | e :: es' => modify (fun c => c <| events := es' |>) ;! ret (Some e)
  end.

Definition poll_output : M (option (list Z)) :=
  let! out := gets output_buffer in
  match out with
  | [] => ret None
  | _ => modify (fun c => c <| output_buffer := [] |>) ;! ret (Some out)
  end.

Definition has_output (c : t) : bool := match output_buffer c with [] => false | _ => true end.

(** ** Windows, SETTINGS and the connection preface *)

Definition send_window_update (stream_id : StreamId.t) (increment : Z) : M unit :=
  if increment =? 0 then
    throw (Error.connection_error ErrorCode.ProtocolError "WINDOW_UPDATE increment must be non-zero")
  else if increment >? MAX_WINDOW_SIZE then
    throw (Error.connection_error ErrorCode.FlowControlError
             "WINDOW_UPDATE increment exceeds maximum window size")
  else
    match stream_id with
    | StreamId.Connection => on_flow_control (FlowControl.add_recv_window increment)
    | _ =>
        let sid := StreamId.as_u32 stream_id in
        let! s := gets (fun c => streams c !! sid) in
        match s with
        | Some _ => stream_mut sid (Stream.flow_control_mut (FlowControl.add_recv_window increment))
        | None => ret tt
        end
    end ;!
    let! wi := lift (expect (WindowIncrement.new increment)) in
    send_frame (Frame.WindowUpdate
      match StreamId.non_zero stream_id with
      | Some nz => WindowUpdateFrame.for_stream nz wi
      | None => WindowUpdateFrame.for_connection wi
      end).

Definition send_initial_connection_window_update : M unit :=
  let! sent := gets connection_window_update_sent in
  if sent then ret tt
  else
    let! size := gets connection_window_size in
    (if size >? DEFAULT_INITIAL_WINDOW_SIZE
     then send_window_update StreamId.Connection (size - DEFAULT_INITIAL_WINDOW_SIZE)
     else ret tt) ;!
    modify (fun c => c <| connection_window_update_sent := true |>).

(** The settings a role advertises: a server leaves ENABLE_PUSH out. *)
Definition advertised (role : Role.t) (settings : Settings.t) : list Setting.t :=
  List.filter
    (fun setting =>
       match role, setting with Role.Server, Setting.EnablePush _ => false | _, _ => true end)
    (Settings.to_settings_list settings).

(** [self.pending_settings_count += 1], on [u32]. *)
Definition count_settings : M unit :=
  let! n := gets pending_settings_count in
  let! n' := lift (if n + 1 <? 2 ^ 32 then Ok (n + 1) else Panic) in
  modify (fun c => c <| pending_settings_count := n' |>).

Definition send_settings : M unit :=
  let! r := gets role in
  let! local := gets local_settings in
  send_frame (Frame.Settings (SettingsFrame.from_settings (advertised r local))) ;!
  count_settings ;!
  send_initial_connection_window_update.

Definition initiate : M unit :=
  let! sent := gets preface_sent in
  if sent then ret tt
  else
    let! r := gets role in
    (if bool_decide (r = Role.Client)
     then modify (fun c => c <| output_buffer := output_buffer c ++ CONNECTION_PREFACE |>)
     else ret tt) ;!
    let! local := gets local_settings in
    send_frame (Frame.Settings (SettingsFrame.from_settings (advertised r local))) ;!
    count_settings ;!
    modify (fun c => c <| preface_sent := true |>) ;!
    send_initial_connection_window_update.

Definition mark_preface_received : M unit := modify (fun c => c <| preface_received := true |>).
Definition mark_preface_sent : M unit := modify (fun c => c <| preface_sent := true |>).

Definition decoder_feed (data : list Z) : M unit :=
  modify (fun c => c <| frame_decoder := FrameDecoder.feed data (frame_decoder c) |>).

Definition feed (data : list Z) : M Z :=
  let! r := gets role in
  let! received := gets preface_received in
  if bool_decide (r = Role.Server) && negb received then
    let! pb := gets preface_buffer in
    let! needed := lift (sub_usize CONNECTION_PREFACE_LEN (len pb)) in
    let consume := Z.min (len data) needed in
    let! head := lift (slice data 0 consume) in
    modify (fun c => c <| preface_buffer := preface_buffer c ++ head |>) ;!
    let! pb := gets preface_buffer in
    let buf_len := len pb in
    let! expected := lift (slice CONNECTION_PREFACE 0 buf_len) in
    if negb (bytes_eqb pb expected) then
      throw (Error.connection_error ErrorCode.ProtocolError "invalid client connection preface")
    else if buf_len <? CONNECTION_PREFACE_LEN then ret (len data)
    else
      modify (fun c => c <| preface_received := true |>) ;!
      let! remaining := lift (slice_from data consume) in
      (if 0 <? len remaining then decoder_feed remaining else ret tt) ;!
      ret (len data)
  else
    decoder_feed data ;!
    ret (len data).

(** ** Queries on streams *)

Definition is_idle_stream (stream_id : Z) (c : t) : bool :=
  if contains_stream stream_id c then false
  else if BoundedSet.contains stream_id (closed_streams c) then false
  else if is_multiple_of stream_id 2 then true
  else stream_id >? last_recv_stream_id c.

Definition is_stream_closed (stream_id : Z) (c : t) : bool :=
  match streams c !! stream_id with
  | Some s => bool_decide (Stream.get_state s = StreamState.Closed)
  | None => false
  end.

Definition check_not_idle_stream (stream_id : Z) (frame_type : string) : M unit :=
  let! idle := gets (is_idle_stream stream_id) in
  if idle
  then throw (Error.connection_error ErrorCode.ProtocolError "{} on idle stream: {}")
  else ret tt.

(** [self.streams.values().filter(|s| !s.state().is_closed()).count()] *)
Definition open_streams (c : t) : Z :=
  len (List.filter (fun s => negb (Stream.is_closed s)) (map_to_list (streams c)).*2).

Definition check_concurrent_streams_limit (stream_id : Z) : M unit :=
  let! exists_ := gets (contains_stream stream_id) in
  if exists_ then ret tt
  else
    let! limit := gets (fun c => Settings.max_concurrent_streams (local_settings c)) in
    match limit with
    | Some max =>
        let! current_open := gets open_streams in
        if current_open >=? max
        then throw (Error.stream_error ErrorCode.RefusedStream "max concurrent streams exceeded")
        else ret tt
    | None => ret tt
    end.

Definition has_pending_send_data (stream_id : StreamId.t) (c : t) : bool :=
  match streams c !! StreamId.as_u32 stream_id with
  | Some s => negb (SendBuffer.is_empty (Stream.send_buffer s)) || Stream.pending_end_stream s
  | None => false
  end.

(** ** Sending DATA *)

Definition queue_data (stream_id : Z) (data : list Z) (end_stream : bool) : M unit :=
  let! s := require_stream stream_id in
  if negb (SendBuffer.can_push (Stream.send_buffer s) (len data)) then
    throw (Error.stream_error ErrorCode.FlowControlError "send buffer full")
  else
    stream_mut stream_id (Stream.send_buffer_mut (SendBuffer.push data)) ;!
    (if end_stream then stream_mut stream_id (Stream.set_pending_end_stream true) else ret tt).

(** The size of the next DATA frame of a stream: the smallest of the buffered
    octets, both windows and the peer's frame size. *)
Definition send_size (s : Stream.t) (c : t) : Z :=
  let conn_window := FlowControl.send_available (flow_control c) in
  let stream_window := FlowControl.send_available (Stream.flow_control s) in
  let max_frame := MaxFrameSize.get (Settings.max_frame_size (remote_settings c)) in
  Z.min (SendBuffer.length (Stream.send_buffer s))
        (Z.min (Z.min conn_window stream_window) max_frame).

Definition send_data_frame (stream_id : Z) (data : list Z) (end_stream : bool) : M unit :=
  let! sid := lift (expect (NonZeroStreamId.new stream_id)) in
  send_frame (Frame.Data (DataFrame.with_end_stream end_stream (DataFrame.new sid data))).

(** One DATA frame of [n] octets: the body of the loop of [flush_stream_data]
    after its early exits.  Tells whether END_STREAM was set and how much is
    left in the buffer. *)
Definition flush_step (stream_id n : Z) : M (bool * Z) :=
  let! pending_end_stream := stream_mut stream_id (gets Stream.pending_end_stream) in
  let! data := stream_mut stream_id (Stream.send_buffer_mut (SendBuffer.pop n)) in
  let! remaining_after := stream_mut stream_id (gets (fun s => SendBuffer.length (Stream.send_buffer s))) in
  let end_stream := pending_end_stream && (remaining_after =? 0) in
  on_flow_control (FlowControl.consume_send (len data)) ;!
  stream_mut stream_id (Stream.flow_control_mut (FlowControl.consume_send (len data))) ;!
  (if end_stream then
     stream_mut stream_id
       (Stream.set_pending_end_stream false ;!
        Stream.state_machine_mut (StateMachine.complete_send_data true))
   else ret tt) ;!
  send_data_frame stream_id data end_stream ;!
  ret (end_stream, remaining_after).

(** The loop; [true] stands for [break], [false] for [return Ok(())]. *)
Fixpoint flush_loop (fuel : nat) (stream_id : Z) : M bool :=
  match fuel with
  | O => panic
  | S fuel =>
      let! so := gets (fun c => streams c !! stream_id) in
      match so with
      | None => ret false
      | Some s =>
          let buffer_len := SendBuffer.length (Stream.send_buffer s) in
          let pending_es := Stream.pending_end_stream s in
          if (buffer_len =? 0) && negb pending_es then ret false
          else if (buffer_len =? 0) && pending_es then ret true
          else
            let! n := gets (send_size s) in
            if n =? 0 then ret false
            else
              let! (end_stream, remaining_after) := flush_step stream_id n in
              if end_stream || (remaining_after =? 0) then ret true
              else flush_loop fuel stream_id
      end
  end.

(** Every round sends at least one octet, so the buffered octets bound the
    number of rounds. *)
Definition flush_fuel (stream_id : Z) (c : t) : nat :=
  match streams c !! stream_id with
  | Some s => S (length (SendBuffer.data (Stream.send_buffer s)))
  | None => 1
  end.

Definition flush_stream_data (stream_id : Z) : M unit :=
  let! fuel := gets (flush_fuel stream_id) in
  let! to_end := flush_loop fuel stream_id in
  if negb to_end then ret tt
  else
    let! so := gets (fun c => streams c !! stream_id) in
    match so with
    | Some s =>
        if Stream.pending_end_stream s && SendBuffer.is_empty (Stream.send_buffer s) then
          stream_mut stream_id (Stream.set_pending_end_stream false) ;!
          stream_mut stream_id (Stream.state_machine_mut (StateMachine.complete_send_data true)) ;!
          send_data_frame stream_id [] true
        else ret tt
    | None => ret tt
    end.

Definition try_remove_closed_stream (stream_id : Z) : M unit :=
  let! so := gets (fun c => streams c !! stream_id) in
  match so with
  | Some s =>
      if bool_decide (Stream.get_state s = StreamState.Closed)
         && SendBuffer.is_empty (Stream.send_buffer s) && negb (Stream.pending_end_stream s)
      then
        push_event (Event.StreamClosed (StreamId.from_wire stream_id)) ;!
        forget_stream stream_id
      else ret tt
  | None => ret tt
  end.

Definition send_data (stream_id : StreamId.t) (data : list Z) (end_stream : bool) : M unit :=
  let sid := StreamId.as_u32 stream_id in
  let! s := require_stream sid in
  if Stream.pending_end_stream s then
    throw (Error.stream_error ErrorCode.StreamClosed
             "cannot send DATA after END_STREAM was queued for this stream")
  else
    stream_mut sid (Stream.state_machine_mut (StateMachine.send_data end_stream)) ;!
    queue_data sid data end_stream ;!
    flush_stream_data sid ;!
    try_remove_closed_stream sid.

Fixpoint flush_streams (stream_ids : list Z) : M unit :=
  match stream_ids with
  | [] => ret tt
  | stream_id :: stream_ids =>
      flush_stream_data stream_id ;!
      try_remove_closed_stream stream_id ;!
      flush_streams stream_ids
  end.

Definition wants_flush (c : t) (stream_id : Z) : bool :=
  match streams c !! stream_id with
  | Some s => negb (SendBuffer.is_empty (Stream.send_buffer s)) || Stream.pending_end_stream s
  | None => false
  end.

Definition flush_all_stream_data `{HashOrder} : M unit :=
  let! stream_ids := gets (fun c => List.filter (wants_flush c) (hash_order c)) in
  flush_streams stream_ids.

(** ** RST_STREAM, PING, GOAWAY *)

Definition reset_stream_internal (stream_id : StreamId.t) (error_code : ErrorCode.t)
  (connection_window_consumed : Z) : M unit :=
  let! nz_stream_id :=
    lift (ok_or (StreamId.non_zero stream_id)
            (Error.connection_error ErrorCode.ProtocolError "RST_STREAM requires non-zero stream ID")) in
  let sid := StreamId.as_u32 stream_id in
  let! idle := gets (is_idle_stream sid) in
  if idle then
    throw (Error.stream_error ErrorCode.ProtocolError "RST_STREAM on idle stream: {}")
  else
    let! exists_ := gets (contains_stream sid) in
    (if exists_ then stream_mut sid (Stream.state_machine_mut StateMachine.send_rst_stream) else ret tt) ;!
    send_frame (Frame.RstStream (RstStreamFrame.new nz_stream_id (ErrorCode.as_u32 error_code))) ;!
    if exists_ then
      push_event (Event.StreamReset stream_id error_code connection_window_consumed) ;!
      forget_stream sid
    else ret tt.

Definition reset_stream (stream_id : StreamId.t) (error_code : ErrorCode.t) : M unit :=
  reset_stream_internal stream_id error_code 0.

Definition send_ping (opaque_data : list Z) : M unit :=
  send_frame (Frame.Ping (PingFrame.new opaque_data)).

Definition send_goaway (error_code : ErrorCode.t) (debug_data : list Z) : M unit :=
  let! previous := gets last_sent_goaway_stream_id in
  let! successful := gets last_successful_stream_id in
  let last_stream_id_value :=
    match previous with Some previous => Z.min successful previous | None => successful end in
  let! last_stream_id := lift (expect (LastStreamId.new last_stream_id_value)) in
  send_frame (Frame.Goaway
    (GoawayFrame.with_debug_data debug_data
       (GoawayFrame.new last_stream_id (ErrorCode.as_u32 error_code)))) ;!
  modify (fun c => c <| last_sent_goaway_stream_id := Some last_stream_id_value |>) ;!
  modify (fun c => c <| state := ConnectionState.GoawaySent |>).

End Connection.
