(* ===== verification/ConnHeaders.v ===== *)
(** * ConnHeaders: sending and receiving header blocks

    Models [src/src/connection/headers.rs] (responses, trailers, HEADERS and
    CONTINUATION, the fragmentation of header blocks) and, from
    [src/src/connection.rs], [start_stream] and [concatenate_cookies]. *)

From S2P Require Import Prelude Errors StreamIds Config Flow Bounded StreamCore FrameTypes.
From S2P Require Import FrameEncode FrameDecode Syntax HpackTable HpackCodec Validation.
From S2P Require Import Stream ConnBase.

Module Headers.
Import Connection.

(** ** Reading header lists *)

(** [headers.iter().find(|h| h.name() == n)] *)
Definition find_header (n : string) (hs : list HeaderField.t) : option HeaderField.t :=
  List.find (fun h => bytes_eqb (HeaderField.name h) (bstr n)) hs.
Definition find_value (n : string) (hs : list HeaderField.t) : option (list Z) :=
  option_map HeaderField.value (find_header n hs).

(** [v.len() == 3 && v[0] == digit], of an optional status value. *)
Definition status_class (status : option (list Z)) (digit : Z) : bool :=
  match status with
  | Some v => (len v =? 3) && match v with d :: _ => d =? digit | [] => false end
  | None => false
  end.
Definition is_informational (hs : list HeaderField.t) : bool :=
  status_class (find_value ":status" hs) 49.
Definition is_2xx (hs : list HeaderField.t) : bool :=
  status_class (find_value ":status" hs) 50.
(** [status == Some(b"204") || status == Some(b"304")] *)
Definition is_no_content (hs : list HeaderField.t) : bool :=
  match find_value ":status" hs with
  | Some v => bytes_eqb v (bstr "204") || bytes_eqb v (bstr "304")
  | None => false
  end.

(** [stream.request_method().is_some_and(|m| m == method)] *)
Definition method_is (s : Stream.t) (method : string) : bool :=
  match Stream.request_method s with Some m => bytes_eqb m (bstr method) | None => false end.

Definition calculate_header_list_size (headers : list HeaderField.t) : Z :=
  foldr (fun h n => HeaderField.size h + n) 0 headers.

Definition is_cookie (h : HeaderField.t) : bool :=
  Validation.eq_ignore_ascii_case (HeaderField.name h) (bstr "cookie").

(** [values.join(&b"; "[..])] *)
Fixpoint join (sep : list Z) (values : list (list Z)) : list Z :=
  match values with
  | [] => []
  | [v] => v
  | v :: values => v ++ sep ++ join sep values
  end.

Definition concatenate_cookies (headers : list HeaderField.t) : list HeaderField.t :=
  let cookies := List.filter is_cookie headers in
  if len cookies <=? 1 then headers
  else
    let result := List.filter (fun h => negb (is_cookie h)) headers in
    let cookie_values :=
      List.filter (fun v => negb (len v =? 0)) (map HeaderField.value cookies) in
    if len cookie_values =? 0 then result
    else result ++ [HeaderField.from_validated_parts (bstr "cookie")
                      (join (bstr "; ") cookie_values) (existsb HeaderField.sensitive cookies)].

(** [str::parse::<u64>] on a string of digits. *)
Fixpoint parse_u64 (l : list Z) (acc : Z) : option Z :=
  match l with
  | [] => Some acc
  | b :: l =>
      let acc := acc * 10 + (b - 48) in
      if acc <? 2 ^ 64 then parse_u64 l acc else None
  end.

Definition content_length_error : Error.t :=
  Error.stream_error ErrorCode.ProtocolError "invalid content-length value".

Fixpoint extract_content_length_loop (headers : list HeaderField.t) (content_length : option Z)
  : Result (option Z) :=
  match headers with
  | [] => Ok content_length
  | header :: headers =>
      if bytes_eqb (HeaderField.name header) (bstr "content-length") then
        let value_str := HeaderField.value header in
        if negb (Syntax.utf8_valid value_str)
        then Err (Error.stream_error ErrorCode.ProtocolError "invalid content-length encoding")
        else if (len value_str =? 0) || negb (forallb Syntax.is_ascii_digit value_str)
        then Err content_length_error
        else
          let? n := ok_or (parse_u64 value_str 0) content_length_error in
          match content_length with
          | Some existing =>
              if negb (existing =? n)
              then Err (Error.stream_error ErrorCode.ProtocolError
                          "conflicting content-length values: {} and {}")
              else extract_content_length_loop headers content_length
          | None => extract_content_length_loop headers (Some n)
          end
      else extract_content_length_loop headers content_length
  end.

Definition extract_content_length (headers : list HeaderField.t) : Result (option Z) :=
  extract_content_length_loop headers None.

(** ** Sending header blocks *)

Definition hpack_encode (headers : list HeaderField.t) : M (list Z) :=
  fun c =>
    match Encoder.encode (hpack_encoder c) [] headers with
    | Ok (buf, e) => (Ok buf, c <| hpack_encoder := e |>)
    | Err e => (Err e, c)
    | Panic => (Panic, c)
    end.

(** [self.pending_table_size_update.take()] and the size updates it stands for. *)
Definition take_size_updates : M (list Z) :=
  let! pending := gets pending_table_size_update in
  modify (fun c => c <| pending_table_size_update := None |>) ;!
  match pending with
  | Some (min_size, final_size) =>
      let! e := gets hpack_encoder in
      let! header_block :=
        lift (if negb (min_size =? final_size) then Encoder.encode_size_update e [] min_size else Ok []) in
      lift (Encoder.encode_size_update e header_block final_size)
  | None => ret []
  end.

(** [while !remaining.is_empty()]: one CONTINUATION per turn.  A chunk is not
    empty, so the octets bound the turns. *)
Fixpoint send_continuations (fuel : nat) (stream_id : NonZeroStreamId.t) (max_frame_size : Z)
  (remaining : list Z) : M unit :=
  if len remaining =? 0 then ret tt
  else
    match fuel with
    | O => panic
    | S fuel =>
        let chunk_size := Z.min (len remaining) max_frame_size in
        let! chunk := lift (slice remaining 0 chunk_size) in
        let! remaining := lift (slice_from remaining chunk_size) in
        let is_last := len remaining =? 0 in
        send_frame (Frame.Continuation
          (ContinuationFrame.with_end_headers is_last (ContinuationFrame.new stream_id chunk))) ;!
        send_continuations fuel stream_id max_frame_size remaining
    end.

Definition headers_frame (stream_id : NonZeroStreamId.t) (fragment : list Z)
  (end_stream end_headers : bool) : Frame.t :=
  Frame.Headers (HeadersFrame.with_end_headers end_headers
    (HeadersFrame.with_end_stream end_stream (HeadersFrame.new stream_id fragment))).

Definition send_header_block (stream_id : NonZeroStreamId.t) (encoded_headers : list Z)
  (end_stream : bool) : M unit :=
  let! updates := take_size_updates in
  let block := updates ++ encoded_headers in
  let! max_frame_size := gets (fun c => MaxFrameSize.get (Settings.max_frame_size (remote_settings c))) in
  if len block <=? max_frame_size then
    send_frame (headers_frame stream_id block end_stream true)
  else
    let! first_chunk := lift (slice block 0 max_frame_size) in
    let! remaining := lift (slice_from block max_frame_size) in
    send_frame (headers_frame stream_id first_chunk end_stream false) ;!
    send_continuations (length remaining) stream_id max_frame_size remaining.

(** The check of the peer's SETTINGS_MAX_HEADER_LIST_SIZE before sending. *)
Definition check_peer_header_list_size (headers : list HeaderField.t) : M unit :=
  let! limit := gets (fun c => Settings.max_header_list_size (remote_settings c)) in
  match limit with
  | Some max_size =>
      if calculate_header_list_size headers >? max_size
      then throw (Error.stream_error ErrorCode.ProtocolError
                    "header list size {} exceeds peer's SETTINGS_MAX_HEADER_LIST_SIZE {}")
      else ret tt
  | None => ret tt
  end.

Definition check_send_buffer_empty (stream_id : Z) : M unit :=
  let! so := gets (fun c => streams c !! stream_id) in
  match so with
  | Some s =>
      if negb (SendBuffer.is_empty (Stream.send_buffer s))
      then throw (Error.stream_error ErrorCode.StreamClosed
                    "cannot send END_STREAM: send buffer still has queued DATA")
      else ret tt
  | None => ret tt
  end.

(** [expect] on the identifier of a stream known to exist. *)
Definition expect_non_zero (stream_id : StreamId.t) : M NonZeroStreamId.t :=
  lift (expect (ok_or (StreamId.non_zero stream_id) tt)).

(** The stream ended on both sides: report it and forget it. *)
Definition close_stream (stream_id : StreamId.t) : M unit :=
  push_event (Event.StreamClosed stream_id) ;!
  forget_stream (StreamId.as_u32 stream_id).

(** What [start_stream] does to the new stream. *)
Definition begin_request (headers : list HeaderField.t) (end_stream : bool) : ST Stream.t Error.t unit :=
  Stream.state_machine_mut (StateMachine.send_headers end_stream) ;!
  Stream.set_headers headers ;!
  let protocol_value := find_value ":protocol" headers in
  match find_value ":method" headers with
  | Some method =>
      Stream.set_request_method method ;!
      Stream.set_has_protocol match protocol_value with Some _ => true | None => false end ;!
      match protocol_value with Some proto => Stream.set_protocol proto | None => ret tt end
  | None => ret tt
  end.

Definition start_stream (headers : list HeaderField.t) (end_stream : bool) : M StreamId.t :=
  lift (Validation.validate_request_headers headers) ;!
  let! r := gets role in
  let! st := gets state in
  if bool_decide (r = Role.Server) then
    throw (Error.protocol_error "server cannot initiate streams (server push not supported)")
  else if bool_decide (st = ConnectionState.GoawayReceived) then
    throw (Error.connection_error ErrorCode.ProtocolError
             "cannot start new stream after GOAWAY received")
  else
    let! remote := gets remote_settings in
    let! current_open := gets open_streams in
    if match Settings.max_concurrent_streams remote with
       | Some max => current_open >=? max
       | None => false
       end then
      throw (Error.stream_error ErrorCode.RefusedStream
               "max concurrent streams limit set by peer would be exceeded")
    else
      let protocol_value := find_value ":protocol" headers in
      if match protocol_value with Some _ => true | None => false end
         && negb (Settings.enable_connect_protocol remote) then
        throw (Error.protocol_error
                 "cannot send :protocol without peer's SETTINGS_ENABLE_CONNECT_PROTOCOL=1")
      else if match protocol_value with Some v => bytes_eqb v (bstr "webtransport") | None => false end
              && negb (Settings.wt_enabled remote) then
        throw (Error.protocol_error
                 "cannot send :protocol=webtransport without peer's SETTINGS_WT_ENABLED=1")
      else
        check_peer_header_list_size headers ;!
        let! stream_id_u32 := gets next_stream_id in
        if stream_id_u32 >? STREAM_ID_MAX then
          throw (Error.stream_error ErrorCode.RefusedStream
                   "stream ID space exhausted, establish a new connection")
        else
          let stream_id := StreamId.from_wire stream_id_u32 in
          let! nz_stream_id := expect_non_zero stream_id in
          modify (fun c => c <| next_stream_id := stream_id_u32 + 2 |>) ;!
          let! local := gets local_settings in
          let stream := Stream.new stream_id
            (WindowSize.get (Settings.initial_window_size remote))
            (WindowSize.get (Settings.initial_window_size local)) in
          let '(r, stream) := begin_request headers end_stream stream in
          lift r ;!
          modify (fun c => c <| streams := <[stream_id_u32 := stream]> (streams c) |>) ;!
          let! encoded_headers := hpack_encode headers in
          send_header_block nz_stream_id encoded_headers end_stream ;!
          ret stream_id.

(** HEADERS are refused on an established CONNECT tunnel. *)
Definition check_not_tunnel (sid : Z) : M unit :=
  let! so := gets (fun c => streams c !! sid) in
  if match so with Some s => Stream.connect_established s | None => false end
  then throw (Error.stream_error ErrorCode.ProtocolError
                "HEADERS not allowed on established CONNECT tunnel")
  else ret tt.

(** [if is_2xx && is_connect && !has_protocol]: the CONNECT tunnel is open. *)
Definition note_tunnel (headers : list HeaderField.t) : ST Stream.t Error.t unit :=
  let! s := gets id in
  if is_2xx headers && method_is s "CONNECT" && negb (Stream.has_protocol s)
  then Stream.set_connect_established true
  else ret tt.

Definition send_response (stream_id : StreamId.t) (headers : list HeaderField.t)
  (end_stream : bool) : M unit :=
  let sid := StreamId.as_u32 stream_id in
  check_not_tunnel sid ;!
  lift (Validation.validate_response_headers headers) ;!
  let informational := is_informational headers in
  if end_stream && informational then
    throw (Error.stream_error ErrorCode.ProtocolError
             "informational response (1xx) with END_STREAM is malformed")
  else
    let! so := gets (fun c => streams c !! sid) in
    if negb informational
       && match so with Some s => Stream.final_response_sent s | None => false end then
      throw (Error.stream_error ErrorCode.ProtocolError
               "final response already sent on this stream")
    else
      check_peer_header_list_size headers ;!
      (if end_stream then check_send_buffer_empty sid else ret tt) ;!
      let! _ := require_stream sid in
      let! is_closed := stream_mut sid
        (Stream.state_machine_mut (StateMachine.send_headers end_stream) ;!
         (if negb informational then Stream.set_final_response_sent true else ret tt) ;!
         note_tunnel headers ;!
         gets (fun s => end_stream && bool_decide (Stream.get_state s = StreamState.Closed))) in
      let! encoded_headers := hpack_encode headers in
      let! nz_stream_id := expect_non_zero stream_id in
      send_header_block nz_stream_id encoded_headers end_stream ;!
      if is_closed then close_stream stream_id else ret tt.

Definition send_trailers (stream_id : StreamId.t) (headers : list HeaderField.t) : M unit :=
  let sid := StreamId.as_u32 stream_id in
  check_not_tunnel sid ;!
  let! r := gets role in
  let! so := gets (fun c => streams c !! sid) in
  if bool_decide (r = Role.Server)
     && match so with Some s => negb (Stream.final_response_sent s) | None => false end then
    throw (Error.stream_error ErrorCode.ProtocolError "cannot send trailers before final response")
  else
    lift (Validation.validate_trailers headers) ;!
    check_peer_header_list_size headers ;!
    check_send_buffer_empty sid ;!
    let! _ := require_stream sid in
    let! is_closed := stream_mut sid
      (Stream.state_machine_mut (StateMachine.send_headers true) ;!
       gets (fun s => bool_decide (Stream.get_state s = StreamState.Closed))) in
    let! encoded_headers := hpack_encode headers in
    let! nz_stream_id := expect_non_zero stream_id in
    send_header_block nz_stream_id encoded_headers true ;!
    if is_closed then close_stream stream_id else ret tt.

(** ** Receiving header blocks *)

(** [self.streams.entry(sid).or_insert_with(|| Stream::new(..))] *)
Definition ensure_stream (stream_id : StreamId.t) : M unit :=
  modify (fun c =>
    let sid := StreamId.as_u32 stream_id in
    match streams c !! sid with
    | Some _ => c
    | None =>
        c <| streams := <[sid := Stream.new stream_id
               (WindowSize.get (Settings.initial_window_size (remote_settings c)))
               (WindowSize.get (Settings.initial_window_size (local_settings c)))]> (streams c) |>
    end).

Definition reset_headers_validation_error (stream_id : StreamId.t) : M unit :=
  ensure_stream stream_id ;!
  reset_stream_internal stream_id ErrorCode.ProtocolError 0.

Definition note_successful (sid : Z) : M unit :=
  modify (fun c => if sid >? last_successful_stream_id c
                   then c <| last_successful_stream_id := sid |> else c).

Definition reset_refused_concurrent_stream (stream_id : StreamId.t) : M unit :=
  ensure_stream stream_id ;!
  reset_stream_internal stream_id ErrorCode.RefusedStream 0 ;!
  note_successful (StreamId.as_u32 stream_id).

Definition reset_connect_established_headers (stream_id : StreamId.t) : M unit :=
  reset_stream_internal stream_id ErrorCode.ProtocolError 0.

(** [process_headers] up to the validation of the list: [false] when the stream
    was reset instead. *)
Definition check_received (stream_id : StreamId.t) (headers : list HeaderField.t)
  (end_stream is_trailer : bool) : M bool :=
  let sid := StreamId.as_u32 stream_id in
  let reject := reset_headers_validation_error stream_id ;! ret false in
  if is_trailer then
    let! r := attempt (lift (Validation.validate_trailers headers)) in
    if is_err r then reject else if negb end_stream then reject else ret true
  else
    let! r := gets role in
    match r with
    | Role.Server =>
        let! r := attempt (lift (Validation.validate_request_headers headers)) in
        if is_err r then reject
        else
          let protocol_value := find_value ":protocol" headers in
          let has_protocol := match protocol_value with Some _ => true | None => false end in
          let! local := gets local_settings in
          if has_protocol && negb (Settings.enable_connect_protocol local) then reject
          else
            match find_value ":method" headers with
            | Some method =>
                ensure_stream stream_id ;!
                stream_mut sid
                  (Stream.set_request_method method ;!
                   Stream.set_has_protocol has_protocol ;!
                   match protocol_value with Some proto => Stream.set_protocol proto | None => ret tt end)
            | None => ret tt
            end ;!
            ret true
    | Role.Client =>
        let! r := attempt (lift (Validation.validate_response_headers headers)) in
        if is_err r then reject
        else
          let! so := gets (fun c => streams c !! sid) in
          match so with
          | Some s =>
              stream_mut sid (note_tunnel headers) ;!
              if is_no_content headers || method_is s "HEAD"
              then stream_mut sid (Stream.set_no_content true)
              else ret tt
          | None => ret tt
          end ;!
          ret true
    end.

(** The end of [process_headers]: the stream is closed when both sides ended it. *)
Definition finish_headers (stream_id : StreamId.t) (end_stream : bool) : M unit :=
  let! is_closed := stream_mut (StreamId.as_u32 stream_id)
    (gets (fun s => end_stream && bool_decide (Stream.get_state s = StreamState.Closed))) in
  if is_closed then close_stream stream_id else ret tt.

(** The stream's first final header list: [false] when an interim response
    ends the stream, which resets it. *)
Definition note_initial_headers (stream_id : StreamId.t) (headers : list HeaderField.t)
  (end_stream : bool) : M bool :=
  let sid := StreamId.as_u32 stream_id in
  let! initial := stream_mut sid (gets Stream.initial_headers_received) in
  let! r := gets role in
  if initial then ret true
  else
    match r with
    | Role.Server => stream_mut sid (Stream.set_initial_headers_received true) ;! ret true
    | Role.Client =>
        if is_informational headers && end_stream then
          reset_stream_internal stream_id ErrorCode.ProtocolError 0 ;! ret false
        else
          (if negb (is_informational headers)
           then stream_mut sid (Stream.set_initial_headers_received true) else ret tt) ;!
          ret true
    end.

(** [process_headers] from the state transition on. *)
Definition accept_headers (stream_id : StreamId.t) (headers : list HeaderField.t)
  (end_stream is_trailer : bool) (content_length : option Z) : M unit :=
  let sid := StreamId.as_u32 stream_id in
  ensure_stream stream_id ;!
  let! r := attempt (stream_mut sid (Stream.state_machine_mut (StateMachine.recv_headers end_stream))) in
  if is_err r then reset_stream_internal stream_id ErrorCode.StreamClosed 0
  else
    let headers := concatenate_cookies headers in
    if is_trailer then
      push_event (Event.TrailersReceived stream_id headers) ;!
      finish_headers stream_id end_stream
    else
      stream_mut sid (Stream.set_headers headers) ;!
      stream_mut sid (Stream.set_expected_content_length content_length) ;!
      let! continue_ := note_initial_headers stream_id headers end_stream in
      if negb continue_ then ret tt
      else
        let! s := stream_mut sid (gets id) in
        let! r := gets role in
        let skip_check :=
          match r with
          | Role.Client => is_no_content headers || method_is s "HEAD"
          | Role.Server => false
          end in
        if end_stream && match content_length with Some n => negb (n =? 0) | None => false end
           && negb skip_check then
          reset_stream_internal stream_id ErrorCode.ProtocolError 0
        else
          push_event (Event.HeadersReceived stream_id headers end_stream (Stream.protocol s)) ;!
          finish_headers stream_id end_stream.

Definition process_headers (stream_id : StreamId.t) (headers : list HeaderField.t)
  (end_stream : bool) : M unit :=
  let sid := StreamId.as_u32 stream_id in
  let has_pseudo_header :=
    existsb (fun h => starts_with (HeaderField.name h) (bstr ":")) headers in
  let! so := gets (fun c => streams c !! sid) in
  let initial_received := match so with Some s => Stream.initial_headers_received s | None => false end in
  if negb has_pseudo_header && negb initial_received then reset_headers_validation_error stream_id
  else if has_pseudo_header && initial_received then reset_headers_validation_error stream_id
  else
    let is_trailer := negb has_pseudo_header in
    let! continue_ := check_received stream_id headers end_stream is_trailer in
    if negb continue_ then ret tt
    else if is_trailer then accept_headers stream_id headers end_stream is_trailer None
    else
      let! r := attempt (lift (extract_content_length headers)) in
      match r with
      | Ok content_length => accept_headers stream_id headers end_stream is_trailer content_length
      | _ => reset_headers_validation_error stream_id
      end.

Definition MAX_HEADER_BLOCK_FRAGMENT_SIZE : Z := 64 * 1024 * 1024.

Definition effective_max (c : t) : Z :=
  match Settings.max_header_list_size (local_settings c) with
  | Some s => s
  | None => MAX_HEADER_BLOCK_FRAGMENT_SIZE
  end.

Definition check_header_block_fragment_size : M unit :=
  let! too_big := gets (fun c => len (header_block_fragment c) >? effective_max c) in
  if too_big
  then throw (Error.connection_error ErrorCode.CompressionError
                "accumulated header block fragment exceeds size limit")
  else ret tt.

(** [self.hpack_decoder.decode(..).map_err(..)?] *)
Definition hpack_decode (fragment : list Z) : M (list HeaderField.t) :=
  fun c =>
    let '(r, d) := Decoder.decode fragment (hpack_decoder c) in
    (map_err (fun _ => Error.connection_error ErrorCode.CompressionError "HPACK decode error: {}") r,
     c <| hpack_decoder := d |>).

(** What HEADERS and the last CONTINUATION share: the decoded list is dropped
    for a closed stream, refused over the limit of concurrent streams or on a
    CONNECT tunnel, and processed otherwise. *)
Definition complete_header_block (stream_id : StreamId.t) (headers : list HeaderField.t)
  (end_stream is_previously_closed : bool) : M unit :=
  let sid := StreamId.as_u32 stream_id in
  let! closed := gets (is_stream_closed sid) in
  if is_previously_closed || closed then
    modify (fun c => c <| connect_established_headers_received := false |>)
  else
    let! exceeded := gets header_concurrent_limit_exceeded in
    if exceeded then
      modify (fun c => c <| header_concurrent_limit_exceeded := false |>) ;!
      reset_refused_concurrent_stream stream_id
    else
      let! tunnel := gets connect_established_headers_received in
      if tunnel then
        modify (fun c => c <| connect_established_headers_received := false |>) ;!
        reset_connect_established_headers stream_id
      else
        process_headers stream_id headers end_stream ;!
        note_successful sid.

(** [handle_headers] up to the header block: whether the stream was closed
    before. *)
Definition begin_header_block (sid : Z) : M bool :=
  let! st := gets state in
  let! last := gets last_recv_stream_id in
  let! known := gets (contains_stream sid) in
  let! is_previously_closed := gets (fun c => BoundedSet.contains sid (closed_streams c)) in
  if bool_decide (st = ConnectionState.GoawaySent) && (sid >? last) && negb known
     && negb is_previously_closed then
    throw (Error.connection_error ErrorCode.ProtocolError "new stream after GOAWAY sent")
  else if negb is_previously_closed && negb known && (sid <=? last) then
    throw (Error.connection_error ErrorCode.ProtocolError
             "stream ID {} not greater than last received {}")
  else
    (if negb is_previously_closed then
       let! so := gets (fun c => streams c !! sid) in
       (if match so with Some s => Stream.connect_established s | None => false end
        then modify (fun c => c <| connect_established_headers_received := true |>)
        else ret tt) ;!
       let! r := attempt (check_concurrent_streams_limit sid) in
       if is_err r
       then modify (fun c => c <| header_concurrent_limit_exceeded := true |>)
       else ret tt
     else ret tt) ;!
    modify (fun c => if sid >? last_recv_stream_id c
                     then c <| last_recv_stream_id := sid |> else c) ;!
    ret is_previously_closed.

(** The start of a header block that goes on in CONTINUATION frames. *)
Definition await_continuation (sid : Z) (frame : HeadersFrame.t) : M unit :=
  modify (fun c => c <| header_continuation_stream := Some sid |>) ;!
  modify (fun c => c <| header_block_fragment := HeadersFrame.header_block_fragment frame |>) ;!
  modify (fun c => c <| header_end_stream := HeadersFrame.end_stream frame |>) ;!
  check_header_block_fragment_size.

Definition handle_headers (frame : HeadersFrame.t) : M unit :=
  match HeadersFrame.stream_id frame with
  | NonZeroStreamId.Server _ =>
      throw (Error.connection_error ErrorCode.ProtocolError "server-initiated stream not supported: {}")
  | NonZeroStreamId.Client _ =>
      let stream_id := StreamId.from (HeadersFrame.stream_id frame) in
      let sid := NonZeroStreamId.as_u32 (HeadersFrame.stream_id frame) in
      let! is_previously_closed := begin_header_block sid in
      if HeadersFrame.end_headers frame then
        let! headers := hpack_decode (HeadersFrame.header_block_fragment frame) in
        complete_header_block stream_id headers (HeadersFrame.end_stream frame) is_previously_closed
      else await_continuation sid frame
  end.

(** The end of the block: decode what was accumulated and complete it. *)
Definition finish_continuation (expected_stream_id : Z) : M unit :=
  modify (fun c => c <| header_continuation_stream := None |>) ;!
  let! fragment := gets header_block_fragment in
  let! headers := hpack_decode fragment in
  modify (fun c => c <| header_block_fragment := [] |>) ;!
  let! is_previously_closed := gets (fun c => BoundedSet.contains expected_stream_id (closed_streams c)) in
  let! end_stream := gets header_end_stream in
  modify (fun c => c <| header_end_stream := false |>) ;!
  complete_header_block (StreamId.from_wire expected_stream_id) headers end_stream is_previously_closed.

Definition handle_continuation (frame : ContinuationFrame.t) : M unit :=
  let! expected := gets header_continuation_stream in
  let! expected_stream_id :=
    lift (ok_or expected (Error.connection_error ErrorCode.ProtocolError
            "CONTINUATION frame received without preceding HEADERS")) in
  if negb (NonZeroStreamId.as_u32 (ContinuationFrame.stream_id frame) =? expected_stream_id) then
    throw (Error.connection_error ErrorCode.ProtocolError "CONTINUATION frame stream ID mismatch")
  else
    modify (fun c => c <| header_block_fragment :=
      header_block_fragment c ++ ContinuationFrame.header_block_fragment frame |>) ;!
    check_header_block_fragment_size ;!
    if ContinuationFrame.end_headers frame then finish_continuation expected_stream_id else ret tt.

End Headers.
