(* ===== verification/ConnRecv.v ===== *)
(** * ConnRecv: handling received frames

    Models the receiving half of [src/src/connection.rs]: one handler per frame
    type, [handle_frame] with the checks of the connection preface and of
    CONTINUATION sequences, and the [process] loop. *)

From S2P Require Import Prelude Errors StreamIds Config Flow Bounded StreamCore FrameTypes.
From S2P Require Import FrameEncode FrameDecode HpackTable HpackCodec Stream ConnBase.
From S2P Require Import ConnHeaders.

Module Handlers.
Import Connection Headers.

(** ** DATA and RST_STREAM *)

(** The part of [handle_data] that looks at the stream: the code of the stream
    error that resets it, or whether the stream is now closed. *)
Definition receive_data (frame : DataFrame.t) (flow_control_size : Z)
  : ST Stream.t Error.t (ErrorCode.t + bool) :=
  let end_stream := DataFrame.end_stream frame in
  let data_len := len (DataFrame.data frame) in
  let! r := attempt (Stream.state_machine_mut (StateMachine.recv_data end_stream)) in
  if is_err r then ret (inl ErrorCode.StreamClosed)
  else
    let! r := attempt (Stream.flow_control_mut (FlowControl.consume_recv flow_control_size)) in
    if is_err r then ret (inl ErrorCode.FlowControlError)
    else
      let! no_content := gets Stream.no_content in
      if no_content && negb (data_len =? 0) then ret (inl ErrorCode.ProtocolError)
      else
        Stream.add_received_content_length data_len ;!
        let! expected := gets Stream.expected_content_length in
        let! received := gets Stream.received_content_length in
        let violated :=
          match expected with
          | Some expected =>
              negb no_content &&
              ((received >? expected) || (end_stream && negb (received =? expected)))
          | None => false
          end in
        if violated then ret (inl ErrorCode.ProtocolError)
        else
          let! closed := gets (fun s => bool_decide (Stream.get_state s = StreamState.Closed)) in
          ret (inr (end_stream && closed)).

Definition flow_control_size (frame : DataFrame.t) : Z :=
  match DataFrame.pad_length frame with
  | Some pad_length => 1 + len (DataFrame.data frame) + pad_length
  | None => len (DataFrame.data frame)
  end.

Definition handle_data (frame : DataFrame.t) : M unit :=
  let sid := NonZeroStreamId.as_u32 (DataFrame.stream_id frame) in
  let stream_id := StreamId.from (DataFrame.stream_id frame) in
  let size := flow_control_size frame in
  check_not_idle_stream sid "DATA" ;!
  on_flow_control (FlowControl.consume_recv size) ;!
  let! closed := gets (is_stream_closed sid) in
  let! known := gets (contains_stream sid) in
  if closed || negb known then
    (if size >? 0 then push_event (Event.DataDiscarded stream_id size) else ret tt)
  else
    let! _ := require_stream sid in
    let! outcome := stream_mut sid (receive_data frame size) in
    match outcome with
    | inl code => reset_stream_internal stream_id code size
    | inr is_closed =>
        push_event (Event.DataReceived stream_id (DataFrame.data frame) (DataFrame.end_stream frame)) ;!
        if is_closed then
          push_event (Event.StreamClosed stream_id) ;!
          forget_stream sid
        else ret tt
    end.

Definition handle_rst_stream (frame : RstStreamFrame.t) : M unit :=
  let sid := NonZeroStreamId.as_u32 (RstStreamFrame.stream_id frame) in
  check_not_idle_stream sid "RST_STREAM" ;!
  let! so := gets (fun c => streams c !! sid) in
  match so with
  | Some _ =>
      stream_mut sid (Stream.state_machine_mut StateMachine.recv_rst_stream) ;!
      push_event (Event.StreamReset (StreamId.from (RstStreamFrame.stream_id frame))
                    (ErrorCode.from_u32 (RstStreamFrame.error_code frame)) 0) ;!
      forget_stream sid
  | None => ret tt
  end.

(** ** SETTINGS *)

Fixpoint update_windows (stream_ids : list Z) (new_initial_window_size : Z) : M unit :=
  match stream_ids with
  | [] => ret tt
  | sid :: stream_ids =>
      stream_mut sid
        (Stream.flow_control_mut (FlowControl.update_initial_window_size new_initial_window_size)) ;!
      update_windows stream_ids new_initial_window_size
  end.

Definition update_stream_windows `{HashOrder} (new_initial_window_size : Z) : M unit :=
  let! ids := gets hash_order in
  update_windows ids new_initial_window_size.

(** What a setting does besides replacing the peer's value. *)
Definition note_setting (setting : Setting.t) : M unit :=
  match setting with
  | Setting.NoRfc7540Priorities new_value =>
      let! initial := gets initial_no_rfc7540_priorities in
      match initial with
      | Some initial_value =>
          if negb (Bool.eqb new_value initial_value)
          then throw (Error.connection_error ErrorCode.ProtocolError
                        "NO_RFC7540_PRIORITIES cannot be changed after initial setting")
          else ret tt
      | None => modify (fun c => c <| initial_no_rfc7540_priorities := Some new_value |>)
      end
  | Setting.EnableConnectProtocol value =>
      if value then modify (fun c => c <| peer_sent_enable_connect_protocol := true |>)
      else
        let! sent := gets peer_sent_enable_connect_protocol in
        if sent
        then throw (Error.connection_error ErrorCode.ProtocolError
                      "SETTINGS_ENABLE_CONNECT_PROTOCOL cannot be set to 0 after sending 1")
        else ret tt
  | _ => ret tt
  end.

(** The body of [for setting in frame.settings()]. *)
Definition apply_setting (setting : Setting.t) : M unit :=
  let! r := gets role in
  match r, setting with
  | Role.Client, Setting.EnablePush true =>
      throw (Error.connection_error ErrorCode.ProtocolError "server sent ENABLE_PUSH=1 to client")
  | _, _ =>
      note_setting setting ;!
      modify (fun c => c <| remote_settings := Settings.apply setting (remote_settings c) |>)
  end.

Fixpoint apply_settings (settings : list Setting.t) : M unit :=
  match settings with
  | [] => ret tt
  | setting :: settings => apply_setting setting ;! apply_settings settings
  end.

(** The header table size the peer last announced, for the next header block:
    the smallest and the last of the values since the last one sent. *)
Definition note_table_size (old_header_table_size : Z) : M unit :=
  let! new_size := gets (fun c => Settings.header_table_size (remote_settings c)) in
  if negb (new_size =? old_header_table_size) then
    modify (fun c =>
      let new_min :=
        match pending_table_size_update c with
        | Some (existing_min, _) => Z.min existing_min new_size
        | None => new_size
        end in
      c <| pending_table_size_update := Some (new_min, new_size) |>)
  else ret tt.

Definition resize_encoder : M unit :=
  fun c =>
    match Encoder.set_max_table_size (Settings.header_table_size (remote_settings c)) (hpack_encoder c) with
    | Ok e => (Ok tt, c <| hpack_encoder := e |>)
    | Err e => (Err e, c)
    | Panic => (Panic, c)
    end.

Definition handle_settings `{HashOrder} (frame : SettingsFrame.t) : M unit :=
  if SettingsFrame.is_ack frame then
    let! pending := gets pending_settings_count in
    if pending =? 0 then
      throw (Error.connection_error ErrorCode.ProtocolError
               "received SETTINGS ACK without pending SETTINGS")
    else
      modify (fun c => c <| pending_settings_count := pending - 1 |>) ;!
      modify (fun c => if bool_decide (state c = ConnectionState.WaitingPreface)
                       then c <| state := ConnectionState.Active |> else c) ;!
      push_event (Event.SettingsReceived true)
  else
    let! old := gets remote_settings in
    let old_initial_window_size := WindowSize.get (Settings.initial_window_size old) in
    apply_settings (SettingsFrame.settings frame) ;!
    modify (fun c => if bool_decide (state c = ConnectionState.WaitingPreface)
                        && match initial_no_rfc7540_priorities c with None => true | Some _ => false end
                     then c <| initial_no_rfc7540_priorities := Some false |> else c) ;!
    note_table_size (Settings.header_table_size old) ;!
    let! new_initial_window_size :=
      gets (fun c => WindowSize.get (Settings.initial_window_size (remote_settings c))) in
    (if negb (new_initial_window_size =? old_initial_window_size)
     then update_stream_windows new_initial_window_size else ret tt) ;!
    resize_encoder ;!
    send_frame (Frame.Settings SettingsFrame.ack) ;!
    flush_all_stream_data ;!
    push_event (Event.SettingsReceived false) ;!
    let! st := gets state in
    if bool_decide (st = ConnectionState.WaitingPreface) then
      modify (fun c => c <| state := ConnectionState.Active |>) ;!
      push_event Event.ConnectionPreface
    else ret tt.

(** ** PING, GOAWAY, WINDOW_UPDATE, PRIORITY_UPDATE *)

Definition handle_ping (frame : PingFrame.t) : M unit :=
  (if negb (PingFrame.is_ack frame)
   then send_frame (Frame.Ping (PingFrame.ack (PingFrame.opaque_data frame))) else ret tt) ;!
  push_event (Event.PingReceived (PingFrame.opaque_data frame) (PingFrame.is_ack frame)).

Definition handle_goaway (frame : GoawayFrame.t) : M unit :=
  modify (fun c => c <| state := ConnectionState.GoawayReceived |>) ;!
  push_event (Event.GoawayReceived
    (StreamId.from_wire (LastStreamId.get (GoawayFrame.last_stream_id frame)))
    (ErrorCode.from_u32 (GoawayFrame.error_code frame)) (GoawayFrame.debug_data frame)).

Definition handle_window_update `{HashOrder} (frame : WindowUpdateFrame.t) : M unit :=
  let stream_id := WindowUpdateFrame.stream_id frame in
  let sid := StreamId.as_u32 stream_id in
  let increment := WindowIncrement.as_u32 (WindowUpdateFrame.window_size_increment frame) in
  let report := push_event (Event.WindowUpdateReceived stream_id increment) in
  match stream_id with
  | StreamId.Connection =>
      on_flow_control (FlowControl.recv_window_update increment) ;!
      flush_all_stream_data ;!
      report
  | _ =>
      check_not_idle_stream sid "WINDOW_UPDATE" ;!
      let! so := gets (fun c => streams c !! sid) in
      match so with
      | Some s =>
          if bool_decide (Stream.get_state s = StreamState.Closed) then ret tt
          else
            let! r := attempt
              (stream_mut sid (Stream.flow_control_mut (FlowControl.recv_window_update increment))) in
            if is_err r then reset_stream stream_id ErrorCode.FlowControlError
            else
              flush_stream_data sid ;!
              try_remove_closed_stream sid ;!
              report
      | None => report
      end
  end.

Definition handle_priority_update (frame : PriorityUpdateFrame.t) : M unit :=
  let! r := gets role in
  if bool_decide (r = Role.Client) then
    throw (Error.connection_error ErrorCode.ProtocolError "client received PRIORITY_UPDATE frame")
  else
    match PriorityUpdateFrame.prioritized_element_id frame with
    | NonZeroStreamId.Client _ =>
        push_event (Event.PriorityUpdateReceived
          (StreamId.from (PriorityUpdateFrame.prioritized_element_id frame))
          (PriorityUpdateFrame.priority_field_value frame))
    | NonZeroStreamId.Server _ =>
        throw (Error.connection_error ErrorCode.ProtocolError
                 "PRIORITY_UPDATE for non-client-initiated stream")
    end.

(** ** Dispatch *)

(** The checks at the top of [handle_frame]. *)
Definition check_frame_allowed (frame : Frame.t) : M unit :=
  let! st := gets state in
  let! r := gets role in
  let! preface := gets preface_received in
  let waiting := bool_decide (st = ConnectionState.WaitingPreface) in
  if waiting && bool_decide (r = Role.Server) && negb preface then
    throw (Error.connection_error ErrorCode.ProtocolError "client connection preface not received")
  else if waiting && negb match frame with
                          | Frame.Settings sf => negb (SettingsFrame.is_ack sf)
                          | _ => false
                          end then
    throw (Error.connection_error ErrorCode.ProtocolError "first frame must be SETTINGS")
  else
    let! expected := gets header_continuation_stream in
    match expected with
    | None => ret tt
    | Some expected_stream_id =>
        if match frame with
           | Frame.Continuation cf =>
               NonZeroStreamId.as_u32 (ContinuationFrame.stream_id cf) =? expected_stream_id
           | _ => false
           end
        then ret tt
        else throw (Error.connection_error ErrorCode.ProtocolError "expected CONTINUATION frame")
    end.

(** An unknown frame on an established CONNECT tunnel resets the stream. *)
Definition handle_unknown (header : FrameHeader.t) : M unit :=
  let sid := FrameHeader.stream_id header in
  let! so := gets (fun c => streams c !! sid) in
  if negb (sid =? 0)
     && match so with Some s => Stream.connect_established s | None => false end
  then reset_stream_internal (StreamId.from_wire sid) ErrorCode.ProtocolError 0
  else ret tt.

Definition dispatch `{HashOrder} (frame : Frame.t) : M unit :=
  match frame with
  | Frame.Data f => handle_data f
  | Frame.Headers f => handle_headers f
  | Frame.Priority _ => ret tt
  | Frame.RstStream f => handle_rst_stream f
  | Frame.Settings f => handle_settings f
  | Frame.PushPromise _ =>
      throw (Error.connection_error ErrorCode.ProtocolError "PUSH_PROMISE not supported")
  | Frame.Ping f => handle_ping f
  | Frame.Goaway f => handle_goaway f
  | Frame.WindowUpdate f => handle_window_update f
  | Frame.Continuation f => handle_continuation f
  | Frame.PriorityUpdate f => handle_priority_update f
  | Frame.Unknown header _ => handle_unknown header
  end.

Definition handle_frame `{HashOrder} (frame : Frame.t) : M unit :=
  check_frame_allowed frame ;!
  dispatch frame.

(** ** The processing loop *)

Definition next_frame : M (result Error.t (option Frame.t)) :=
  attempt (zoom frame_decoder (fun v c => c <| frame_decoder := v |>) FrameDecoder.decode).

(** A stream error of the frame decoder: reset the stream, or promote the error
    when the stream is idle. *)
Definition handle_decode_error (e : Error.t) : M unit :=
  let! last := gets (fun c => FrameDecoder.last_decoded_stream_id (frame_decoder c)) in
  match last, Error.error_code e with
  | Some stream_id, Some error_code =>
      let! idle := gets (is_idle_stream stream_id) in
      if idle then
        throw (Error.connection_error error_code
                 "stream error on idle stream {} promoted to connection error")
      else reset_stream (StreamId.from_wire stream_id) error_code
  | _, _ => ret tt
  end.

(** [loop { match self.frame_decoder.decode() .. }].  Handlers do not touch the
    frame decoder and every decoded frame takes octets from it, so its measure
    bounds the turns. *)
Fixpoint process_loop `{HashOrder} (fuel : nat) : M unit :=
  match fuel with
  | O => panic
  | S fuel =>
      let! r := next_frame in
      match r with
      | Ok (Some frame) => handle_frame frame ;! process_loop fuel
      | Ok None => ret tt
      | Err e =>
          if Error.is_stream_error e then handle_decode_error e ;! process_loop fuel
          else throw e
      | Panic => panic
      end
  end.

Definition process `{HashOrder} : M unit :=
  let! fuel := gets (fun c => S (FrameDecoder.measure (frame_decoder c))) in
  process_loop fuel.

End Handlers.
