(* ===== verification/ConnInv.v ===== *)
(** * ConnInv: the invariant of a connection

    What holds of every state a connection can reach, how one method may change
    the state ([evolves]), and the proof that every sending method keeps the
    invariant and cannot panic.  The receiving methods follow in [ConnSafe]. *)

From S2P Require Import Prelude Errors StreamIds Config Flow Bounded StreamCore FrameTypes.
From S2P Require Import FrameEncode FrameDecode FrameCodec HpackTable HpackCodec Stream.
From S2P Require Import ConnBase ConnHeaders ConnRecv.
Import Connection.

Module Invariant.

(** Every stream of the map has a client's identifier; server push is not
    supported. *)
Definition client_id (sid : Z) : Prop := 0 < sid <= STREAM_ID_MAX /\ sid mod 2 = 1.

Definition stream_ok (sid : Z) (s : Stream.t) : Prop := client_id sid /\ Stream.wf s.

(** The encoder's table is one a decoder could hold too. *)
Definition encoder_ok (e : Encoder.t) : Prop :=
  sync e (Decoder.mk (Encoder.dynamic_table e) (2 ^ 62) None).

Definition decoder_ok (d : Decoder.t) : Prop :=
  Decoder.wf d /\ forall m, Decoder.max_header_list_size d = Some m -> 0 <= m.

Record wf (c : t) : Prop := mk_wf {
  wf_local : Settings.wf (local_settings c);
  wf_remote : Settings.wf (remote_settings c);
  wf_flow : FlowControl.wf (flow_control c);
  wf_streams : map_Forall stream_ok (streams c);
  wf_closed : BoundedSet.wf (closed_streams c);
  wf_closed_max : BoundedSet.max_size (closed_streams c) = CLOSED_STREAMS_MAX_SIZE;
  wf_next : 0 < next_stream_id c <= STREAM_ID_MAX + 2;
  wf_parity : role c = Role.Client -> next_stream_id c mod 2 = 1;
  wf_recv : 0 <= last_recv_stream_id c <= STREAM_ID_MAX;
  wf_succ : 0 <= last_successful_stream_id c <= STREAM_ID_MAX;
  wf_goaway : forall i, last_sent_goaway_stream_id c = Some i -> 0 <= i <= STREAM_ID_MAX;
  wf_encoder : encoder_ok (hpack_encoder c);
  wf_decoder : decoder_ok (hpack_decoder c);
  wf_frames : FrameDecoder.wf (frame_decoder c);
  wf_encbuf : FrameEncoder.buf (frame_encoder c) = [];
  wf_pending : 0 <= pending_settings_count c;
  wf_continuation : forall sid, header_continuation_stream c = Some sid -> client_id sid;
  wf_fragment : bytes_ok (header_block_fragment c);
  wf_preface : len (preface_buffer c) <= CONNECTION_PREFACE_LEN;
  wf_window : 0 <= connection_window_size c <= MAX_WINDOW_SIZE;
  wf_update : forall a b, pending_table_size_update c = Some (a, b) -> u32_ok a /\ u32_ok b
}.

(** GOAWAY's last stream identifier never grows. *)
Definition goaway_le (a b : option Z) : Prop :=
  match a, b with
  | Some p, Some q => q <= p
  | Some _, None => False
  | None, _ => True
  end.

(** The octets of the frames of a list. *)
Definition wires (fs : list Frame.t) : list Z :=
  concat (map (fun f => default [] (FrameEncoder.wire f)) fs).

(** The content octets counted for a stream. *)
Definition content (c : t) (sid : Z) : Z :=
  match streams c !! sid with Some s => Stream.received_content_length s | None => 0 end.

(** How a method other than [feed] and the polls changes a connection: it adds
    whole frames to the output, moves the identifiers forward only, and counts
    at most [n] content octets on a stream. *)
Record evolves (n : Z) (c c' : t) : Prop := mk_evolves {
  ev_role : role c' = role c;
  ev_local : local_settings c' = local_settings c;
  ev_frames : frame_decoder c' = frame_decoder c;
  ev_next : next_stream_id c <= next_stream_id c';
  ev_recv : last_recv_stream_id c <= last_recv_stream_id c';
  ev_succ : last_successful_stream_id c <= last_successful_stream_id c';
  ev_goaway : goaway_le (last_sent_goaway_stream_id c) (last_sent_goaway_stream_id c');
  ev_output : exists fs, Forall (sendable MAX_MAX_FRAME_SIZE) fs /\
                         output_buffer c' = output_buffer c ++ wires fs;
  ev_content : forall sid, content c' sid <= n + content c sid;
  ev_pending : pending_settings_count c' <= pending_settings_count c;
  ev_preface : preface_sent c = true -> preface_sent c' = true;
  ev_received : preface_received c' = preface_received c;
  ev_prefix : preface_buffer c' = preface_buffer c
}.

Definition good (n : Z) (c c' : t) : Prop := wf c' /\ evolves n c c'.

(** A method that keeps the invariant, whatever its outcome. *)
Definition op {A} (X : M A) (c : t) : Prop := wp X (fun _ => good 0 c) (good 0 c) c.

End Invariant.
Import Invariant.

(** ** Lemmas: composition *)

Lemma goaway_le_refl a : goaway_le a a.
Proof. destruct a; cbn; lia. Qed.
Lemma goaway_le_trans a b c : goaway_le a b -> goaway_le b c -> goaway_le a c.
Proof. destruct a, b, c; cbn; try done; lia. Qed.

Lemma wires_app fs gs : wires (fs ++ gs) = wires fs ++ wires gs.
Proof. unfold wires. by rewrite map_app, concat_app. Qed.

Lemma evolves_refl c : evolves 0 c c.
Proof.
  constructor; try done; try (intros; lia); [apply goaway_le_refl|].
  exists []. by rewrite app_nil_r.
Qed.

Lemma evolves_trans n m c c1 c2 : evolves n c c1 -> evolves m c1 c2 -> evolves (n + m) c c2.
Proof.
  intros [] [].
  destruct ev_output0 as (fs & Hfs & Ho). destruct ev_output1 as (gs & Hgs & Ho').
  constructor; try congruence; try lia.
  - by eapply goaway_le_trans.
  - exists (fs ++ gs). rewrite wires_app, Ho', Ho, app_assoc. split; [by apply Forall_app|done].
  - intros sid. specialize (ev_content0 sid). specialize (ev_content1 sid). lia.
  - auto.
Qed.

Lemma good_refl c : wf c -> good 0 c c.
Proof. intros H. split; [done|apply evolves_refl]. Qed.
Lemma good_trans c c1 c2 : good 0 c c1 -> good 0 c1 c2 -> good 0 c c2.
Proof. intros [_ H1] [H2 H3]. split; [done|]. exact (evolves_trans 0 0 _ _ _ H1 H3). Qed.
Lemma good_wf n c c' : good n c c' -> wf c'.
Proof. by intros [? _]. Qed.
#[export] Hint Resolve good_refl good_trans good_wf : rust.

(** A method run later still takes the first state to a good one. *)
Lemma op_after {A} (X : M A) c c' :
  good 0 c c' -> op X c' -> wp X (fun _ => good 0 c) (good 0 c) c'.
Proof.
  intros Hc HX. eapply wp_mono; [exact HX| |]; cbn; intros; eapply good_trans; eassumption.
Qed.

Lemma op_seq {A B} (X : M A) (k : A -> M B) c :
  op X c -> (forall a c', good 0 c c' -> op (k a) c') -> op (bind X k) c.
Proof.
  intros HX Hk. eapply wp_seq; [exact HX| |done].
  intros a c' Hc. apply op_after; [done|by apply Hk].
Qed.

(** From a method with more precise postcondition. *)
Lemma op_seq_wp {A B} (X : M A) (k : A -> M B) (R : A -> t -> Prop) c :
  wp X R (good 0 c) c -> (forall a c', R a c' -> good 0 c c' /\ op (k a) c') -> op (bind X k) c.
Proof.
  intros HX Hk. eapply wp_seq; [exact HX| |done].
  intros a c' [Hc Ho]%Hk. by apply op_after.
Qed.

Lemma op_ret {A} (a : A) c : wf c -> op (ret a) c.
Proof. apply good_refl. Qed.
Lemma op_throw {A} e c : wf c -> op (A:=A) (throw e) c.
Proof. apply good_refl. Qed.
Lemma op_gets {A B} (f : t -> A) (k : A -> M B) c : op (k (f c)) c -> op (bind (gets f) k) c.
Proof. done. Qed.
Lemma op_gets_end {A} (f : t -> A) c : wf c -> op (gets f) c.
Proof. apply good_refl. Qed.
Lemma op_modify f c : good 0 c (f c) -> op (modify f) c.
Proof. done. Qed.
Lemma op_modify_seq {B} (f : t -> t) (k : unit -> M B) c :
  good 0 c (f c) -> (forall c', good 0 c c' -> op (k tt) c') -> op (bind (modify f) k) c.
Proof. intros Hf Hk. apply wp_modify_seq. apply op_after; [done|by apply Hk]. Qed.
Lemma op_lift {A B} (r : Result A) (k : A -> M B) c :
  wf c -> r <> Panic -> (forall a, r = Ok a -> op (k a) c) -> op (bind (lift r) k) c.
Proof. intros Hc Hr Hk. destruct r; [by apply Hk|by apply good_refl|done]. Qed.
Lemma op_attempt {A B} (X : M A) (k : result Error.t A -> M B) c :
  op X c -> (forall r c', r <> Panic -> good 0 c c' -> op (k r) c') -> op (bind (attempt X) k) c.
Proof.
  intros HX Hk. apply wp_attempt. eapply wp_mono; [exact HX| |].
  - intros a c' Hc. apply op_after; [done|by apply Hk].
  - intros c' Hc e. apply op_after; [done|by apply Hk].
Qed.
Lemma op_assoc {A B C} (m : M A) (k : A -> M B) (h : B -> M C) c :
  op (bind m (fun a => bind (k a) h)) c -> op (bind (bind m k) h) c.
Proof. apply wp_assoc. Qed.
Lemma op_if_seq {A B} (b : bool) (X Y : M A) (k : A -> M B) c :
  op (bind X k) c -> op (bind Y k) c -> op (bind (if b then X else Y) k) c.
Proof. by destruct b. Qed.

(** Assigning fields the invariant does not constrain: every clause is one of
    the old state, up to computation. *)
Ltac good_update :=
  match goal with
  | H : wf ?c |- good 0 ?c _ =>
      split;
      [ destruct H; constructor; cbn; try assumption
      | constructor; cbn; try done; try (intros; lia); try apply goaway_le_refl;
        try (exists []; by rewrite app_nil_r) ]
  end.

(** ** Lemmas: the stream map *)

(** [self.streams.insert(sid, s)] *)
Definition put (sid : Z) (s : Stream.t) (c : t) : t := c <| streams := <[sid := s]> (streams c) |>.

Lemma put_lookup sid s c : streams (put sid s c) !! sid = Some s.
Proof. unfold put. cbn. apply lookup_insert_eq. Qed.

Lemma wf_stream sid s c : wf c -> streams c !! sid = Some s -> stream_ok sid s.
Proof. intros H. exact (wf_streams c H sid s). Qed.

Lemma content_nonneg c sid : wf c -> 0 <= content c sid.
Proof.
  intros H. unfold content. destruct (streams c !! sid) as [s|] eqn:E; [|done].
  by destruct (wf_stream sid s c H E) as [_ (_ & _ & _ & _ & ?)].
Qed.

Lemma put_good n sid s c :
  wf c -> client_id sid -> Stream.wf s -> 0 <= n -> Stream.received_content_length s <= n + content c sid ->
  good n c (put sid s c).
Proof.
  intros Hwf Hid Hs Hn Hr. split.
  - destruct Hwf; constructor; cbn; try assumption. by apply map_Forall_insert_2.
  - constructor; cbn; try done; try lia; [apply goaway_le_refl|exists []; by rewrite app_nil_r|].
    intros i. unfold content, put. cbn. destruct (decide (i = sid)) as [->|Hne].
    + rewrite lookup_insert_eq. exact Hr.
    + rewrite lookup_insert_ne by done. lia.
Qed.

(** What a method of a stream has to keep. *)
Definition stream_keeps (s s' : Stream.t) : Prop :=
  Stream.wf s' /\ Stream.received_content_length s' <= Stream.received_content_length s.

Lemma stream_mut_wp {A} sid s (m : ST Stream.t Error.t A) c :
  wf c -> streams c !! sid = Some s ->
  wp m (fun _ => stream_keeps s) (stream_keeps s) s ->
  wp (stream_mut sid m)
    (fun a c' => good 0 c c' /\ exists s', m s = (Ok a, s') /\ c' = put sid s' c) (good 0 c) c.
Proof.
  intros Hwf Hs Hm. destruct (wf_stream sid s c Hwf Hs) as [Hid _].
  assert (forall s', stream_keeps s s' -> good 0 c (put sid s' c)) as Hput.
  { intros s' [H1 H2]. apply put_good; try done. unfold content. rewrite Hs. lia. }
  unfold wp, stream_mut in *. rewrite Hs. destruct (m s) as [[a|e|] s'] eqn:E; [|by apply Hput|done].
  split; [by apply Hput|eauto].
Qed.

Lemma stream_mut_op {A} sid s (m : ST Stream.t Error.t A) c :
  wf c -> streams c !! sid = Some s -> wp m (fun _ => stream_keeps s) (stream_keeps s) s ->
  op (stream_mut sid m) c.
Proof.
  intros Hwf Hs Hm. eapply wp_mono; [by eapply stream_mut_wp| |done]. by intros a c' [H _].
Qed.

(** Sequencing after a stream's method, which leaves the stream in the map. *)
Lemma stream_mut_seq {A B} sid s (m : ST Stream.t Error.t A) (k : A -> M B) c :
  wf c -> streams c !! sid = Some s -> wp m (fun _ => stream_keeps s) (stream_keeps s) s ->
  (forall a s', m s = (Ok a, s') -> wf (put sid s' c) -> op (k a) (put sid s' c)) ->
  op (bind (stream_mut sid m) k) c.
Proof.
  intros Hwf Hs Hm Hk. eapply op_seq_wp; [by eapply stream_mut_wp|].
  cbn. intros a c' (Hg & s' & He & ->). split; [done|]. eapply Hk; [done|]. by destruct Hg.
Qed.

Lemma forget_stream_op sid c : wf c -> op (forget_stream sid) c.
Proof.
  intros Hwf. unfold op, wp, forget_stream, bind, modify. split.
  - destruct Hwf; constructor; cbn; try assumption.
    + by apply map_Forall_delete.
    + apply bounded_set_insert_wf; [done|]. by rewrite wf_closed_max0.
  - constructor; cbn; try done; try lia; [apply goaway_le_refl|exists []; by rewrite app_nil_r|].
    intros i. pose proof (content_nonneg c i Hwf). unfold content in *. cbn.
    destruct (decide (i = sid)) as [->|Hne].
    + rewrite lookup_delete_eq. lia.
    + rewrite lookup_delete_ne by done. lia.
Qed.

Lemma push_event_op e c : wf c -> op (push_event e) c.
Proof. intros H. apply op_modify. good_update. Qed.

Lemma on_flow_control_op {A} (m : ST FlowControl.t Error.t A) c :
  wf c -> wp m (fun _ => FlowControl.wf) FlowControl.wf (flow_control c) -> op (on_flow_control m) c.
Proof.
  intros H Hm. apply wp_zoom. assert (forall f, FlowControl.wf f -> good 0 c (c <| flow_control := f |>)) as Hg.
  { intros f Hf. good_update. }
  eapply wp_mono; [exact Hm| |]; auto.
Qed.

Lemma flow_step_wp e f :
  FlowControl.event_ok e -> FlowControl.wf f ->
  wp (FlowControl.step e) (fun _ => FlowControl.wf) FlowControl.wf f.
Proof.
  intros He Hf. pose proof (fc_step_wf e f He Hf) as Hs.
  destruct (fc_step_total e f) as (r & f' & Hr & Hp). unfold wp. rewrite Hr in *. by destruct r.
Qed.

(** A stream's flow-control method, as a method of the stream. *)
Lemma stream_flow_wp e s :
  FlowControl.event_ok e -> Stream.wf s ->
  wp (Stream.flow_control_mut (FlowControl.step e)) (fun _ => stream_keeps s) (stream_keeps s) s.
Proof.
  intros He (Hf & Hs). apply wp_zoom. eapply wp_mono; [by apply flow_step_wp| |]; cbn;
    (intros; split; [split; [done|exact Hs]|cbn; lia]).
Qed.

Lemma stream_state_wp o s :
  Stream.wf s ->
  wp (Stream.state_machine_mut (StateMachine.step o)) (fun _ => stream_keeps s) (stream_keeps s) s.
Proof.
  intros Hs. apply wp_zoom. unfold wp. pose proof (sm_step_total o (Stream.state s)) as Ht.
  assert (forall m, stream_keeps s (s <| Stream.state := m |>)) as Hk by (intros m; split; [exact Hs|cbn; lia]).
  by destruct (StateMachine.step o (Stream.state s)) as [[a|e|] m].
Qed.

(** ** Lemmas: sending frames *)

(** Sending a frame appends its octets and does nothing else. *)
Lemma send_frame_spec m f c bytes :
  FrameEncoder.buf (frame_encoder c) = [] -> sendable m f -> FrameEncoder.wire f = Some bytes ->
  send_frame f c = (Ok tt, c <| output_buffer := output_buffer c ++ bytes |>).
Proof.
  intros Hb (Hwf & _ & Hlen & _) Hw. pose proof (encode_spec f (frame_encoder c) ltac:(lia) Hwf) as He.
  rewrite Hw in He. unfold send_frame, bind, zoom. rewrite He. destruct c as [? ? ? ? ? ? ? ? ? ? ? ? ? ? [b]]. cbn in *.
  by subst b.
Qed.

Lemma wire_sendable m f : sendable m f -> exists bytes, FrameEncoder.wire f = Some bytes /\ wires [f] = bytes.
Proof.
  intros (_ & _ & _ & _ & Hw). unfold wires. cbn. destruct (FrameEncoder.wire f) as [b|]; [|done].
  exists b. split; [done|]. apply app_nil_r.
Qed.

Lemma sent_good f c :
  wf c -> sendable MAX_MAX_FRAME_SIZE f ->
  good 0 c (c <| output_buffer := output_buffer c ++ wires [f] |>).
Proof.
  intros H Hf. good_update. exists [f]. split; [by constructor|done].
Qed.

Lemma send_frame_eq f c :
  wf c -> sendable MAX_MAX_FRAME_SIZE f ->
  send_frame f c = (Ok tt, c <| output_buffer := output_buffer c ++ wires [f] |>).
Proof.
  intros H Hf. destruct (wire_sendable _ f Hf) as (bytes & Hw & ->).
  eapply send_frame_spec; [apply H|done..].
Qed.

Lemma send_frame_op f c : wf c -> sendable MAX_MAX_FRAME_SIZE f -> op (send_frame f) c.
Proof. intros H Hf. unfold op, wp. rewrite send_frame_eq by done. by apply sent_good. Qed.

(** *** The frames a connection sends *)

Definition code_ok (code : ErrorCode.t) : Prop := u32_ok (ErrorCode.as_u32 code).

Lemma sendable_intro f payload ty fl sid :
  Frame.wf f -> no_priority f -> FrameEncoder.wire_parts f = Some (ty, fl, sid, payload) ->
  len payload <= MAX_MAX_FRAME_SIZE -> sendable MAX_MAX_FRAME_SIZE f.
Proof.
  intros Hwf Hn Hp Hl. unfold sendable, FrameEncoder.payload_len, FrameEncoder.wire. rewrite Hp.
  unfold MAX_MAX_FRAME_SIZE in *. split_and!; try done; lia.
Qed.

(** The limit of a frame: its payload's length, or more. *)
Lemma sendable_shrink m f : sendable MAX_MAX_FRAME_SIZE f -> FrameEncoder.payload_len f <= m -> sendable m f.
Proof. unfold sendable. naive_solver. Qed.
Lemma sendable_weaken m m' f : m <= m' -> sendable m f -> sendable m' f.
Proof. intros Hm (?&?&?&?&?). repeat split; done || lia. Qed.

Lemma sendable_rst id code :
  NonZeroStreamId.wf id -> u32_ok code ->
  sendable MAX_MAX_FRAME_SIZE (Frame.RstStream (RstStreamFrame.new id code)).
Proof. intros. by eapply sendable_intro. Qed.

Lemma sendable_settings l :
  Forall Setting.wf l -> len l <= 1000 ->
  sendable MAX_MAX_FRAME_SIZE (Frame.Settings (SettingsFrame.from_settings l)).
Proof.
  intros Hl Hn. eapply sendable_intro; [by split|done|done|]. cbn. rewrite len_concat_settings.
  unfold MAX_MAX_FRAME_SIZE. lia.
Qed.

Lemma sendable_settings_ack : sendable MAX_MAX_FRAME_SIZE (Frame.Settings SettingsFrame.ack).
Proof. by eapply sendable_intro; [split; [constructor|done]|..]. Qed.

Lemma sendable_ping ack d :
  bytes_ok d -> len d = 8 -> sendable MAX_MAX_FRAME_SIZE (Frame.Ping (PingFrame.mk ack d)).
Proof. intros Hd Hl. eapply sendable_intro; [by split|done|reflexivity|]. cbn. by rewrite Hl. Qed.

Lemma sendable_goaway id code d :
  LastStreamId.wf id -> u32_ok code -> bytes_ok d -> len d <= MAX_MAX_FRAME_SIZE - 8 ->
  sendable MAX_MAX_FRAME_SIZE (Frame.Goaway (GoawayFrame.with_debug_data d (GoawayFrame.new id code))).
Proof.
  intros Hid Hc Hd Hl. eapply sendable_intro; [by split|done|reflexivity|].
  cbn -[FrameEncoder.u31_to_be u32_to_be]. rewrite !len_app, len_u31_to_be.
  change (len (u32_to_be code)) with 4. lia.
Qed.

Lemma sendable_window_update id inc :
  StreamId.wf id -> WindowIncrement.wf inc ->
  sendable MAX_MAX_FRAME_SIZE (Frame.WindowUpdate (WindowUpdateFrame.mk id inc)).
Proof. intros. eapply sendable_intro; [by split|done|reflexivity|]. by rewrite len_u31_to_be. Qed.

Lemma sendable_data id d es :
  NonZeroStreamId.wf id -> bytes_ok d -> len d <= MAX_MAX_FRAME_SIZE ->
  sendable MAX_MAX_FRAME_SIZE (Frame.Data (DataFrame.with_end_stream es (DataFrame.new id d))).
Proof.
  intros. eapply sendable_intro; [by split_and!|done|reflexivity|]. cbn. by rewrite app_nil_r.
Qed.

Lemma sendable_headers id d es eh :
  NonZeroStreamId.wf id -> bytes_ok d -> len d <= MAX_MAX_FRAME_SIZE ->
  sendable MAX_MAX_FRAME_SIZE (Headers.headers_frame id d es eh).
Proof.
  intros. eapply sendable_intro; [by split_and!|done|reflexivity|]. cbn. by rewrite app_nil_r.
Qed.

Lemma sendable_continuation id d eh :
  NonZeroStreamId.wf id -> bytes_ok d -> len d <= MAX_MAX_FRAME_SIZE ->
  sendable MAX_MAX_FRAME_SIZE
    (Frame.Continuation (ContinuationFrame.with_end_headers eh (ContinuationFrame.new id d))).
Proof. intros. by eapply sendable_intro. Qed.

#[export] Hint Resolve sendable_rst sendable_settings sendable_settings_ack sendable_ping
  sendable_goaway sendable_window_update sendable_data sendable_headers sendable_continuation : rust.

Lemma client_id_nz sid :
  client_id sid -> exists id, NonZeroStreamId.new sid = Ok id /\ NonZeroStreamId.wf id /\
                              NonZeroStreamId.as_u32 id = sid.
Proof.
  intros [H _]. rewrite nz_new_spec. exists (NonZeroStreamId.from_validated_parts sid).
  replace (sid =? 0) with false by lia. replace (sid >? STREAM_ID_MAX) with false by lia.
  split; [done|]. split; [by apply nz_from_validated_wf|apply nz_from_validated_as_u32].
Qed.

Lemma non_zero_wf id nz :
  StreamId.wf id -> StreamId.non_zero id = Some nz ->
  NonZeroStreamId.wf nz /\ NonZeroStreamId.as_u32 nz = StreamId.as_u32 id.
Proof. destruct id; cbn; intros H [= <-]; done. Qed.

(** *** Windows, SETTINGS, PING, GOAWAY *)

Lemma send_window_update_op id inc c :
  wf c -> StreamId.wf id -> 0 <= inc -> op (send_window_update id inc) c.
Proof.
  intros H Hid Hinc. unfold send_window_update.
  destruct (inc =? 0) eqn:E1; [by apply op_throw|]. destruct (inc >? MAX_WINDOW_SIZE) eqn:E2; [by apply op_throw|].
  zbool. unfold MAX_WINDOW_SIZE in *.
  eapply op_seq.
  - assert (FlowControl.event_ok (FlowControl.Granted inc)) as He by (cbn; lia).
    assert (forall sid, op (let! s := gets (fun c => streams c !! sid) in
              match s with
              | Some _ => stream_mut sid (Stream.flow_control_mut (FlowControl.add_recv_window inc))
              | None => ret tt
              end) c) as Hs.
    { intros sid. apply op_gets. destruct (streams c !! sid) as [s|] eqn:Es; [|by apply op_ret].
      destruct (wf_stream _ _ _ H Es) as [_ Hs].
      eapply stream_mut_op; [done..|]. exact (stream_flow_wp (FlowControl.Granted inc) s He Hs). }
    destruct id; [|apply Hs..]. apply on_flow_control_op; [done|].
    exact (flow_step_wp (FlowControl.Granted inc) _ He (wf_flow c H)).
  - intros _ c' Hg. rewrite window_increment_new_wf by (change WindowIncrement.MAX with 2147483647; lia).
    apply op_lift; [by eapply good_wf|done|]. intros wi [= <-].
    apply send_frame_op; [by eapply good_wf|].
    assert (WindowIncrement.wf (WindowIncrement.mk inc)) as Hw 
      by (unfold WindowIncrement.wf; change WindowIncrement.MAX with 2147483647; cbn; lia).
    destruct (StreamId.non_zero id) as [nz|] eqn:En; apply sendable_window_update; try done.
    apply from_nz_wf. by apply (non_zero_wf id).
Qed.

Lemma send_initial_window_op c : wf c -> op send_initial_connection_window_update c.
Proof.
  intros H. apply op_gets. case_match; [by apply op_ret|]. apply op_gets. apply op_seq.
  - case_match; [|by apply op_ret]. zbool. apply send_window_update_op; [done|done|].
    unfold DEFAULT_INITIAL_WINDOW_SIZE in *. lia.
  - intros _ c' [Hc _]. apply op_modify. good_update.
Qed.

Lemma len_push_some {A B} (o : option A) (f : A -> B) : len (Settings.push_some o f) <= 1.
Proof. by destruct o. Qed.
Lemma len_flag {A} (b : bool) (x : A) : len (if b then [x] else []) <= 1.
Proof. by destruct b. Qed.
Lemma len_app_le {A} (l1 l2 : list A) n m : len l1 <= n -> len l2 <= m -> len (l1 ++ l2) <= n + m.
Proof. rewrite len_app. lia. Qed.

Lemma to_settings_len s : len (Settings.to_settings_list s) <= 15.
Proof.
  unfold Settings.to_settings_list.
  eapply Z.le_trans; [repeat (eapply len_app_le; [first [apply len_push_some|apply len_flag|apply Z.le_refl]|])|].
  - apply len_flag.
  - done.
Qed.

Lemma advertised_ok r s :
  Settings.wf s -> Forall Setting.wf (advertised r s) /\ len (advertised r s) <= 1000.
Proof.
  intros Hs. unfold advertised. split.
  - apply Forall_forall. intros x Hx%list_elem_of_In%filter_In. destruct Hx as [Hx _].
    pose proof (settings_list_wf s Hs) as Hf. rewrite Forall_forall in Hf.
    apply Hf. by apply list_elem_of_In.
  - pose proof (to_settings_len s) as Hl. unfold len in *.
    pose proof (filter_length_le (fun setting => match r, setting with
      | Role.Server, Setting.EnablePush _ => false | _, _ => true end) (Settings.to_settings_list s)). lia.
Qed.

(** The counter of unacknowledged SETTINGS has room for one more. *)
Definition settings_room (c : t) : Prop := pending_settings_count c + 1 < 2 ^ 32.

(** The connection after one more SETTINGS frame to be acknowledged. *)
Definition counted (c : t) : t := c <| pending_settings_count := pending_settings_count c + 1 |>.

Lemma counted_wf c : wf c -> wf (counted c).
Proof. intros H. pose proof (wf_pending c H). destruct H; constructor; cbn; try assumption. lia. Qed.

Lemma count_settings_eq c : wf c -> settings_room c -> count_settings c = (Ok tt, counted c).
Proof.
  intros H Hr. unfold settings_room in Hr. unfold count_settings, bind, gets, lift.
  by replace (_ <? _) with true by lia.
Qed.

Lemma wf_output c x : wf c -> wf (c <| output_buffer := x |>).
Proof. intros []; constructor; cbn; assumption. Qed.

(** The SETTINGS frame a connection sends, and the connection after it. *)
Definition own_settings (c : t) : Frame.t :=
  Frame.Settings (SettingsFrame.from_settings (advertised (role c) (local_settings c))).
Definition settings_sent (c : t) : t :=
  counted (c <| output_buffer := output_buffer c ++ wires [own_settings c] |>).

Lemma own_settings_sendable c : wf c -> sendable MAX_MAX_FRAME_SIZE (own_settings c).
Proof. intros H. destruct (advertised_ok (role c) (local_settings c) (wf_local c H)). by apply sendable_settings. Qed.

Lemma settings_sent_wf c : wf c -> wf (settings_sent c).
Proof. intros H. by apply counted_wf, wf_output. Qed.

(** Sending the own SETTINGS, then [k]. *)
Lemma send_own_settings_wp (k : M unit) c :
  wf c -> settings_room c -> (forall c', wf c' -> op k c') ->
  wp (let! local := gets local_settings in
      send_frame (Frame.Settings (SettingsFrame.from_settings (advertised (role c) local))) ;!
      count_settings ;! k) (fun _ => good 0 (settings_sent c)) (good 0 (settings_sent c)) c.
Proof.
  intros H Hr Hk. apply wp_gets. unfold wp.
  rewrite (bind_Ok _ _ _ _ _ (send_frame_eq _ c H (own_settings_sendable c H))).
  set (c1 := c <| output_buffer := _ |>). assert (wf c1) as H1 by by apply wf_output.
  rewrite (bind_Ok _ _ _ _ _ (count_settings_eq c1 H1 Hr)).
  exact (Hk (settings_sent c) (settings_sent_wf c H)).
Qed.

Lemma send_settings_wp c :
  wf c -> settings_room c -> wp send_settings (fun _ => good 0 (settings_sent c)) (good 0 (settings_sent c)) c.
Proof.
  intros H Hr. apply wp_gets. apply send_own_settings_wp; [done..|]. by apply send_initial_window_op.
Qed.

(** What [initiate] does first: a client writes the connection preface. *)
Definition preface_of (r : Role.t) : list Z :=
  match r with Role.Client => CONNECTION_PREFACE | Role.Server => [] end.
Definition prefaced (c : t) : t := c <| output_buffer := output_buffer c ++ preface_of (role c) |>.

(** [initiate] after the preface. *)
Lemma initiate_settings_wp r c :
  wf c -> settings_room c -> role c = r ->
  wp (let! local := gets local_settings in
      send_frame (Frame.Settings (SettingsFrame.from_settings (advertised r local))) ;!
      count_settings ;!
      modify (fun c => c <| preface_sent := true |>) ;!
      send_initial_connection_window_update)
    (fun _ c' => good 0 (settings_sent c) c' /\ preface_sent c' = true) (good 0 (settings_sent c)) c.
Proof.
  intros H Hr <-. apply wp_gets. unfold wp.
  rewrite (bind_Ok _ _ _ _ _ (send_frame_eq _ c H (own_settings_sendable c H))).
  set (c1 := c <| output_buffer := _ |>). assert (wf c1) as H1 by by apply wf_output.
  rewrite (bind_Ok _ _ _ _ _ (count_settings_eq c1 H1 Hr)). change (counted c1) with (settings_sent c).
  pose proof (settings_sent_wf c H) as H2. set (c2 := settings_sent c) in *. clearbody c2.
  assert (good 0 c2 (c2 <| preface_sent := true |>)) as Hg by good_update.
  set (c3 := c2 <| preface_sent := true |>) in Hg.
  assert (preface_sent c3 = true) as H3 by reflexivity. change (wp send_initial_connection_window_update
    (fun _ c' => good 0 c2 c' /\ preface_sent c' = true) (good 0 c2) c3). clearbody c3.
  pose proof Hg as [Hw _].
  eapply wp_mono; [exact (send_initial_window_op c3 Hw)|intros ? c4 H4|intros c4 H4].
  - split; [by eapply good_trans|]. destruct H4 as [_ He]. by apply (ev_preface _ _ _ He).
  - by eapply good_trans.
Qed.

Lemma initiate_wp c :
  wf c -> settings_room c ->
  let c0 := if preface_sent c then c else settings_sent (prefaced c) in
  wp initiate (fun _ c' => good 0 c0 c' /\ preface_sent c' = true) (good 0 c0) c.
Proof.
  intros H Hr. cbv zeta. unfold initiate. apply wp_gets.
  destruct (preface_sent c) eqn:Ep; [by split; [apply good_refl|]|]. apply wp_gets.
  unfold prefaced. case_bool_decide as Hc.
  - rewrite Hc. apply wp_modify_seq. cbv beta. apply initiate_settings_wp; [by apply wf_output|done|done].
  - assert (c <| output_buffer := output_buffer c ++ preface_of (role c) |> = c) as ->.
    { destruct (role c) eqn:Er; [done|]. cbn [preface_of]. rewrite app_nil_r. by destruct c. }
    by apply initiate_settings_wp.
Qed.

Lemma send_ping_op d c : wf c -> bytes_ok d -> len d = 8 -> op (send_ping d) c.
Proof. intros. apply send_frame_op; [done|]. by apply sendable_ping. Qed.

Lemma send_goaway_op code d c :
  wf c -> code_ok code -> bytes_ok d -> len d <= MAX_MAX_FRAME_SIZE - 8 -> op (send_goaway code d) c.
Proof.
  intros H Hcode Hd Hl. unfold send_goaway. apply op_gets. apply op_gets. cbv zeta.
  pose proof (wf_succ c H) as Hs. pose proof (wf_goaway c H) as Hp.
  set (v := match last_sent_goaway_stream_id c with Some p => _ | None => _ end).
  assert (0 <= v <= STREAM_ID_MAX /\ goaway_le (last_sent_goaway_stream_id c) (Some v)) as [Hv Hle].
  { subst v. destruct (last_sent_goaway_stream_id c) as [p|]; [|done]. specialize (Hp p eq_refl). cbn. lia. }
  assert (LastStreamId.new v = Ok (LastStreamId.mk v)) as ->.
  { unfold LastStreamId.new. change LastStreamId.MAX with STREAM_ID_MAX. by replace (v >? STREAM_ID_MAX) with false by lia. }
  apply op_lift; [done..|]. intros id [= <-]. eapply op_seq_wp with
    (R := fun _ c' => good 0 c c' /\ last_sent_goaway_stream_id c' = last_sent_goaway_stream_id c).
  - unfold wp. rewrite send_frame_eq; [|done|by apply sendable_goaway].
    split; [|done]. by apply sent_good, sendable_goaway.
  - intros _ c' [Hg He]. split; [done|]. destruct Hg as [Hc' _]. apply op_modify_seq.
    + good_update; [by intros i [= <-]|]. by rewrite He.
    + intros c2 [Hc2 _]. apply op_modify. good_update.
Qed.

Lemma is_idle_contains sid c : contains_stream sid c = true -> is_idle_stream sid c = false.
Proof. unfold is_idle_stream. by intros ->. Qed.

Lemma contains_stream_Some sid c : contains_stream sid c = true -> exists s, streams c !! sid = Some s.
Proof. unfold contains_stream. case_match; eauto; done. Qed.

Lemma reset_stream_internal_op id code n c :
  wf c -> StreamId.wf id -> code_ok code -> op (reset_stream_internal id code n) c.
Proof.
  intros H Hid Hcode. apply op_lift; [done|by destruct id|]. intros nz Hnz.
  assert (NonZeroStreamId.wf nz) as Hw.
  { destruct (StreamId.non_zero id) as [z|] eqn:E; [|done]. injection Hnz as <-. by apply (non_zero_wf id). }
  apply op_gets. case_match; [by apply op_throw|]. apply op_gets.
  destruct (contains_stream _ c) eqn:Ec.
  - apply contains_stream_Some in Ec as [s Hs]. destruct (wf_stream _ _ _ H Hs) as [_ Hsw].
    apply op_seq; [eapply stream_mut_op; [done..|exact (stream_state_wp StateMachine.SendRst s Hsw)]|].
    intros _ c' [Hc' _]. apply op_seq; [by apply send_frame_op, sendable_rst|].
    intros _ c2 [Hc2 _]. apply op_seq; [by apply push_event_op|]. intros _ c3 [Hc3 _]. by apply forget_stream_op.
  - apply op_seq; [by apply op_ret|]. intros _ c' [Hc' _].
    apply op_seq; [by apply send_frame_op, sendable_rst|]. intros _ c2 [Hc2 _]. by apply op_ret.
Qed.

(** *** DATA *)

Lemma stream_gets_op {A} (f : Stream.t -> A) s :
  Stream.wf s -> wp (E:=Error.t) (gets f) (fun _ => stream_keeps s) (stream_keeps s) s.
Proof. intros Hs. split; [done|lia]. Qed.

Lemma set_pending_end_stream_wp b s :
  Stream.wf s -> wp (Stream.set_pending_end_stream b) (fun _ => stream_keeps s) (stream_keeps s) s.
Proof. intros Hs. split; [exact Hs|cbn; lia]. Qed.

(** Popping [n] buffered octets leaves that many fewer. *)
Definition popped (n : Z) (s : Stream.t) : Stream.t :=
  s <| Stream.send_buffer :=
    SendBuffer.mk (drop (Z.to_nat n) (SendBuffer.data (Stream.send_buffer s)))
                  (SendBuffer.max_size (Stream.send_buffer s)) |>.

Lemma send_buffer_pop_eq n s :
  0 <= n ->
  Stream.send_buffer_mut (SendBuffer.pop n) s =
  (Ok (take (Z.to_nat n) (SendBuffer.data (Stream.send_buffer s))), popped n s).
Proof. intros Hn. unfold Stream.send_buffer_mut, zoom. by rewrite send_pop_spec. Qed.

Lemma popped_keeps n s : Stream.wf s -> stream_keeps s (popped n s).
Proof.
  intros (Hf & Hb & Hm & Hl & Hr). split; [|cbn; lia]. unfold Stream.wf, popped. cbn.
  split_and!; try done; [by apply Forall_drop|]. rewrite len_drop. pose proof (len_nonneg (SendBuffer.data (Stream.send_buffer s))). lia.
Qed.

Lemma send_buffer_push_wp d s :
  Stream.wf s -> bytes_ok d ->
  wp (Stream.send_buffer_mut (SendBuffer.push d)) (fun _ => stream_keeps s) (stream_keeps s) s.
Proof.
  intros (Hf & Hb & Hm & Hl & Hr) Hd. apply wp_zoom. unfold wp.
  destruct (send_push_spec d (Stream.send_buffer s)) as (k & Hk & Hkd & ->); [by rewrite Hm|].
  split; [|cbn; lia]. unfold Stream.wf. cbn. split_and!; try done.
  - apply bytes_ok_app. split; [done|by apply Forall_take].
  - rewrite len_app, len_take. rewrite Hm in Hkd. lia.
Qed.

Lemma queue_data_op sid d es c : wf c -> bytes_ok d -> op (queue_data sid d es) c.
Proof.
  intros H Hd. apply op_assoc, op_gets. apply op_lift; [done|by destruct (streams c !! sid)|].
  intros s Hs. destruct (streams c !! sid) as [s'|] eqn:Es; [|done]. injection Hs as ->.
  destruct (wf_stream _ _ _ H Es) as [_ Hsw]. case_match; [by apply op_throw|].
  eapply stream_mut_seq; [done..|by apply send_buffer_push_wp|].
  intros a s' He Hp. destruct es; [|by apply op_ret].
  destruct (wf_stream _ _ _ Hp (put_lookup sid s' c)) as [_ Hs'].
  eapply stream_mut_op; [done|apply put_lookup|by apply set_pending_end_stream_wp].
Qed.

Lemma send_size_bounds s c :
  wf c -> 0 <= send_size s c <= len (SendBuffer.data (Stream.send_buffer s)) /\
  send_size s c <= MAX_MAX_FRAME_SIZE.
Proof.
  intros H. unfold send_size, SendBuffer.length. rewrite !fc_send_available.
  destruct (wf_remote c H) as (_ & _ & _ & Hm & _). unfold MaxFrameSize.wf in Hm.
  change MaxFrameSize.MIN with 16384 in Hm. change MaxFrameSize.MAX with MAX_MAX_FRAME_SIZE in Hm.
  pose proof (len_nonneg (SendBuffer.data (Stream.send_buffer s))). lia.
Qed.

Lemma send_data_frame_op sid d es c :
  wf c -> client_id sid -> bytes_ok d -> len d <= MAX_MAX_FRAME_SIZE -> op (send_data_frame sid d es) c.
Proof.
  intros H Hid Hd Hl. destruct (client_id_nz sid Hid) as (id & Hn & Hw & _).
  unfold send_data_frame. rewrite Hn. apply op_lift; [done..|]. intros id' [= <-].
  apply send_frame_op; [done|by apply sendable_data].
Qed.

(** A window after [n] octets were sent. *)
Definition use_window (n : Z) (f : FlowControl.t) : FlowControl.t :=
  f <| FlowControl.send_window := FlowControl.send_window f - n |>.

(** The stream after [n] octets left its buffer, and after END_STREAM. *)
Definition after_send (n : Z) (s : Stream.t) : Stream.t :=
  (popped n s) <| Stream.flow_control := use_window n (Stream.flow_control s) |>.
Definition after_end (s : Stream.t) : Stream.t :=
  s <| Stream.pending_end_stream := false |>
    <| Stream.state := snd (StateMachine.complete_send_data true (Stream.state s)) |>.

(** The connection after [n] octets of DATA. *)
Definition charge (n : Z) (c : t) : t :=
  c <| flow_control := use_window n (flow_control c) |>.
Definition emit (f : Frame.t) (c : t) : t := c <| output_buffer := output_buffer c ++ wires [f] |>.

Definition data_frame (sid : Z) (d : list Z) (es : bool) : Frame.t :=
  Frame.Data (DataFrame.with_end_stream es
    (DataFrame.new (NonZeroStreamId.from_validated_parts sid) d)).

Lemma stream_mut_eq {A} sid s (m : ST Stream.t Error.t A) c r s' :
  streams c !! sid = Some s -> m s = (r, s') -> stream_mut sid m c = (r, put sid s' c).
Proof. unfold stream_mut. by intros -> ->. Qed.

Lemma put_id sid s c : streams c !! sid = Some s -> put sid s c = c.
Proof. intros H. unfold put. rewrite insert_id by done. by destruct c. Qed.

Lemma put_put sid s s' c : put sid s' (put sid s c) = put sid s' c.
Proof. unfold put. cbn. by rewrite insert_insert_eq. Qed.

Lemma stream_gets_eq {A} sid s (f : Stream.t -> A) c :
  streams c !! sid = Some s -> stream_mut sid (gets f) c = (Ok (f s), c).
Proof. intros H. rewrite (stream_mut_eq sid s (gets f) c (Ok (f s)) s H eq_refl). by rewrite put_id. Qed.

Lemma charge_flow n c :
  0 < n <= FlowControl.send_available (flow_control c) -> wf c ->
  on_flow_control (FlowControl.consume_send n) c = (Ok tt, charge n c).
Proof.
  intros Hn H. unfold on_flow_control, zoom. rewrite fc_send_available in Hn.
  destruct (wf_flow c H) as (_ & _ & Hw & _). unfold MAX_WINDOW_SIZE in Hw.
  rewrite fc_consume_send_spec by (unfold I64_MAX; lia). by replace (_ <=? _) with true by lia.
Qed.

Lemma charge_good n c :
  0 < n <= FlowControl.send_available (flow_control c) -> wf c -> good 0 c (charge n c).
Proof.
  intros Hn H. pose proof (flow_step_wp (FlowControl.Sent n) (flow_control c) ltac:(cbn; lia) (wf_flow c H)) as Hw.
  pose proof (charge_flow n c Hn H) as He.
  assert (op (on_flow_control (FlowControl.consume_send n)) c) as Ho by (by apply on_flow_control_op).
  unfold op, wp in Ho. by rewrite He in Ho.
Qed.

Lemma emit_good f c : wf c -> sendable MAX_MAX_FRAME_SIZE f -> good 0 c (emit f c).
Proof. apply sent_good. Qed.

Lemma send_data_frame_eq sid d es c :
  wf c -> client_id sid -> bytes_ok d -> len d <= MAX_MAX_FRAME_SIZE ->
  send_data_frame sid d es c = (Ok tt, emit (data_frame sid d es) c).
Proof.
  intros H Hid Hd Hl. unfold send_data_frame. rewrite nz_new_spec. destruct Hid as [Hid _].
  replace (sid =? 0) with false by lia. replace (sid >? STREAM_ID_MAX) with false by lia.
  apply send_frame_eq; [done|]. apply sendable_data; [by apply nz_from_validated_wf|done|done].
Qed.

Lemma after_send_wf n s : Stream.wf s -> 0 < n <= FlowControl.send_available (Stream.flow_control s) ->
  Stream.wf (after_send n s).
Proof.
  intros Hs Hn. destruct (popped_keeps n s Hs) as [(Hf & Hb) _]. split; [|exact Hb].
  rewrite fc_send_available in Hn. destruct Hf as (H1 & H2 & H3 & H4). unfold after_send, use_window, FlowControl.wf in *. cbn in *. lia.
Qed.

Lemma after_end_wf s : Stream.wf s -> Stream.wf (after_end s).
Proof. done. Qed.

Lemma complete_send_eq st :
  StateMachine.complete_send_data true st =
  if StreamState.can_send (StateMachine.state st)
  then (Ok tt, snd (StateMachine.complete_send_data true st))
  else (Err (Error.stream_error ErrorCode.StreamClosed "complete_send_data called in invalid state"), st).
Proof. by destruct st as [[]]. Qed.

Lemma is_empty_len l m : SendBuffer.is_empty (SendBuffer.mk l m) = (len l =? 0).
Proof. destruct l; [done|]. cbn. rewrite len_cons. pose proof (len_nonneg l). lia. Qed.

(** One round of the loop of [flush_stream_data]. *)
Lemma flush_step_eq sid n s c :
  wf c -> streams c !! sid = Some s -> n = send_size s c -> 0 < n ->
  let buf := SendBuffer.data (Stream.send_buffer s) in
  let d := take (Z.to_nat n) buf in
  let es := Stream.pending_end_stream s && (len buf - n =? 0) in
  let c' := charge n c in
  if negb es then
    flush_step sid n c = (Ok (false, len buf - n), emit (data_frame sid d false) (put sid (after_send n s) c'))
  else if StreamState.can_send (Stream.get_state s) then
    flush_step sid n c =
      (Ok (true, len buf - n), emit (data_frame sid d true) (put sid (after_end (after_send n s)) c'))
  else exists e s', flush_step sid n c = (Err e, put sid s' c') /\ stream_keeps s s'.
Proof.
  intros H Hs Hn Hpos. cbv zeta.
  destruct (wf_stream _ _ _ H Hs) as [Hid Hsw]. destruct (send_size_bounds s c H) as [Hle Hmax].
  set (buf := SendBuffer.data _) in *. set (d := take _ buf).
  assert (0 < n <= FlowControl.send_available (flow_control c) /\
          0 < n <= FlowControl.send_available (Stream.flow_control s)) as [Hcw Hswin].
  { subst n. unfold send_size in *. lia. }
  assert (len d = n) as Hd by (subst d; rewrite len_take; lia).
  assert (bytes_ok d) as Hdok by (apply Forall_take; apply Hsw).
  assert (Stream.wf (after_send n s)) as Has by by apply after_send_wf.
  destruct (charge_good n c Hcw H) as [Hc' _].
  assert (forall s', Stream.wf s' -> Stream.received_content_length s' = Stream.received_content_length s ->
                     wf (put sid s' (charge n c))) as Hput.
  { intros s' Hs' Hr. apply (put_good 0); try done. unfold content. cbn. rewrite Hs. lia. }
  unfold flush_step.
  erewrite bind_Ok by (by apply stream_gets_eq).
  erewrite bind_Ok by (eapply stream_mut_eq; [done|by apply send_buffer_pop_eq; lia]).
  erewrite bind_Ok by (by apply stream_gets_eq; apply put_lookup). fold buf d.
  assert (SendBuffer.length (Stream.send_buffer (popped n s)) = len buf - n) as ->
    by (unfold SendBuffer.length, popped; cbn; rewrite len_drop; fold buf; lia).
  rewrite Hd.
  assert (on_flow_control (FlowControl.consume_send n) (put sid (popped n s) c)
          = (Ok tt, put sid (popped n s) (charge n c))) as Hflow.
  { pose proof (charge_flow n c Hcw H) as He. unfold on_flow_control, zoom in *.
    change (flow_control (put sid (popped n s) c)) with (flow_control c).
    destruct (FlowControl.consume_send n (flow_control c)) as [r f].
    apply pair_equal_spec in He as [-> He]. f_equal. unfold charge in He. unfold put, charge. cbn.
    apply (f_equal flow_control) in He. cbn in He. by subst f. }
  rewrite (bind_Ok _ _ _ _ _ Hflow).
  assert (Stream.flow_control_mut (FlowControl.consume_send n) (popped n s) = (Ok tt, after_send n s)) as Hsf.
  { unfold Stream.flow_control_mut, zoom. rewrite fc_send_available in Hswin.
    change (Stream.flow_control (popped n s)) with (Stream.flow_control s).
    destruct Hsw as ((_ & _ & Hb & _) & _). unfold MAX_WINDOW_SIZE in Hb.
    rewrite fc_consume_send_spec by (unfold I64_MAX; lia). by replace (_ <=? _) with true by lia. }
  rewrite (bind_Ok _ _ _ tt (put sid (after_send n s) (charge n c)))
    by (rewrite <- (put_put sid (popped n s) (after_send n s)); apply (stream_mut_eq _ _ _ _ _ _ (put_lookup _ _ _) Hsf)).
  destruct (Stream.pending_end_stream s && (len buf - n =? 0)) eqn:Ees; cbn [negb].
  - unfold Stream.get_state. pose proof (complete_send_eq (Stream.state s)) as Hce.
    destruct (StreamState.can_send _).
    + assert ((Stream.set_pending_end_stream false ;!
               Stream.state_machine_mut (StateMachine.complete_send_data true)) (after_send n s)
              = (Ok tt, after_end (after_send n s))) as He.
      { unfold Stream.set_pending_end_stream, Stream.state_machine_mut, bind, modify, zoom.
        change (Stream.state ((after_send n s) <| Stream.pending_end_stream := false |>)) with (Stream.state s).
        by rewrite Hce. }
      rewrite (bind_Ok _ _ _ tt (put sid (after_end (after_send n s)) (charge n c)))
        by (rewrite <- (put_put sid (after_send n s) (after_end _)); apply (stream_mut_eq _ _ _ _ _ _ (put_lookup _ _ _) He)).
      erewrite bind_Ok by (apply send_data_frame_eq; [by apply Hput|done|done|lia]). done.
    + eexists _, ((after_send n s) <| Stream.pending_end_stream := false |>). split.
      * eapply bind_Err.
        rewrite <- (put_put sid (after_send n s) ((after_send n s) <| Stream.pending_end_stream := false |>)). eapply stream_mut_eq; [apply put_lookup|].
        unfold Stream.set_pending_end_stream, Stream.state_machine_mut, bind, modify, zoom.
        change (Stream.state ((after_send n s) <| Stream.pending_end_stream := false |>)) with (Stream.state s).
        rewrite Hce. reflexivity.
      * split; [exact Has|cbn; lia].
  - erewrite bind_Ok by reflexivity.
    erewrite bind_Ok by (apply send_data_frame_eq; [by apply Hput|done|done|lia]). done.
Qed.

(** The connection after DATA frames [fs] of [n] octets of the stream [sid],
    which is then [s]. *)
Definition delivered (sid : Z) (s : Stream.t) (n : Z) (fs : list Frame.t) (c : t) : t :=
  c <| flow_control := use_window n (flow_control c) |>
    <| streams := <[sid := s]> (streams c) |>
    <| output_buffer := output_buffer c ++ wires fs |>.

Lemma delivered_emit sid s n f c : emit f (put sid s (charge n c)) = delivered sid s n [f] c.
Proof. reflexivity. Qed.

Lemma delivered_delivered sid s1 s2 n1 n2 fs1 fs2 c :
  delivered sid s2 n2 fs2 (delivered sid s1 n1 fs1 c) = delivered sid s2 (n1 + n2) (fs1 ++ fs2) c.
Proof.
  unfold delivered, use_window. cbn. rewrite insert_insert_eq, wires_app, app_assoc, Z.sub_add_distr. done.
Qed.

Lemma delivered_good sid s s' n f c :
  wf c -> streams c !! sid = Some s -> 0 < n <= FlowControl.send_available (flow_control c) ->
  sendable MAX_MAX_FRAME_SIZE f -> stream_keeps s s' -> good 0 c (delivered sid s' n [f] c).
Proof.
  intros H Hs Hn Hf [Hs' Hr]. rewrite <- delivered_emit. destruct (charge_good n c Hn H) as [Hc Hev].
  assert (good 0 (charge n c) (put sid s' (charge n c))) as Hp.
  { apply put_good; try done; [by apply (wf_stream sid s c)|]. unfold content, charge. cbn. rewrite Hs. lia. }
  eapply good_trans; [by split|]. eapply good_trans; [exact Hp|]. apply emit_good; [by destruct Hp|done].
Qed.

Lemma after_send_keeps n s :
  Stream.wf s -> 0 < n <= FlowControl.send_available (Stream.flow_control s) -> stream_keeps s (after_send n s).
Proof. intros. split; [by apply after_send_wf|cbn; lia]. Qed.

(** What a positive [send_size] is. *)
Lemma send_size_pos sid s c :
  wf c -> streams c !! sid = Some s -> 0 < send_size s c ->
  let n := send_size s c in
  0 < n <= FlowControl.send_available (flow_control c) /\
  0 < n <= FlowControl.send_available (Stream.flow_control s) /\
  n <= len (SendBuffer.data (Stream.send_buffer s)) /\
  len (take (Z.to_nat n) (SendBuffer.data (Stream.send_buffer s))) = n /\
  (forall es, sendable MAX_MAX_FRAME_SIZE (data_frame sid (take (Z.to_nat n) (SendBuffer.data (Stream.send_buffer s))) es)).
Proof.
  intros H Hs Hpos. cbv zeta. destruct (wf_stream _ _ _ H Hs) as [[Hid _] Hsw].
  destruct (send_size_bounds s c H) as [Hle Hmax].
  assert (len (take (Z.to_nat (send_size s c)) (SendBuffer.data (Stream.send_buffer s))) = send_size s c) as Hl
    by (rewrite len_take; lia).
  split_and!; try lia; try (unfold send_size in *; lia).
  intros es. apply sendable_data; [by apply nz_from_validated_wf|apply Forall_take; apply Hsw|by rewrite Hl].
Qed.

Lemma flush_step_op sid s c :
  wf c -> streams c !! sid = Some s -> 0 < send_size s c ->
  wp (flush_step sid (send_size s c))
    (fun r c' => good 0 c c' /\
       (fst r = false -> exists s', streams c' !! sid = Some s' /\
          len (SendBuffer.data (Stream.send_buffer s')) < len (SendBuffer.data (Stream.send_buffer s))))
    (good 0 c) c.
Proof.
  intros H Hs Hpos. destruct (send_size_pos sid s c H Hs Hpos) as (Hc & Hw & Hb & Hl & Hf).
  destruct (wf_stream _ _ _ H Hs) as [Hid Hsw].
  pose proof (after_send_keeps _ s Hsw Hw) as Hk.
  pose proof (flush_step_eq sid _ s c H Hs eq_refl Hpos) as He. cbv zeta in He. unfold wp.
  destruct (negb _).
  - rewrite He, delivered_emit. split; [by eapply delivered_good|]. intros _.
    exists (after_send (send_size s c) s). split; [apply lookup_insert_eq|]. cbn. rewrite len_drop. lia.
  - destruct (StreamState.can_send _).
    + rewrite He, delivered_emit. split; [by eapply delivered_good|]. done.
    + destruct He as (e & s' & -> & Hk'). destruct (charge_good _ c Hc H) as [Hc' Hev].
      eapply good_trans; [by split|]. apply put_good; try done; [apply Hk'|]. destruct Hk' as [_ Hr].
      unfold content, charge. cbn. rewrite Hs. lia.
Qed.

Lemma flush_loop_op fuel sid c :
  wf c -> (match streams c !! sid with
           | Some s => length (SendBuffer.data (Stream.send_buffer s)) | None => 0 end < fuel)%nat ->
  op (flush_loop fuel sid) c.
Proof.
  revert c. induction fuel as [|fuel IH]; intros c H Hfuel; [lia|]. cbn [flush_loop].
  apply op_gets. destruct (streams c !! sid) as [s|] eqn:Hs; [|by apply op_ret]. cbv zeta.
  destruct (_ && negb _); [by apply op_ret|]. destruct (_ && _); [by apply op_ret|]. apply op_gets.
  destruct (send_size s c =? 0) eqn:E0; [by apply op_ret|]. zbool.
  pose proof (send_size_bounds s c H) as [Hle _].
  eapply op_seq_wp; [eapply flush_step_op; [done..|lia]|].
  intros [es rest] c' [Hg Hcont]. split; [done|]. destruct Hg as [Hc' _].
  destruct es; cbn [orb fst] in *; [by apply op_ret|]. destruct (rest =? 0); [by apply op_ret|].
  apply IH; [done|]. destruct Hcont as (s' & -> & Hlt); [done|]. unfold len in Hlt. lia.
Qed.

Lemma complete_end_op sid s c :
  wf c -> streams c !! sid = Some s ->
  op (stream_mut sid (Stream.set_pending_end_stream false) ;!
      stream_mut sid (Stream.state_machine_mut (StateMachine.complete_send_data true)) ;!
      send_data_frame sid [] true) c.
Proof.
  intros H Hs. destruct (wf_stream _ _ _ H Hs) as [Hid Hsw].
  eapply stream_mut_seq; [done..|by apply set_pending_end_stream_wp|]. intros ? s1 _ Hc1.
  destruct (wf_stream _ _ _ Hc1 (put_lookup sid s1 c)) as [_ Hs1].
  eapply stream_mut_seq; [done|apply put_lookup|exact (stream_state_wp (StateMachine.CompleteSendData true) s1 Hs1)|].
  intros ? s2 _ Hc2. apply send_data_frame_op; [done|done|constructor|done].
Qed.

Lemma flush_stream_data_op sid c : wf c -> op (flush_stream_data sid) c.
Proof.
  intros H. apply op_gets. apply op_seq.
  - apply flush_loop_op; [done|]. unfold flush_fuel. case_match; lia.
  - intros b c' [Hc' _]. destruct b; [|by apply op_ret]. apply op_gets.
    destruct (streams c' !! sid) as [s|] eqn:Hs; [|by apply op_ret].
    case_match; [by eapply complete_end_op|by apply op_ret].
Qed.

Lemma try_remove_op sid c : wf c -> op (try_remove_closed_stream sid) c.
Proof.
  intros H. apply op_gets. destruct (streams c !! sid); [|by apply op_ret].
  case_match; [|by apply op_ret]. apply op_seq; [by apply push_event_op|]. intros _ c' [Hc' _]. by apply forget_stream_op.
Qed.

Lemma require_stream_op {A} sid (k : Stream.t -> M A) c :
  wf c -> (forall s, streams c !! sid = Some s -> op (k s) c) -> op (bind (require_stream sid) k) c.
Proof.
  intros H Hk. apply op_assoc, op_gets. apply op_lift; [done|by destruct (streams c !! sid)|].
  intros s Hs. destruct (streams c !! sid); [|done]. injection Hs as ->. by apply Hk.
Qed.

Lemma send_data_op id d es c : wf c -> bytes_ok d -> op (send_data id d es) c.
Proof.
  intros H Hd. apply require_stream_op; [done|]. intros s Hs.
  destruct (wf_stream _ _ _ H Hs) as [Hid Hsw]. case_match; [by apply op_throw|].
  eapply stream_mut_seq; [done..|exact (stream_state_wp (StateMachine.SendData es) s Hsw)|].
  intros ? s1 _ Hc1. apply op_seq; [by apply queue_data_op|]. intros _ c2 [Hc2 _].
  apply op_seq; [by apply flush_stream_data_op|]. intros _ c3 [Hc3 _]. by apply try_remove_op.
Qed.

Lemma flush_streams_op ids c : wf c -> op (flush_streams ids) c.
Proof.
  revert c. induction ids as [|sid ids IH]; intros c H; [by apply op_ret|].
  apply op_seq; [by apply flush_stream_data_op|]. intros _ c1 [H1 _].
  apply op_seq; [by apply try_remove_op|]. intros _ c2 [H2 _]. by apply IH.
Qed.

Lemma flush_all_op `{HashOrder} c : wf c -> op flush_all_stream_data c.
Proof. intros Hc. apply op_gets. by apply flush_streams_op. Qed.

(** ** The initial state *)

Lemma sync_encoder_ok e d : sync e d -> encoder_ok e.
Proof.
  intros (Heq & (Hwf & Hns & Hm) & H62). unfold encoder_ok, sync, Decoder.wf. rewrite Heq. cbn.
  split_and!; try done; lia.
Qed.

(** Limits the builder can make: every value in the range of its type. *)
Definition limits_ok (l : Limits.t) : Prop :=
  Settings.wf (Settings.from_limits l) /\ WindowSize.wf (Limits.connection_window_size l).

Lemma conn_new_wf r l : limits_ok l -> wf (new r l).
Proof.
  intros [Hl Hw]. pose proof Hl as (Hh & Hi & _ & Hm & _). cbn in Hh, Hi, Hm. unfold u32_ok in Hh.
  constructor; cbn; try done.
  - by apply bounded_set_new_wf.
  - by destruct r.
  - by intros ->.
  - eapply sync_encoder_ok, (sync_new (Limits.header_table_size l)). lia.
  - split; [apply (sync_new (Limits.header_table_size l)); lia|]. cbn. intros m Hmm.
    destruct Hl as (_ & _ & _ & _ & Hls & _). cbn in Hls. rewrite Hmm in Hls. cbn in Hls. unfold u32_ok in Hls. lia.
  - apply decoder_new_wf.
  - constructor.
Qed.
