(* ===== verification/ConnSafe.v ===== *)
(** * ConnSafe: every method keeps the invariant

    The header block methods and the frame handlers keep the invariant of
    [ConnInv] and cannot panic, so no sequence of calls and of received octets
    can make a connection panic or break its invariant. *)

From S2P Require Import Prelude Errors StreamIds Config Flow Bounded StreamCore FrameTypes.
From S2P Require Import FrameEncode FrameDecode FrameCodec HpackInteger Syntax HpackTable.
From S2P Require Import HpackCodec Validation Stream ConnBase ConnHeaders ConnRecv ConnInv.
Import Connection Headers Handlers Invariant.

(** A header list an application can hand over: octets, of a total size that
    the address space has room for. *)
Definition headers_ok (hs : list HeaderField.t) : Prop :=
  Forall sendable_field hs /\ Decoder.list_size hs < USIZE_MAX.

(** ** Lemmas: sending header blocks *)

Lemma hpack_encode_wp hs c :
  wf c -> headers_ok hs ->
  wp (hpack_encode hs) (fun out c' => good 0 c c' /\ bytes_ok out) (good 0 c) c.
Proof.
  intros H [Hhs Hsize]. unfold wp, hpack_encode.
  destruct (decode_encode hs _ _ (wf_encoder c H) Hhs) as (out & e' & d' & -> & Hout & _ & Hs & _).
  { split; [unfold USIZE_MAX in *; lia|done]. }
  split; [|done]. apply sync_encoder_ok in Hs. good_update.
Qed.

Lemma push_integer_update m :
  u32_ok m -> forall e buf, bytes_ok buf ->
  exists out, Encoder.encode_size_update e buf m = Ok out /\ bytes_ok out.
Proof.
  intros Hm e buf Hb. unfold Encoder.encode_size_update, u32_ok in *.
  rewrite push_integer_spec by (apply prefix_5_20 || lia). eexists. split; [done|].
  apply bytes_ok_app. split; [done|]. apply octets_bytes_ok; [lia|apply prefix_5_20].
Qed.

Lemma take_size_updates_wp c :
  wf c -> wp take_size_updates (fun out c' => good 0 c c' /\ bytes_ok out) (good 0 c) c.
Proof.
  intros H. pose proof (wf_update c H) as Hu. unfold take_size_updates. apply wp_gets.
  assert (good 0 c (c <| pending_table_size_update := None |>)) as Hg by (good_update; done).
  apply wp_modify_seq. destruct (pending_table_size_update c) as [[a b]|]; [|by apply wp_ret; split; [|constructor]].
  destruct (Hu a b eq_refl) as [Ha Hb]. apply wp_gets.
  set (e := hpack_encoder _).
  assert (exists out, (if negb (a =? b) then Encoder.encode_size_update e [] a else Ok []) = Ok out /\ bytes_ok out)
    as (out & -> & Hout).
  { destruct (negb _); [apply push_integer_update; [done|constructor]|]. eexists. split; [done|constructor]. }
  destruct (push_integer_update b Hb e out Hout) as (out2 & He & Hout2).
  unfold wp, bind, lift. rewrite He. done.
Qed.

Lemma send_continuations_op fuel id max rest c :
  wf c -> NonZeroStreamId.wf id -> bytes_ok rest -> 0 < max <= MAX_MAX_FRAME_SIZE ->
  (length rest <= fuel)%nat -> op (send_continuations fuel id max rest) c.
Proof.
  intros H Hid. revert rest c H. induction fuel as [|fuel IH]; intros rest c H Hr Hm Hf; cbn [send_continuations];
    (destruct (len rest =? 0) eqn:E; [by apply op_ret|]); zbool; [unfold len in *; lia|].
  cbv zeta. set (n := Z.min (len rest) max). pose proof (len_nonneg rest).
  rewrite slice_spec, slice_from_spec by (subst n; lia). change (Z.to_nat 0) with 0%nat. rewrite drop_0, Z.sub_0_r.
  apply op_lift; [done..|]. intros chunk [= <-]. apply op_lift; [done..|]. intros rest' [= <-].
  apply op_seq.
  - apply send_frame_op; [done|]. apply sendable_continuation; [done|by apply Forall_take|].
    rewrite len_take. subst n. lia.
  - intros _ c' [Hc' _]. apply IH; [done|by apply Forall_drop|done|].
    rewrite length_drop. subst n. unfold len in *. lia.
Qed.

Lemma send_header_block_op id block es c :
  wf c -> NonZeroStreamId.wf id -> bytes_ok block -> op (send_header_block id block es) c.
Proof.
  intros H Hid Hb. eapply op_seq_wp; [by apply take_size_updates_wp|]. intros ups c' [Hg Hups].
  split; [done|]. destruct Hg as [Hc' _]. cbv zeta. apply op_gets.
  destruct (wf_remote c' Hc') as (_ & _ & _ & Hm & _). unfold MaxFrameSize.wf in Hm.
  change MaxFrameSize.MIN with 16384 in Hm. change MaxFrameSize.MAX with MAX_MAX_FRAME_SIZE in Hm.
  set (max := MaxFrameSize.get _) in *. set (whole := ups ++ block).
  assert (bytes_ok whole) as Hw by (by apply bytes_ok_app).
  destruct (len whole <=? max) eqn:E; zbool; [apply send_frame_op; [done|]; by apply sendable_headers; try lia|].
  rewrite slice_spec, slice_from_spec by lia. change (Z.to_nat 0) with 0%nat. rewrite drop_0, Z.sub_0_r.
  apply op_lift; [done..|]. intros chunk [= <-]. apply op_lift; [done..|]. intros rest' [= <-].
  apply op_seq.
  - apply send_frame_op; [done|]. apply sendable_headers; [done|by apply Forall_take|]. rewrite len_take. lia.
  - intros _ c2 [Hc2 _]. apply send_continuations_op; try done; [by apply Forall_drop|lia].
Qed.

(** ** Lemmas: what one turn of the frame decoder takes *)

(** The error codes a decoding function reports. *)
Definition reports_ok {A} (r : Result A) : Prop :=
  match r with
  | Err e => forall code, Error.error_code e = Some code -> code_ok code
  | _ => True
  end.

Lemma reports_bind {A B} (r : Result A) (k : A -> Result B) :
  reports_ok r -> (forall a, reports_ok (k a)) -> reports_ok (rbind r k).
Proof. destruct r; cbn; auto. Qed.
Lemma reports_if {A} (b : bool) (r1 r2 : Result A) :
  reports_ok r1 -> reports_ok r2 -> reports_ok (if b then r1 else r2).
Proof. by destruct b. Qed.
Lemma reports_no_err {A} (r : Result A) : (forall e, r <> Err e) -> reports_ok r.
Proof. destruct r; cbn; [done| |done]. intros H. by destruct (H e). Qed.

Lemma reports_index l i : reports_ok (@index Error.t Z l i).
Proof. apply reports_no_err. unfold index. intros e. by repeat case_match. Qed.
Lemma reports_read4 {A} (f : Z -> Z -> Z -> Z -> A) l i : reports_ok (@read4 Error.t A f l i).
Proof. unfold read4. repeat (apply reports_bind; [apply reports_index|intros]). done. Qed.
Lemma reports_slice (l : list Z) a b : reports_ok (@slice Error.t Z l a b).
Proof. apply reports_no_err. unfold slice. intros e. by repeat case_match. Qed.
Lemma reports_expect {E A} (r : result E A) : reports_ok (@expect E Error.t A r).
Proof. by destruct r. Qed.
Lemma reports_ok_or {A} (o : option A) e : reports_ok (A:=A) (Err e) -> reports_ok (ok_or o e).
Proof. by destruct o. Qed.
Lemma reports_sub a b : reports_ok (@sub_usize Error.t a b).
Proof. unfold sub_usize. by case_match. Qed.
Lemma reports_require raw name : reports_ok (require_non_zero_stream_id raw name).
Proof. unfold require_non_zero_stream_id. destruct (NonZeroU32_new raw); [done|]. cbn. by intros code [= <-]. Qed.
Lemma reports_settings payload f : reports_ok (settings_chunks payload f).
Proof.
  assert (forall n payload f, (length payload <= n)%nat -> reports_ok (settings_chunks payload f)) as Hn;
    [|by eapply Hn].
  clear payload f. induction n as [|n IH]; intros payload f Hl; [by destruct payload; [|cbn in Hl; lia]|].
  do 6 (destruct payload as [|? payload]; [done|]). cbn [settings_chunks].
  apply reports_bind; [|intros; apply IH; cbn in Hl; lia].
  destruct (Setting.from_wire _ _) as [s|e|]; cbn; try done. destruct e; by intros ? [= <-].
Qed.

Ltac reports :=
  repeat first
    [ apply reports_require
    | apply reports_bind; [|intros]
    | apply reports_if
    | apply reports_ok_or
    | apply reports_index | apply reports_read4 | apply reports_slice | apply reports_expect
    | apply reports_sub | apply reports_settings
    | done
    | (cbn; intros ? [= <-]; done)
    | case_match ].

Lemma decode_frame_reports h payload : reports_ok (decode_frame h payload).
Proof.
  unfold decode_frame. destruct (FrameType.from_u8 _) as [[]|]; [..|done].
  - unfold decode_data. reports.
  - unfold decode_headers, read_priority_fields. reports.
  - unfold decode_priority, read_priority_fields. reports.
  - unfold decode_rst_stream. reports.
  - unfold decode_settings. reports.
  - unfold decode_push_promise. reports.
  - unfold decode_ping. reports.
  - unfold decode_goaway, slice_from. reports.
  - unfold decode_window_update. reports.
  - unfold decode_continuation. reports.
  - unfold decode_priority_update, slice_from. reports.
Qed.


(** The content octets of a frame: those of a DATA frame's payload. *)
Definition content_octets (f : Frame.t) : Z :=
  match f with Frame.Data f => len (DataFrame.data f) | _ => 0 end.

(** Results, when there are any, satisfy [P]. *)
Definition yields {E A} (P : A -> Prop) (r : result E A) : Prop :=
  match r with Ok a => P a | _ => True end.

Lemma yields_bind {E A B} (P : B -> Prop) (r : result E A) (k : A -> result E B) :
  (forall a, r = Ok a -> yields P (k a)) -> yields P (rbind r k).
Proof. destruct r; cbn; auto. Qed.
Lemma yields_if {E A} (P : A -> Prop) (b : bool) (r1 r2 : result E A) :
  yields P r1 -> yields P r2 -> yields P (if b then r1 else r2).
Proof. by destruct b. Qed.

Ltac yields :=
  repeat first [ apply yields_bind; intros | apply yields_if | exact I | (cbn; lia) | done | case_match ].

Lemma decode_data_len h payload :
  yields (fun f => content_octets f <= len payload) (decode_data h payload).
Proof.
  pose proof (len_nonneg payload) as Hn. unfold decode_data.
  apply yields_bind. intros sid _. apply yields_bind. intros [d p] Hd.
  change (len d <= len payload). destruct (FrameFlags.is_padded _); [|by injection Hd as <- _].
  destruct (len payload =? 0); [done|]. destruct (index payload 0) as [n| |]; cbn in Hd; try done.
  destruct (_ <? 1 + n); [done|]. unfold sub_usize in Hd. destruct (_ <? n) eqn:E; [done|]. cbn in Hd.
  destruct (slice payload 1 (len payload - n)) as [x| |] eqn:Es; cbn in Hd; try done.
  injection Hd as <- _. apply slice_Ok_inv in Es as (H1 & H2 & ->). rewrite len_take, len_drop. lia.
Qed.

Lemma decode_frame_len h payload :
  yields (fun f => content_octets f <= len payload) (decode_frame h payload).
Proof.
  pose proof (len_nonneg payload) as Hn. unfold decode_frame.
  destruct (FrameType.from_u8 _) as [[]|]; [apply decode_data_len|..|done].
  - unfold decode_headers. yields.
  - unfold decode_priority. yields.
  - unfold decode_rst_stream. yields.
  - unfold decode_settings. yields.
  - unfold decode_push_promise. yields.
  - unfold decode_ping. yields.
  - unfold decode_goaway. yields.
  - unfold decode_window_update. yields.
  - unfold decode_continuation. yields.
  - unfold decode_priority_update. yields.
Qed.

(** What one turn of the decoder does to the octets it holds. *)
Definition turn_ok (s : FrameDecoder.t) (r : result Error.t (option Frame.t)) (s' : FrameDecoder.t) : Prop :=
  FrameDecoder.wf s' /\
  match r with
  | Ok None =>
      len (FrameDecoder.buf s') <= len (FrameDecoder.buf s) /\
      (FrameDecoder.measure s' <= FrameDecoder.measure s)%nat
  | Ok (Some f) =>
      Frame.wf f /\ (FrameDecoder.measure s' < FrameDecoder.measure s)%nat /\
      content_octets f + len (FrameDecoder.buf s') <= len (FrameDecoder.buf s)
  | Err e =>
      (forall code, Error.error_code e = Some code -> code_ok code) /\
      len (FrameDecoder.buf s') <= len (FrameDecoder.buf s) /\
      (Error.is_stream_error e = true ->
       (FrameDecoder.measure s' < FrameDecoder.measure s)%nat /\
       exists sid, FrameDecoder.last_decoded_stream_id s' = Some sid /\ 0 <= sid <= STREAM_ID_MAX)
  | Panic => False
  end.

Lemma turn_pending h s s0 :
  FrameDecoder.wf s -> FrameDecoder.current_header s = Some h ->
  (s0 = s \/ FrameDecoder.current_header s0 = None /\ len (FrameDecoder.buf s0) = 9 + len (FrameDecoder.buf s)) ->
  turn_ok s0 (fst (FrameDecoder.decode s)) (snd (FrameDecoder.decode s)).
Proof.
  intros Hwf Hc H0. pose proof Hwf as [Hb Hh]. rewrite Hc in Hh. destruct Hh as [Hh Hm].
  assert (len (FrameDecoder.buf s) <= len (FrameDecoder.buf s0)) as Hle by (destruct H0 as [->|[_ H0]]; lia).
  rewrite (decode_pending h) by (done || apply Hh). pose proof (proj1 Hh) as Hn.
  destruct (_ <? _) eqn:E; [split; [done|split; [done|]]|].
  { unfold FrameDecoder.measure, len in *. destruct H0 as [->|[-> H0]]; [done|]. cbn [snd]. rewrite Hc. lia. }
  zbool. cbn [fst snd]. set (payload := firstn _ _).
  assert (len payload = FrameHeader.length h) as Hl by (subst payload; rewrite len_take; lia).
  assert (bytes_ok payload) as Hp by by apply Forall_take.
  assert (FrameDecoder.wf (consumed h s)) as Hw by (split; [by apply Forall_drop|done]).
  assert (len (FrameDecoder.buf (consumed h s)) + len payload = len (FrameDecoder.buf s)) as Hd.
  { cbn. rewrite len_drop. lia. }
  assert (FrameDecoder.measure (consumed h s) < FrameDecoder.measure s0)%nat as Hmeas.
  { unfold FrameDecoder.measure, len in *. change (FrameDecoder.current_header (consumed h s)) with (@None FrameHeader.t).
    destruct H0 as [->|[-> H0]]; [rewrite Hc|]; lia. }
  pose proof (decode_frame_safe h payload Hh Hp Hl) as Hsafe. pose proof (decode_frame_reports h payload) as Hrep.
  pose proof (decode_frame_len h payload) as Hlen. split; [done|].
  pose proof (len_nonneg payload).
  destruct (decode_frame h payload) as [f|e|]; cbn in Hsafe, Hrep, Hlen |- *; [|split_and!; try done; try lia|done].
  - split_and!; [done|done|]. change (content_octets f + len (FrameDecoder.buf (consumed h s)) <= len (FrameDecoder.buf s0)). lia.
  - change (len (FrameDecoder.buf (consumed h s)) <= len (FrameDecoder.buf s0)). lia.
  - intros _. split; [done|]. eexists. split; [done|]. destruct Hh as (_ & _ & _ & Hs).
    rewrite STREAM_ID_MAX_val. unfold u31_ok in Hs. lia.
Qed.

Lemma turn_fresh s :
  FrameDecoder.wf s -> FrameDecoder.current_header s = None ->
  turn_ok s (fst (FrameDecoder.decode s)) (snd (FrameDecoder.decode s)).
Proof.
  intros Hwf Hc. pose proof Hwf as [Hb _]. rewrite decode_fresh by done.
  destruct (_ <? 9) eqn:E; [split; [done|split; cbn; lia]|]. zbool.
  destruct (front_header_wf (FrameDecoder.buf s)) as (h & -> & Hh & _); [done..|].
  destruct (_ >? _) eqn:Em; zbool.
  - split; [done|]. split_and!; cbn; try done. by intros code [= <-].
  - apply (turn_pending h); [by apply wf_with_header|done|]. right. split; [done|].
    change (FrameDecoder.buf (with_header h s)) with (drop 9 (FrameDecoder.buf s)). rewrite len_drop. lia.
Qed.

Lemma decode_turn s :
  FrameDecoder.wf s -> turn_ok s (fst (FrameDecoder.decode s)) (snd (FrameDecoder.decode s)).
Proof.
  intros Hwf. destruct (FrameDecoder.current_header s) as [h|] eqn:Hc; [|by apply turn_fresh].
  by apply (turn_pending h); [..|left].
Qed.

(** ** Lemmas: methods of a stream *)

(** A stream's method that keeps its invariant and counts no content. *)
Definition sop {A} (m : ST Stream.t Error.t A) (s : Stream.t) : Prop :=
  wp m (fun _ => stream_keeps s) (stream_keeps s) s.

Lemma stream_keeps_refl s : Stream.wf s -> stream_keeps s s.
Proof. intros H. split; [done|lia]. Qed.
Lemma stream_keeps_trans s1 s2 s3 : stream_keeps s1 s2 -> stream_keeps s2 s3 -> stream_keeps s1 s3.
Proof. intros [_ H1] [H2 H3]. split; [done|lia]. Qed.

Lemma sop_seq {A B} (m : ST Stream.t Error.t A) (k : A -> ST Stream.t Error.t B) s :
  sop m s -> (forall a s', Stream.wf s' -> sop (k a) s') -> sop (bind m k) s.
Proof.
  intros Hm Hk. eapply wp_seq; [exact Hm| |done]. intros a s' Hs.
  eapply wp_mono; [apply Hk, Hs|intros ? s2 H2|intros s2 H2]; exact (stream_keeps_trans _ _ _ Hs H2).
Qed.

Lemma sop_ret {A} (a : A) s : Stream.wf s -> sop (ret a) s.
Proof. apply stream_keeps_refl. Qed.
Lemma sop_gets {A} (f : Stream.t -> A) s : Stream.wf s -> sop (gets f) s.
Proof. apply stream_keeps_refl. Qed.
Lemma sop_if {A} (b : bool) (m n : ST Stream.t Error.t A) s : sop m s -> sop n s -> sop (if b then m else n) s.
Proof. by destruct b. Qed.
Lemma sop_state o s : Stream.wf s -> sop (Stream.state_machine_mut (StateMachine.step o)) s.
Proof. apply stream_state_wp. Qed.

(** The setters of fields without invariant. *)
Lemma sop_set_headers v s : Stream.wf s -> sop (Stream.set_headers v) s.
Proof. intros H. split; [exact H|cbn; lia]. Qed.
Lemma sop_set_initial v s : Stream.wf s -> sop (Stream.set_initial_headers_received v) s.
Proof. intros H. split; [exact H|cbn; lia]. Qed.
Lemma sop_set_expected v s : Stream.wf s -> sop (Stream.set_expected_content_length v) s.
Proof. intros H. split; [exact H|cbn; lia]. Qed.
Lemma sop_set_connect v s : Stream.wf s -> sop (Stream.set_connect_established v) s.
Proof. intros H. split; [exact H|cbn; lia]. Qed.
Lemma sop_set_method v s : Stream.wf s -> sop (Stream.set_request_method v) s.
Proof. intros H. split; [exact H|cbn; lia]. Qed.
Lemma sop_set_has_protocol v s : Stream.wf s -> sop (Stream.set_has_protocol v) s.
Proof. intros H. split; [exact H|cbn; lia]. Qed.
Lemma sop_set_protocol v s : Stream.wf s -> sop (Stream.set_protocol v) s.
Proof. intros H. split; [exact H|cbn; lia]. Qed.
Lemma sop_set_no_content v s : Stream.wf s -> sop (Stream.set_no_content v) s.
Proof. intros H. split; [exact H|cbn; lia]. Qed.
Lemma sop_set_final v s : Stream.wf s -> sop (Stream.set_final_response_sent v) s.
Proof. intros H. split; [exact H|cbn; lia]. Qed.
Lemma sop_send_headers es s : Stream.wf s -> sop (Stream.state_machine_mut (StateMachine.send_headers es)) s.
Proof. exact (sop_state (StateMachine.SendHeaders es) s). Qed.
Lemma sop_recv_headers es s : Stream.wf s -> sop (Stream.state_machine_mut (StateMachine.recv_headers es)) s.
Proof. exact (sop_state (StateMachine.RecvHeaders es) s). Qed.
Lemma sop_recv_rst s : Stream.wf s -> sop (Stream.state_machine_mut StateMachine.recv_rst_stream) s.
Proof. exact (sop_state StateMachine.RecvRst s). Qed.
Lemma sop_note_tunnel hs s : Stream.wf s -> sop (note_tunnel hs) s.
Proof.
  intros H. apply sop_seq; [by apply sop_gets|]. intros a s' H'.
  apply sop_if; [by apply sop_set_connect|by apply sop_ret].
Qed.
#[export] Hint Resolve sop_ret sop_gets sop_set_headers sop_set_initial sop_set_expected sop_set_connect
  sop_set_method sop_set_has_protocol sop_set_protocol sop_set_no_content sop_set_final sop_send_headers
  sop_recv_headers sop_recv_rst sop_note_tunnel : rust.

Ltac sop :=
  repeat first [ (apply sop_seq; [|intros]) | apply sop_if | (solve [auto with rust]) | case_match ].

Lemma op_stream {A B} sid s (m : ST Stream.t Error.t A) (k : A -> M B) c :
  wf c -> streams c !! sid = Some s -> (Stream.wf s -> sop m s) ->
  (forall a s', m s = (Ok a, s') -> wf (put sid s' c) -> op (k a) (put sid s' c)) ->
  op (bind (stream_mut sid m) k) c.
Proof.
  intros H Hs Hm Hk. destruct (wf_stream _ _ _ H Hs) as [_ Hw]. by eapply stream_mut_seq; [..|apply Hm|].
Qed.

(** The last method on a stream of the map. *)
Lemma op_stream_end {A} sid s (m : ST Stream.t Error.t A) c :
  wf c -> streams c !! sid = Some s -> (Stream.wf s -> sop m s) -> op (stream_mut sid m) c.
Proof.
  intros H Hs Hm. destruct (wf_stream _ _ _ H Hs) as [_ Hw]. by eapply stream_mut_op; [..|apply Hm].
Qed.

(** ** Lemmas: sending header lists *)

Lemma request_no_panic hs : Validation.validate_request_headers hs <> Panic.
Proof. pose proof (validate_request_spec hs) as H. by destruct (Validation.validate_request_headers hs). Qed.
Lemma response_no_panic hs : Validation.validate_response_headers hs <> Panic.
Proof. pose proof (validate_response_spec hs) as H. by destruct (Validation.validate_response_headers hs). Qed.
Lemma trailers_no_panic hs : Validation.validate_trailers hs <> Panic.
Proof. pose proof (validate_trailers_spec hs) as H. by destruct (Validation.validate_trailers hs). Qed.

Lemma check_not_tunnel_op sid c : wf c -> op (check_not_tunnel sid) c.
Proof. intros H. apply op_gets. case_match; [by apply op_throw|by apply op_ret]. Qed.
Lemma check_peer_op hs c : wf c -> op (check_peer_header_list_size hs) c.
Proof. intros H. apply op_gets. repeat case_match; first [by apply op_throw|by apply op_ret]. Qed.
Lemma check_buffer_op sid c : wf c -> op (check_send_buffer_empty sid) c.
Proof. intros H. apply op_gets. repeat case_match; first [by apply op_throw|by apply op_ret]. Qed.

Lemma expect_non_zero_op {B} id (k : NonZeroStreamId.t -> M B) c :
  wf c -> StreamId.wf id -> StreamId.as_u32 id <> 0 ->
  (forall nz, NonZeroStreamId.wf nz -> op (k nz) c) -> op (bind (expect_non_zero id) k) c.
Proof.
  intros H Hid Hz Hk. assert (exists nz, StreamId.non_zero id = Some nz) as [nz Hnz] by (destruct id; eauto; done).
  unfold expect_non_zero. rewrite Hnz. apply op_lift; [done..|]. intros nz' [= <-].
  apply Hk. by apply (non_zero_wf id).
Qed.

Lemma hpack_encode_op {B} hs (k : list Z -> M B) c :
  wf c -> headers_ok hs -> (forall out c', wf c' -> streams c' = streams c -> bytes_ok out -> op (k out) c') ->
  op (bind (hpack_encode hs) k) c.
Proof.
  intros H Hh Hk. pose proof (hpack_encode_wp hs c H Hh) as Hw.
  eapply op_seq_wp with (R := fun out c' => (good 0 c c' /\ bytes_ok out) /\ streams c' = streams c).
  - unfold wp in *. unfold hpack_encode in *. destruct (Encoder.encode _ _ _) as [[? ?]|?|]; done.
  - intros out c' [[Hg Hb] Hst]. split; [done|]. apply Hk; [by destruct Hg|done|done].
Qed.

Lemma close_stream_op id c : wf c -> op (close_stream id) c.
Proof.
  intros H. apply op_seq; [by apply push_event_op|]. intros _ c' [H' _]. by apply forget_stream_op.
Qed.

(** What [send_response] and [send_trailers] do once the stream has taken the
    header list. *)
Lemma send_list_op id hs es (b : bool) c :
  wf c -> StreamId.wf id -> StreamId.as_u32 id <> 0 -> headers_ok hs ->
  op (let! encoded := hpack_encode hs in
      let! nz := expect_non_zero id in
      send_header_block nz encoded es ;!
      if b then close_stream id else ret tt) c.
Proof.
  intros H Hid Hz Hh. apply hpack_encode_op; [done..|]. intros out c1 H1 ? Hout.
  apply expect_non_zero_op; [done..|]. intros nz Hnz.
  apply op_seq; [by apply send_header_block_op|]. intros _ c2 [H2 _].
  destruct b; [by apply close_stream_op|by apply op_ret].
Qed.

Lemma client_nonzero sid s c : wf c -> streams c !! sid = Some s -> sid <> 0.
Proof. intros H Hs. destruct (wf_stream _ _ _ H Hs) as [[Hid _] _]. lia. Qed.

Lemma op_seq_wf {A B} (X : M A) (k : A -> M B) c :
  op X c -> (forall a c', wf c' -> op (k a) c') -> op (bind X k) c.
Proof. intros HX Hk. apply op_seq; [done|]. intros a c' [Hc _]. by apply Hk. Qed.

(** A guard that throws. *)
Ltac op_guard := match goal with |- op (if ?b then _ else _) _ => destruct b; [by apply op_throw|] end.

Lemma send_response_op id hs es c :
  wf c -> StreamId.wf id -> headers_ok hs -> op (send_response id hs es) c.
Proof.
  intros H Hid Hh. apply op_seq_wf; [by apply check_not_tunnel_op|]. intros _ c1 Hc1.
  apply op_lift; [done|apply response_no_panic|]. intros _ _. cbv zeta.
  op_guard. apply op_gets. op_guard.
  apply op_seq_wf; [by apply check_peer_op|]. intros _ c2 Hc2.
  apply op_seq_wf; [destruct es; [by apply check_buffer_op|by apply op_ret]|]. intros _ c3 Hc3.
  apply require_stream_op; [done|]. intros s Hs. pose proof (client_nonzero _ _ _ Hc3 Hs) as Hz.
  eapply op_stream; [done..|intros; sop|]. intros b s' _ Hc4. by apply send_list_op.
Qed.

Lemma send_trailers_op id hs c :
  wf c -> StreamId.wf id -> headers_ok hs -> op (send_trailers id hs) c.
Proof.
  intros H Hid Hh. apply op_seq_wf; [by apply check_not_tunnel_op|]. intros _ c1 Hc1.
  apply op_gets, op_gets. op_guard.
  apply op_lift; [done|apply trailers_no_panic|]. intros _ _.
  apply op_seq_wf; [by apply check_peer_op|]. intros _ c2 Hc2.
  apply op_seq_wf; [by apply check_buffer_op|]. intros _ c3 Hc3.
  apply require_stream_op; [done|]. intros s Hs. pose proof (client_nonzero _ _ _ Hc3 Hs) as Hz.
  eapply op_stream; [done..|intros; sop|]. intros b s' _ Hc4. by apply send_list_op.
Qed.

Lemma stream_new_wf id ss rs :
  0 <= ss <= MAX_WINDOW_SIZE -> 0 <= rs <= MAX_WINDOW_SIZE -> Stream.wf (Stream.new id ss rs).
Proof.
  unfold MAX_WINDOW_SIZE. intros Hs Hr. split; [|cbn; split_and!; try done; constructor].
  unfold FlowControl.wf. cbn. unfold MAX_WINDOW_SIZE. lia.
Qed.

(** A stream built from the settings in force. *)
Lemma new_stream_wf id c :
  wf c -> Stream.wf (Stream.new id (WindowSize.get (Settings.initial_window_size (remote_settings c)))
                                   (WindowSize.get (Settings.initial_window_size (local_settings c)))).
Proof.
  intros H. destruct (wf_remote c H) as (_ & _ & Hr & _). destruct (wf_local c H) as (_ & _ & Hl & _).
  apply stream_new_wf; [exact Hr|exact Hl].
Qed.

Lemma insert_stream_good sid s c :
  wf c -> client_id sid -> Stream.wf s -> Stream.received_content_length s <= 0 -> good 0 c (put sid s c).
Proof. intros H Hid Hs Hr. apply put_good; try done. pose proof (content_nonneg c sid H). lia. Qed.

Lemma next_id_good c :
  wf c -> role c = Role.Client -> next_stream_id c <= STREAM_ID_MAX ->
  good 0 c (c <| next_stream_id := next_stream_id c + 2 |>).
Proof.
  intros H Hr Hmax. pose proof (wf_parity c H Hr) as Hpar. pose proof (wf_next c H) as Hn. good_update; try lia.
  intros _. rewrite <- Hpar. rewrite Zplus_mod. change (2 mod 2) with 0. rewrite Z.add_0_r. apply Z.mod_mod. lia.
Qed.

Lemma begin_request_sop hs es s : Stream.wf s -> sop (begin_request hs es) s.
Proof. intros Hs. unfold begin_request. cbv zeta. sop. Qed.

Lemma start_stream_op hs es c : wf c -> headers_ok hs -> op (start_stream hs es) c.
Proof.
  intros H Hh. apply op_lift; [done|apply request_no_panic|]. intros _ _. apply op_gets, op_gets.
  case_bool_decide as Hrole; [by apply op_throw|]. op_guard. apply op_gets, op_gets.
  op_guard. cbv zeta. op_guard. op_guard.
  eapply op_seq_wp with (R := fun _ c' => good 0 c c' /\ c' = c).
  { apply wp_gets. destruct (Settings.max_header_list_size _) as [m|]; [destruct (_ >? m)|];
      first [by apply wp_throw, good_refl|by apply wp_ret; split; [apply good_refl|]]. }
  intros _ ? [Hg ->]. split; [done|]. apply op_gets.
  destruct (next_stream_id c >? STREAM_ID_MAX) eqn:Emax; [by apply op_throw|]. zbool.
  pose proof (wf_next c H) as Hn. assert (role c = Role.Client) as Hc by (by destruct (role c)).
  pose proof (wf_parity c H Hc) as Hpar. assert (client_id (next_stream_id c)) as Hid by (split; [lia|done]).
  set (sid := next_stream_id c) in *.
  assert (StreamId.wf (StreamId.from_wire sid)) as Hidw by (apply from_wire_wf; lia).
  apply expect_non_zero_op; [done..|by rewrite from_wire_as_u32; lia|]. intros nz Hnz.
  apply op_modify_seq; [by apply next_id_good|].
  intros c1 [Hc1 _]. apply op_gets. pose proof (wf_remote c H) as (_ & _ & Hr & _). pose proof (wf_local c1 Hc1) as (_ & _ & Hl & _).
  set (s0 := Stream.new _ _ _). assert (Stream.wf s0) as Hs0 by (apply stream_new_wf; [exact Hr|exact Hl]).
  pose proof (begin_request_sop hs es s0 Hs0) as Hm.
  unfold sop, wp in Hm. destruct (begin_request hs es s0) as [[a|e|] s1] eqn:Ex; [|by apply op_throw|done].
  destruct Hm as [Hs1 Hrc]. apply op_lift; [done..|]. intros _ _.
  apply op_modify_seq; [by apply (insert_stream_good sid s1 c1)|]. intros c2 [Hc2 _].
  apply hpack_encode_op; [done..|]. intros out c3 Hc3 _ Hout.
  apply op_seq_wf; [by apply send_header_block_op|]. intros _ c4 Hc4. by apply op_ret.
Qed.
