(* ===== verification/ConnSample.v ===== *)
(** * ConnSample: concrete connections

    Limits, header lists, a key order and connections the theorems on
    connections are applied to. *)

From S2P Require Import Prelude Errors StreamIds Config Flow Bounded StreamCore FrameTypes.
From S2P Require Import FrameEncode FrameDecode FrameCodec Syntax HpackTable HpackCodec.
From S2P Require Import Validation Stream ConnBase ConnHeaders ConnRecv ConnInv ConnSafe.
Import Connection Headers Handlers Invariant.

(** The map's own key order. *)
Definition key_order : HashOrder := fun c => (map_to_list (streams c)).*1.
Lemma key_order_laws : HashOrderLaws key_order.
Proof. by intros c. Qed.

(** [Limits::default()] *)
Definition sample_limits : Limits.t :=
  match Limits_default with
  | Ok l => l
  | _ => Limits.mk None (WindowSize.mk 0) (MaxFrameSize.mk 16384) None 0 (WindowSize.mk 0)
                   false false false None None None None None None
  end.

Lemma sample_limits_ok : limits_ok sample_limits.
Proof. repeat split; by vm_compute. Qed.

Definition field (name value : string) : HeaderField.t := HeaderField.mk (bstr name) (bstr value) false.

Definition sample_request : list HeaderField.t :=
  [field ":method" "POST"; field ":scheme" "https"; field ":path" "/"; field ":authority" "a.example";
   field "content-length" "3"].
Definition sample_response : list HeaderField.t := [field ":status" "200"].

Ltac solve_headers_ok :=
  split;
  [ repeat constructor; by vm_compute
  | by vm_compute ].

Lemma sample_request_ok : headers_ok sample_request.
Proof. solve_headers_ok. Qed.
Lemma sample_response_ok : headers_ok sample_response.
Proof. solve_headers_ok. Qed.

(** A client that has a stream with data to send. *)
Definition stream_1 : StreamId.t := StreamId.from_wire 1.
Definition sending_stream : Stream.t :=
  (Stream.new stream_1 65535 65535)
    <| Stream.state := snd (StateMachine.send_headers false StateMachine.new) |>
    <| Stream.send_buffer := SendBuffer.mk [1; 2; 3] DEFAULT_INITIAL_WINDOW_SIZE |>
    <| Stream.pending_end_stream := true |>.
Definition sending_client : Connection.t := put 1 sending_stream (client sample_limits).

Lemma sending_client_wf : wf sending_client.
Proof.
  apply (put_good 0); [by apply conn_new_wf, sample_limits_ok|done| |done|by vm_compute].
  repeat split; try by vm_compute. repeat constructor; by vm_compute.
Qed.
