(* ===== verification/ConnFlow.v ===== *)
(** * ConnFlow: what flushing a stream sends

    The functional specification of [flush_stream_data] and [send_data]: which
    DATA frames leave, with which octets, and what is charged to the windows. *)

From S2P Require Import Prelude Errors StreamIds Config Flow Bounded StreamCore FrameTypes.
From S2P Require Import FrameEncode FrameDecode FrameCodec HpackTable HpackCodec Stream.
From S2P Require Import ConnBase ConnHeaders ConnRecv ConnInv ConnSafe ConnSample.
Import Connection Invariant.

Module Delivery.

(** The DATA frames that carry the octets [l]: all but the last are of the
    peer's frame size, END_STREAM can only be on the last. *)
Fixpoint data_frames (fuel : nat) (sid max : Z) (l : list Z) (es : bool) : list Frame.t :=
  match fuel with
  | O => []
  | S fuel =>
      if len l <=? max then [data_frame sid l es]
      else data_frame sid (take (Z.to_nat max) l) false
           :: data_frames fuel sid max (drop (Z.to_nat max) l) es
  end.

Definition peer_max_frame (c : t) : Z := MaxFrameSize.get (Settings.max_frame_size (remote_settings c)).

Definition buffered (s : Stream.t) : list Z := SendBuffer.data (Stream.send_buffer s).

(** How many buffered octets the windows let out now. *)
Definition allowance (s : Stream.t) (c : t) : Z :=
  Z.min (len (buffered s))
        (Z.min (FlowControl.send_available (flow_control c))
               (FlowControl.send_available (Stream.flow_control s))).

(** Whether everything leaves, and the end of the stream with it. *)
Definition ends (s : Stream.t) (c : t) : bool :=
  Stream.pending_end_stream s && (allowance s c =? len (buffered s)).

(** The specification of [flush_stream_data]. *)
Definition flushed (sid : Z) (s : Stream.t) (c : t) : t :=
  let k := allowance s c in
  if (k =? 0) && negb (ends s c) then c
  else
    let l := take (Z.to_nat k) (buffered s) in
    delivered sid (if ends s c then after_end (after_send k s) else after_send k s) k
      (data_frames (S (length l)) sid (peer_max_frame c) l (ends s c)) c.

(** The octets a list of DATA frames carries. *)
Definition payload (f : Frame.t) : list Z :=
  match f with Frame.Data d => DataFrame.data d | _ => [] end.

(** The END_STREAM flag of a DATA frame. *)
Definition end_flag (f : Frame.t) : bool :=
  match f with Frame.Data d => DataFrame.end_stream d | _ => false end.

End Delivery.
Import Delivery.

(** ** Lemmas *)

Lemma data_frames_payload fuel sid max l es :
  0 < max -> (length l < fuel)%nat -> concat (map payload (data_frames fuel sid max l es)) = l.
Proof.
  intros Hm. revert l. induction fuel as [|fuel IH]; intros l Hl; [lia|]. cbn [data_frames].
  destruct (len l <=? max) eqn:E; cbn; [by rewrite app_nil_r|]. zbool. unfold len in E.
  rewrite IH by (rewrite length_drop; lia). apply take_drop.
Qed.

Lemma data_frames_fuel fuel1 fuel2 sid max l es :
  0 < max -> (length l < fuel1)%nat -> (length l < fuel2)%nat ->
  data_frames fuel1 sid max l es = data_frames fuel2 sid max l es.
Proof.
  intros Hm. revert fuel2 l. induction fuel1 as [|fuel1 IH]; intros [|fuel2] l H1 H2; try lia.
  cbn [data_frames]. destruct (len l <=? max) eqn:E; [done|]. zbool. unfold len in E. f_equal.
  apply IH; rewrite length_drop; lia.
Qed.

Lemma data_frames_cons fuel sid max l es :
  max < len l ->
  data_frames (S fuel) sid max l es =
  data_frame sid (take (Z.to_nat max) l) false :: data_frames fuel sid max (drop (Z.to_nat max) l) es.
Proof. intros Hl. cbn [data_frames]. by replace (len l <=? max) with false by lia. Qed.

Lemma data_frames_size fuel sid max l es :
  0 <= max -> Forall (fun f => len (payload f) <= max) (data_frames fuel sid max l es).
Proof.
  intros Hm. revert l. induction fuel as [|fuel IH]; intros l; [constructor|]. cbn [data_frames].
  destruct (len l <=? max) eqn:E; zbool; (constructor; [|done || apply IH]); cbn; [lia|].
  rewrite len_take. lia.
Qed.

Lemma after_send_after_send m n s :
  0 <= m -> 0 <= n -> after_send m (after_send n s) = after_send (n + m) s.
Proof.
  intros Hm Hn. unfold after_send, popped, use_window. cbn. rewrite drop_drop, Z.sub_add_distr.
  by replace (Z.to_nat n + Z.to_nat m)%nat with (Z.to_nat (n + m)) by lia.
Qed.

Lemma after_send_0 s : after_send 0 s = s.
Proof. unfold after_send, popped, use_window. destruct s as [? ? [] ? ? []]. cbn. by rewrite Z.sub_0_r. Qed.

Lemma send_size_allowance s c :
  send_size s c = Z.min (allowance s c) (peer_max_frame c).
Proof. unfold send_size, allowance, peer_max_frame, SendBuffer.length, buffered. lia. Qed.

Lemma peer_max_bounds c : wf c -> 16384 <= peer_max_frame c <= MAX_MAX_FRAME_SIZE.
Proof. intros H. destruct (wf_remote c H) as (_ & _ & _ & Hm & _). exact Hm. Qed.

(** Sending uses up the allowance. *)
Lemma allowance_after sid n fs s s' c :
  0 < n <= allowance s c -> buffered s' = drop (Z.to_nat n) (buffered s) ->
  Stream.flow_control s' = use_window n (Stream.flow_control s) ->
  allowance s' (delivered sid s' n fs c) = allowance s c - n.
Proof.
  unfold allowance. intros Hn -> ->. rewrite len_drop, !fc_send_available in *.
  change (flow_control (delivered sid s' n fs c)) with (use_window n (flow_control c)).
  unfold use_window. cbn [FlowControl.send_window set_field]. lia.
Qed.

(** The loop, from a state where something can be sent. *)
Lemma flush_loop_eq fuel sid s c :
  wf c -> streams c !! sid = Some s -> StreamState.can_send (Stream.get_state s) = true ->
  0 < allowance s c -> (length (buffered s) < fuel)%nat ->
  exists b, flush_loop fuel sid c = (Ok b, flushed sid s c).
Proof.
  revert s c. induction fuel as [|fuel IH]; intros s c H Hs Hst Hk Hfuel; [lia|].
  pose proof (peer_max_bounds c H) as Hmax. pose proof (send_size_allowance s c) as Hn.
  assert (0 < send_size s c) as Hpos by lia.
  destruct (send_size_pos sid s c H Hs Hpos) as (Hcw & Hsw & Hnb & Hl & Hf).
  destruct (wf_stream _ _ _ H Hs) as [Hid Hswf]. fold (buffered s) in Hnb, Hl, Hf.
  pose proof (flush_step_eq sid _ s c H Hs eq_refl Hpos) as He. cbv zeta in He. fold (buffered s) in He.
  rewrite Hst in He. cbn [flush_loop]. unfold bind at 1, gets at 1. rewrite Hs. cbv zeta.
  fold (buffered s). unfold SendBuffer.length. fold (buffered s).
  replace (len (buffered s) =? 0) with false by lia. cbn [andb].
  unfold bind at 1, gets at 1. replace (send_size s c =? 0) with false by lia.
  set (n := send_size s c) in *. set (k := allowance s c) in *.
  assert (n <= k) as Hnk by lia.
  assert (k <= len (buffered s)) as Hkb by (subst k; unfold allowance; lia).
  destruct (Z.le_gt_cases k (peer_max_frame c)) as [Hsmall|Hbig].
  - (* everything allowed fits in one frame *)
    assert (n = k) as -> by lia.
    assert (flushed sid s c = delivered sid (if ends s c then after_end (after_send k s) else after_send k s) k
              [data_frame sid (take (Z.to_nat k) (buffered s)) (ends s c)] c) as Hfl.
    { unfold flushed. fold k. replace (k =? 0) with false by lia. cbn [andb data_frames].
      by replace (len _ <=? peer_max_frame c) with true by lia. }
    assert (Stream.pending_end_stream s && (len (buffered s) - k =? 0) = ends s c) as Hends.
    { unfold ends. fold k. f_equal. apply eq_true_iff_eq. rewrite !Z.eqb_eq. lia. }
    rewrite Hends in He. destruct (ends s c) eqn:Ee; cbn [negb] in He; rewrite (bind_Ok _ _ _ _ _ He), delivered_emit, <- Hfl.
    + cbn. eauto.
    + cbn [orb]. destruct (len (buffered s) - k =? 0) eqn:E0; [cbn; eauto|]. zbool.
      set (s1 := after_send k s) in *.
      assert (streams (flushed sid s c) !! sid = Some s1) as Hs1 by (rewrite Hfl; apply lookup_insert_eq).
      assert (good 0 c (flushed sid s c)) as [Hc1 _].
      { rewrite Hfl. by eapply delivered_good; [..|apply after_send_keeps]. }
      assert (len (SendBuffer.data (Stream.send_buffer s1)) = len (buffered s) - k) as Hb1.
      { subst s1. cbn. rewrite len_drop. fold (buffered s). lia. }
      assert (send_size s1 (flushed sid s c) = 0) as Hz.
      { rewrite Hfl, send_size_allowance.
        rewrite (allowance_after sid k _ s s1) by (done || fold k; lia).
        change (peer_max_frame (delivered _ _ _ _ c)) with (peer_max_frame c). fold k. lia. }
      destruct fuel as [|fuel]; [unfold len in *; lia|]. cbn [flush_loop].
      unfold bind at 1, gets at 1. rewrite Hs1. cbv zeta. unfold SendBuffer.length. rewrite Hb1.
      replace (len (buffered s) - k =? 0) with false by lia. cbn [andb].
      unfold bind, gets. rewrite Hz. cbn. eauto.
  - (* a full frame, and the rest *)
    assert (n = peer_max_frame c) as Hnm by lia.
    replace (len (buffered s) - n =? 0) with false in He by lia. rewrite andb_false_r in He. cbn [negb] in He.
    rewrite (bind_Ok _ _ _ _ _ He), delivered_emit. cbn [orb].
    replace (len (buffered s) - n =? 0) with false by lia.
    set (s1 := after_send n s). set (c1 := delivered sid s1 n _ c).
    assert (streams c1 !! sid = Some s1) as Hs1 by apply lookup_insert_eq.
    assert (wf c1) as Hc1.
    { eapply good_wf, delivered_good; [done|done|done|done|by apply after_send_keeps]. }
    assert (buffered s1 = drop (Z.to_nat n) (buffered s)) as Hb1 by reflexivity.
    assert (allowance s1 c1 = k - n) as Hk1.
    { unfold c1. by rewrite (allowance_after sid n _ s s1) by (done || fold k; lia). }
    destruct (IH s1 c1 Hc1 Hs1 Hst ltac:(lia) ltac:(rewrite Hb1, length_drop; unfold len in Hnb; lia)) as [b Hb].
    exists b. rewrite Hb. f_equal. unfold flushed. rewrite Hk1. fold k.
    assert (ends s1 c1 = ends s c) as Hes.
    { unfold ends. rewrite Hk1. fold k. change (Stream.pending_end_stream s1) with (Stream.pending_end_stream s).
      rewrite Hb1, len_drop. f_equal. apply eq_true_iff_eq. rewrite !Z.eqb_eq. lia. }
    rewrite Hes. replace (k - n =? 0) with false by lia. replace (k =? 0) with false by lia. cbn [andb].
    unfold c1. rewrite delivered_delivered. replace (n + (k - n)) with k by lia.
    assert (after_send (k - n) s1 = after_send k s) as Has.
    { subst s1. rewrite after_send_after_send by lia. f_equal. lia. }
    rewrite Has. f_equal. change (peer_max_frame (delivered _ _ _ _ c)) with (peer_max_frame c).
    rewrite Hb1. set (l := take (Z.to_nat k) (buffered s)).
    assert (take (Z.to_nat (k - n)) (drop (Z.to_nat n) (buffered s)) = drop (Z.to_nat n) l) as Hdl.
    { subst l. rewrite take_drop_commute. do 2 f_equal. lia. }
    rewrite Hdl. assert (len l = k) as Hll by (subst l; rewrite len_take; lia).
    rewrite (data_frames_cons (length l)) by lia. rewrite <- Hnm. cbn [app]. f_equal.
    + subst l. rewrite take_take. do 2 f_equal. lia.
    + apply data_frames_fuel; [lia|rewrite ?length_drop; unfold len in *; lia..].
Qed.

Lemma use_window_0 f : use_window 0 f = f.
Proof. unfold use_window. destruct f. cbn. by rewrite Z.sub_0_r. Qed.

Lemma delivered_0 sid s c : streams c !! sid = Some s -> delivered sid s 0 [] c = c.
Proof.
  intros H. unfold delivered. rewrite use_window_0. cbn. rewrite insert_id by done.
  rewrite app_nil_r. by destruct c.
Qed.

Lemma allowance_bounds s c : 0 <= allowance s c <= len (buffered s).
Proof. unfold allowance. rewrite !fc_send_available. pose proof (len_nonneg (buffered s)). lia. Qed.

Lemma buffer_empty_len s : SendBuffer.is_empty (Stream.send_buffer s) = (len (buffered s) =? 0).
Proof. unfold buffered. by destruct (Stream.send_buffer s) as [l m]; rewrite is_empty_len. Qed.

(** The end of the stream alone: nothing is buffered. *)
Lemma complete_end_eq sid s c :
  wf c -> streams c !! sid = Some s -> StreamState.can_send (Stream.get_state s) = true ->
  (stream_mut sid (Stream.set_pending_end_stream false) ;!
   stream_mut sid (Stream.state_machine_mut (StateMachine.complete_send_data true)) ;!
   send_data_frame sid [] true) c = (Ok tt, delivered sid (after_end s) 0 [data_frame sid [] true] c).
Proof.
  intros H Hs Hst. destruct (wf_stream _ _ _ H Hs) as [Hid Hsw].
  erewrite bind_Ok by (eapply stream_mut_eq; [exact Hs|reflexivity]).
  set (s1 := s <| Stream.pending_end_stream := false |>).
  assert (Stream.state_machine_mut (StateMachine.complete_send_data true) s1 = (Ok tt, after_end s)) as He.
  { unfold Stream.state_machine_mut, zoom. change (Stream.state s1) with (Stream.state s).
    rewrite complete_send_eq. unfold Stream.get_state in Hst. by rewrite Hst. }
  rewrite (bind_Ok _ _ _ tt (put sid (after_end s) c))
    by (rewrite <- (put_put sid s1 (after_end s)); apply (stream_mut_eq _ _ _ _ _ _ (put_lookup _ _ _) He)).
  rewrite send_data_frame_eq; [|by apply (put_good 0); try done; unfold content; rewrite Hs; cbn; lia|done|constructor|done].
  f_equal. unfold emit, put, delivered. rewrite use_window_0. by destruct c.
Qed.

Lemma flush_loop_idle fuel sid s c :
  wf c -> streams c !! sid = Some s -> allowance s c = 0 ->
  flush_loop (S fuel) sid c = (Ok (Stream.pending_end_stream s && (len (buffered s) =? 0)), c).
Proof.
  intros H Hs Hz. pose proof (peer_max_bounds c H). pose proof (send_size_allowance s c) as Hn.
  cbn [flush_loop]. unfold bind, gets, ret. rewrite Hs. unfold SendBuffer.length. fold (buffered s).
  assert ((send_size s c =? 0) = true) as He by lia.
  destruct (Stream.pending_end_stream s), (len (buffered s) =? 0); cbn [andb negb]; cbv beta iota;
    rewrite ?He; reflexivity.
Qed.

Lemma flush_eq sid s c :
  wf c -> streams c !! sid = Some s -> StreamState.can_send (Stream.get_state s) = true ->
  flush_stream_data sid c = (Ok tt, flushed sid s c).
Proof.
  intros H Hs Hst. pose proof (allowance_bounds s c) as Hk. pose proof (len_nonneg (buffered s)) as Hb.
  unfold flush_stream_data. unfold bind at 1, gets at 1. unfold flush_fuel. rewrite Hs. fold (buffered s).
  destruct (Z.eq_dec (allowance s c) 0) as [Hz|Hz].
  - (* no octet leaves *)
    rewrite (bind_Ok _ _ _ _ _ (flush_loop_idle _ sid s c H Hs Hz)). unfold flushed, ends. rewrite Hz.
    change (Z.to_nat 0) with 0%nat. rewrite take_0.
    destruct (Stream.pending_end_stream s) eqn:Ep; cbn [andb negb]; [|done].
    destruct (len (buffered s) =? 0) eqn:E0; zbool.
    + replace (0 =? len (buffered s)) with true by lia.
      cbn [andb negb]. unfold bind at 1, gets at 1. rewrite Hs, Ep, buffer_empty_len.
      replace (len _ =? 0) with true by lia. cbn [andb].
      rewrite (complete_end_eq sid s c) by done. rewrite after_send_0.
      cbn [Z.eqb andb negb data_frames]. pose proof (peer_max_bounds c H).
      by replace (len (@nil Z) <=? peer_max_frame c) with true by (rewrite len_nil; lia).
    + by replace (0 =? len (buffered s)) with false by lia.
  - destruct (flush_loop_eq (S (length (buffered s))) sid s c H Hs Hst ltac:(lia) ltac:(lia)) as [b Hl].
    rewrite (bind_Ok _ _ _ _ _ Hl). destruct b; [|done]. cbn [negb].
    unfold bind, gets. unfold flushed. replace (allowance s c =? 0) with false by lia. cbn [andb].
    set (s' := if ends s c then _ else _).
    change (streams (delivered sid s' _ _ c)) with (<[sid := s']> (streams c)). rewrite lookup_insert_eq.
    assert (Stream.pending_end_stream s' && SendBuffer.is_empty (Stream.send_buffer s') = false) as ->; [|done].
    subst s'. destruct (ends s c) eqn:Ee; [done|].
    change (Stream.pending_end_stream (after_send _ s)) with (Stream.pending_end_stream s).
    rewrite buffer_empty_len. change (buffered (after_send _ s)) with (drop (Z.to_nat (allowance s c)) (buffered s)).
    rewrite len_drop. unfold ends in Ee. apply andb_false_iff in Ee as [->|Ee]; [done|]. zbool.
    apply andb_false_iff. right. apply Z.eqb_neq. lia.
Qed.


Lemma data_frames_flags fuel sid max l es :
  0 < max -> (length l < fuel)%nat ->
  exists n, map end_flag (data_frames fuel sid max l es) = replicate n false ++ [es].
Proof.
  intros Hm. revert l. induction fuel as [|fuel IH]; intros l Hl; [lia|]. cbn [data_frames].
  destruct (len l <=? max) eqn:E; [by exists 0%nat|]. zbool. unfold len in E.
  destruct (IH (drop (Z.to_nat max) l)) as [n Hn]; [rewrite length_drop; lia|].
  exists (S n). cbn. by rewrite Hn.
Qed.

Lemma data_frames_no_end fuel sid max l :
  Forall (fun f => end_flag f = false) (data_frames fuel sid max l false).
Proof.
  revert l. induction fuel as [|fuel IH]; intros l; [constructor|]. cbn [data_frames].
  destruct (len l <=? max); by constructor.
Qed.

Lemma data_frame_fits sid max l es :
  client_id sid -> bytes_ok l -> len l <= max <= MAX_MAX_FRAME_SIZE -> sendable max (data_frame sid l es).
Proof.
  intros [Hid _] Hl Hm. apply sendable_shrink; [apply sendable_data; [by apply nz_from_validated_wf|done|lia]|].
  unfold FrameEncoder.payload_len. cbn. rewrite app_nil_r. lia.
Qed.

Lemma data_frames_sendable fuel sid max l es :
  client_id sid -> bytes_ok l -> 0 < max <= MAX_MAX_FRAME_SIZE ->
  Forall (sendable max) (data_frames fuel sid max l es).
Proof.
  intros Hid Hl Hm. revert l Hl. induction fuel as [|fuel IH]; intros l Hl; [constructor|]. cbn [data_frames].
  destruct (len l <=? max) eqn:E; zbool.
  - constructor; [|done]. by apply data_frame_fits; [..|lia].
  - constructor; [|by apply IH, Forall_drop]. apply data_frame_fits; [done|by apply Forall_take|].
    rewrite len_take. lia.
Qed.

(** ** Properties *)

(** C16: Flushing a stream obeys flow control and loses nothing. Whenever the
    stream may still send, [flush_stream_data] terminates without an error and
    writes DATA frames for exactly as many buffered octets as the connection
    window, the stream window and the buffer allow together. Each frame fits
    the peer's SETTINGS_MAX_FRAME_SIZE, the payloads put together are the front
    of the send buffer in order, the rest stays buffered, both windows are
    charged for exactly these octets, and END_STREAM is set on the last frame
    only, exactly when the application ended the stream and all of it left. *)
Theorem flush_respects_flow_control (sid : Z) (s : Stream.t) (c : t) :
  wf c -> streams c !! sid = Some s -> StreamState.can_send (Stream.get_state s) = true ->
  exists fs s',
    flush_stream_data sid c = (Ok tt, delivered sid s' (allowance s c) fs c) /\
    concat (map payload fs) = take (Z.to_nat (allowance s c)) (buffered s) /\
    buffered s' = drop (Z.to_nat (allowance s c)) (buffered s) /\
    Stream.flow_control s' = use_window (allowance s c) (Stream.flow_control s) /\
    Forall (sendable MAX_MAX_FRAME_SIZE) fs /\
    Forall (fun f => len (payload f) <= peer_max_frame c) fs /\
    (if ends s c
     then (exists n, map end_flag fs = replicate n false ++ [true]) /\
          StreamState.can_send (Stream.get_state s') = false /\ Stream.pending_end_stream s' = false
     else Forall (fun f => end_flag f = false) fs /\ Stream.get_state s' = Stream.get_state s).
Proof.
  intros H Hs Hst. rewrite (flush_eq sid s c H Hs Hst). unfold flushed.
  pose proof (allowance_bounds s c) as Hk. pose proof (peer_max_bounds c H) as Hm.
  destruct (wf_stream _ _ _ H Hs) as [Hid Hsw].
  destruct ((allowance s c =? 0) && negb (ends s c)) eqn:E0.
  { apply andb_true_iff in E0 as [E0 Ee]. apply negb_true_iff in Ee. zbool. rewrite E0, Ee.
    exists [], s. rewrite delivered_0, use_window_0 by done. split_and!; try done; constructor. }
  set (l := take (Z.to_nat (allowance s c)) (buffered s)).
  eexists _, _. split; [reflexivity|]. split; [apply data_frames_payload; lia|].
  split; [by destruct (ends s c)|]. split; [by destruct (ends s c)|].
  split; [eapply Forall_impl; [apply data_frames_sendable; [done|apply Forall_take; apply Hsw|lia]|];
          intros f; apply sendable_weaken; lia|].
  split; [apply data_frames_size; lia|].
  destruct (data_frames_flags (S (length l)) sid (peer_max_frame c) l (ends s c)) as [n Hn]; [lia|lia|].
  destruct (ends s c).
  - split; [by eauto|]. split; [|done]. unfold Stream.get_state in *. cbn.
    destruct (Stream.state s) as [[]]; cbn in *; done.
  - split; [|done]. by apply data_frames_no_end.
Qed.

Lemma flush_respects_flow_control_witness :
  exists fs s',
    flush_stream_data 1 sending_client =
      (Ok tt, delivered 1 s' (allowance sending_stream sending_client) fs sending_client) /\
    concat (map payload fs) = [1; 2; 3] /\
    (exists n, map end_flag fs = replicate n false ++ [true]).
Proof.
  destruct (flush_respects_flow_control 1 sending_stream sending_client sending_client_wf)
    as (fs & s' & H1 & H2 & _ & _ & _ & _ & H7); [apply put_lookup|reflexivity|].
  exists fs, s'. split; [exact H1|]. split; [exact H2|]. exact (proj1 H7).
Defined.
