(* ===== verification/ConnSend.v ===== *)
(** * ConnSend: what a successful call of send_data sends

    Nothing is lost between the application and the wire: the DATA frames that
    are written and the octets that stay in the stream's buffer are together
    what was buffered and what the call handed over. *)

From S2P Require Import Prelude Errors StreamIds Config Flow Bounded StreamCore FrameTypes.
From S2P Require Import FrameEncode FrameDecode FrameCodec HpackTable HpackCodec Stream.
From S2P Require Import ConnBase ConnHeaders ConnRecv ConnInv ConnSafe ConnSample ConnFlow.
Import Connection Invariant Delivery.

(** The octets of a stream that wait for a window. *)
Definition unsent (sid : Z) (c : t) : list Z :=
  match streams c !! sid with Some s => buffered s | None => [] end.

(** A DATA frame of the stream. *)
Definition data_of (sid : Z) (f : Frame.t) : Prop := exists l es, f = data_frame sid l es.

(** The frames [fs] carry on what was unsent and [octets], as far as they go. *)
Record sends (sid : Z) (octets : list Z) (fs : list Frame.t) (c c' : t) : Prop := mk_sends {
  sn_frames : Forall (data_of sid) fs;
  sn_octets : concat (map payload fs) ++ unsent sid c' = unsent sid c ++ octets;
  sn_output : output_buffer c' = output_buffer c ++ wires fs
}.

(** Which frames have END_STREAM: none, or the last alone. *)
Definition unended (fs : list Frame.t) : Prop := Forall (fun f => end_flag f = false) fs.
Definition ended_by_last (fs : list Frame.t) : Prop := exists n, map end_flag fs = replicate n false ++ [true].

Lemma sends_nothing sid c : sends sid [] [] c c.
Proof. constructor; [constructor|by rewrite app_nil_r|by rewrite app_nil_r]. Qed.

Lemma data_frames_of fuel sid max l es : Forall (data_of sid) (data_frames fuel sid max l es).
Proof.
  revert l. induction fuel as [|fuel IH]; intros l; [constructor|]. cbn [data_frames].
  destruct (len l <=? max); (constructor; [by eexists _, _|done]).
Qed.

(** Flushing a stream: what is allowed leaves, the rest stays. *)
Lemma flushed_sends sid s c :
  wf c -> streams c !! sid = Some s ->
  exists fs, sends sid [] fs c (flushed sid s c) /\ (if ends s c then ended_by_last fs else unended fs).
Proof.
  intros H Hs. pose proof (allowance_bounds s c) as Hk. pose proof (peer_max_bounds c H) as Hm. unfold flushed.
  destruct ((allowance s c =? 0) && negb (ends s c)) eqn:E0.
  { apply andb_true_iff in E0 as [_ ->%negb_true_iff]. exists []. split; [apply sends_nothing|constructor]. }
  set (l := take (Z.to_nat (allowance s c)) (buffered s)). set (s' := if ends s c then _ else _).
  exists (data_frames (S (length l)) sid (peer_max_frame c) l (ends s c)). split.
  - constructor; [apply data_frames_of| |done]. unfold unsent. rewrite Hs. cbn [delivered streams set_field].
    rewrite lookup_insert_eq, data_frames_payload, app_nil_r by lia.
    replace (buffered s') with (drop (Z.to_nat (allowance s c)) (buffered s)) by (subst s'; by destruct (ends s c)). apply take_drop.
  - destruct (ends s c); [apply data_frames_flags; lia|apply data_frames_no_end].
Qed.

(** Queueing: the octets are appended, and the end is noted. *)
Definition enqueued (data : list Z) (es : bool) (s : Stream.t) : Stream.t :=
  s <| Stream.send_buffer := SendBuffer.mk (buffered s ++ data) (SendBuffer.max_size (Stream.send_buffer s)) |>
    <| Stream.pending_end_stream := if es then true else Stream.pending_end_stream s |>.

Lemma queue_data_Ok sid data es s c c' :
  wf c -> bytes_ok data -> streams c !! sid = Some s -> queue_data sid data es c = (Ok tt, c') ->
  c' = put sid (enqueued data es s) c /\ Stream.wf (enqueued data es s).
Proof.
  intros H Hb Hs. destruct (wf_stream _ _ _ H Hs) as [_ (Hf & Hbb & Hm & Hl & Hr)].
  unfold queue_data, require_stream. runs. rewrite Hs. cbn [ok_or]. runs. destruct (SendBuffer.can_push _ _) eqn:Hc; [|done]. cbn [negb].
  assert (Stream.send_buffer_mut (SendBuffer.push data) s =
    (Ok 0, s <| Stream.send_buffer := SendBuffer.mk (buffered s ++ data) (SendBuffer.max_size (Stream.send_buffer s)) |>)) as E.
  { unfold Stream.send_buffer_mut, zoom. rewrite send_push_all by (done || rewrite Hm; by vm_compute). done. }
  rewrite (bind_Ok _ _ _ _ _ (stream_mut_eq sid s _ c _ _ Hs E)). intros E'.
  assert (Stream.wf (enqueued data es s)) as Hw.
  { unfold Stream.wf, enqueued. cbn. split_and!; [done|by apply bytes_ok_app|done| |done].
    unfold SendBuffer.can_push, saturating_add in Hc. unfold buffered in *. rewrite len_app. zbool. rewrite Hm in *.
    unfold DEFAULT_INITIAL_WINDOW_SIZE, USIZE_MAX in *. lia. }
  split; [|done]. set (s1 := s <| Stream.send_buffer := _ |>) in E'. destruct es.
  - rewrite (stream_mut_eq sid s1 _ _ (Ok tt) (enqueued data true s)) in E'; [|apply put_lookup|done].
    injection E' as <-. by rewrite put_put.
  - injection E' as <-. unfold enqueued. by destruct s.
Qed.

(** A stream that closed has nothing unsent. *)
Lemma try_remove_sends sid octets fs c c1 c' :
  sends sid octets fs c c1 -> try_remove_closed_stream sid c1 = (Ok tt, c') -> sends sid octets fs c c'.
Proof.
  intros [Hf Ho Hw]. unfold try_remove_closed_stream. rewrite bind_gets. unfold unsent in *.
  destruct (streams c1 !! sid) as [s|] eqn:Es; [|intros [= <-]; constructor; [done|by unfold unsent; rewrite Es|done]].
  destruct (_ && _ && _) eqn:E; [|intros [= <-]; constructor; [done|by unfold unsent; rewrite Es|done]].
  apply andb_true_iff in E as [[_ E]%andb_true_iff _]. rewrite buffer_empty_len in E.
  intros [= <-]. constructor; [done| |done]. unfold unsent. cbn. rewrite lookup_delete_eq. rewrite <- Ho. f_equal.
  destruct (buffered s); [done|]. rewrite len_cons in E. pose proof (len_nonneg l). lia.
Qed.

Lemma try_remove_pending id c c' :
  try_remove_closed_stream (StreamId.as_u32 id) c = (Ok tt, c') ->
  has_pending_send_data id c' = has_pending_send_data id c.
Proof.
  unfold try_remove_closed_stream, has_pending_send_data. rewrite bind_gets.
  destruct (streams c !! StreamId.as_u32 id) as [s|] eqn:Es; [|by intros [= <-]; rewrite Es].
  destruct (_ && _ && _) eqn:E; [|by intros [= <-]; rewrite Es].
  apply andb_true_iff in E as [[_ E]%andb_true_iff ->%negb_true_iff]. intros [= <-]. cbn. rewrite lookup_delete_eq. by rewrite E.
Qed.

Lemma send_data_sends id data es c c' :
  let sid := StreamId.as_u32 id in
  wf c -> bytes_ok data -> send_data id data es c = (Ok tt, c') ->
  exists fs, sends sid data fs c c' /\ wf c' /\
    if es then has_pending_send_data id c' = false -> ended_by_last fs else unended fs.
Proof.
  intros sid H Hb E0. pose proof (send_data_op id data es c H Hb) as Hop. unfold op, wp in Hop. rewrite E0 in Hop.
  destruct Hop as [H' _]. revert E0. unfold send_data. fold sid. unfold require_stream. runs.
  destruct (streams c !! sid) as [s|] eqn:Hs; [|done]. cbn [ok_or]. runs. destruct (Stream.pending_end_stream s) eqn:Hp; [done|].
  intros (u & c1 & E1 & E)%bind_inv_Ok.
  assert (c1 = c /\ StreamState.can_send (Stream.get_state s) = true) as [-> Hst].
  { unfold stream_mut in E1. rewrite Hs in E1. unfold Stream.state_machine_mut, zoom, StateMachine.send_data, Stream.get_state in *.
    destruct s as [i [st] x]. cbn in *. destruct st; try done; injection E1 as _ <-; (split; [by apply put_id|done]). }
  clear E1. apply bind_inv_Ok in E as ([] & c2 & E2 & E). destruct (wf_stream _ _ _ H Hs) as [Hid Hsw].
  apply (queue_data_Ok sid data es s c c2 H Hb Hs) in E2 as [-> Hw2]. set (s2 := enqueued data es s) in *. set (c2 := put sid s2 c) in *.
  assert (wf c2) as H2. { eapply good_wf, (put_good 0); try done. unfold content. rewrite Hs. cbn. lia. }
  rewrite (bind_Ok _ _ _ _ _ (flush_eq sid s2 c2 H2 (put_lookup _ _ _) Hst)) in E.
  destruct (flushed_sends sid s2 c2 H2 (put_lookup _ _ _)) as (fs & [Hf Ho Hout] & Hend). exists fs. split_and!; [|done|].
  - eapply try_remove_sends; [|exact E]. constructor; [done| |exact Hout]. rewrite Ho, app_nil_r.
    unfold unsent. rewrite Hs. unfold c2. by rewrite put_lookup.
  - destruct es; [|by replace (ends s2 c2) with false in Hend by (unfold ends; cbn; by rewrite Hp)].
    rewrite (try_remove_pending id _ _ E). destruct (ends s2 c2) eqn:He; [done|].
    intros Hpend. exfalso. revert Hpend. unfold has_pending_send_data. fold sid. unfold flushed. rewrite He.
    destruct (allowance s2 c2 =? 0); cbn [andb negb]; [unfold c2; rewrite put_lookup|cbn [delivered streams set_field]; rewrite lookup_insert_eq];
      cbn; by rewrite orb_true_r.
Qed.
