(* ===== verification/ConnBlock.v ===== *)
(** * ConnBlock: header blocks on the wire

    The functional specification of [send_header_block]: which HEADERS and
    CONTINUATION frames carry a header block; and of the receiving side: the
    frames of a block, received one after the other, have the effect of the
    whole block. *)

From S2P Require Import Prelude Errors StreamIds Config Flow Bounded StreamCore FrameTypes.
From S2P Require Import FrameEncode FrameDecode FrameCodec HpackInteger Syntax HpackTable HpackCodec.
From S2P Require Import Validation Stream ConnBase ConnHeaders ConnRecv ConnInv ConnSafe.
From S2P Require Import ConnSample ConnFlow.
Import Connection Headers Handlers Invariant Delivery.

Module Block.

Definition continuation (nz : NonZeroStreamId.t) (l : list Z) (end_headers : bool) : Frame.t :=
  Frame.Continuation (ContinuationFrame.with_end_headers end_headers (ContinuationFrame.new nz l)).

(** The CONTINUATION frames that carry [l]. *)
Fixpoint continuations (fuel : nat) (nz : NonZeroStreamId.t) (max : Z) (l : list Z) : list Frame.t :=
  match fuel with
  | O => []
  | S fuel =>
      if len l =? 0 then []
      else
        let n := Z.min (len l) max in
        continuation nz (take (Z.to_nat n) l) (len l <=? max)
        :: continuations fuel nz max (drop (Z.to_nat n) l)
  end.

(** The frames of a header block. *)
Definition block_frames (nz : NonZeroStreamId.t) (max : Z) (block : list Z) (es : bool) : list Frame.t :=
  if len block <=? max then [headers_frame nz block es true]
  else
    let rest := drop (Z.to_nat max) block in
    headers_frame nz (take (Z.to_nat max) block) es false :: continuations (length rest) nz max rest.

(** The fragment, END_HEADERS and END_STREAM of a frame of a header block. *)
Definition fragment (f : Frame.t) : list Z :=
  match f with
  | Frame.Headers h => HeadersFrame.header_block_fragment h
  | Frame.Continuation c => ContinuationFrame.header_block_fragment c
  | _ => []
  end.
Definition end_headers (f : Frame.t) : bool :=
  match f with
  | Frame.Headers h => HeadersFrame.end_headers h
  | Frame.Continuation c => ContinuationFrame.end_headers c
  | _ => false
  end.
Definition is_continuation (f : Frame.t) : bool := match f with Frame.Continuation _ => true | _ => false end.

(** The dynamic table size updates owed to the peer, encoded. *)
Definition owed_updates (c : t) : list Z :=
  match pending_table_size_update c with
  | Some (lo, final) =>
      (if lo =? final then [] else HpackInteger.octets lo 5 0x20) ++ HpackInteger.octets final 5 0x20
  | None => []
  end.

(** Handling frames one after the other. *)
Fixpoint handle_frames `{HashOrder} (fs : list Frame.t) : M unit :=
  match fs with
  | [] => ret tt
  | f :: fs => handle_frame f ;! handle_frames fs
  end.

End Block.
Import Block.

(** ** Lemmas: frames and their octets *)

Lemma encode_all_wires m fs : forall s,
  Forall (sendable m) fs -> encode_all fs s = (Ok tt, FrameEncoder.mk (FrameEncoder.buf s ++ wires fs)).
Proof.
  induction fs as [|f fs IH]; intros s Hfs; [destruct s; cbn; by rewrite app_nil_r|].
  inversion_clear Hfs as [|? ? Hf Hfs']. pose proof Hf as (Hwf & _ & Hlen & _ & Hw). cbn [encode_all foldr].
  pose proof (encode_spec f s ltac:(lia) Hwf) as Hs. destruct (FrameEncoder.wire f) as [bytes|] eqn:E; [|done].
  rewrite (bind_Ok _ _ _ _ _ Hs). fold (encode_all fs). rewrite IH by done. cbn [FrameEncoder.buf].
  unfold wires. cbn [map concat]. rewrite E. cbn [default]. by rewrite app_assoc.
Qed.

(** ** Lemmas: the frames of a block *)

Lemma continuations_fragment fuel nz max l :
  0 < max -> (length l <= fuel)%nat -> concat (map fragment (continuations fuel nz max l)) = l.
Proof.
  intros Hm. revert l. induction fuel as [|fuel IH]; intros l Hl; [by destruct l; [|cbn in Hl; lia]|].
  cbn [continuations]. destruct (len l =? 0) eqn:E; zbool; [by rewrite (len_zero_nil l)|]. cbn.
  pose proof (len_nonneg l). rewrite IH; [apply take_drop|]. rewrite length_drop. unfold len in *. lia.
Qed.

Lemma continuations_size fuel nz max l :
  0 < max -> Forall (fun f => len (fragment f) <= max) (continuations fuel nz max l).
Proof.
  intros Hm. revert l. induction fuel as [|fuel IH]; intros l; [constructor|]. cbn [continuations].
  destruct (len l =? 0); [constructor|]. constructor; [|apply IH]. cbn. rewrite len_take.
  pose proof (len_nonneg l). lia.
Qed.

Lemma continuations_flags fuel nz max l :
  0 < max -> 0 < len l -> (length l <= fuel)%nat ->
  exists n, map end_headers (continuations fuel nz max l) = replicate n false ++ [true].
Proof.
  intros Hm. revert l. induction fuel as [|fuel IH]; intros l Hl Hf; [unfold len in Hl; lia|]. cbn [continuations].
  replace (len l =? 0) with false by lia. cbn [map]. destruct (len l <=? max) eqn:E; zbool.
  - exists 0%nat. cbn. f_equal. rewrite drop_ge by (unfold len in *; lia). by destruct fuel.
  - destruct (IH (drop (Z.to_nat (Z.min (len l) max)) l)) as [n Hn].
    + rewrite len_drop. lia.
    + rewrite length_drop. unfold len in *. lia.
    + exists (S n). cbn. by rewrite Hn.
Qed.

Lemma continuations_kind fuel nz max l :
  Forall (fun f => is_continuation f = true /\ end_flag f = false /\ Frame.stream_id f = StreamId.from nz)
    (continuations fuel nz max l).
Proof.
  revert l. induction fuel as [|fuel IH]; intros l; [constructor|]. cbn [continuations].
  destruct (len l =? 0); [constructor|]. by constructor.
Qed.

(** ** Lemmas: sending *)

(** The connection after the frames of a list were written. *)
Definition emits (fs : list Frame.t) (c : t) : t := c <| output_buffer := output_buffer c ++ wires fs |>.

Lemma emits_nil c : emits [] c = c.
Proof. unfold emits. cbn. rewrite app_nil_r. by destruct c. Qed.
Lemma emits_app fs gs c : emits gs (emits fs c) = emits (fs ++ gs) c.
Proof. unfold emits. cbn. by rewrite wires_app, app_assoc. Qed.
Lemma emits_wf fs c : wf c -> wf (emits fs c).
Proof. apply wf_output. Qed.

Lemma send_frame_emits f c :
  wf c -> sendable MAX_MAX_FRAME_SIZE f -> send_frame f c = (Ok tt, emits [f] c).
Proof. apply send_frame_eq. Qed.

Lemma send_continuations_eq fuel nz max l c :
  wf c -> NonZeroStreamId.wf nz -> bytes_ok l -> 0 < max <= MAX_MAX_FRAME_SIZE -> (length l <= fuel)%nat ->
  send_continuations fuel nz max l c = (Ok tt, emits (continuations fuel nz max l) c).
Proof.
  intros H Hnz. revert l c H. induction fuel as [|fuel IH]; intros l c H Hl Hm Hf;
    cbn [send_continuations continuations].
  { assert (l = []) as -> by (destruct l; [done|cbn in Hf; lia]). cbn. by rewrite emits_nil. }
  pose proof (len_nonneg l) as Hn. destruct (len l =? 0) eqn:E; [by rewrite emits_nil|]. zbool. cbv zeta.
  set (n := Z.min (len l) max). rewrite slice_spec, slice_from_spec by (subst n; lia).
  change (Z.to_nat 0) with 0%nat. rewrite drop_0, Z.sub_0_r. unfold bind at 1 2, lift.
  set (rest := drop (Z.to_nat n) l). set (chunk := take (Z.to_nat n) l).
  assert (len rest = len l - n) as Hrest by (subst rest; rewrite len_drop; lia).
  assert ((len rest =? 0) = (len l <=? max)) as -> by (apply eq_true_iff_eq; rewrite Z.eqb_eq, Z.leb_le; lia).
  assert (sendable MAX_MAX_FRAME_SIZE (continuation nz chunk (len l <=? max))) as Hs.
  { apply sendable_continuation; [done|by apply Forall_take|]. subst chunk. rewrite len_take. lia. }
  rewrite (bind_Ok _ _ _ _ _ (send_frame_emits _ c H Hs)).
  rewrite IH; [by rewrite emits_app|by apply emits_wf|by apply Forall_drop|done|].
  subst rest. rewrite length_drop. unfold len in *. lia.
Qed.

Lemma encode_size_update_eq e buf m :
  u32_ok m -> Encoder.encode_size_update e buf m = Ok (buf ++ HpackInteger.octets m 5 0x20).
Proof.
  intros Hm. unfold Encoder.encode_size_update, u32_ok in *. by rewrite push_integer_spec by (apply prefix_5_20 || lia).
Qed.

Lemma take_size_updates_eq c :
  wf c -> take_size_updates c = (Ok (owed_updates c), c <| pending_table_size_update := None |>).
Proof.
  intros H. pose proof (wf_update c H) as Hu. unfold take_size_updates, owed_updates, bind, gets, modify, lift, ret.
  destruct (pending_table_size_update c) as [[lo final]|]; [|done]. destruct (Hu lo final eq_refl) as [Hlo Hfin].
  destruct (lo =? final); cbn [negb].
  - by rewrite encode_size_update_eq.
  - by rewrite !encode_size_update_eq.
Qed.

Lemma owed_updates_ok c : wf c -> bytes_ok (owed_updates c).
Proof.
  intros H. pose proof (wf_update c H) as Hu. unfold owed_updates.
  destruct (pending_table_size_update c) as [[lo final]|]; [|constructor]. destruct (Hu lo final eq_refl) as [Hlo Hfin].
  unfold u32_ok in *. apply bytes_ok_app. split; [destruct (lo =? final); [constructor|]|];
    (apply octets_bytes_ok; [lia|apply prefix_5_20]).
Qed.

(** The connection after a header block. *)
Definition block_sent (nz : NonZeroStreamId.t) (block : list Z) (es : bool) (c : t) : t :=
  emits (block_frames nz (peer_max_frame c) (owed_updates c ++ block) es) (c <| pending_table_size_update := None |>).

Lemma send_header_block_eq nz block es c :
  wf c -> NonZeroStreamId.wf nz -> bytes_ok block ->
  send_header_block nz block es c = (Ok tt, block_sent nz block es c).
Proof.
  intros H Hnz Hb. unfold send_header_block. rewrite (bind_Ok _ _ _ _ _ (take_size_updates_eq c H)).
  pose proof (owed_updates_ok c H) as Hu. pose proof (peer_max_bounds c H) as Hm.
  unfold block_sent, block_frames. set (c1 := c <| pending_table_size_update := None |>).
  assert (wf c1) as H1.
  { pose proof (take_size_updates_wp c H) as Hw. unfold wp in Hw. rewrite take_size_updates_eq in Hw by done. by destruct Hw as [[? _] _]. }
  unfold bind at 1, gets. cbv zeta. change (MaxFrameSize.get (Settings.max_frame_size (remote_settings c1))) with (peer_max_frame c).
  clearbody c1. set (whole := owed_updates c ++ block). assert (bytes_ok whole) as Hw by by apply bytes_ok_app.
  destruct (len whole <=? peer_max_frame c) eqn:E; zbool.
  { apply send_frame_emits; [done|]. apply sendable_headers; [done|done|lia]. }
  rewrite slice_spec, slice_from_spec by lia. change (Z.to_nat 0) with 0%nat. rewrite drop_0, Z.sub_0_r.
  unfold bind at 1 2, lift. set (first := take _ whole).
  assert (sendable MAX_MAX_FRAME_SIZE (headers_frame nz first es false)) as Hs.
  { apply sendable_headers; [done|by apply Forall_take|]. subst first. rewrite len_take. lia. }
  rewrite (bind_Ok _ _ _ _ _ (send_frame_emits _ c1 H1 Hs)).
  rewrite send_continuations_eq; [|by apply emits_wf|done|by apply Forall_drop|lia|lia].
  by rewrite emits_app.
Qed.

Lemma block_frames_spec nz max block es :
  0 < max ->
  let fs := block_frames nz max block es in
  concat (map fragment fs) = block /\
  Forall (fun f => len (fragment f) <= max) fs /\
  (exists n, map end_headers fs = replicate n false ++ [true]) /\
  exists d gs, fs = headers_frame nz d es (match gs with [] => true | _ => false end) :: gs /\
               Forall (fun f => is_continuation f = true /\ end_flag f = false /\
                                Frame.stream_id f = StreamId.from nz) gs.
Proof.
  intros Hm. cbv zeta. unfold block_frames. destruct (len block <=? max) eqn:E; zbool.
  - cbn. rewrite app_nil_r. split_and!; [done|by repeat constructor|by exists 0%nat|by exists block, []].
  - cbv zeta. set (rest := drop (Z.to_nat max) block).
    assert (0 < len rest) as Hr by (subst rest; rewrite len_drop; lia).
    destruct (continuations_flags (length rest) nz max rest Hm Hr (le_n _)) as [n Hn]. split_and!.
    + cbn. rewrite continuations_fragment by done. apply take_drop.
    + constructor; [|by apply continuations_size]. cbn. rewrite len_take. lia.
    + exists (S n). cbn. by rewrite Hn.
    + exists (take (Z.to_nat max) block), (continuations (length rest) nz max rest). split; [|apply continuations_kind].
      destruct (continuations _ _ _ rest) eqn:Ec; [|done]. apply (f_equal (map end_headers)) in Ec.
      rewrite Hn in Ec. by destruct n.
Qed.

(** ** Properties *)

(** C17: A header block is written whole and within the peer's frame size. It
    leaves as one HEADERS frame followed by CONTINUATION frames on the same
    stream and nothing between them; the fragments put together are the owed
    dynamic table size updates (the smallest and the last size) and then the
    encoded block; no fragment exceeds the peer's SETTINGS_MAX_FRAME_SIZE,
    END_HEADERS is set on the last frame only, END_STREAM as asked on the HEADERS
    frame, and the updates are owed no longer. *)
Theorem header_block_fragmentation (nz : NonZeroStreamId.t) (block : list Z) (es : bool) (c : t) :
  wf c -> NonZeroStreamId.wf nz -> bytes_ok block ->
  exists fs d gs,
    send_header_block nz block es c = (Ok tt, emits fs (c <| pending_table_size_update := None |>)) /\
    concat (map fragment fs) = owed_updates c ++ block /\
    Forall (fun f => len (fragment f) <= peer_max_frame c) fs /\
    (exists n, map end_headers fs = replicate n false ++ [true]) /\
    fs = headers_frame nz d es (match gs with [] => true | _ => false end) :: gs /\
    Forall (fun f => is_continuation f = true /\ end_flag f = false /\
                     Frame.stream_id f = StreamId.from nz) gs.
Proof.
  intros H Hnz Hb. rewrite send_header_block_eq by done. pose proof (peer_max_bounds c H).
  destruct (block_frames_spec nz (peer_max_frame c) (owed_updates c ++ block) es ltac:(lia))
    as (H1 & H2 & H3 & d & gs & H4 & H5). eexists _, d, gs. by split_and!.
Qed.

Lemma header_block_fragmentation_witness :
  exists fs d gs,
    send_header_block (NonZeroStreamId.from_validated_parts 1) (replicate 20000 65) true sending_client =
      (Ok tt, emits fs (sending_client <| pending_table_size_update := None |>)) /\
    concat (map fragment fs) = owed_updates sending_client ++ replicate 20000 65 /\
    Forall (fun f => len (fragment f) <= 16384) fs /\
    (exists n, map end_headers fs = replicate n false ++ [true]) /\
    fs = headers_frame (NonZeroStreamId.from_validated_parts 1) d true (match gs with [] => true | _ => false end) :: gs /\
    Forall (fun f => is_continuation f = true /\ end_flag f = false /\
                     Frame.stream_id f = StreamId.from (NonZeroStreamId.from_validated_parts 1)) gs.
Proof.
  apply (header_block_fragmentation (NonZeroStreamId.from_validated_parts 1) (replicate 20000 65) true sending_client).
  - apply sending_client_wf.
  - by vm_compute.
  - apply Forall_replicate. by vm_compute.
Defined.
