(* ===== verification/ConnHandle.v ===== *)
(** * ConnHandle: the frame handlers keep the invariant

    Every method of [Headers] that receives a header block and every handler of
    [Handlers] keeps the invariant of [ConnInv] and cannot panic. *)

From S2P Require Import Prelude Errors StreamIds Config Flow Bounded StreamCore FrameTypes.
From S2P Require Import FrameEncode FrameDecode FrameCodec Syntax HpackTable HpackCodec.
From S2P Require Import Validation Stream ConnBase ConnHeaders ConnRecv ConnInv ConnSafe.
Import Connection Headers Handlers Invariant.

(** ** Lemmas: methods around a known stream *)

Lemma ensure_stream_seq {B} id (k : unit -> M B) c :
  wf c -> client_id (StreamId.as_u32 id) ->
  (forall c' s, wf c' -> streams c' !! StreamId.as_u32 id = Some s -> op (k tt) c') ->
  op (bind (ensure_stream id) k) c.
Proof.
  intros H Hid Hk. set (sid := StreamId.as_u32 id) in *. apply wp_modify_seq.
  cbv beta zeta. fold sid. destruct (streams c !! sid) as [s|] eqn:Hs; [by eapply Hk|].
  pose proof (new_stream_wf id c H) as Hn.
  match goal with |- wp _ _ _ ?c' => assert (good 0 c c') as Hg by (by apply (insert_stream_good sid _ c)) end.
  apply op_after; [done|]. eapply Hk; [by destruct Hg|]. apply lookup_insert_eq.
Qed.

Lemma ensure_stream_op id c : wf c -> client_id (StreamId.as_u32 id) -> op (ensure_stream id) c.
Proof.
  intros H Hid. assert (op (bind (ensure_stream id) (fun _ => ret tt)) c) as Hop.
  { apply ensure_stream_seq; [done..|]. intros c' s Hc' _. by apply op_ret. }
  done.
Qed.

(** A stream's method whose error is looked at. *)
Lemma op_stream_attempt {A B} sid s (m : ST Stream.t Error.t A) (k : result Error.t A -> M B) c :
  wf c -> streams c !! sid = Some s -> (Stream.wf s -> sop m s) ->
  (forall r s', r <> Panic -> wf (put sid s' c) -> op (k r) (put sid s' c)) ->
  op (bind (attempt (stream_mut sid m)) k) c.
Proof.
  intros H Hs Hm Hk. destruct (wf_stream _ _ _ H Hs) as [Hid Hsw]. specialize (Hm Hsw). unfold sop, wp in Hm.
  assert (forall s', stream_keeps s s' -> good 0 c (put sid s' c)) as Hput.
  { intros s' [Hw Hr]. apply put_good; try done. unfold content. rewrite Hs. lia. }
  unfold op, wp, bind, attempt. destruct (m s) as [r s'] eqn:E. rewrite (stream_mut_eq sid s m c r s') by done.
  assert (r <> Panic -> stream_keeps s s') as Hkeep by (by destruct r). specialize (Hput s').
  destruct r as [a|e|]; [| |done].
  - assert (op (k (Ok a)) (put sid s' c)) as Ho by (apply Hk; [done|by apply Hput, Hkeep]).
    exact (op_after _ _ _ (Hput (Hkeep ltac:(done))) Ho).
  - assert (op (k (Err e)) (put sid s' c)) as Ho by (apply Hk; [done|by apply Hput, Hkeep]).
    exact (op_after _ _ _ (Hput (Hkeep ltac:(done))) Ho).
Qed.

(** Reporting an event leaves the streams alone. *)
Lemma push_event_seq {B} e (k : unit -> M B) c :
  wf c -> (forall c', wf c' -> streams c' = streams c -> op (k tt) c') -> op (bind (push_event e) k) c.
Proof.
  intros H Hk. assert (good 0 c (c <| events := events c ++ [e] |>)) as Hg by exact (push_event_op e c H).
  apply wp_modify_seq, op_after; [done|]. apply Hk; [by destruct Hg|done].
Qed.

Lemma op_attempt_lift {A B} (r : Result A) (k : result Error.t A -> M B) c :
  wf c -> r <> Panic -> op (k r) c -> op (bind (attempt (lift r)) k) c.
Proof. intros H Hr Hk. unfold op, wp, bind, attempt, lift. by destruct r. Qed.

(** ** Lemmas: receiving header blocks *)

Lemma client_id_wf id : StreamId.wf id -> client_id (StreamId.as_u32 id) -> StreamId.as_u32 id <> 0.
Proof. intros _ [H _]. lia. Qed.

Lemma reset_validation_op id c :
  wf c -> StreamId.wf id -> client_id (StreamId.as_u32 id) -> op (reset_headers_validation_error id) c.
Proof.
  intros H Hw Hid. apply ensure_stream_seq; [done..|]. intros c' s Hc' _.
  by apply reset_stream_internal_op.
Qed.

Lemma note_successful_op sid c : wf c -> 0 <= sid <= STREAM_ID_MAX -> op (note_successful sid) c.
Proof.
  intros H Hs. apply op_modify. destruct (sid >? last_successful_stream_id c) eqn:E; [|by apply good_refl].
  zbool. good_update.
Qed.

Lemma reset_refused_op id c :
  wf c -> StreamId.wf id -> client_id (StreamId.as_u32 id) -> op (reset_refused_concurrent_stream id) c.
Proof.
  intros H Hw Hid. apply ensure_stream_seq; [done..|]. intros c' s Hc' _.
  apply op_seq_wf; [by apply reset_stream_internal_op|]. intros _ c2 Hc2.
  apply note_successful_op; [done|]. destruct Hid. lia.
Qed.

Lemma reject_op id c :
  wf c -> StreamId.wf id -> client_id (StreamId.as_u32 id) ->
  op (reset_headers_validation_error id ;! ret false) c.
Proof. intros. apply op_seq_wf; [by apply reset_validation_op|]. intros. by apply op_ret. Qed.

Lemma check_received_op id hs es tr c :
  wf c -> StreamId.wf id -> client_id (StreamId.as_u32 id) -> op (check_received id hs es tr) c.
Proof.
  intros H Hw Hid. pose proof (fun c' Hc' => reject_op id c' Hc' Hw Hid) as Hrej.
  unfold check_received. cbv zeta. destruct tr.
  - apply op_attempt_lift; [done|apply trailers_no_panic|].
    destruct (is_err _); [by apply Hrej|]. destruct (negb es); [by apply Hrej|by apply op_ret].
  - apply op_gets. destruct (role c).
    + apply op_attempt_lift; [done|apply response_no_panic|]. destruct (is_err _); [by apply Hrej|].
      apply op_gets. apply op_seq_wf; [|intros; by apply op_ret].
      destruct (streams c !! _) as [s|] eqn:Hs; [|by apply op_ret].
      eapply op_stream; [done..|intros; sop|]. intros _ s' _ Hc'.
      destruct (_ || _); [|by apply op_ret]. eapply op_stream_end; [done|apply put_lookup|intros; sop].
    + apply op_attempt_lift; [done|apply request_no_panic|]. destruct (is_err _); [by apply Hrej|].
      apply op_gets. destruct (_ && _); [by apply Hrej|].
      apply op_seq_wf; [|intros; by apply op_ret].
      destruct (find_value ":method" hs) as [m|]; [|by apply op_ret].
      apply ensure_stream_seq; [done..|]. intros c' s Hc' Hs. eapply op_stream_end; [done..|]. intros. sop.
Qed.

Lemma finish_headers_op id es s c :
  wf c -> streams c !! StreamId.as_u32 id = Some s -> op (finish_headers id es) c.
Proof.
  intros H Hs. eapply op_stream; [done..|intros; sop|]. intros b s' _ Hc'.
  destruct b; [by apply close_stream_op|by apply op_ret].
Qed.

(** After the first header list the stream is still there, unless it was reset. *)
Lemma note_initial_seq {B} id hs es s (k : bool -> M B) c :
  wf c -> StreamId.wf id -> streams c !! StreamId.as_u32 id = Some s ->
  (forall c' s', wf c' -> streams c' !! StreamId.as_u32 id = Some s' -> op (k true) c') ->
  (forall c', wf c' -> op (k false) c') ->
  op (bind (note_initial_headers id hs es) k) c.
Proof.
  intros H Hid Hs Ht Hf. unfold note_initial_headers. cbv zeta.
  apply op_assoc. eapply op_stream; [done..|intros; sop|]. intros i s1 _ H1.
  apply op_assoc, op_gets. pose proof (put_lookup (StreamId.as_u32 id) s1 c) as Hs1.
  apply op_if_seq; [by eapply Ht|]. destruct (role _).
  - apply op_if_seq.
    + apply op_assoc. apply op_seq_wf; [by apply reset_stream_internal_op|]. intros _ c2 Hc2. by apply Hf.
    + apply op_assoc. destruct (negb _).
      * eapply op_stream; [done..|intros; sop|]. intros _ s2 _ H2. eapply Ht; [done|apply put_lookup].
      * by eapply Ht.
  - apply op_assoc. eapply op_stream; [done..|intros; sop|]. intros _ s2 _ H2. eapply Ht; [done|apply put_lookup].
Qed.

Lemma accept_headers_op id hs es tr cl c :
  wf c -> StreamId.wf id -> client_id (StreamId.as_u32 id) -> op (accept_headers id hs es tr cl) c.
Proof.
  intros H Hw Hid. unfold accept_headers. cbv zeta.
  apply ensure_stream_seq; [done..|]. intros c1 s1 H1 Hs1.
  eapply op_stream_attempt; [done..|intros; sop|]. intros r s2 _ H2.
  pose proof (put_lookup (StreamId.as_u32 id) s2 c1) as Hs2. revert H2 Hs2.
  generalize (put (StreamId.as_u32 id) s2 c1). clear c H c1 s1 H1 Hs1. intros c H Hs.
  destruct (is_err r); [by apply reset_stream_internal_op|]. destruct tr.
  - apply push_event_seq; [done|]. intros c' Hc' He. eapply finish_headers_op; [done|]. by rewrite He.
  - eapply op_stream; [done..|intros; sop|]. intros _ s3 _ H3.
    eapply op_stream; [done|apply put_lookup|intros; sop|]. intros _ s4 _ H4.
    eapply note_initial_seq; [done|done|apply put_lookup| |intros; by apply op_ret].
    intros c5 s5 H5 Hs5. cbn [negb]. eapply op_stream; [done..|intros; sop|]. intros s6 s7 _ H6.
    apply op_gets. cbv zeta. destruct (_ && negb _); [by apply reset_stream_internal_op|].
    apply push_event_seq; [done|]. intros c' Hc' He. eapply finish_headers_op; [done|]. rewrite He. apply put_lookup.
Qed.

Lemma content_length_no_panic hs o : extract_content_length_loop hs o <> Panic.
Proof.
  revert o. induction hs as [|h hs IH]; intros o; [done|]. cbn. case_match; [|apply IH].
  case_match; [done|]. case_match; [done|]. destruct (parse_u64 _ _); [|done]. cbn.
  destruct o; [|apply IH]. case_match; [done|apply IH].
Qed.

Lemma process_headers_op id hs es c :
  wf c -> StreamId.wf id -> client_id (StreamId.as_u32 id) -> op (process_headers id hs es) c.
Proof.
  intros H Hw Hid. unfold process_headers. cbv zeta. apply op_gets.
  destruct (_ && negb _); [by apply reset_validation_op|]. destruct (_ && _); [by apply reset_validation_op|].
  apply op_seq_wf; [by apply check_received_op|]. intros b c1 H1.
  destruct (negb b); [by apply op_ret|]. destruct (negb _); [by apply accept_headers_op|].
  apply op_attempt_lift; [done|apply content_length_no_panic|].
  destruct (extract_content_length hs); [by apply accept_headers_op|by apply reset_validation_op..].
Qed.

Lemma complete_header_block_op id hs es pc c :
  wf c -> StreamId.wf id -> client_id (StreamId.as_u32 id) -> op (complete_header_block id hs es pc) c.
Proof.
  intros H Hw Hid. unfold complete_header_block. cbv zeta. apply op_gets.
  destruct (_ || _); [apply op_modify; good_update|]. apply op_gets.
  destruct (header_concurrent_limit_exceeded c).
  - apply op_modify_seq; [good_update|]. intros c' [Hc' _]. by apply reset_refused_op.
  - apply op_gets. destruct (connect_established_headers_received c).
    + apply op_modify_seq; [good_update|]. intros c' [Hc' _]. by apply reset_stream_internal_op.
    + apply op_seq_wf; [by apply process_headers_op|]. intros _ c' Hc'.
      apply note_successful_op; [done|]. destruct Hid. lia.
Qed.

Lemma check_fragment_op c : wf c -> op check_header_block_fragment_size c.
Proof. intros H. apply op_gets. destruct (_ >? _); [by apply op_throw|by apply op_ret]. Qed.

Lemma hpack_decode_op f c : wf c -> bytes_ok f -> op (hpack_decode f) c.
Proof.
  intros H Hf. destruct (wf_decoder c H) as [Hd Hm]. destruct (decode_keeps f _ Hd Hf Hm) as (Hs & Hw & _ & Hl).
  unfold op, wp, hpack_decode. destruct (Decoder.decode f (hpack_decoder c)) as [r d]. cbn in Hs, Hw, Hl.
  assert (decoder_ok d) as Hdo by (split; [done|]; by rewrite Hl).
  assert (good 0 c (c <| hpack_decoder := d |>)) as Hg by good_update.
  by destruct r.
Qed.

Lemma begin_header_block_op n c : wf c -> client_id n -> op (begin_header_block n) c.
Proof.
  intros H Hcn. assert (0 <= n <= STREAM_ID_MAX) as Hn by (destruct Hcn; lia). unfold begin_header_block.
  apply op_gets, op_gets, op_gets, op_gets. op_guard. op_guard.
  apply op_seq_wf.
  { destruct (negb _); [|by apply op_ret]. apply op_gets. apply op_seq_wf.
    - destruct (match _ with Some _ => _ | None => _ end); [apply op_modify; good_update|by apply op_ret].
    - intros _ c1 H1. apply op_attempt.
      + apply op_gets. destruct (contains_stream n c1); [by apply op_ret|]. apply op_gets.
        destruct (Settings.max_concurrent_streams _); [|by apply op_ret]. apply op_gets.
        destruct (_ >=? _); [by apply op_throw|by apply op_ret].
      + intros r c2 _ [H2 _]. destruct (is_err r); [apply op_modify; good_update|by apply op_ret]. }
  intros _ c1 H1. apply op_modify_seq.
  { destruct (n >? last_recv_stream_id c1) eqn:E; [|by apply good_refl]. zbool. good_update. }
  intros c2 [H2 _]. by apply op_ret.
Qed.

Lemma handle_headers_op f c :
  wf c -> Frame.wf (Frame.Headers f) -> op (handle_headers f) c.
Proof.
  intros H (Hid & Hb & _). unfold handle_headers. destruct (HeadersFrame.stream_id f) as [cid|sid] eqn:Ef; [|by apply op_throw].
  set (id := StreamId.from _). set (n := NonZeroStreamId.as_u32 _).
  assert (StreamId.wf id) as Hw by by apply from_nz_wf.
  assert (client_id (StreamId.as_u32 id)) as Hc by exact Hid.
  assert (client_id n) as Hcn by exact Hid. clearbody n.
  assert (0 <= n <= STREAM_ID_MAX) as Hn by (destruct Hcn; lia). cbv zeta.
  apply op_seq_wf; [by apply begin_header_block_op|]. intros prev c2 H2. destruct (HeadersFrame.end_headers f).
  - apply op_seq_wf; [by apply hpack_decode_op|]. intros hs c3 H3. by apply complete_header_block_op.
  - apply op_modify_seq; [good_update; by intros ? [= <-]|]. intros c3 [H3 _].
    apply op_modify_seq; [good_update|]. intros c4 [H4 _].
    apply op_modify_seq; [good_update|]. intros c5 [H5 _]. by apply check_fragment_op.
Qed.

Lemma handle_continuation_op f c :
  wf c -> Frame.wf (Frame.Continuation f) -> op (handle_continuation f) c.
Proof.
  intros H [_ Hb]. apply op_gets.
  apply op_lift; [done|by destruct (header_continuation_stream c)|]. intros sid Hs.
  assert (client_id sid) as Hid.
  { apply (wf_continuation c H). by destruct (header_continuation_stream c); [injection Hs as ->|]. }
  op_guard. apply op_modify_seq.
  { pose proof (wf_fragment c H). good_update. by apply bytes_ok_app. }
  intros c1 [H1 _]. apply op_seq_wf; [by apply check_fragment_op|]. intros _ c2 H2.
  destruct (ContinuationFrame.end_headers f); [|by apply op_ret].
  apply op_modify_seq; [good_update; done|]. intros c3 [H3 _]. apply op_gets.
  apply op_seq_wf; [apply hpack_decode_op; [done|apply (wf_fragment c3 H3)]|]. intros hs c4 H4.
  apply op_modify_seq; [good_update; constructor|]. intros c5 [H5 _]. apply op_gets, op_gets.
  apply op_modify_seq; [good_update|]. intros c6 [H6 _].
  apply complete_header_block_op; [done|apply from_wire_wf; destruct Hid; lia|by rewrite from_wire_as_u32].
Qed.

(** ** Lemmas: DATA and RST_STREAM *)

(** A method that counts at most [n] content octets. *)
Definition opn {A} (n : Z) (X : M A) (c : t) : Prop := wp X (fun _ => good n c) (good n c) c.

Lemma good_weaken n m c c' : n <= m -> good n c c' -> good m c c'.
Proof.
  intros Hn [H []]. split; [done|]. constructor; try done. intros sid. specialize (ev_content0 sid). lia.
Qed.

Lemma good_trans_n n m c c1 c2 : good n c c1 -> good m c1 c2 -> good (n + m) c c2.
Proof. intros [_ H1] [H2 H3]. split; [done|]. by eapply evolves_trans. Qed.

Lemma op_opn {A} n (X : M A) c : 0 <= n -> op X c -> opn n X c.
Proof. intros Hn HX. eapply wp_mono; [exact HX|..]; cbn; intros; by eapply good_weaken. Qed.

Lemma opn_seq {A B} n m (X : M A) (k : A -> M B) c :
  0 <= m -> opn n X c -> (forall a c', good n c c' -> opn m (k a) c') -> opn (n + m) (bind X k) c.
Proof.
  intros Hm HX Hk. eapply wp_seq; [exact HX| |intros; eapply good_weaken; [|eassumption]; lia].
  intros a c' Hc. eapply wp_mono; [by apply Hk|intros ? s2 H2|intros s2 H2]; exact (good_trans_n _ _ _ _ _ Hc H2).
Qed.

(** Room for [n] more content octets on every stream. *)
Definition room (n : Z) (c : t) : Prop := forall sid, content c sid + n < 2 ^ 64.

Lemma room_good n c c' : good 0 c c' -> room n c -> room n c'.
Proof. intros [_ He] Hr sid. specialize (Hr sid). pose proof (ev_content _ _ _ He sid). lia. Qed.

Lemma check_not_idle_op sid name c : wf c -> op (check_not_idle_stream sid name) c.
Proof. intros H. apply op_gets. destruct (is_idle_stream sid c); [by apply op_throw|by apply op_ret]. Qed.

(** The stream of a DATA frame counts its octets. *)
Definition stream_counts (n : Z) (s s' : Stream.t) : Prop :=
  Stream.wf s' /\ Stream.received_content_length s' <= n + Stream.received_content_length s.

Lemma flow_control_size_nonneg f : Frame.wf (Frame.Data f) -> 0 <= flow_control_size f.
Proof.
  intros (_ & _ & Hp). unfold flow_control_size. pose proof (len_nonneg (DataFrame.data f)).
  destruct (DataFrame.pad_length f) as [p|]; [|done]. cbn in Hp. unfold u8_ok in Hp. lia.
Qed.

Lemma sop_attempt {A B} (m : ST Stream.t Error.t A) (k : result Error.t A -> ST Stream.t Error.t B) s Q X :
  sop m s -> (forall r s', stream_keeps s s' -> wp (k r) Q X s') -> wp (bind (attempt m) k) Q X s.
Proof. intros Hm Hk. apply wp_attempt. eapply wp_mono; [exact Hm|auto|auto]. Qed.

Lemma receive_data_wp f n s :
  Stream.wf s -> 0 <= n -> Stream.received_content_length s + len (DataFrame.data f) < 2 ^ 64 ->
  let Q := stream_counts (len (DataFrame.data f)) s in
  wp (receive_data f n) (fun r s' => Q s' /\ forall code, r = inl code -> code_ok code) Q s.
Proof.
  intros Hs Hn Hr. cbv zeta. pose proof (len_nonneg (DataFrame.data f)) as Hl.
  assert (forall s', stream_keeps s s' -> stream_counts (len (DataFrame.data f)) s s') as Hk.
  { intros s' [H1 H2]. split; [done|lia]. }
  apply sop_attempt; [exact (sop_state (StateMachine.RecvData _) s Hs)|]. intros r s1 H1.
  destruct (is_err r); [split; [by apply Hk|by intros ? [= <-]]|].
  apply sop_attempt; [by apply (stream_flow_wp (FlowControl.Received n)); [|apply H1]|]. intros r2 s2 H2.
  pose proof (stream_keeps_trans _ _ _ H1 H2) as H12.
  destruct (is_err r2); [split; [by apply Hk|by intros ? [= <-]]|]. apply wp_gets. destruct (_ && _); [split; [by apply Hk|by intros ? [= <-]]|].
  apply wp_assoc, wp_gets, wp_assoc. unfold add_usize. destruct H12 as [Hw Hrc].
  replace (_ <? _) with true by lia.
  change (wp ?m ?Q ?X s2) with (wp m Q X s2).
  apply wp_modify_seq, wp_gets, wp_gets. cbv zeta.
  set (s3 := s2 <| Stream.received_content_length := _ |>).
  assert (stream_counts (len (DataFrame.data f)) s s3) as H3.
  { split; [|subst s3; cbn; lia]. destruct Hw as (H4 & H5 & H6 & H7 & H8). split_and!; try done. subst s3. cbn. lia. }
  destruct (match _ with Some _ => _ | None => _ end); [split; [done|by intros ? [= <-]]|]. by split.
Qed.

(** A stream's method that counts [n] octets, followed by others. *)
Lemma opn_stream {A B} n sid s (P : A -> Prop) (m : ST Stream.t Error.t A) (k : A -> M B) c :
  wf c -> streams c !! sid = Some s -> 0 <= n ->
  wp m (fun a s' => stream_counts n s s' /\ P a) (stream_counts n s) s ->
  (forall a c', P a -> wf c' -> op (k a) c') -> opn n (bind (stream_mut sid m) k) c.
Proof.
  intros H Hs Hn Hm Hk. destruct (wf_stream _ _ _ H Hs) as [Hid Hsw].
  assert (forall s', stream_counts n s s' -> good n c (put sid s' c)) as Hput.
  { intros s' [Hw Hr]. apply put_good; try done. unfold content. by rewrite Hs. }
  unfold opn, wp, bind. unfold wp in Hm. destruct (m s) as [r s'] eqn:E.
  rewrite (stream_mut_eq sid s m c r s') by done. destruct r as [a|e|]; [|by apply Hput|done].
  destruct Hm as [Hm HP]. specialize (Hput s' Hm). specialize (Hk a _ HP (good_wf _ _ _ Hput)). unfold op, wp in Hk.
  assert (forall c', good 0 (put sid s' c) c' -> good n c c') as Ht.
  { intros c' Hc'. rewrite <- (Z.add_0_r n). by eapply good_trans_n. }
  destruct (k a (put sid s' c)) as [[?|?|] ?]; auto.
Qed.

Lemma opn_lead {A B} n (X : M A) (k : A -> M B) c :
  0 <= n -> op X c -> (forall a c', good 0 c c' -> opn n (k a) c') -> opn n (bind X k) c.
Proof. intros Hn. exact (opn_seq 0 n X k c Hn). Qed.

Lemma opn_require {B} n sid (k : Stream.t -> M B) c :
  0 <= n -> wf c -> (forall s, streams c !! sid = Some s -> opn n (k s) c) -> opn n (bind (require_stream sid) k) c.
Proof.
  intros Hn H Hk. unfold require_stream. apply wp_assoc, wp_gets.
  destruct (streams c !! sid) as [s|]; [by apply (Hk s)|by apply op_opn, op_throw].
Qed.

Lemma handle_data_op f c :
  wf c -> Frame.wf (Frame.Data f) -> room (len (DataFrame.data f)) c ->
  opn (len (DataFrame.data f)) (handle_data f) c.
Proof.
  intros H Hf Hr. pose proof (flow_control_size_nonneg f Hf) as Hsz. destruct Hf as (Hid & Hb & Hp).
  pose proof (len_nonneg (DataFrame.data f)) as Hn. unfold handle_data. cbv zeta.
  set (sid := NonZeroStreamId.as_u32 _). apply opn_lead; [done|by apply check_not_idle_op|].
  intros _ c1 H1. apply opn_lead; [done|apply on_flow_control_op; [by destruct H1|]|].
  { apply (flow_step_wp (FlowControl.Received _)); [done|]. destruct H1 as [Hw _]. apply (wf_flow c1 Hw). }
  intros _ c2 H2. pose proof (room_good _ _ _ (good_trans _ _ _ H1 H2) Hr) as Hr2. destruct H2 as [H2 _].
  apply wp_gets, wp_gets. destruct (_ || _).
  { apply op_opn; [done|]. destruct (_ >? 0); [by apply push_event_op|by apply op_ret]. }
  apply opn_require; [done..|]. intros s Hs. destruct (wf_stream _ _ _ H2 Hs) as [Hcid Hsw].
  eapply opn_stream; [done..| |].
  - apply receive_data_wp; [done..|]. specialize (Hr2 sid). unfold content in Hr2. by rewrite Hs in Hr2.
  - intros [code|closed] c3 Hcode H3.
    + apply reset_stream_internal_op; [done|by apply from_nz_wf|]. by apply Hcode.
    + apply op_seq_wf; [by apply push_event_op|]. intros _ c4 H4. destruct closed; [|by apply op_ret].
      apply op_seq_wf; [by apply push_event_op|]. intros _ c5 H5. by apply forget_stream_op.
Qed.

Lemma handle_rst_op f c : wf c -> op (handle_rst_stream f) c.
Proof.
  intros H. apply op_seq_wf; [by apply check_not_idle_op|]. intros _ c1 H1. apply op_gets.
  destruct (streams c1 !! _) as [s|] eqn:Hs; [|by apply op_ret].
  eapply op_stream; [done..|intros; sop|]. intros _ s' _ H2.
  apply op_seq_wf; [by apply push_event_op|]. intros _ c3 H3. by apply forget_stream_op.
Qed.

(** ** Lemmas: SETTINGS *)

Lemma update_windows_op ids n c :
  wf c -> 0 <= n <= MAX_WINDOW_SIZE -> (forall sid, sid ∈ ids -> is_Some (streams c !! sid)) ->
  op (update_windows ids n) c.
Proof.
  revert c. induction ids as [|sid ids IH]; intros c H Hn Hids; [by apply op_ret|].
  destruct (Hids sid) as [s Hs]; [by left|].
  eapply op_stream; [done..|exact (stream_flow_wp (FlowControl.Resized n) s Hn)|].
  intros _ s' _ H'. apply IH; [done|done|]. intros sid' Hin. cbn.
  destruct (decide (sid' = sid)) as [->|Hne]; [rewrite lookup_insert_eq; eauto|].
  rewrite lookup_insert_ne by done. apply Hids. by right.
Qed.

Lemma hash_order_lookup `{HO : HashOrder, !HashOrderLaws HO} c sid : sid ∈ hash_order c -> is_Some (streams c !! sid).
Proof.
  rewrite hash_order_keys. intros ([i s] & -> & Hin)%list_elem_of_fmap.
  apply elem_of_map_to_list in Hin. by exists s.
Qed.

Lemma apply_setting_op x c : wf c -> Setting.wf x -> op (apply_setting x) c.
Proof.
  intros H Hx. apply op_gets.
  assert (forall c', wf c' -> op (modify (fun c => c <| remote_settings := Settings.apply x (remote_settings c) |>)) c') as Hup.
  { intros c' H'. apply op_modify. pose proof (settings_apply_wf x _ Hx (wf_remote c' H')). good_update. }
  assert (op (note_setting x ;! modify (fun c => c <| remote_settings := Settings.apply x (remote_settings c) |>)) c) as Hgo.
  { apply op_seq_wf; [|intros ?; apply Hup]. destruct x; try by apply op_ret.
    - destruct b; [apply op_modify; good_update|]. apply op_gets. op_guard. by apply op_ret.
    - apply op_gets. destruct (initial_no_rfc7540_priorities c); [op_guard; by apply op_ret|].
      apply op_modify. good_update. }
  destruct (role c), x as [| [] | | | | | | | | | | | | | | ]; try exact Hgo. by apply op_throw.
Qed.

Lemma apply_settings_op l c : wf c -> Forall Setting.wf l -> op (apply_settings l) c.
Proof.
  intros H Hl. revert c H. induction Hl as [|x l Hx _ IH]; intros c H; [by apply op_ret|].
  apply op_seq_wf; [by apply apply_setting_op|]. intros _ c' Hc'. by apply IH.
Qed.

Lemma note_table_size_op n c : wf c -> op (note_table_size n) c.
Proof.
  intros H. apply op_gets. destruct (negb _); [|by apply op_ret]. apply op_modify.
  pose proof (wf_remote c H) as [Hu _]. pose proof (wf_update c H) as Hp. good_update.
  intros a b. destruct (pending_table_size_update c) as [[x y]|]; intros [= <- <-]; [|done].
  destruct (Hp x y eq_refl). unfold u32_ok in *. lia.
Qed.

Lemma resize_encoder_op c : wf c -> op resize_encoder c.
Proof.
  intros H. pose proof (wf_remote c H) as [Hu _]. unfold u32_ok in Hu.
  destruct (size_update_sync _ _ (Settings.header_table_size (remote_settings c)) (wf_encoder c H))
    as (out & e & d & He & _ & _ & Hs & _); [cbn; lia|lia|].
  apply sync_encoder_ok in Hs. unfold op, wp, resize_encoder. rewrite He. good_update.
Qed.

Lemma activate_good c : wf c -> good 0 c (c <| state := ConnectionState.Active |>).
Proof. intros H. good_update. Qed.

Lemma handle_settings_op `{HO : HashOrder, !HashOrderLaws HO} f c :
  wf c -> Frame.wf (Frame.Settings f) -> op (handle_settings f) c.
Proof.
  intros H [Hl _]. unfold handle_settings. destruct (SettingsFrame.is_ack f).
  - apply op_gets. destruct (_ =? 0) eqn:E; [by apply op_throw|]. zbool. pose proof (wf_pending c H) as Hp.
    apply op_modify_seq; [good_update; lia|]. intros c1 [H1 _].
    apply op_modify_seq; [destruct (bool_decide _); [by apply activate_good|by apply good_refl]|].
    intros c2 [H2 _]. by apply push_event_op.
  - apply op_gets. cbv zeta. apply op_seq_wf; [by apply apply_settings_op|]. intros _ c1 H1.
    apply op_modify_seq; [destruct (_ && _); [good_update|by apply good_refl]|]. intros c2 [H2 _].
    apply op_seq_wf; [by apply note_table_size_op|]. intros _ c3 H3. apply op_gets.
    apply op_seq_wf.
    { destruct (negb _); [|by apply op_ret]. apply op_gets. pose proof (wf_remote c3 H3) as (_ & _ & Hw & _).
      apply update_windows_op; [done|exact Hw|]. intros sid. apply hash_order_lookup. }
    intros _ c4 H4. apply op_seq_wf; [by apply resize_encoder_op|]. intros _ c5 H5.
    apply op_seq_wf; [apply send_frame_op, sendable_settings_ack; done|]. intros _ c6 H6.
    apply op_seq_wf; [by apply flush_all_op|]. intros _ c7 H7.
    apply op_seq_wf; [by apply push_event_op|]. intros _ c8 H8. apply op_gets.
    destruct (bool_decide _); [|by apply op_ret]. apply op_modify_seq; [by apply activate_good|].
    intros c9 [H9 _]. by apply push_event_op.
Qed.

(** ** Lemmas: the other frames *)

Lemma handle_ping_op f c : wf c -> Frame.wf (Frame.Ping f) -> op (handle_ping f) c.
Proof.
  intros H [Hb Hl]. apply op_seq_wf; [|intros; by apply push_event_op].
  destruct (negb _); [|by apply op_ret]. by apply send_frame_op, sendable_ping.
Qed.

Lemma handle_goaway_op f c : wf c -> op (handle_goaway f) c.
Proof.
  intros H. apply op_modify_seq; [good_update|]. intros c' [Hc' _]. by apply push_event_op.
Qed.

Lemma handle_window_update_op `{HO : HashOrder} f c :
  wf c -> Frame.wf (Frame.WindowUpdate f) -> op (handle_window_update f) c.
Proof.
  intros H [Hid Hinc]. unfold handle_window_update. cbv zeta.
  set (n := WindowIncrement.as_u32 _).
  assert (0 <= n) as Hn by (unfold WindowIncrement.wf in Hinc; subst n; unfold WindowIncrement.as_u32; lia).
  clearbody n. set (id := WindowUpdateFrame.stream_id f) in *. clearbody id.
  assert (forall sid name, op (check_not_idle_stream sid name ;!
      let! so := gets (fun c => streams c !! sid) in
      match so with
      | Some s =>
          if bool_decide (Stream.get_state s = StreamState.Closed) then ret tt
          else
            let! r := attempt
              (stream_mut sid (Stream.flow_control_mut (FlowControl.recv_window_update n))) in
            if is_err r then reset_stream id ErrorCode.FlowControlError
            else flush_stream_data sid ;! try_remove_closed_stream sid ;!
                 push_event (Event.WindowUpdateReceived id n)
      | None => push_event (Event.WindowUpdateReceived id n)
      end) c) as Hstream.
  { intros sid name. apply op_seq_wf; [by apply check_not_idle_op|]. intros _ c1 H1. apply op_gets.
    destruct (streams c1 !! sid) as [s|] eqn:Hs; [|by apply push_event_op].
    destruct (bool_decide _); [by apply op_ret|].
    eapply op_stream_attempt; [done..|exact (stream_flow_wp (FlowControl.Credited n) s Hn)|]. intros r s' _ H2.
    destruct (is_err r); [by apply reset_stream_internal_op|].
    apply op_seq_wf; [by apply flush_stream_data_op|]. intros _ c3 H3.
    apply op_seq_wf; [by apply try_remove_op|]. intros _ c4 H4. by apply push_event_op. }
  destruct id as [|cid|sid']; [|by apply Hstream..].
  apply op_seq_wf; [apply on_flow_control_op; [done|apply (flow_step_wp (FlowControl.Credited n)); [done|apply (wf_flow c H)]]|].
  intros _ c1 H1. apply op_seq_wf; [by apply flush_all_op|]. intros _ c2 H2. by apply push_event_op.
Qed.

Lemma handle_priority_update_op f c : wf c -> op (handle_priority_update f) c.
Proof.
  intros H. apply op_gets. destruct (bool_decide _); [by apply op_throw|].
  destruct (PriorityUpdateFrame.prioritized_element_id f); [by apply push_event_op|by apply op_throw].
Qed.

Lemma handle_unknown_op h p c : wf c -> Frame.wf (Frame.Unknown h p) -> op (handle_unknown h) c.
Proof.
  intros H Hh. unfold handle_unknown. cbv zeta. apply op_gets.
  destruct (_ && _); [|by apply op_ret]. apply reset_stream_internal_op; [done| |done].
  apply from_wire_wf. destruct Hh as [Hh _]. destruct Hh as (_ & _ & _ & Hs). rewrite STREAM_ID_MAX_val. unfold u31_ok in Hs. lia.
Qed.

Lemma check_frame_allowed_op f c : wf c -> op (check_frame_allowed f) c.
Proof.
  intros H. apply op_gets, op_gets, op_gets. cbv zeta. op_guard. op_guard. apply op_gets.
  destruct (header_continuation_stream c); [|by apply op_ret].
  match goal with |- op (if ?b then _ else _) _ => destruct b end; [by apply op_ret|by apply op_throw].
Qed.

Lemma handle_frame_op `{HO : HashOrder, !HashOrderLaws HO} f c :
  wf c -> Frame.wf f -> room (content_octets f) c -> opn (content_octets f) (handle_frame f) c.
Proof.
  intros H Hf Hr. assert (0 <= content_octets f) as Hn by (destruct f; cbn; try lia; apply len_nonneg).
  apply opn_lead; [done|by apply check_frame_allowed_op|].
  intros _ c1 H1. pose proof (room_good _ _ _ H1 Hr) as Hr1. destruct H1 as [H1 _].
  destruct f as [f|f|f|f|f|f|f|f|f|f|f|h p]; cbn [dispatch]; [by apply handle_data_op|apply op_opn; [done|]..].
  - by apply handle_headers_op.
  - by apply op_ret.
  - by apply handle_rst_op.
  - by apply handle_settings_op.
  - by apply op_throw.
  - by apply handle_ping_op.
  - by apply handle_goaway_op.
  - by apply handle_window_update_op.
  - by apply handle_continuation_op.
  - by apply handle_priority_update_op.
  - by eapply handle_unknown_op.
Qed.
