(* ===== verification/ConnApi.v ===== *)
(** * ConnApi: the public interface of a connection

    The processing loop, and sequences of calls of the public methods: no
    sequence makes a connection panic or breaks its invariant. *)

From S2P Require Import Prelude Errors StreamIds Config Flow Bounded StreamCore FrameTypes.
From S2P Require Import FrameEncode FrameDecode FrameCodec Syntax HpackTable HpackCodec.
From S2P Require Import Validation Stream ConnBase ConnHeaders ConnRecv ConnInv ConnSafe.
From S2P Require Import ConnSample ConnHandle.
Import Connection Headers Handlers Invariant.

(** ** Lemmas: the processing loop *)

(** The connection with another frame decoder. *)
Definition with_decoder (d : FrameDecoder.t) (c : t) : t := c <| frame_decoder := d |>.

Definition undecoded (c : t) : Z := len (FrameDecoder.buf (frame_decoder c)).

(** How processing changes a connection: it takes octets from the decoder, and
    counts at most these as content. *)
Definition proceeds (c c' : t) : Prop :=
  wf c' /\ exists n, 0 <= n /\ evolves n (with_decoder (frame_decoder c') c) c' /\ n + undecoded c' <= undecoded c.

Lemma with_decoder_wf d c : wf c -> FrameDecoder.wf d -> wf (with_decoder d c).
Proof. intros H Hd. destruct H; constructor; cbn; assumption. Qed.

Lemma evolves_decoder n d c c' : evolves n c c' -> evolves n (with_decoder d c) (with_decoder d c').
Proof. intros []. by constructor. Qed.

Lemma proceeds_refl c : wf c -> proceeds c c.
Proof.
  intros H. split; [done|]. exists 0. split_and!; [done| |lia]. destruct c. apply evolves_refl.
Qed.

Lemma proceeds_trans c1 c2 c3 : proceeds c1 c2 -> proceeds c2 c3 -> proceeds c1 c3.
Proof.
  intros [_ (n & Hn & Hev & Hle)] [H3 (m & Hm & Hev' & Hle')]. split; [done|].
  exists (n + m). split_and!; [lia| |lia]. eapply evolves_trans; [|exact Hev'].
  exact (evolves_decoder n (frame_decoder c3) _ _ Hev).
Qed.

(** One turn: the decoder gives way to [d], then a handler runs. *)
Lemma proceeds_turn n d c c' :
  0 <= n -> n + len (FrameDecoder.buf d) <= undecoded c -> good n (with_decoder d c) c' -> proceeds c c'.
Proof.
  intros Hn Hle [Hw He]. split; [done|]. exists n. pose proof (ev_frames _ _ _ He) as Hd. cbn in Hd.
  unfold undecoded. rewrite Hd. split_and!; [done| |done]. exact He.
Qed.

Lemma proceeds_room_more k c c' : proceeds c c' -> room (undecoded c + k) c -> room (undecoded c' + k) c'.
Proof.
  intros [_ (n & Hn & He & Hle)] Hr sid. specialize (Hr sid). pose proof (ev_content _ _ _ He sid) as Hc.
  change (content (with_decoder _ c) sid) with (content c sid) in Hc. lia.
Qed.

Lemma proceeds_room c c' : proceeds c c' -> room (undecoded c) c -> room (undecoded c') c'.
Proof. intros Hp Hr. rewrite <- (Z.add_0_r (undecoded c')). eapply proceeds_room_more; [done|by rewrite Z.add_0_r]. Qed.

Lemma handle_decode_error_op e c :
  wf c -> (forall code, Error.error_code e = Some code -> code_ok code) ->
  (exists sid, FrameDecoder.last_decoded_stream_id (frame_decoder c) = Some sid /\ 0 <= sid <= STREAM_ID_MAX) ->
  op (handle_decode_error e) c.
Proof.
  intros H Hcode (sid & Hsid & Hr). apply op_gets. rewrite Hsid.
  destruct (Error.error_code e) as [code|]; [|by apply op_ret]. apply op_gets. op_guard.
  apply reset_stream_internal_op; [done|by apply from_wire_wf|by apply Hcode].
Qed.

(** The state from which a turn that took the decoder to [d] goes on. *)
Lemma next_frame_eq c :
  next_frame c =
  let '(r, d) := FrameDecoder.decode (frame_decoder c) in
  match r with Panic => (Panic, with_decoder d c) | _ => (Ok r, with_decoder d c) end.
Proof. unfold next_frame, attempt, zoom. by destruct (FrameDecoder.decode _) as [[]]. Qed.

(** What the handler of one turn does, from the state with the decoder [d]. *)
Definition turn_safe {A} (d : FrameDecoder.t) (X : M A) (c : t) : Prop :=
  let Q c' := proceeds c c' /\ frame_decoder c' = d in wp X (fun _ => Q) Q (with_decoder d c).

Lemma opn_turn_safe {A} n d (X : M A) c :
  0 <= n -> n + len (FrameDecoder.buf d) <= undecoded c -> opn n X (with_decoder d c) -> turn_safe d X c.
Proof.
  intros Hn Hle HX.
  assert (forall c', good n (with_decoder d c) c' -> proceeds c c' /\ frame_decoder c' = d) as Hk.
  { intros c' Hg. split; [by eapply proceeds_turn|]. destruct Hg as [_ He]. by rewrite (ev_frames _ _ _ He). }
  eapply wp_mono; [exact HX|intros ? c' Hg|intros c' Hg]; by apply Hk.
Qed.

Lemma turn_safe_spec `{HO : HashOrder, !HashOrderLaws HO} c r d :
  wf c -> room (undecoded c) c -> FrameDecoder.decode (frame_decoder c) = (r, d) ->
  wf (with_decoder d c) /\
  match r with
  | Ok (Some f) => (FrameDecoder.measure d < FrameDecoder.measure (frame_decoder c))%nat /\ turn_safe d (handle_frame f) c
  | Ok None => proceeds c (with_decoder d c) /\ (FrameDecoder.measure d <= FrameDecoder.measure (frame_decoder c))%nat
  | Err e =>
      if Error.is_stream_error e
      then (FrameDecoder.measure d < FrameDecoder.measure (frame_decoder c))%nat /\ turn_safe d (handle_decode_error e) c
      else proceeds c (with_decoder d c)
  | Panic => False
  end.
Proof.
  intros Hc Hr E. pose proof (decode_turn _ (wf_frames c Hc)) as Hturn. rewrite E in Hturn. cbn in Hturn.
  destruct Hturn as [Hd Hturn]. set (c1 := with_decoder d c). assert (wf c1) as H1 by by apply with_decoder_wf.
  split; [done|].
  destruct r as [[f|]|e|]; [| | |done].
  - destruct Hturn as (Hf & Hmd & Hle). split; [done|]. apply (opn_turn_safe (content_octets f)); [|done|].
    { destruct f; cbn; try lia. apply len_nonneg. }
    apply handle_frame_op; [done..|]. intros sid. specialize (Hr sid).
    change (content (with_decoder d c) sid) with (content c sid). unfold undecoded in *. pose proof (len_nonneg (FrameDecoder.buf d)). lia.
  - destruct Hturn. split; [|done]. by apply (proceeds_turn 0 d); [..|apply good_refl].
  - destruct Hturn as (Hcode & Hle & Hs). destruct (Error.is_stream_error e) eqn:Es.
    + destruct (Hs eq_refl) as [Hmd Hsid]. split; [done|]. apply (opn_turn_safe 0); [done|exact Hle|]. by apply handle_decode_error_op.
    + apply (proceeds_turn 0 d); [done|done|by apply good_refl].
Qed.

(** A turn of the loop, the decoder's outcome given. *)
Definition turn `{HashOrder} (r : result Error.t (option Frame.t)) (k : M unit) : M unit :=
  match r with
  | Ok (Some frame) => handle_frame frame ;! k
  | Ok None => ret tt
  | Err e => if Error.is_stream_error e then handle_decode_error e ;! k else throw e
  | Panic => panic
  end.

Lemma process_loop_turn `{HashOrder} fuel c :
  process_loop (S fuel) c =
  let '(r, d) := FrameDecoder.decode (frame_decoder c) in turn r (process_loop fuel) (with_decoder d c).
Proof.
  cbn [process_loop]. unfold bind at 1. rewrite next_frame_eq.
  by destruct (FrameDecoder.decode (frame_decoder c)) as [[[f|]|e|] d].
Qed.

Lemma process_loop_ok `{HO : HashOrder, !HashOrderLaws HO} fuel c :
  wf c -> room (undecoded c) c -> (FrameDecoder.measure (frame_decoder c) < fuel)%nat ->
  wp (process_loop fuel) (fun _ => proceeds c) (proceeds c) c.
Proof.
  revert c. induction fuel as [|fuel IH]; intros c Hc Hr Hm; [lia|].
  unfold wp. rewrite process_loop_turn. unfold turn.
  destruct (FrameDecoder.decode (frame_decoder c)) as [r d] eqn:E.
  destruct (turn_safe_spec c r d Hc Hr E) as [H1 Ht]. set (c1 := with_decoder d c) in *.
  assert (forall (X : M unit), (FrameDecoder.measure d < FrameDecoder.measure (frame_decoder c))%nat -> turn_safe d X c ->
    wp (X ;! process_loop fuel) (fun _ => proceeds c) (proceeds c) c1) as Hgo.
  { intros X Hmd HX. eapply wp_seq; [exact HX| |by intros ? []]. intros _ c2 [Hp Hd]. pose proof Hp as [H2 _].
    eapply wp_mono; [apply IH; [done|by eapply proceeds_room|rewrite Hd; lia]|intros ? c3 H3|intros c3 H3];
      exact (proceeds_trans _ _ _ Hp H3). }
  destruct r as [[f|]|e|]; [by apply Hgo; destruct Ht|by destruct Ht| |done].
  destruct (Error.is_stream_error e); [by apply Hgo; destruct Ht|done].
Qed.

Lemma process_ok `{HO : HashOrder, !HashOrderLaws HO} c :
  wf c -> room (undecoded c) c -> wp process (fun _ => proceeds c) (proceeds c) c.
Proof. intros H Hr. apply wp_gets. by apply process_loop_ok; [..|lia]. Qed.

(** ** The public methods *)

Module Api.

(** A call of a public method that can change the connection. *)
Inductive call : Type :=
| Initiate | SendSettings | MarkPrefaceReceived | MarkPrefaceSent
| Feed (data : list Z) | Process | PollEvent | PollOutput
| StartStream (headers : list HeaderField.t) (end_stream : bool)
| SendResponse (stream_id : StreamId.t) (headers : list HeaderField.t) (end_stream : bool)
| SendTrailers (stream_id : StreamId.t) (headers : list HeaderField.t)
| SendData (stream_id : StreamId.t) (data : list Z) (end_stream : bool)
| ResetStream (stream_id : StreamId.t) (error_code : ErrorCode.t)
| SendPing (opaque_data : list Z)
| SendGoaway (error_code : ErrorCode.t) (debug_data : list Z)
| SendWindowUpdate (stream_id : StreamId.t) (increment : Z).

(** What a method returns. *)
Inductive reply : Type :=
| Done | Consumed (n : Z) | Started (stream_id : StreamId.t)
| Polled (event : option Event.t) | Output (octets : option (list Z)).

Definition run_call `{HashOrder} (x : call) : M reply :=
  match x with
  | Initiate => initiate ;! ret Done
  | SendSettings => send_settings ;! ret Done
  | MarkPrefaceReceived => mark_preface_received ;! ret Done
  | MarkPrefaceSent => mark_preface_sent ;! ret Done
  | Feed data => let! n := feed data in ret (Consumed n)
  | Process => process ;! ret Done
  | PollEvent => let! e := poll_event in ret (Polled e)
  | PollOutput => let! o := poll_output in ret (Output o)
  | StartStream hs es => let! id := start_stream hs es in ret (Started id)
  | SendResponse id hs es => send_response id hs es ;! ret Done
  | SendTrailers id hs => send_trailers id hs ;! ret Done
  | SendData id d es => send_data id d es ;! ret Done
  | ResetStream id code => reset_stream id code ;! ret Done
  | SendPing d => send_ping d ;! ret Done
  | SendGoaway code d => send_goaway code d ;! ret Done
  | SendWindowUpdate id n => send_window_update id n ;! ret Done
  end.

(** A sequence of calls, errors included: the application goes on after an
    error.  [None] is a panic. *)
Fixpoint run `{HashOrder} (xs : list call) (c : t) : option (list (result Error.t reply) * t) :=
  match xs with
  | [] => Some ([], c)
  | x :: xs =>
      match run_call x c with
      | (Panic, _) => None
      | (r, c') => option_map (fun '(rs, c'') => (r :: rs, c'')) (run xs c')
      end
  end.

(** The arguments are values of their Rust types: octets, identifiers within 31
    bits, codes within 32, and of a size that memory and a frame have room for. *)
Definition call_ok (x : call) : Prop :=
  match x with
  | Feed data => bytes_ok data
  | StartStream hs _ => headers_ok hs
  | SendResponse id hs _ | SendTrailers id hs => StreamId.wf id /\ headers_ok hs
  | SendData id d _ => StreamId.wf id /\ bytes_ok d
  | ResetStream id code => StreamId.wf id /\ code_ok code
  | SendPing d => bytes_ok d /\ len d = 8
  | SendGoaway code d => code_ok code /\ bytes_ok d /\ len d <= MAX_MAX_FRAME_SIZE - 8
  | SendWindowUpdate id n => StreamId.wf id /\ u32_ok n
  | _ => True
  end.

(** The octets fed, and the calls that send SETTINGS. *)
Definition fed (x : call) : Z := match x with Feed data => len data | _ => 0 end.
Definition settings_call (x : call) : Z := match x with Initiate | SendSettings => 1 | _ => 0 end.
Definition total_fed (xs : list call) : Z := foldr (fun x n => fed x + n) 0 xs.
Definition settings_calls (xs : list call) : Z := foldr (fun x n => settings_call x + n) 0 xs.

(** What a connection has used up: at most [n] octets received and [m] SETTINGS
    frames sent. *)
Definition used (n m : Z) (c : t) : Prop :=
  wf c /\ (forall sid, content c sid + undecoded c <= n) /\ pending_settings_count c <= m.

(** Octets wait in the decoder only after the preface of a client. *)
Definition fresh (c : t) : Prop :=
  role c = Role.Server -> preface_received c = false ->
  FrameDecoder.buf (frame_decoder c) = [] /\ FrameDecoder.current_header (frame_decoder c) = None.

(** What no call changes back. *)
Record later (c c' : t) : Prop := mk_later {
  la_role : role c' = role c;
  la_local : local_settings c' = local_settings c;
  la_next : next_stream_id c <= next_stream_id c';
  la_recv : last_recv_stream_id c <= last_recv_stream_id c';
  la_succ : last_successful_stream_id c <= last_successful_stream_id c';
  la_goaway : goaway_le (last_sent_goaway_stream_id c) (last_sent_goaway_stream_id c');
  la_preface : preface_sent c = true -> preface_sent c' = true;
  la_fresh : fresh c -> fresh c'
}.

End Api.
Import Api.

(** ** Lemmas: one call *)

Lemma later_refl c : later c c.
Proof. constructor; try done; try lia. apply goaway_le_refl. Qed.
Lemma later_trans a b c : later a b -> later b c -> later a c.
Proof. intros [] []. constructor; try congruence; try lia; [by eapply goaway_le_trans|auto|auto]. Qed.

Lemma evolves_later n c c' : evolves n c c' -> later c c'.
Proof. intros []. constructor; try done. unfold fresh. rewrite ev_role0, ev_received0, ev_frames0. done. Qed.

(** A call's outcome: no panic, and a later state of which as much is used. *)
Definition call_safe {A} (n m : Z) (X : M A) (c : t) : Prop :=
  wp X (fun _ c' => used n m c' /\ later c c') (fun c' => used n m c' /\ later c c') c.

Lemma call_safe_done {A B} n m (X : M A) (f : A -> B) c :
  call_safe n m X c -> call_safe n m (let! a := X in ret (f a)) c.
Proof. unfold call_safe, wp, bind. by destruct (X c) as [[a|e|] c']. Qed.

Lemma good_used n m c c' : used n m c -> good 0 c c' -> used n m c' /\ later c c'.
Proof.
  intros (H & Hn & Hm) [H' He]. split; [|by eapply evolves_later]. destruct He. split_and!; [done| |lia].
  intros sid. specialize (Hn sid). specialize (ev_content0 sid). unfold undecoded in *. rewrite ev_frames0. lia.
Qed.

Lemma op_call {A} n m (X : M A) c : used n m c -> op X c -> call_safe n m X c.
Proof. intros Hu HX. eapply wp_mono; [exact HX|..]; cbn; intros; by eapply good_used. Qed.

Lemma settings_sent_used n m c : used n m c -> used n (m + 1) (settings_sent c).
Proof. intros (H & Hn & Hm). split_and!; [by apply settings_sent_wf|done|cbn; lia]. Qed.

Lemma used_weaken n m n' m' c : n <= n' -> m <= m' -> used n m c -> used n' m' c.
Proof. intros Hn Hm (H & Hc & Hp). split_and!; [done| |lia]. intros sid. specialize (Hc sid). lia. Qed.

(** A call that starts from another state. *)
Lemma op_call_from {A} n m (X : M A) c0 c :
  used n m c0 -> later c c0 -> wp X (fun _ => good 0 c0) (good 0 c0) c -> call_safe n m X c.
Proof.
  intros Hu Hl HX. assert (forall c', good 0 c0 c' -> used n m c' /\ later c c') as Hk.
  { intros c' Hg. destruct (good_used _ _ _ _ Hu Hg). split; [done|by eapply later_trans]. }
  eapply wp_mono; [exact HX|..]; auto.
Qed.

Lemma settings_sent_later c : later c (settings_sent c).
Proof. constructor; try done; try (cbn; lia). apply goaway_le_refl. Qed.

Lemma send_settings_call n m c : used n m c -> m + 1 < 2 ^ 32 -> call_safe n (m + 1) send_settings c.
Proof.
  intros Hu Hm. pose proof Hu as (H & Hn & Hp).
  apply (op_call_from _ _ _ (settings_sent c)); [by apply settings_sent_used|by apply settings_sent_later|].
  apply send_settings_wp; [done|]. unfold settings_room. lia.
Qed.

Lemma prefaced_used n m c : used n m c -> used n m (prefaced c).
Proof. intros (H & Hn & Hm). split_and!; [by apply wf_output|done|done]. Qed.

Lemma initiate_call n m c : used n m c -> m + 1 < 2 ^ 32 -> call_safe n (m + 1) initiate c.
Proof.
  intros Hu Hm. pose proof Hu as (H & Hn & Hp). eapply op_call_from; [| |eapply wp_mono;
    [apply initiate_wp; [done|unfold settings_room; lia]|by intros ? ? []|done]]; destruct (preface_sent c).
  - by eapply used_weaken; [..|exact Hu]; lia.
  - by apply settings_sent_used, prefaced_used.
  - apply later_refl.
  - constructor; try done; try (cbn; lia). apply goaway_le_refl.
Qed.

Lemma used_fields n m c c' :
  used n m c -> wf c' -> streams c' = streams c -> frame_decoder c' = frame_decoder c ->
  pending_settings_count c' = pending_settings_count c -> used n m c'.
Proof.
  intros (_ & Hn & Hm) H' Hs Hd Hp. split_and!; [done| |by rewrite Hp].
  intros sid. unfold content, undecoded. rewrite Hs, Hd. apply Hn.
Qed.

Lemma decoder_feed_used n m data c :
  used n m c -> bytes_ok data -> used (n + len data) m (with_decoder (FrameDecoder.feed data (frame_decoder c)) c).
Proof.
  intros (H & Hn & Hm) Hb. split_and!; [|intros sid; specialize (Hn sid)|done].
  - apply with_decoder_wf; [done|]. apply feed_wf; [done|apply (wf_frames c H)].
  - unfold undecoded. cbn. rewrite len_app. unfold undecoded in Hn.
    change (content (with_decoder _ c) sid) with (content c sid). lia.
Qed.

Lemma preface_buffer_used n m c pb :
  used n m c -> len pb <= CONNECTION_PREFACE_LEN -> used n m (c <| preface_buffer := pb |>).
Proof.
  intros Hu Hl. pose proof Hu as (H & _). apply (used_fields _ _ c); try done.
  destruct H; constructor; cbn; assumption.
Qed.

(** The flags [mark_preface_received] and [mark_preface_sent] set. *)
Lemma preface_mark_used n m b c : used n m c ->
  used n m (c <| preface_received := b |>) /\ used n m (c <| preface_sent := b |>).
Proof.
  intros Hu. pose proof Hu as (H & _). split; apply (used_fields _ _ c); try done; (destruct H; constructor; cbn; assumption).
Qed.

Lemma later_fields c c' :
  role c' = role c -> local_settings c' = local_settings c -> next_stream_id c' = next_stream_id c ->
  last_recv_stream_id c' = last_recv_stream_id c -> last_successful_stream_id c' = last_successful_stream_id c ->
  last_sent_goaway_stream_id c' = last_sent_goaway_stream_id c -> (preface_sent c = true -> preface_sent c' = true) ->
  (fresh c -> fresh c') -> later c c'.
Proof. intros ????? Hg Hp Hf. constructor; try done; try lia. rewrite Hg. apply goaway_le_refl. Qed.

Lemma feed_call n m data c :
  used n m c -> bytes_ok data -> call_safe (n + len data) m (feed data) c.
Proof.
  intros Hu Hb. pose proof (len_nonneg data) as Hd. pose proof Hu as (H & _).
  assert (forall c', used n m c' -> used (n + len data) m c') as Hweak by (intros; eapply used_weaken; [..|done]; lia).
  unfold call_safe, feed. apply wp_gets, wp_gets. destruct (_ && _) eqn:Hmode.
  - apply wp_gets. pose proof (wf_preface c H) as Hl. pose proof (len_nonneg (preface_buffer c)).
    unfold sub_usize. replace (_ <? _) with false by lia. apply wp_lift_ok. cbv zeta.
    set (k := Z.min _ _). rewrite slice_spec by lia. apply wp_lift_ok, wp_modify_seq, wp_gets.
    change (Z.to_nat 0) with 0%nat. rewrite drop_0, Z.sub_0_r.
    set (pb := preface_buffer c ++ _). set (c1 := c <| preface_buffer := _ |>).
    assert (len pb = len (preface_buffer c) + k) as Hpb by (subst pb; rewrite len_app, len_take; lia).
    assert (used n m c1 /\ later c c1) as [Hu1 Hl1].
    { split; [|by apply later_fields]. apply preface_buffer_used; [done|]. subst k. unfold CONNECTION_PREFACE_LEN in *. lia. }
    change (preface_buffer c1) with pb. unfold CONNECTION_PREFACE_LEN in *.
    rewrite slice_spec by (change (len CONNECTION_PREFACE) with 24; lia). apply wp_lift_ok.
    destruct (negb (bytes_eqb _ _)); [by split; [apply Hweak|]|]. destruct (_ <? _); [by split; [apply Hweak|]|].
    apply wp_modify_seq. rewrite slice_from_spec by lia. apply wp_lift_ok.
    set (c2 := c1 <| preface_received := _ |>).
    assert (used n m c2 /\ later c c2 /\ preface_received c2 = true) as (Hu2 & Hl2 & Hrec).
    { split; [by apply preface_mark_used|split; [|done]]. eapply later_trans; [done|by apply later_fields]. }
    clearbody c2. set (rest := drop _ _). assert (bytes_ok rest) as Hr by by apply Forall_drop.
    assert (len rest <= len data) as Hlr by (subst rest; rewrite len_drop; lia).
    eapply wp_seq with (R := fun _ c' => used (n + len data) m c' /\ later c c') (X' := fun _ => False); [|done|done].
    destruct (0 <? len rest); [|by split; [apply Hweak|]].
    split; [|eapply later_trans; [done|apply later_fields; try done; intros _ _; cbn; congruence]].
    eapply used_weaken; [..|by apply decoder_feed_used]; lia.
  - apply wp_modify_seq. split; [by apply decoder_feed_used|apply later_fields; try done].
    intros _ Hr. cbn. destruct (preface_received c); [done|]. change (role c = Role.Server) in Hr.
    by rewrite bool_decide_true in Hmode.
Qed.

(** Before the preface there is nothing to process. *)
Lemma process_fresh `{HashOrder} c :
  FrameDecoder.buf (frame_decoder c) = [] -> FrameDecoder.current_header (frame_decoder c) = None ->
  process c = (Ok tt, c).
Proof.
  intros Hb Hh. unfold process, bind at 1, gets. rewrite process_loop_turn.
  rewrite decode_fresh by (done || (rewrite Hb; constructor)). rewrite Hb. destruct c; done.
Qed.

Lemma process_call `{HO : HashOrder, !HashOrderLaws HO} n m c :
  used n m c -> n < 2 ^ 64 -> call_safe n m process c.
Proof.
  intros (H & Hn & Hm) Hmax.
  destruct (decide (role c = Role.Server /\ preface_received c = false /\ fresh c)) as [(Hr & Hp & Hf)|Hmode].
  { destruct (Hf Hr Hp) as [Hb Hh]. unfold call_safe, wp. rewrite process_fresh by done. by split; [|apply later_refl]. }
  assert (forall c', proceeds c c' -> used n m c' /\ later c c') as Hk.
  { intros c' [H' (k & Hk & He & Hle)]. apply and_comm. split.
    { destruct He; constructor; [done..|]. intros Hf Hr Hp. cbn in *. destruct Hmode. split_and!; [congruence..|done]. }
    split_and!; [done| |].
    - intros sid. specialize (Hn sid). pose proof (ev_content _ _ _ He sid) as Hc.
      change (content (with_decoder _ c) sid) with (content c sid) in Hc. lia.
    - pose proof (ev_pending _ _ _ He) as Hp. cbn in Hp. lia. }
  eapply wp_mono; [apply process_ok; [done|]|..]; [|intros; by apply Hk..].
  intros sid. specialize (Hn sid). lia.
Qed.

Lemma poll_event_call n m c : used n m c -> call_safe n m poll_event c.
Proof.
  intros Hu. pose proof Hu as (H & _). unfold call_safe, poll_event. apply wp_gets.
  destruct (events c) as [|e es]; [by split; [|apply later_refl]|]. apply wp_modify_seq.
  split; [|by apply later_fields]. apply (used_fields _ _ c); try done. destruct H; constructor; cbn; assumption.
Qed.

Lemma poll_output_call n m c : used n m c -> call_safe n m poll_output c.
Proof.
  intros Hu. pose proof Hu as (H & _). unfold call_safe, poll_output. apply wp_gets.
  destruct (output_buffer c) as [|e es]; [by split; [|apply later_refl]|]. apply wp_modify_seq.
  split; [|by apply later_fields]. apply (used_fields _ _ c); try done. by apply wf_output.
Qed.

Lemma run_call_safe `{HO : HashOrder, !HashOrderLaws HO} n m x c :
  used n m c -> call_ok x -> n + fed x < 2 ^ 64 -> m + settings_call x < 2 ^ 32 ->
  call_safe (n + fed x) (m + settings_call x) (run_call x) c.
Proof.
  intros Hu Hx Hn Hm. pose proof Hu as (H & _).
  destruct x; cbn [run_call call_ok fed settings_call] in *; rewrite ?Z.add_0_r in *; apply call_safe_done.
  - by apply initiate_call.
  - by apply send_settings_call.
  - split; [by apply preface_mark_used|by apply later_fields].
  - split; [by apply preface_mark_used|by apply later_fields].
  - by apply feed_call.
  - by apply process_call.
  - by apply poll_event_call.
  - by apply poll_output_call.
  - by apply op_call, start_stream_op.
  - apply op_call; [done|]. by apply send_response_op; destruct Hx.
  - apply op_call; [done|]. by apply send_trailers_op; destruct Hx.
  - apply op_call; [done|]. by apply send_data_op; destruct Hx.
  - apply op_call; [done|]. by apply reset_stream_internal_op; destruct Hx.
  - apply op_call; [done|]. by apply send_ping_op; destruct Hx.
  - destruct Hx as (? & ? & ?). apply op_call; [done|]. by apply send_goaway_op.
  - destruct Hx as [? [? _]]. apply op_call; [done|]. by apply send_window_update_op.
Qed.

Lemma call_nonneg x : 0 <= fed x /\ 0 <= settings_call x.
Proof. split; [destruct x; cbn; try lia; apply len_nonneg|by destruct x]. Qed.

Lemma totals_nonneg xs : 0 <= total_fed xs /\ 0 <= settings_calls xs.
Proof.
  induction xs as [|x xs [IH1 IH2]]; [done|]. destruct (call_nonneg x).
  change (0 <= fed x + total_fed xs /\ 0 <= settings_call x + settings_calls xs). lia.
Qed.

(** A call at a time, a sequence of calls keeps what is used in bounds. *)
Lemma run_safe `{HO : HashOrder, !HashOrderLaws HO} xs n m c :
  used n m c -> Forall call_ok xs -> n + total_fed xs < 2 ^ 64 -> m + settings_calls xs < 2 ^ 32 ->
  exists rs c', run xs c = Some (rs, c') /\ length rs = length xs /\
                used (n + total_fed xs) (m + settings_calls xs) c' /\ later c c'.
Proof.
  intros Hu Hxs. revert n m c Hu. induction Hxs as [|x xs Hx _ IH]; intros n m c Hu Hn Hm.
  { exists [], c. cbn in *. rewrite !Z.add_0_r. split_and!; [done|done|done|apply later_refl]. }
  change (total_fed (x :: xs)) with (fed x + total_fed xs) in *.
  change (settings_calls (x :: xs)) with (settings_call x + settings_calls xs) in *.
  destruct (totals_nonneg xs). rewrite !Z.add_assoc in *.
  pose proof (run_call_safe n m x c Hu Hx ltac:(lia) ltac:(lia)) as Hsafe. unfold call_safe, wp in Hsafe.
  cbn [run]. destruct (run_call x c) as [r c1] eqn:Ex.
  assert (r <> Panic /\ used (n + fed x) (m + settings_call x) c1 /\ later c c1) as (Hr & Hu1 & Hl1) by by destruct r.
  destruct (IH _ _ _ Hu1 Hn Hm) as (rs & c2 & -> & Hlen & Hu2 & Hl2).
  exists (r :: rs), c2. destruct r; [| |done]; (split_and!; [done|cbn; lia|done|by eapply later_trans]).
Qed.

Lemma new_used r l : limits_ok l -> used 0 0 (new r l).
Proof. intros Hl. split_and!; [by apply conn_new_wf| |done]. done. Qed.

(** Runs are composed by concatenation. *)
Lemma api_run_app `{HashOrder} xs ys c rs1 c1 rs2 c2 :
  run xs c = Some (rs1, c1) -> run ys c1 = Some (rs2, c2) -> run (xs ++ ys) c = Some (rs1 ++ rs2, c2).
Proof.
  revert c rs1. induction xs as [|x xs IH]; intros c rs1 H1 H2; cbn [app run] in *.
  - by injection H1 as <- <-.
  - destruct (run_call x c) as [r c'].
    assert (option_map (fun '(rs, c'') => (r :: rs, c'')) (run xs c') = Some (rs1, c1) ->
      option_map (fun '(rs, c'') => (r :: rs, c'')) (run (xs ++ ys) c') = Some (rs1 ++ rs2, c2)) as K.
    { destruct (run xs c') as [[rs c'']|] eqn:E; [|done]. cbn. intros [= <- <-]. by rewrite (IH _ _ E H2). }
    destruct r; [by apply K|by apply K|done].
Qed.

Lemma total_fed_app xs ys : total_fed (xs ++ ys) = total_fed xs + total_fed ys.
Proof. unfold total_fed. induction xs as [|x xs IH]; cbn [app foldr]; lia. Qed.
Lemma settings_calls_app xs ys : settings_calls (xs ++ ys) = settings_calls xs + settings_calls ys.
Proof. unfold settings_calls. induction xs as [|x xs IH]; cbn [app foldr]; lia. Qed.

(** ** Properties *)

(** C1: No sequence of calls makes a connection panic. Whatever valid arguments
    the application passes, whatever octets it feeds, in whatever pieces, and
    however it goes on after errors, every call returns a value or an error, as
    long as less than 2^64 octets are fed and less than 2^32 SETTINGS frames
    sent (the widths of the source's counters). The state always satisfies the
    connection's invariant. And whenever a run [xs] is continued by [ys], from
    the state after [xs] to the one after [xs ++ ys] neither the next stream
    identifier, nor the last one received, nor the last one processed goes back,
    a GOAWAY once sent is never followed by one with a larger identifier, and a
    preface once sent stays sent. *)
Theorem connection_never_panics `{HO : HashOrder, !HashOrderLaws HO} (r : Role.t) (l : Limits.t) (xs ys : list call) :
  limits_ok l -> Forall call_ok (xs ++ ys) -> total_fed (xs ++ ys) < 2 ^ 64 -> settings_calls (xs ++ ys) < 2 ^ 32 ->
  exists rs c rs' c',
    run xs (new r l) = Some (rs, c) /\ run ys c = Some (rs', c') /\ run (xs ++ ys) (new r l) = Some (rs ++ rs', c') /\
    length rs = length xs /\ length rs' = length ys /\ wf c /\ wf c' /\ later c c'.
Proof.
  intros Hl [Hxs Hys]%Forall_app Hf Hs. rewrite total_fed_app in Hf. rewrite settings_calls_app in Hs.
  destruct (totals_nonneg ys).
  destruct (run_safe xs 0 0 (new r l) (new_used r l Hl) Hxs ltac:(lia) ltac:(lia)) as (rs & c & Hrun & Hlen & Hu & _).
  destruct (run_safe ys _ _ c Hu Hys ltac:(lia) ltac:(lia)) as (rs' & c' & Hrun' & Hlen' & Hu' & Hlater).
  exists rs, c, rs', c'. pose proof (api_run_app _ _ _ _ _ _ _ Hrun Hrun').
  split_and!; [done..|apply Hu|apply Hu'|done].
Qed.

Lemma connection_never_panics_witness :
  exists rs c rs' c', @run key_order [Initiate; StartStream sample_request false; SendData stream_1 [1; 2; 3] true; PollOutput]
                        (new Role.Client sample_limits) = Some (rs, c) /\
    @run key_order [Feed [0; 0; 0; 4; 0; 0; 0; 0; 0]; Process; PollEvent; Feed [1; 2; 3]; Process] c = Some (rs', c') /\
    @run key_order ([Initiate; StartStream sample_request false; SendData stream_1 [1; 2; 3] true; PollOutput] ++
                    [Feed [0; 0; 0; 4; 0; 0; 0; 0; 0]; Process; PollEvent; Feed [1; 2; 3]; Process])
      (new Role.Client sample_limits) = Some (rs ++ rs', c') /\
    length rs = 4%nat /\ length rs' = 5%nat /\ wf c /\ wf c' /\ later c c'.
Proof.
  apply (@connection_never_panics key_order key_order_laws Role.Client sample_limits); [apply sample_limits_ok| |done|done].
  cbn [app].
  repeat (constructor; [first [exact I|apply sample_request_ok|repeat constructor; by vm_compute]|]). constructor.
Defined.
