(* ===== verification/ConnIndep.v ===== *)
(** * ConnIndep: handlers and the frame decoder

    The handlers of a connection neither read nor change the frame decoder.
    Processing is therefore handling the frames the decoder yields, one after
    the other, and does not depend on how the octets were cut. *)

From S2P Require Import Prelude Errors StreamIds Config Flow Bounded StreamCore FrameTypes.
From S2P Require Import FrameEncode FrameDecode FrameCodec Syntax HpackTable HpackCodec.
From S2P Require Import Validation Stream ConnBase ConnHeaders ConnRecv ConnInv ConnSafe.
From S2P Require Import ConnSample ConnFlow ConnBlock ConnHandle ConnApi.
Import Connection Headers Handlers Invariant Block.

(** ** Methods that ignore the frame decoder *)

Definition indep {A} (X : M A) : Prop :=
  forall d c, X (with_decoder d c) = (fst (X c), with_decoder d (snd (X c))).

(** The order of the stream map does not depend on the octets that wait. *)
Definition order_ignores_decoder (O : HashOrder) : Prop :=
  forall d c, @hash_order O (with_decoder d c) = @hash_order O c.

Lemma indep_bind {A B} (X : M A) (k : A -> M B) : indep X -> (forall a, indep (k a)) -> indep (bind X k).
Proof.
  intros HX Hk d c. unfold bind. rewrite HX. destruct (X c) as [[a|e|] c']; cbn; [apply Hk|done|done].
Qed.
Lemma indep_ret {A} (a : A) : indep (ret a).
Proof. done. Qed.
Lemma indep_throw {A} e : indep (A:=A) (throw e).
Proof. done. Qed.
Lemma indep_panic {A} : indep (A:=A) panic.
Proof. done. Qed.
Lemma indep_lift {A} (r : Result A) : indep (lift r).
Proof. done. Qed.
Lemma indep_gets {A} (f : t -> A) : (forall d c, f (with_decoder d c) = f c) -> indep (gets f).
Proof. intros Hf d c. unfold gets. by rewrite Hf. Qed.
Lemma indep_modify (f : t -> t) : (forall d c, f (with_decoder d c) = with_decoder d (f c)) -> indep (modify f).
Proof. intros Hf d c. unfold modify. by rewrite Hf. Qed.
Lemma indep_attempt {A} (X : M A) : indep X -> indep (attempt X).
Proof. intros HX d c. unfold attempt. rewrite HX. by destruct (X c) as [[]]. Qed.
Lemma indep_stream_mut {A} sid (m : ST Stream.t Error.t A) : indep (stream_mut sid m).
Proof.
  intros d c. unfold stream_mut. change (streams (with_decoder d c)) with (streams c).
  destruct (streams c !! sid) as [s|]; [|done]. by destruct (m s).
Qed.
Lemma indep_flow {A} (m : ST FlowControl.t Error.t A) : indep (on_flow_control m).
Proof. intros d c. unfold on_flow_control, zoom. cbn. by destruct (m (flow_control c)). Qed.
Lemma indep_send_frame f : indep (send_frame f).
Proof.
  intros d c. unfold send_frame, bind, zoom, modify. cbn. by destruct (FrameEncoder.encode f (frame_encoder c)) as [[]].
Qed.
Create HintDb indep.
#[export] Hint Resolve indep_ret indep_throw indep_panic indep_lift indep_stream_mut indep_flow indep_send_frame : indep.

Ltac indep_leaf :=
  first
    [ solve [auto with indep]
    | apply indep_gets; intros; reflexivity
    | apply indep_modify; intros; first [reflexivity | cbn; repeat case_match; reflexivity] ].
Ltac indep :=
  cbv zeta;
  repeat first [ indep_leaf | apply indep_attempt | apply indep_bind; [|intros] | case_match ].

Lemma indep_push_event e : indep (push_event e).
Proof. unfold push_event. indep. Qed.
Lemma indep_forget sid : indep (forget_stream sid).
Proof. unfold forget_stream. indep. Qed.
Lemma indep_require sid : indep (require_stream sid).
Proof. unfold require_stream. indep. Qed.
#[export] Hint Resolve indep_push_event indep_forget indep_require : indep.

Lemma indep_reset id code n : indep (reset_stream_internal id code n).
Proof. unfold reset_stream_internal. indep. Qed.
Lemma indep_check_idle sid name : indep (check_not_idle_stream sid name).
Proof. unfold check_not_idle_stream. indep. Qed.
Lemma indep_check_concurrent sid : indep (check_concurrent_streams_limit sid).
Proof. unfold check_concurrent_streams_limit. indep. Qed.
Lemma indep_flush_step sid n : indep (flush_step sid n).
Proof. unfold flush_step, send_data_frame. indep. Qed.
#[export] Hint Resolve indep_reset indep_check_idle indep_check_concurrent indep_flush_step : indep.

Lemma indep_flush_loop fuel sid : indep (flush_loop fuel sid).
Proof. induction fuel as [|fuel IH]; cbn [flush_loop]; indep. Qed.
#[export] Hint Resolve indep_flush_loop : indep.

Lemma indep_flush sid : indep (flush_stream_data sid).
Proof. unfold flush_stream_data, send_data_frame. indep. Qed.
Lemma indep_try_remove sid : indep (try_remove_closed_stream sid).
Proof. unfold try_remove_closed_stream. indep. Qed.
#[export] Hint Resolve indep_flush indep_try_remove : indep.

Lemma indep_flush_streams ids : indep (flush_streams ids).
Proof. induction ids as [|sid ids IH]; cbn [flush_streams]; indep. Qed.
#[export] Hint Resolve indep_flush_streams : indep.

(** *** Header blocks *)

Lemma indep_ensure id : indep (ensure_stream id).
Proof. unfold ensure_stream. indep. Qed.
Lemma indep_close id : indep (close_stream id).
Proof. unfold close_stream. indep. Qed.
Lemma indep_note_successful sid : indep (note_successful sid).
Proof. unfold note_successful. indep. Qed.
#[export] Hint Resolve indep_ensure indep_close indep_note_successful : indep.

Lemma indep_reset_validation id : indep (reset_headers_validation_error id).
Proof. unfold reset_headers_validation_error. indep. Qed.
Lemma indep_reset_refused id : indep (reset_refused_concurrent_stream id).
Proof. unfold reset_refused_concurrent_stream. indep. Qed.
Lemma indep_reset_tunnel id : indep (reset_connect_established_headers id).
Proof. unfold reset_connect_established_headers. indep. Qed.
#[export] Hint Resolve indep_reset_validation indep_reset_refused indep_reset_tunnel : indep.

Lemma indep_check_received id hs es tr : indep (check_received id hs es tr).
Proof. unfold check_received. indep. Qed.
Lemma indep_finish id es : indep (finish_headers id es).
Proof. unfold finish_headers. indep. Qed.
Lemma indep_note_initial id hs es : indep (note_initial_headers id hs es).
Proof. unfold note_initial_headers. indep. Qed.
#[export] Hint Resolve indep_check_received indep_finish indep_note_initial : indep.

Lemma indep_accept id hs es tr cl : indep (accept_headers id hs es tr cl).
Proof. unfold accept_headers. indep. Qed.
#[export] Hint Resolve indep_accept : indep.

Lemma indep_process_headers id hs es : indep (process_headers id hs es).
Proof. unfold process_headers. indep. Qed.
Lemma indep_check_fragment : indep check_header_block_fragment_size.
Proof. unfold check_header_block_fragment_size. indep. Qed.
Lemma indep_hpack_decode l : indep (hpack_decode l).
Proof. intros d c. unfold hpack_decode. cbn. by destruct (Decoder.decode l (hpack_decoder c)). Qed.
#[export] Hint Resolve indep_process_headers indep_check_fragment indep_hpack_decode : indep.

Lemma indep_complete id hs es pc : indep (complete_header_block id hs es pc).
Proof. unfold complete_header_block. indep. Qed.
#[export] Hint Resolve indep_complete : indep.

Lemma indep_finish_continuation sid : indep (finish_continuation sid).
Proof. unfold finish_continuation. indep. Qed.
#[export] Hint Resolve indep_finish_continuation : indep.

(** *** Frames *)

Lemma indep_begin sid : indep (begin_header_block sid).
Proof. unfold begin_header_block. indep. Qed.
#[export] Hint Resolve indep_begin : indep.
Lemma indep_handle_headers f : indep (handle_headers f).
Proof. unfold handle_headers, await_continuation. indep. Qed.
Lemma indep_handle_continuation f : indep (handle_continuation f).
Proof. unfold handle_continuation. indep. Qed.
Lemma indep_handle_data f : indep (handle_data f).
Proof. unfold handle_data. indep. Qed.
Lemma indep_handle_rst f : indep (handle_rst_stream f).
Proof. unfold handle_rst_stream. indep. Qed.
Lemma indep_update_windows ids n : indep (update_windows ids n).
Proof. induction ids as [|sid ids IH]; cbn [update_windows]; indep. Qed.
Lemma indep_apply_setting x : indep (apply_setting x).
Proof. unfold apply_setting, note_setting. indep. Qed.
#[export] Hint Resolve indep_handle_headers indep_handle_continuation indep_handle_data indep_handle_rst
  indep_update_windows indep_apply_setting : indep.

Lemma indep_apply_settings l : indep (apply_settings l).
Proof. induction l as [|x l IH]; cbn [apply_settings]; indep. Qed.
Lemma indep_note_table n : indep (note_table_size n).
Proof. unfold note_table_size. indep. Qed.
Lemma indep_resize : indep resize_encoder.
Proof. intros d c. unfold resize_encoder. cbn. by destruct (Encoder.set_max_table_size _ _). Qed.
Lemma indep_handle_ping f : indep (handle_ping f).
Proof. unfold handle_ping. indep. Qed.
Lemma indep_handle_goaway f : indep (handle_goaway f).
Proof. unfold handle_goaway. indep. Qed.
Lemma indep_handle_priority_update f : indep (handle_priority_update f).
Proof. unfold handle_priority_update. indep. Qed.
Lemma indep_handle_unknown h : indep (handle_unknown h).
Proof. unfold handle_unknown. indep. Qed.
Lemma indep_check_allowed f : indep (check_frame_allowed f).
Proof. unfold check_frame_allowed. indep. Qed.
#[export] Hint Resolve indep_apply_settings indep_note_table indep_resize indep_handle_ping indep_handle_goaway
  indep_handle_priority_update indep_handle_unknown indep_check_allowed : indep.

Section order.
Context {O : HashOrder} (HO : order_ignores_decoder O).

Lemma indep_gets_order : indep (gets hash_order).
Proof. by apply indep_gets. Qed.

Lemma indep_update_stream_windows n : indep (update_stream_windows n).
Proof. unfold update_stream_windows. apply indep_bind; [apply indep_gets_order|]. intros. indep. Qed.

Lemma indep_flush_all : indep flush_all_stream_data.
Proof.
  unfold flush_all_stream_data. apply indep_bind; [|intros; indep]. apply indep_gets. intros d c. by rewrite HO.
Qed.

Lemma indep_handle_settings f : indep (handle_settings f).
Proof. pose proof indep_flush_all. pose proof indep_update_stream_windows. unfold handle_settings. indep. Qed.

Lemma indep_handle_window_update f : indep (handle_window_update f).
Proof. pose proof indep_flush_all. unfold handle_window_update, reset_stream. indep. Qed.

Lemma indep_handle_frame f : indep (handle_frame f).
Proof.
  unfold handle_frame. apply indep_bind; [indep|]. intros _.
  destruct f; cbn [dispatch]; try indep_leaf; [apply indep_handle_settings|apply indep_handle_window_update].
Qed.

Lemma indep_handle_frames fs : indep (handle_frames fs).
Proof. induction fs as [|f fs IH]; cbn [handle_frames]; [indep|]. apply indep_bind; [apply indep_handle_frame|done]. Qed.
End order.
