(* ===== verification/ConnChunks.v ===== *)
(** * ConnChunks: how the received octets are cut does not matter

    Feeding a connection its octets in pieces, processing after each piece, has
    the same results, events and output as feeding them at once. *)

From S2P Require Import Prelude Errors StreamIds Config Flow Bounded StreamCore FrameTypes.
From S2P Require Import FrameEncode FrameDecode FrameCodec Syntax HpackTable HpackCodec.
From S2P Require Import Validation Stream ConnBase ConnHeaders ConnRecv ConnInv ConnSafe.
From S2P Require Import ConnSample ConnFlow ConnBlock ConnHandle ConnApi ConnIndep.
Import Connection Headers Handlers Invariant Block Api.

Module Delivering.

(** What an application does with received octets. *)
Definition deliver `{HashOrder} (data : list Z) : M unit :=
  let! _ := feed data in process.

Fixpoint deliver_all `{HashOrder} (chunks : list (list Z)) : M unit :=
  match chunks with
  | [] => ret tt
  | data :: chunks => deliver data ;! deliver_all chunks
  end.

(** The same connection but for the octets that wait. *)
Definition same_but_input (c c' : t) : Prop :=
  exists d pb, c' = with_decoder d (c <| preface_buffer := pb |>).

End Delivering.
Import Delivering.

(** The connection with more octets in its decoder. *)
Definition fed_to (b : list Z) (c : t) : t := with_decoder (FrameDecoder.feed b (frame_decoder c)) c.

(** ** Lemmas: the processing loop *)

Section chunks.
Context {O : HashOrder} {HL : HashOrderLaws O} (HO : order_ignores_decoder O).

(** A method that does not see octets appended to the decoder's buffer. *)
Definition feeds {A} (X : M A) : Prop :=
  forall b c, X (fed_to b c) = (fst (X c), fed_to b (snd (X c))).

Lemma indep_feeds {A} (X : M A) : indep X -> feeds X.
Proof.
  intros HX b c. assert (c = with_decoder (frame_decoder c) c) as Hc by by destruct c.
  assert (frame_decoder (snd (X c)) = frame_decoder c) as Hd by (rewrite Hc at 1; by rewrite HX).
  unfold fed_to at 1. rewrite HX. unfold fed_to. by rewrite Hd.
Qed.

(** [handle_decode_error] for a given last decoded stream. *)
Definition decode_error_at (last : option Z) (e : Error.t) : M unit :=
  match last, Error.error_code e with
  | Some stream_id, Some error_code =>
      let! idle := gets (is_idle_stream stream_id) in
      if idle then
        throw (Error.connection_error error_code
                 "stream error on idle stream {} promoted to connection error")
      else reset_stream (StreamId.from_wire stream_id) error_code
  | _, _ => ret tt
  end.

Lemma decode_error_feeds e : feeds (handle_decode_error e).
Proof.
  intros b c. set (l := FrameDecoder.last_decoded_stream_id (frame_decoder c)).
  change (decode_error_at l e (fed_to b c) = (fst (decode_error_at l e c), fed_to b (snd (decode_error_at l e c)))).
  apply indep_feeds. unfold decode_error_at, reset_stream. indep.
Qed.

Lemma frame_feeds f : feeds (handle_frame f).
Proof. by apply indep_feeds, indep_handle_frame. Qed.

(** Enough fuel is enough. *)
Lemma loop_fuel fuel fuel' c :
  wf c -> room (undecoded c) c -> (FrameDecoder.measure (frame_decoder c) < fuel)%nat ->
  (FrameDecoder.measure (frame_decoder c) < fuel')%nat -> process_loop fuel c = process_loop fuel' c.
Proof.
  revert fuel' c. induction fuel as [|fuel IH]; intros [|fuel'] c H Hr H1 H2; try lia.
  rewrite !process_loop_turn. destruct (FrameDecoder.decode (frame_decoder c)) as [r d] eqn:E.
  destruct (turn_safe_spec c r d H Hr E) as [_ Ht]. unfold turn.
  assert (forall (X : M unit), (FrameDecoder.measure d < FrameDecoder.measure (frame_decoder c))%nat ->
    turn_safe d X c ->
    (X ;! process_loop fuel) (with_decoder d c) = (X ;! process_loop fuel') (with_decoder d c)) as Hgo.
  { intros X Hmd HX. unfold turn_safe, wp in HX. unfold bind. destruct (X (with_decoder d c)) as [[a|e|] c2]; try done.
    destruct HX as [Hp Hd]. apply IH; [apply Hp|by eapply proceeds_room|rewrite Hd; lia..]. }
  destruct r as [[f|]|e|]; [by apply Hgo; destruct Ht|done| |done].
  destruct (Error.is_stream_error e); [by apply Hgo; destruct Ht|done].
Qed.

Lemma measure_feed b d : FrameDecoder.measure (FrameDecoder.feed b d) = (FrameDecoder.measure d + length b)%nat.
Proof. unfold FrameDecoder.measure, FrameDecoder.feed. cbn. rewrite length_app. lia. Qed.

(** Octets that arrive while the loop runs are not seen before it is done with
    the earlier ones. *)
Lemma loop_feed fuel fuel' b c :
  wf c -> bytes_ok b -> room (undecoded c + len b) c ->
  (FrameDecoder.measure (frame_decoder c) < fuel)%nat ->
  (FrameDecoder.measure (frame_decoder (fed_to b c)) < fuel')%nat ->
  match process_loop fuel c with
  | (Ok _, c1) => process_loop fuel' (fed_to b c) = process (fed_to b c1)
  | (Err e, c1) => process_loop fuel' (fed_to b c) = (Err e, fed_to b c1)
  | (Panic, _) => False
  end.
Proof.
  revert fuel' c. induction fuel as [|fuel IH]; intros [|fuel'] c H Hb Hr Hf Hf'; try lia.
  pose proof (decode_feed (frame_decoder c) b (wf_frames c H) Hb) as Hfeed. unfold feed_commutes in Hfeed.
  pose proof (len_nonneg b) as Hn.
  assert (room (undecoded c) c) as Hr0 by (intros sid; specialize (Hr sid); lia).
  rewrite !process_loop_turn. change (frame_decoder (fed_to b c)) with (FrameDecoder.feed b (frame_decoder c)) in *.
  destruct (FrameDecoder.decode (frame_decoder c)) as [r d] eqn:E.
  destruct (turn_safe_spec c r d H Hr0 E) as [H1 Ht].
  assert (r <> Ok None -> FrameDecoder.decode (FrameDecoder.feed b (frame_decoder c)) = (r, FrameDecoder.feed b d)) as Hd
    by by destruct r as [[]| |].
  assert (forall X : M unit, feeds X -> (FrameDecoder.measure d < FrameDecoder.measure (frame_decoder c))%nat ->
    turn_safe d X c ->
    match (X ;! process_loop fuel) (with_decoder d c) with
    | (Ok _, c1) => (X ;! process_loop fuel') (fed_to b (with_decoder d c)) = process (fed_to b c1)
    | (Err e, c1) => (X ;! process_loop fuel') (fed_to b (with_decoder d c)) = (Err e, fed_to b c1)
    | (Panic, _) => False
    end) as Hgo.
  { intros X HX Hmd Hs. unfold turn_safe, wp in Hs. unfold bind. rewrite HX.
    destruct (X (with_decoder d c)) as [[a|e|] c2]; cbn; [|done|done]. destruct Hs as [Hp Hfd].
    apply IH; [apply Hp|done|by eapply proceeds_room_more|rewrite Hfd; lia|].
    change (frame_decoder (fed_to b c2)) with (FrameDecoder.feed b (frame_decoder c2)).
    rewrite Hfd. rewrite measure_feed in *. lia. }
  destruct r as [[f|]|e|]; [| | |done].
  - rewrite Hd by done. destruct Ht. by apply Hgo; [apply frame_feeds|..].
  - cbn [turn]. rewrite Hfeed. unfold ret. change (fed_to b (with_decoder d c)) with (with_decoder (FrameDecoder.feed b d) c).
    destruct Ht as [Hp Hmd]. set (c2 := with_decoder (FrameDecoder.feed b d) c).
    assert (wf c2) as H2 by (apply with_decoder_wf; [done|by apply feed_wf; [|apply (wf_frames _ H1)]]).
    assert (room (undecoded c2) c2) as Hr2.
    { intros sid. pose proof (proceeds_room_more (len b) _ _ Hp Hr sid) as Hc. unfold undecoded in *. cbn in *.
      rewrite len_app. exact Hc. }
    transitivity (process_loop (S fuel') c2); [by rewrite process_loop_turn|].
    assert (FrameDecoder.measure (frame_decoder c2) <= FrameDecoder.measure (frame_decoder c) + length b)%nat as Hm.
    { change (frame_decoder c2) with (FrameDecoder.feed b d). rewrite measure_feed. lia. }
    rewrite measure_feed in Hf'. by apply loop_fuel; [..|lia|lia].
  - rewrite Hd by done. cbn [turn]. destruct (Error.is_stream_error e).
    + destruct Ht. by apply Hgo; [apply decode_error_feeds|..].
    + done.
Qed.
Lemma process_feed b c :
  wf c -> bytes_ok b -> room (undecoded c + len b) c ->
  match process c with
  | (Ok _, c1) => process (fed_to b c) = process (fed_to b c1)
  | (Err e, c1) => process (fed_to b c) = (Err e, fed_to b c1)
  | (Panic, _) => False
  end.
Proof. intros. apply loop_feed; [done..|apply Nat.lt_succ_diag_r|apply Nat.lt_succ_diag_r]. Qed.
End chunks.

(** ** Lemmas: the preface *)

(** [feed] while the preface of a client is awaited. *)
Definition awaiting (c : t) : Prop := role c = Role.Server /\ preface_received c = false.

Lemma fed_to_nil c : fed_to [] c = c.
Proof.
  unfold fed_to. replace (FrameDecoder.feed [] (frame_decoder c)) with (frame_decoder c); [by destruct c|].
  unfold FrameDecoder.feed. destruct (frame_decoder c). cbn. by rewrite app_nil_r.
Qed.

(** What of [data] belongs to the preface, and the state it leads to. *)
Definition preface_part (data : list Z) (c : t) : Z :=
  Z.min (len data) (CONNECTION_PREFACE_LEN - len (preface_buffer c)).
Definition prefix_after (data : list Z) (c : t) : list Z :=
  preface_buffer c ++ take (Z.to_nat (preface_part data c)) data.
Definition invalid_preface : Error.t :=
  Error.connection_error ErrorCode.ProtocolError "invalid client connection preface".

Lemma feed_open data c : ~ awaiting c -> feed data c = (Ok (len data), fed_to data c).
Proof.
  intros Hc. unfold feed, bind at 1 2, gets at 1 2.
  replace (_ && _) with false; [done|]. symmetry. apply andb_false_iff. unfold awaiting in Hc.
  destruct (preface_received c); [by right|]. left. apply bool_decide_false. tauto.
Qed.

Lemma feed_awaiting data c :
  awaiting c -> wf c ->
  let pb := prefix_after data c in
  let c1 := c <| preface_buffer := pb |> in
  feed data c =
    if negb (bytes_eqb pb (take (length pb) CONNECTION_PREFACE)) then (Err invalid_preface, c1)
    else if len pb <? CONNECTION_PREFACE_LEN then (Ok (len data), c1)
    else (Ok (len data), fed_to (drop (Z.to_nat (preface_part data c)) data) (c1 <| preface_received := true |>)).
Proof.
  intros [Hr Hp] H. cbv zeta. pose proof (len_nonneg data) as Hd. pose proof (wf_preface c H) as Hl.
  pose proof (len_nonneg (preface_buffer c)) as Hn. unfold feed, bind at 1 2, gets at 1 2.
  rewrite Hr, Hp. cbn [negb andb bool_decide]. rewrite bool_decide_true by done. cbn [andb].
  unfold bind at 1, gets at 1, sub_usize. replace (_ <? _) with false by lia.
  unfold bind at 1, lift at 1. cbv zeta. fold (preface_part data c). set (k := preface_part data c).
  assert (0 <= k <= len data) as Hk by (unfold k, preface_part; lia).
  rewrite slice_spec by lia. unfold bind at 1, lift at 1. unfold bind at 1, modify at 1. unfold bind at 1, gets at 1.
  change (Z.to_nat 0) with 0%nat. rewrite drop_0, Z.sub_0_r. fold k.
  change (preface_buffer c ++ take (Z.to_nat k) data) with (prefix_after data c).
  set (pb := prefix_after data c). set (c1 := c <| preface_buffer := _ |>).
  change (preface_buffer c1) with pb.
  assert (len pb <= 24) as Hpb.
  { unfold pb, prefix_after. fold k. rewrite len_app, len_take. unfold k, preface_part, CONNECTION_PREFACE_LEN in *. lia. }
  rewrite slice_spec by (pose proof (len_nonneg pb); lia || exact Hpb).
  unfold bind at 1, lift at 1. rewrite Z.sub_0_r, drop_0. unfold len at 1. rewrite Nat2Z.id.
  destruct (negb (bytes_eqb _ _)); [done|]. destruct (_ <? _); [done|].
  unfold bind at 1, modify at 1. rewrite slice_from_spec by lia. unfold bind at 1, lift at 1.
  set (rest := drop _ _). destruct (0 <? len rest) eqn:E; [done|].
  assert (rest = []) as -> by (apply len_zero_nil; pose proof (len_nonneg rest); zbool; lia).
  by rewrite fed_to_nil.
Qed.

Lemma fed_to_app a b c : fed_to b (fed_to a c) = fed_to (a ++ b) c.
Proof. unfold fed_to, with_decoder, FrameDecoder.feed. cbn. by rewrite app_assoc. Qed.

(** ** Lemmas: two chunks as one *)

Section deliver.
Context {O : HashOrder} {HL : HashOrderLaws O} (HO : order_ignores_decoder O).

(** How delivering [b] after the outcome of delivering [a] relates to delivering
    both at once. *)
Definition merges (a b : list Z) (c : t) : Prop :=
  match deliver a c with
  | (Ok _, c1) => deliver (a ++ b) c = deliver b c1
  | (Err e, c1) => exists c2, deliver (a ++ b) c = (Err e, c2) /\ same_but_input c1 c2
  | (Panic, _) => False
  end.

Lemma deliver_eq data c :
  deliver data c = let '(r, c1) := feed data c in
                   match r with Ok _ => process c1 | Err e => (Err e, c1) | Panic => (Panic, c1) end.
Proof. unfold deliver, bind. by destruct (feed data c) as [[]]. Qed.

Lemma same_but_input_fed c b pb : same_but_input c (fed_to b (c <| preface_buffer := pb |>)).
Proof. by exists (FrameDecoder.feed b (frame_decoder c)), pb. Qed.

(** The mode of [feed] does not change while frames are processed. *)
Lemma process_open c c1 r :
  wf c -> room (undecoded c) c -> ~ awaiting c -> process c = (r, c1) -> ~ awaiting c1.
Proof.
  intros H Hr Hc E. pose proof (process_ok c H Hr) as Hp. unfold wp in Hp. rewrite E in Hp.
  assert (r = Panic \/ proceeds c c1) as [->|[_ (n & _ & He & _)]] by (destruct r; auto); [done|].
  unfold awaiting. rewrite (ev_role _ _ _ He), (ev_received _ _ _ He). exact Hc.
Qed.

Lemma merges_open a b c :
  wf c -> bytes_ok a -> bytes_ok b -> room (undecoded c + len a + len b) c -> ~ awaiting c -> merges a b c.
Proof.
  intros H Ha Hb Hr Hc. unfold merges. rewrite !deliver_eq, !feed_open by done. rewrite <- fed_to_app.
  set (c0 := fed_to a c). assert (wf c0) as H0.
  { apply with_decoder_wf; [done|by apply feed_wf; [|apply (wf_frames _ H)]]. }
  assert (undecoded c0 = undecoded c + len a) as Hu by (unfold undecoded; cbn; by rewrite len_app).
  assert (room (undecoded c0 + len b) c0) as Hr0 by (intros sid; rewrite Hu; apply (Hr sid)).
  pose proof (process_feed HO b c0 H0 Hb Hr0) as Hp. destruct (process c0) as [[u|e|] c1] eqn:E; [| |done].
  - rewrite deliver_eq, feed_open; [exact Hp|]. eapply process_open; [exact H0| |exact Hc|exact E].
    intros sid. specialize (Hr0 sid). pose proof (len_nonneg b). lia.
  - exists (fed_to b c1). split; [exact Hp|]. exists (FrameDecoder.feed b (frame_decoder c1)), (preface_buffer c1). by destruct c1.
Qed.
Lemma deliver_awaiting data c :
  awaiting c -> wf c ->
  let pb := prefix_after data c in
  let c1 := c <| preface_buffer := pb |> in
  deliver data c =
    if negb (bytes_eqb pb (take (length pb) CONNECTION_PREFACE)) then (Err invalid_preface, c1)
    else if len pb <? CONNECTION_PREFACE_LEN then process c1
    else deliver (drop (Z.to_nat (preface_part data c)) data) (c1 <| preface_received := true |>).
Proof.
  intros Hc H. cbv zeta. rewrite deliver_eq, feed_awaiting by done. destruct (negb _); [done|].
  destruct (_ <? _); [done|]. rewrite deliver_eq, feed_open; [done|]. by intros [_ [=]].
Qed.

Lemma prefix_app_bad (l x p : list Z) :
  bytes_eqb (l ++ x) (take (length (l ++ x)) p) = true -> bytes_eqb l (take (length l) p) = true.
Proof.
  rewrite !bytes_eqb_eq. intros E. apply (f_equal (take (length l))) in E.
  rewrite take_app_length, take_take, length_app in E. rewrite E at 1. f_equal. lia.
Qed.

(** The preface as two chunks bring it. *)
Lemma preface_split a b c :
  len (preface_buffer c) <= CONNECTION_PREFACE_LEN -> len a < CONNECTION_PREFACE_LEN - len (preface_buffer c) ->
  let c1 := c <| preface_buffer := prefix_after a c |> in
  len (prefix_after a c) < CONNECTION_PREFACE_LEN /\
  prefix_after (a ++ b) c = prefix_after b c1 /\
  drop (Z.to_nat (preface_part (a ++ b) c)) (a ++ b) = drop (Z.to_nat (preface_part b c1)) b.
Proof.
  intros Hl Hs c1. pose proof (len_nonneg a). pose proof (len_nonneg b).
  assert (prefix_after a c = preface_buffer c ++ a) as Hpb.
  { unfold prefix_after, preface_part. rewrite Z.min_l by lia. unfold len. by rewrite Nat2Z.id, firstn_all. }
  assert (preface_part (a ++ b) c = len a + preface_part b c1) as Hk.
  { unfold preface_part. change (preface_buffer c1) with (prefix_after a c). rewrite Hpb, !len_app. lia. }
  assert (0 <= preface_part b c1) as Hm.
  { unfold preface_part. change (preface_buffer c1) with (prefix_after a c). rewrite Hpb, len_app. lia. }
  assert (Z.to_nat (preface_part (a ++ b) c) = length a + Z.to_nat (preface_part b c1))%nat as Hnat
    by (rewrite Hk; unfold len; lia).
  split_and!.
  - rewrite Hpb, len_app. lia.
  - unfold prefix_after at 1 2. rewrite Hnat. change (preface_buffer c1) with (prefix_after a c).
    by rewrite take_app_add, Hpb, app_assoc.
  - by rewrite Hnat, drop_app_add.
Qed.

Lemma merges_prefix a b c :
  wf c -> awaiting c -> fresh c -> len a < CONNECTION_PREFACE_LEN - len (preface_buffer c) -> merges a b c.
Proof.
  intros H Hc Hf Hs. destruct (Hf (proj1 Hc) (proj2 Hc)) as [Hfb Hfh]. pose proof (wf_preface c H) as Hl.
  destruct (preface_split a b c Hl Hs) as (Hlt & Hpre & Hdrop). unfold merges. rewrite (deliver_awaiting a c), (deliver_awaiting (a ++ b) c) by done. cbv zeta.
  rewrite Hpre, Hdrop. set (c1 := c <| preface_buffer := prefix_after a c |>) in *.
  destruct (bytes_eqb (prefix_after a c) _) eqn:E; cbn [negb].
  - replace (_ <? _) with true by lia. rewrite process_fresh by done.
    rewrite (deliver_awaiting b c1); [done|exact Hc|]. clear - H Hlt. destruct H; constructor; cbn; try assumption. lia.
  - assert (bytes_eqb (prefix_after b c1) (take (length (prefix_after b c1)) CONNECTION_PREFACE) = false) as ->.
    { apply not_true_iff_false. intros E2. apply (prefix_app_bad (prefix_after a c)) in E2. congruence. }
    cbn [negb]. eexists. split; [done|]. exists (frame_decoder c), (prefix_after b c1). by destruct c.
Qed.

Lemma merges_preface a b c :
  wf c -> bytes_ok a -> bytes_ok b -> room (undecoded c + len a + len b) c -> awaiting c -> fresh c ->
  CONNECTION_PREFACE_LEN - len (preface_buffer c) <= len a -> merges a b c.
Proof.
  intros H Ha Hb Hr Hc Hf Hs. pose proof (wf_preface c H) as Hl. pose proof (len_nonneg b).
  unfold merges. rewrite (deliver_awaiting a c), (deliver_awaiting (a ++ b) c) by done. cbv zeta.
  set (k := preface_part a c). assert (Z.to_nat k <= length a)%nat as Hk by (unfold k, preface_part, len; lia).
  assert (preface_part (a ++ b) c = k) as Hab by (unfold k, preface_part; rewrite len_app; lia).
  assert (prefix_after (a ++ b) c = prefix_after a c) as Hpre.
  { unfold prefix_after. rewrite Hab. fold k. by rewrite take_app_le. }
  rewrite Hpre, Hab, drop_app_le by done. destruct (negb _).
  { eexists. split; [done|]. exists (frame_decoder c), (prefix_after a c). by destruct c. }
  assert (len (prefix_after a c) = CONNECTION_PREFACE_LEN) as Hlen.
  { unfold prefix_after. fold k. rewrite len_app, len_take. unfold k, preface_part in *. lia. }
  replace (_ <? _) with false by lia. set (c1 := c <| preface_buffer := _ |>). 
  apply (merges_open (drop (Z.to_nat k) a) b (c1 <| preface_received := true |>)); [|by apply Forall_drop|done| |by intros [_ [=]]].
  - destruct H; constructor; cbn; try assumption. lia.
  - intros sid. specialize (Hr sid). rewrite len_drop. change (content (_ <| preface_received := true |>) sid) with (content c sid).
    change (undecoded (c1 <| preface_received := true |>)) with (undecoded c). pose proof (len_nonneg a). lia.
Qed.

Lemma merges_always a b c :
  wf c -> bytes_ok a -> bytes_ok b -> room (undecoded c + len a + len b) c -> fresh c -> merges a b c.
Proof.
  intros H Ha Hb Hr Hf. destruct (decide (role c = Role.Server)) as [Hs|Hs]; [|apply merges_open; [done..|by intros []]].
  destruct (preface_received c) eqn:Hp; [apply merges_open; [done..|unfold awaiting; rewrite Hp; by intros []]|].
  destruct (Z.lt_ge_cases (len a) (CONNECTION_PREFACE_LEN - len (preface_buffer c)));
    [by apply merges_prefix|by apply merges_preface].
Qed.
End deliver.

(** ** Lemmas: any number of chunks *)

Section deliver_all.
Context {O : HashOrder} {HL : HashOrderLaws O} (HO : order_ignores_decoder O).

Lemma deliver_call n m data c :
  used n m c -> bytes_ok data -> n + len data < 2 ^ 64 -> call_safe (n + len data) m (deliver data) c.
Proof.
  intros Hu Hb Hn. unfold call_safe, deliver.
  eapply wp_seq; [by apply feed_call| |done]. intros _ c1 [Hu1 Hl1].
  eapply wp_mono; [by apply process_call|..]; cbn; [intros ? c2 [Hu2 Hl2]|intros c2 [Hu2 Hl2]];
    (split; [done|by eapply later_trans]).
Qed.

Lemma used_room n m c k : used n m c -> n + k < 2 ^ 64 -> room (undecoded c + k) c.
Proof. intros (_ & Hn & _) Hk sid. specialize (Hn sid). lia. Qed.

Lemma deliver_all_merges chunks n m a c :
  used n m c -> fresh c -> bytes_ok a -> Forall bytes_ok chunks -> n + len (concat (a :: chunks)) < 2 ^ 64 ->
  match deliver_all (a :: chunks) c with
  | (Ok _, c1) => deliver (concat (a :: chunks)) c = (Ok tt, c1)
  | (Err e, c1) => exists c2, deliver (concat (a :: chunks)) c = (Err e, c2) /\ same_but_input c1 c2
  | (Panic, _) => False
  end.
Proof.
  intros Hu Hf Ha Hcs Hn. revert n a c Hu Hf Ha Hn. induction Hcs as [|b chunks Hb Hcs IH]; intros n a c Hu Hf Ha Hn.
  all: cbn [concat] in *; rewrite len_app in Hn; pose proof (deliver_call n m a c Hu Ha) as Hcall.
  all: change (deliver_all (a :: ?l)) with (deliver a ;! deliver_all l); unfold bind; unfold call_safe, wp in Hcall.
  - rewrite app_nil_r. rewrite len_nil in Hn. specialize (Hcall ltac:(lia)).
    destruct (deliver a c) as [[[]|e|] c1]; [done| |done]. exists c1. split; [done|].
    exists (frame_decoder c1), (preface_buffer c1). by destruct c1.
  - assert (bytes_ok (b ++ concat chunks)) as Hbc.
    { apply Forall_app. split; [done|]. by apply Forall_concat. }
    pose proof (len_nonneg (b ++ concat chunks)). specialize (Hcall ltac:(lia)).
    assert (room (undecoded c + len a + len (b ++ concat chunks)) c) as Hroom.
    { rewrite <- Z.add_assoc. eapply used_room; [done|lia]. }
    pose proof (merges_always HO a (b ++ concat chunks) c (proj1 Hu) Ha Hbc Hroom Hf) as Hm. unfold merges in Hm.
    destruct (deliver a c) as [[u|e|] c1]; [|done|done]. destruct Hcall as [Hu1 Hl1].
    rewrite Hm. apply (IH (n + len a)); [done|by apply (la_fresh _ _ Hl1)|done|lia].
Qed.
End deliver_all.

(** ** Properties *)

(** C2: How the received octets are cut into reads does not matter. From any
    connection that calls of the public methods lead to, feeding octets in
    pieces, processing after each piece, gives the same connection (streams,
    events, output, windows, header compression state) as feeding them in one
    piece and processing once; and when processing fails, both fail with the
    same error, and the connections differ only in the octets left unread. *)
Theorem connection_chunking_invariant `{HO : HashOrder, !HashOrderLaws HO} (r : Role.t) (l : Limits.t)
    (xs : list call) rs c (a : list Z) (chunks : list (list Z)) :
  order_ignores_decoder HO -> limits_ok l -> Forall call_ok xs -> settings_calls xs < 2 ^ 32 ->
  run xs (new r l) = Some (rs, c) ->
  Forall bytes_ok (a :: chunks) -> total_fed xs + len (concat (a :: chunks)) < 2 ^ 64 ->
  match deliver_all (a :: chunks) c with
  | (Ok _, c1) => deliver (concat (a :: chunks)) c = (Ok tt, c1)
  | (Err e, c1) => exists c2, deliver (concat (a :: chunks)) c = (Err e, c2) /\ same_but_input c1 c2
  | (Panic, _) => False
  end.
Proof.
  intros Ho Hl Hxs Hs Hrun Hb Hf. inversion Hb as [|? ? Ha Hcs]; subst. pose proof (len_nonneg (concat (a :: chunks))).
  destruct (run_safe xs 0 0 (new r l) (new_used r l Hl) Hxs ltac:(lia) Hs) as (rs' & c' & Hrun' & _ & Hu & Hlater).
  rewrite Hrun in Hrun'. injection Hrun' as <- <-.
  apply (deliver_all_merges Ho chunks (0 + total_fed xs) (0 + settings_calls xs)); [done| |done|done|lia].
  by apply (la_fresh _ _ Hlater).
Qed.

(** A server that receives the preface in three pieces, the second of which ends
    within a SETTINGS frame. *)
Lemma connection_chunking_invariant_witness :
  let server := new Role.Server sample_limits in
  exists c1, @deliver_all key_order [take 10 CONNECTION_PREFACE; drop 10 CONNECTION_PREFACE ++ [0; 0; 0; 4]; [0; 0; 0; 0; 0]]
               server = (Ok tt, c1) /\
    @deliver key_order (CONNECTION_PREFACE ++ [0; 0; 0; 4; 0; 0; 0; 0; 0]) server = (Ok tt, c1).
Proof.
  intros server. pose proof (@connection_chunking_invariant key_order key_order_laws Role.Server sample_limits [] [] server
    (take 10 CONNECTION_PREFACE) [drop 10 CONNECTION_PREFACE ++ [0; 0; 0; 4]; [0; 0; 0; 0; 0]]
    ltac:(done) sample_limits_ok ltac:(constructor) ltac:(done) ltac:(done)
    ltac:(repeat (constructor; [repeat (constructor; [by vm_compute|]); constructor|]); constructor) ltac:(by vm_compute)) as Hm.
  assert (fst (@deliver_all key_order [take 10 CONNECTION_PREFACE; drop 10 CONNECTION_PREFACE ++ [0; 0; 0; 4];
    [0; 0; 0; 0; 0]] server) = Ok tt) as Hd by (vm_compute; reflexivity).
  destruct (deliver_all _ server) as [r c1]. cbn in Hd. subst r. exists c1. split; [reflexivity|exact Hm].
Defined.
