(* ===== verification/ConnDeliver.v ===== *)
(** * ConnDeliver: from one connection to the other

    The octets of frames, delivered, have the effect of handling the frames; the
    fragments of a header block that of the whole block; and a request one side
    starts is reported by the other. *)

From S2P Require Import Prelude Errors StreamIds Config Flow Bounded StreamCore FrameTypes.
From S2P Require Import FrameEncode FrameDecode FrameCodec HpackInteger Syntax HpackTable HpackCodec.
From S2P Require Import Validation Stream ConnBase ConnHeaders ConnRecv ConnInv ConnSafe.
From S2P Require Import ConnSample ConnFlow ConnBlock ConnHandle ConnApi ConnIndep ConnChunks.
Import Connection Headers Handlers Invariant Block Api Delivering.

(** The decoder is between two frames. *)
Definition at_rest (d : FrameDecoder.t) : Prop :=
  FrameDecoder.buf d = [] /\ FrameDecoder.current_header d = None.

(** ** Lemmas: frames delivered are frames handled *)

Section frames.
Context {O : HashOrder} (HO : order_ignores_decoder O).

(** The outcome of [X], but for the frame decoder, which is [d] in the end if
    [X] succeeds. *)
Definition outcome_but_decoder {A} (d : FrameDecoder.t) (X : result Error.t A * t) (Y : result Error.t A * t) : Prop :=
  exists d', Y = (fst X, with_decoder d' (snd X)) /\ (is_ok (fst X) = true -> d' = d).

Lemma loop_drains d fs stop d' :
  drains d fs stop d' -> stop = None -> forall fuel c,
  FrameDecoder.wf d -> (FrameDecoder.measure d < fuel)%nat ->
  outcome_but_decoder d' (handle_frames fs c) (process_loop fuel (with_decoder d c)).
Proof.
  induction 1 as [d d' E|d e d' E|d f d1 fs stop d' E Hd IH]; intros Hstop; [|done|]; intros [|fuel] c Hw Hf; try lia.
  - rewrite process_loop_turn. change (frame_decoder (with_decoder d c)) with d. rewrite E. by exists d'.
  - pose proof (decode_turn d Hw) as Ht. rewrite E in Ht. destruct Ht as (Hw1 & _ & Hm & _). cbn [fst snd] in *.
    rewrite process_loop_turn. change (frame_decoder (with_decoder d c)) with d. rewrite E. cbn [turn handle_frames].
    unfold bind. change (with_decoder d1 (with_decoder d c)) with (with_decoder d1 c).
    rewrite (indep_handle_frame HO f d1 c). destruct (handle_frame f c) as [[[]|e|] c1]; cbn [fst snd].
    + apply IH; [done|done|lia].
    + by exists d1.
    + by exists d1.
Qed.

Lemma wires_drain m fs l :
  Forall (sendable m) fs ->
  bytes_ok (wires fs) /\ exists l', drains (FrameDecoder.mk m (wires fs) None l) fs None (FrameDecoder.mk m [] None l').
Proof.
  intros Hfs. destruct (encode_all_spec m fs FrameEncoder.new Hfs) as (bytes & Hb & Hok & Hd).
  rewrite (encode_all_wires m) in Hb by done. injection Hb as ->. by split.
Qed.

(** Delivering the octets of frames to a connection that waits for a frame. *)
Lemma deliver_wires fs c :
  ~ awaiting c -> at_rest (frame_decoder c) -> Forall (sendable (FrameDecoder.max_frame_size (frame_decoder c))) fs ->
  exists d, outcome_but_decoder d (handle_frames fs c) (deliver (wires fs) c) /\ at_rest d /\
            FrameDecoder.max_frame_size d = FrameDecoder.max_frame_size (frame_decoder c).
Proof.
  intros Hc [Hb Hh] Hfs. set (d0 := frame_decoder c) in *. set (m := FrameDecoder.max_frame_size d0) in *.
  destruct (wires_drain m fs (FrameDecoder.last_decoded_stream_id d0) Hfs) as (Hok & l' & Hd).
  exists (FrameDecoder.mk m [] None l'). split; [|done]. rewrite deliver_eq, feed_open by done.
  assert (FrameDecoder.feed (wires fs) d0 = FrameDecoder.mk m (wires fs) None (FrameDecoder.last_decoded_stream_id d0)) as He.
  { unfold FrameDecoder.feed. subst m. destruct d0. cbn in *. by subst. }
  unfold fed_to. fold d0. rewrite He. unfold process, bind at 1, gets.
  eapply loop_drains; [exact Hd|done| |apply Nat.lt_succ_diag_r]. by split.
Qed.
End frames.

(** Run the methods at the head of the program that read or change the state. *)
(** ** Lemmas: a header block in fragments *)

Section fragments.
Context {O : HashOrder}.

(** No header block is being received, and nothing of the last one is left. *)
Definition between_blocks (c : t) : Prop :=
  header_continuation_stream c = None /\ header_block_fragment c = [] /\ header_end_stream c = false.

(** While a block of [sid] is being received: what came so far. *)
Definition in_block (sid : Z) (es : bool) (l : list Z) (c : t) : t :=
  c <| header_continuation_stream := Some sid |> <| header_block_fragment := l |> <| header_end_stream := es |>.

(** A block longer than the limit. *)
Definition too_long : Error.t :=
  Error.connection_error ErrorCode.CompressionError "accumulated header block fragment exceeds size limit".

(** The CONTINUATION frames with some fragments, empty ones or not. *)
Fixpoint conts (nz : NonZeroStreamId.t) (ps : list (list Z)) : list Frame.t :=
  match ps with
  | [] => []
  | [p] => [continuation nz p true]
  | p :: ps => continuation nz p false :: conts nz ps
  end.

(** What has accumulated when the limit is exceeded, or at the end. *)
Fixpoint accumulated (max : Z) (acc : list Z) (ps : list (list Z)) : list Z :=
  match ps with
  | [] => acc
  | p :: ps => if len acc >? max then acc else accumulated max (acc ++ p) ps
  end.

Lemma accumulated_fits max acc ps : len (acc ++ concat ps) <= max -> accumulated max acc ps = acc ++ concat ps.
Proof.
  revert acc. induction ps as [|p ps IH]; intros acc H; cbn [accumulated concat] in *; [by rewrite app_nil_r|].
  rewrite app_assoc in H. pose proof H as H'. rewrite !len_app in H'. pose proof (len_nonneg p). pose proof (len_nonneg (concat ps)).
  replace (len acc >? max) with false by lia. by rewrite IH, app_assoc.
Qed.
Lemma accumulated_over max acc ps : max < len (acc ++ concat ps) -> max < len (accumulated max acc ps).
Proof.
  revert acc. induction ps as [|p ps IH]; intros acc H; cbn [accumulated concat] in *; [by rewrite app_nil_r in H|].
  destruct (len acc >? max) eqn:E; [lia|]. apply IH. by rewrite <- app_assoc.
Qed.
Lemma accumulated_at max acc ps : max < len acc -> accumulated max acc ps = acc.
Proof. destruct ps as [|p ps]; [done|]. cbn. intros H. by replace (len acc >? max) with true by lia. Qed.

(** One more fragment: refused if there are too many octets now. *)
Lemma continuation_received sid es l nz p last c :
  NonZeroStreamId.as_u32 nz = sid -> state c <> ConnectionState.WaitingPreface ->
  handle_frame (continuation nz p last) (in_block sid es l c) =
  if len (l ++ p) >? effective_max c then (Err too_long, in_block sid es (l ++ p) c)
  else if last then finish_continuation sid (in_block sid es (l ++ p) c) else (Ok tt, in_block sid es (l ++ p) c).
Proof.
  intros Hs Hst. unfold continuation, handle_frame, check_frame_allowed. runs.
  change (state (in_block sid es l c)) with (state c). rewrite bool_decide_false by done. cbn [andb]. runs.
  change (header_continuation_stream (in_block sid es l c)) with (Some sid).
  cbn [ContinuationFrame.stream_id ContinuationFrame.with_end_headers ContinuationFrame.new set_field]. rewrite Hs, Z.eqb_refl. runs.
  cbn [dispatch]. unfold handle_continuation. runs.
  change (header_continuation_stream (in_block sid es l c)) with (Some sid). unfold ok_or. runs.
  cbn [ContinuationFrame.stream_id ContinuationFrame.with_end_headers ContinuationFrame.new ContinuationFrame.header_block_fragment
       ContinuationFrame.end_headers set_field].
  rewrite Hs, Z.eqb_refl. cbn [negb]. runs.
  change ((in_block sid es l c) <| header_block_fragment := header_block_fragment (in_block sid es l c) ++ p |>) with (in_block sid es (l ++ p) c).
  unfold check_header_block_fragment_size. runs.
  change (effective_max (in_block sid es (l ++ p) c)) with (effective_max c).
  change (header_block_fragment (in_block sid es (l ++ p) c)) with (l ++ p).
  destruct (_ >? _); [done|]. runs. by destruct last.
Qed.

Lemma bind_ret_r (X : M unit) c : (X ;! ret tt) c = X c.
Proof. unfold bind. by destruct (X c) as [[[]|e|] c']. Qed.

Lemma conts_received nz es ps acc c :
  let sid := NonZeroStreamId.as_u32 nz in
  let l := accumulated (effective_max c) acc ps in
  ps <> [] -> state c <> ConnectionState.WaitingPreface -> len acc <= effective_max c ->
  handle_frames (conts nz ps) (in_block sid es acc c) =
  if len l >? effective_max c then (Err too_long, in_block sid es l c) else finish_continuation sid (in_block sid es l c).
Proof.
  cbv zeta. intros Hps Hst. revert acc. induction ps as [|p ps IH]; intros acc Hacc; [done|]. clear Hps.
  cbn [accumulated]. replace (len acc >? effective_max c) with false by lia.
  assert (forall last fs, handle_frames (continuation nz p last :: fs) (in_block (NonZeroStreamId.as_u32 nz) es acc c) =
    if len (acc ++ p) >? effective_max c then (Err too_long, in_block (NonZeroStreamId.as_u32 nz) es (acc ++ p) c)
    else ((if last then finish_continuation (NonZeroStreamId.as_u32 nz) else ret tt) ;! handle_frames fs)
           (in_block (NonZeroStreamId.as_u32 nz) es (acc ++ p) c)) as K.
  { intros last fs. cbn [handle_frames]. unfold bind at 1. rewrite (continuation_received _ _ _ nz) by done.
    destruct (_ >? _); [done|]. by destruct last. }
  destruct ps as [|q ps]; cbn [conts]; rewrite K; destruct (len (acc ++ p) >? effective_max c) eqn:E.
  - cbn [accumulated]. by rewrite E.
  - cbn [accumulated handle_frames]. rewrite E. apply bind_ret_r.
  - cbn [accumulated]. rewrite E. by rewrite E.
  - rewrite bind_ret. by apply IH; [|lia].
Qed.

Lemma frame_allowed f c :
  state c <> ConnectionState.WaitingPreface -> header_continuation_stream c = None ->
  handle_frame f c = dispatch f c.
Proof.
  intros Hst Hc. unfold handle_frame, check_frame_allowed. runs. rewrite bool_decide_false by done.
  cbn [andb]. runs. by rewrite Hc.
Qed.

(** What [begin_header_block] changes. *)
Definition begun (x y : bool) (z : Z) (c : t) : t :=
  c <| connect_established_headers_received := x |> <| header_concurrent_limit_exceeded := y |>
    <| last_recv_stream_id := z |>.

Lemma begun_eta c :
  c = begun (connect_established_headers_received c) (header_concurrent_limit_exceeded c) (last_recv_stream_id c) c.
Proof. by destruct c. Qed.

(** Methods that change nothing else. *)
Definition begins {A} (X : M A) : Prop := forall c, exists x y z, snd (X c) = begun x y z c.

Lemma begins_same {A} (X : M A) : (forall c, snd (X c) = c) -> begins X.
Proof. intros HX c. rewrite HX. do 3 eexists. apply begun_eta. Qed.
Lemma begins_bind {A B} (X : M A) (k : A -> M B) : begins X -> (forall a, begins (k a)) -> begins (bind X k).
Proof.
  intros HX Hk c. unfold bind. destruct (HX c) as (x & y & z & Hc). destruct (X c) as [[a|e|] c1]; cbn in *; [|eauto..].
  destruct (Hk a c1) as (x' & y' & z' & ->). subst c1. by exists x', y', z'.
Qed.
Lemma begins_modify (f : t -> t) : (forall c, exists x y z, f c = begun x y z c) -> begins (modify f).
Proof. exact (fun Hf => Hf). Qed.

Lemma check_concurrent_keeps sid c : snd (check_concurrent_streams_limit sid c) = c.
Proof.
  unfold check_concurrent_streams_limit. runs. destruct (contains_stream sid c); [done|]. runs.
  destruct (Settings.max_concurrent_streams _); [|done]. runs. by destruct (_ >=? _).
Qed.

Lemma begins_begin sid : begins (begin_header_block sid).
Proof.
  unfold begin_header_block. repeat (apply begins_bind; [by apply begins_same|intros]).
  case_match; [by apply begins_same|]. case_match; [by apply begins_same|].
  repeat (apply begins_bind; [|intros]); try by apply begins_same.
  - case_match; [|by apply begins_same].
    repeat (apply begins_bind; [|intros]); try by apply begins_same.
    + repeat case_match; try by apply begins_same. apply begins_modify. intros c.
      exists true, (header_concurrent_limit_exceeded c), (last_recv_stream_id c). by destruct c.
    + apply begins_same. intros c. pose proof (check_concurrent_keeps sid c) as Hk.
      unfold attempt. by destruct (check_concurrent_streams_limit sid c) as [[]].
    + case_match; [|by apply begins_same]. apply begins_modify. intros c.
      exists (connect_established_headers_received c), true, (last_recv_stream_id c). by destruct c.
  - apply begins_modify. intros c. case_match; [|do 3 eexists; apply begun_eta].
    exists (connect_established_headers_received c), (header_concurrent_limit_exceeded c), sid. by destruct c.
Qed.

Lemma seq_ret_value {A B} (X : M A) (b : B) c b' c' : (X ;! ret b) c = (Ok b', c') -> b' = b.
Proof. unfold bind, ret. destruct (X c) as [[]]; by intros [=]. Qed.

Lemma begin_header_block_begun sid c b c1 :
  begin_header_block sid c = (Ok b, c1) ->
  b = BoundedSet.contains sid (closed_streams c) /\ exists x y z, c1 = begun x y z c.
Proof.
  intros E. destruct (begins_begin sid c) as (x & y & z & Hc). rewrite E in Hc. split; [|by exists x, y, z].
  revert E. unfold begin_header_block. runs. destruct (_ && _); [done|]. destruct (_ && _); [done|].
  rewrite <- bind_assoc. apply seq_ret_value.
Qed.

Lemma await_eq sid f c :
  let l := HeadersFrame.header_block_fragment f in
  let c1 := in_block sid (HeadersFrame.end_stream f) l c in
  await_continuation sid f c = if len l >? effective_max c then (Err too_long, c1) else (Ok tt, c1).
Proof.
  cbv zeta. unfold await_continuation. rewrite !bind_modify.
  change (_ <| header_end_stream := _ |>) with (in_block sid (HeadersFrame.end_stream f) (HeadersFrame.header_block_fragment f) c).
  unfold check_header_block_fragment_size. rewrite bind_gets.
  set (c1 := in_block _ _ _ c). change (header_block_fragment c1) with (HeadersFrame.header_block_fragment f).
  change (effective_max c1) with (effective_max c). by destruct (_ >? _).
Qed.

Lemma hpack_decode_eq l hs d c :
  Decoder.decode l (hpack_decoder c) = (Ok hs, d) -> hpack_decode l c = (Ok hs, c <| hpack_decoder := d |>).
Proof. intros Hd. unfold hpack_decode. by rewrite Hd. Qed.

(** What a block that could not be decoded leaves behind. *)
Definition leftover (block : list Z) (es : bool) (c : t) : t :=
  c <| header_block_fragment := block |> <| header_end_stream := es |>.

(** The end of a block whose fragments are all there. *)
Lemma finish_continuation_eq sid es block c :
  between_blocks c ->
  finish_continuation sid (in_block sid es block c) =
  match hpack_decode block c with
  | (Ok hs, c1) => complete_header_block (StreamId.from_wire sid) hs es (BoundedSet.contains sid (closed_streams c)) c1
  | (Err e, c1) => (Err e, leftover block es c1)
  | (Panic, c1) => (Panic, leftover block es c1)
  end.
Proof.
  intros (Hc & Hf & He). unfold finish_continuation. rewrite bind_modify, bind_gets.
  set (c1 := (in_block sid es block c) <| header_continuation_stream := None |>).
  change (header_block_fragment c1) with block. unfold bind at 1, hpack_decode. change (hpack_decoder c1) with (hpack_decoder c).
  destruct (Decoder.decode block (hpack_decoder c)) as [[hs|e|] d]; cbn [map_err].
  - rewrite bind_modify, !bind_gets, bind_modify. subst c1. destruct c. cbn in Hc, Hf, He. subst. reflexivity.
  - f_equal. subst c1. destruct c. cbn in Hc, Hf, He. by subst.
  - f_equal. subst c1. destruct c. cbn in Hc, Hf, He. by subst.
Qed.

(** The state in which a block of a stream starts; [None] if it is refused. *)
Definition block_start (nz : NonZeroStreamId.t) (c : t) : option t :=
  match nz with
  | NonZeroStreamId.Client _ =>
      match begin_header_block (NonZeroStreamId.as_u32 nz) c with (Ok _, c1) => Some c1 | _ => None end
  | NonZeroStreamId.Server _ => None
  end.

(** However a header block is cut into frames, the receiver does what it does
    when the block comes in one HEADERS frame, within the limit. *)
Lemma cut_block_received h ps c :
  let nz := HeadersFrame.stream_id h in
  let es := HeadersFrame.end_stream h in
  let first := HeadersFrame.header_block_fragment h in
  let block := first ++ concat ps in
  let whole := handle_frame (headers_frame nz block es true) c in
  NonZeroStreamId.wf nz -> HeadersFrame.end_headers h = false -> ps <> [] ->
  between_blocks c -> state c <> ConnectionState.WaitingPreface ->
  handle_frames (Frame.Headers h :: conts nz ps) c =
  match block_start nz c with
  | None => whole
  | Some c1 =>
      if len block <=? effective_max c then
        match fst (Decoder.decode block (hpack_decoder c)) with
        | Ok _ => whole
        | _ => (fst whole, leftover block es (snd whole))
        end
      else (Err too_long, in_block (NonZeroStreamId.as_u32 nz) es (accumulated (effective_max c) first ps) c1)
  end.
Proof.
  intros nz es first block whole Hnz Hend Hps Hb Hst. pose proof Hb as (Hc & _).
  unfold whole. cbn [handle_frames]. rewrite !frame_allowed by done. unfold bind at 1. rewrite frame_allowed by done.
  unfold headers_frame. cbn [dispatch]. unfold handle_headers.
  cbn [HeadersFrame.stream_id HeadersFrame.end_headers HeadersFrame.end_stream HeadersFrame.header_block_fragment
       HeadersFrame.with_end_headers HeadersFrame.with_end_stream HeadersFrame.new set_field].
  rewrite Hend. fold nz. destruct nz as [cid|]; [|done]. set (nz' := NonZeroStreamId.Client cid) in *. set (sid := NonZeroStreamId.as_u32 nz').
  set (W := bind (begin_header_block sid)
    (fun p => let! hs := hpack_decode block in complete_header_block (StreamId.from nz') hs es p) c). unfold block_start. unfold nz' at 1 2.
  change (NonZeroStreamId.as_u32 nz') with sid. unfold bind at 1. destruct (begin_header_block sid c) as [[prev|e|] c1] eqn:Eb;
    [|unfold W, bind; by rewrite Eb..]. unfold W. rewrite (bind_Ok _ _ _ _ _ Eb). clear W.
  destruct (begin_header_block_begun _ _ _ _ Eb) as (-> & x & y & z & ->). set (c1 := begun x y z c).
  assert (between_blocks c1) as Hb1 by exact Hb. rewrite await_eq. fold es first.
  change (effective_max c1) with (effective_max c).
  destruct (len first >? effective_max c) eqn:E0.
  { assert (len first <= len block) by (unfold block; rewrite len_app; pose proof (len_nonneg (concat ps)); lia).
    replace (len block <=? effective_max c) with false by lia. rewrite accumulated_at by lia. done. }
  change (NonZeroStreamId.Client cid) with nz'. change sid with (NonZeroStreamId.as_u32 nz').
  rewrite (conts_received nz' es ps first c1) by (done || (change (effective_max c1) with (effective_max c); lia)).
  change (effective_max c1) with (effective_max c). destruct (len block <=? effective_max c) eqn:E1.
  2: { pose proof (accumulated_over (effective_max c) first ps). replace (_ >? _) with true by (fold block in H; lia). done. }
  rewrite accumulated_fits by (fold block; lia). fold block. replace (len block >? effective_max c) with false by lia.
  fold sid. rewrite (finish_continuation_eq sid es block c1 Hb1). unfold hpack_decode, bind.
  change (hpack_decoder c1) with (hpack_decoder c). change (closed_streams c1) with (closed_streams c).
  destruct (Decoder.decode block (hpack_decoder c)) as [[hs|e|] d]; [|done|done]. cbn [map_err fst].
  f_equal. apply (from_wire_as_u32_inv (StreamId.from nz')). by apply from_nz_wf.
Qed.

(** The cuts the sender makes. *)
Fixpoint cuts (fuel : nat) (max : Z) (l : list Z) : list (list Z) :=
  match fuel with
  | 0%nat => []
  | S fuel =>
      if len l =? 0 then []
      else
        let n := Z.min (len l) max in
        take (Z.to_nat n) l :: cuts fuel max (drop (Z.to_nat n) l)
  end.

Lemma continuations_cuts fuel nz max l :
  0 < max -> (length l <= fuel)%nat -> continuations fuel nz max l = conts nz (cuts fuel max l) /\ concat (cuts fuel max l) = l.
Proof.
  intros Hm. revert l. induction fuel as [|fuel IH]; intros l Hl; [by destruct l; [|cbn in Hl; lia]|].
  cbn [continuations cuts]. destruct (len l =? 0) eqn:E0; [split; [done|]; symmetry; apply len_zero_nil; lia|].
  set (n := Z.min (len l) max). set (rest := drop (Z.to_nat n) l).
  destruct (IH rest) as [E1 E2]; [unfold rest; rewrite length_drop; unfold len in *; lia|]. cbn [concat]. rewrite E1, E2.
  split; [|apply take_drop]. destruct (len l <=? max) eqn:E.
  - assert (rest = []) as -> by (apply len_zero_nil; unfold rest; rewrite len_drop; lia). by destruct fuel.
  - assert (0 < len rest) as Hr by (unfold rest; rewrite len_drop; lia).
    destruct fuel as [|fuel]; [unfold len, rest in *; rewrite length_drop in Hr; lia|]. cbn [cuts]. by replace (len rest =? 0) with false by lia.
Qed.

(** The blocks the sender cuts, when they are decoded. *)
Lemma block_received nz max block es hs d c :
  0 < max -> NonZeroStreamId.wf nz -> between_blocks c -> state c <> ConnectionState.WaitingPreface ->
  len block <= effective_max c -> Decoder.decode block (hpack_decoder c) = (Ok hs, d) ->
  handle_frames (block_frames nz max block es) c = handle_frame (headers_frame nz block es true) c.
Proof.
  intros Hm Hnz Hb Hst Hl Hd. unfold block_frames. destruct (len block <=? max) eqn:E; [apply bind_ret_r|]. cbv zeta.
  set (rest := drop (Z.to_nat max) block). destruct (continuations_cuts (length rest) nz max rest Hm (le_n _)) as [-> Hcat].
  assert (take (Z.to_nat max) block ++ concat (cuts (length rest) max rest) = block) as Hblock by (rewrite Hcat; apply take_drop).
  assert (cuts (length rest) max rest <> []) as Hne.
  { intros Hn. rewrite Hn in Hblock. cbn in Hblock. rewrite app_nil_r in Hblock. apply (f_equal len) in Hblock. rewrite len_take in Hblock. lia. }
  pose proof (cut_block_received (HeadersFrame.with_end_headers false (HeadersFrame.with_end_stream es (HeadersFrame.new nz (take (Z.to_nat max) block))))
    (cuts (length rest) max rest) c) as K. cbv zeta in K.
  cbn [HeadersFrame.stream_id HeadersFrame.end_headers HeadersFrame.end_stream HeadersFrame.header_block_fragment
       HeadersFrame.with_end_headers HeadersFrame.with_end_stream HeadersFrame.new set_field] in K.
  rewrite Hblock, Hd in K. unfold headers_frame at 1. rewrite K by done. cbn [fst].
  replace (len block <=? effective_max c) with true by lia. by destruct (block_start nz c).
Qed.
End fragments.

(** ** Properties *)

(** C19: Processing is handling frames. The octets of any frames within the
    decoder's limit, delivered to a connection that waits for a frame, have
    exactly the effect of handling the frames one after the other, errors
    included, and leave the decoder waiting for the next frame. *)
Theorem delivered_frames_are_handled `{HO : HashOrder} fs c :
  order_ignores_decoder HO -> ~ awaiting c -> at_rest (frame_decoder c) ->
  Forall (sendable (FrameDecoder.max_frame_size (frame_decoder c))) fs ->
  let '(r, c') := handle_frames fs c in
  exists d, deliver (wires fs) c = (r, with_decoder d c') /\
            (r = Ok tt -> at_rest d /\ FrameDecoder.max_frame_size d = FrameDecoder.max_frame_size (frame_decoder c)).
Proof.
  intros Ho Hc Hr Hfs. destruct (deliver_wires Ho fs c Hc Hr Hfs) as (d & (d' & Hd & Hok) & Hrest).
  destruct (handle_frames fs c) as [r c']. exists d'. split; [exact Hd|]. intros ->. by rewrite Hok.
Qed.

Definition sample_ping : Frame.t := Frame.Ping (PingFrame.mk false [1; 2; 3; 4; 5; 6; 7; 8]).
Definition idle_server : t := (server sample_limits) <| state := ConnectionState.Active |> <| preface_received := true |>.

Lemma delivered_frames_are_handled_witness :
  let '(r, c') := @handle_frames key_order [sample_ping; sample_ping] idle_server in
  exists d, @deliver key_order (wires [sample_ping; sample_ping]) idle_server = (r, with_decoder d c') /\
            (r = Ok tt -> at_rest d /\ FrameDecoder.max_frame_size d = FrameDecoder.max_frame_size (frame_decoder idle_server)).
Proof.
  apply (@delivered_frames_are_handled key_order [sample_ping; sample_ping] idle_server).
  - done.
  - by intros [_ Hp].
  - done.
  - assert (sendable (FrameDecoder.max_frame_size (frame_decoder idle_server)) sample_ping) as Hp; [|by repeat constructor].
    apply (sendable_shrink (FrameDecoder.max_frame_size (frame_decoder idle_server))); [|by vm_compute].
    apply sendable_ping; [repeat constructor; by vm_compute|done].
Defined.

(** C18: A header block is put together again. A block comes in a HEADERS frame
    without END_HEADERS, padded or with a priority or not, and at least one
    CONTINUATION frame, cut anywhere and with empty fragments or not. If the
    stream cannot start a block, the HEADERS frame is refused just as one with the
    whole block would be. Else, up to the limit of accumulated octets, receiving
    the frames has exactly the effect of receiving the whole block in one HEADERS
    frame: the same result, be it success or an error, and the same state; only a
    block that HPACK cannot decode, which is a connection error in both cases, is
    left behind in the buffer. A block over the limit is refused with
    COMPRESSION_ERROR at the frame that exceeds it, before anything is decoded
    (a block in one frame is not held to this limit). *)
Theorem header_block_reassembly `{HashOrder} h ps c :
  let nz := HeadersFrame.stream_id h in
  let es := HeadersFrame.end_stream h in
  let first := HeadersFrame.header_block_fragment h in
  let block := first ++ concat ps in
  let whole := handle_frame (headers_frame nz block es true) c in
  NonZeroStreamId.wf nz -> HeadersFrame.end_headers h = false -> ps <> [] ->
  between_blocks c -> state c <> ConnectionState.WaitingPreface ->
  handle_frames (Frame.Headers h :: conts nz ps) c =
  match block_start nz c with
  | None => whole
  | Some c1 =>
      if len block <=? effective_max c then
        match fst (Decoder.decode block (hpack_decoder c)) with
        | Ok _ => whole
        | _ => (fst whole, leftover block es (snd whole))
        end
      else (Err too_long, in_block (NonZeroStreamId.as_u32 nz) es (accumulated (effective_max c) first ps) c1)
  end.
Proof. apply cut_block_received. Qed.

(** The first fragment of a block that goes on. *)
Definition sample_start : HeadersFrame.t :=
  HeadersFrame.with_end_headers false (HeadersFrame.with_end_stream true (HeadersFrame.new (NonZeroStreamId.from_validated_parts 1) [130; 135])).

Lemma header_block_reassembly_witness :
  @handle_frames key_order (Frame.Headers sample_start :: conts (NonZeroStreamId.from_validated_parts 1) [[]; [132; 65; 1]; [97]]) idle_server =
  @handle_frame key_order (headers_frame (NonZeroStreamId.from_validated_parts 1) [130; 135; 132; 65; 1; 97] true true) idle_server /\
  fst (@handle_frames key_order (Frame.Headers sample_start :: conts (NonZeroStreamId.from_validated_parts 1) [[255; 255; 255]]) idle_server) =
    Err (Error.connection_error ErrorCode.CompressionError "HPACK decode error: {}").
Proof.
  pose proof (@header_block_reassembly key_order sample_start [[]; [132; 65; 1]; [97]] idle_server) as K1.
  pose proof (@header_block_reassembly key_order sample_start [[255; 255; 255]] idle_server) as K2.
  cbv zeta in K1, K2. split.
  - etrans; [apply K1; [by vm_compute|done|done|done|done]|]. vm_compute. reflexivity.
  - etrans; [apply (f_equal fst), K2; [by vm_compute|done|done|done|done]|]. vm_compute. reflexivity.
Defined.

(** Processing ends. One pass of [process] never runs out of turns: any
    bound above the octets that wait gives the same result, which is not a
    panic, and the octets that wait do not increase. *)
Theorem processing_terminates `{HO : HashOrder, !HashOrderLaws HO} n m fuel c :
  used n m c -> n < 2 ^ 64 -> (FrameDecoder.measure (frame_decoder c) < fuel)%nat ->
  process_loop fuel c = process c /\ fst (process c) <> Panic /\
  undecoded (snd (process c)) <= undecoded c.
Proof.
  intros Hu Hn Hf. pose proof Hu as (H & _). assert (room (undecoded c) c) as Hr.
  { rewrite <- (Z.add_0_r (undecoded c)). eapply used_room; [done|lia]. }
  split; [by apply loop_fuel; [..|apply Nat.lt_succ_diag_r]|]. pose proof (process_ok c H Hr) as Hp. unfold wp in Hp.
  destruct (process c) as [[u|e|] c']; cbn [fst snd]; [| |done]; (split; [done|]);
    destruct Hp as [_ (k & ? & _ & ?)]; lia.
Qed.

Lemma processing_terminates_witness :
  let c := with_decoder (FrameDecoder.feed [0; 0; 0; 4] (frame_decoder idle_server)) idle_server in
  @process_loop key_order 100 c = @process key_order c /\ fst (@process key_order c) <> Panic /\
  undecoded (snd (@process key_order c)) <= undecoded c.
Proof.
  intros c. apply (@processing_terminates key_order key_order_laws 4 0 100 c); [|lia|by vm_compute; lia].
  destruct (new_used Role.Server sample_limits sample_limits_ok) as (H & _).
  assert (wf c) as Hw.
  { apply with_decoder_wf; [|apply feed_wf; [repeat constructor; by vm_compute|apply (wf_frames _ H)]].
    destruct H; constructor; cbn in *; try assumption. }
  split; [exact Hw|]. split; [intros sid; by vm_compute|done].
Defined.
