(* ===== verification/ConnRequest.v ===== *)
(** * ConnRequest: a request from end to end

    What [start_stream] writes and what the other side makes of it: the request
    a client starts is reported by the server with the same fields, and the
    header compression state of both ends stays in step. *)

From S2P Require Import Prelude Errors StreamIds Config Flow Bounded StreamCore FrameTypes.
From S2P Require Import FrameEncode FrameDecode FrameCodec HpackInteger Syntax HpackTable HpackCodec.
From S2P Require Import Validation Stream ConnBase ConnHeaders ConnRecv ConnInv ConnSafe.
From S2P Require Import ConnSample ConnFlow ConnBlock ConnHandle ConnApi ConnIndep ConnChunks ConnDeliver.
Import Connection Headers Handlers Invariant Block Api Delivering Delivery.

(** ** Lemmas: validated requests *)

Lemma find_value_first n hs : find_value n hs = Validation.first_value (bstr n) hs.
Proof.
  induction hs as [|h hs IH]; [done|]. unfold find_value, find_header in *. cbn [List.find Validation.first_value].
  by destruct (bytes_eqb _ _).
Qed.

(** A valid request has a method, which is a pseudo-header field. *)
Lemma request_method hs :
  Validation.validate_request_headers hs = Ok tt ->
  (exists m, find_value ":method" hs = Some m) /\
  existsb (fun h => starts_with (HeaderField.name h) (bstr ":")) hs = true.
Proof.
  intros Hv. pose proof (Validation.validate_request_spec hs) as Hs. rewrite Hv in Hs. destruct Hs as [_ Hs].
  destruct Hs as [[m Hm] _]. split; [exists m; by rewrite find_value_first|].
  clear Hv. induction hs as [|h hs IH]; [done|]. cbn [existsb Validation.first_value] in Hm |- *.
  destruct (bytes_eqb _ _) eqn:E.
  - apply bytes_eqb_eq in E. by rewrite E.
  - rewrite IH by done. apply orb_true_r.
Qed.

(** ** Lemmas: the receiving side *)

Lemma stream_mut_put {A} sid (m : ST Stream.t Error.t A) s c :
  stream_mut sid m (put sid s c) = (fst (m s), put sid (snd (m s)) c).
Proof.
  unfold stream_mut, put. cbn [streams set_field]. rewrite lookup_insert_eq. destruct (m s) as [r s'].
  cbn [fst snd]. f_equal. destruct c. cbn. by rewrite insert_insert_eq.
Qed.

(** The stream a request opens at the receiver. *)
Definition requested (id : StreamId.t) (hs : list HeaderField.t) (es : bool) (cl : option Z) (c : t) : Stream.t :=
  let s := Stream.new id (WindowSize.get (Settings.initial_window_size (remote_settings c)))
             (WindowSize.get (Settings.initial_window_size (local_settings c))) in
  s <| Stream.state := StateMachine.mk (if es then StreamState.HalfClosedRemote else StreamState.Open) |>
    <| Stream.headers := concatenate_cookies hs |> <| Stream.initial_headers_received := true |>
    <| Stream.expected_content_length := cl |> <| Stream.request_method := find_value ":method" hs |>
    <| Stream.has_protocol := match find_value ":protocol" hs with Some _ => true | None => false end |>
    <| Stream.protocol := find_value ":protocol" hs |>.

(** A server that would accept the request [hs] on the stream [sid]. *)
Record accepts (sid : Z) (hs : list HeaderField.t) (es : bool) (cl : option Z) (c : t) : Prop := mk_accepts {
  ac_role : role c = Role.Server;
  ac_state : state c = ConnectionState.Active;
  ac_new : last_recv_stream_id c < sid;
  ac_stream : streams c !! sid = None;
  ac_closed : BoundedSet.contains sid (closed_streams c) = false;
  ac_limit : forall m, Settings.max_concurrent_streams (local_settings c) = Some m -> open_streams c < m;
  ac_flags : header_concurrent_limit_exceeded c = false /\ connect_established_headers_received c = false;
  ac_protocol : find_value ":protocol" hs <> None -> Settings.enable_connect_protocol (local_settings c) = true;
  ac_length : extract_content_length hs = Ok cl;
  ac_content : es = true -> cl = None \/ cl = Some 0
}.

Lemma begin_accepted sid hs es cl c :
  accepts sid hs es cl c -> begin_header_block sid c = (Ok false, c <| last_recv_stream_id := sid |>).
Proof.
  intros []. unfold begin_header_block. runs. rewrite ac_state0, ac_closed0. rewrite bool_decide_false by done.
  unfold contains_stream. rewrite ac_stream0. cbn [andb negb]. replace (_ <=? _) with false by lia. runs.
  rewrite ac_stream0. runs.
  assert (check_concurrent_streams_limit sid c = (Ok tt, c)) as Hlim.
  { unfold check_concurrent_streams_limit. runs. unfold contains_stream. rewrite ac_stream0. cbn. runs.
    destruct (Settings.max_concurrent_streams _) as [m|]; [|done]. specialize (ac_limit0 m eq_refl). runs.
    by replace (_ >=? _) with false by lia. }
  rewrite (bind_Ok _ _ c (Ok tt) c) by (unfold attempt; by rewrite Hlim). cbn [is_err]. runs.
  by replace (_ >? _) with true by lia.
Qed.

(** What the receiver becomes. *)
Definition request_event (id : StreamId.t) (hs : list HeaderField.t) (es : bool) : Event.t :=
  Event.HeadersReceived id (concatenate_cookies hs) es (find_value ":protocol" hs).

Definition request_processed (id : StreamId.t) (hs : list HeaderField.t) (es : bool) (cl : option Z) (c : t) : t :=
  (put (StreamId.as_u32 id) (requested id hs es cl c) c) <| events := events c ++ [request_event id hs es] |>.

Lemma ensure_new id c :
  streams c !! StreamId.as_u32 id = None ->
  ensure_stream id c =
  (Ok tt, put (StreamId.as_u32 id) (Stream.new id (WindowSize.get (Settings.initial_window_size (remote_settings c)))
             (WindowSize.get (Settings.initial_window_size (local_settings c)))) c).
Proof. intros Hs. unfold ensure_stream, modify. by rewrite Hs. Qed.

Lemma ensure_known id s c : ensure_stream id (put (StreamId.as_u32 id) s c) = (Ok tt, put (StreamId.as_u32 id) s c).
Proof. unfold ensure_stream, modify, put. cbn [streams set_field]. by rewrite lookup_insert_eq. Qed.

(** The stream once its request line was noted. *)
Definition noted (id : StreamId.t) (hs : list HeaderField.t) (c : t) : Stream.t :=
  (Stream.new id (WindowSize.get (Settings.initial_window_size (remote_settings c)))
             (WindowSize.get (Settings.initial_window_size (local_settings c))))
    <| Stream.request_method := find_value ":method" hs |>
    <| Stream.has_protocol := match find_value ":protocol" hs with Some _ => true | None => false end |>
    <| Stream.protocol := find_value ":protocol" hs |>.

Lemma check_received_request id hs es c :
  role c = Role.Server -> streams c !! StreamId.as_u32 id = None ->
  Validation.validate_request_headers hs = Ok tt ->
  (find_value ":protocol" hs <> None -> Settings.enable_connect_protocol (local_settings c) = true) ->
  check_received id hs es false c = (Ok true, put (StreamId.as_u32 id) (noted id hs c) c).
Proof.
  intros Hr Hs Hv Hp. destruct (request_method hs Hv) as [[m Hm] _]. unfold check_received. runs. rewrite Hr.
  rewrite Hv. runs. rewrite (bind_Ok _ _ c (Ok tt) c) by done. cbn [is_err]. runs.
  replace (_ && negb (Settings.enable_connect_protocol _)) with false
    by (destruct (find_value ":protocol" hs); [by rewrite Hp|done]).
  rewrite Hm. runs. rewrite (bind_Ok _ _ _ _ _ (ensure_new id c Hs)).
  erewrite bind_Ok; [reflexivity|]. rewrite stream_mut_put. unfold noted. rewrite Hm. by destruct (find_value ":protocol" hs).
Qed.

Lemma accept_request id hs es cl c :
  role c = Role.Server -> (es = true -> cl = None \/ cl = Some 0) ->
  accept_headers id hs es false cl (put (StreamId.as_u32 id) (noted id hs c) c) =
  (Ok tt, request_processed id hs es cl c).
Proof.
  intros Hr Hcl. unfold accept_headers. rewrite (bind_Ok _ _ _ _ _ (ensure_known id _ c)).
  set (sid := StreamId.as_u32 id). set (s1 := (noted id hs c) <| Stream.state := StateMachine.mk (if es then StreamState.HalfClosedRemote else StreamState.Open) |>).
  rewrite (bind_Ok _ _ _ (Ok tt) (put sid s1 c)) by (unfold attempt; rewrite stream_mut_put; by destruct es).
  cbn [is_err]. cbv zeta.
  set (s2 := s1 <| Stream.headers := concatenate_cookies hs |>).
  rewrite (bind_Ok _ _ _ tt (put sid s2 c)) by by rewrite stream_mut_put.
  set (s3 := s2 <| Stream.expected_content_length := cl |>).
  rewrite (bind_Ok _ _ _ tt (put sid s3 c)) by by rewrite stream_mut_put.
  set (s4 := s3 <| Stream.initial_headers_received := true |>).
  rewrite (bind_Ok _ _ _ true (put sid s4 c)).
  2:{ unfold note_initial_headers. rewrite (bind_Ok _ _ _ false (put sid s3 c)) by by rewrite stream_mut_put.
      runs. change (role (put sid s3 c)) with (role c). rewrite Hr.
      by rewrite (bind_Ok _ _ _ tt (put sid s4 c)) by by rewrite stream_mut_put. }
  cbn [negb]. rewrite (bind_Ok _ _ _ s4 (put sid s4 c)) by by rewrite stream_mut_put.
  runs. change (role (put sid s4 c)) with (role c). rewrite Hr.
  replace (es && _ && _) with false by (destruct es; [destruct Hcl as [->| ->]|]; done).
  unfold push_event. runs. unfold finish_headers. change (events (put sid s4 c)) with (events c).
  change (Stream.protocol s4) with (find_value ":protocol" hs).
  set (c1 := (put sid s4 c) <| events := _ |>).
  assert (c1 = put sid s4 (c <| events := events c ++ [request_event id hs es] |>)) as -> by done.
  rewrite (bind_Ok _ _ _ false (put sid s4 (c <| events := events c ++ [request_event id hs es] |>)))
    by (rewrite stream_mut_put; by destruct es).
  done.
Qed.

Lemma process_request id hs es cl c :
  role c = Role.Server -> streams c !! StreamId.as_u32 id = None ->
  Validation.validate_request_headers hs = Ok tt ->
  (find_value ":protocol" hs <> None -> Settings.enable_connect_protocol (local_settings c) = true) ->
  extract_content_length hs = Ok cl -> (es = true -> cl = None \/ cl = Some 0) ->
  process_headers id hs es c = (Ok tt, request_processed id hs es cl c).
Proof.
  intros Hr Hs Hv Hp Hl Hcl. destruct (request_method hs Hv) as [_ Hpseudo]. unfold process_headers. rewrite Hpseudo. runs.
  rewrite Hs. cbn [negb andb].
  rewrite (bind_Ok _ _ _ _ _ (check_received_request id hs es c Hr Hs Hv Hp)). cbn [negb].
  rewrite Hl. rewrite (bind_Ok (attempt (lift (Ok cl))) _ _ (Ok cl) _ eq_refl). by apply accept_request.
Qed.

Definition request_received (nz : NonZeroStreamId.t) (hs : list HeaderField.t) (es : bool) (cl : option Z)
    (d : Decoder.t) (c : t) : t :=
  let sid := NonZeroStreamId.as_u32 nz in
  (request_processed (StreamId.from nz) hs es cl (c <| last_recv_stream_id := sid |> <| hpack_decoder := d |>))
    <| last_successful_stream_id := Z.max sid (last_successful_stream_id c) |>.

Lemma same_successful c : c = c <| last_successful_stream_id := last_successful_stream_id c |>.
Proof. by destruct c. Qed.

Lemma receive_request `{HashOrder} nz block hs es cl d c :
  accepts (NonZeroStreamId.as_u32 nz) hs es cl c -> NonZeroStreamId.as_u32 nz mod 2 = 1 -> NonZeroStreamId.wf nz ->
  header_continuation_stream c = None ->
  Validation.validate_request_headers hs = Ok tt -> Decoder.decode block (hpack_decoder c) = (Ok hs, d) ->
  handle_frame (headers_frame nz block es true) c = (Ok tt, request_received nz hs es cl d c).
Proof.
  intros Ha Hodd Hwf Hcont Hv Hd. pose proof Ha as []. rewrite frame_allowed by (done || by rewrite ac_state0).
  unfold headers_frame. cbn [dispatch]. unfold handle_headers.
  cbn [HeadersFrame.stream_id HeadersFrame.end_headers HeadersFrame.end_stream HeadersFrame.header_block_fragment
       HeadersFrame.with_end_headers HeadersFrame.with_end_stream HeadersFrame.new set_field].
  destruct nz as [cid|[n]]; [|by destruct Hwf as [_ Hwf]; cbn in *; lia].
  set (nz := NonZeroStreamId.Client cid) in *. set (sid := NonZeroStreamId.as_u32 nz) in *.
  change (NonZeroStreamId.as_u32 (NonZeroStreamId.Client cid)) with sid.
  rewrite (bind_Ok _ _ _ _ _ (begin_accepted sid hs es cl c Ha)). set (c1 := c <| last_recv_stream_id := sid |>).
  rewrite (bind_Ok _ _ _ _ _ (hpack_decode_eq block hs d c1 Hd)). set (c2 := c1 <| hpack_decoder := d |>).
  change (NonZeroStreamId.Client cid) with nz. set (id := StreamId.from nz).
  unfold complete_header_block. change (StreamId.as_u32 id) with sid. runs.
  unfold is_stream_closed. change (streams c2) with (streams c). rewrite ac_stream0. cbn [orb]. runs.
  change (header_concurrent_limit_exceeded c2) with (header_concurrent_limit_exceeded c). rewrite (proj1 ac_flags0). runs.
  change (connect_established_headers_received c2) with (connect_established_headers_received c). rewrite (proj2 ac_flags0).
  rewrite (bind_Ok _ _ c2 tt (request_processed id hs es cl c2)) by by apply process_request.
  unfold note_successful, modify, request_received. f_equal. fold sid id.
  change (last_successful_stream_id (request_processed id hs es cl c2)) with (last_successful_stream_id c).
  change ((c <| last_recv_stream_id := sid |>) <| hpack_decoder := d |>) with c2.
  destruct (sid >? _) eqn:E; zbool; [by rewrite Z.max_l by lia|rewrite Z.max_r by lia].
  exact (same_successful (request_processed id hs es cl c2)).
Qed.

(** ** Lemmas: the sending side *)

Lemma continuations_sendable fuel nz max l :
  NonZeroStreamId.wf nz -> bytes_ok l -> 0 < max <= MAX_MAX_FRAME_SIZE ->
  Forall (sendable max) (continuations fuel nz max l).
Proof.
  intros Hnz Hb Hm. revert l Hb. induction fuel as [|fuel IH]; intros l Hb; [constructor|]. cbn [continuations].
  destruct (len l =? 0); [constructor|]. pose proof (len_nonneg l). constructor; [|apply IH; by apply Forall_drop].
  apply sendable_shrink; [apply sendable_continuation; [done|by apply Forall_take|rewrite len_take; lia]|].
  change (FrameEncoder.payload_len _) with (len (take (Z.to_nat (Z.min (len l) max)) l)). rewrite len_take. lia.
Qed.

Lemma block_frames_sendable nz max block es :
  NonZeroStreamId.wf nz -> bytes_ok block -> 0 < max <= MAX_MAX_FRAME_SIZE ->
  Forall (sendable max) (block_frames nz max block es).
Proof.
  intros Hnz Hb Hm. assert (forall d eh, bytes_ok d -> len d <= max -> sendable max (headers_frame nz d es eh)) as Hh.
  { intros d eh Hd Hl. apply sendable_shrink; [by apply sendable_headers; [..|lia]|]. unfold FrameEncoder.payload_len. cbn. by rewrite app_nil_r. }
  unfold block_frames. destruct (len block <=? max) eqn:E; zbool; [by repeat constructor; apply Hh|]. cbv zeta.
  constructor; [|by apply continuations_sendable; [|apply Forall_drop|]].
  apply Hh; [by apply Forall_take|]. rewrite len_take. lia.
Qed.

(** A successful [start_stream]. *)
Record started (hs : list HeaderField.t) (es : bool) (nz : NonZeroStreamId.t) (block : list Z) (e : Encoder.t) (c c' : t) : Prop :=
  mk_started {
  st_valid : Validation.validate_request_headers hs = Ok tt;
  st_role : role c = Role.Client;
  st_id : NonZeroStreamId.as_u32 nz = next_stream_id c;
  st_nz : NonZeroStreamId.wf nz;
  st_next : next_stream_id c' = next_stream_id c + 2;
  st_block : Encoder.encode (hpack_encoder c) [] hs = Ok (block, e);
  st_encoder : hpack_encoder c' = e;
  st_output : output_buffer c' = output_buffer c ++ wires (block_frames nz (peer_max_frame c) (owed_updates c ++ block) es);
  st_frames : Forall (sendable (peer_max_frame c)) (block_frames nz (peer_max_frame c) (owed_updates c ++ block) es)
}.

(** The stream record of a started stream does not matter for the block. *)
Lemma start_stream_started hs es c id c' :
  wf c -> headers_ok hs -> start_stream hs es c = (Ok id, c') ->
  exists nz block e, id = StreamId.from nz /\ started hs es nz block e c c'.
Proof.
  intros H Hh. unfold start_stream. intros E. apply bind_inv_Ok in E as ([] & c0 & Ev & E).
  unfold lift in Ev. injection Ev as Hv <-. revert E. runs. case_bool_decide as Hr; [done|].
  case_bool_decide; [done|]. runs. destruct (match Settings.max_concurrent_streams _ with Some _ => _ | None => _ end); [done|].
  cbv zeta. destruct (match find_value ":protocol" hs with Some _ => true | None => false end && _); [done|].
  destruct (match find_value ":protocol" hs with Some _ => _ | None => _ end && _); [done|].
  intros E. apply bind_inv_Ok in E as ([] & c0 & El & E).
  assert (c0 = c) as -> by (revert El; unfold check_peer_header_list_size; runs;
    destruct (Settings.max_header_list_size _); [destruct (_ >? _)|]; by intros [= <-]).
  clear El. revert E. runs. destruct (next_stream_id c >? STREAM_ID_MAX) eqn:Emax; [done|]. zbool.
  pose proof (wf_next c H) as Hn. assert (role c = Role.Client) as Hc by (by destruct (role c)).
  pose proof (wf_parity c H Hc) as Hpar. set (sid := next_stream_id c) in *.
  intros E. apply bind_inv_Ok in E as (nz & c0 & Enz & E). unfold expect_non_zero, lift in Enz. injection Enz as Enz <-.
  assert (StreamId.wf (StreamId.from_wire sid)) as Hidw by (apply from_wire_wf; lia).
  assert (StreamId.from nz = StreamId.from_wire sid /\ NonZeroStreamId.wf nz) as [Hfrom Hnz].
  { revert Enz. destruct (StreamId.from_wire sid); cbn; [done|..]; by intros [= <-]. }
  assert (NonZeroStreamId.as_u32 nz = sid) as Hsid by by rewrite <- from_nz_as_u32, Hfrom, from_wire_as_u32.
  revert E. rewrite bind_modify, bind_gets. set (c1 := c <| next_stream_id := _ |>).
  destruct (next_id_good c H Hc Emax) as [H1 _]. fold c1 in H1.
  pose proof (wf_remote c H) as (_ & _ & Hw & _). pose proof (wf_local c1 H1) as (_ & _ & Hl & _).
  set (s0 := Stream.new _ _ _). assert (Stream.wf s0) as Hs0 by (apply stream_new_wf; [exact Hw|exact Hl]).
  pose proof (begin_request_sop hs es s0 Hs0) as Hm. unfold sop, wp in Hm.
  destruct (begin_request hs es s0) as [[a|e|] s1]; [|done|done]. destruct Hm as [Hs1 Hrc].
  rewrite bind_lift_Ok, bind_modify. change (c1 <| streams := _ |>) with (put sid s1 c1).
  assert (wf (put sid s1 c1)) as H2 by (apply (insert_stream_good sid s1 c1); [done|split; [lia|done]|done|done]).
  set (c2 := put sid s1 c1) in *. intros E. apply bind_inv_Ok in E as (block & c3 & Ee & E).
  pose proof (hpack_encode_wp hs c2 H2 Hh) as Hwp. unfold wp in Hwp. rewrite Ee in Hwp. destruct Hwp as [[H3 _] Hb].
  unfold hpack_encode in Ee. destruct (Encoder.encode (hpack_encoder c2) [] hs) as [[out e]|e|] eqn:Eenc; [|done|done].
  injection Ee as -> <-. revert E. set (c3 := c2 <| hpack_encoder := e |>) in *.
  rewrite (bind_Ok _ _ _ _ _ (send_header_block_eq nz block es c3 H3 Hnz Hb)). intros [= <- <-].
  exists nz, block, e. split; [done|]. pose proof (peer_max_bounds c H). constructor; try done.
  apply block_frames_sendable; [done| |lia]. apply bytes_ok_app. split; [by apply owed_updates_ok|done].
Qed.

(** ** Properties *)

(** C3: A request is delivered. When [start_stream] succeeds, the octets it adds
    to the output, delivered to a server that waits for a frame and would accept
    the request (its limits allow it, the header compression states of both ends
    are in step and no table size update is owed), make the server report exactly
    that request: one HeadersReceived event on the same stream, with the fields
    in order, the cookies joined, END_STREAM and the extended CONNECT protocol as
    sent. The stream is then open, or half-closed by the client if the request
    ended, and both ends are ready for the next header block. *)
Theorem request_is_delivered `{HO : HashOrder, !HashOrderLaws HO} hs es cl c id c' s :
  order_ignores_decoder HO -> wf c -> headers_ok hs -> pending_table_size_update c = None ->
  start_stream hs es c = (Ok id, c') ->
  accepts (next_stream_id c) hs es cl s ->
  ~ awaiting s -> at_rest (frame_decoder s) -> between_blocks s ->
  peer_max_frame c <= FrameDecoder.max_frame_size (frame_decoder s) ->
  (forall block e, Encoder.encode (hpack_encoder c) [] hs = Ok (block, e) -> len block <= effective_max s) ->
  sync (hpack_encoder c) (hpack_decoder s) -> within_limit (hpack_decoder s) (Decoder.list_size hs) ->
  exists sent s' st,
    output_buffer c' = output_buffer c ++ sent /\
    deliver sent s = (Ok tt, s') /\
    events s' = events s ++ [Event.HeadersReceived id (concatenate_cookies hs) es (find_value ":protocol" hs)] /\
    StreamId.as_u32 id = next_stream_id c /\ last_recv_stream_id s' = next_stream_id c /\
    streams s' !! next_stream_id c = Some st /\
    Stream.get_state st = (if es then StreamState.HalfClosedRemote else StreamState.Open) /\
    sync (hpack_encoder c') (hpack_decoder s') /\ between_blocks s' /\ at_rest (frame_decoder s').
Proof.
  intros Ho H Hh Hp Hstart Ha Haw Hrest Hb Hmax Heff Hsync Hlim.
  destruct (start_stream_started hs es c id c' H Hh Hstart) as (nz & block & e & -> & []).
  assert (owed_updates c = []) as Hnil by (unfold owed_updates; by rewrite Hp).
  rewrite Hnil in st_output0, st_frames0. cbn [app] in st_output0, st_frames0.
  destruct (decode_encode hs _ _ Hsync (proj1 Hh) Hlim) as (out & e' & d & He & Hout & Hd & Hsync' & _).
  rewrite st_block0 in He. injection He as <- <-. rewrite <- st_id0 in *.
  set (fs := block_frames nz (peer_max_frame c) block es) in *. pose proof (peer_max_bounds c H) as Hbounds.
  assert (Forall (sendable (FrameDecoder.max_frame_size (frame_decoder s))) fs) as Hfs.
  { eapply Forall_impl; [exact st_frames0|]. intros f. by apply sendable_weaken. }
  assert (handle_frames fs s = (Ok tt, request_received nz hs es cl d s)) as Hhandle.
  { unfold fs. rewrite (block_received nz _ block es hs d s); [|lia|done|done|by destruct Ha as [? ->]|by eapply Heff|done].
    apply receive_request; try done; [|by destruct Hb].
    rewrite st_id0. by apply (wf_parity c H). }
  destruct (deliver_wires Ho fs s Haw Hrest Hfs) as (df & (d' & Hdel & Hok) & Hdf & _).
  rewrite Hhandle in Hdel, Hok. cbn [fst snd] in Hdel, Hok. specialize (Hok eq_refl). subst d'.
  exists (wires fs), (with_decoder df (request_received nz hs es cl d s)), (requested (StreamId.from nz) hs es cl s).
  rewrite from_nz_as_u32. split_and!; try done.
  - cbn. rewrite from_nz_as_u32. apply lookup_insert_eq.
  - by rewrite st_encoder0.
Qed.

(** A server after the preface and the SETTINGS of a client, and a request with
    two cookies. *)
Definition serving : t :=
  snd (@deliver key_order (CONNECTION_PREFACE ++ [0; 0; 0; 4; 0; 0; 0; 0; 0]) (new Role.Server sample_limits)).
Definition cookie_request : list HeaderField.t :=
  sample_request ++ [field "cookie" "a=1"; field "cookie" "b=2"].

Lemma request_is_delivered_witness :
  let c := client sample_limits in
  let c' := snd (start_stream cookie_request false c) in
  exists sent s' st,
    output_buffer c' = output_buffer c ++ sent /\
    @deliver key_order sent serving = (Ok tt, s') /\
    events s' = events serving ++ [Event.HeadersReceived stream_1 (concatenate_cookies cookie_request) false None] /\
    StreamId.as_u32 stream_1 = 1 /\ last_recv_stream_id s' = 1 /\
    streams s' !! 1 = Some st /\ Stream.get_state st = StreamState.Open /\
    sync (hpack_encoder c') (hpack_decoder s') /\ between_blocks s' /\ at_rest (frame_decoder s').
Proof.
  intros c c'. apply (@request_is_delivered key_order key_order_laws cookie_request false (Some 3) c stream_1 c' serving).
  - done.
  - apply conn_new_wf, sample_limits_ok.
  - split; [|by vm_compute]. apply Forall_app. split; [apply sample_request_ok|].
    repeat constructor; by vm_compute.
  - reflexivity.
  - vm_compute. reflexivity.
  - constructor; try by vm_compute. by intros m [= <-].
  - by intros [_ Hp].
  - by vm_compute.
  - by vm_compute.
  - by vm_compute.
  - intros block e He.
    assert (match Encoder.encode (hpack_encoder c) [] cookie_request with Ok (b, _) => len b <= effective_max serving | _ => True end)
      as Hl by by vm_compute.
    by rewrite He in Hl.
  - assert (hpack_decoder serving = hpack_decoder (new Role.Server sample_limits)) as -> by (vm_compute; reflexivity).
    exact (sync_new 4096 ltac:(lia)).
  - by vm_compute.
Defined.
