(* ===== verification/ConnData.v ===== *)
(** * ConnData: content from end to end

    What DATA frames do to the connection that receives them, and the content a
    flush sends as the other side reports it. *)

From S2P Require Import Prelude Errors StreamIds Config Flow Bounded StreamCore FrameTypes.
From S2P Require Import FrameEncode FrameDecode FrameCodec HpackInteger Syntax HpackTable HpackCodec.
From S2P Require Import Validation Stream ConnBase ConnHeaders ConnRecv ConnInv ConnSafe.
From S2P Require Import ConnSample ConnFlow ConnBlock ConnHandle ConnApi ConnIndep ConnChunks ConnDeliver.
Import Connection Headers Handlers Invariant Block Api Delivering Delivery.

(** The event a DATA frame leads to. *)
Definition report (f : Frame.t) : Event.t :=
  match f with
  | Frame.Data d => Event.DataReceived (StreamId.from (DataFrame.stream_id d)) (DataFrame.data d) (DataFrame.end_stream d)
  | _ => Event.SettingsReceived false
  end.

(** A connection that has room for [n] content octets on the stream [sid]: the
    stream may receive, both windows and the announced content length allow it.
    [last] if the stream ends with them. *)
Record receiving (sid : Z) (s : Stream.t) (n : Z) (last : bool) (c : t) : Prop := mk_receiving {
  rc_id : client_id sid;
  rc_stream : streams c !! sid = Some s;
  rc_open : Stream.get_state s = StreamState.Open \/ Stream.get_state s = StreamState.HalfClosedLocal;
  rc_window : n <= FlowControl.recv_window (flow_control c) <= I64_MAX;
  rc_stream_window : n <= FlowControl.recv_window (Stream.flow_control s);
  rc_content : Stream.no_content s = false;
  rc_length : match Stream.expected_content_length s with
              | Some e => if last then Stream.received_content_length s + n = e
                          else Stream.received_content_length s + n <= e
              | None => True
              end;
  rc_counter : Stream.received_content_length s + n <= USIZE_MAX;
  rc_state : state c <> ConnectionState.WaitingPreface;
  rc_block : header_continuation_stream c = None
}.

(** A flow control state, a stream and a connection charged for received octets. *)
Definition use_recv (n : Z) (f : FlowControl.t) : FlowControl.t :=
  f <| FlowControl.recv_window := FlowControl.recv_window f - n |>.
Definition got (es : bool) (n : Z) (s : Stream.t) : Stream.t :=
  let st := Stream.get_state s in
  s <| Stream.state := StateMachine.mk
         (if es then (if bool_decide (st = StreamState.Open) then StreamState.HalfClosedRemote else StreamState.Closed) else st) |>
    <| Stream.flow_control := use_recv n (Stream.flow_control s) |>
    <| Stream.received_content_length := Stream.received_content_length s + n |>.
Definition taken (sid : Z) (es : bool) (l : list Z) (s : Stream.t) (c : t) : t :=
  (put sid (got es (len l) s) c) <| flow_control := use_recv (len l) (flow_control c) |>
    <| events := events c ++ [report (data_frame sid l es)] |>.

(** The stream is forgotten once both sides ended it. *)
Definition settled (sid : Z) (es : bool) (s : Stream.t) (c : t) : t :=
  if es && bool_decide (Stream.get_state s = StreamState.HalfClosedLocal) then
    c <| events := events c ++ [Event.StreamClosed (StreamId.from_wire sid)] |>
      <| closed_streams := BoundedSet.insert sid (closed_streams c) |> <| streams := delete sid (streams c) |>
  else c.

Section receive.
Context {O : HashOrder}.

(** ** Lemmas: one frame *)

Lemma consume_recv_ok n f :
  0 <= n <= FlowControl.recv_window f -> n <= I64_MAX -> FlowControl.consume_recv n f = (Ok tt, use_recv n f).
Proof. intros Hn Hm. rewrite fc_consume_recv_spec by lia. by replace (_ <=? _) with true by lia. Qed.

Lemma receive_data_ok sid s l es c :
  receiving sid s (len l) es c ->
  receive_data (DataFrame.mk (NonZeroStreamId.from_validated_parts sid) es l None) (len l) s =
  (Ok (inr (es && bool_decide (Stream.get_state s = StreamState.HalfClosedLocal))), got es (len l) s).
Proof.
  intros []. pose proof (len_nonneg l) as Hn. unfold receive_data.
  cbn [DataFrame.end_stream DataFrame.data].
  set (s1 := s <| Stream.state := Stream.state (got es (len l) s) |>).
  rewrite (bind_Ok _ _ s (Ok tt) s1).
  2:{ unfold attempt, Stream.state_machine_mut, zoom, s1, got, Stream.get_state, StateMachine.recv_data in *. destruct s as [i [st]]. cbn in *.
      destruct rc_open0 as [-> | ->]; by destruct es. }
  cbn [is_err]. set (s2 := s1 <| Stream.flow_control := use_recv (len l) (Stream.flow_control s) |>).
  rewrite (bind_Ok _ _ s1 (Ok tt) s2).
  2:{ unfold attempt, Stream.flow_control_mut, zoom. change (Stream.flow_control s1) with (Stream.flow_control s).
      rewrite consume_recv_ok by lia. done. }
  cbn [is_err]. rewrite bind_gets. change (Stream.no_content s2) with (Stream.no_content s). rewrite rc_content0. cbn [andb].
  rewrite (bind_Ok _ _ s2 tt (got es (len l) s)).
  2:{ unfold Stream.add_received_content_length. rewrite bind_gets.
      change (Stream.received_content_length s2) with (Stream.received_content_length s).
      unfold add_usize. unfold USIZE_MAX in *. replace (_ <? _) with true by lia. rewrite bind_lift_Ok. done. }
  rewrite !bind_gets. cbv zeta. set (s3 := got es (len l) s).
  change (Stream.expected_content_length s3) with (Stream.expected_content_length s).
  change (Stream.received_content_length s3) with (Stream.received_content_length s + len l).
  replace (match Stream.expected_content_length s with Some _ => _ | None => false end) with false.
  2:{ destruct (Stream.expected_content_length s) as [e|]; [|done]. cbn [negb andb]. symmetry. apply orb_false_iff.
      destruct es; cbn [andb]; split; try done; try lia; apply negb_false_iff; lia. }
  rewrite bind_gets. unfold ret. do 3 f_equal. unfold s3, got, Stream.get_state in *. cbn.
  destruct rc_open0 as [-> | ->]; by destruct es.
Qed.

Lemma receive_frame_ok sid s l es c :
  receiving sid s (len l) es c ->
  handle_frame (data_frame sid l es) c = (Ok tt, settled sid es s (taken sid es l s c)).
Proof.
  intros Hrc. pose proof (receive_data_ok sid s l es c Hrc) as Hrd. destruct Hrc. pose proof (len_nonneg l) as Hn.
  rewrite frame_allowed by done. unfold data_frame. cbn [dispatch]. unfold handle_data.
  change (flow_control_size _) with (len l).
  cbn [DataFrame.stream_id DataFrame.data DataFrame.end_stream DataFrame.with_end_stream DataFrame.new set_field].
  set (nz := NonZeroStreamId.from_validated_parts sid) in *.
  assert (NonZeroStreamId.as_u32 nz = sid) as -> by apply nz_from_validated_as_u32.
  assert (StreamId.from nz = StreamId.from_wire sid) as Hid by (apply from_nz_validated; destruct rc_id0; lia).
  unfold check_not_idle_stream. runs. unfold is_idle_stream, contains_stream. rewrite rc_stream0. runs.
  rewrite (bind_Ok _ _ c tt (c <| flow_control := use_recv (len l) (flow_control c) |>)).
  2:{ unfold on_flow_control, zoom. rewrite consume_recv_ok by lia. done. }
  set (c1 := c <| flow_control := _ |>). runs. change (streams c1) with (streams c).
  unfold is_stream_closed. change (streams c1) with (streams c). rewrite rc_stream0. 
  replace (bool_decide _) with false by (symmetry; apply bool_decide_false; destruct rc_open0 as [-> | ->]; done).
  cbn [negb orb]. unfold require_stream. runs. change (streams c1) with (streams c). rewrite rc_stream0. cbn [ok_or]. runs.
  rewrite (bind_Ok _ _ _ _ _ (stream_mut_eq sid s _ c1 _ _ rc_stream0 Hrd)).
  unfold push_event. runs. unfold settled. fold (Stream.get_state s).
  change (put sid (got es (len l) s) c1) with ((put sid (got es (len l) s) c) <| flow_control := use_recv (len l) (flow_control c) |>).
  destruct (es && _); runs; [|done].
  unfold forget_stream. rewrite <- Hid. done.
Qed.

(** ** Lemmas: the frames of a flush *)

(** After a frame that is not the last there is room for the rest. *)
Lemma receiving_next sid s l m last c :
  receiving sid s (len l + m) last c -> 0 <= m ->
  receiving sid s (len l) false c /\ receiving sid (got false (len l) s) m last (taken sid false l s c).
Proof.
  intros [] Hm. pose proof (len_nonneg l) as Hn. split; constructor; try done; try lia.
  - destruct (Stream.expected_content_length s); [destruct last; lia|done].
  - apply lookup_insert_eq.
  - cbn. lia.
  - cbn. lia.
  - change (match Stream.expected_content_length s with
            | Some e => if last then Stream.received_content_length s + len l + m = e
                        else Stream.received_content_length s + len l + m <= e
            | None => True end).
    destruct (Stream.expected_content_length s); [destruct last; lia|done].
  - cbn. lia.
Qed.

(** What the frames of a flush leave: the events and the connection's window. *)
Lemma receive_frames_ok fuel max sid s l es c :
  0 < max -> (length l < fuel)%nat -> receiving sid s (len l) es c ->
  exists c', handle_frames (data_frames fuel sid max l es) c = (Ok tt, c') /\
    events c' = events c ++ map report (data_frames fuel sid max l es) ++
                (if es && bool_decide (Stream.get_state s = StreamState.HalfClosedLocal)
                 then [Event.StreamClosed (StreamId.from_wire sid)] else []) /\
    flow_control c' = use_recv (len l) (flow_control c).
Proof.
  intros Hm. revert l s c. induction fuel as [|fuel IH]; intros l s c Hf Hrc; [lia|]. cbn [data_frames].
  destruct (len l <=? max) eqn:E; zbool.
  - cbn [handle_frames map app]. rewrite bind_ret_r, (receive_frame_ok sid s) by done. eexists. split; [done|].
    unfold settled. destruct (es && _); cbn -[report data_frame]; split; try done; by rewrite <- app_assoc.
  - cbn [handle_frames]. set (a := take (Z.to_nat max) l). set (b := drop (Z.to_nat max) l).
    assert (len l = len a + len b) as Hl by (rewrite <- len_app; unfold a, b; by rewrite take_drop).
    rewrite Hl in Hrc. destruct (receiving_next _ _ _ _ _ _ Hrc (len_nonneg b)) as [Ha Hb].
    rewrite (bind_Ok _ _ _ _ _ (receive_frame_ok sid s a false c Ha)). cbn [settled andb].
    destruct (IH b _ _ ltac:(unfold b; rewrite length_drop; unfold len in *; lia) Hb) as (c' & -> & He & Hw).
    exists c'. split; [done|]. split.
    + rewrite He. cbn -[report data_frame data_frames]. unfold Stream.get_state. cbn [Stream.state got set_field].
      by rewrite <- app_assoc.
    + rewrite Hw, Hl. unfold use_recv. cbn. destruct (flow_control c). cbn. f_equal. lia.
Qed.
End receive.

(** ** Lemmas: what is reported *)

Lemma data_frames_report fuel sid max l es :
  sid <> 0 ->
  map report (data_frames fuel sid max l es) =
  map (fun f => Event.DataReceived (StreamId.from_wire sid) (payload f) (end_flag f)) (data_frames fuel sid max l es).
Proof.
  intros Hs. revert l. induction fuel as [|fuel IH]; intros l; [done|]. cbn [data_frames].
  destruct (len l <=? max); cbn [map]; [|rewrite IH]; unfold report, data_frame; cbn; by rewrite from_nz_validated.
Qed.

(** The frames of a flush: what the sender becomes and what the receiver does. *)
Lemma flush_received {O : HashOrder} sid s c st r :
  wf c -> streams c !! sid = Some s -> receiving sid st (allowance s c) (ends s c) r ->
  let k := allowance s c in
  exists fs r1,
    Forall (sendable (peer_max_frame c)) fs /\
    output_buffer (flushed sid s c) = output_buffer c ++ wires fs /\
    FlowControl.send_window (flow_control (flushed sid s c)) = FlowControl.send_window (flow_control c) - k /\
    concat (map payload fs) = take (Z.to_nat k) (buffered s) /\
    (if ends s c then exists n, map end_flag fs = replicate n false ++ [true]
     else Forall (fun f => end_flag f = false) fs) /\
    handle_frames fs r = (Ok tt, r1) /\
    events r1 = events r
      ++ map (fun f => Event.DataReceived (StreamId.from_wire sid) (payload f) (end_flag f)) fs
      ++ (if ends s c && bool_decide (Stream.get_state st = StreamState.HalfClosedLocal)
          then [Event.StreamClosed (StreamId.from_wire sid)] else []) /\
    flow_control r1 = use_recv k (flow_control r).
Proof.
  intros H Hs Hrc k. pose proof (allowance_bounds s c) as Hk. pose proof (peer_max_bounds c H) as Hm. fold k in Hk, Hrc.
  destruct (wf_stream _ _ _ H Hs) as [Hid Hsw]. unfold flushed. fold k.
  destruct ((k =? 0) && negb (ends s c)) eqn:E0.
  { apply andb_true_iff in E0 as [E0 Ee]. apply negb_true_iff in Ee. zbool. rewrite E0, Ee in *.
    exists [], r. cbn. rewrite !app_nil_r, Z.sub_0_r. unfold use_recv. rewrite Z.sub_0_r. split_and!; try done. by destruct (flow_control r). }
  set (l := take (Z.to_nat k) (buffered s)). assert (bytes_ok l) as Hl by (apply Forall_take; apply Hsw).
  assert (len l = k) as Hlk by (unfold l; rewrite len_take; lia). rewrite <- Hlk in Hrc.
  destruct (receive_frames_ok (S (length l)) (peer_max_frame c) sid st l (ends s c) r) as (r1 & Hh & He & Hf); [lia|lia|done|].
  exists (data_frames (S (length l)) sid (peer_max_frame c) l (ends s c)), r1.
  split_and!; try done.
  - apply data_frames_sendable; [done|done|lia].
  - apply data_frames_payload; lia.
  - destruct (ends s c); [apply data_frames_flags; lia|apply data_frames_no_end].
  - rewrite He, data_frames_report; [done|]. destruct Hid. lia.
  - by rewrite Hf, Hlk.
Qed.

(** ** Properties *)

(** C4: Content is delivered. What a flush takes from the send buffer of a stream
    reaches the application of the other side: the octets it adds to the output,
    delivered to a connection that may receive that much on the stream, are
    reported as DataReceived events, one per frame, whose contents put together
    are the front of the send buffer as far as the windows allow, in order; END_STREAM
    is reported with the last one exactly when the sender ended the stream and
    everything left, and the stream is reported closed if the receiver had ended
    it too. The sender's and the receiver's connection windows are charged alike. *)
Theorem data_is_delivered `{HO : HashOrder, !HashOrderLaws HO} sid s c st r :
  order_ignores_decoder HO ->
  wf c -> streams c !! sid = Some s -> StreamState.can_send (Stream.get_state s) = true ->
  ~ awaiting r -> at_rest (frame_decoder r) -> peer_max_frame c <= FrameDecoder.max_frame_size (frame_decoder r) ->
  receiving sid st (allowance s c) (ends s c) r ->
  exists sent c' r' fs,
    flush_stream_data sid c = (Ok tt, c') /\ output_buffer c' = output_buffer c ++ sent /\
    deliver sent r = (Ok tt, r') /\
    events r' = events r
      ++ map (fun f => Event.DataReceived (StreamId.from_wire sid) (payload f) (end_flag f)) fs
      ++ (if ends s c && bool_decide (Stream.get_state st = StreamState.HalfClosedLocal)
          then [Event.StreamClosed (StreamId.from_wire sid)] else []) /\
    concat (map payload fs) = take (Z.to_nat (allowance s c)) (buffered s) /\
    (if ends s c then exists n, map end_flag fs = replicate n false ++ [true]
     else Forall (fun f => end_flag f = false) fs) /\
    FlowControl.send_window (flow_control c') = FlowControl.send_window (flow_control c) - allowance s c /\
    FlowControl.recv_window (flow_control r') = FlowControl.recv_window (flow_control r) - allowance s c /\
    at_rest (frame_decoder r').
Proof.
  intros Ho H Hs Hcan Haw Hrest Hmax Hrc. destruct (flush_received sid s c st r H Hs Hrc)
    as (fs & r1 & Hfit & Hout & Hsw & Hpay & Hend & Hh & Hev & Hfc).
  assert (Forall (sendable (FrameDecoder.max_frame_size (frame_decoder r))) fs) as Hfs
    by (eapply Forall_impl; [exact Hfit|]; intros f; by apply sendable_weaken).
  destruct (deliver_wires Ho fs r Haw Hrest Hfs) as (d & (d' & Hdel & Hok) & Hd & _).
  rewrite Hh in Hdel, Hok. cbn [fst snd] in Hdel, Hok. specialize (Hok eq_refl). subst d'.
  exists (wires fs), (flushed sid s c), (with_decoder d r1), fs. rewrite (flush_eq sid s c) by done.
  split_and!; try done. change (flow_control (with_decoder d r1)) with (flow_control r1). by rewrite Hfc.
Qed.

(** A server with a stream a client sends three octets on. *)
Definition receiving_server : t := put 1
  ((Stream.new stream_1 65535 65535) <| Stream.state := StateMachine.mk StreamState.Open |>
     <| Stream.expected_content_length := Some 3 |>)
  ((server sample_limits) <| state := ConnectionState.Active |> <| preface_received := true |>).

Lemma data_is_delivered_witness :
  exists sent c' r' fs,
    flush_stream_data 1 sending_client = (Ok tt, c') /\
    output_buffer c' = output_buffer sending_client ++ sent /\
    @deliver key_order sent receiving_server = (Ok tt, r') /\
    events r' = map (fun f => Event.DataReceived stream_1 (payload f) (end_flag f)) fs /\
    concat (map payload fs) = [1; 2; 3] /\ (exists n, map end_flag fs = replicate n false ++ [true]).
Proof.
  destruct (@data_is_delivered key_order key_order_laws 1 sending_stream sending_client
    (default sending_stream (streams receiving_server !! 1)) receiving_server)
    as (sent & c' & r' & fs & Hf & Ho & Hd & He & Hp & Hend & _).
  - done.
  - apply sending_client_wf.
  - apply put_lookup.
  - reflexivity.
  - by intros [_ Hp].
  - done.
  - by vm_compute.
  - constructor; first [by left | by vm_compute].
  - exists sent, c', r', fs. split_and!; try done. rewrite He. assert (Stream.get_state (default sending_stream (streams receiving_server !! 1)) = StreamState.Open) as ->
      by by vm_compute. rewrite andb_false_r. apply app_nil_r.
Defined.
