(* ===== verification/ConnTrace.v ===== *)
(** * ConnTrace: sequences of calls and of frames

    Properties of whole runs: the streams a connection starts, and the frames it
    takes within a header block. *)

From Stdlib Require Import Sorting.Sorted.
From S2P Require Import Prelude Errors StreamIds Config Flow Bounded StreamCore FrameTypes.
From S2P Require Import FrameEncode FrameDecode FrameCodec HpackInteger Syntax HpackTable HpackCodec.
From S2P Require Import Validation Stream ConnBase ConnHeaders ConnRecv ConnInv ConnSafe.
From S2P Require Import ConnSample ConnFlow ConnBlock ConnHandle ConnApi ConnIndep ConnChunks ConnDeliver ConnRequest.
Import Connection Headers Handlers Invariant Block Api Delivering Delivery.

(** The identifiers of the streams a run started. *)
Definition started_ids (rs : list (result Error.t reply)) : list Z :=
  concat (map (fun r => match r with Ok (Started id) => [StreamId.as_u32 id] | _ => [] end) rs).

(** A frame that goes on with the header block of the stream [sid]. *)
Definition continues (sid : Z) (f : Frame.t) : Prop :=
  match f with
  | Frame.Continuation cf => NonZeroStreamId.as_u32 (ContinuationFrame.stream_id cf) = sid
  | _ => False
  end.

#[global] Instance continues_dec sid f : Decision (continues sid f).
Proof. destruct f; cbn; apply _. Defined.

(** ** Lemmas: streams started *)

Section started.
Context {O : HashOrder} {HL : HashOrderLaws O}.

Lemma call_started n m x c r c' :
  used n m c -> call_ok x -> run_call x c = (r, c') ->
  started_ids [r] = [] \/
  (started_ids [r] = [next_stream_id c] /\ role c = Role.Client /\ client_id (next_stream_id c) /\
   next_stream_id c' = next_stream_id c + 2).
Proof.
  intros (H & _) Hx Hrun.
  assert (forall {A} (X : M A) (f : A -> reply), (forall a id, f a <> Started id) ->
    (let! a := X in ret (f a)) c = (r, c') -> started_ids [r] = []) as Hno.
  { intros A X f Hf. unfold bind, ret. destruct (X c) as [[a|e|] c1]; intros [= <- <-]; [|done|done].
    specialize (Hf a). destruct (f a) eqn:Ef; try done. by destruct (Hf stream_id). }
  destruct x; try (left; revert Hrun; apply Hno; intros; discriminate). cbn [run_call] in Hrun.
  revert Hrun. unfold bind, ret. destruct (start_stream headers end_stream c) as [[id|e|] c1] eqn:E; intros [= <- <-]; [|by left..].
  right. destruct (start_stream_started _ _ _ _ _ H Hx E) as (nz & block & e & -> & Hst).
  pose proof (st_id _ _ _ _ _ _ _ Hst) as Hid. pose proof (st_role _ _ _ _ _ _ _ Hst) as Hc.
  pose proof (st_nz _ _ _ _ _ _ _ Hst) as Hnz. pose proof (st_next _ _ _ _ _ _ _ Hst) as Hnext.
  unfold started_ids. cbn. rewrite from_nz_as_u32, Hid. split_and!; [done|done| |done].
  split; [rewrite <- Hid; destruct nz as [i|i]; apply Hnz|]. by apply (wf_parity c H).
Qed.

Lemma run_started xs n m c rs c' :
  used n m c -> Forall call_ok xs -> n + total_fed xs < 2 ^ 64 -> m + settings_calls xs < 2 ^ 32 ->
  run xs c = Some (rs, c') ->
  StronglySorted Z.lt (started_ids rs) /\ Forall client_id (started_ids rs) /\
  Forall (fun i => next_stream_id c <= i) (started_ids rs) /\ (role c = Role.Server -> started_ids rs = []).
Proof.
  intros Hu Hxs. revert n m c rs Hu. induction Hxs as [|x xs Hx _ IH]; intros n m c rs Hu Hn Hm Hrun.
  { injection Hrun as <- <-. split_and!; try done; constructor. }
  change (total_fed (x :: xs)) with (fed x + total_fed xs) in *.
  change (settings_calls (x :: xs)) with (settings_call x + settings_calls xs) in *.
  destruct (totals_nonneg xs). pose proof (call_nonneg x) as [Hfx Hsx].
  pose proof (run_call_safe n m x c Hu Hx ltac:(lia) ltac:(lia)) as Hsafe. unfold call_safe, wp in Hsafe.
  cbn [run] in Hrun. destruct (run_call x c) as [r c1] eqn:Ex.
  assert (r <> Panic /\ used (n + fed x) (m + settings_call x) c1 /\ later c c1) as (Hr & Hu1 & Hl1) by by destruct r.
  destruct (run xs c1) as [[rs1 c2]|] eqn:Er; [|by destruct r].
  assert (rs = r :: rs1 /\ c' = c2) as [-> ->] by (destruct r; [injection Hrun as <- <-|injection Hrun as <- <-|done]; done).
  destruct (IH _ _ c1 rs1 Hu1 ltac:(lia) ltac:(lia) Er) as (Hsort & Hid & Hge & Hsrv).
  assert (started_ids (r :: rs1) = started_ids [r] ++ started_ids rs1) as ->.
  { unfold started_ids. cbn. by rewrite app_nil_r. }
  pose proof (la_next _ _ Hl1) as Hnext. pose proof (la_role _ _ Hl1) as Hrole.
  destruct (call_started n m x c r c1 Hu Hx Ex) as [->|(-> & Hc & Hcid & Hnext')]; cbn [app].
  - split_and!; [done|done| |intros; apply Hsrv; congruence]. eapply Forall_impl; [exact Hge|]. cbn. lia.
  - split_and!; [|by constructor| |congruence].
    + constructor; [done|]. eapply Forall_impl; [exact Hge|]. cbn. lia.
    + constructor; [lia|]. eapply Forall_impl; [exact Hge|]. cbn. lia.
Qed.
End started.

(** ** Lemmas: within a header block *)

Section blocks.
Context {O : HashOrder}.



End blocks.

(** ** Properties *)

(** Streams are numbered as RFC 9113 asks. In any run of calls on a new
    connection the streams [start_stream] returns have odd identifiers within 31
    bits, each greater than the ones before, whatever else the application calls,
    the peer sends and fails in between; a server starts none. *)
Theorem started_streams_increase `{HO : HashOrder, !HashOrderLaws HO} (r : Role.t) (l : Limits.t) (xs : list call) rs c :
  limits_ok l -> Forall call_ok xs -> total_fed xs < 2 ^ 64 -> settings_calls xs < 2 ^ 32 ->
  run xs (new r l) = Some (rs, c) ->
  StronglySorted Z.lt (started_ids rs) /\
  Forall (fun i => 0 < i <= STREAM_ID_MAX /\ i mod 2 = 1) (started_ids rs) /\
  (r = Role.Server -> started_ids rs = []).
Proof.
  intros Hl Hxs Hf Hs Hrun. destruct (run_started xs 0 0 (new r l) rs c (new_used r l Hl) Hxs Hf Hs Hrun)
    as (Hsort & Hid & _ & Hsrv). by split_and!.
Qed.

Lemma started_streams_increase_witness :
  let xs := [Initiate; StartStream sample_request true; PollOutput; StartStream sample_request false] in
  exists rs c, @run key_order xs (new Role.Client sample_limits) = Some (rs, c) /\ started_ids rs = [1; 3] /\
    StronglySorted Z.lt (started_ids rs) /\
    Forall (fun i => 0 < i <= STREAM_ID_MAX /\ i mod 2 = 1) (started_ids rs) /\
    (Role.Client = Role.Server -> started_ids rs = []).
Proof.
  intros xs. destruct (@run key_order xs (new Role.Client sample_limits)) as [[rs c]|] eqn:E; [|by vm_compute in E].
  exists rs, c. split; [done|]. split; [vm_compute in E; by injection E as <- _|].
  apply (@started_streams_increase key_order key_order_laws Role.Client sample_limits xs rs c);
    [apply sample_limits_ok| |done|done|exact E].
  repeat (constructor; [first [exact I|apply sample_request_ok]|]). constructor.
Defined.


