(* ===== verification/ConnFindings.v ===== *)
(** * ConnFindings: where the connection departs from its protocol

    Concrete runs of the model that show behaviour RFC 9113 does not ask for. *)

From S2P Require Import Prelude Errors StreamIds Config Flow Bounded StreamCore FrameTypes.
From S2P Require Import FrameEncode FrameDecode FrameCodec HpackInteger Syntax HpackTable HpackCodec.
From S2P Require Import Validation Stream ConnBase ConnHeaders ConnRecv ConnInv ConnSafe.
From S2P Require Import ConnSample ConnFlow ConnBlock ConnHandle ConnApi ConnIndep ConnChunks ConnDeliver.
Import Connection Headers Handlers Invariant Block Api Delivering Delivery.

#[local] Existing Instance key_order.

(** The code of the error a method ends with. *)
Definition code_of {A} (x : result Error.t A * t) : option ErrorCode.t :=
  match fst x with Err e => Error.error_code e | _ => None end.

Definition request_1 : list HeaderField.t :=
  [field ":method" "GET"; field ":scheme" "https"; field ":path" "/"; field ":authority" "a.example"; field "x-a" "b"].

(** ** The HPACK state before the SETTINGS are acknowledged *)

(** A client that sends its preface and two requests before it has read the
    server's SETTINGS, and a server that announces a table of 64 octets. *)
Definition eager_client : t :=
  snd ((initiate ;! start_stream request_1 true ;! start_stream request_1 true) (client sample_limits)).
Definition small_table (l : Limits.t) : Limits.t :=
  let 'Limits.mk a b c d _ e f g h i j k m n o := l in Limits.mk a b c d 64 e f g h i j k m n o.
Definition small_table_server : t := server (small_table sample_limits).

(** The server's decoder uses its announced size before the client knows it. *)
Example decoder_size_before_ack :
  code_of (deliver (output_buffer eager_client) small_table_server) = Some ErrorCode.CompressionError.
Proof. vm_compute. reflexivity. Qed.

(** ** Malformed messages that are accepted *)

Definition nz (sid : Z) : NonZeroStreamId.t := NonZeroStreamId.from_validated_parts sid.
Definition trailers_block : list Z := [0; 1; 97; 1; 98].

(** Trailers end a request whose content is shorter than announced. *)
Example trailers_skip_content_length :
  let open_server := put 1
    ((Stream.new stream_1 65535 65535) <| Stream.state := StateMachine.mk StreamState.Open |>
       <| Stream.initial_headers_received := true |> <| Stream.expected_content_length := Some 3 |>) idle_server in
  let '(r, c) := handle_frames [data_frame 1 [1] false; headers_frame (nz 1) trailers_block true true] open_server in
  r = Ok tt /\ events c = [Event.DataReceived stream_1 [1] false; Event.TrailersReceived stream_1 [field "a" "b"]].
Proof. vm_compute. by split. Qed.

(** A client takes DATA before the response. *)
Definition waiting_client : t :=
  (snd (start_stream request_1 false ((client sample_limits) <| state := ConnectionState.Active |>))).
Example data_before_response :
  let '(r, c) := handle_frames [data_frame 1 [1; 2] false] waiting_client in
  r = Ok tt /\ events c = [Event.DataReceived stream_1 [1; 2] false].
Proof. vm_compute. by split. Qed.

(** A client takes a response on a stream it never opened. *)
Example response_on_unopened_stream :
  let '(r, c) := handle_frames [headers_frame (nz 5) [136] true true] waiting_client in
  r = Ok tt /\ events c = [Event.HeadersReceived (StreamId.from_wire 5) [field ":status" "200"] true None].
Proof. vm_compute. by split. Qed.

(** ** GOAWAY in both directions *)

(** Sending GOAWAY forgets that one was received: a stream may be started again. *)
Example goaway_received_is_forgotten :
  let goaway := Frame.Goaway (GoawayFrame.new (LastStreamId.mk 0) 0) in
  let c := snd (handle_frames [goaway] waiting_client) in
  is_err (fst (start_stream request_1 true c)) = true /\
  is_ok (fst ((send_goaway ErrorCode.NoError [] ;! start_stream request_1 true) c)) = true.
Proof. vm_compute. by split. Qed.

(** And receiving one forgets that one was sent: a new request is taken. *)
Example goaway_sent_is_forgotten :
  let goaway := Frame.Goaway (GoawayFrame.new (LastStreamId.mk 0) 0) in
  let request := headers_frame (nz 1) [130; 135; 132; 65; 1; 97] true true in
  let c := snd (send_goaway ErrorCode.NoError [] idle_server) in
  code_of (handle_frames [request] c) = Some ErrorCode.ProtocolError /\
  fst (handle_frames [goaway; request] c) = Ok tt.
Proof. vm_compute. by split. Qed.

(** ** Between the frames of a header block *)

(** A malformed PRIORITY frame within a header block only resets its stream. *)
Example priority_within_header_block :
  let c := in_block 1 true [130] (put 3 (Stream.new (StreamId.from_wire 3) 65535 65535) idle_server) in
  let r := deliver [0; 0; 1; 2; 0; 0; 0; 0; 3; 0] c in
  fst r = Ok tt /\ header_continuation_stream (snd r) = Some 1.
Proof. vm_compute. by split. Qed.

(** ** Padding *)

(** The window is charged for padding the application is not told of. *)
Example padding_is_not_reported :
  let open_server := put 1
    ((Stream.new stream_1 65535 65535) <| Stream.state := StateMachine.mk StreamState.Open |>
       <| Stream.initial_headers_received := true |>) idle_server in
  let '(r, c) := handle_frame (Frame.Data (DataFrame.mk (nz 1) false [1] (Some 9))) open_server in
  r = Ok tt /\ events c = [Event.DataReceived stream_1 [1] false] /\
  FlowControl.recv_window (flow_control c) = FlowControl.recv_window (flow_control open_server) - 11.
Proof. vm_compute. by split_and!. Qed.
