(* ===== verification/ConnOutput.v ===== *)
(** * ConnOutput: what a connection writes

    The octets the application polls from a connection are the preface of a
    client, the own SETTINGS and then whole frames, whatever the calls. *)

From S2P Require Import Prelude Errors StreamIds Config Flow Bounded StreamCore FrameTypes.
From S2P Require Import FrameEncode FrameDecode FrameCodec Syntax HpackTable HpackCodec.
From S2P Require Import Validation Stream ConnBase ConnHeaders ConnRecv ConnInv ConnSafe.
From S2P Require Import ConnSample ConnBlock ConnHandle ConnApi.
Import Connection Headers Handlers Invariant Block Api.

(** The octets a reply hands to the application, and all a run has written. *)
Definition octets (r : result Error.t reply) : list Z :=
  match r with Ok (Output (Some o)) => o | _ => [] end.
Definition written (rs : list (result Error.t reply)) (c : t) : list Z :=
  concat (map octets rs) ++ output_buffer c.

(** ** Lemmas *)

(** The octets of [r] and the new output are the old output and whole frames. *)
Definition appends (pre : list Z) (r : result Error.t reply) (c c' : t) : Prop :=
  exists fs, Forall (sendable MAX_MAX_FRAME_SIZE) fs /\
             octets r ++ output_buffer c' = output_buffer c ++ pre ++ wires fs.

Definition call_appends {A} (pre : list Z) (X : M A) (c : t) : Prop :=
  wp X (fun _ c' => appends pre (Ok Done) c c') (appends pre (Ok Done) c) c.

Lemma good_appends n c c' : good n c c' -> appends [] (Ok Done) c c'.
Proof. by intros [_ []]. Qed.

Lemma same_output_appends c c' : output_buffer c' = output_buffer c -> appends [] (Ok Done) c c'.
Proof. intros He. exists []. split; [done|]. cbn. by rewrite He, app_nil_r. Qed.

Lemma op_appends {A} (X : M A) c : op X c -> call_appends [] X c.
Proof. intros HX. eapply wp_mono; [exact HX|intros ? c' H|intros c' H]; exact (good_appends _ _ _ H). Qed.

(** The outcome of a method whose reply carries no octets. *)
Lemma call_appends_run {A} pre (X : M A) (f : A -> reply) c r c' :
  (forall a, octets (Ok (f a)) = []) -> call_appends pre X c ->
  (let! a := X in ret (f a)) c = (r, c') -> r <> Panic -> appends pre r c c'.
Proof.
  unfold call_appends, wp, bind, ret. intros Hf HX. destruct (X c) as [[a|e|] c1]; intros [= <- <-] Hr; [|done|done].
  destruct HX as (fs & Hfs & Ho). exists fs. split; [done|]. by rewrite Hf.
Qed.

Lemma settings_appends c : wf c -> appends [] (Ok Done) c (settings_sent c).
Proof. intros H. exists [own_settings c]. split; [by constructor; [by apply own_settings_sendable|]|done]. Qed.

Lemma appends_good pre n c c1 c2 : appends pre (Ok Done) c c1 -> good n c1 c2 -> appends pre (Ok Done) c c2.
Proof.
  intros (fs & Hfs & Ho) [_ []]. destruct ev_output0 as (gs & Hgs & Ho'). cbn in Ho. exists (fs ++ gs).
  split; [by apply Forall_app|]. cbn. by rewrite Ho', Ho, wires_app, <- !app_assoc.
Qed.

(** The preface a call writes. *)
Definition call_preface (x : call) (c : t) : list Z :=
  match x with Initiate => if preface_sent c then [] else preface_of (role c) | _ => [] end.

Lemma initiate_appends c :
  wf c -> settings_room c -> call_appends (call_preface Initiate c) initiate c.
Proof.
  intros H Hr. pose proof (initiate_wp c H Hr) as Hw. cbv zeta in Hw. cbn [call_preface].
  assert (forall c0 pre, appends pre (Ok Done) c c0 -> wp initiate (fun _ c' => good 0 c0 c' /\ preface_sent c' = true) (good 0 c0) c ->
    call_appends pre initiate c) as Hgo.
  { intros c0 pre Ha Hi. eapply wp_mono; [exact Hi|intros ? c' [Hg _]|intros c' Hg]; by eapply appends_good. }
  destruct (preface_sent c); (eapply Hgo; [|exact Hw]); [by apply same_output_appends|].
  exists [own_settings (prefaced c)]. split.
  - constructor; [|done]. by apply own_settings_sendable, wf_output.
  - cbn -[wires own_settings]. by rewrite <- app_assoc.
Qed.

Lemma process_appends `{HO : HashOrder, !HashOrderLaws HO} c :
  wf c -> room (undecoded c) c -> call_appends [] process c.
Proof.
  intros H Hr. assert (forall c', proceeds c c' -> appends [] (Ok Done) c c') as Hk.
  { intros c' [_ (n & _ & [] & _)]. destruct ev_output0 as (fs & Hfs & Ho). by exists fs. }
  eapply wp_mono; [by apply process_ok|..]; auto.
Qed.

Lemma feed_appends data c : wf c -> call_appends [] (feed data) c.
Proof.
  intros H. assert (forall c', output_buffer c' = output_buffer c -> appends [] (Ok Done) c c') as Hk
    by (intros; by apply same_output_appends).
  assert (wp (feed data) (fun _ c' => output_buffer c' = output_buffer c) (fun c' => output_buffer c' = output_buffer c) c)
    as Hf; [|by eapply wp_mono; [exact Hf|..]; auto].
  pose proof (wf_preface c H) as Hl. pose proof (len_nonneg (preface_buffer c)). pose proof (len_nonneg data).
  unfold feed. apply wp_gets, wp_gets. destruct (_ && _); [|done]. apply wp_gets.
  unfold sub_usize. replace (_ <? _) with false by lia. apply wp_lift_ok. cbv zeta.
  set (k := Z.min _ _). rewrite slice_spec by lia. apply wp_lift_ok, wp_modify_seq, wp_gets.
  set (c1 := c <| preface_buffer := _ |>).
  assert (len (preface_buffer c1) = len (preface_buffer c) + k) as Hpb.
  { subst c1. cbn [preface_buffer set_field]. change (Z.to_nat 0) with 0%nat. rewrite drop_0, Z.sub_0_r, len_app, len_take. lia. }
  rewrite slice_spec by (unfold CONNECTION_PREFACE_LEN in *; change (len CONNECTION_PREFACE) with 24; lia). apply wp_lift_ok.
  destruct (negb _); [done|]. destruct (_ <? _); [done|]. apply wp_modify_seq.
  rewrite slice_from_spec by lia. apply wp_lift_ok. by destruct (0 <? _).
Qed.

Lemma run_call_appends `{HO : HashOrder, !HashOrderLaws HO} n m x c r c' :
  used n m c -> call_ok x -> n < 2 ^ 64 -> m + settings_call x < 2 ^ 32 ->
  run_call x c = (r, c') -> r <> Panic -> appends (call_preface x c) r c c'.
Proof.
  intros (H & Hn & Hp) Hx Hmax Hm Hrun Hr.
  assert (room (undecoded c) c) as Hroom by (intros sid; specialize (Hn sid); lia).
  assert (forall A (X : M A) (f : A -> reply), (forall a, octets (Ok (f a)) = []) ->
    (let! a := X in ret (f a)) c = (r, c') -> call_appends (call_preface x c) X c ->
    appends (call_preface x c) r c c') as Hgo by (intros; by eapply call_appends_run).
  destruct x; cbn [run_call call_ok settings_call call_preface] in *;
    try (refine (Hgo _ _ _ _ Hrun _); [intros; reflexivity|clear Hgo Hrun Hr]).
  - apply initiate_appends; [done|unfold settings_room; lia].
  - eapply wp_mono; [apply send_settings_wp; [done|unfold settings_room; lia]|..]; cbv beta;
      intros; (eapply appends_good; [by apply settings_appends|eassumption]).
  - by apply same_output_appends.
  - by apply same_output_appends.
  - by apply feed_appends.
  - by apply process_appends.
  - unfold call_appends, wp, poll_event, bind, gets. destruct (events c); by apply same_output_appends.
  - revert Hrun. unfold poll_output, bind, gets, ret. destruct (output_buffer c) as [|o os] eqn:Ho;
      intros [= <- <-]; exists []; (split; [done|]); cbn; by rewrite ?Ho, ?app_nil_r.
  - by apply op_appends, start_stream_op.
  - apply op_appends. by apply send_response_op; destruct Hx.
  - apply op_appends. by apply send_trailers_op; destruct Hx.
  - apply op_appends. by apply send_data_op; destruct Hx.
  - apply op_appends. by apply reset_stream_internal_op; destruct Hx.
  - apply op_appends. by apply send_ping_op; destruct Hx.
  - destruct Hx as (? & ? & ?). by apply op_appends, send_goaway_op.
  - destruct Hx as [? [? _]]. by apply op_appends, send_window_update_op.
Qed.

Lemma run_appends `{HO : HashOrder, !HashOrderLaws HO} xs n m c rs c' :
  used n m c -> preface_sent c = true \/ Forall (fun x => x <> Initiate) xs -> Forall call_ok xs ->
  n + total_fed xs < 2 ^ 64 -> m + settings_calls xs < 2 ^ 32 -> run xs c = Some (rs, c') ->
  exists fs, Forall (sendable MAX_MAX_FRAME_SIZE) fs /\ written rs c' = output_buffer c ++ wires fs.
Proof.
  intros Hu Hp Hxs. revert n m c rs Hu Hp. induction Hxs as [|x xs Hx _ IH]; intros n m c rs Hu Hp Hn Hm Hrun.
  { injection Hrun as <- <-. exists []. split; [done|]. unfold written. cbn. by rewrite app_nil_r. }
  change (total_fed (x :: xs)) with (fed x + total_fed xs) in *.
  change (settings_calls (x :: xs)) with (settings_call x + settings_calls xs) in *.
  destruct (totals_nonneg xs). pose proof (call_nonneg x) as [Hfx Hsx].
  pose proof (run_call_safe n m x c Hu Hx ltac:(lia) ltac:(lia)) as Hsafe. unfold call_safe, wp in Hsafe.
  cbn [run] in Hrun. destruct (run_call x c) as [r c1] eqn:Ex.
  assert (r <> Panic /\ used (n + fed x) (m + settings_call x) c1 /\ later c c1) as (Hr & Hu1 & Hl1) by by destruct r.
  destruct (run_call_appends n m x c r c1 Hu Hx ltac:(lia) ltac:(lia) Ex Hr) as (fs & Hfs & Ho).
  assert (call_preface x c = []) as Hnil.
  { destruct Hp as [Hp|Hp]; [destruct x; cbn; try done; by rewrite Hp|]. inversion Hp as [|? ? Hi _]. by destruct x. }
  rewrite Hnil in Ho. destruct (run xs c1) as [[rs1 c2]|] eqn:Er; [|by destruct r].
  assert (rs = r :: rs1 /\ c' = c2) as [-> ->] by (destruct r; [injection Hrun as <- <-|injection Hrun as <- <-|done]; done).
  assert (preface_sent c1 = true \/ Forall (fun x => x <> Initiate) xs) as Hp1.
  { destruct Hp as [Hp|Hp]; [left; exact (la_preface _ _ Hl1 Hp)|right; by inversion Hp]. }
  destruct (IH _ _ c1 rs1 Hu1 Hp1 ltac:(lia) ltac:(lia) Er) as (gs & Hgs & Hw).
  exists (fs ++ gs). split; [by apply Forall_app|]. unfold written in *. cbn [map concat].
  rewrite <- app_assoc, Hw, (app_assoc (octets r)), Ho, wires_app. cbn [app]. by rewrite app_assoc.
Qed.

(** A peer decodes the octets of whole frames, however they are cut. *)
Lemma wires_decode fs chunks :
  Forall (sendable MAX_MAX_FRAME_SIZE) fs -> concat chunks = wires fs ->
  exists s, FrameDecoder.drain_chunks chunks (FrameDecoder.new MAX_MAX_FRAME_SIZE) = Some (fs, None, s) /\
    FrameDecoder.buf s = [].
Proof.
  intros Hall Hc. destruct (encode_all_drains _ _ Hall) as (bytes & Hb & Hd).
  rewrite (encode_all_wires MAX_MAX_FRAME_SIZE) in Hb by done. injection Hb as <-.
  destruct (Hd chunks Hc) as (s & Hdr & Hbuf & _). eauto.
Qed.

(** What [initiate] makes of a new connection: the preface, then SETTINGS. *)
Lemma initiate_new_output r l res c :
  limits_ok l -> initiate (new r l) = (res, c) ->
  res <> Panic /\ (res = Ok tt -> preface_sent c = true) /\
  exists fs, Forall (sendable MAX_MAX_FRAME_SIZE) (own_settings (new r l) :: fs) /\
             output_buffer c = preface_of r ++ wires (own_settings (new r l) :: fs).
Proof.
  intros Hl Hi. pose proof (conn_new_wf r l Hl) as H.
  pose proof (initiate_wp (new r l) H ltac:(unfold settings_room; cbn; lia)) as Hw. cbv zeta in Hw.
  change (preface_sent (new r l)) with false in Hw. unfold wp in Hw. rewrite Hi in Hw.
  assert (forall c', good 0 (settings_sent (prefaced (new r l))) c' ->
    exists fs, Forall (sendable MAX_MAX_FRAME_SIZE) (own_settings (new r l) :: fs) /\
             output_buffer c' = preface_of r ++ wires (own_settings (new r l) :: fs)) as Hk.
  { intros c' [_ []]. destruct ev_output0 as (fs & Hfs & Ho). exists fs. split.
    - constructor; [by apply own_settings_sendable|done].
    - rewrite Ho. change (own_settings (new r l) :: fs) with ([own_settings (new r l)] ++ fs).
      rewrite wires_app, app_assoc. f_equal. }
  destruct res as [[]|e|]; [| |done].
  - destruct Hw as [Hg Hp]. split_and!; [done|done|by apply Hk].
  - split_and!; [done|done|by apply Hk].
Qed.

(** ** Properties *)

(** C15: A connection writes the protocol's byte stream and nothing else. After
    [initiate], whatever the application calls and whatever octets it feeds,
    the octets it has polled together with those still to be polled are the
    connection preface (of a client), the own SETTINGS frame and then whole
    well-formed frames. The calls have arguments of their types ([call_ok]); the
    debug data of a GOAWAY has at most 2^24 - 9 octets, because above it the
    length field of the frame would be cut off; less than 2^64 octets are fed and
    less than 2^32 - 1 SETTINGS frames follow the first. And a peer that cuts the octets after the preface into
    arbitrary chunks decodes exactly these frames. *)
Theorem connection_output_is_frames `{HO : HashOrder, !HashOrderLaws HO} (r : Role.t) (l : Limits.t)
    (xs : list call) (rs : list (result Error.t reply)) (c : t) :
  limits_ok l -> Forall call_ok xs -> total_fed xs < 2 ^ 64 -> settings_calls xs < 2 ^ 32 - 1 ->
  run (Initiate :: xs) (new r l) = Some (Ok Done :: rs, c) ->
  exists fs bytes, written rs c = preface_of r ++ bytes /\
    forall chunks, concat chunks = bytes ->
    exists s, FrameDecoder.drain_chunks chunks (FrameDecoder.new MAX_MAX_FRAME_SIZE) =
              Some (own_settings (new r l) :: fs, None, s) /\ FrameDecoder.buf s = [].
Proof.
  intros Hl Hxs Hf Hs Hrun. cbn [run run_call] in Hrun.
  pose proof (run_call_safe 0 0 Initiate (new r l) (new_used r l Hl) I ltac:(cbn; lia) ltac:(cbn; lia)) as Hsafe.
  unfold call_safe, wp in Hsafe. cbn [run_call] in Hsafe.
  destruct (initiate (new r l)) as [res c1] eqn:Ei.
  destruct (initiate_new_output r l res c1 Hl Ei) as (_ & Hp & gs & Hgs & Ho).
  unfold bind at 1 in Hrun. unfold bind at 1 in Hsafe. rewrite Ei in Hrun, Hsafe.
  destruct res as [[]|e|]; cbn in Hrun, Hsafe; [| |done].
  2: { destruct (run xs c1) as [[]|]; cbn in Hrun; done. }
  destruct (run xs c1) as [[rs1 c2]|] eqn:Er; cbn in Hrun; [|done]. injection Hrun as <- <-.
  destruct Hsafe as [Hu _].
  destruct (run_appends xs _ _ c1 rs1 c2 Hu (or_introl (Hp eq_refl)) Hxs ltac:(lia) ltac:(lia) Er) as (fs & Hfs & Hw).
  exists (gs ++ fs), (wires (own_settings (new r l) :: gs ++ fs)).
  change (own_settings (new r l) :: gs ++ fs) with ((own_settings (new r l) :: gs) ++ fs).
  assert (Forall (sendable MAX_MAX_FRAME_SIZE) ((own_settings (new r l) :: gs) ++ fs)) as Hall by by apply Forall_app.
  split; [by rewrite Hw, Ho, wires_app, app_assoc|]. intros chunks Hc.
  by apply wires_decode.
Qed.

Definition sample_calls : list call :=
  [StartStream sample_request false; PollOutput; SendData stream_1 [1; 2; 3] true].

Definition sample_run : list (result Error.t reply) * t :=
  Eval vm_compute in default ([], new Role.Client sample_limits)
    (@run key_order (Initiate :: sample_calls) (new Role.Client sample_limits)).

Lemma connection_output_is_frames_witness :
  exists fs bytes, written (fst sample_run) (snd sample_run) = preface_of Role.Client ++ bytes /\
    forall chunks, concat chunks = bytes ->
    exists s, FrameDecoder.drain_chunks chunks (FrameDecoder.new MAX_MAX_FRAME_SIZE) =
              Some (own_settings (new Role.Client sample_limits) :: fs, None, s) /\ FrameDecoder.buf s = [].
Proof.
  apply (@connection_output_is_frames key_order key_order_laws Role.Client sample_limits sample_calls
           (tail (fst sample_run)) (snd sample_run)); [apply sample_limits_ok| |done|done|by vm_compute].
  repeat (constructor; [first [exact I|apply sample_request_ok|repeat constructor; by vm_compute]|]). constructor.
Defined.
