(* ===== verification/WtVarint.v ===== *)
(** * WtVarint: WebTransport errors and variable-length integers

    Models [src/src/webtransport/error.rs] and [src/src/webtransport/varint.rs].
    [encode] writes into a caller's buffer, which is its state. *)

From S2P Require Import Prelude.

Module WtErrorKind.
Inductive t : Type :=
| Incomplete | BufferTooShort | InvalidInput | CapsuleDecode | InvalidStreamId
| StreamStateError | FlowControlError | SessionStateError.
#[global] Instance eq_dec : EqDecision t.
Proof. solve_decision. Defined.
End WtErrorKind.

Module WtError.

(** The reason is the source's format template; location and backtrace are not
    kept. *)
Record t : Type := mk { kind : WtErrorKind.t; reason : string }.

Definition with_reason (kind : WtErrorKind.t) (reason : string) : t := mk kind reason.
Definition new (kind : WtErrorKind.t) : t := with_reason kind "".
Definition invalid_input (reason : string) : t := with_reason WtErrorKind.InvalidInput reason.
Definition capsule_decode (reason : string) : t := with_reason WtErrorKind.CapsuleDecode reason.
Definition invalid_stream_id (reason : string) : t := with_reason WtErrorKind.InvalidStreamId reason.
Definition stream_state_error (reason : string) : t := with_reason WtErrorKind.StreamStateError reason.
Definition flow_control_error (reason : string) : t := with_reason WtErrorKind.FlowControlError reason.
Definition session_state_error (reason : string) : t := with_reason WtErrorKind.SessionStateError reason.

End WtError.

Notation WtResult := (result WtError.t).

Module Varint.

Definition MAX_VALUE : Z := 4611686018427387903.
Definition MAX_1_BYTE : Z := 63.
Definition MAX_2_BYTES : Z := 16383.
Definition MAX_4_BYTES : Z := 1073741823.

Definition encoded_len (value : Z) : Z :=
  if value <=? MAX_1_BYTE then 1
  else if value <=? MAX_2_BYTES then 2
  else if value <=? MAX_4_BYTES then 4
  else 8.

(** [buf[i] = (value >> shift) as u8]. *)
Definition put_octet (i value shift : Z) : ST (list Z) WtError.t unit :=
  set_index i (as_u8 (Z.shiftr value shift)).

Definition encode (value : Z) : ST (list Z) WtError.t Z :=
  if value >? MAX_VALUE
  then throw (WtError.with_reason WtErrorKind.InvalidInput "varint value {value} exceeds maximum {MAX_VALUE}")
  else
    let n := encoded_len value in
    let! buf_len := gets len in
    if buf_len <? n
    then throw (WtError.with_reason WtErrorKind.BufferTooShort "need {len} bytes, got {}")
    else
      match n with
      | 1 => set_index 0 (as_u8 value)
      | 2 =>
          set_index 0 (Z.lor 0x40 (as_u8 (Z.shiftr value 8))) ;!
          set_index 1 (as_u8 value)
      | 4 =>
          set_index 0 (Z.lor 0x80 (as_u8 (Z.shiftr value 24))) ;!
          put_octet 1 value 16 ;!
          put_octet 2 value 8 ;!
          set_index 3 (as_u8 value)
      | 8 =>
          set_index 0 (Z.lor 0xc0 (as_u8 (Z.shiftr value 56))) ;!
          put_octet 1 value 48 ;!
          put_octet 2 value 40 ;!
          put_octet 3 value 32 ;!
          put_octet 4 value 24 ;!
          put_octet 5 value 16 ;!
          put_octet 6 value 8 ;!
          set_index 7 (as_u8 value)
      | _ => panic
      end ;!
      ret n.

(** [vec![0u8; encoded_len(value)]], filled. *)
Definition encode_to_vec (value : Z) : WtResult (list Z) :=
  match encode value (replicate (Z.to_nat (encoded_len value)) 0) with
  | (Ok _, buf) => Ok buf
  | (Err e, _) => Err e
  | (Panic, _) => Panic
  end.

Definition incomplete : WtError.t := WtError.new WtErrorKind.Incomplete.

(** [buf[i]] as a [u64], shifted left. *)
Definition octet (buf : list Z) (i shift : Z) : WtResult Z :=
  let? b := index buf i in Ok (Z.shiftl b shift).

Definition decode (buf : list Z) : WtResult (Z * Z) :=
  match buf with
  | [] => Err incomplete
  | first :: _ =>
      let prefix := Z.shiftr first 6 in
      let low := Z.land first 0x3f in
      match prefix with
      | 0 => Ok (low, 1)
      | 1 =>
          if len buf <? 2 then Err incomplete
          else
            let? b1 := octet buf 1 0 in
            Ok (Z.lor (Z.shiftl low 8) b1, 2)
      | 2 =>
          if len buf <? 4 then Err incomplete
          else
            let? b1 := octet buf 1 16 in
            let? b2 := octet buf 2 8 in
            let? b3 := octet buf 3 0 in
            Ok (Z.lor (Z.lor (Z.lor (Z.shiftl low 24) b1) b2) b3, 4)
      | 3 =>
          if len buf <? 8 then Err incomplete
          else
            let? b1 := octet buf 1 48 in
            let? b2 := octet buf 2 40 in
            let? b3 := octet buf 3 32 in
            let? b4 := octet buf 4 24 in
            let? b5 := octet buf 5 16 in
            let? b6 := octet buf 6 8 in
            let? b7 := octet buf 7 0 in
            Ok (Z.lor (Z.lor (Z.lor (Z.lor (Z.lor (Z.lor (Z.lor (Z.shiftl low 56) b1) b2) b3) b4) b5) b6) b7, 8)
      | _ => Panic
      end
  end.

(** ** Specification *)

(** A value a varint can carry, and its octets in the shortest form. *)
Definition ok (value : Z) : Prop := 0 <= value <= MAX_VALUE.

Fixpoint big_endian (n : nat) (value : Z) : list Z :=
  match n with
  | O => []
  | S n => value / 2 ^ (8 * Z.of_nat n) mod 256 :: big_endian n value
  end.

Definition prefix (value : Z) : Z :=
  match encoded_len value with 1 => 0 | 2 => 1 | 4 => 2 | _ => 3 end.

(** The length is in the two top bits, above the value in network order. *)
Definition octets (value : Z) : list Z :=
  let n := encoded_len value in
  big_endian (Z.to_nat n) (prefix value * 2 ^ (8 * n - 2) + value).

(** ** Encoding *)

Lemma encoded_len_cases v :
  encoded_len v = 1 /\ v <= MAX_1_BYTE \/
  encoded_len v = 2 /\ MAX_1_BYTE < v <= MAX_2_BYTES \/
  encoded_len v = 4 /\ MAX_2_BYTES < v <= MAX_4_BYTES \/
  encoded_len v = 8 /\ MAX_4_BYTES < v.
Proof. unfold encoded_len. repeat case_match; zbool; lia. Qed.

Lemma encoded_len_bounds v : 1 <= encoded_len v <= 8.
Proof. pose proof (encoded_len_cases v). lia. Qed.

Lemma len_big_endian n v : len (big_endian n v) = Z.of_nat n.
Proof. induction n; cbn [big_endian]; rewrite ?len_cons; lia || done. Qed.

Lemma len_octets v : len (octets v) = encoded_len v.
Proof. unfold octets. rewrite len_big_endian. pose proof (encoded_len_bounds v). lia. Qed.

Lemma big_endian_bytes n v : bytes_ok (big_endian n v).
Proof. induction n; constructor; [apply Z.mod_pos_bound; lia|done]. Qed.

Lemma octets_bytes v : bytes_ok (octets v).
Proof. apply big_endian_bytes. Qed.

Lemma octets_not_nil v : octets v <> [].
Proof.
  intros H. pose proof (len_octets v) as L. rewrite H in L.
  pose proof (encoded_len_bounds v). rewrite len_nil in L. lia.
Qed.

(** Splits the proof by the length of the encoding and leaves it as a number. *)
Ltac by_length v :=
  destruct (encoded_len_cases v) as [[L ?]|[[L ?]|[[L ?]|[L ?]]]];
  unfold octets, prefix, MAX_1_BYTE, MAX_2_BYTES, MAX_4_BYTES in *; rewrite L; clear L.

Lemma set_index_in {E} i v buf :
  0 <= i < len buf -> @set_index E i v buf = (Ok tt, <[Z.to_nat i := v]> buf).
Proof. intros. unfold set_index. by replace ((0 <=? i) && (i <? len buf)) with true by (symmetry; lia). Qed.

(** Runs assignments at constant indices of a list given cell by cell. *)
Ltac assign :=
  unfold put_octet;
  repeat (rewrite ?bind_assoc;
          erewrite bind_Ok by (apply set_index_in; len_lia);
          repeat match goal with
          | |- context [ <[Z.to_nat ?k := _]> _ ] =>
              let n := eval vm_compute in (Z.to_nat k) in change (Z.to_nat k) with n
          end; cbn [insert list_insert]).

Lemma lor_top a x n : 0 <= n -> 0 <= x < 2 ^ n -> Z.lor (a * 2 ^ n) x = a * 2 ^ n + x.
Proof. intros. rewrite <- (Z.shiftl_mul_pow2 a n) at 1 by done. by apply lor_shiftl_add. Qed.

Lemma encode_octets v a b :
  ok v -> len a = encoded_len v -> encode v (a ++ b) = (Ok (encoded_len v), octets v ++ b).
Proof.
  unfold ok. intros Hv Ha. unfold encode.
  replace (v >? MAX_VALUE) with false by (symmetry; rewrite Z.gtb_ltb; lia).
  rewrite bind_gets.
  replace (len (a ++ b) <? encoded_len v) with false by (symmetry; len_lia).
  unfold MAX_VALUE in Hv. revert Ha.
  by_length v; intros Ha;
  repeat (destruct a as [|? a]; rewrite ?len_nil, ?len_cons in Ha; [try lia|try (pose proof (len_nonneg a); lia)]).
  all: cbn [app]; assign; unfold ret; f_equal.
  all: repeat match goal with
       | |- context [ big_endian ?n ] =>
           let m := eval vm_compute in n in progress change n with m
       end; cbn [big_endian app].
  all: try (rewrite (lor_top 1 _ 6) || rewrite (lor_top 2 _ 6) || rewrite (lor_top 3 _ 6); [|lia|byte_arith]).
  all: repeat f_equal; byte_arith.
Qed.

Lemma encode_to_vec_octets v : ok v -> encode_to_vec v = Ok (octets v).
Proof.
  intros Hv. unfold encode_to_vec. pose proof (encoded_len_bounds v).
  rewrite <- (app_nil_r (replicate _ _)), encode_octets; [by rewrite app_nil_r|done|len_lia].
Qed.

Lemma encode_too_large v buf : MAX_VALUE < v -> exists e, encode v buf = (Err e, buf).
Proof. intros H. unfold encode. case_match; zbool; [eauto|lia]. Qed.

(** ** Decoding *)

(** The number of octets the first one announces, and the value of octets in
    network order. *)
Definition announced (first : Z) : Z := 2 ^ (first / 64).
Definition be_value (l : list Z) : Z := fold_left (fun acc b => acc * 256 + b) l 0.

(** Reads at constant indices, and takes a constant number of cells. *)
Ltac read_cells :=
  unfold octet;
  repeat match goal with
  | |- context [ index ?l ?k ] =>
      let r := eval lazy in (@index WtError.t Z l k) in
      lazymatch r with Ok _ => change (index l k) with r; cbn [rbind] end
  | |- context [ take ?k ?l ] =>
      let r := eval lazy in (take k l) in change (take k l) with r
  end.

(** Brings a chain of [lor]s of octets of [Hb] in the form of [lor_shiftl_add]. *)
Ltac octets_in Hb :=
  rewrite ?Z.shiftl_0_r, <- ?Z.lor_assoc;
  repeat (apply Forall_cons in Hb as [? Hb]); unfold u8_ok in *.

(** [decode] reads the announced octets. *)
Lemma decode_spec first buf :
  bytes_ok (first :: buf) ->
  decode (first :: buf) =
    if 1 + len buf <? announced first then Err incomplete
    else Ok (be_value (first mod 64 :: take (Z.to_nat (announced first - 1)) buf), announced first).
Proof.
  intros H. unfold decode, announced.
  apply Forall_cons in H as [Hf Hb]. change 0x3f with (Z.ones 6). rewrite Z.land_ones by lia.
  rewrite Z.shiftr_div_pow2 by lia. change (2 ^ 6) with 64.
  assert (first / 64 = 0 \/ first / 64 = 1 \/ first / 64 = 2 \/ first / 64 = 3) as Hc
    by (unfold u8_ok in Hf; Z.div_mod_to_equations; lia).
  assert (0 <= first mod 64 < 64) by (apply Z.mod_pos_bound; lia).
  rewrite !len_cons. pose proof (len_nonneg buf).
  destruct Hc as [->|[->|[->| ->]]];
    [replace (1 + len buf <? 2 ^ 0) with false by (symmetry; lia); reflexivity|..];
    match goal with |- context [ _ <? 2 ^ ?k ] => let n := eval vm_compute in (2 ^ k) in change (2 ^ k) with n end;
    case_match; try done; zbool.
  - destruct buf as [|b1 buf]; rewrite ?len_cons, ?len_nil in *; try lia.
    read_cells. octets_in Hb. rewrite lor_shiftl_add by lia. done.
  - destruct buf as [|b1 [|b2 [|b3 buf]]]; rewrite ?len_cons, ?len_nil in *; try lia.
    read_cells. octets_in Hb.
    rewrite (lor_shiftl_add b2 8), (lor_shiftl_add b1 16), lor_shiftl_add by lia.
    cbn [be_value fold_left]. do 2 f_equal. unfold be_value. cbn [fold_left]. lia.
  - destruct buf as [|b1 [|b2 [|b3 [|b4 [|b5 [|b6 [|b7 buf]]]]]]]; rewrite ?len_cons, ?len_nil in *; try lia.
    read_cells. octets_in Hb.
    rewrite (lor_shiftl_add b6 8), (lor_shiftl_add b5 16), (lor_shiftl_add b4 24),
      (lor_shiftl_add b3 32), (lor_shiftl_add b2 40), (lor_shiftl_add b1 48), lor_shiftl_add by lia.
    do 2 f_equal. unfold be_value. cbn [fold_left]. lia.
Qed.

Lemma fold_big_endian n x acc :
  fold_left (fun acc b => acc * 256 + b) (big_endian n x) acc = acc * 256 ^ Z.of_nat n + x mod 256 ^ Z.of_nat n.
Proof.
  revert acc. induction n as [|n IH]; intros acc; cbn [big_endian fold_left].
  - change (256 ^ Z.of_nat 0) with 1. rewrite Z.mod_1_r. lia.
  - rewrite IH. rewrite Nat2Z.inj_succ, Z.pow_succ_r by lia.
    replace (2 ^ (8 * Z.of_nat n)) with (256 ^ Z.of_nat n) by (by rewrite Z.pow_mul_r by lia).
    pose proof (Z.pow_pos_nonneg 256 (Z.of_nat n)).
    rewrite (Z.mul_comm 256 (256 ^ _)), (Z.rem_mul_r x) by lia. lia.
Qed.

Lemma decode_app first tail rest :
  bytes_ok (first :: tail) -> bytes_ok rest -> 1 + len tail = announced first ->
  decode (first :: tail ++ rest) = Ok (be_value (first mod 64 :: tail), announced first).
Proof.
  intros [Hf Ht]%Forall_cons Hr Hn. rewrite decode_spec, len_app, <- Hn.
  - pose proof (len_nonneg rest). case_match; zbool; [lia|].
    rewrite take_app_length'; [done|]. rewrite length_len. f_equal. lia.
  - constructor; [done|]. by apply bytes_ok_app.
Qed.

(** An integer under its length tag. *)
Lemma decode_tagged p n v rest :
  0 <= p <= 3 -> Z.of_nat (S n) = 2 ^ p -> 0 <= v < 64 * 256 ^ Z.of_nat n -> bytes_ok rest ->
  decode (big_endian (S n) (p * (64 * 256 ^ Z.of_nat n) + v) ++ rest) = Ok (v, Z.of_nat (S n)).
Proof.
  intros Hp Hn Hv Hr. cbn [big_endian app].
  set (x := _ + v). set (P := 256 ^ Z.of_nat n) in *.
  assert (0 < P) by (subst P; apply Z.pow_pos_nonneg; lia).
  replace (2 ^ (8 * Z.of_nat n)) with P by (subst P; by rewrite (Z.pow_mul_r 2 8) by lia).
  assert (0 <= v / P < 64) by (split; [apply Z.div_pos|apply Z.div_lt_upper_bound]; lia).
  assert (x / P = p * 64 + v / P) as E
    by (subst x; rewrite Z.mul_assoc, Z.div_add_l by lia; lia).
  rewrite (Z.mod_small (x / P)), E by lia.
  assert (announced (p * 64 + v / P) = Z.of_nat (S n)) as Ea.
  { unfold announced. rewrite Hn. f_equal. Z.div_mod_to_equations. lia. }
  rewrite decode_app, Ea; [|constructor|done|].
  - do 2 f_equal. unfold be_value. cbn [fold_left]. rewrite fold_big_endian.
    replace ((p * 64 + v / P) mod 64) with (v / P) by (Z.div_mod_to_equations; lia).
    fold P. replace (x mod P) with (v mod P)
      by (subst x; by rewrite Z.mul_assoc, (Z.add_comm _ v), Z.mod_add by lia).
    pose proof (Z.div_mod v P). lia.
  - unfold u8_ok. lia.
  - apply big_endian_bytes.
  - rewrite len_big_endian, Ea. lia.
Qed.

Lemma octets_decode v rest :
  ok v -> bytes_ok rest -> decode (octets v ++ rest) = Ok (v, encoded_len v).
Proof.
  unfold ok, MAX_VALUE. intros Hv Hr.
  by_length v;
    [apply (decode_tagged 0 0)|apply (decode_tagged 1 1)|apply (decode_tagged 2 3)|apply (decode_tagged 3 7)];
    done || lia.
Qed.

Lemma announced_cases first :
  u8_ok first ->
  exists p n : nat, (p <= 3)%nat /\ announced first = Z.of_nat (S n) /\ Z.of_nat (S n) = 2 ^ Z.of_nat p /\ (n <= 7)%nat.
Proof.
  unfold u8_ok, announced. intros H.
  assert (first / 64 = 0 \/ first / 64 = 1 \/ first / 64 = 2 \/ first / 64 = 3) as [E|[E|[E|E]]]
    by (Z.div_mod_to_equations; lia); rewrite E;
    [exists 0%nat, 0%nat|exists 1%nat, 1%nat|exists 2%nat, 3%nat|exists 3%nat, 7%nat]; repeat split; lia.
Qed.

Lemma fold_bound l acc :
  bytes_ok l -> 0 <= acc ->
  acc * 256 ^ len l <= fold_left (fun acc b => acc * 256 + b) l acc < (acc + 1) * 256 ^ len l.
Proof.
  intros Hl. revert acc. induction Hl as [|b l Hb Hl IH]; intros acc Ha; cbn [fold_left].
  - rewrite len_nil. change (256 ^ 0) with 1. lia.
  - unfold u8_ok in Hb. specialize (IH (acc * 256 + b)). rewrite len_cons, Z.pow_add_r by (pose proof (len_nonneg l); lia).
    change (256 ^ 1) with 256. pose proof (Z.pow_pos_nonneg 256 (len l)). pose proof (len_nonneg l). nia.
Qed.

(** What a decoded varint is: in range, within the buffer, at most eight octets
    long and not shorter than the shortest form of its value. *)
Lemma decode_bounds buf :
  bytes_ok buf ->
  safe (fun '(v, n) => ok v /\ encoded_len v <= n <= len buf /\ n <= 8) (decode buf).
Proof.
  intros Hb. destruct buf as [|first buf]; [done|].
  rewrite decode_spec by done. apply Forall_cons in Hb as [Hf Hb].
  destruct (announced_cases first Hf) as (p & n & Hp & Ha & Hn & Hn').
  case_match; [done|]. zbool. cbn [safe]. rewrite Ha in *.
  set (tail := take _ buf).
  assert (len tail = Z.of_nat n) as Ht by (subst tail; rewrite len_take; lia).
  unfold be_value. cbn [fold_left]. rewrite Z.mul_0_l, Z.add_0_l.
  pose proof (fold_bound tail (first mod 64)) as B. rewrite Ht in B.
  assert (bytes_ok tail) as Htb by (by apply Forall_take).
  assert (0 <= first mod 64 < 64) by (apply Z.mod_pos_bound; lia).
  specialize (B Htb ltac:(lia)). set (v := fold_left _ _ _) in *.
  assert (0 <= v < 64 * 256 ^ Z.of_nat n) as Hv.
  { pose proof (Z.pow_pos_nonneg 256 (Z.of_nat n)). nia. }
  rewrite len_cons. clearbody v. clear B.
  assert (n = 0 \/ n = 1 \/ n = 3 \/ n = 7)%nat as Hc.
  { destruct p as [|[|[|[|]]]]; [..|lia]; lia. }
  unfold ok, MAX_VALUE.
  destruct (encoded_len_cases v) as [|[|[|]]]; unfold MAX_1_BYTE, MAX_2_BYTES, MAX_4_BYTES in *;
    destruct Hc as [->|[->|[->| ->]]]; cbn in Hv; lia.
Qed.

Lemma decode_error buf e : bytes_ok buf -> decode buf = Err e -> e = incomplete.
Proof.
  destruct buf as [|first buf]; [by intros _ [= <-]|].
  intros Hb. rewrite decode_spec by done. by case_match; intros [= <-].
Qed.

(** More octets do not change what was read. *)
Lemma decode_extend buf more r :
  bytes_ok buf -> bytes_ok more -> decode buf = Ok r -> decode (buf ++ more) = Ok r.
Proof.
  intros Hb Hm. destruct buf as [|first buf]; [done|]. cbn [app].
  rewrite !decode_spec by (done || apply (proj2 (bytes_ok_app (first :: buf) more)); done).
  rewrite len_app. pose proof (len_nonneg more).
  case_match; [done|]. case_match; zbool; [lia|]. intros <-.
  rewrite take_app_le; [done|]. rewrite length_len. lia.
Qed.

(** The variable-length integers of WebTransport.  A value of at most
    [MAX_VALUE] is encoded, into a buffer of the computed length, without error;
    the octets, followed by any others, decode to the value and to their own
    number; and no encoding of the value that [decode] reads is shorter. *)
Theorem varint_shortest_round_trip v rest :
  ok v -> bytes_ok rest ->
  exists buf,
    encode_to_vec v = Ok buf /\
    bytes_ok buf /\
    len buf = encoded_len v /\
    decode (buf ++ rest) = Ok (v, len buf) /\
    forall buf' n, bytes_ok buf' -> decode buf' = Ok (v, n) -> len buf <= n.
Proof.
  intros Hv Hr. exists (octets v). rewrite len_octets.
  repeat split; [by apply encode_to_vec_octets|apply octets_bytes|by apply octets_decode|].
  intros buf' n Hb E. pose proof (decode_bounds buf' Hb) as H. rewrite E in H. cbn in H. lia.
Qed.

Lemma varint_shortest_round_trip_witness :
  decode ([0x40 + 0x3b; 0xe5] ++ [7]) = Ok (15333, 2) /\
  exists buf, encode_to_vec 15333 = Ok buf /\ bytes_ok buf /\ len buf = encoded_len 15333 /\
    decode (buf ++ [7]) = Ok (15333, len buf) /\
    forall buf' n, bytes_ok buf' -> decode buf' = Ok (15333, n) -> len buf <= n.
Proof.
  split; [vm_compute; reflexivity|].
  apply (varint_shortest_round_trip 15333 [7]).
  - unfold ok, MAX_VALUE. lia.
  - repeat constructor; unfold u8_ok; lia.
Defined.

End Varint.
