(* ===== verification/WtStream.v ===== *)
(** * WtStream: flow control and streams of a WebTransport session

    Models [src/src/webtransport/flow_control.rs] (module [WtFlowControl]) and
    [src/src/webtransport/stream.rs] (modules [StreamId], [SendState],
    [RecvState], [WtStream]).  Counters are [u64]: additions that saturate in
    the code saturate here, and the unchecked ones panic on overflow. *)

From S2P Require Import Prelude WtVarint.

(** [u64::saturating_mul]. *)
Definition saturating_mul (a b : Z) : Z := Z.min (2 ^ 64 - 1) (a * b).

(** [x += 1] on a [u64]. *)
Definition succ_u64 {E} (x : Z) : result E Z := if x + 1 <? 2 ^ 64 then Ok (x + 1) else Panic.

Definition MAX_STREAMS_LIMIT : Z := 2 ^ 60.

Module WtFlowControl.

Record t : Type := mk {
  send_max : Z;
  send_offset : Z;
  recv_max : Z;
  recv_offset : Z;
  max_streams_bidi_local : Z;
  max_streams_bidi_remote : Z;
  max_streams_uni_local : Z;
  max_streams_uni_remote : Z;
  opened_streams_bidi : Z;
  opened_streams_uni : Z
}.

#[global] Instance eta_wt_flow : Eta t := fun s =>
  mk (send_max s) (send_offset s) (recv_max s) (recv_offset s)
    (max_streams_bidi_local s) (max_streams_bidi_remote s)
    (max_streams_uni_local s) (max_streams_uni_remote s)
    (opened_streams_bidi s) (opened_streams_uni s).

Definition new (send_max recv_max max_streams_bidi_local max_streams_bidi_remote
    max_streams_uni_local max_streams_uni_remote : Z) : t :=
  mk send_max 0 recv_max 0 max_streams_bidi_local max_streams_bidi_remote
    max_streams_uni_local max_streams_uni_remote 0 0.

Definition send_available (s : t) : Z := saturating_sub (send_max s) (send_offset s).
Definition recv_available (s : t) : Z := saturating_sub (recv_max s) (recv_offset s).

Definition check_max_streams_increase (current maximum : Z) : WtResult unit :=
  if maximum >? MAX_STREAMS_LIMIT
  then Err (WtError.flow_control_error "WT_MAX_STREAMS ({label}) value {maximum} exceeds 2^60 limit")
  else if maximum <=? current
  then Err (WtError.flow_control_error
    "WT_MAX_STREAMS ({label}) value {maximum} does not increase the {context} maximum {current}")
  else Ok tt.

Definition consume_send (size : Z) : ST t WtError.t unit :=
  let! new_offset := gets (fun s => saturating_add (send_offset s) size) in
  let! max := gets send_max in
  if new_offset >? max
  then throw (WtError.flow_control_error "send window exhausted")
  else modify (fun s => s <| send_offset := new_offset |>).

Definition consume_recv (size : Z) : ST t WtError.t unit :=
  let! new_offset := gets (fun s => saturating_add (recv_offset s) size) in
  let! max := gets recv_max in
  if new_offset >? max
  then throw (WtError.flow_control_error "recv window exceeded")
  else modify (fun s => s <| recv_offset := new_offset |>).

Definition update_send_max (maximum : Z) : ST t WtError.t unit :=
  if maximum >? Varint.MAX_VALUE
  then throw (WtError.flow_control_error "WT_MAX_DATA value {maximum} exceeds varint maximum {}")
  else
    let! current := gets send_max in
    if maximum <=? current
    then throw (WtError.flow_control_error
      "WT_MAX_DATA value {maximum} does not increase the current maximum {}")
    else modify (fun s => s <| send_max := maximum |>).

Definition update_recv_max (maximum : Z) : ST t WtError.t unit :=
  if maximum >? Varint.MAX_VALUE
  then throw (WtError.flow_control_error "WT_MAX_DATA value {maximum} exceeds varint maximum {}")
  else
    let! current := gets recv_max in
    if maximum <=? current
    then throw (WtError.flow_control_error
      "WT_MAX_DATA value {maximum} does not increase the advertised maximum {}")
    else modify (fun s => s <| recv_max := maximum |>).

Definition can_open_bidi_stream (s : t) : bool := opened_streams_bidi s <? max_streams_bidi_remote s.
Definition can_open_uni_stream (s : t) : bool := opened_streams_uni s <? max_streams_uni_remote s.

Definition opened_stream (bidirectional : bool) : ST t WtError.t unit :=
  if bidirectional
  then
    let! n := gets opened_streams_bidi in
    let! n := lift (succ_u64 n) in
    modify (fun s => s <| opened_streams_bidi := n |>)
  else
    let! n := gets opened_streams_uni in
    let! n := lift (succ_u64 n) in
    modify (fun s => s <| opened_streams_uni := n |>).

Definition can_accept_stream (stream_id : Z) (s : t) : bool :=
  let bidirectional := Z.land stream_id 0x02 =? 0 in
  let first_id := Z.land stream_id 0x03 in
  let max_streams :=
    if bidirectional then max_streams_bidi_local s else max_streams_uni_local s in
  stream_id <? saturating_add (saturating_mul max_streams 4) first_id.

Definition update_max_streams (maximum : Z) (bidirectional : bool) : ST t WtError.t unit :=
  let! current := gets (fun s =>
    if bidirectional then max_streams_bidi_remote s else max_streams_uni_remote s) in
  lift (check_max_streams_increase current maximum) ;!
  if bidirectional
  then modify (fun s => s <| max_streams_bidi_remote := maximum |>)
  else modify (fun s => s <| max_streams_uni_remote := maximum |>).

Definition update_max_streams_local (maximum : Z) (bidirectional : bool) : ST t WtError.t unit :=
  let! current := gets (fun s =>
    if bidirectional then max_streams_bidi_local s else max_streams_uni_local s) in
  lift (check_max_streams_increase current maximum) ;!
  if bidirectional
  then modify (fun s => s <| max_streams_bidi_local := maximum |>)
  else modify (fun s => s <| max_streams_uni_local := maximum |>).

Definition is_send_blocked (s : t) : bool := send_offset s >=? send_max s.
Definition is_bidi_streams_blocked (s : t) : bool := opened_streams_bidi s >=? max_streams_bidi_remote s.
Definition is_uni_streams_blocked (s : t) : bool := opened_streams_uni s >=? max_streams_uni_remote s.

(** [initial_max_data.div_ceil(2)]. *)
Definition should_send_max_data (initial_max_data : Z) (s : t) : bool :=
  recv_available s <? (initial_max_data + 1) / 2.

(** ** Specification *)

(** The data limits are varints and the offsets stay below them; the stream
    counts are at most 2^60, and no more streams were opened than the peer
    allowed. *)
Record wf (s : t) : Prop := {
  wf_send : 0 <= send_offset s <= send_max s;
  wf_recv : 0 <= recv_offset s <= recv_max s;
  wf_send_max : send_max s <= Varint.MAX_VALUE;
  wf_recv_max : recv_max s <= Varint.MAX_VALUE;
  wf_bidi_local : 0 <= max_streams_bidi_local s <= MAX_STREAMS_LIMIT;
  wf_uni_local : 0 <= max_streams_uni_local s <= MAX_STREAMS_LIMIT;
  wf_bidi : 0 <= opened_streams_bidi s <= max_streams_bidi_remote s;
  wf_uni : 0 <= opened_streams_uni s <= max_streams_uni_remote s;
  wf_bidi_remote : max_streams_bidi_remote s <= MAX_STREAMS_LIMIT;
  wf_uni_remote : max_streams_uni_remote s <= MAX_STREAMS_LIMIT
}.

(** What only grows. *)
Record grows (s s' : t) : Prop := {
  grows_send_max : send_max s <= send_max s';
  grows_send_offset : send_offset s <= send_offset s';
  grows_recv_max : recv_max s <= recv_max s';
  grows_recv_offset : recv_offset s <= recv_offset s';
  grows_bidi_local : max_streams_bidi_local s <= max_streams_bidi_local s';
  grows_bidi_remote : max_streams_bidi_remote s <= max_streams_bidi_remote s';
  grows_uni_local : max_streams_uni_local s <= max_streams_uni_local s';
  grows_uni_remote : max_streams_uni_remote s <= max_streams_uni_remote s'
}.

End WtFlowControl.

(** A stream identifier is a [u64]: bit 0 names the initiator, bit 1 the
    direction. *)
Module StreamId.

Definition is_client_initiated (id : Z) : bool := Z.land id 0x01 =? 0.
Definition is_server_initiated (id : Z) : bool := Z.land id 0x01 =? 1.
Definition is_bidirectional (id : Z) : bool := Z.land id 0x02 =? 0.
Definition is_unidirectional (id : Z) : bool := Z.land id 0x02 =? 2.

(** [id + 4]. *)
Definition next {E} (id : Z) : result E Z := if id + 4 <? 2 ^ 64 then Ok (id + 4) else Panic.

Definition first (client bidirectional : bool) : Z :=
  let initiator := if client then 0 else 1 in
  let direction := if bidirectional then 0 else 2 in
  Z.lor initiator direction.

End StreamId.

Module SendState.
Inductive t : Type := Ready | Send | DataRecvd | ResetRecvd.
Definition default : t := Ready.
Definition can_send (s : t) : bool := match s with Ready | Send => true | _ => false end.
Definition is_terminal (s : t) : bool := match s with DataRecvd | ResetRecvd => true | _ => false end.
#[global] Instance eq_dec : EqDecision t.
Proof. solve_decision. Defined.
End SendState.

Module RecvState.
Inductive t : Type := Recv | DataRecvd | DataRead | ResetRead.
Definition default : t := Recv.
Definition can_recv (s : t) : bool := match s with Recv => true | _ => false end.
Definition is_terminal (s : t) : bool := match s with DataRead | ResetRead => true | _ => false end.
#[global] Instance eq_dec : EqDecision t.
Proof. solve_decision. Defined.
End RecvState.

Module WtStream.

Record t : Type := mk {
  id : Z;
  bidirectional : bool;
  locally_initiated : bool;
  send_state : SendState.t;
  recv_state : RecvState.t;
  send_offset : Z;
  recv_offset : Z;
  send_max : Z;
  recv_max : Z;
  stop_sending_sent : bool;
  stop_sending_received : bool;
  has_received_data : bool
}.

#[global] Instance eta_wt_stream : Eta t := fun s =>
  mk (id s) (bidirectional s) (locally_initiated s) (send_state s) (recv_state s)
    (send_offset s) (recv_offset s) (send_max s) (recv_max s)
    (stop_sending_sent s) (stop_sending_received s) (has_received_data s).

Definition new (id send_max recv_max : Z) (bidirectional locally_initiated : bool) : t :=
  mk id bidirectional locally_initiated SendState.Ready RecvState.Recv 0 0 send_max recv_max
    false false false.

Definition has_recv_part (s : t) : bool := bidirectional s || negb (locally_initiated s).
Definition has_send_part (s : t) : bool := bidirectional s || locally_initiated s.
Definition can_send (s : t) : bool := SendState.can_send (send_state s).
Definition can_recv (s : t) : bool := RecvState.can_recv (recv_state s).
Definition send_available (s : t) : Z := saturating_sub (send_max s) (send_offset s).
Definition recv_available (s : t) : Z := saturating_sub (recv_max s) (recv_offset s).

Definition send_data (size : Z) (fin : bool) : ST t WtError.t unit :=
  let! ok := gets can_send in
  if negb ok then throw (WtError.stream_state_error "cannot send in current state")
  else
    let! new_offset := gets (fun s => saturating_add (send_offset s) size) in
    let! max := gets send_max in
    if new_offset >? max
    then throw (WtError.flow_control_error "stream send limit exceeded")
    else
      modify (fun s => s <| send_offset := new_offset |>) ;!
      if fin
      then modify (fun s => s <| send_state := SendState.DataRecvd |>)
      else modify (fun s => s <| send_state := SendState.Send |>).

Definition send_reset (s : t) : t := s <| send_state := SendState.ResetRecvd |>.

Definition recv_data (size : Z) (fin : bool) : ST t WtError.t unit :=
  let! ok := gets can_recv in
  if negb ok then throw (WtError.stream_state_error "cannot receive in current state")
  else
    let! new_offset := gets (fun s => saturating_add (recv_offset s) size) in
    let! max := gets recv_max in
    if new_offset >? max
    then throw (WtError.flow_control_error "stream recv limit exceeded")
    else
      modify (fun s => s <| recv_offset := new_offset |>) ;!
      if fin
      then modify (fun s => s <| recv_state := RecvState.DataRecvd |>)
      else ret tt.

Definition recv_reset (s : t) : t := s <| recv_state := RecvState.ResetRead |>.

Definition mark_data_read (s : t) : t :=
  if decide (recv_state s = RecvState.DataRecvd)
  then s <| recv_state := RecvState.DataRead |>
  else s.

Definition update_send_max (maximum : Z) : ST t WtError.t unit :=
  if maximum >? Varint.MAX_VALUE
  then throw (WtError.flow_control_error "WT_MAX_STREAM_DATA value {maximum} exceeds varint maximum {}")
  else
    let! current := gets send_max in
    if maximum <=? current
    then throw (WtError.flow_control_error
      "WT_MAX_STREAM_DATA value {maximum} does not increase the current maximum {}")
    else modify (fun s => s <| send_max := maximum |>).

Definition update_recv_max (maximum : Z) : ST t WtError.t unit :=
  if maximum >? Varint.MAX_VALUE
  then throw (WtError.flow_control_error "recv_max exceeds varint maximum value")
  else
    let! current := gets recv_max in
    if maximum >? current
    then modify (fun s => s <| recv_max := maximum |>)
    else ret tt.

Definition is_closed (s : t) : bool :=
  if bidirectional s
  then SendState.is_terminal (send_state s) && RecvState.is_terminal (recv_state s)
  else if locally_initiated s
  then SendState.is_terminal (send_state s)
  else RecvState.is_terminal (recv_state s).

Definition set_stop_sending_sent (s : t) : t := s <| stop_sending_sent := true |>.
Definition set_stop_sending_received (s : t) : t := s <| stop_sending_received := true |>.
Definition set_has_received_data (s : t) : t := s <| has_received_data := true |>.

(** ** Specification *)

Record wf (s : t) : Prop := {
  wf_send : 0 <= send_offset s <= send_max s;
  wf_recv : 0 <= recv_offset s <= recv_max s;
  wf_send_max : send_max s <= Varint.MAX_VALUE;
  wf_recv_max : recv_max s <= Varint.MAX_VALUE
}.

End WtStream.
