(* ===== verification/WtCapsule.v ===== *)
(** * WtCapsule: the capsules of WebTransport over HTTP/2

    Models [src/src/webtransport/capsule.rs].  A capsule is a type and a length,
    both varints, and a payload.  [CapsuleEncoder] appends to its buffer;
    [CapsuleDecoder] keeps the octets that do not make a whole capsule yet.
    A [String] is the list of its octets. *)

From S2P Require Import Prelude Syntax WtVarint WtStream.

Module CapsuleType.
Definition DATAGRAM : Z := 0x00.
Definition PADDING : Z := 0x190B4D38.
Definition WT_RESET_STREAM : Z := 0x190B4D39.
Definition WT_STOP_SENDING : Z := 0x190B4D3A.
Definition WT_STREAM : Z := 0x190B4D3C.
Definition WT_STREAM_FIN : Z := 0x190B4D3B.
Definition WT_MAX_DATA : Z := 0x190B4D3D.
Definition WT_MAX_STREAM_DATA : Z := 0x190B4D3E.
Definition WT_MAX_STREAMS_BIDI : Z := 0x190B4D3F.
Definition WT_MAX_STREAMS_UNI : Z := 0x190B4D40.
Definition WT_DATA_BLOCKED : Z := 0x190B4D41.
Definition WT_STREAM_DATA_BLOCKED : Z := 0x190B4D42.
Definition WT_STREAMS_BLOCKED_BIDI : Z := 0x190B4D43.
Definition WT_STREAMS_BLOCKED_UNI : Z := 0x190B4D44.
Definition WT_CLOSE_SESSION : Z := 0x2843.
Definition WT_DRAIN_SESSION : Z := 0x78AE.
End CapsuleType.

Definition MAX_CLOSE_REASON_LEN : Z := 1024.
Definition MAX_APPLICATION_ERROR_CODE : Z := 0xffffffff.

Module Capsule.
Inductive t : Type :=
| Datagram (data : list Z)
| Padding (length : Z)
| WtResetStream (stream_id error_code reliable_size : Z)
| WtStopSending (stream_id error_code : Z)
| WtStream (stream_id : Z) (data : list Z) (fin : bool)
| WtMaxData (maximum : Z)
| WtMaxStreamData (stream_id maximum : Z)
| WtMaxStreams (maximum : Z) (bidirectional : bool)
| WtDataBlocked (maximum : Z)
| WtStreamDataBlocked (stream_id maximum : Z)
| WtStreamsBlocked (maximum : Z) (bidirectional : bool)
| WtCloseSession (error_code : Z) (reason : list Z)
| WtDrainSession
| Unknown (capsule_type : Z) (data : list Z).
End Capsule.
Import Capsule.

(** ** The encoder; its state is its buffer *)
Module CapsuleEncoder.

Record t : Type := mk { buffer : list Z }.
#[global] Instance eta_capsule_encoder : Eta t := fun s => mk (buffer s).

Definition new : t := mk [].
Definition default : t := mk [].

Notation M := (ST t WtError.t).

Definition extend_from_slice (data : list Z) : M unit :=
  modify (fun s => s <| buffer := buffer s ++ data |>).

(** [self.buffer.resize(self.buffer.len() + n, 0)]. *)
Definition grow (n : Z) : M unit :=
  let! size := gets (fun s => len (buffer s)) in
  lift (add_usize size n) ;!
  modify (fun s => s <| buffer := buffer s ++ replicate (Z.to_nat n) 0 |>).

(** [varint::encode(value, &mut self.buffer[start..]).expect(..)]. *)
Definition encode_at (start value : Z) : M unit := fun s =>
  let '(r, tail) := Varint.encode value (drop (Z.to_nat start) (buffer s)) in
  (match r with Ok _ => Ok tt | _ => Panic end,
   s <| buffer := take (Z.to_nat start) (buffer s) ++ tail |>).

Definition encode_varint (value : Z) : M unit :=
  let n := Varint.encoded_len value in
  let! start := gets (fun s => len (buffer s)) in
  grow n ;!
  encode_at start value.

Definition encode_header (capsule_type length : Z) : M unit :=
  encode_varint capsule_type ;!
  encode_varint length.

Definition encode (capsule : Capsule.t) : M unit :=
  match capsule with
  | Datagram data =>
      encode_header CapsuleType.DATAGRAM (len data) ;!
      extend_from_slice data
  | Padding length =>
      encode_header CapsuleType.PADDING length ;!
      grow length
  | WtResetStream stream_id error_code reliable_size =>
      let payload_len := Varint.encoded_len stream_id + Varint.encoded_len error_code
                         + Varint.encoded_len reliable_size in
      encode_header CapsuleType.WT_RESET_STREAM payload_len ;!
      encode_varint stream_id ;!
      encode_varint error_code ;!
      encode_varint reliable_size
  | WtStopSending stream_id error_code =>
      let payload_len := Varint.encoded_len stream_id + Varint.encoded_len error_code in
      encode_header CapsuleType.WT_STOP_SENDING payload_len ;!
      encode_varint stream_id ;!
      encode_varint error_code
  | WtStream stream_id data fin =>
      let capsule_type := if fin then CapsuleType.WT_STREAM_FIN else CapsuleType.WT_STREAM in
      let payload_len := Varint.encoded_len stream_id + len data in
      encode_header capsule_type payload_len ;!
      encode_varint stream_id ;!
      extend_from_slice data
  | WtMaxData maximum =>
      let payload_len := Varint.encoded_len maximum in
      encode_header CapsuleType.WT_MAX_DATA payload_len ;!
      encode_varint maximum
  | WtMaxStreamData stream_id maximum =>
      let payload_len := Varint.encoded_len stream_id + Varint.encoded_len maximum in
      encode_header CapsuleType.WT_MAX_STREAM_DATA payload_len ;!
      encode_varint stream_id ;!
      encode_varint maximum
  | WtMaxStreams maximum bidirectional =>
      let capsule_type :=
        if bidirectional then CapsuleType.WT_MAX_STREAMS_BIDI else CapsuleType.WT_MAX_STREAMS_UNI in
      let payload_len := Varint.encoded_len maximum in
      encode_header capsule_type payload_len ;!
      encode_varint maximum
  | WtDataBlocked maximum =>
      let payload_len := Varint.encoded_len maximum in
      encode_header CapsuleType.WT_DATA_BLOCKED payload_len ;!
      encode_varint maximum
  | WtStreamDataBlocked stream_id maximum =>
      let payload_len := Varint.encoded_len stream_id + Varint.encoded_len maximum in
      encode_header CapsuleType.WT_STREAM_DATA_BLOCKED payload_len ;!
      encode_varint stream_id ;!
      encode_varint maximum
  | WtStreamsBlocked maximum bidirectional =>
      let capsule_type :=
        if bidirectional then CapsuleType.WT_STREAMS_BLOCKED_BIDI
        else CapsuleType.WT_STREAMS_BLOCKED_UNI in
      let payload_len := Varint.encoded_len maximum in
      encode_header capsule_type payload_len ;!
      encode_varint maximum
  | WtCloseSession error_code reason =>
      (* debug_assert! *)
      if len reason >? MAX_CLOSE_REASON_LEN then panic
      else
        let payload_len := 4 + len reason in
        encode_header CapsuleType.WT_CLOSE_SESSION payload_len ;!
        extend_from_slice (u32_to_be error_code) ;!
        extend_from_slice reason
  | WtDrainSession =>
      encode_header CapsuleType.WT_DRAIN_SESSION 0
  | Unknown capsule_type data =>
      encode_header capsule_type (len data) ;!
      extend_from_slice data
  end.

(** [std::mem::take(&mut self.buffer)]. *)
Definition take : M (list Z) :=
  let! b := gets buffer in
  modify (fun s => s <| buffer := [] |>) ;!
  ret b.

Definition clear : M unit := modify (fun s => s <| buffer := [] |>).

End CapsuleEncoder.

(** ** The decoder *)
Module CapsuleDecoder.

Definition DEFAULT_MAX_BUFFER_SIZE : Z := 16 * 1024 * 1024.

Record t : Type := mk { buffer : list Z; max_buffer_size : Z }.
#[global] Instance eta_capsule_decoder : Eta t := fun s => mk (buffer s) (max_buffer_size s).

Definition new : t := mk [] DEFAULT_MAX_BUFFER_SIZE.
Definition default : t := new.
Definition with_max_buffer_size (max_buffer_size : Z) : t := mk [] max_buffer_size.

Notation M := (ST t WtError.t).

Definition feed (data : list Z) : M unit :=
  let! room := gets (fun s => saturating_sub (max_buffer_size s) (len (buffer s))) in
  if len data >? room
  then throw (WtError.with_reason WtErrorKind.InvalidInput "capsule decoder buffer limit exceeded")
  else modify (fun s => s <| buffer := buffer s ++ data |>).

(** [varint::decode(&payload[offset..])], with the offset behind it. *)
Definition varint_at (payload : list Z) (offset : Z) : WtResult (Z * Z) :=
  let? rest := slice_from payload offset in
  let? (value, n) := Varint.decode rest in
  Ok (value, offset + n).

Definition trailing {A} (reason : string) : WtResult A := Err (WtError.capsule_decode reason).

(** A payload that is one varint. *)
Definition one_varint (payload : list Z) (reason : string) : WtResult Z :=
  let? (maximum, n) := Varint.decode payload in
  if negb (n =? len payload) then trailing reason else Ok maximum.

(** A payload that is two varints. *)
Definition two_varints (payload : list Z) (reason : string) : WtResult (Z * Z) :=
  let? (stream_id, offset) := varint_at payload 0 in
  let? (maximum, offset) := varint_at payload offset in
  if negb (offset =? len payload) then trailing reason else Ok (stream_id, maximum).

Definition decode_reset_stream (payload : list Z) : WtResult Capsule.t :=
  let? (stream_id, offset) := varint_at payload 0 in
  let? (error_code, offset) := varint_at payload offset in
  if error_code >? MAX_APPLICATION_ERROR_CODE
  then Err (WtError.session_state_error
    "WT_RESET_STREAM error code exceeds 0xffffffff (session error WT_ERROR)")
  else
    let? (reliable_size, offset) := varint_at payload offset in
    if negb (offset =? len payload)
    then trailing "WT_RESET_STREAM payload has trailing bytes"
    else Ok (WtResetStream stream_id error_code reliable_size).

Definition decode_stop_sending (payload : list Z) : WtResult Capsule.t :=
  let? (stream_id, offset) := varint_at payload 0 in
  let? (error_code, offset) := varint_at payload offset in
  if error_code >? MAX_APPLICATION_ERROR_CODE
  then Err (WtError.session_state_error
    "WT_STOP_SENDING error code exceeds 0xffffffff (session error WT_ERROR)")
  else if negb (offset =? len payload)
  then trailing "WT_STOP_SENDING payload has trailing bytes"
  else Ok (WtStopSending stream_id error_code).

Definition decode_stream (payload : list Z) (fin : bool) : WtResult Capsule.t :=
  let? (stream_id, n) := Varint.decode payload in
  let? data := slice_from payload n in
  Ok (WtStream stream_id data fin).

Definition decode_close_session (payload : list Z) : WtResult Capsule.t :=
  if len payload <? 4
  then Err (WtError.capsule_decode "WT_CLOSE_SESSION payload too short")
  else if len payload - 4 >? MAX_CLOSE_REASON_LEN
  then Err (WtError.session_state_error "WT_CLOSE_SESSION reason exceeds 1024 bytes")
  else
    let? error_code := read4 u32_from_be payload 0 in
    let? reason :=
      if len payload >? 4 then
        let? bytes := slice_from payload 4 in
        if Syntax.utf8_valid bytes then Ok bytes
        else Err (WtError.session_state_error "invalid UTF-8 in close reason")
      else Ok [] in
    Ok (WtCloseSession error_code reason).

Definition decode_payload (capsule_type : Z) (payload : list Z) : WtResult Capsule.t :=
  if capsule_type =? CapsuleType.DATAGRAM then Ok (Datagram payload)
  else if capsule_type =? CapsuleType.PADDING then Ok (Padding (len payload))
  else if capsule_type =? CapsuleType.WT_RESET_STREAM then decode_reset_stream payload
  else if capsule_type =? CapsuleType.WT_STOP_SENDING then decode_stop_sending payload
  else if (capsule_type =? CapsuleType.WT_STREAM) || (capsule_type =? CapsuleType.WT_STREAM_FIN)
  then decode_stream payload (capsule_type =? CapsuleType.WT_STREAM_FIN)
  else if capsule_type =? CapsuleType.WT_MAX_DATA then
    let? maximum := one_varint payload "WT_MAX_DATA payload has trailing bytes" in
    Ok (WtMaxData maximum)
  else if capsule_type =? CapsuleType.WT_MAX_STREAM_DATA then
    let? (stream_id, maximum) := two_varints payload "WT_MAX_STREAM_DATA payload has trailing bytes" in
    Ok (WtMaxStreamData stream_id maximum)
  else if capsule_type =? CapsuleType.WT_MAX_STREAMS_BIDI then
    let? maximum := one_varint payload "WT_MAX_STREAMS_BIDI payload has trailing bytes" in
    Ok (WtMaxStreams maximum true)
  else if capsule_type =? CapsuleType.WT_MAX_STREAMS_UNI then
    let? maximum := one_varint payload "WT_MAX_STREAMS_UNI payload has trailing bytes" in
    Ok (WtMaxStreams maximum false)
  else if capsule_type =? CapsuleType.WT_DATA_BLOCKED then
    let? maximum := one_varint payload "WT_DATA_BLOCKED payload has trailing bytes" in
    Ok (WtDataBlocked maximum)
  else if capsule_type =? CapsuleType.WT_STREAM_DATA_BLOCKED then
    let? (stream_id, maximum) :=
      two_varints payload "WT_STREAM_DATA_BLOCKED payload has trailing bytes" in
    Ok (WtStreamDataBlocked stream_id maximum)
  else if capsule_type =? CapsuleType.WT_STREAMS_BLOCKED_BIDI then
    let? maximum := one_varint payload "WT_STREAMS_BLOCKED_BIDI payload has trailing bytes" in
    Ok (WtStreamsBlocked maximum true)
  else if capsule_type =? CapsuleType.WT_STREAMS_BLOCKED_UNI then
    let? maximum := one_varint payload "WT_STREAMS_BLOCKED_UNI payload has trailing bytes" in
    Ok (WtStreamsBlocked maximum false)
  else if capsule_type =? CapsuleType.WT_CLOSE_SESSION then decode_close_session payload
  else if capsule_type =? CapsuleType.WT_DRAIN_SESSION then
    if negb (len payload =? 0)
    then Err (WtError.capsule_decode "WT_DRAIN_SESSION must have empty payload")
    else Ok WtDrainSession
  else Ok (Unknown capsule_type payload).

(** [match varint::decode(..)]: an [Incomplete] error ends the decoding with
    [Ok(None)], another one is returned. *)
Definition or_incomplete {A} (r : WtResult (Z * Z)) (k : Z -> Z -> M (option A)) : M (option A) :=
  match r with
  | Ok (value, n) => k value n
  | Err e => if decide (WtError.kind e = WtErrorKind.Incomplete) then ret None else throw e
  | Panic => panic
  end.

Definition decode : M (option Capsule.t) :=
  let! buf := gets buffer in
  if len buf =? 0 then ret None
  else
    let offset := 0 in
    let! rest := lift (slice_from buf offset) in
    or_incomplete (Varint.decode rest) (fun capsule_type type_len =>
      let offset := offset + type_len in
      if offset >=? len buf then ret None
      else
        let! rest := lift (slice_from buf offset) in
        or_incomplete (Varint.decode rest) (fun payload_len len_len =>
          let offset := offset + len_len in
          let! total_len := lift (add_usize offset payload_len) in
          if len buf <? total_len then ret None
          else
            let! payload := lift (slice buf offset total_len) in
            let! capsule := lift (decode_payload capsule_type payload) in
            let! rest := lift (slice_from buf total_len) in
            modify (fun s => s <| buffer := rest |>) ;!
            ret (Some capsule))).

Definition clear : M unit := modify (fun s => s <| buffer := [] |>).

End CapsuleDecoder.
