(* ===== verification/WtCodec.v ===== *)
(** * WtCodec: what the capsule encoder and decoder promise to each other

    The specification of a capsule's octets ([Wire.wire]) and the theorems on
    [WtCapsule]: encoding appends exactly those octets, decoding reads them
    back, a decoder fed in pieces decodes what it would decode at once, and
    neither panics. *)

From S2P Require Import Prelude Syntax WtVarint WtStream WtCapsule.
Import Capsule.

Module Wire.

Definition capsule_type (c : Capsule.t) : Z :=
  match c with
  | Datagram _ => CapsuleType.DATAGRAM
  | Padding _ => CapsuleType.PADDING
  | WtResetStream _ _ _ => CapsuleType.WT_RESET_STREAM
  | WtStopSending _ _ => CapsuleType.WT_STOP_SENDING
  | WtStream _ _ fin => if fin then CapsuleType.WT_STREAM_FIN else CapsuleType.WT_STREAM
  | WtMaxData _ => CapsuleType.WT_MAX_DATA
  | WtMaxStreamData _ _ => CapsuleType.WT_MAX_STREAM_DATA
  | WtMaxStreams _ b => if b then CapsuleType.WT_MAX_STREAMS_BIDI else CapsuleType.WT_MAX_STREAMS_UNI
  | WtDataBlocked _ => CapsuleType.WT_DATA_BLOCKED
  | WtStreamDataBlocked _ _ => CapsuleType.WT_STREAM_DATA_BLOCKED
  | WtStreamsBlocked _ b =>
      if b then CapsuleType.WT_STREAMS_BLOCKED_BIDI else CapsuleType.WT_STREAMS_BLOCKED_UNI
  | WtCloseSession _ _ => CapsuleType.WT_CLOSE_SESSION
  | WtDrainSession => CapsuleType.WT_DRAIN_SESSION
  | Unknown ty _ => ty
  end.

Definition payload (c : Capsule.t) : list Z :=
  match c with
  | Datagram data | Unknown _ data => data
  | Padding n => replicate (Z.to_nat n) 0
  | WtResetStream id code size => Varint.octets id ++ Varint.octets code ++ Varint.octets size
  | WtStopSending id code => Varint.octets id ++ Varint.octets code
  | WtStream id data _ => Varint.octets id ++ data
  | WtMaxData max | WtDataBlocked max | WtMaxStreams max _ | WtStreamsBlocked max _ => Varint.octets max
  | WtMaxStreamData id max | WtStreamDataBlocked id max => Varint.octets id ++ Varint.octets max
  | WtCloseSession code reason => u32_to_be code ++ reason
  | WtDrainSession => []
  end.

Definition wire (c : Capsule.t) : list Z :=
  Varint.octets (capsule_type c) ++ Varint.octets (len (payload c)) ++ payload c.

(** The types with a constructor of their own. *)
Definition known_types : list Z :=
  [CapsuleType.DATAGRAM; CapsuleType.PADDING; CapsuleType.WT_RESET_STREAM; CapsuleType.WT_STOP_SENDING;
   CapsuleType.WT_STREAM; CapsuleType.WT_STREAM_FIN; CapsuleType.WT_MAX_DATA;
   CapsuleType.WT_MAX_STREAM_DATA; CapsuleType.WT_MAX_STREAMS_BIDI; CapsuleType.WT_MAX_STREAMS_UNI;
   CapsuleType.WT_DATA_BLOCKED; CapsuleType.WT_STREAM_DATA_BLOCKED;
   CapsuleType.WT_STREAMS_BLOCKED_BIDI; CapsuleType.WT_STREAMS_BLOCKED_UNI;
   CapsuleType.WT_CLOSE_SESSION; CapsuleType.WT_DRAIN_SESSION].

Definition fields_ok (c : Capsule.t) : Prop :=
  match c with
  | Datagram data => bytes_ok data
  | Padding n => 0 <= n
  | WtResetStream id code size =>
      Varint.ok id /\ 0 <= code <= MAX_APPLICATION_ERROR_CODE /\ Varint.ok size
  | WtStopSending id code => Varint.ok id /\ 0 <= code <= MAX_APPLICATION_ERROR_CODE
  | WtStream id data _ => Varint.ok id /\ bytes_ok data
  | WtMaxData max | WtDataBlocked max | WtMaxStreams max _ | WtStreamsBlocked max _ => Varint.ok max
  | WtMaxStreamData id max | WtStreamDataBlocked id max => Varint.ok id /\ Varint.ok max
  | WtCloseSession code reason =>
      u32_ok code /\ bytes_ok reason /\ len reason <= MAX_CLOSE_REASON_LEN /\ Syntax.utf8_valid reason = true
  | WtDrainSession => True
  | Unknown ty data => Varint.ok ty /\ existsb (Z.eqb ty) known_types = false /\ bytes_ok data
  end.

(** A capsule that has octets: fields in range and a payload whose length is a
    varint. *)
Definition wf (c : Capsule.t) : Prop := fields_ok c /\ len (payload c) <= Varint.MAX_VALUE.

(** A decoder as a reader of octets: the first capsule's type and payload, and
    what follows, when the octets hold all of it. *)
Definition frame (buf : list Z) : option (Z * list Z * list Z) :=
  match Varint.decode buf with
  | Ok (ty, n) =>
      let buf := drop (Z.to_nat n) buf in
      match Varint.decode buf with
      | Ok (size, n) =>
          let buf := drop (Z.to_nat n) buf in
          if len buf <? size then None
          else Some (ty, take (Z.to_nat size) buf, drop (Z.to_nat size) buf)
      | _ => None
      end
  | _ => None
  end.

End Wire.
Import Wire.

(** ** Encoding *)

(** [m] appends [out] to the encoder's buffer. *)
Definition writes (m : ST CapsuleEncoder.t WtError.t unit) (out : list Z) : Prop :=
  forall buf, len buf + len out < 2 ^ 64 ->
  m (CapsuleEncoder.mk buf) = (Ok tt, CapsuleEncoder.mk (buf ++ out)).

Lemma writes_seq m k a b : writes m a -> writes k b -> writes (m ;! k) (a ++ b).
Proof.
  intros Hm Hk buf Hl. rewrite len_app in Hl. pose proof (len_nonneg b).
  rewrite (bind_Ok _ _ _ _ _ (Hm buf ltac:(lia))), app_assoc.
  apply Hk. rewrite len_app. lia.
Qed.

Lemma writes_slice data : writes (CapsuleEncoder.extend_from_slice data) data.
Proof. by intros buf _. Qed.

Lemma writes_grow n : 0 <= n -> writes (CapsuleEncoder.grow n) (replicate (Z.to_nat n) 0).
Proof.
  intros Hn buf Hl. unfold CapsuleEncoder.grow. rewrite bind_gets. cbn [CapsuleEncoder.buffer].
  rewrite len_replicate in Hl. unfold add_usize. case_match; zbool; [done|lia].
Qed.

Lemma writes_varint v : Varint.ok v -> writes (CapsuleEncoder.encode_varint v) (Varint.octets v).
Proof.
  intros Hv buf Hl. rewrite Varint.len_octets in Hl. pose proof (Varint.encoded_len_bounds v).
  unfold CapsuleEncoder.encode_varint. rewrite bind_gets.
  rewrite (bind_Ok _ _ _ _ _ (writes_grow (Varint.encoded_len v) ltac:(lia) buf ltac:(rewrite len_replicate; lia))).
  unfold CapsuleEncoder.encode_at. cbn [CapsuleEncoder.buffer].
  rewrite <- length_len, drop_app_length, take_app_length.
  rewrite <- (app_nil_r (replicate _ _)), Varint.encode_octets by (done || len_lia).
  by rewrite app_nil_r.
Qed.

Create HintDb writes.
#[local] Hint Resolve writes_seq writes_slice writes_grow writes_varint : writes.

Lemma writes_header ty size :
  Varint.ok ty -> Varint.ok size ->
  writes (CapsuleEncoder.encode_header ty size) (Varint.octets ty ++ Varint.octets size).
Proof. intros. unfold CapsuleEncoder.encode_header. auto with writes. Qed.

Lemma fields_varint c : fields_ok c -> Varint.ok (capsule_type c).
Proof.
  intros H. assert (forall ty data, c = Unknown ty data -> Varint.ok ty) as U
    by (by intros ty data ->; destruct H).
  destruct c; cbn [capsule_type]; [..|by eapply U];
    repeat match goal with |- context [ if ?b then _ else _ ] => destruct b end; clear; by vm_compute.
Qed.

(** Every branch of [encode] writes the header of its capsule and its payload. *)
Lemma encode_branch c size m :
  wf c -> writes m (payload c) -> size = len (payload c) ->
  writes (CapsuleEncoder.encode_header (capsule_type c) size ;! m) (wire c).
Proof.
  intros [Hf Hl] Hm ->. unfold wire. rewrite app_assoc.
  apply writes_seq; [|done]. apply writes_header; [by apply fields_varint|].
  split; [apply len_nonneg|done].
Qed.

Lemma error_code_varint code : 0 <= code <= MAX_APPLICATION_ERROR_CODE -> Varint.ok code.
Proof. unfold MAX_APPLICATION_ERROR_CODE, Varint.ok, Varint.MAX_VALUE. lia. Qed.
#[local] Hint Resolve error_code_varint : writes.

Lemma encode_wire c : wf c -> writes (CapsuleEncoder.encode c) (wire c).
Proof.
  intros Hc. pose proof Hc as [Hf _].
  destruct c; cbn [CapsuleEncoder.encode fields_ok] in *; destruct_and?.
  all: try (apply (encode_branch _ _ _ Hc); cbn [payload];
            [auto 10 with writes|rewrite ?len_app, ?Varint.len_octets, ?len_replicate; lia]).
  - case_match; zbool; [lia|]. apply (encode_branch _ _ _ Hc); cbn [payload];
      [auto with writes|rewrite len_app; reflexivity].
  - intros buf Hl. apply writes_header; [done|by vm_compute|].
    revert Hl. unfold wire. cbn [payload]. by rewrite app_nil_r.
Qed.

(** ** Decoding *)

(** Reads past a prefix. *)
Lemma varint_at_octets pre v post :
  Varint.ok v -> bytes_ok post ->
  CapsuleDecoder.varint_at (pre ++ Varint.octets v ++ post) (len pre) = Ok (v, len (pre ++ Varint.octets v)).
Proof.
  intros Hv Hp. unfold CapsuleDecoder.varint_at. rewrite slice_from_app. cbn [rbind].
  rewrite Varint.octets_decode by done. cbn [rbind].
  by rewrite len_app, Varint.len_octets.
Qed.

Lemma varint_at_first v post :
  Varint.ok v -> bytes_ok post ->
  CapsuleDecoder.varint_at (Varint.octets v ++ post) 0 = Ok (v, len (Varint.octets v)).
Proof. apply (varint_at_octets []). Qed.

Lemma varint_at_last pre v :
  Varint.ok v ->
  CapsuleDecoder.varint_at (pre ++ Varint.octets v) (len pre) = Ok (v, len (pre ++ Varint.octets v)).
Proof.
  intros Hv. pose proof (varint_at_octets pre v [] Hv (Forall_nil_2 _)) as E.
  by rewrite app_nil_r in E.
Qed.

Lemma decode_octets_end v : Varint.ok v -> Varint.decode (Varint.octets v) = Ok (v, len (Varint.octets v)).
Proof.
  intros Hv. rewrite <- (app_nil_r (Varint.octets v)) at 1.
  rewrite Varint.octets_decode by (done || constructor). by rewrite Varint.len_octets.
Qed.

Lemma one_varint_octets v reason : Varint.ok v -> CapsuleDecoder.one_varint (Varint.octets v) reason = Ok v.
Proof.
  intros Hv. unfold CapsuleDecoder.one_varint. rewrite decode_octets_end by done. cbn [rbind].
  by rewrite Z.eqb_refl.
Qed.

Lemma two_varints_octets a b reason :
  Varint.ok a -> Varint.ok b ->
  CapsuleDecoder.two_varints (Varint.octets a ++ Varint.octets b) reason = Ok (a, b).
Proof.
  intros Ha Hb. unfold CapsuleDecoder.two_varints.
  rewrite varint_at_first by (done || apply Varint.octets_bytes). cbn [rbind].
  rewrite varint_at_last by done. cbn [rbind].
  by rewrite Z.eqb_refl.
Qed.

Lemma payload_bytes c : fields_ok c -> bytes_ok (payload c).
Proof.
  destruct c; cbn; intros; destruct_and?;
    rewrite ?bytes_ok_app; repeat split; try done; try apply Varint.octets_bytes.
  - apply Forall_replicate. unfold u8_ok. lia.
  - unfold u32_to_be. repeat constructor; apply as_u8_ok.
  - constructor.
Qed.

(** Decides the comparisons of constants in a goal. *)
Ltac eval_types :=
  repeat (match goal with
  | |- context [ ?a =? ?b ] =>
      let v := eval vm_compute in (a =? b) in
      lazymatch v with true => change (a =? b) with true | false => change (a =? b) with false end
  end; cbn [orb]; cbv iota).

Lemma read4_u32 {E} x l : u32_ok x -> @read4 E Z u32_from_be (u32_to_be x ++ l) 0 = Ok x.
Proof.
  intros Hx. rewrite <- (u32_be_roundtrip x Hx) at 2. reflexivity.
Qed.

Lemma decode_close_payload code reason :
  u32_ok code -> bytes_ok reason -> len reason <= MAX_CLOSE_REASON_LEN -> Syntax.utf8_valid reason = true ->
  CapsuleDecoder.decode_close_session (u32_to_be code ++ reason) = Ok (WtCloseSession code reason).
Proof.
  intros Hc Hb Hl Hu. unfold CapsuleDecoder.decode_close_session.
  rewrite len_app, len_u32_to_be. pose proof (len_nonneg reason).
  replace (4 + len reason <? 4) with false by (symmetry; lia).
  replace (4 + len reason - 4 >? MAX_CLOSE_REASON_LEN) with false by (symmetry; rewrite Z.gtb_ltb; lia).
  rewrite read4_u32 by done. cbn [rbind]. destruct reason as [|x l].
  - by rewrite len_nil.
  - rewrite len_cons in *. pose proof (len_nonneg l).
    replace (4 + (1 + len l) >? 4) with true by (symmetry; rewrite Z.gtb_ltb; lia).
    rewrite <- (len_u32_to_be code), slice_from_app. cbn [rbind]. by rewrite Hu.
Qed.

Lemma decode_reset_payload id code size :
  Varint.ok id -> 0 <= code <= MAX_APPLICATION_ERROR_CODE -> Varint.ok size ->
  CapsuleDecoder.decode_reset_stream (Varint.octets id ++ Varint.octets code ++ Varint.octets size)
  = Ok (WtResetStream id code size).
Proof.
  intros Hi Hc Hs. unfold CapsuleDecoder.decode_reset_stream.
  rewrite varint_at_first by (done || apply bytes_ok_app; split; apply Varint.octets_bytes). cbn [rbind].
  rewrite varint_at_octets by (eauto with writes || apply Varint.octets_bytes). cbn [rbind].
  replace (code >? MAX_APPLICATION_ERROR_CODE) with false by (symmetry; rewrite Z.gtb_ltb; lia).
  rewrite app_assoc, varint_at_last by done. cbn [rbind]. by rewrite Z.eqb_refl.
Qed.

Lemma decode_stop_payload id code :
  Varint.ok id -> 0 <= code <= MAX_APPLICATION_ERROR_CODE ->
  CapsuleDecoder.decode_stop_sending (Varint.octets id ++ Varint.octets code) = Ok (WtStopSending id code).
Proof.
  intros Hi Hc. unfold CapsuleDecoder.decode_stop_sending.
  rewrite varint_at_first by (done || apply Varint.octets_bytes). cbn [rbind].
  rewrite varint_at_last by eauto with writes. cbn [rbind].
  replace (code >? MAX_APPLICATION_ERROR_CODE) with false by (symmetry; rewrite Z.gtb_ltb; lia).
  by rewrite Z.eqb_refl.
Qed.

Lemma decode_stream_payload id data fin :
  Varint.ok id -> bytes_ok data ->
  CapsuleDecoder.decode_stream (Varint.octets id ++ data) fin = Ok (WtStream id data fin).
Proof.
  intros Hi Hd. unfold CapsuleDecoder.decode_stream.
  rewrite Varint.octets_decode by done. cbn [rbind].
  rewrite <- Varint.len_octets, slice_from_app. done.
Qed.

(** [decode_payload] inverts [payload]. *)
Lemma decode_payload_wire c :
  fields_ok c -> CapsuleDecoder.decode_payload (capsule_type c) (payload c) = Ok c.
Proof.
  intros H. unfold CapsuleDecoder.decode_payload.
  destruct c; cbn [capsule_type payload fields_ok] in *; destruct_and?;
    repeat match goal with |- context [ if ?b then CapsuleType.WT_STREAM_FIN else _ ] => destruct b
           | |- context [ if ?b then CapsuleType.WT_MAX_STREAMS_BIDI else _ ] => destruct b
           | |- context [ if ?b then CapsuleType.WT_STREAMS_BLOCKED_BIDI else _ ] => destruct b end.
  17: { repeat match goal with E : existsb _ _ = false |- _ => unfold known_types in E; cbn [existsb] in E end.
    repeat match goal with E : orb _ _ = false |- _ => apply orb_false_iff in E as [? ?] end.
    repeat match goal with E : (_ =? _) = false |- _ => rewrite E; clear E end. done. }
  all: eval_types.
  all: rewrite ?one_varint_octets, ?two_varints_octets by assumption; try reflexivity.
  - rewrite len_replicate, Z2Nat.id by done. done.
  - by apply decode_reset_payload.
  - by apply decode_stop_payload.
  - by apply decode_stream_payload.
  - by apply decode_stream_payload.
  - by apply decode_close_payload.
Qed.

Lemma drop_len_app {A} (x y : list A) n : n = len x -> drop (Z.to_nat n) (x ++ y) = y.
Proof. intros ->. rewrite <- length_len. apply drop_app_length. Qed.
Lemma take_len_app {A} (x y : list A) n : n = len x -> take (Z.to_nat n) (x ++ y) = x.
Proof. intros ->. rewrite <- length_len. apply take_app_length. Qed.

(** [frame] cuts off the octets of a capsule. *)
Lemma frame_wire c rest :
  wf c -> bytes_ok rest -> frame (wire c ++ rest) = Some (capsule_type c, payload c, rest).
Proof.
  intros [Hf Hl] Hr. pose proof (payload_bytes c Hf). pose proof (fields_varint c Hf) as Ht.
  assert (Varint.ok (len (payload c))) by (split; [apply len_nonneg|done]).
  unfold frame, wire. rewrite <- !app_assoc.
  rewrite Varint.octets_decode by (done || rewrite !bytes_ok_app; split_and!; done || apply Varint.octets_bytes).
  cbv beta iota zeta. rewrite (drop_len_app _ _ (Varint.encoded_len _)) by (by rewrite Varint.len_octets).
  rewrite Varint.octets_decode by (done || by apply bytes_ok_app).
  cbv beta iota zeta. rewrite (drop_len_app _ _ (Varint.encoded_len _)) by (by rewrite Varint.len_octets).
  rewrite len_app. pose proof (len_nonneg rest). case_match; zbool; [lia|].
  by rewrite take_len_app, drop_len_app.
Qed.

Lemma varint_decode_inv buf v n :
  bytes_ok buf -> Varint.decode buf = Ok (v, n) -> Varint.ok v /\ 1 <= n <= len buf /\ n <= 8.
Proof.
  intros Hb E. pose proof (Varint.decode_bounds buf Hb) as H. rewrite E in H. cbn in H.
  pose proof (Varint.encoded_len_bounds v). intuition lia.
Qed.

(** [frame] on octets that go on. *)
Lemma frame_extend buf more ty pl rest :
  bytes_ok buf -> bytes_ok more ->
  frame buf = Some (ty, pl, rest) -> frame (buf ++ more) = Some (ty, pl, rest ++ more).
Proof.
  intros Hb Hm. unfold frame. destruct (Varint.decode buf) as [[t n]|e|] eqn:E1; [|done..].
  destruct (varint_decode_inv _ _ _ Hb E1) as [_ Hn].
  rewrite (Varint.decode_extend _ _ _ Hb Hm E1).
  assert (bytes_ok (drop (Z.to_nat n) buf)) as Hb2 by (by apply Forall_drop).
  rewrite drop_app_le by (rewrite length_len; lia).
  set (b2 := drop (Z.to_nat n) buf) in *. clearbody b2. clear E1.
  destruct (Varint.decode b2) as [[l k]|e|] eqn:E2; [|done..].
  destruct (varint_decode_inv _ _ _ Hb2 E2) as [[Hl _] Hk].
  rewrite (Varint.decode_extend _ _ _ Hb2 Hm E2).
  rewrite drop_app_le by (rewrite length_len; lia).
  set (b3 := drop (Z.to_nat k) b2). rewrite len_app. pose proof (len_nonneg more).
  case_match; [done|]. case_match; zbool; [lia|]. intros [= <- <- <-].
  rewrite take_app_le, drop_app_le by (rewrite length_len; lia). done.
Qed.

Lemma frame_inv buf ty pl rest :
  bytes_ok buf -> frame buf = Some (ty, pl, rest) ->
  Varint.ok ty /\ bytes_ok pl /\ bytes_ok rest /\ len pl <= Varint.MAX_VALUE /\ len rest + len pl + 2 <= len buf.
Proof.
  intros Hb. unfold frame. destruct (Varint.decode buf) as [[t n]|e|] eqn:E1; [|done..].
  destruct (varint_decode_inv _ _ _ Hb E1) as [Ht Hn].
  assert (bytes_ok (drop (Z.to_nat n) buf)) as Hb2 by (by apply Forall_drop).
  destruct (Varint.decode (drop _ buf)) as [[l k]|e|] eqn:E2; [|done..].
  destruct (varint_decode_inv _ _ _ Hb2 E2) as [[Hl Hm] Hk].
  case_match; zbool; [done|]. intros [= <- <- <-].
  rewrite !len_take, !len_drop in *. unfold Varint.ok in *.
  split_and!; try lia; repeat first [apply Forall_take|apply Forall_drop]; done.
Qed.

(** ** The decoder in terms of [frame] *)

Definition with_buffer (s : CapsuleDecoder.t) (b : list Z) : CapsuleDecoder.t :=
  s <| CapsuleDecoder.buffer := b |>.

Lemma slice_from_drop {E A} (l : list A) a : 0 <= a <= len l -> @slice_from E A l a = Ok (drop (Z.to_nat a) l).
Proof. apply slice_from_spec. Qed.

Lemma decode_frame s :
  bytes_ok (CapsuleDecoder.buffer s) ->
  CapsuleDecoder.decode s =
    match frame (CapsuleDecoder.buffer s) with
    | None => (Ok None, s)
    | Some (ty, pl, rest) =>
        match CapsuleDecoder.decode_payload ty pl with
        | Ok c => (Ok (Some c), with_buffer s rest)
        | Err e => (Err e, s)
        | Panic => (Panic, s)
        end
    end.
Proof.
  intros Hb. unfold CapsuleDecoder.decode, frame. rewrite bind_gets.
  set (buf := CapsuleDecoder.buffer s) in *.
  destruct (Z.eqb_spec (len buf) 0) as [E|Hne]; [apply len_zero_nil in E; by rewrite E|].
  cbv zeta. rewrite slice_from_0, bind_lift_Ok. unfold CapsuleDecoder.or_incomplete.
  destruct (Varint.decode buf) as [[ty n]|e|] eqn:E1.
  2: by rewrite (Varint.decode_error _ _ Hb E1).
  2: by pose proof (Varint.decode_bounds buf Hb) as H; rewrite E1 in H.
  destruct (varint_decode_inv _ _ _ Hb E1) as [_ Hn]. rewrite Z.add_0_l.
  assert (bytes_ok (drop (Z.to_nat n) buf)) as Hb2 by (by apply Forall_drop).
  destruct (Z.geb_spec n (len buf)) as [Hge|Hlt].
  { rewrite (drop_ge buf) by (rewrite length_len; lia). done. }
  rewrite slice_from_drop by lia. rewrite bind_lift_Ok.
  destruct (Varint.decode (drop (Z.to_nat n) buf)) as [[size k]|e|] eqn:E2.
  2: by rewrite (Varint.decode_error _ _ Hb2 E2).
  2: by pose proof (Varint.decode_bounds _ Hb2) as H; rewrite E2 in H.
  destruct (varint_decode_inv _ _ _ Hb2 E2) as [[Hs0 Hs1] Hk]. rewrite len_drop in Hk.
  unfold add_usize. replace (n + k + size <? 2 ^ 64) with true by (symmetry; unfold Varint.MAX_VALUE in *; lia).
  rewrite bind_lift_Ok, !len_drop.
  match goal with |- context [ ?x <? size ] => destruct (Z.ltb_spec x size) end;
    destruct (Z.ltb_spec (len buf) (n + k + size)); try lia; [done|].
  rewrite slice_spec by lia. rewrite bind_lift_Ok, drop_drop.
  replace (n + k + size - (n + k)) with size by lia.
  replace (Z.to_nat n + Z.to_nat k)%nat with (Z.to_nat (n + k)) by lia.
  destruct (CapsuleDecoder.decode_payload _ _); try done.
  rewrite bind_lift_Ok, slice_from_drop by lia. rewrite bind_lift_Ok, bind_modify.
  unfold ret, with_buffer. rewrite drop_drop. do 3 f_equal. lia.
Qed.

(** ** What a decoded capsule is *)

Lemma varint_at_safe pl off :
  bytes_ok pl -> 0 <= off <= len pl ->
  safe (fun '(v, o) => Varint.ok v /\ off + Varint.encoded_len v <= o <= len pl) (CapsuleDecoder.varint_at pl off).
Proof.
  intros Hb Ho. unfold CapsuleDecoder.varint_at. rewrite slice_from_drop by lia. cbn [rbind].
  assert (bytes_ok (drop (Z.to_nat off) pl)) as Hd by (by apply Forall_drop).
  eapply safe_bind; [by apply Varint.decode_bounds|].
  intros [v n] (Hv & Hn & _). rewrite len_drop in Hn. split; [done|].
  pose proof (Varint.encoded_len_bounds v). lia.
Qed.

(** Runs through the reads of a payload. *)
Ltac safe_reads :=
  repeat match goal with
  | |- safe _ (rbind (CapsuleDecoder.varint_at _ _) _) =>
      let v := fresh "v" in
      eapply safe_bind; [apply varint_at_safe; [done|lia]|intros [v ?] [? ?]; pose proof (Varint.encoded_len_bounds v)]
  | |- safe _ (rbind (Varint.decode _) _) =>
      let v := fresh "v" in
      eapply safe_bind; [by apply Varint.decode_bounds|intros [v ?] (? & ? & ?); pose proof (Varint.encoded_len_bounds v)]
  | |- safe _ (if _ then _ else _) => apply safe_if; intros ?; zbool
  | |- safe _ (Err _) => exact I
  | |- safe _ (CapsuleDecoder.trailing _) => exact I
  end.

Lemma one_varint_safe pl reason :
  bytes_ok pl -> safe (fun v => Varint.ok v /\ Varint.encoded_len v <= len pl) (CapsuleDecoder.one_varint pl reason).
Proof. intros. unfold CapsuleDecoder.one_varint. safe_reads. cbn. split; [done|lia]. Qed.

Lemma two_varints_safe pl reason :
  bytes_ok pl ->
  safe (fun '(a, b) => Varint.ok a /\ Varint.ok b /\ Varint.encoded_len a + Varint.encoded_len b <= len pl)
    (CapsuleDecoder.two_varints pl reason).
Proof.
  intros. pose proof (len_nonneg pl). unfold CapsuleDecoder.two_varints. safe_reads.
  cbn. split_and!; try done. lia.
Qed.

(** A capsule whose payload is not longer than the octets it was read from. *)
Definition fits (n : Z) (c : Capsule.t) : Prop := fields_ok c /\ len (payload c) <= n.

Lemma reset_safe pl : bytes_ok pl -> safe (fits (len pl)) (CapsuleDecoder.decode_reset_stream pl).
Proof.
  intros. pose proof (len_nonneg pl). unfold CapsuleDecoder.decode_reset_stream.
  safe_reads.
  split; cbn; [unfold Varint.ok in *; lia|]. rewrite !len_app, !Varint.len_octets. lia.
Qed.

Lemma stop_safe pl : bytes_ok pl -> safe (fits (len pl)) (CapsuleDecoder.decode_stop_sending pl).
Proof.
  intros. pose proof (len_nonneg pl). unfold CapsuleDecoder.decode_stop_sending.
  safe_reads.
  split; cbn; [unfold Varint.ok in *; lia|]. rewrite !len_app, !Varint.len_octets. lia.
Qed.

Lemma stream_safe pl fin : bytes_ok pl -> safe (fits (len pl)) (CapsuleDecoder.decode_stream pl fin).
Proof.
  intros. unfold CapsuleDecoder.decode_stream. safe_reads.
  rewrite slice_from_drop by lia.
  split; cbn; [split; [done|by apply Forall_drop]|].
  rewrite len_app, Varint.len_octets, len_drop. lia.
Qed.

Lemma close_safe pl : bytes_ok pl -> safe (fits (len pl)) (CapsuleDecoder.decode_close_session pl).
Proof.
  intros Hb. unfold CapsuleDecoder.decode_close_session. safe_reads.
  eapply (safe_bind u32_ok).
  - destruct pl as [|b0 [|b1 [|b2 [|b3 pl]]]]; rewrite ?len_cons, ?len_nil in *; try lia.
    repeat (apply Forall_cons in Hb as [? Hb]). by apply u32_from_be_ok.
  - intros code Hc.
    eapply (safe_bind (fun r => bytes_ok r /\ len r = len pl - 4 /\ Syntax.utf8_valid r = true)).
    + case_match; zbool; [|split_and!; [constructor|rewrite len_nil; lia|done]].
      rewrite slice_from_drop by lia. cbn [rbind]. case_match; [|done].
      split_and!; [by apply Forall_drop|rewrite len_drop; lia|done].
    + intros r (? & ? & ?). split; cbn; [split_and!; done || lia|].
      rewrite len_app, len_u32_to_be. lia.
Qed.

Lemma one_varint_fits pl reason f :
  bytes_ok pl -> (forall v, payload (f v) = Varint.octets v /\ (Varint.ok v -> fields_ok (f v))) ->
  safe (fits (len pl)) (let? v := CapsuleDecoder.one_varint pl reason in Ok (f v)).
Proof.
  intros Hb Hf. eapply safe_bind; [by apply one_varint_safe|]. intros v [Hv Hl].
  destruct (Hf v) as [E F]. split; [by apply F|]. rewrite E, Varint.len_octets. lia.
Qed.

Lemma two_varints_fits pl reason f :
  bytes_ok pl ->
  (forall a b, payload (f a b) = Varint.octets a ++ Varint.octets b /\ (Varint.ok a /\ Varint.ok b -> fields_ok (f a b))) ->
  safe (fits (len pl)) (let? (a, b) := CapsuleDecoder.two_varints pl reason in Ok (f a b)).
Proof.
  intros Hb Hf. eapply safe_bind; [by apply two_varints_safe|]. intros [a b] (Ha & Hb' & Hl).
  destruct (Hf a b) as [E F]. split; [by apply F|]. rewrite E, len_app, !Varint.len_octets. lia.
Qed.

Lemma decode_payload_safe ty pl :
  Varint.ok ty -> bytes_ok pl -> safe (fits (len pl)) (CapsuleDecoder.decode_payload ty pl).
Proof.
  intros Ht Hb. unfold CapsuleDecoder.decode_payload.
  repeat (apply safe_if; intros ?;
    [first [ by apply reset_safe | by apply stop_safe | by apply stream_safe | by apply close_safe
           | by apply one_varint_fits | by apply two_varints_fits | idtac ]|]).
  - by split.
  - split; cbn; [apply len_nonneg|]. rewrite len_replicate. pose proof (len_nonneg pl). lia.
  - done.
  - split; cbn; [done|]. rewrite len_nil. apply len_nonneg.
  - split; cbn; [|done]. split_and!; [done| |done]. unfold known_types. cbn [existsb].
    repeat match goal with E : orb _ _ = false |- _ => apply orb_false_iff in E as [? ?] end.
    repeat match goal with E : (_ =? _) = false |- _ => rewrite E; clear E end. done.
Qed.

(** ** Feeding and decoding

    [receive] is a turn of a reader: it feeds a piece of the octets and decodes
    until the decoder asks for more. *)

Fixpoint decode_all (fuel : nat) : ST CapsuleDecoder.t WtError.t (list Capsule.t) :=
  match fuel with
  | O => panic
  | S fuel =>
      let! c := CapsuleDecoder.decode in
      match c with
      | None => ret []
      | Some c => let! cs := decode_all fuel in ret (c :: cs)
      end
  end.

Definition receive (chunk : list Z) : ST CapsuleDecoder.t WtError.t (list Capsule.t) :=
  CapsuleDecoder.feed chunk ;!
  let! fuel := gets (fun s => S (length (CapsuleDecoder.buffer s))) in
  decode_all fuel.

Fixpoint receive_all (chunks : list (list Z)) : ST CapsuleDecoder.t WtError.t (list Capsule.t) :=
  match chunks with
  | [] => ret []
  | chunk :: chunks =>
      let! cs := receive chunk in
      let! cs' := receive_all chunks in
      ret (cs ++ cs')
  end.

Fixpoint encode_all (cs : list Capsule.t) : ST CapsuleEncoder.t WtError.t unit :=
  match cs with
  | [] => ret tt
  | c :: cs => CapsuleEncoder.encode c ;! encode_all cs
  end.

Definition wires (cs : list Capsule.t) : list Z := concat (map wire cs).

Lemma wire_bytes c : wf c -> bytes_ok (wire c).
Proof.
  intros [Hf _]. unfold wire. rewrite !bytes_ok_app.
  split_and!; [apply Varint.octets_bytes..|by apply payload_bytes].
Qed.

Lemma wires_bytes cs : Forall wf cs -> bytes_ok (wires cs).
Proof. induction 1; [constructor|]. apply bytes_ok_app. split; [by apply wire_bytes|done]. Qed.

Lemma capsules_encode_wires cs : Forall wf cs -> writes (encode_all cs) (wires cs).
Proof.
  induction 1 as [|c cs Hc _ IH]; cbn.
  - intros buf _. by rewrite app_nil_r.
  - apply writes_seq; [by apply encode_wire|done].
Qed.

(** Decoding a prefix of the octets of some capsules gives the capsules whose
    octets are complete, and keeps the others'. *)
Lemma decode_all_prefix fuel m cs buf more :
  Forall wf cs -> buf ++ more = wires cs -> (length buf < fuel)%nat ->
  exists cs1 cs2 rest,
    cs = cs1 ++ cs2 /\ rest ++ more = wires cs2 /\ frame rest = None /\
    decode_all fuel (CapsuleDecoder.mk buf m) = (Ok cs1, CapsuleDecoder.mk rest m).
Proof.
  revert cs buf. induction fuel as [|fuel IH]; intros cs buf Hcs Hbuf Hfuel; [lia|]. cbn [decode_all].
  assert (bytes_ok (buf ++ more)) as [Hb Hm]%bytes_ok_app by (rewrite Hbuf; by apply wires_bytes).
  unfold bind at 1. rewrite decode_frame by done. cbn [CapsuleDecoder.buffer].
  destruct (frame buf) as [[[ty pl] rest]|] eqn:E; [|by exists [], cs, buf].
  pose proof (frame_extend _ _ _ _ _ Hb Hm E) as E'. rewrite Hbuf in E'.
  destruct cs as [|c cs]; [done|]. apply Forall_cons in Hcs as [Hc Hcs].
  cbn [wires map concat] in E'. rewrite frame_wire in E' by (done || by apply wires_bytes).
  injection E' as <- <- Hr. destruct (frame_inv _ _ _ _ Hb E) as (_ & _ & _ & _ & Hl).
  destruct (IH cs rest Hcs (eq_sym Hr)) as (cs1 & cs2 & r & -> & Hr2 & Hn & Hd).
  { pose proof (len_nonneg (payload c)). unfold len in *. lia. }
  exists (c :: cs1), cs2, r. split_and!; try done.
  destruct Hc as [Hf _]. rewrite decode_payload_wire by done. unfold with_buffer, bind.
  change ((CapsuleDecoder.mk buf m) <| CapsuleDecoder.buffer := rest |>) with (CapsuleDecoder.mk rest m).
  by rewrite Hd.
Qed.

Lemma frame_none_wires cs rest : Forall wf cs -> rest = wires cs -> frame rest = None -> cs = [].
Proof.
  intros Hcs -> Hn. destruct cs as [|c cs]; [done|]. apply Forall_cons in Hcs as [Hc Hcs].
  cbn [wires map concat] in Hn. by rewrite frame_wire in Hn by (done || by apply wires_bytes).
Qed.

Lemma receive_all_wires chunks cs buf m :
  Forall wf cs -> buf ++ concat chunks = wires cs -> frame buf = None ->
  len (wires cs) <= m ->
  receive_all chunks (CapsuleDecoder.mk buf m) = (Ok cs, CapsuleDecoder.mk [] m).
Proof.
  revert cs buf. induction chunks as [|chunk chunks IH]; intros cs buf Hcs Hbuf Hn Hm; cbn [receive_all concat] in *.
  - rewrite app_nil_r in Hbuf. pose proof (frame_none_wires _ _ Hcs Hbuf Hn) as ->. by subst buf.
  - unfold receive. rewrite bind_assoc. unfold CapsuleDecoder.feed. rewrite bind_assoc, bind_gets.
    cbn [CapsuleDecoder.buffer CapsuleDecoder.max_buffer_size].
    pose proof Hm as Hm'. rewrite <- Hbuf, !len_app in Hm'.
    pose proof (len_nonneg (concat chunks)). pose proof (len_nonneg buf).
    replace (len chunk >? saturating_sub m (len buf)) with false
      by (symmetry; unfold saturating_sub; rewrite Z.gtb_ltb; lia).
    rewrite bind_modify, bind_assoc, bind_gets. cbn [CapsuleDecoder.buffer set_field].
    rewrite app_assoc in Hbuf.
    destruct (decode_all_prefix (S (length (buf ++ chunk))) m cs (buf ++ chunk) _ Hcs Hbuf ltac:(lia))
      as (cs1 & cs2 & r & -> & Hr & Hn' & Hd).
    rewrite (bind_Ok _ _ _ _ _ Hd). apply Forall_app in Hcs as [_ Hcs].
    erewrite bind_Ok; [reflexivity|]. apply IH; try done.
    revert Hm. unfold wires. rewrite map_app, concat_app, len_app.
    pose proof (len_nonneg (concat (map wire cs1))). lia.
Qed.

(** ** What one [decode] does, and what more octets change *)

(** A decoder that holds octets within its limit. *)
Definition decoder_wf (d : CapsuleDecoder.t) : Prop :=
  bytes_ok (CapsuleDecoder.buffer d) /\ len (CapsuleDecoder.buffer d) <= CapsuleDecoder.max_buffer_size d.

Lemma decode_wp d :
  bytes_ok (CapsuleDecoder.buffer d) ->
  wp CapsuleDecoder.decode
    (fun o d' =>
       match o with
       | None => d' = d
       | Some c => wf c /\ exists rest, d' = with_buffer d rest /\ bytes_ok rest /\ len rest + 2 <= len (CapsuleDecoder.buffer d)
       end)
    (fun d' => d' = d) d.
Proof.
  intros Hb. unfold wp. rewrite decode_frame by done.
  destruct (frame _) as [[[ty pl] rest]|] eqn:E; [|done].
  destruct (frame_inv _ _ _ _ Hb E) as (Ht & Hp & Hr & Hm & Hl).
  pose proof (decode_payload_safe ty pl Ht Hp) as H.
  destruct (CapsuleDecoder.decode_payload ty pl) as [c|e|]; [|done..].
  destruct H as [Hf Hlen]. split; [split; [done|lia]|].
  exists rest. split_and!; try done. pose proof (len_nonneg pl). lia.
Qed.

(** The capsule decoder reads ahead of nothing: from any octets, [decode]
    does not panic; a capsule it returns has its fields in range and takes at
    least two octets off the buffer; when it asks for more, or fails, the
    buffer is as before.  Octets that arrive behind the buffer change neither
    the capsule nor the error. *)
Theorem capsule_decode_is_incremental buf more m :
  bytes_ok buf -> bytes_ok more ->
  match CapsuleDecoder.decode (CapsuleDecoder.mk buf m) with
  | (Ok (Some c), s) =>
      wf c /\ exists rest,
        s = CapsuleDecoder.mk rest m /\ len rest + 2 <= len buf /\
        CapsuleDecoder.decode (CapsuleDecoder.mk (buf ++ more) m) =
          (Ok (Some c), CapsuleDecoder.mk (rest ++ more) m)
  | (Ok None, s) => s = CapsuleDecoder.mk buf m
  | (Err e, s) =>
      s = CapsuleDecoder.mk buf m /\
      CapsuleDecoder.decode (CapsuleDecoder.mk (buf ++ more) m) =
        (Err e, CapsuleDecoder.mk (buf ++ more) m)
  | (Panic, _) => False
  end.
Proof.
  intros Hb Hm. pose proof (decode_wp (CapsuleDecoder.mk buf m) Hb) as W. unfold wp in W.
  rewrite (decode_frame (CapsuleDecoder.mk (buf ++ more) m)) by (by apply bytes_ok_app).
  rewrite decode_frame in * by done. cbn [CapsuleDecoder.buffer] in *.
  destruct (frame buf) as [[[ty pl] rest]|] eqn:E; [|done].
  rewrite (frame_extend _ _ _ _ _ Hb Hm E).
  destruct (CapsuleDecoder.decode_payload ty pl) as [c|e|]; [|done..].
  destruct W as (Hc & r & Hr & _ & Hl). injection Hr as <-. eauto 10.
Qed.

Lemma capsule_decode_is_incremental_witness :
  CapsuleDecoder.decode (CapsuleDecoder.mk ([0; 1] ++ [7]) 100) = (Ok (Some (Datagram [7])), CapsuleDecoder.mk [] 100) /\
  CapsuleDecoder.decode (CapsuleDecoder.mk [0; 1] 100) = (Ok None, CapsuleDecoder.mk [0; 1] 100) /\
  match CapsuleDecoder.decode (CapsuleDecoder.mk [0; 1; 7] 100) with
  | (Ok (Some c), s) =>
      wf c /\ exists rest,
        s = CapsuleDecoder.mk rest 100 /\ len rest + 2 <= len [0; 1; 7] /\
        CapsuleDecoder.decode (CapsuleDecoder.mk ([0; 1; 7] ++ [8]) 100) =
          (Ok (Some c), CapsuleDecoder.mk (rest ++ [8]) 100)
  | (Ok None, s) => s = CapsuleDecoder.mk [0; 1; 7] 100
  | (Err e, s) =>
      s = CapsuleDecoder.mk [0; 1; 7] 100 /\
      CapsuleDecoder.decode (CapsuleDecoder.mk ([0; 1; 7] ++ [8]) 100) =
        (Err e, CapsuleDecoder.mk ([0; 1; 7] ++ [8]) 100)
  | (Panic, _) => False
  end.
Proof.
  split; [vm_compute; reflexivity|]. split; [vm_compute; reflexivity|].
  apply (capsule_decode_is_incremental [0; 1; 7] [8] 100); repeat constructor; unfold u8_ok; lia.
Defined.

(** C24: Capsules survive the wire.  The encoder accepts every list of
    capsules whose fields are in range, and its octets, fed to a decoder in
    pieces of any size with the decoder run after each piece, give back those
    capsules in order and leave nothing behind. The octets of all of them together
    are at most the 16 MiB the decoder buffers, so that the pieces may be of any
    size. *)
Theorem capsules_round_trip cs :
  Forall wf cs -> len (wires cs) <= CapsuleDecoder.DEFAULT_MAX_BUFFER_SIZE ->
  exists octets,
    encode_all cs CapsuleEncoder.new = (Ok tt, CapsuleEncoder.mk octets) /\
    bytes_ok octets /\
    forall chunks, concat chunks = octets ->
    receive_all chunks CapsuleDecoder.new = (Ok cs, CapsuleDecoder.new).
Proof.
  intros Hcs Hl. exists (wires cs). split_and!; [|by apply wires_bytes|].
  - apply (capsules_encode_wires cs Hcs []). rewrite len_nil.
    unfold CapsuleDecoder.DEFAULT_MAX_BUFFER_SIZE in Hl. lia.
  - intros chunks Hc. by apply receive_all_wires.
Qed.

Definition sample_capsules : list Capsule.t :=
  [WtStream 0 (bstr "hello") false; WtMaxData 70000; WtStream 0 [] true;
   WtResetStream 4 (2 ^ 32 - 1) 20000; WtCloseSession 7 (bstr "bye")].

Lemma capsules_round_trip_witness :
  receive_all [[0x99; 0x0b]; [0x4d; 0x3d; 0x04; 0x80; 0x01]; [0x11; 0x70; 0]] CapsuleDecoder.new
    = (Ok [WtMaxData 70000], CapsuleDecoder.mk [0] CapsuleDecoder.DEFAULT_MAX_BUFFER_SIZE) /\
  exists octets,
    encode_all sample_capsules CapsuleEncoder.new = (Ok tt, CapsuleEncoder.mk octets) /\
    bytes_ok octets /\
    forall chunks, concat chunks = octets ->
    receive_all chunks CapsuleDecoder.new = (Ok sample_capsules, CapsuleDecoder.new).
Proof.
  split; [vm_compute; reflexivity|].
  apply (capsules_round_trip sample_capsules); [|by vm_compute].
  unfold sample_capsules, wf, fields_ok, bytes_ok, u8_ok, u32_ok, Varint.ok, Varint.MAX_VALUE,
    MAX_APPLICATION_ERROR_CODE, MAX_CLOSE_REASON_LEN.
  repeat apply Forall_cons_2; try apply Forall_nil_2;
    split_and!; cbn [bstr Ascii.N_of_ascii Ascii.N_of_digits N.add N.mul Z.of_N]; try lia; try (by vm_compute);
    repeat constructor; by vm_compute.
Defined.
