(* ===== verification/WtInit.v ===== *)
(** * WtInit: the WebTransport-Init header field

    Models [src/src/webtransport/init.rs]: a parser of RFC 9651 dictionaries
    that keeps the three integers [u], [bl] and [br].  A parser's input and
    position are the octets from the position on, which are its state; a loop
    that leaves octets at each turn takes their number as fuel.  In the texts of
    errors the double quote is written DQUOTE. *)

From S2P Require Import Prelude Syntax WtVarint.
Import Syntax.

(** [is_tchar] of [webtransport.rs]. *)
Definition is_tchar (b : Z) : bool := is_token_punct b || is_ascii_alphanumeric b.

(** The octets the grammar names. *)
Module Ch.
Definition HTAB : Z := 0x09.
Definition SP : Z := 0x20.
Definition DQUOTE : Z := 0x22.
Definition PERCENT : Z := 0x25.
Definition LPAREN : Z := 0x28.
Definition RPAREN : Z := 0x29.
Definition STAR : Z := 0x2a.
Definition PLUS : Z := 0x2b.
Definition COMMA : Z := 0x2c.
Definition MINUS : Z := 0x2d.
Definition DOT : Z := 0x2e.
Definition SLASH : Z := 0x2f.
Definition COLON : Z := 0x3a.
Definition SEMICOLON : Z := 0x3b.
Definition EQUALS : Z := 0x3d.
Definition QUESTION : Z := 0x3f.
Definition AT : Z := 0x40.
Definition BACKSLASH : Z := 0x5c.
Definition UNDERSCORE : Z := 0x5f.
End Ch.

Definition is_printable (b : Z) : bool := in_range 0x20 0x7E b.
Definition is_key_start (b : Z) : bool := is_ascii_lowercase b || (b =? Ch.STAR).
Definition is_key_char (b : Z) : bool :=
  is_ascii_lowercase b || is_ascii_digit b || (b =? Ch.UNDERSCORE) || (b =? Ch.MINUS)
  || (b =? Ch.STAR) || (b =? Ch.DOT).
Definition is_number_start (b : Z) : bool := (b =? Ch.MINUS) || is_ascii_digit b.
Definition is_token_start (b : Z) : bool := (b =? Ch.STAR) || is_ascii_alphabetic b.
Definition is_token_rest (b : Z) : bool := is_tchar b || (b =? Ch.COLON) || (b =? Ch.SLASH).
Definition is_base64 (b : Z) : bool :=
  is_ascii_alphanumeric b || (b =? Ch.PLUS) || (b =? Ch.SLASH) || (b =? Ch.EQUALS).

Definition peek_is (p : Z -> bool) (o : option Z) : bool :=
  match o with Some b => p b | None => false end.

(** [while let Some(b) = self.peek() { if p(b) { self.advance() } else { break } }],
    and what it passed over. *)
Fixpoint skip_while (p : Z -> bool) (l : list Z) : list Z :=
  match l with
  | b :: l' => if p b then skip_while p l' else l
  | [] => []
  end.
Fixpoint take_while (p : Z -> bool) (l : list Z) : list Z :=
  match l with
  | b :: l' => if p b then b :: take_while p l' else []
  | [] => []
  end.

(** [str::parse::<i64>()] on an optional sign and digits. *)
Definition parse_digits (l : list Z) : Z := fold_left (fun n b => n * 10 + (b - 48)) l 0.
Definition parse_i64 (text : list Z) : option Z :=
  let '(n, digits) :=
    match text with
    | b :: l => if b =? Ch.MINUS then (- parse_digits l, l) else (parse_digits text, text)
    | [] => (0, [])
    end in
  if (0 <? len digits) && forallb is_ascii_digit digits && (- 2 ^ 63 <=? n) && (n <? 2 ^ 63)
  then Some n else None.

Module SfNumber.
Inductive t : Type := Integer (n : Z) | Decimal.
End SfNumber.

Module SfValue.
Inductive t : Type :=
| Integer (n : Z) | Decimal | String | Token | ByteSequence | Boolean | Date | DisplayString | InnerList.
End SfValue.

Module DictionaryParser.

Notation M := (ST (list Z) WtError.t).

Definition invalid {A} (reason : string) : M A := throw (WtError.invalid_input reason).

Definition is_empty : M bool := gets (fun l => len l =? 0).
Definition peek : M (option Z) := gets head.
Definition advance : M unit := modify (fun l => drop 1 l).

Definition consume_if_eq (expected : Z) : M bool :=
  let! b := peek in
  if peek_is (Z.eqb expected) b then advance ;! ret true else ret false.

Definition skip_ows : M unit := modify (skip_while (fun b => (b =? Ch.SP) || (b =? Ch.HTAB))).

(** [while self.consume_if_eq(b' ') {}]. *)
Definition skip_sp : M unit := modify (skip_while (Z.eqb Ch.SP)).

(** The octets that the loop passes over. *)
Definition scan (p : Z -> bool) : M (list Z) :=
  let! octets := gets (take_while p) in
  modify (skip_while p) ;!
  ret octets.

(** The loops of the code leave at least one octet at each turn. *)
Definition fueled {A} (f : nat -> M A) : M A :=
  let! fuel := gets (fun l => S (length l)) in f fuel.

Definition parse_key : M (list Z) :=
  let! b := peek in
  if peek_is is_key_start b then scan is_key_char
  else invalid "WebTransport-Init: dictionary key must start with lcalpha or '*'".

Definition parse_number : M SfNumber.t :=
  let! start := gets (fun l => l) in
  let! b := peek in
  (if peek_is (Z.eqb Ch.MINUS) b then advance else ret tt) ;!
  let! digits := scan is_ascii_digit in
  let int_digits := len digits in
  if int_digits =? 0
  then invalid "WebTransport-Init: integer must contain at least one digit"
  else
    let! b := peek in
    if peek_is (Z.eqb Ch.DOT) b then
      if int_digits >? 12
      then invalid "WebTransport-Init: decimal integer part exceeds 12 digits"
      else
        advance ;!
        let! frac := scan is_ascii_digit in
        if negb (in_range 1 3 (len frac))
        then invalid "WebTransport-Init: decimal fractional part must be 1-3 digits"
        else ret SfNumber.Decimal
    else if int_digits >? 15
    then invalid "WebTransport-Init: integer exceeds 15 digits"
    else
      let! rest := gets (fun l => l) in
      let text := take (length start - length rest) start in
      if negb (utf8_valid text)
      then invalid "WebTransport-Init: integer is not valid UTF-8"
      else
        match parse_i64 text with
        | Some n => ret (SfNumber.Integer n)
        | None => invalid "WebTransport-Init: failed to parse integer"
        end.

Fixpoint skip_string_loop (l : list Z) : WtResult unit * list Z :=
  let invalid reason l := (Err (WtError.invalid_input reason), l) in
  match l with
  | [] => invalid "WebTransport-Init: unterminated string" []
  | b :: l' =>
      if b =? Ch.BACKSLASH then
        match l' with
        | e :: l'' =>
            if (e =? Ch.BACKSLASH) || (e =? Ch.DQUOTE) then skip_string_loop l''
            else invalid "WebTransport-Init: invalid escape sequence in string" l'
        | [] => invalid "WebTransport-Init: invalid escape sequence in string" l'
        end
      else if b =? Ch.DQUOTE then (Ok tt, l')
      else if negb (is_printable b) then invalid "WebTransport-Init: invalid character in string" l
      else skip_string_loop l'
  end.

Definition skip_string : M unit :=
  let! ok := consume_if_eq Ch.DQUOTE in
  if negb ok then invalid "WebTransport-Init: string must start with DQUOTE"
  else skip_string_loop.

Definition skip_token : M unit :=
  let! b := peek in
  if peek_is is_token_start b then advance ;! modify (skip_while is_token_rest)
  else invalid "WebTransport-Init: token must start with ALPHA or '*'".

Definition skip_byte_sequence : M unit :=
  let! ok := consume_if_eq Ch.COLON in
  if negb ok then invalid "WebTransport-Init: byte sequence must start with ':'"
  else
    modify (skip_while is_base64) ;!
    let! ok := consume_if_eq Ch.COLON in
    if negb ok then invalid "WebTransport-Init: byte sequence must end with ':'" else ret tt.

Definition skip_boolean : M unit :=
  let! ok := consume_if_eq Ch.QUESTION in
  if negb ok then invalid "WebTransport-Init: boolean must start with '?'"
  else
    let! b := peek in
    if peek_is (in_range 48 49) b then advance
    else invalid "WebTransport-Init: boolean value must be '0' or '1'".

Definition skip_date : M unit :=
  let! b := peek in
  (* debug_assert_eq! *)
  if negb (peek_is (Z.eqb Ch.AT) b) then panic
  else
    advance ;!
    let! n := parse_number in
    match n with
    | SfNumber.Integer _ => ret tt
    | SfNumber.Decimal => invalid "WebTransport-Init: date must not be a decimal"
    end.

Definition next_hex_digit : M Z :=
  let! b := peek in
  match b with
  | Some b =>
      if in_range 48 57 b then advance ;! ret (b - 48)
      else if in_range 97 102 b then advance ;! ret (b - 97 + 10)
      else invalid "WebTransport-Init: percent encoding must use lowercase hexadecimal digits"
  | None => invalid "WebTransport-Init: percent encoding must contain two lowercase hexadecimal digits"
  end.

Fixpoint skip_display_string_loop (fuel : nat) (bytes : list Z) : M unit :=
  match fuel with
  | O => panic
  | S fuel =>
      let! b := peek in
      match b with
      | None => invalid "WebTransport-Init: unterminated display string"
      | Some b =>
          advance ;!
          if negb (is_printable b)
          then invalid "WebTransport-Init: invalid character in display string"
          else if b =? Ch.PERCENT then
            let! high := next_hex_digit in
            let! low := next_hex_digit in
            skip_display_string_loop fuel (bytes ++ [Z.lor (Z.shiftl high 4) low])
          else if b =? Ch.DQUOTE then
            if negb (utf8_valid bytes)
            then invalid "WebTransport-Init: display string is not valid UTF-8"
            else ret tt
          else skip_display_string_loop fuel (bytes ++ [b])
      end
  end.

Definition skip_display_string : M unit :=
  let! b := peek in
  (* debug_assert_eq! *)
  if negb (peek_is (Z.eqb Ch.PERCENT) b) then panic
  else
    advance ;!
    let! ok := consume_if_eq Ch.DQUOTE in
    if negb ok then invalid "WebTransport-Init: display string must start with percent-DQUOTE"
    else fueled (fun fuel => skip_display_string_loop fuel []).

Definition parse_bare_item : M SfValue.t :=
  let! b := peek in
  if peek_is is_number_start b then
    let! n := parse_number in
    match n with
    | SfNumber.Integer n => ret (SfValue.Integer n)
    | SfNumber.Decimal => ret SfValue.Decimal
    end
  else if peek_is (Z.eqb Ch.DQUOTE) b then skip_string ;! ret SfValue.String
  else if peek_is (Z.eqb Ch.QUESTION) b then skip_boolean ;! ret SfValue.Boolean
  else if peek_is (Z.eqb Ch.COLON) b then skip_byte_sequence ;! ret SfValue.ByteSequence
  else if peek_is (Z.eqb Ch.AT) b then skip_date ;! ret SfValue.Date
  else if peek_is (Z.eqb Ch.PERCENT) b then skip_display_string ;! ret SfValue.DisplayString
  else if peek_is is_token_start b then skip_token ;! ret SfValue.Token
  else invalid "WebTransport-Init: unexpected character at start of bare item".

Fixpoint skip_parameters_loop (fuel : nat) : M unit :=
  match fuel with
  | O => panic
  | S fuel =>
      let! b := peek in
      if peek_is (Z.eqb Ch.SEMICOLON) b then
        advance ;!
        skip_sp ;!
        parse_key ;!
        let! value := consume_if_eq Ch.EQUALS in
        (if value then parse_bare_item ;! ret tt else ret tt) ;!
        skip_parameters_loop fuel
      else ret tt
  end.
Definition skip_parameters : M unit := fueled skip_parameters_loop.

Fixpoint parse_inner_list_loop (fuel : nat) : M SfValue.t :=
  match fuel with
  | O => panic
  | S fuel =>
      skip_sp ;!
      let! close := consume_if_eq Ch.RPAREN in
      if close then ret SfValue.InnerList
      else
        parse_bare_item ;!
        skip_parameters ;!
        let! b := peek in
        if peek_is (Z.eqb Ch.SP) b then parse_inner_list_loop fuel
        else if peek_is (Z.eqb Ch.RPAREN) b then advance ;! ret SfValue.InnerList
        else invalid "WebTransport-Init: invalid character in inner list"
  end.

Definition parse_inner_list : M SfValue.t :=
  let! ok := consume_if_eq Ch.LPAREN in
  if negb ok then invalid "WebTransport-Init: inner list must start with '('"
  else fueled parse_inner_list_loop.

Definition parse_value : M SfValue.t :=
  let! b := peek in
  if peek_is (Z.eqb Ch.LPAREN) b then parse_inner_list else parse_bare_item.

End DictionaryParser.

Module WtInit.
Import DictionaryParser.

Record t : Type := mk { u : option Z; bl : option Z; br : option Z }.
#[global] Instance eta_wt_init : Eta t := fun s => mk (u s) (bl s) (br s).

Definition default : t := mk None None None.

Definition extract_nonneg_integer (value : SfValue.t) : WtResult Z :=
  match value with
  | SfValue.Integer n =>
      if 0 <=? n then Ok n
      else Err (WtError.invalid_input "WebTransport-Init: key '{key}' must be non-negative integer")
  | _ => Err (WtError.invalid_input "WebTransport-Init: key '{key}' must be an Integer")
  end.

(** [match key.as_slice()]: the value of a known key is kept. *)
Definition store (key : list Z) (value : SfValue.t) (out : t) : WtResult t :=
  if bytes_eqb key (bstr "u") then
    let? n := extract_nonneg_integer value in Ok (out <| u := Some n |>)
  else if bytes_eqb key (bstr "bl") then
    let? n := extract_nonneg_integer value in Ok (out <| bl := Some n |>)
  else if bytes_eqb key (bstr "br") then
    let? n := extract_nonneg_integer value in Ok (out <| br := Some n |>)
  else Ok out.

Fixpoint parse_loop (fuel : nat) (out : t) : M t :=
  match fuel with
  | O => panic
  | S fuel =>
      let! empty := is_empty in
      if empty then ret out
      else
        let! key := parse_key in
        let! eq := consume_if_eq Ch.EQUALS in
        let! value := (if eq then parse_value else ret SfValue.Boolean) in
        skip_parameters ;!
        let! out := lift (store key value out) in
        skip_ows ;!
        let! empty := is_empty in
        if empty then ret out
        else
          let! comma := consume_if_eq Ch.COMMA in
          if negb comma
          then invalid "WebTransport-Init: expected ',' between dictionary members"
          else
            skip_ows ;!
            let! empty := is_empty in
            if empty
            then invalid "WebTransport-Init: trailing comma not allowed"
            else parse_loop fuel out
  end.

Definition parse (value : list Z) : WtResult t :=
  if existsb (fun b => b >=? 0x80) value
  then Err (WtError.invalid_input "WebTransport-Init: non-ASCII byte in header value")
  else fst ((skip_ows ;! fueled (fun fuel => parse_loop fuel default)) value).

End WtInit.
