(* ===== verification/WtProtocols.v ===== *)
(** * WtProtocols: application protocol negotiation and the exporter context

    Models [src/src/webtransport/protocols.rs], a parser of RFC 9651 lists of
    strings and the serializer of one string, and
    [src/src/webtransport/exporter.rs].  As in [WtInit], the state of the parser
    is the octets from its position on, and a [String] is the list of its
    octets. *)

From S2P Require Import Prelude Syntax WtVarint WtInit.
Import Syntax.

Module ListParser.

Notation M := (ST (list Z) WtError.t).

Definition invalid {A} (reason : string) : M A := throw (WtError.invalid_input reason).

Definition is_empty : M bool := gets (fun l => len l =? 0).
Definition peek : M (option Z) := gets head.
Definition advance : M unit := modify (fun l => drop 1 l).

Definition consume_if_eq (expected : Z) : M bool :=
  let! b := peek in
  if peek_is (Z.eqb expected) b then advance ;! ret true else ret false.

Definition skip_ows : M unit := modify (skip_while (fun b => (b =? Ch.SP) || (b =? Ch.HTAB))).
Definition skip_sp : M unit := modify (skip_while (Z.eqb Ch.SP)).

Definition fueled {A} (f : nat -> M A) : M A :=
  let! fuel := gets (fun l => S (length l)) in f fuel.

(** The loop of [parse_string] behind the opening DQUOTE. *)
Fixpoint parse_string_loop (out l : list Z) : WtResult (list Z) * list Z :=
  let invalid reason l := (Err (WtError.invalid_input reason), l) in
  match l with
  | [] => invalid "WT-Available-Protocols: unterminated string" []
  | b :: l' =>
      if b =? Ch.BACKSLASH then
        match l' with
        | e :: l'' =>
            if (e =? Ch.BACKSLASH) || (e =? Ch.DQUOTE) then parse_string_loop (out ++ [e]) l''
            else invalid "WT-Available-Protocols: invalid escape sequence in string" l'
        | [] => invalid "WT-Available-Protocols: invalid escape sequence in string" l'
        end
      else if b =? Ch.DQUOTE then
        (* String::from_utf8(out).expect(..) *)
        if utf8_valid out then (Ok out, l') else (Panic, l')
      else if negb (is_printable b)
      then invalid "WT-Available-Protocols: invalid character in string" l
      else parse_string_loop (out ++ [b]) l'
  end.

Definition parse_string : M (list Z) :=
  let! b := peek in
  if peek_is (Z.eqb Ch.DQUOTE) b then
    advance ;!
    parse_string_loop []
  else if peek_is is_number_start b
  then invalid "WT-Available-Protocols: list member must be a String, got Integer/Decimal"
  else if peek_is (Z.eqb Ch.QUESTION) b
  then invalid "WT-Available-Protocols: list member must be a String, got Boolean"
  else if peek_is (Z.eqb Ch.COLON) b
  then invalid "WT-Available-Protocols: list member must be a String, got Byte Sequence"
  else if peek_is (Z.eqb Ch.LPAREN) b
  then invalid "WT-Available-Protocols: list member must be a String, got Inner List"
  else if peek_is is_token_start b
  then invalid "WT-Available-Protocols: list member must be a String, got Token"
  else invalid "WT-Available-Protocols: list member must be a String".

Definition parse_key : M unit :=
  let! b := peek in
  if peek_is is_key_start b then modify (skip_while is_key_char)
  else invalid "WT-Available-Protocols: parameter key must start with lcalpha or '*'".

(** A loop over digits; tells whether the position moved. *)
Definition scan_digits : M bool :=
  let! start := gets (fun l => length l) in
  modify (skip_while is_ascii_digit) ;!
  let! pos := gets (fun l => length l) in
  ret (negb (Nat.eqb pos start)).

Definition skip_number : M unit :=
  let! b := peek in
  (if peek_is (Z.eqb Ch.MINUS) b then advance else ret tt) ;!
  let! moved := scan_digits in
  if negb moved
  then invalid "WT-Available-Protocols: integer must contain at least one digit"
  else
    let! b := peek in
    if peek_is (Z.eqb Ch.DOT) b then
      advance ;!
      let! moved := scan_digits in
      if negb moved
      then invalid "WT-Available-Protocols: decimal fractional part must contain digits"
      else ret tt
    else ret tt.

Fixpoint skip_string_loop (l : list Z) : WtResult unit * list Z :=
  let invalid reason l := (Err (WtError.invalid_input reason), l) in
  match l with
  | [] => invalid "WT-Available-Protocols: unterminated string" []
  | b :: l' =>
      if b =? Ch.BACKSLASH then
        match l' with
        | e :: l'' =>
            if (e =? Ch.BACKSLASH) || (e =? Ch.DQUOTE) then skip_string_loop l''
            else invalid "WT-Available-Protocols: invalid escape sequence in string" l'
        | [] => invalid "WT-Available-Protocols: invalid escape sequence in string" l'
        end
      else if b =? Ch.DQUOTE then (Ok tt, l')
      else if negb (is_printable b) then invalid "WT-Available-Protocols: invalid character in string" l
      else skip_string_loop l'
  end.

Definition skip_string : M unit :=
  let! ok := consume_if_eq Ch.DQUOTE in
  if negb ok then invalid "WT-Available-Protocols: string must start with DQUOTE"
  else skip_string_loop.

Definition skip_token : M unit :=
  let! b := peek in
  if peek_is is_token_start b then advance ;! modify (skip_while is_token_rest)
  else invalid "WT-Available-Protocols: token must start with ALPHA or '*'".

Definition skip_byte_sequence : M unit :=
  let! ok := consume_if_eq Ch.COLON in
  if negb ok then invalid "WT-Available-Protocols: byte sequence must start with ':'"
  else
    modify (skip_while is_base64) ;!
    let! ok := consume_if_eq Ch.COLON in
    if negb ok then invalid "WT-Available-Protocols: byte sequence must end with ':'" else ret tt.

Definition skip_boolean : M unit :=
  let! ok := consume_if_eq Ch.QUESTION in
  if negb ok then invalid "WT-Available-Protocols: boolean must start with '?'"
  else
    let! b := peek in
    if peek_is (in_range 48 49) b then advance
    else invalid "WT-Available-Protocols: boolean value must be '0' or '1'".

Definition skip_bare_item : M unit :=
  let! b := peek in
  if peek_is is_number_start b then skip_number
  else if peek_is (Z.eqb Ch.DQUOTE) b then skip_string
  else if peek_is (Z.eqb Ch.QUESTION) b then skip_boolean
  else if peek_is (Z.eqb Ch.COLON) b then skip_byte_sequence
  else if peek_is is_token_start b then skip_token
  else invalid "WT-Available-Protocols: unexpected character in parameter value".

Fixpoint skip_parameters_loop (fuel : nat) : M unit :=
  match fuel with
  | O => panic
  | S fuel =>
      let! b := peek in
      if peek_is (Z.eqb Ch.SEMICOLON) b then
        advance ;!
        skip_sp ;!
        parse_key ;!
        let! value := consume_if_eq Ch.EQUALS in
        (if value then skip_bare_item else ret tt) ;!
        skip_parameters_loop fuel
      else ret tt
  end.
Definition skip_parameters : M unit := fueled skip_parameters_loop.

End ListParser.

Module WtAvailableProtocols.
Import ListParser.

Record t : Type := mk { protocols : list (list Z) }.

Fixpoint parse_loop (fuel : nat) (protocols : list (list Z)) : M t :=
  match fuel with
  | O => panic
  | S fuel =>
      let! s := parse_string in
      let protocols := protocols ++ [s] in
      skip_parameters ;!
      skip_ows ;!
      let! empty := is_empty in
      if empty then ret (mk protocols)
      else
        let! comma := consume_if_eq Ch.COMMA in
        if negb comma
        then invalid "WT-Available-Protocols: expected ',' between list members"
        else
          skip_ows ;!
          let! empty := is_empty in
          if empty
          then invalid "WT-Available-Protocols: trailing comma not allowed"
          else parse_loop fuel protocols
  end.

Definition parse (value : list Z) : WtResult t :=
  if existsb (fun b => b >=? 0x80) value
  then Err (WtError.invalid_input "WT-Available-Protocols: non-ASCII byte in header value")
  else
    fst ((skip_ows ;!
          let! empty := is_empty in
          if empty then ret (mk []) else fueled (fun fuel => parse_loop fuel [])) value).

End WtAvailableProtocols.

(** [for &b in value { ... out.push(b) }]. *)
Fixpoint escape (value : list Z) : list Z :=
  match value with
  | [] => []
  | b :: value =>
      (if (b =? Ch.DQUOTE) || (b =? Ch.BACKSLASH) then [Ch.BACKSLASH] else []) ++ [b] ++ escape value
  end.

Definition serialize_wt_protocol (value : list Z) : WtResult (list Z) :=
  if existsb (fun b => negb (is_printable b)) value
  then Err (WtError.invalid_input "wt-protocol value contains non-printable byte")
  else Ok ([Ch.DQUOTE] ++ escape value ++ [Ch.DQUOTE]).

(** [u64::to_be_bytes]. *)
Definition u64_to_be (x : Z) : list Z := u32_to_be (Z.shiftr x 32) ++ u32_to_be x.

Definition serialize_exporter_context (session_id : Z) (app_label app_context : list Z) : WtResult (list Z) :=
  if len app_label >? 255 then Err (WtError.invalid_input "exporter label exceeds 255 bytes")
  else if len app_context >? 255 then Err (WtError.invalid_input "exporter context exceeds 255 bytes")
  else
    Ok (u64_to_be session_id
        ++ [as_u8 (len app_label)] ++ app_label
        ++ [as_u8 (len app_context)] ++ app_context).
