(* ===== verification/WtFields.v ===== *)
(** * WtFields: the WebTransport header fields

    Theorems on [WtInit] and [WtProtocols]: the parsers end on every input and
    never panic, the values they return are in range, and they read back what
    was written. *)

From S2P Require Import Prelude Syntax WtVarint WtInit WtProtocols.
Import Syntax.

(** ** Parsers that end

    [reads k P m]: from any octets, [m] does not panic; when it returns a
    value, the value satisfies [P] and at least [k] octets are gone. *)
Definition reads {A} (k : nat) (P : A -> Prop) (m : ST (list Z) WtError.t A) : Prop :=
  forall l, wp m (fun a l' => P a /\ (k + length l' <= length l)%nat) (fun _ => True) l.

Definition any {A} (_ : A) : Prop := True.

Section reads.
Context {A B : Type}.
Implicit Types m : ST (list Z) WtError.t A.

Lemma reads_bind j k (P : A -> Prop) (Q : B -> Prop) m (f : A -> ST (list Z) WtError.t B) :
  reads j P m -> (forall a, P a -> reads k Q (f a)) -> reads (j + k) Q (bind m f).
Proof.
  intros Hm Hf l. eapply wp_seq; [apply Hm| |done].
  intros a l' [HP Hl]. eapply wp_mono; [by apply Hf| |done]. cbn. intros b l'' [? ?]. split; [done|lia].
Qed.

Lemma reads_weaken j k (P Q : A -> Prop) m :
  (k <= j)%nat -> (forall a, P a -> Q a) -> reads j P m -> reads k Q m.
Proof.
  intros Hk HPQ Hm l. eapply wp_mono; [apply Hm| |done]. cbn. intros a l' [? ?]. split; [auto|lia].
Qed.

Lemma reads_ret (P : A -> Prop) a : P a -> reads 0 P (ret a).
Proof. intros H l. by split. Qed.
Lemma reads_throw k (P : A -> Prop) e : reads k P (throw e).
Proof. by intros l. Qed.
Lemma reads_if k (P : A -> Prop) (b : bool) m1 m2 :
  (b = true -> reads k P m1) -> (b = false -> reads k P m2) -> reads k P (if b then m1 else m2).
Proof. destruct b; auto. Qed.

(** A loop with as much fuel as there are octets. *)
Lemma reads_fueled (P : A -> Prop) f :
  (forall fuel l, (length l < fuel)%nat ->
     wp (f fuel) (fun a l' => P a /\ (length l' <= length l)%nat) (fun _ => True) l) ->
  reads 0 P (DictionaryParser.fueled f).
Proof. intros H l. unfold DictionaryParser.fueled. apply wp_gets. apply H. lia. Qed.

End reads.

Lemma skip_while_length p l : (length (skip_while p l) <= length l)%nat.
Proof. induction l as [|b l IH]; cbn; [lia|]. case_match; cbn; lia. Qed.

Lemma take_skip_while p l : take_while p l ++ skip_while p l = l.
Proof. induction l as [|b l IH]; cbn; [done|]. case_match; cbn; [by rewrite IH|done]. Qed.

Lemma take_while_all p l : forallb p (take_while p l) = true.
Proof. induction l as [|b l IH]; cbn; [done|]. case_match eqn:E; cbn; [by rewrite E|done]. Qed.

Lemma reads_skip_while p : reads 0 any (modify (skip_while p)).
Proof. intros l. split; [done|]. apply skip_while_length. Qed.

(** A choice by the next octet. *)
Lemma reads_peek {A} k (P : A -> Prop) p (m1 m2 : ST (list Z) WtError.t A) :
  (forall b l, p b = true -> wp m1 (fun a l' => P a /\ (k + length l' <= S (length l))%nat) (fun _ => True) (b :: l)) ->
  reads k P m2 ->
  reads k P (let! b := DictionaryParser.peek in if peek_is p b then m1 else m2).
Proof. intros H1 H2 [|b l]; [apply H2|]. apply wp_gets. cbn [head peek_is]. destruct (p b) eqn:E; [by apply H1|apply H2]. Qed.

Lemma consume_reads c : reads 0 any (DictionaryParser.consume_if_eq c).
Proof.
  intros l. unfold DictionaryParser.consume_if_eq. apply wp_gets.
  destruct l as [|b l]; [by split|]. cbn [head peek_is]. destruct (c =? b); [|by split].
  split; [done|]. cbn [drop]. rewrite drop_0. cbn. lia.
Qed.

Lemma reads_consume {A} k (P : A -> Prop) c (f : bool -> ST (list Z) WtError.t A) :
  reads (k - 1) P (f true) -> reads k P (f false) -> reads k P (bind (DictionaryParser.consume_if_eq c) f).
Proof.
  intros Ht Hf l. unfold DictionaryParser.consume_if_eq. apply wp_assoc, wp_gets.
  destruct l as [|b l]; cbn [head peek_is]; [apply Hf|].
  destruct (c =? b); [|apply Hf].
  eapply wp_mono; [apply Ht| |done]. cbn [drop length]. rewrite drop_0.
  intros a l' [? ?]. split; [done|lia].
Qed.

(** [advance] behind a successful [peek]. *)
Lemma advance_wp {A} (P : A -> Prop) j k (m : ST (list Z) WtError.t A) b l :
  reads j P m -> (k <= S j)%nat ->
  wp (DictionaryParser.advance ;! m) (fun a l' => P a /\ (k + length l' <= S (length l))%nat) (fun _ => True) (b :: l).
Proof.
  intros Hm Hk. apply wp_modify_seq. cbn [drop]. rewrite drop_0.
  eapply wp_mono; [apply Hm| |done]. cbn. intros a l' [? ?]. split; [done|lia].
Qed.

Lemma advance_end_wp k b l :
  (k <= 1)%nat ->
  wp DictionaryParser.advance (fun a l' => any a /\ (k + length l' <= S (length l))%nat) (fun _ => True) (b :: l).
Proof. intros Hk. split; [done|]. cbn [drop]. rewrite drop_0. lia. Qed.

Lemma reads_scan p : reads 0 (fun octets => forallb p octets = true) (DictionaryParser.scan p).
Proof.
  intros l. unfold DictionaryParser.scan. apply wp_gets, wp_modify_seq, wp_ret.
  split; [apply take_while_all|apply skip_while_length].
Qed.

(** A string loop leaves octets at each turn. *)
Lemma init_string_reads l :
  wp DictionaryParser.skip_string_loop (fun _ l' => (length l' <= length l)%nat) (fun _ => True) l.
Proof.
  induction l as [l IH] using (induction_ltof1 _ (@length Z)). unfold ltof in IH.
  destruct l as [|b l]; [done|]. unfold wp in *. cbn [DictionaryParser.skip_string_loop].
  destruct (b =? Ch.BACKSLASH).
  - destruct l as [|e l]; [done|]. destruct (_ || _); [|done].
    specialize (IH l ltac:(cbn; lia)). destruct (DictionaryParser.skip_string_loop l) as [[]]; cbn; try done. lia.
  - destruct (b =? Ch.DQUOTE); [cbn; lia|]. destruct (negb _); [done|].
    specialize (IH l ltac:(cbn; lia)). destruct (DictionaryParser.skip_string_loop l) as [[]]; cbn; try done. lia.
Qed.

Lemma list_string_reads l :
  wp ListParser.skip_string_loop (fun _ l' => (length l' <= length l)%nat) (fun _ => True) l.
Proof.
  induction l as [l IH] using (induction_ltof1 _ (@length Z)). unfold ltof in IH.
  destruct l as [|b l]; [done|]. unfold wp in *. cbn [ListParser.skip_string_loop].
  destruct (b =? Ch.BACKSLASH).
  - destruct l as [|e l]; [done|]. destruct (_ || _); [|done].
    specialize (IH l ltac:(cbn; lia)). destruct (ListParser.skip_string_loop l) as [[]]; cbn; try done. lia.
  - destruct (b =? Ch.DQUOTE); [cbn; lia|]. destruct (negb _); [done|].
    specialize (IH l ltac:(cbn; lia)). destruct (ListParser.skip_string_loop l) as [[]]; cbn; try done. lia.
Qed.

(** ** The dictionary parser *)
Section dictionary.
Import DictionaryParser.

Lemma parse_key_reads : reads 1 any parse_key.
Proof.
  apply (reads_peek 1 any is_key_start); [|by intros].
  intros b l Hb. unfold scan. apply wp_gets, wp_modify_seq, wp_ret. split; [done|].
  assert (is_key_char b = true) as E.
  { revert Hb. unfold is_key_start, is_key_char. destruct (is_ascii_lowercase b); [done|].
    cbn [orb]. intros ->. by rewrite !orb_true_r. }
  cbn [skip_while]. rewrite E. pose proof (skip_while_length is_key_char l). lia.
Qed.

(** A number of at most fifteen digits. *)
Definition number_ok (n : SfNumber.t) : Prop :=
  match n with SfNumber.Integer n => - 10 ^ 15 < n < 10 ^ 15 | SfNumber.Decimal => True end.

Lemma parse_digits_bound l :
  forallb is_ascii_digit l = true -> 0 <= parse_digits l < 10 ^ len l.
Proof.
  intros H. unfold parse_digits.
  assert (forall acc, 0 <= acc -> acc * 10 ^ len l <= fold_left (fun n b => n * 10 + (b - 48)) l acc < (acc + 1) * 10 ^ len l) as G.
  { induction l as [|b l IH]; intros acc Ha; cbn [fold_left forallb] in *.
    - rewrite len_nil. lia.
    - apply andb_true_iff in H as [Hb Hl]. unfold is_ascii_digit, in_range in Hb. zbool.
      specialize (IH Hl (acc * 10 + (b - 48)) ltac:(lia)). pose proof (len_nonneg l).
      rewrite len_cons, Z.pow_add_r by lia. change (10 ^ 1) with 10.
      pose proof (Z.pow_pos_nonneg 10 (len l)). nia. }
  specialize (G 0). lia.
Qed.

Lemma parse_i64_bound text n :
  parse_i64 text = Some n ->
  len text <= (if peek_is (Z.eqb Ch.MINUS) (head text) then 16 else 15) -> - 10 ^ 15 < n < 10 ^ 15.
Proof.
  unfold parse_i64. destruct text as [|b l]; [done|]. cbn [head peek_is]. rewrite (Z.eqb_sym Ch.MINUS).
  assert (forall l, forallb is_ascii_digit l = true -> len l <= 15 -> 0 <= parse_digits l < 10 ^ 15) as G.
  { intros d Hd Hl. pose proof (parse_digits_bound d Hd). pose proof (len_nonneg d).
    assert (10 ^ len d <= 10 ^ 15) by (apply Z.pow_le_mono_r; lia). lia. }
  destruct (b =? Ch.MINUS); case_match eqn:E; try done; intros [= <-] Hl;
    apply andb_true_iff in E as [[[_ E]%andb_true_iff _]%andb_true_iff _].
  - rewrite len_cons in Hl. pose proof (G l E ltac:(lia)). lia.
  - pose proof (G (b :: l) E ltac:(lia)). lia.
Qed.

(** [l] is [l0] behind its minus sign, if it has one. *)
Definition after_sign (l0 l : list Z) : Prop :=
  l = l0 /\ peek_is (Z.eqb Ch.MINUS) (head l0) = false \/
  exists b, l0 = b :: l /\ (Ch.MINUS =? b) = true.

(** What is left of a number behind its sign. *)
Lemma parse_number_digits l0 l :
  after_sign l0 l ->
  let rest := skip_while is_ascii_digit l in
  (length rest <= length l0)%nat /\ (len (take_while is_ascii_digit l) <> 0 -> (S (length rest) <= length l0)%nat) /\
  (len (take_while is_ascii_digit l) <= 15 ->
   len (take (length l0 - length rest) l0) <=
     if peek_is (Z.eqb Ch.MINUS) (head (take (length l0 - length rest) l0)) then 16 else 15).
Proof.
  intros H rest. pose proof (f_equal length (take_skip_while is_ascii_digit l)) as L.
  fold rest in L. rewrite length_app in L.
  assert (length l <= length l0 /\ length l0 <= S (length l))%nat by (destruct H as [[-> _]|(b & -> & _)]; cbn; lia).
  unfold len. split_and!; [lia|lia|]. intros Hd. rewrite length_take.
  destruct H as [[-> Hm]|(b & -> & Hm)].
  - case_match; lia.
  - cbn [length] in *. replace (S (length l) - length rest)%nat with (S (length l - length rest)) by lia.
    cbn [take head peek_is]. rewrite Hm. lia.
Qed.

Lemma parse_number_tail l0 l :
  after_sign l0 l ->
  forall (k : list Z -> ST (list Z) WtError.t SfNumber.t),
  (forall digits rest,
     len digits <> 0 -> (length rest <= length l0)%nat -> (S (length rest) <= length l0)%nat ->
     (len digits <= 15 -> len (take (length l0 - length rest) l0) <=
        if peek_is (Z.eqb Ch.MINUS) (head (take (length l0 - length rest) l0)) then 16 else 15) ->
     wp (k digits) (fun a l' => number_ok a /\ (1 + length l' <= length l0)%nat) (fun _ => True) rest) ->
  wp (let! digits := scan is_ascii_digit in
      if len digits =? 0 then invalid "WebTransport-Init: integer must contain at least one digit" else k digits)
     (fun a l' => number_ok a /\ (1 + length l' <= length l0)%nat) (fun _ => True) l.
Proof.
  intros H k Hk. unfold scan. apply wp_assoc, wp_gets, wp_assoc, wp_modify_seq.
  destruct (parse_number_digits l0 l H) as (H1 & H2 & H3).
  unfold wp, bind, ret. destruct (Z.eqb_spec (len (take_while is_ascii_digit l)) 0); [done|].
  apply (Hk _ _ n H1 (H2 n) H3).
Qed.

Lemma parse_number_reads : reads 1 number_ok parse_number.
Proof.
  intros l0. unfold parse_number. apply wp_gets. apply wp_gets.
  eapply (wp_seq _ _ (fun _ l => after_sign l0 l) (fun _ => True)); [| |done].
  { destruct l0 as [|b l]; cbn [head peek_is]; [by left|].
    destruct (Ch.MINUS =? b) eqn:E; [right; by exists b|by left]. }
  intros _ l H. apply (parse_number_tail l0 l H). clear l H. intros digits rest Hd Hr Hr' Ht.
  apply wp_gets. destruct (peek_is (Z.eqb Ch.DOT) (head rest)) eqn:E.
  - destruct (len digits >? 12); [done|]. destruct rest as [|b rest]; [done|].
    apply wp_modify_seq. cbn [drop]. rewrite drop_0. unfold scan.
    apply wp_assoc, wp_gets, wp_assoc, wp_modify_seq. unfold wp, bind, ret.
    destruct (negb (in_range 1 3 _)); [done|].
    pose proof (skip_while_length is_ascii_digit rest). cbn in *. split; [done|lia].
  - destruct (Z.gtb_spec (len digits) 15); [done|]. apply wp_gets.
    destruct (negb _); [done|]. destruct (parse_i64 _) as [n|] eqn:En; [|done].
    apply wp_ret. split; [|lia]. cbn. apply (parse_i64_bound _ _ En). apply Ht. lia.
Qed.

Lemma skip_string_reads : reads 1 any skip_string.
Proof.
  apply reads_consume; [|apply reads_throw].
  intros l. eapply wp_mono; [apply init_string_reads| |done]. done.
Qed.

Lemma skip_token_reads : reads 1 any skip_token.
Proof.
  apply (reads_peek 1 any is_token_start); [|apply reads_throw].
  intros b l _. apply (advance_wp any 0); [apply reads_skip_while|lia].
Qed.

Lemma skip_byte_sequence_reads : reads 1 any skip_byte_sequence.
Proof.
  apply reads_consume; [|apply reads_throw]. cbn [negb].
  apply (reads_bind 0 0 any); [apply reads_skip_while|intros _ _].
  apply reads_consume; [by apply reads_ret|apply reads_throw].
Qed.

Lemma skip_boolean_reads : reads 1 any skip_boolean.
Proof.
  apply reads_consume; [|apply reads_throw]. cbn [negb].
  apply (reads_peek 0 any (in_range 48 49)); [|apply reads_throw].
  intros b l _. apply advance_end_wp. lia.
Qed.

(** The next octet is [c]: what [parse_bare_item] has seen before it calls
    [skip_date] and [skip_display_string]. *)
Definition reads_behind {A} (c : Z) (P : A -> Prop) (m : ST (list Z) WtError.t A) : Prop :=
  forall l, wp m (fun a l' => P a /\ (1 + length l' <= S (length l))%nat) (fun _ => True) (c :: l).

Lemma skip_date_reads : reads_behind Ch.AT any skip_date.
Proof.
  intros l. unfold skip_date. apply wp_gets. cbn [head peek_is Z.eqb Pos.eqb Ch.AT negb].
  apply (advance_wp any 0); [|lia].
  apply (reads_weaken 1 0 any any); [lia|done|].
  apply (reads_bind 1 0 number_ok any); [apply parse_number_reads|].
  intros [n|] _; [by apply reads_ret|apply reads_throw].
Qed.

Lemma next_hex_digit_reads : reads 1 any next_hex_digit.
Proof.
  intros [|b l]; [done|]. unfold next_hex_digit. apply wp_gets. cbn [head].
  destruct (in_range 48 57 b); [apply (advance_wp any 0); [by apply reads_ret|lia]|].
  destruct (in_range 97 102 b); [apply (advance_wp any 0); [by apply reads_ret|lia]|done].
Qed.

Lemma display_string_loop_reads fuel bytes l :
  (length l < fuel)%nat ->
  wp (skip_display_string_loop fuel bytes) (fun a l' => any a /\ (length l' <= length l)%nat) (fun _ => True) l.
Proof.
  revert bytes l. induction fuel as [|fuel IH]; intros bytes l Hl; [lia|].
  cbn [skip_display_string_loop]. apply wp_gets. destruct l as [|b l]; [done|]. cbn [head].
  apply wp_modify_seq. cbn [drop]. rewrite drop_0. cbn [length] in *.
  assert (forall bytes l', (length l' <= length l)%nat ->
    wp (skip_display_string_loop fuel bytes) (fun a l'' => any a /\ (length l'' <= S (length l))%nat) (fun _ => True) l') as G.
  { intros bs l' Hl'. eapply wp_mono; [apply IH; lia| |done]. cbn. intros a l'' [? ?]. split; [done|lia]. }
  destruct (negb _); [done|]. destruct (b =? Ch.PERCENT).
  - eapply wp_seq; [apply next_hex_digit_reads| |done]. intros high l1 [_ H1].
    eapply wp_seq; [apply next_hex_digit_reads| |done]. intros low l2 [_ H2]. apply G. lia.
  - destruct (b =? Ch.DQUOTE); [|by apply G].
    destruct (negb _); [done|]. split; [done|lia].
Qed.

Lemma skip_display_string_reads : reads_behind Ch.PERCENT any skip_display_string.
Proof.
  intros l. unfold skip_display_string. apply wp_gets. cbn [head peek_is Z.eqb Pos.eqb Ch.PERCENT negb].
  apply (advance_wp any 0); [|lia].
  apply reads_consume; [|apply reads_throw]. cbn [negb].
  apply reads_fueled. intros fuel l'. apply display_string_loop_reads.
Qed.

Definition value_ok (v : SfValue.t) : Prop :=
  match v with SfValue.Integer n => - 10 ^ 15 < n < 10 ^ 15 | _ => True end.

(** A branch of [parse_bare_item]: skip, then answer the kind of value. *)
Lemma reads_then k (m : M unit) v : value_ok v -> reads k any m -> reads k value_ok (m ;! ret v).
Proof. intros Hv Hm. rewrite (plus_n_O k). by apply (reads_bind k 0 any); [|intros; apply reads_ret]. Qed.

Lemma parse_bare_item_reads : reads 1 value_ok parse_bare_item.
Proof.
  intros l. unfold parse_bare_item. apply wp_gets.
  destruct (peek_is is_number_start (head l)).
  { apply (reads_bind 1 0 number_ok); [apply parse_number_reads|]. intros [n|] Hn; by apply reads_ret. }
  destruct (peek_is (Z.eqb Ch.DQUOTE) _); [by apply reads_then, skip_string_reads|].
  destruct (peek_is (Z.eqb Ch.QUESTION) _); [by apply reads_then, skip_boolean_reads|].
  destruct (peek_is (Z.eqb Ch.COLON) _); [by apply reads_then, skip_byte_sequence_reads|].
  destruct (peek_is (Z.eqb Ch.AT) _) eqn:Ea.
  { destruct l as [|b l]; [done|]. apply Z.eqb_eq in Ea as <-.
    eapply wp_seq; [apply skip_date_reads| |done]. by intros _ l' [_ Hl]. }
  destruct (peek_is (Z.eqb Ch.PERCENT) _) eqn:Ep.
  { destruct l as [|b l]; [done|]. apply Z.eqb_eq in Ep as <-.
    eapply wp_seq; [apply skip_display_string_reads| |done]. by intros _ l' [_ Hl]. }
  destruct (peek_is is_token_start _); [by apply reads_then, skip_token_reads|done].
Qed.

Lemma skip_parameters_reads : reads 0 any skip_parameters.
Proof.
  apply reads_fueled. induction fuel as [|fuel IH]; intros l Hl; [lia|].
  cbn [skip_parameters_loop]. apply wp_gets.
  destruct l as [|b l]; [done|]. cbn [head peek_is]. destruct (Ch.SEMICOLON =? b); [|by split].
  apply wp_modify_seq, wp_modify_seq. cbn [drop]. rewrite drop_0.
  pose proof (skip_while_length (Z.eqb Ch.SP) l) as Hs. cbn [length] in *.
  eapply wp_seq; [apply parse_key_reads| |done]. intros _ l1 [_ H1].
  eapply wp_seq; [apply consume_reads| |done]. intros value l2 [_ H2].
  eapply (wp_seq _ _ (fun _ l' => (length l' <= length l2)%nat)); [| |done].
  - destruct value; [|by apply wp_ret].
    eapply wp_seq; [apply parse_bare_item_reads| |done]. intros _ l3 [_ H3]. apply wp_ret. lia.
  - intros _ l3 H3. eapply wp_mono; [apply IH; lia| |done]. cbn. intros a l4 [? ?]. split; [done|lia].
Qed.

Lemma parse_inner_list_reads : reads 1 value_ok parse_inner_list.
Proof.
  apply reads_consume; [|apply reads_throw]. cbn [negb]. apply reads_fueled.
  induction fuel as [|fuel IH]; intros l Hl; [lia|]. cbn [parse_inner_list_loop].
  apply wp_modify_seq. pose proof (skip_while_length (Z.eqb Ch.SP) l) as Hs.
  eapply wp_seq; [apply consume_reads| |done]. intros close l1 [_ H1].
  destruct close; [split; [done|lia]|].
  eapply wp_seq; [apply parse_bare_item_reads| |done]. intros v l2 [_ H2].
  eapply wp_seq; [apply skip_parameters_reads| |done]. intros _ l3 [_ H3].
  apply wp_gets. destruct l3 as [|b l3]; [done|]. cbn [head peek_is length] in *.
  destruct (Ch.SP =? b).
  - eapply wp_mono; [apply IH; cbn; lia| |done]. cbn. intros a l4 [? ?]. split; [done|lia].
  - destruct (Ch.RPAREN =? b); [|done]. apply wp_modify_seq. cbn [drop]. rewrite drop_0.
    split; [done|lia].
Qed.

Lemma parse_value_reads : reads 1 value_ok parse_value.
Proof.
  intros l. unfold parse_value. apply wp_gets.
  destruct (peek_is _ _); [apply parse_inner_list_reads|apply parse_bare_item_reads].
Qed.

(** The values of the known keys are integers of at most fifteen digits. *)
Definition init_ok (i : WtInit.t) : Prop :=
  forall n, WtInit.u i = Some n \/ WtInit.bl i = Some n \/ WtInit.br i = Some n -> 0 <= n < 10 ^ 15.

Lemma store_safe key value out :
  value_ok value -> init_ok out -> safe init_ok (WtInit.store key value out).
Proof.
  intros Hv Ho. unfold WtInit.store.
  assert (safe (fun n => 0 <= n < 10 ^ 15) (WtInit.extract_nonneg_integer value)) as He.
  { destruct value; cbn in *; try done. case_match; cbn; zbool; [lia|done]. }
  repeat case_match; try done;
    (eapply safe_bind; [exact He|]; intros n Hn m; cbn;
     intros [E|[E|E]]; try (injection E as <-; done); apply (Ho m); rewrite E; eauto).
Qed.

Lemma init_parse_loop_reads fuel out l :
  init_ok out -> (length l < fuel)%nat ->
  wp (WtInit.parse_loop fuel out) (fun i _ => init_ok i) (fun _ => True) l.
Proof.
  revert out l. induction fuel as [|fuel IH]; intros out l Ho Hl; [lia|]. cbn [WtInit.parse_loop].
  apply wp_gets. destruct (len l =? 0); [done|].
  eapply wp_seq; [apply parse_key_reads| |done]. intros key l1 [_ H1].
  eapply wp_seq; [apply consume_reads| |done]. intros eq l2 [_ H2].
  eapply (wp_seq _ _ (fun v l' => value_ok v /\ (length l' <= length l2)%nat)); [| |done].
  { destruct eq; [|by apply wp_ret].
    eapply wp_mono; [apply parse_value_reads| |done]. cbn. intros v l3 [? ?]. split; [done|lia]. }
  intros v l3 [Hv H3].
  eapply wp_seq; [apply skip_parameters_reads| |done]. intros _ l4 [_ H4].
  eapply wp_lift; [by apply store_safe| |done]. intros out' _ Ho'.
  apply wp_modify_seq, wp_gets.
  pose proof (skip_while_length (fun b => (b =? Ch.SP) || (b =? Ch.HTAB)) l4) as H5.
  set (l5 := skip_while _ l4) in *. destruct (len l5 =? 0); [done|].
  eapply wp_seq; [apply consume_reads| |done]. intros comma l6 [_ H6].
  destruct comma; [|done]. cbn [negb]. apply wp_modify_seq, wp_gets.
  match goal with |- context [ len ?l ] => destruct (len l =? 0); [done|] end.
  apply IH; [done|]. pose proof (skip_while_length (fun b => (b =? Ch.SP) || (b =? Ch.HTAB)) l6). lia.
Qed.

Lemma init_parse_safe value : safe init_ok (WtInit.parse value).
Proof.
  unfold WtInit.parse. apply safe_if; intros _; [done|].
  assert (init_ok WtInit.default) as Hd by (intros n [|[|]]; done).
  set (l := skip_while (fun b => (b =? Ch.SP) || (b =? Ch.HTAB)) value).
  pose proof (init_parse_loop_reads (S (length l)) WtInit.default l Hd ltac:(lia)) as H.
  unfold wp in H. unfold skip_ows, fueled. rewrite bind_modify, bind_gets. fold l.
  destruct (WtInit.parse_loop _ _ l) as [[] ?]; done.
Qed.

End dictionary.

(** ** The list parser *)
Section list_parser.
Import ListParser.

Lemma printable_utf8 l : forallb is_printable l = true -> utf8_valid l = true.
Proof.
  induction l as [|b l IH]; [done|]. cbn [forallb utf8_valid]. intros [Hb Hl]%andb_true_iff.
  unfold is_printable, in_range in Hb. zbool.
  destruct (Z.ltb_spec b 128); [auto|lia].
Qed.

Lemma parse_string_loop_reads out l :
  forallb is_printable out = true ->
  wp (parse_string_loop out) (fun s l' => forallb is_printable s = true /\ (length l' <= length l)%nat) (fun _ => True) l.
Proof.
  revert out. induction l as [l IH] using (induction_ltof1 _ (@length Z)). unfold ltof in IH.
  intros out Ho. destruct l as [|b l]; [done|]. unfold wp in *. cbn [parse_string_loop].
  assert (forall x, is_printable x = true -> forallb is_printable (out ++ [x]) = true) as Hx.
  { intros x Hx. rewrite forallb_app, Ho. cbn. by rewrite Hx. }
  destruct (b =? Ch.BACKSLASH).
  - destruct l as [|e l]; [done|]. destruct ((e =? _) || _) eqn:E; [|done].
    assert (is_printable e = true) as He by (apply orb_true_iff in E as [->%Z.eqb_eq| ->%Z.eqb_eq]; done).
    specialize (IH l ltac:(cbn; lia) _ (Hx e He)).
    destruct (parse_string_loop _ l) as [[]]; cbn; try done. split; [apply IH|]. destruct IH. lia.
  - destruct (b =? Ch.DQUOTE).
    + rewrite (printable_utf8 out Ho). cbn. split; [done|lia].
    + destruct (is_printable b) eqn:E; [|done]. cbn [negb].
      specialize (IH l ltac:(cbn; lia) _ (Hx b E)).
      destruct (parse_string_loop _ l) as [[]]; cbn; try done. split; [apply IH|]. destruct IH. lia.
Qed.

Lemma parse_string_reads : reads 1 (fun s => forallb is_printable s = true) parse_string.
Proof.
  intros l. unfold parse_string. apply wp_gets.
  destruct (peek_is (Z.eqb Ch.DQUOTE) _) eqn:E; [|repeat case_match; done].
  destruct l as [|b l]; [done|]. apply wp_modify_seq. cbn [drop]. rewrite drop_0.
  eapply wp_mono; [by apply parse_string_loop_reads| |done]. cbn. intros s l' [? ?]. split; [done|lia].
Qed.

Lemma list_key_reads : reads 1 any parse_key.
Proof.
  intros l. pose proof (parse_key_reads l) as H. revert H.
  unfold wp, parse_key, DictionaryParser.parse_key, DictionaryParser.scan, bind, gets, modify, ret, throw.
  cbn. destruct (peek_is is_key_start (head l)); [|done]. cbn. auto.
Qed.

Lemma scan_digits_reads : reads 0 any scan_digits.
Proof.
  intros l. unfold scan_digits. apply wp_gets, wp_modify_seq, wp_gets, wp_ret.
  split; [done|]. apply skip_while_length.
Qed.

Lemma skip_number_reads : reads 0 any skip_number.
Proof.
  apply (reads_bind 0 0 any); [by intros l|intros b _].
  apply (reads_bind 0 0 any).
  { apply reads_if; intros _; [|by apply reads_ret]. intros l. split; [done|]. cbn. rewrite length_drop. lia. }
  intros _ _. apply (reads_bind 0 0 any); [apply scan_digits_reads|intros moved _].
  apply reads_if; intros _; [apply reads_throw|].
  apply (reads_peek 0 any (Z.eqb Ch.DOT)); [|by apply reads_ret].
  intros c l _. apply (advance_wp any 0); [|lia].
  apply (reads_bind 0 0 any); [apply scan_digits_reads|intros moved' _].
  apply reads_if; intros _; [apply reads_throw|by apply reads_ret].
Qed.

Lemma skip_bare_item_reads : reads 0 any skip_bare_item.
Proof.
  intros l. unfold skip_bare_item. apply wp_gets.
  destruct (peek_is is_number_start _); [apply skip_number_reads|].
  destruct (peek_is (Z.eqb Ch.DQUOTE) _).
  { apply (reads_weaken 1 0 any any); [lia|done|]. apply reads_consume; [|apply reads_throw].
    intros l'. eapply wp_mono; [apply list_string_reads| |done]. done. }
  destruct (peek_is (Z.eqb Ch.QUESTION) _).
  { apply (reads_weaken 1 0 any any); [lia|done|]. apply reads_consume; [|apply reads_throw]. cbn [negb].
    apply (reads_peek 0 any (in_range 48 49)); [|apply reads_throw]. intros b l' _. apply advance_end_wp. lia. }
  destruct (peek_is (Z.eqb Ch.COLON) _).
  { apply (reads_weaken 1 0 any any); [lia|done|]. apply reads_consume; [|apply reads_throw]. cbn [negb].
    apply (reads_bind 0 0 any); [apply reads_skip_while|intros _ _].
    apply reads_consume; [by apply reads_ret|apply reads_throw]. }
  destruct (peek_is is_token_start _); [|done].
  apply (reads_peek 0 any is_token_start); [|apply reads_throw].
  intros b l' _. apply (advance_wp any 0); [apply reads_skip_while|lia].
Qed.

Lemma list_parameters_reads : reads 0 any skip_parameters.
Proof.
  apply reads_fueled. induction fuel as [|fuel IH]; intros l Hl; [lia|].
  cbn [skip_parameters_loop]. apply wp_gets.
  destruct l as [|b l]; [done|]. cbn [head peek_is]. destruct (Ch.SEMICOLON =? b); [|by split].
  apply wp_modify_seq, wp_modify_seq. cbn [drop]. rewrite drop_0.
  pose proof (skip_while_length (Z.eqb Ch.SP) l) as Hs. cbn [length] in *.
  eapply wp_seq; [apply list_key_reads| |done]. intros _ l1 [_ H1].
  eapply wp_seq; [apply consume_reads| |done]. intros value l2 [_ H2].
  eapply (wp_seq _ _ (fun _ l' => (length l' <= length l2)%nat)); [| |done].
  - destruct value; [|by apply wp_ret].
    eapply wp_mono; [apply skip_bare_item_reads| |done]. by intros _ l3 [_ H3].
  - intros _ l3 H3. eapply wp_mono; [apply IH; lia| |done]. cbn. intros a l4 [? ?]. split; [done|lia].
Qed.

Definition protocols_ok (p : WtAvailableProtocols.t) : Prop :=
  Forall (fun s => forallb is_printable s = true) (WtAvailableProtocols.protocols p).

Lemma list_parse_loop_reads fuel ps l :
  Forall (fun s => forallb is_printable s = true) ps -> (length l < fuel)%nat ->
  wp (WtAvailableProtocols.parse_loop fuel ps) (fun p _ => protocols_ok p) (fun _ => True) l.
Proof.
  revert ps l. induction fuel as [|fuel IH]; intros ps l Hps Hl; [lia|]. cbn [WtAvailableProtocols.parse_loop].
  eapply wp_seq; [apply parse_string_reads| |done]. intros s l1 [Hs H1].
  assert (Forall (fun s => forallb is_printable s = true) (ps ++ [s])) as Hps'
    by (apply Forall_app; split; [done|by constructor]).
  eapply wp_seq; [apply list_parameters_reads| |done]. intros _ l2 [_ H2].
  apply wp_modify_seq, wp_gets.
  pose proof (skip_while_length (fun b => (b =? Ch.SP) || (b =? Ch.HTAB)) l2) as H3.
  set (l3 := skip_while _ l2) in *. destruct (len l3 =? 0); [done|].
  eapply wp_seq; [apply consume_reads| |done]. intros comma l4 [_ H4].
  destruct comma; [|done]. cbn [negb]. apply wp_modify_seq, wp_gets.
  match goal with |- context [ len ?l ] => destruct (len l =? 0); [done|] end.
  apply IH; [done|]. pose proof (skip_while_length (fun b => (b =? Ch.SP) || (b =? Ch.HTAB)) l4). lia.
Qed.

Lemma list_parse_safe value : safe protocols_ok (WtAvailableProtocols.parse value).
Proof.
  unfold WtAvailableProtocols.parse. apply safe_if; intros _; [done|].
  unfold skip_ows. rewrite bind_modify. set (l := skip_while _ value). unfold is_empty. rewrite bind_gets.
  destruct (len l =? 0); [by constructor|].
  pose proof (list_parse_loop_reads (S (length l)) [] l (Forall_nil_2 _) ltac:(lia)) as H.
  unfold wp in H. unfold fueled. rewrite bind_gets.
  destruct (WtAvailableProtocols.parse_loop _ _ l) as [[] ?]; done.
Qed.

End list_parser.

(** C40: The parsers of the WebTransport header fields end on every value,
    without a panic.  An integer that [WtInit::parse] returns for a known key
    is not negative and has at most fifteen digits, so it is a varint; a
    protocol that [WtAvailableProtocols::parse] returns consists of printable
    ASCII characters. *)
Theorem header_parsers_total value :
  match WtInit.parse value with
  | Ok i => forall n, WtInit.u i = Some n \/ WtInit.bl i = Some n \/ WtInit.br i = Some n -> Varint.ok n /\ n < 10 ^ 15
  | Err _ => True
  | Panic => False
  end /\
  match WtAvailableProtocols.parse value with
  | Ok p => Forall (fun s => forallb is_printable s = true) (WtAvailableProtocols.protocols p)
  | Err _ => True
  | Panic => False
  end.
Proof.
  split.
  - pose proof (init_parse_safe value) as H. destruct (WtInit.parse value); [|done..].
    intros n Hn. specialize (H n Hn). unfold Varint.ok, Varint.MAX_VALUE. lia.
  - pose proof (list_parse_safe value) as H. by destruct (WtAvailableProtocols.parse value).
Qed.

(** ** What is written is read back *)

(** The strings of a list, quoted and separated. *)
Definition quoted (s : list Z) : list Z := [Ch.DQUOTE] ++ escape s ++ [Ch.DQUOTE].
Fixpoint separated (l : list (list Z)) : list Z :=
  match l with
  | [] => []
  | [x] => x
  | x :: l => x ++ [Ch.COMMA; Ch.SP] ++ separated l
  end.

Lemma serialize_quoted s : forallb is_printable s = true -> serialize_wt_protocol s = Ok (quoted s).
Proof.
  intros H. unfold serialize_wt_protocol.
  replace (existsb (fun b => negb (is_printable b)) s) with false; [done|].
  symmetry. induction s as [|b s IH]; [done|]. cbn in *. apply andb_true_iff in H as [-> H]. by apply IH.
Qed.

Lemma parse_escaped s out rest :
  forallb is_printable s = true -> forallb is_printable out = true ->
  ListParser.parse_string_loop out (escape s ++ Ch.DQUOTE :: rest) = (Ok (out ++ s), rest).
Proof.
  revert out. induction s as [|b s IH]; intros out Hs Ho; cbn [escape app forallb] in *.
  - cbn [ListParser.parse_string_loop]. change (Ch.DQUOTE =? Ch.BACKSLASH) with false.
    rewrite Z.eqb_refl, printable_utf8 by done. by rewrite app_nil_r.
  - apply andb_true_iff in Hs as [Hb Hs].
    assert (forallb is_printable (out ++ [b]) = true) as Ho' by (rewrite forallb_app, Ho; cbn; by rewrite Hb).
    specialize (IH (out ++ [b]) Hs Ho'). rewrite <- app_assoc in IH.
    destruct (Z.eqb_spec b Ch.DQUOTE) as [->|Hd]; cbn [orb app]; cbn [ListParser.parse_string_loop].
    + exact IH.
    + destruct (Z.eqb_spec b Ch.BACKSLASH) as [->|Hn]; cbn [app ListParser.parse_string_loop].
      * exact IH.
      * destruct (Z.eqb_spec b Ch.BACKSLASH); [done|]. destruct (Z.eqb_spec b Ch.DQUOTE); [done|].
        by rewrite Hb.
Qed.

Lemma quoted_starts s : exists l, quoted s = Ch.DQUOTE :: l.
Proof. by eexists. Qed.

Lemma separated_starts ps : ps <> [] -> exists l, separated (map quoted ps) = Ch.DQUOTE :: l.
Proof. intros H. destruct ps as [|p [|q ps]]; [done|..]; by eexists. Qed.

Lemma list_parse_loop_quoted fuel ps acc :
  ps <> [] -> Forall (fun s => forallb is_printable s = true) ps ->
  (length (separated (map quoted ps)) < fuel)%nat ->
  fst (WtAvailableProtocols.parse_loop fuel acc (separated (map quoted ps)))
    = Ok (WtAvailableProtocols.mk (acc ++ ps)).
Proof.
  revert ps acc. induction fuel as [|fuel IH]; intros ps acc Hne Hps Hl; [lia|].
  destruct ps as [|p ps]; [done|]. apply Forall_cons in Hps as [Hp Hps].
  cbn [WtAvailableProtocols.parse_loop].
  assert (forall rest, ListParser.parse_string (quoted p ++ rest) = (Ok p, rest)) as Hq.
  { intros rest. unfold ListParser.parse_string, quoted, ListParser.peek. rewrite bind_gets. cbn [head app peek_is].
    rewrite Z.eqb_refl. unfold ListParser.advance. rewrite bind_modify. cbn [drop]. rewrite drop_0.
    rewrite <- app_assoc. cbn [app]. by rewrite parse_escaped. }
  destruct ps as [|q ps].
  - cbn [map separated]. rewrite <- (app_nil_r (quoted p)), (bind_Ok _ _ _ _ _ (Hq [])). done.
  - cbn [map] in *. change (separated (quoted p :: quoted q :: map quoted ps)) with
      (quoted p ++ [Ch.COMMA; Ch.SP] ++ separated (map quoted (q :: ps))) in *.
    rewrite (bind_Ok _ _ _ _ _ (Hq _)).
    destruct (separated_starts (q :: ps) ltac:(done)) as [l El]. rewrite El in *.
    transitivity (fst (WtAvailableProtocols.parse_loop fuel (acc ++ [p]) (Ch.DQUOTE :: l))); [reflexivity|].
    rewrite <- El, IH; [by rewrite <- app_assoc|done|done|].
    rewrite El. rewrite !length_app in Hl. cbn in *. lia.
Qed.

Lemma quoted_ascii s :
  forallb is_printable s = true -> existsb (fun b => b >=? 0x80) (quoted s) = false.
Proof.
  intros H. unfold quoted. rewrite !existsb_app. cbn. rewrite orb_false_r.
  induction s as [|b s IH]; [done|]. cbn [forallb escape] in *. apply andb_true_iff in H as [Hb H].
  rewrite !existsb_app, (IH H). unfold is_printable, in_range in Hb. zbool. cbn.
  rewrite !orb_false_r. replace (b >=? 128) with false by (symmetry; rewrite Z.geb_leb; lia).
  by case_match.
Qed.

Lemma separated_ascii ps :
  Forall (fun s => forallb is_printable s = true) ps ->
  existsb (fun b => b >=? 0x80) (separated (map quoted ps)) = false.
Proof.
  induction 1 as [|p ps Hp _ IH]; [done|]. destruct ps as [|q ps]; [by apply quoted_ascii|].
  change (separated (map quoted (p :: q :: ps))) with
    (quoted p ++ [Ch.COMMA; Ch.SP] ++ separated (map quoted (q :: ps))).
  rewrite !existsb_app, IH, quoted_ascii by done. done.
Qed.

(** Application protocols survive the header field.  Every protocol name of
    printable ASCII characters, quotes and backslashes included, is serialized;
    the serialized names, separated by commas, parse to the names in their
    order, and none is the parse of the empty field. *)
Theorem protocols_round_trip ps :
  Forall (fun s => forallb is_printable s = true) ps ->
  exists items,
    Forall2 (fun s item => serialize_wt_protocol s = Ok item) ps items /\
    WtAvailableProtocols.parse (separated items) = Ok (WtAvailableProtocols.mk ps).
Proof.
  intros Hps. exists (map quoted ps). split.
  - induction Hps; constructor; [by apply serialize_quoted|done].
  - unfold WtAvailableProtocols.parse. rewrite separated_ascii by done.
    destruct ps as [|p ps]; [done|].
    destruct (separated_starts (p :: ps) ltac:(done)) as [l El]. rewrite El.
    unfold ListParser.skip_ows. rewrite bind_modify.
    change (skip_while _ (Ch.DQUOTE :: l)) with (Ch.DQUOTE :: l).
    unfold ListParser.is_empty. rewrite bind_gets, len_cons.
    pose proof (len_nonneg l). destruct (Z.eqb_spec (1 + len l) 0); [lia|].
    unfold ListParser.fueled. rewrite bind_gets, <- El.
    apply (list_parse_loop_quoted _ (p :: ps) []); [done|done|lia].
Qed.

Lemma protocols_round_trip_witness :
  WtAvailableProtocols.parse (bstr "  x-one" ++ [Ch.SP]) =
    Err (WtError.invalid_input "WT-Available-Protocols: list member must be a String, got Token") /\
  exists items,
    Forall2 (fun s item => serialize_wt_protocol s = Ok item) [bstr "chat"; [0x22; 0x5c; 0x61]; []] items /\
    WtAvailableProtocols.parse (separated items) =
      Ok (WtAvailableProtocols.mk [bstr "chat"; [0x22; 0x5c; 0x61]; []]).
Proof.
  split; [vm_compute; reflexivity|].
  apply (protocols_round_trip [bstr "chat"; [0x22; 0x5c; 0x61]; []]).
  repeat constructor.
Defined.

(** ** Integer members of a dictionary *)

Definition is_key (key : list Z) : bool := peek_is is_key_start (head key) && forallb is_key_char key.
Definition is_integer (digits : list Z) : bool :=
  in_range 1 15 (len digits) && forallb is_ascii_digit digits.

Definition member (m : list Z * list Z) : list Z := m.1 ++ [Ch.EQUALS] ++ m.2.

(** The value of the last member with a key. *)
Definition last_value (key : list Z) (ms : list (list Z * list Z)) : option Z :=
  fold_left (fun v m => if bytes_eqb (fst m) key then Some (parse_digits (snd m)) else v) ms None.

(** What the members store, from a first value. *)
Definition assign (out : WtInit.t) (m : list Z * list Z) : WtInit.t :=
  let set key v := if bytes_eqb (fst m) (bstr key) then Some (parse_digits (snd m)) else v in
  WtInit.mk (set "u"%string (WtInit.u out)) (set "bl"%string (WtInit.bl out)) (set "br"%string (WtInit.br out)).

Lemma while_app p a b :
  forallb p a = true -> peek_is p (head b) = false -> take_while p (a ++ b) = a /\ skip_while p (a ++ b) = b.
Proof.
  intros Ha Hb. induction a as [|x a IH]; cbn [app take_while skip_while forallb] in *.
  - destruct b as [|y b]; [done|]. cbn in *. by rewrite Hb.
  - apply andb_true_iff in Ha as [-> Ha]. destruct (IH Ha) as [-> ->]. done.
Qed.

Section members.
Import DictionaryParser.

Lemma scan_app p a b :
  forallb p a = true -> peek_is p (head b) = false -> scan p (a ++ b) = (Ok a, b).
Proof. intros Ha Hb. unfold scan. destruct (while_app p a b Ha Hb) as [E1 E2]. rewrite bind_gets, bind_modify, E1, E2. done. Qed.

Lemma parse_key_app key rest :
  is_key key = true -> peek_is is_key_char (head rest) = false -> parse_key (key ++ rest) = (Ok key, rest).
Proof.
  intros [Hs Hk]%andb_true_iff Hr. unfold parse_key, peek. rewrite bind_gets.
  replace (head (key ++ rest)) with (head key) by (by destruct key). rewrite Hs. by apply scan_app.
Qed.

(** What may follow an integer. *)
Definition ends_number (rest : list Z) : bool :=
  match rest with [] => true | b :: _ => b =? Ch.COMMA end.

Lemma digits_no_minus digits : forallb is_ascii_digit digits = true -> peek_is (Z.eqb Ch.MINUS) (head digits) = false.
Proof.
  destruct digits as [|d l]; [done|]. cbn [forallb head peek_is]. intros [Hd _]%andb_true_iff.
  unfold is_ascii_digit, in_range in Hd. zbool. apply Z.eqb_neq. unfold Ch.MINUS. lia.
Qed.

Lemma digits_utf8 digits : forallb is_ascii_digit digits = true -> utf8_valid digits = true.
Proof.
  intros H. apply printable_utf8. induction digits as [|d l IH]; [done|]. cbn [forallb] in *.
  apply andb_true_iff in H as [Hd Hl]. rewrite IH by done. unfold is_ascii_digit, is_printable, in_range in *.
  zbool. rewrite andb_true_r. apply andb_true_iff. lia.
Qed.

Lemma parse_i64_digits digits : is_integer digits = true -> parse_i64 digits = Some (parse_digits digits).
Proof.
  intros [Hl Hd]%andb_true_iff. unfold in_range in Hl. zbool. unfold parse_i64.
  pose proof (digits_no_minus _ Hd) as Hm. pose proof (parse_digits_bound _ Hd).
  assert (10 ^ len digits <= 10 ^ 15) by (apply Z.pow_le_mono_r; lia).
  destruct digits as [|d l]; [rewrite len_nil in *; lia|]. cbn [head peek_is] in Hm.
  rewrite Z.eqb_sym in Hm. rewrite Hm, Hd.
  replace (0 <? len (d :: l)) with true by (symmetry; lia). cbn [andb].
  replace (_ && _) with true; [done|]. symmetry. apply andb_true_iff. split; [apply Z.leb_le|apply Z.ltb_lt]; lia.
Qed.

Lemma parse_number_app digits rest :
  is_integer digits = true -> ends_number rest = true ->
  parse_number (digits ++ rest) = (Ok (SfNumber.Integer (parse_digits digits)), rest).
Proof.
  intros Hi He. pose proof Hi as [Hl Hd]%andb_true_iff. unfold in_range in Hl. zbool.
  assert (peek_is (Z.eqb Ch.MINUS) (head (digits ++ rest)) = false) as Hm.
  { pose proof (digits_no_minus _ Hd). destruct digits; [rewrite len_nil in *; lia|done]. }
  assert (peek_is is_ascii_digit (head rest) = false) as Hr1.
  { destruct rest as [|b r]; [done|]. apply Z.eqb_eq in He as ->. done. }
  assert (peek_is (Z.eqb Ch.DOT) (head rest) = false) as Hr2.
  { destruct rest as [|b r]; [done|]. apply Z.eqb_eq in He as ->. done. }
  unfold parse_number, peek. rewrite !bind_gets, Hm, bind_ret.
  rewrite (bind_Ok _ _ _ _ _ (scan_app _ _ _ Hd Hr1)).
  destruct (Z.eqb_spec (len digits) 0); [lia|]. rewrite bind_gets, Hr2.
  destruct (Z.gtb_spec (len digits) 15); [lia|]. rewrite bind_gets.
  replace (length (digits ++ rest) - length rest)%nat with (length digits) by (rewrite length_app; lia).
  rewrite take_app_length, digits_utf8, parse_i64_digits by done. done.
Qed.

Lemma parse_value_app digits rest :
  is_integer digits = true -> ends_number rest = true ->
  parse_value (digits ++ rest) = (Ok (SfValue.Integer (parse_digits digits)), rest).
Proof.
  intros Hi He. pose proof Hi as [Hl Hd]%andb_true_iff. unfold in_range in Hl. zbool.
  destruct digits as [|d l] eqn:Ed; [rewrite len_nil in *; lia|]. rewrite <- Ed in *.
  assert (head (digits ++ rest) = Some d) as E by (by rewrite Ed).
  assert (is_ascii_digit d = true) as Hdd by (rewrite Ed in Hd; cbn in Hd; by apply andb_true_iff in Hd as [? _]).
  assert (peek_is is_number_start (Some d) = true) as F2 by (cbn; unfold is_number_start; by rewrite Hdd, orb_true_r).
  assert (peek_is (Z.eqb Ch.LPAREN) (Some d) = false) as F1.
  { unfold is_ascii_digit, in_range in Hdd. zbool. cbn [peek_is]. apply Z.eqb_neq. unfold Ch.LPAREN. lia. }
  unfold parse_value, parse_bare_item, peek. rewrite bind_gets, E, F1, bind_gets, E, F2.
  by rewrite (bind_Ok _ _ _ _ _ (parse_number_app _ _ Hi He)).
Qed.

Definition member_ok (m : list Z * list Z) : Prop := is_key m.1 = true /\ is_integer m.2 = true.

Lemma digits_bound digits : is_integer digits = true -> 0 <= parse_digits digits.
Proof. intros [_ Hd]%andb_true_iff. apply parse_digits_bound, Hd. Qed.

Lemma store_assign m out :
  member_ok m -> WtInit.store m.1 (SfValue.Integer (parse_digits m.2)) out = Ok (assign out m).
Proof.
  intros [_ Hi]. pose proof (digits_bound _ Hi). destruct m as [key digits]. cbn [fst snd] in *.
  unfold WtInit.store, WtInit.extract_nonneg_integer, assign. cbn [fst snd].
  replace (0 <=? parse_digits digits) with true by (symmetry; lia). cbn [rbind].
  destruct out as [u b r].
  destruct (bytes_eqb key (bstr "u")) eqn:E1; [by apply bytes_eqb_eq in E1 as ->|].
  destruct (bytes_eqb key (bstr "bl")) eqn:E2; [by apply bytes_eqb_eq in E2 as ->|].
  by destruct (bytes_eqb key (bstr "br")).
Qed.

(** One member, and what follows it. *)
Lemma parse_loop_member fuel m out rest :
  member_ok m -> ends_number rest = true ->
  WtInit.parse_loop (S fuel) out (member m ++ rest) =
    (skip_ows ;!
     let! empty := is_empty in
     if empty then ret (assign out m)
     else
       let! comma := consume_if_eq Ch.COMMA in
       if negb comma then invalid "WebTransport-Init: expected ',' between dictionary members"
       else
         skip_ows ;!
         let! empty := is_empty in
         if empty then invalid "WebTransport-Init: trailing comma not allowed"
         else WtInit.parse_loop fuel (assign out m)) rest.
Proof.
  intros Hm He. pose proof Hm as [Hk Hi]. cbn [WtInit.parse_loop].
  assert (exists b l, member m ++ rest = b :: l) as (b & l & El).
  { apply andb_true_iff in Hk as [Hs _]. destruct m as [[|b k] d]; [done|]. cbn. eauto. }
  unfold is_empty at 1. rewrite bind_gets, El, len_cons, <- El. pose proof (len_nonneg l).
  destruct (Z.eqb_spec (1 + len l) 0); [lia|].
  unfold member. rewrite <- !app_assoc.
  rewrite (bind_Ok _ _ _ _ _ (parse_key_app m.1 ([Ch.EQUALS] ++ m.2 ++ rest) Hk eq_refl)).
  unfold consume_if_eq at 1, peek, advance. rewrite bind_assoc, bind_gets. cbn [head app peek_is].
  rewrite Z.eqb_refl, bind_assoc, bind_modify, bind_ret. cbn [drop]. rewrite drop_0.
  rewrite (bind_Ok _ _ _ _ _ (parse_value_app m.2 rest Hi He)).
  assert (skip_parameters rest = (Ok tt, rest)) as Hp.
  { unfold skip_parameters, fueled. rewrite bind_gets. cbn [skip_parameters_loop]. unfold peek. rewrite bind_gets.
    destruct rest as [|c r]; [done|]. apply Z.eqb_eq in He as ->. done. }
  rewrite (bind_Ok _ _ _ _ _ Hp), store_assign by done. by rewrite bind_lift_Ok.
Qed.

Lemma parse_loop_members fuel ms out :
  ms <> [] -> Forall member_ok ms -> (length (separated (map member ms)) < fuel)%nat ->
  fst (WtInit.parse_loop fuel out (separated (map member ms))) = Ok (fold_left assign ms out).
Proof.
  revert ms out. induction fuel as [|fuel IH]; intros ms out Hne Hms Hl; [lia|].
  destruct ms as [|m ms]; [done|]. apply Forall_cons in Hms as [Hm Hms].
  destruct ms as [|m' ms].
  - cbn [map separated]. rewrite <- (app_nil_r (member m)), parse_loop_member by done. done.
  - change (separated (map member (m :: m' :: ms))) with
      (member m ++ [Ch.COMMA; Ch.SP] ++ separated (map member (m' :: ms))) in *.
    rewrite parse_loop_member by done.
    assert (exists b l, separated (map member (m' :: ms)) = b :: l /\ is_key_start b = true) as (b & l & El & Hb).
    { apply Forall_cons in Hms as [[Hk _] _]. apply andb_true_iff in Hk as [Hs _].
      destruct m' as [[|b k] d]; [done|]. exists b.
      destruct ms; cbn; eexists; (split; [reflexivity|done]). }
    rewrite El in *.
    assert (skip_while (fun b => (b =? Ch.SP) || (b =? Ch.HTAB)) (b :: l) = b :: l) as Hsk.
    { cbn [skip_while]. destruct (Z.eqb_spec b Ch.SP) as [->|]; [done|]. by destruct (Z.eqb_spec b Ch.HTAB) as [->|]. }
    transitivity (fst (WtInit.parse_loop fuel (assign out m) (b :: l))).
    + unfold skip_ows, is_empty, consume_if_eq, peek, advance.
      rewrite bind_modify. cbn [app skip_while Ch.COMMA Ch.SP Ch.HTAB Z.eqb Pos.eqb orb].
      rewrite bind_gets, len_cons. pose proof (len_nonneg (Ch.SP :: b :: l)).
      destruct (Z.eqb_spec (1 + len (Ch.SP :: b :: l)) 0); [lia|].
      rewrite bind_assoc, bind_gets. cbn [head peek_is]. rewrite Z.eqb_refl, bind_assoc, bind_modify, bind_ret.
      cbn [negb]. change (drop 1 (Ch.COMMA :: ?r)) with r. rewrite bind_modify.
      change (skip_while ?p (Ch.SP :: b :: l)) with (skip_while p (b :: l)). rewrite Hsk.
      rewrite bind_gets, len_cons. pose proof (len_nonneg l). by destruct (Z.eqb_spec (1 + len l) 0); [lia|].
    + rewrite <- El, IH; [done|done|done|]. rewrite El. rewrite !length_app in Hl. cbn in *. lia.
Qed.

Lemma key_char_ascii b : is_key_char b = true -> (b >=? 0x80) = false.
Proof.
  unfold is_key_char, is_ascii_lowercase, is_ascii_digit, in_range.
  unfold Ch.UNDERSCORE, Ch.MINUS, Ch.STAR, Ch.DOT. intros H. rewrite Z.geb_leb. lia.
Qed.

Lemma existsb_ascii p l :
  (forall b, p b = true -> (b >=? 0x80) = false) -> forallb p l = true -> existsb (fun b => b >=? 0x80) l = false.
Proof. intros Hp. induction l as [|b l IH]; [done|]. cbn. intros [Hb Hl]%andb_true_iff. by rewrite (Hp b Hb), (IH Hl). Qed.

Lemma members_ascii ms :
  Forall member_ok ms -> existsb (fun b => b >=? 0x80) (separated (map member ms)) = false.
Proof.
  assert (forall m, member_ok m -> existsb (fun b => b >=? 0x80) (member m) = false) as G.
  { intros m [[_ Hk]%andb_true_iff [_ Hd]%andb_true_iff]. unfold member. rewrite !existsb_app.
    rewrite (existsb_ascii is_key_char) by (done || apply key_char_ascii).
    rewrite (existsb_ascii is_ascii_digit m.2); [done| |done].
    intros b Hb. unfold is_ascii_digit, in_range in Hb. rewrite Z.geb_leb. lia. }
  induction 1 as [|m ms Hm _ IH]; [done|]. destruct ms as [|m' ms]; [by apply G|].
  change (separated (map member (m :: m' :: ms))) with
    (member m ++ [Ch.COMMA; Ch.SP] ++ separated (map member (m' :: ms))).
  rewrite !existsb_app, IH, G by done. done.
Qed.

Lemma fold_assign ms out :
  fold_left assign ms out =
    let last key v := fold_left (fun v m => if bytes_eqb (fst m) (bstr key) then Some (parse_digits (snd m)) else v) ms v in
    WtInit.mk (last "u"%string (WtInit.u out)) (last "bl"%string (WtInit.bl out)) (last "br"%string (WtInit.br out)).
Proof.
  revert out. induction ms as [|m ms IH]; intros out; [by destruct out|]. cbn [fold_left]. rewrite IH. done.
Qed.

End members.

(** The WebTransport-Init field is a dictionary in which the last member of
    a key counts.  Integer members with well-formed keys, known or not, and up
    to fifteen digits parse to the value of the last [u], of the last [bl] and
    of the last [br] among them; other keys are ignored. *)
Theorem init_last_member_wins ms :
  Forall member_ok ms ->
  WtInit.parse (separated (map member ms)) =
    Ok (WtInit.mk (last_value (bstr "u") ms) (last_value (bstr "bl") ms) (last_value (bstr "br") ms)).
Proof.
  intros Hms. unfold WtInit.parse. rewrite members_ascii by done.
  destruct ms as [|m ms]; [done|].
  assert (exists b l, separated (map member (m :: ms)) = b :: l /\ is_key_start b = true) as (b & l & El & Hb).
  { apply Forall_cons in Hms as [[Hk _] _]. apply andb_true_iff in Hk as [Hs _].
    destruct m as [[|b k] d]; [done|]. exists b. destruct ms; cbn; eexists; (split; [reflexivity|done]). }
  assert (DictionaryParser.skip_ows (b :: l) = (Ok tt, b :: l)) as Hsk.
  { unfold DictionaryParser.skip_ows, modify. cbn [skip_while].
    destruct (Z.eqb_spec b Ch.SP) as [->|]; [done|]. by destruct (Z.eqb_spec b Ch.HTAB) as [->|]. }
  rewrite El, (bind_Ok _ _ _ _ _ Hsk). unfold DictionaryParser.fueled. rewrite bind_gets, <- El.
  rewrite parse_loop_members by (done || lia). by rewrite fold_assign.
Qed.

Lemma init_last_member_wins_witness :
  WtInit.parse (bstr "u=(1 2), u=5") = Err (WtError.invalid_input "WebTransport-Init: key '{key}' must be an Integer") /\
  WtInit.parse (separated (map member [(bstr "u", bstr "5"); (bstr "zz", bstr "0"); (bstr "br", bstr "70"); (bstr "u", bstr "016")])) =
    Ok (WtInit.mk (Some 16) None (Some 70)).
Proof.
  split; [vm_compute; reflexivity|].
  apply (init_last_member_wins [(bstr "u", bstr "5"); (bstr "zz", bstr "0"); (bstr "br", bstr "70"); (bstr "u", bstr "016")]).
  repeat constructor.
Defined.

(** ** The exporter context *)

Lemma u64_to_be_inj x y : u64_ok x -> u64_ok y -> u64_to_be x = u64_to_be y -> x = y.
Proof.
  intros Hx Hy. unfold u64_to_be, u32_to_be. intros [= E1 E2 E3 E4 E5 E6 E7 E8].
  revert E1 E2 E3 E4 E5 E6 E7 E8. rewrite !Z.shiftr_shiftr by lia. byte_arith.
Qed.

Lemma ok_inj {E A} (a b : A) : @Ok E A a = Ok b -> a = b.
Proof. by intros [=]. Qed.

(** A string behind its length octet. *)
Lemma length_prefixed_inj a b c d :
  len a <= 255 -> len b <= 255 ->
  [as_u8 (len a)] ++ a ++ c = [as_u8 (len b)] ++ b ++ d -> a = b /\ c = d.
Proof.
  intros Ha Hb. cbn [app]. intros [= E1 E2].
  pose proof (len_nonneg a). pose proof (len_nonneg b).
  rewrite !as_u8_small in E1 by (unfold u8_ok; lia).
  apply app_inj_1 in E2; [done|]. unfold len in E1. lia.
Qed.

(** The exporter context determines its inputs: two successful
    serializations that give the same octets are of the same session, label and
    context; and exactly the labels and contexts of at most 255 octets are
    serialized. *)
Theorem exporter_context_injective id1 label1 context1 id2 label2 context2 :
  u64_ok id1 -> u64_ok id2 ->
  (is_ok (serialize_exporter_context id1 label1 context1) = true <->
     len label1 <= 255 /\ len context1 <= 255) /\
  (is_ok (serialize_exporter_context id1 label1 context1) = true ->
   serialize_exporter_context id1 label1 context1 = serialize_exporter_context id2 label2 context2 ->
   id1 = id2 /\ label1 = label2 /\ context1 = context2).
Proof.
  intros H1 H2. unfold serialize_exporter_context.
  destruct (Z.gtb_spec (len label1) 255); [split; [cbn; split; [done|lia]|done]|].
  destruct (Z.gtb_spec (len context1) 255); [split; [cbn; split; [done|lia]|done]|].
  split; [cbn; split; [lia|done]|]. intros _.
  destruct (Z.gtb_spec (len label2) 255); [done|]. destruct (Z.gtb_spec (len context2) 255); [done|].
  intros E%ok_inj. apply app_inj_1 in E as [E1 E]; [|done].
  apply length_prefixed_inj in E as [-> E]; [|done..].
  destruct (length_prefixed_inj context1 context2 [] [] ltac:(done) ltac:(done)) as [-> _];
    [by rewrite !app_nil_r|].
  split_and!; [by apply u64_to_be_inj|done|done].
Qed.

Lemma exporter_context_injective_witness :
  serialize_exporter_context 258 (bstr "ab") (bstr "c") = Ok [0; 0; 0; 0; 0; 0; 1; 2; 2; 97; 98; 1; 99] /\
  (is_ok (serialize_exporter_context 258 (bstr "ab") (bstr "c")) = true <->
     len (bstr "ab") <= 255 /\ len (bstr "c") <= 255) /\
  (is_ok (serialize_exporter_context 258 (bstr "ab") (bstr "c")) = true ->
   serialize_exporter_context 258 (bstr "ab") (bstr "c") = serialize_exporter_context 258 (bstr "a") (bstr "bc") ->
   258 = 258 /\ bstr "ab" = bstr "a" /\ bstr "c" = bstr "bc").
Proof.
  split; [vm_compute; reflexivity|].
  apply (exporter_context_injective 258 (bstr "ab") (bstr "c") 258 (bstr "a") (bstr "bc")); unfold u64_ok; lia.
Defined.
