(* ===== verification/WtSession.v ===== *)
(** * WtSession: a WebTransport session over an HTTP/2 CONNECT stream

    Models [src/src/webtransport.rs]: the configuration and the session with
    its streams, capsule codec and queues.  [streams] is a [gmap]; a stream
    that the code borrows mutably is read, changed and stored back.  The loop
    of [process] takes the buffered octets as fuel, since a capsule has at
    least two, and the loop that creates streams takes their number. *)

From S2P Require Import Prelude Syntax Config Bounded ConnBase.
From S2P Require Import WtVarint WtStream WtCapsule WtInit.

Module WtSessionState.
Inductive t : Type := Initial | Active | Draining | Closed.
Definition default : t := Initial.
#[global] Instance eq_dec : EqDecision t.
Proof. solve_decision. Defined.
End WtSessionState.

Module WtEvent.
Inductive t : Type :=
| StreamOpened (stream_id : Z) (bidirectional : bool)
| StreamData (stream_id : Z) (data : list Z) (fin : bool)
| StreamReset (stream_id error_code : Z)
| StopSending (stream_id error_code : Z)
| DatagramReceived (data : list Z)
| SessionDraining
| SessionClosed (error_code : Z) (reason : list Z).
End WtEvent.

Module WtConfig.

Record t : Type := mk {
  initial_max_data : Z;
  initial_max_stream_data_bidi_local : Z;
  initial_max_stream_data_bidi_remote : Z;
  initial_max_stream_data_uni : Z;
  initial_max_streams_bidi : Z;
  initial_max_streams_uni : Z
}.

#[global] Instance eta_wt_config : Eta t := fun s =>
  mk (initial_max_data s) (initial_max_stream_data_bidi_local s) (initial_max_stream_data_bidi_remote s)
    (initial_max_stream_data_uni s) (initial_max_streams_bidi s) (initial_max_streams_uni s).

Definition default : t := mk 1048576 262144 262144 262144 100 100.
Definition peer_default : t := mk 0 0 0 0 0 0.

(** [if let Some(v) = o { f(v) }]. *)
Definition if_some (o : option Z) (f : Z -> t -> t) (c : t) : t :=
  match o with Some v => f v c | None => c end.

Definition apply_init_as_peer (init : WtInit.t) (c : t) : t :=
  let c := if_some (WtInit.u init) (fun u c =>
    c <| initial_max_stream_data_uni := Z.max (initial_max_stream_data_uni c) u |>) c in
  let c := if_some (WtInit.bl init) (fun bl c =>
    c <| initial_max_stream_data_bidi_local := Z.max (initial_max_stream_data_bidi_local c) bl |>) c in
  if_some (WtInit.br init) (fun br c =>
    c <| initial_max_stream_data_bidi_remote := Z.max (initial_max_stream_data_bidi_remote c) br |>) c.

Definition overlay_settings (settings : Settings.t) (c : t) : t :=
  let c := if_some (Settings.wt_initial_max_data settings) (fun v c => c <| initial_max_data := v |>) c in
  let c := if_some (Settings.wt_initial_max_stream_data_uni settings)
    (fun v c => c <| initial_max_stream_data_uni := v |>) c in
  let c := if_some (Settings.wt_initial_max_stream_data_bidi_local settings)
    (fun v c => c <| initial_max_stream_data_bidi_local := v |>) c in
  let c := if_some (Settings.wt_initial_max_stream_data_bidi_remote settings)
    (fun v c => c <| initial_max_stream_data_bidi_remote := v |>) c in
  let c := if_some (Settings.wt_initial_max_streams_bidi settings)
    (fun v c => c <| initial_max_streams_bidi := v |>) c in
  if_some (Settings.wt_initial_max_streams_uni settings)
    (fun v c => c <| initial_max_streams_uni := v |>) c.

Definition apply_advertised_settings (settings : Settings.t) (c : t) : t :=
  let c := peer_default in
  overlay_settings settings c.

End WtConfig.

Definition STREAM_ID_RECORD_MAX_SIZE : Z := 10000.

Module WtSession.

Record t : Type := mk {
  role : Role.t;
  config : WtConfig.t;
  peer_config : WtConfig.t;
  state : WtSessionState.t;
  streams : gmap Z WtStream.t;
  closed_stream_send_max : BoundedMap.t Z;
  stop_sending_received_ids : BoundedSet.t;
  flow_control : WtFlowControl.t;
  capsule_decoder : CapsuleDecoder.t;
  capsule_encoder : CapsuleEncoder.t;
  output_buffer : list Z;
  events : list WtEvent.t;
  next_bidi_stream_id : Z;
  next_uni_stream_id : Z
}.

#[global] Instance eta_wt_session : Eta t := fun s =>
  mk (role s) (config s) (peer_config s) (state s) (streams s) (closed_stream_send_max s)
    (stop_sending_received_ids s) (flow_control s) (capsule_decoder s) (capsule_encoder s)
    (output_buffer s) (events s) (next_bidi_stream_id s) (next_uni_stream_id s).

Notation M := (ST t WtError.t).

Definition new (role : Role.t) (config peer_config : WtConfig.t) : t :=
  let is_client := bool_decide (role = Role.Client) in
  let flow_control :=
    WtFlowControl.new
      (WtConfig.initial_max_data peer_config)
      (WtConfig.initial_max_data config)
      (WtConfig.initial_max_streams_bidi config)
      (WtConfig.initial_max_streams_bidi peer_config)
      (WtConfig.initial_max_streams_uni config)
      (WtConfig.initial_max_streams_uni peer_config) in
  mk role config peer_config WtSessionState.Initial ∅
    (BoundedMap.new STREAM_ID_RECORD_MAX_SIZE) (BoundedSet.new STREAM_ID_RECORD_MAX_SIZE)
    flow_control CapsuleDecoder.new CapsuleEncoder.new [] []
    (StreamId.first is_client true) (StreamId.first is_client false).

Definition client (config peer_config : WtConfig.t) : t := new Role.Client config peer_config.
Definition server (config peer_config : WtConfig.t) : t := new Role.Server config peer_config.

Definition is_peer_initiated (stream_id : Z) (s : t) : bool :=
  match role s with
  | Role.Client => StreamId.is_server_initiated stream_id
  | Role.Server => StreamId.is_client_initiated stream_id
  end.

Definition is_receive_only_id (stream_id : Z) (s : t) : bool :=
  is_peer_initiated stream_id s && StreamId.is_unidirectional stream_id.

Definition is_uncreated_local_id (stream_id : Z) (s : t) : bool :=
  if is_peer_initiated stream_id s then false
  else if StreamId.is_bidirectional stream_id then stream_id >=? next_bidi_stream_id s
  else stream_id >=? next_uni_stream_id s.

Definition is_active (s : t) : bool := bool_decide (state s = WtSessionState.Active).
Definition is_closed (s : t) : bool := bool_decide (state s = WtSessionState.Closed).
Definition has_output (s : t) : bool := negb (len (output_buffer s) =? 0).

(** [matches!(self.state, Active | Draining)]. *)
Definition is_open (s : t) : bool :=
  match state s with WtSessionState.Active | WtSessionState.Draining => true | _ => false end.

(** [self.streams.get_mut(&stream_id).ok_or_else(..)?]. *)
Definition stream_mut (stream_id : Z) (e : WtError.t) : M WtStream.t :=
  let! o := gets (fun s => streams s !! stream_id) in
  lift (ok_or o e).

(** A method of the stream that is borrowed: the changed stream is stored. *)
Definition on_stream {A} (stream_id : Z) (stream : WtStream.t) (m : ST WtStream.t WtError.t A) : M A :=
  fun s => let '(r, stream') := m stream in (r, s <| streams := <[stream_id := stream']> (streams s) |>).

Definition on_flow_control {A} (m : ST WtFlowControl.t WtError.t A) : M A :=
  zoom flow_control (fun f s => s <| flow_control := f |>) m.
Definition on_encoder {A} (m : ST CapsuleEncoder.t WtError.t A) : M A :=
  zoom capsule_encoder (fun e s => s <| capsule_encoder := e |>) m.
Definition on_decoder {A} (m : ST CapsuleDecoder.t WtError.t A) : M A :=
  zoom capsule_decoder (fun d s => s <| capsule_decoder := d |>) m.

(** [self.capsule_encoder.encode(&capsule);
    self.output_buffer.extend(self.capsule_encoder.take())]. *)
Definition emit (capsule : Capsule.t) : M unit :=
  on_encoder (CapsuleEncoder.encode capsule) ;!
  let! octets := on_encoder CapsuleEncoder.take in
  modify (fun s => s <| output_buffer := output_buffer s ++ octets |>).

Definition push_event (event : WtEvent.t) : M unit :=
  modify (fun s => s <| events := events s ++ [event] |>).

Definition set_state (st : WtSessionState.t) : M unit := modify (fun s => s <| state := st |>).

Definition remove_if_closed (stream_id : Z) : M unit :=
  let! o := gets (fun s => streams s !! stream_id) in
  match o with
  | None => ret tt
  | Some stream =>
      if negb (WtStream.is_closed stream) then ret tt
      else
        let send_max := WtStream.send_max stream in
        modify (fun s => s <| streams := delete stream_id (streams s) |>) ;!
        modify (fun s => s <| closed_stream_send_max :=
          BoundedMap.insert stream_id send_max (closed_stream_send_max s) |>)
  end.

(** ** Lifecycle and octets *)

Definition initiate : M unit :=
  let! st := gets state in
  if negb (bool_decide (st = WtSessionState.Initial))
  then throw (WtError.session_state_error "session already initiated")
  else set_state WtSessionState.Active.

Definition feed (data : list Z) : M Z :=
  on_decoder (CapsuleDecoder.feed data) ;!
  ret (len data).

Definition poll_output : M (option (list Z)) :=
  let! out := gets output_buffer in
  if len out =? 0 then ret None
  else
    modify (fun s => s <| output_buffer := [] |>) ;!
    ret (Some out).

Definition poll_event : M (option WtEvent.t) :=
  let! evs := gets events in
  match evs with
  | [] => ret None
  | event :: rest =>
      modify (fun s => s <| events := rest |>) ;!
      match event with
      | WtEvent.StreamData stream_id _ true =>
          let! o := gets (fun s => streams s !! stream_id) in
          match o with
          | Some stream =>
              modify (fun s => s <| streams := <[stream_id := WtStream.mark_data_read stream]> (streams s) |>)
          | None => ret tt
          end ;!
          remove_if_closed stream_id
      | _ => ret tt
      end ;!
      ret (Some event)
  end.

(** ** Sending *)

Definition open_stream (bidirectional : bool) : M Z :=
  let! ok := gets is_open in
  if negb ok
  then throw (WtError.session_state_error "cannot open stream: session not active or draining")
  else
    let! fc := gets flow_control in
    if bidirectional && negb (WtFlowControl.can_open_bidi_stream fc)
    then throw (WtError.flow_control_error "bidi stream limit reached")
    else if negb bidirectional && negb (WtFlowControl.can_open_uni_stream fc)
    then throw (WtError.flow_control_error "uni stream limit reached")
    else
      let! stream_id :=
        (if bidirectional then
           let! id := gets next_bidi_stream_id in
           let! next := lift (StreamId.next id) in
           modify (fun s => s <| next_bidi_stream_id := next |>) ;!
           ret id
         else
           let! id := gets next_uni_stream_id in
           let! next := lift (StreamId.next id) in
           modify (fun s => s <| next_uni_stream_id := next |>) ;!
           ret id) in
      let! limits := gets (fun s =>
        if bidirectional
        then (WtConfig.initial_max_stream_data_bidi_remote (peer_config s),
              WtConfig.initial_max_stream_data_bidi_local (config s))
        else (WtConfig.initial_max_stream_data_uni (peer_config s),
              WtConfig.initial_max_stream_data_uni (config s))) in
      let '(send_max, recv_max) := limits in
      let stream := WtStream.new stream_id send_max recv_max bidirectional true in
      modify (fun s => s <| streams := <[stream_id := stream]> (streams s) |>) ;!
      on_flow_control (WtFlowControl.opened_stream bidirectional) ;!
      ret stream_id.

Definition open_bidi_stream : M Z := open_stream true.
Definition open_uni_stream : M Z := open_stream false.

Definition not_found : WtError.t := WtError.invalid_stream_id "stream not found".

Definition send_stream_data (stream_id : Z) (data : list Z) (fin : bool) : M unit :=
  let! ok := gets is_open in
  if negb ok
  then throw (WtError.session_state_error "cannot send data: session not active or draining")
  else
    let! stream := stream_mut stream_id not_found in
    if negb (WtStream.can_send stream)
    then throw (WtError.stream_state_error "cannot send on this stream")
    else if negb (WtStream.has_send_part stream)
    then throw (WtError.stream_state_error "cannot send on a receive-only stream")
    else
      let size := len data in
      let! available := gets (fun s => WtFlowControl.send_available (flow_control s)) in
      if size >? available
      then throw (WtError.flow_control_error "send window exhausted")
      else
        on_stream stream_id stream (WtStream.send_data size fin) ;!
        on_flow_control (WtFlowControl.consume_send size) ;!
        emit (Capsule.WtStream stream_id data fin) ;!
        if fin then remove_if_closed stream_id else ret tt.

Definition reset_stream (stream_id error_code : Z) : M unit :=
  if error_code >? MAX_APPLICATION_ERROR_CODE
  then throw (WtError.flow_control_error
    "WT_RESET_STREAM error code {error_code:#x} exceeds maximum {MAX_APPLICATION_ERROR_CODE:#x}")
  else
    let! stream := stream_mut stream_id not_found in
    if negb (WtStream.can_send stream)
    then throw (WtError.stream_state_error
      "cannot send WT_RESET_STREAM: stream not in valid send state")
    else if negb (WtStream.has_send_part stream)
    then throw (WtError.stream_state_error "cannot send WT_RESET_STREAM on a receive-only stream")
    else
      let reliable_size := WtStream.send_offset stream in
      emit (Capsule.WtResetStream stream_id error_code reliable_size) ;!
      on_stream stream_id stream (modify WtStream.send_reset) ;!
      remove_if_closed stream_id.

Definition stop_sending (stream_id error_code : Z) : M unit :=
  if error_code >? MAX_APPLICATION_ERROR_CODE
  then throw (WtError.flow_control_error
    "WT_STOP_SENDING error code {error_code:#x} exceeds maximum {MAX_APPLICATION_ERROR_CODE:#x}")
  else
    let! stream := stream_mut stream_id not_found in
    if negb (WtStream.has_recv_part stream)
    then throw (WtError.stream_state_error "cannot send WT_STOP_SENDING on a send-only stream")
    else if WtStream.stop_sending_sent stream
    then throw (WtError.stream_state_error "cannot send WT_STOP_SENDING: already sent")
    else if bool_decide (WtStream.recv_state stream = RecvState.ResetRead)
    then throw (WtError.stream_state_error "cannot send WT_STOP_SENDING on a reset stream")
    else
      emit (Capsule.WtStopSending stream_id error_code) ;!
      on_stream stream_id stream (modify WtStream.set_stop_sending_sent).

Definition send_datagram (data : list Z) : M unit :=
  let! ok := gets is_open in
  if negb ok
  then throw (WtError.session_state_error "cannot send datagram: session not active or draining")
  else emit (Capsule.Datagram data).

(** [bytes[end] & 0b1100_0000 == 0b1000_0000]: a continuation octet of UTF-8. *)
Definition is_continuation (b : Z) : bool := Z.land b 0xC0 =? 0x80.

(** [while end > 0 && is_continuation(bytes[end]) { end -= 1 }]. *)
Fixpoint truncate_end (bytes : list Z) (end_ : nat) : WtResult nat :=
  match end_ with
  | O => Ok O
  | S e =>
      let? b := index bytes (Z.of_nat end_) in
      if is_continuation b then truncate_end bytes e else Ok end_
  end.

(** [&reason[..end]], which panics when [end] is inside a character. *)
Definition str_prefix (s : list Z) (end_ : nat) : WtResult (list Z) :=
  match end_, s !! end_ with
  | O, _ => Ok []
  | _, Some b => if is_continuation b then Panic else Ok (take end_ s)
  | _, None => if Nat.eqb end_ (length s) then Ok s else Panic
  end.

Definition close (error_code : Z) (reason : list Z) : M unit :=
  let! st := gets state in
  if bool_decide (st = WtSessionState.Closed)
  then throw (WtError.session_state_error "session already closed")
  else
    let! reason := lift (
      if len reason >? MAX_CLOSE_REASON_LEN then
        let? end_ := truncate_end reason (Z.to_nat MAX_CLOSE_REASON_LEN) in
        str_prefix reason end_
      else Ok reason) in
    emit (Capsule.WtCloseSession error_code reason) ;!
    set_state WtSessionState.Closed.

Definition send_max_data (maximum : Z) : M unit :=
  on_flow_control (WtFlowControl.update_recv_max maximum) ;!
  emit (Capsule.WtMaxData maximum).

Definition check_max_stream_data_recv_state (stream : WtStream.t) : WtResult unit :=
  if negb (bool_decide (WtStream.recv_state stream = RecvState.Recv))
  then Err (WtError.stream_state_error
    "cannot send WT_MAX_STREAM_DATA: stream is not in the Recv state")
  else Ok tt.

Definition send_max_stream_data (stream_id maximum : Z) : M unit :=
  if maximum >? Varint.MAX_VALUE
  then throw (WtError.flow_control_error
    "WT_MAX_STREAM_DATA value {maximum} exceeds varint maximum {MAX_VALUE}")
  else
    let! stream := stream_mut stream_id not_found in
    if negb (WtStream.has_recv_part stream)
    then throw (WtError.stream_state_error "cannot send WT_MAX_STREAM_DATA on a send-only stream")
    else if WtStream.stop_sending_sent stream
    then throw (WtError.stream_state_error
      "cannot send WT_MAX_STREAM_DATA: WT_STOP_SENDING already sent")
    else
      lift (check_max_stream_data_recv_state stream) ;!
      let advertised := WtStream.recv_max stream in
      if maximum <=? advertised
      then throw (WtError.flow_control_error
        "WT_MAX_STREAM_DATA value {maximum} does not increase the advertised maximum {advertised}")
      else
        on_stream stream_id stream (WtStream.update_recv_max maximum) ;!
        emit (Capsule.WtMaxStreamData stream_id maximum).

Definition send_max_streams (maximum : Z) (bidirectional : bool) : M unit :=
  let! ok := gets is_open in
  if negb ok
  then throw (WtError.session_state_error "cannot send WT_MAX_STREAMS: session is not active")
  else
    on_flow_control (WtFlowControl.update_max_streams_local maximum bidirectional) ;!
    emit (Capsule.WtMaxStreams maximum bidirectional).

Definition grow_recv_window (increment : Z) : M unit :=
  let! current := gets (fun s => WtFlowControl.recv_max (flow_control s)) in
  let! new_max := lift (ok_or (checked_add current increment)
    (WtError.flow_control_error "WT_MAX_DATA increment {increment} from {current} overflows u64")) in
  send_max_data new_max.

Definition grow_stream_recv_window (stream_id increment : Z) : M unit :=
  let! stream := stream_mut stream_id not_found in
  let current := WtStream.recv_max stream in
  let! new_max := lift (ok_or (checked_add current increment)
    (WtError.flow_control_error
      "WT_MAX_STREAM_DATA increment {increment} from {current} overflows u64")) in
  send_max_stream_data stream_id new_max.

Definition grow_max_streams (increment : Z) (bidirectional : bool) : M unit :=
  let! current := gets (fun s =>
    if bidirectional then WtFlowControl.max_streams_bidi_local (flow_control s)
    else WtFlowControl.max_streams_uni_local (flow_control s)) in
  let! new_max := lift (ok_or (checked_add current increment)
    (WtError.flow_control_error "WT_MAX_STREAMS increment {increment} from {current} overflows u64")) in
  send_max_streams new_max bidirectional.

Definition drain : M unit :=
  let! st := gets state in
  if negb (bool_decide (st = WtSessionState.Active))
  then throw (WtError.session_state_error "cannot drain: session not active")
  else
    emit Capsule.WtDrainSession ;!
    set_state WtSessionState.Draining.

(** ** Receiving *)

Definition initial_send_max_for_peer_stream (bidirectional : bool) (s : t) : Z :=
  if bidirectional then WtConfig.initial_max_stream_data_bidi_local (peer_config s)
  else WtConfig.initial_max_stream_data_uni (peer_config s).

Definition has_stream (stream_id : Z) (s : t) : bool := bool_decide (is_Some (streams s !! stream_id)).
Definition has_closed (stream_id : Z) (s : t) : bool :=
  BoundedMap.contains stream_id (closed_stream_send_max s).

Definition will_create_implicit_peer_bidi_stream (stream_id : Z) (s : t) : bool :=
  is_peer_initiated stream_id s && StreamId.is_bidirectional stream_id
  && negb (has_stream stream_id s) && negb (has_closed stream_id s).

Definition create_peer_stream (stream_id : Z) (bidirectional : bool) : M unit :=
  let! send_max := gets (initial_send_max_for_peer_stream bidirectional) in
  let! recv_max := gets (fun s =>
    if bidirectional then WtConfig.initial_max_stream_data_bidi_remote (config s)
    else WtConfig.initial_max_stream_data_uni (config s)) in
  let stream := WtStream.new stream_id send_max recv_max bidirectional false in
  modify (fun s => s <| streams := <[stream_id := stream]> (streams s) |>) ;!
  push_event (WtEvent.StreamOpened stream_id bidirectional).

(** [while id <= stream_id { ..; id = next(id) }]. *)
Fixpoint create_loop (fuel : nat) (id stream_id : Z) (bidirectional : bool) : M unit :=
  match fuel with
  | O => panic
  | S fuel =>
      if id <=? stream_id then
        let! known := gets (fun s => has_stream id s || has_closed id s) in
        (if negb known then create_peer_stream id bidirectional else ret tt) ;!
        let! id := lift (StreamId.next id) in
        create_loop fuel id stream_id bidirectional
      else ret tt
  end.

(** The identifiers of a type up to one, and one turn to end the loop. *)
Definition create_fuel (stream_id : Z) : nat := Z.to_nat (stream_id / 4 + 2).

Definition create_peer_streams_up_to (stream_id : Z) (bidirectional : bool) : M unit :=
  let! peer := gets (is_peer_initiated stream_id) in
  (* debug_assert! *)
  if negb peer then panic
  else
    let! accept := gets (fun s => WtFlowControl.can_accept_stream stream_id (flow_control s)) in
    if negb accept
    then throw (WtError.flow_control_error "peer exceeded stream limit")
    else
      let first := Z.land stream_id 0x03 in
      create_loop (create_fuel stream_id) first stream_id bidirectional.

Definition create_implicit_peer_bidi_stream (stream_id : Z) : M unit :=
  let! create := gets (will_create_implicit_peer_bidi_stream stream_id) in
  if negb create then ret tt
  else create_peer_streams_up_to stream_id true.

Definition stop_sending_received (stream_id : Z) (s : t) : bool :=
  BoundedSet.contains stream_id (stop_sending_received_ids s)
  || match streams s !! stream_id with
     | Some stream => WtStream.stop_sending_received stream
     | None => false
     end.

Definition handle_stream_data (stream_id : Z) (data : list Z) (fin : bool) : M unit :=
  let! closed := gets (has_closed stream_id) in
  if closed
  then throw (WtError.stream_state_error "WT_STREAM received for closed stream {stream_id}")
  else
    let! is_new_stream := gets (fun s => negb (has_stream stream_id s)) in
    let! is_peer_initiated := gets (is_peer_initiated stream_id) in
    let bidirectional := StreamId.is_bidirectional stream_id in
    let! empty_again := gets (fun s =>
      (len data =? 0) && negb is_new_stream && negb fin
      && match streams s !! stream_id with
         | Some stream => WtStream.has_received_data stream
         | None => false
         end) in
    if empty_again
    then throw (WtError.stream_state_error "empty WT_STREAM capsule without FIN on existing stream")
    else
      (if is_new_stream then
         if negb is_peer_initiated
         then throw (WtError.stream_state_error "received stream with locally-initiated stream ID")
         else create_peer_streams_up_to stream_id bidirectional
       else if negb bidirectional && negb is_peer_initiated
       then throw (WtError.stream_state_error
         "WT_STREAM received for locally-initiated unidirectional stream")
       else ret tt) ;!
      let! o := gets (fun s => streams s !! stream_id) in
      match o with
      | None => panic
      | Some stream =>
          on_stream stream_id stream (
            WtStream.recv_data (len data) fin ;!
            if negb (len data =? 0) then modify WtStream.set_has_received_data else ret tt) ;!
          on_flow_control (WtFlowControl.consume_recv (len data)) ;!
          push_event (WtEvent.StreamData stream_id data fin)
      end.

Definition handle_reset_stream (stream_id error_code reliable_size : Z) : M unit :=
  let! stream := stream_mut stream_id
    (WtError.stream_state_error "WT_RESET_STREAM received for unknown stream {stream_id}") in
  if negb (WtStream.can_recv stream && WtStream.has_recv_part stream)
  then throw (WtError.stream_state_error "WT_RESET_STREAM received for stream not in valid state")
  else if negb (reliable_size =? WtStream.recv_offset stream)
  then throw (WtError.stream_state_error
    "WT_RESET_STREAM reliable_size {} does not match recv_offset {}")
  else
    on_stream stream_id stream (modify WtStream.recv_reset) ;!
    push_event (WtEvent.StreamReset stream_id error_code) ;!
    remove_if_closed stream_id.

Definition handle_stop_sending (stream_id error_code : Z) : M unit :=
  let! receive_only := gets (is_receive_only_id stream_id) in
  if receive_only
  then throw (WtError.stream_state_error "WT_STOP_SENDING received for receive-only stream")
  else
    let! uncreated := gets (is_uncreated_local_id stream_id) in
    if uncreated
    then throw (WtError.stream_state_error
      "WT_STOP_SENDING received for locally-initiated stream that has not been created")
    else
      let! again := gets (stop_sending_received stream_id) in
      if again
      then throw (WtError.stream_state_error "duplicate WT_STOP_SENDING received")
      else
        create_implicit_peer_bidi_stream stream_id ;!
        let! o := gets (fun s => streams s !! stream_id) in
        let should_reset := match o with Some stream => WtStream.can_send stream | None => false end in
        match o with
        | Some stream => on_stream stream_id stream (modify WtStream.set_stop_sending_received)
        | None => ret tt
        end ;!
        modify (fun s => s <| stop_sending_received_ids :=
          BoundedSet.insert stream_id (stop_sending_received_ids s) |>) ;!
        (if should_reset then attempt (reset_stream stream_id error_code) ;! ret tt else ret tt) ;!
        push_event (WtEvent.StopSending stream_id error_code).

Definition handle_max_stream_data (stream_id maximum : Z) : M unit :=
  let! receive_only := gets (is_receive_only_id stream_id) in
  if receive_only
  then throw (WtError.stream_state_error "WT_MAX_STREAM_DATA received for receive-only stream")
  else
    let! uncreated := gets (is_uncreated_local_id stream_id) in
    if uncreated
    then throw (WtError.stream_state_error
      "WT_MAX_STREAM_DATA received for locally-initiated stream that has not been created")
    else
      let! stopped := gets (stop_sending_received stream_id) in
      if stopped
      then throw (WtError.stream_state_error "WT_MAX_STREAM_DATA received after WT_STOP_SENDING")
      else
        let! too_small := gets (fun s =>
          will_create_implicit_peer_bidi_stream stream_id s
          && (maximum <=? initial_send_max_for_peer_stream true s)) in
        if too_small
        then throw (WtError.flow_control_error
          "WT_MAX_STREAM_DATA value {maximum} does not increase the initial maximum {initial_send_max}")
        else
          let! known := gets (has_stream stream_id) in
          let! last := gets (fun s => BoundedMap.get stream_id (closed_stream_send_max s)) in
          match known, last with
          | false, Some last =>
              if maximum <=? last
              then throw (WtError.flow_control_error
                "WT_MAX_STREAM_DATA value {maximum} does not increase the last received maximum {last}")
              else
                modify (fun s => s <| closed_stream_send_max :=
                  BoundedMap.insert stream_id maximum (closed_stream_send_max s) |>)
          | _, _ =>
              create_implicit_peer_bidi_stream stream_id ;!
              let! o := gets (fun s => streams s !! stream_id) in
              match o with
              | Some stream => on_stream stream_id stream (WtStream.update_send_max maximum)
              | None => ret tt
              end
          end.

Definition handle_stream_data_blocked (stream_id : Z) : M unit :=
  let! stream := stream_mut stream_id
    (WtError.stream_state_error "WT_STREAM_DATA_BLOCKED received for unknown stream") in
  if negb (WtStream.can_recv stream && WtStream.has_recv_part stream)
  then throw (WtError.stream_state_error
    "WT_STREAM_DATA_BLOCKED received for stream not in valid state")
  else ret tt.

Definition handle_capsule (capsule : Capsule.t) : M unit :=
  let! st := gets state in
  if bool_decide (st = WtSessionState.Closed) then ret tt
  else
    match capsule with
    | Capsule.Datagram data => push_event (WtEvent.DatagramReceived data)
    | Capsule.WtStream stream_id data fin => handle_stream_data stream_id data fin
    | Capsule.WtResetStream stream_id error_code reliable_size =>
        handle_reset_stream stream_id error_code reliable_size
    | Capsule.WtStopSending stream_id error_code => handle_stop_sending stream_id error_code
    | Capsule.WtMaxData maximum => on_flow_control (WtFlowControl.update_send_max maximum)
    | Capsule.WtMaxStreamData stream_id maximum => handle_max_stream_data stream_id maximum
    | Capsule.WtMaxStreams maximum bidirectional =>
        on_flow_control (WtFlowControl.update_max_streams maximum bidirectional)
    | Capsule.WtDataBlocked _ => ret tt
    | Capsule.WtStreamDataBlocked stream_id _ => handle_stream_data_blocked stream_id
    | Capsule.WtStreamsBlocked maximum _ =>
        if maximum >? 2 ^ 60
        then throw (WtError.flow_control_error "WT_STREAMS_BLOCKED maximum {} exceeds 2^60 limit")
        else ret tt
    | Capsule.WtCloseSession error_code reason =>
        set_state WtSessionState.Closed ;!
        push_event (WtEvent.SessionClosed error_code reason)
    | Capsule.WtDrainSession =>
        if bool_decide (st = WtSessionState.Active)
        then
          set_state WtSessionState.Draining ;!
          push_event WtEvent.SessionDraining
        else ret tt
    | Capsule.Padding _ => ret tt
    | Capsule.Unknown _ _ => ret tt
    end.

Fixpoint process_loop (fuel : nat) : M unit :=
  match fuel with
  | O => panic
  | S fuel =>
      let! capsule := on_decoder CapsuleDecoder.decode in
      match capsule with
      | Some capsule =>
          handle_capsule capsule ;!
          process_loop fuel
      | None => ret tt
      end
  end.

Definition process : M unit :=
  let! fuel := gets (fun s => S (length (CapsuleDecoder.buffer (capsule_decoder s)))) in
  process_loop fuel.

End WtSession.
