(* ===== verification/WtInv.v ===== *)
(** * WtInv: the invariant of a WebTransport session

    What holds of every state a session can reach ([wf]), how a method changes
    it ([evolves]: whole capsules are written, events are appended, and both
    are counted by the flow control), and the proof that every sending method
    keeps the invariant and does not panic. *)

From S2P Require Import Prelude Syntax Config Bounded ConnBase.
From S2P Require Import WtVarint WtStream WtCapsule WtCodec WtInit WtSession.
Import WtSession.

Module WtInvariant.

(** Limits that the wire can carry. *)
Record config_ok (c : WtConfig.t) : Prop := {
  cfg_data : Varint.ok (WtConfig.initial_max_data c);
  cfg_bidi_local : Varint.ok (WtConfig.initial_max_stream_data_bidi_local c);
  cfg_bidi_remote : Varint.ok (WtConfig.initial_max_stream_data_bidi_remote c);
  cfg_uni : Varint.ok (WtConfig.initial_max_stream_data_uni c);
  cfg_streams_bidi : 0 <= WtConfig.initial_max_streams_bidi c <= MAX_STREAMS_LIMIT;
  cfg_streams_uni : 0 <= WtConfig.initial_max_streams_uni c <= MAX_STREAMS_LIMIT
}.

(** A stream of the map: its record agrees with its identifier, its offsets
    with its limits, and the identifier is one that was allocated or that the
    peer may use. *)
Record stream_ok (s : t) (id : Z) (st : WtStream.t) : Prop := {
  so_id : WtStream.id st = id;
  so_range : Varint.ok id;
  so_wf : WtStream.wf st;
  so_direction : WtStream.bidirectional st = StreamId.is_bidirectional id;
  so_local : WtStream.locally_initiated st = negb (is_peer_initiated id s);
  so_created : is_uncreated_local_id id s = false;
  so_accepted : is_peer_initiated id s = true -> WtFlowControl.can_accept_stream id (flow_control s) = true;
  so_fresh : has_closed id s = false
}.

(** [wf_but x s]: all but the stream [x] are open; a method may leave a stream
    closed until it calls [remove_if_closed].  An identifier of a stream, closed
    or not, that this side initiates is below the next one to allocate. *)
Record wf_but (x : option Z) (s : t) : Prop := {
  wf_config : config_ok (config s);
  wf_peer : config_ok (peer_config s);
  wf_flow : WtFlowControl.wf (flow_control s);
  wf_streams : forall id st, streams s !! id = Some st -> stream_ok s id st;
  wf_closed : forall id, has_closed id s = true -> is_uncreated_local_id id s = false;
  wf_open : forall id st, streams s !! id = Some st -> x <> Some id -> WtStream.is_closed st = false;
  wf_next_bidi : next_bidi_stream_id s =
    StreamId.first (bool_decide (role s = Role.Client)) true + 4 * WtFlowControl.opened_streams_bidi (flow_control s);
  wf_next_uni : next_uni_stream_id s =
    StreamId.first (bool_decide (role s = Role.Client)) false + 4 * WtFlowControl.opened_streams_uni (flow_control s);
  wf_encoder : capsule_encoder s = CapsuleEncoder.new;
  wf_decoder : decoder_wf (capsule_decoder s)
}.
Notation wf := (wf_but None).

(** The stream octets that capsules carry and that events deliver. *)
Definition sent (caps : list Capsule.t) : Z :=
  foldr (fun c n => match c with Capsule.WtStream _ data _ => len data + n | _ => n end) 0 caps.
Definition received (evs : list WtEvent.t) : Z :=
  foldr (fun e n => match e with WtEvent.StreamData _ data _ => len data + n | _ => n end) 0 evs.

(** How a method other than [feed] and the polls changes a session. *)
Record evolves (s s' : t) : Prop := {
  ev_role : role s' = role s;
  ev_config : config s' = config s;
  ev_peer_config : peer_config s' = peer_config s;
  ev_flow : WtFlowControl.grows (flow_control s) (flow_control s');
  ev_bidi : next_bidi_stream_id s <= next_bidi_stream_id s';
  ev_uni : next_uni_stream_id s <= next_uni_stream_id s';
  ev_output : exists caps,
    Forall Wire.wf caps /\ output_buffer s' = output_buffer s ++ wires caps /\
    WtFlowControl.send_offset (flow_control s') = WtFlowControl.send_offset (flow_control s) + sent caps;
  ev_events : exists evs,
    events s' = events s ++ evs /\
    WtFlowControl.recv_offset (flow_control s') = WtFlowControl.recv_offset (flow_control s) + received evs
}.

Definition good_but (x : option Z) (s s' : t) : Prop := wf_but x s' /\ evolves s s'.
Notation good := (good_but None).

(** A method that keeps the invariant, whatever its outcome. *)
Definition op {A} (m : M A) (s : t) : Prop := wp m (fun _ => good s) (good s) s.

End WtInvariant.
Import WtInvariant.

(** ** Composition *)

Lemma grows_refl f : WtFlowControl.grows f f.
Proof. constructor; lia. Qed.
Lemma grows_trans f g h : WtFlowControl.grows f g -> WtFlowControl.grows g h -> WtFlowControl.grows f h.
Proof. intros [] []. constructor; lia. Qed.

Lemma wires_cat a b : wires (a ++ b) = wires a ++ wires b.
Proof. unfold wires. by rewrite map_app, concat_app. Qed.
Lemma sent_app a b : sent (a ++ b) = sent a + sent b.
Proof. unfold sent. induction a as [|[] a IH]; cbn in *; lia. Qed.
Lemma received_app a b : received (a ++ b) = received a + received b.
Proof. unfold received. induction a as [|[] a IH]; cbn in *; lia. Qed.

Lemma wt_evolves_refl s : evolves s s.
Proof.
  constructor; try done; try apply grows_refl; exists [];
    rewrite ?app_nil_r; split_and?; try done; cbn; lia.
Qed.

Lemma wt_evolves_trans s s1 s2 : evolves s s1 -> evolves s1 s2 -> evolves s s2.
Proof.
  intros [] []. destruct ev_output0 as (a & Ha & Ea & Sa), ev_output1 as (b & Hb & Eb & Sb).
  destruct ev_events0 as (c & Ec & Rc), ev_events1 as (d & Ed & Rd).
  constructor; try congruence; try lia.
  - by eapply grows_trans.
  - exists (a ++ b). rewrite wires_cat, sent_app, Eb, Ea, app_assoc. split_and!; [by apply Forall_app|done|lia].
  - exists (c ++ d). rewrite received_app, Ed, Ec, app_assoc. split; [done|lia].
Qed.

Lemma wt_good_refl x s : wf_but x s -> good_but x s s.
Proof. intros H. split; [done|apply wt_evolves_refl]. Qed.
Lemma wt_good_trans x y s s1 s2 : good_but x s s1 -> good_but y s1 s2 -> good_but y s s2.
Proof. intros [_ H1] [H2 H3]. split; [done|]. by eapply wt_evolves_trans. Qed.

(** A method run later still takes the first state to a good one. *)
Lemma wt_op_after {A} (m : M A) s s' : good s s' -> op m s' -> wp m (fun _ => good s) (good s) s'.
Proof. intros Hs Hm. eapply wp_mono; [exact Hm| |]; cbn; intros; eapply wt_good_trans; eassumption. Qed.

Lemma wt_op_seq {A B} (m : M A) (k : A -> M B) s :
  op m s -> (forall a s', good s s' -> op (k a) s') -> op (bind m k) s.
Proof.
  intros Hm Hk. eapply wp_seq; [exact Hm| |done].
  cbn. intros a s' Hs. apply wt_op_after; [done|]. by apply Hk.
Qed.

Lemma wt_op_ret {A} (a : A) s : wf s -> op (ret a) s.
Proof. apply wt_good_refl. Qed.
Lemma wt_op_throw {A} e s : wf s -> op (A:=A) (throw e) s.
Proof. apply wt_good_refl. Qed.
Lemma wt_op_gets {A B} (f : t -> A) (k : A -> M B) s : op (k (f s)) s -> op (bind (gets f) k) s.
Proof. done. Qed.
Lemma wt_op_if {A} (b : bool) (m1 m2 : M A) s :
  (b = true -> op m1 s) -> (b = false -> op m2 s) -> op (if b then m1 else m2) s.
Proof. destruct b; auto. Qed.
Lemma wt_op_lift {A B} (r : result WtError.t A) (k : A -> M B) s :
  wf s -> r <> Panic -> (forall a, r = Ok a -> op (k a) s) -> op (bind (lift r) k) s.
Proof. intros H Hr Hk. unfold op, wp, bind, lift. destruct r; [by apply Hk|by apply wt_good_refl|done]. Qed.
Lemma wt_op_stream_mut {B} id e (k : WtStream.t -> M B) s :
  wf s -> (forall st, streams s !! id = Some st -> op (k st) s) -> op (bind (stream_mut id e) k) s.
Proof.
  intros H Hk. unfold op, wp, bind, stream_mut, gets, lift, ok_or. cbn.
  destruct (streams s !! id) eqn:E; cbn; [by apply Hk|by apply wt_good_refl].
Qed.

(** A method whose result is known. *)
Lemma wt_op_runs {A B} (m : M A) (k : A -> M B) s a s' :
  m s = (Ok a, s') -> good s s' -> op (k a) s' -> op (bind m k) s.
Proof.
  intros E Hs Hk. unfold op. apply wp_bind. unfold wp at 1. rewrite E. by apply wt_op_after.
Qed.

Create HintDb wt.
#[export] Hint Resolve wt_op_ret wt_op_throw wt_good_refl : wt.

(** ** Writing capsules *)

Lemma wire_len c : Wire.wf c -> len (Wire.wire c) < 2 ^ 63.
Proof.
  intros [_ Hl]. unfold Wire.wire. rewrite !len_app, !Varint.len_octets.
  pose proof (Varint.encoded_len_bounds (Wire.capsule_type c)).
  pose proof (Varint.encoded_len_bounds (len (Wire.payload c))). unfold Varint.MAX_VALUE in Hl. lia.
Qed.

Lemma emit_runs c s :
  Wire.wf c -> capsule_encoder s = CapsuleEncoder.new ->
  emit c s = (Ok tt, s <| output_buffer := output_buffer s ++ Wire.wire c |>).
Proof.
  intros Hc He. pose proof (wire_len c Hc). unfold emit, on_encoder, zoom, bind. rewrite He.
  unfold CapsuleEncoder.new. rewrite (encode_wire c Hc) by (rewrite len_nil; lia).
  destruct s. cbn in *. by subst.
Qed.

(** ** What keeps the invariant *)

Lemma is_uncreated_mono id s s' :
  role s' = role s -> next_bidi_stream_id s <= next_bidi_stream_id s' -> next_uni_stream_id s <= next_uni_stream_id s' ->
  is_uncreated_local_id id s = false -> is_uncreated_local_id id s' = false.
Proof.
  unfold is_uncreated_local_id, is_peer_initiated. intros -> Hb Hu.
  destruct (match role s with Role.Client => _ | Role.Server => _ end); [done|].
  destruct (StreamId.is_bidirectional id); rewrite !Z.geb_leb; lia.
Qed.

Lemma is_peer_role id s s' : role s' = role s -> is_peer_initiated id s' = is_peer_initiated id s.
Proof. unfold is_peer_initiated. by intros ->. Qed.

Lemma can_accept_mono id f g :
  WtFlowControl.max_streams_bidi_local f <= WtFlowControl.max_streams_bidi_local g ->
  WtFlowControl.max_streams_uni_local f <= WtFlowControl.max_streams_uni_local g ->
  WtFlowControl.can_accept_stream id f = true -> WtFlowControl.can_accept_stream id g = true.
Proof.
  unfold WtFlowControl.can_accept_stream, saturating_add, saturating_mul. intros Hb Hu.
  destruct (Z.land id 2 =? 0); rewrite !Z.ltb_lt; lia.
Qed.

(** What a stream's entry depends on in the rest of the session only grows. *)
Record keeps (s s' : t) : Prop := {
  k_role : role s' = role s;
  k_bidi : next_bidi_stream_id s <= next_bidi_stream_id s';
  k_uni : next_uni_stream_id s <= next_uni_stream_id s';
  k_max_bidi : WtFlowControl.max_streams_bidi_local (flow_control s) <= WtFlowControl.max_streams_bidi_local (flow_control s');
  k_max_uni : WtFlowControl.max_streams_uni_local (flow_control s) <= WtFlowControl.max_streams_uni_local (flow_control s')
}.

Lemma stream_ok_keeps s s' id st :
  keeps s s' -> has_closed id s' = false -> stream_ok s id st -> stream_ok s' id st.
Proof.
  intros [] Hc []. constructor; try done.
  - by rewrite (is_peer_role id s).
  - by eapply is_uncreated_mono.
  - rewrite (is_peer_role id s) by done. intros Hp. eapply can_accept_mono; [..|by apply so_accepted0]; done.
Qed.

(** A change that leaves the streams and the record of closed ones alone. *)
Lemma wf_other x s s' :
  wf_but x s ->
  role s' = role s -> config s' = config s -> peer_config s' = peer_config s ->
  streams s' = streams s -> closed_stream_send_max s' = closed_stream_send_max s ->
  next_bidi_stream_id s' = next_bidi_stream_id s -> next_uni_stream_id s' = next_uni_stream_id s ->
  capsule_encoder s' = capsule_encoder s -> decoder_wf (capsule_decoder s') ->
  WtFlowControl.wf (flow_control s') -> WtFlowControl.grows (flow_control s) (flow_control s') ->
  WtFlowControl.opened_streams_bidi (flow_control s') = WtFlowControl.opened_streams_bidi (flow_control s) ->
  WtFlowControl.opened_streams_uni (flow_control s') = WtFlowControl.opened_streams_uni (flow_control s) ->
  wf_but x s'.
Proof.
  intros [] Er Ec Ep Es Em Eb Eu Ee Hd Hf [] Ob Ou.
  constructor; rewrite ?Er, ?Ec, ?Ep, ?Es, ?Eb, ?Eu, ?Ee, ?Ob, ?Ou; try done.
  - intros id st Hst. pose proof (wf_streams0 id st Hst) as Hok.
    apply (stream_ok_keeps s); [|unfold has_closed; rewrite Em; apply Hok|done].
    constructor; rewrite ?Eb, ?Eu; done || lia.
  - intros id Hc. eapply is_uncreated_mono; [exact Er|rewrite Eb; lia|rewrite Eu; lia|].
    apply wf_closed0. unfold has_closed in *. by rewrite <- Em.
Qed.

Lemma wt_emit_good c s :
  Wire.wf c -> sent [c] = 0 -> wf s ->
  good s (s <| output_buffer := output_buffer s ++ Wire.wire c |>).
Proof.
  intros Hc Hn H. split.
  - eapply wf_other; [exact H|try done; try apply H; apply grows_refl..].
  - constructor; try done; try apply grows_refl.
    + exists [c]. split_and!; [by constructor|unfold wires; cbn; by rewrite app_nil_r|cbn in *; lia].
    + exists []. rewrite app_nil_r. split; [done|cbn; lia].
Qed.

Lemma emit_op c s : Wire.wf c -> sent [c] = 0 -> wf s -> op (emit c) s.
Proof.
  intros Hc Hn H. unfold op, wp. rewrite emit_runs by (done || apply H). by apply wt_emit_good.
Qed.

(** An event other than stream data. *)
Lemma wt_push_event_op e s : received [e] = 0 -> wf s -> op (push_event e) s.
Proof.
  intros Hn H. split.
  - eapply wf_other; [exact H|try done; try apply H; apply grows_refl..].
  - constructor; try done; try apply grows_refl.
    + exists []. rewrite app_nil_r. split_and!; [done..|cbn; lia].
    + exists [e]. split; [done|cbn in *; lia].
Qed.

(** A change of fields that the invariant does not read. *)
Lemma wt_quiet x s s' :
  wf_but x s' -> role s' = role s -> config s' = config s -> peer_config s' = peer_config s ->
  WtFlowControl.grows (flow_control s) (flow_control s') ->
  next_bidi_stream_id s <= next_bidi_stream_id s' -> next_uni_stream_id s <= next_uni_stream_id s' ->
  output_buffer s' = output_buffer s -> events s' = events s ->
  WtFlowControl.send_offset (flow_control s') = WtFlowControl.send_offset (flow_control s) ->
  WtFlowControl.recv_offset (flow_control s') = WtFlowControl.recv_offset (flow_control s) ->
  good_but x s s'.
Proof.
  intros H Er Ec Ep Hg Hb Hu Eo Ee Es Eq. split; [done|]. constructor; try done.
  - exists []. rewrite app_nil_r, Eo, Es. split_and!; [done..|cbn; lia].
  - exists []. rewrite app_nil_r, Ee, Eq. split; [done|cbn; lia].
Qed.

Lemma set_state_op st s : wf s -> op (set_state st) s.
Proof.
  intros H. apply wt_quiet; try done; try apply grows_refl.
  eapply wf_other; [exact H|try done; try apply H; apply grows_refl..].
Qed.

(** A method of the flow control that moves no offset. *)
Lemma flow_op m s :
  wf s ->
  wp m (fun _ f => WtFlowControl.wf f /\ WtFlowControl.grows (flow_control s) f /\
          WtFlowControl.opened_streams_bidi f = WtFlowControl.opened_streams_bidi (flow_control s) /\
          WtFlowControl.opened_streams_uni f = WtFlowControl.opened_streams_uni (flow_control s) /\
          WtFlowControl.send_offset f = WtFlowControl.send_offset (flow_control s) /\
          WtFlowControl.recv_offset f = WtFlowControl.recv_offset (flow_control s))
       (fun f => f = flow_control s) (flow_control s) ->
  op (A:=unit) (on_flow_control m) s.
Proof.
  intros H Hm. apply wp_zoom. eapply wp_mono; [exact Hm| |].
  - cbn. intros _ f (Hf & Hg & Ob & Ou & Es & Er). apply wt_quiet; try done.
    eapply wf_other; [exact H|try done; try apply H..].
  - cbn. intros f ->. destruct s. by apply wt_good_refl.
Qed.

(** ** Flow control *)

Lemma update_recv_max_flow max f :
  WtFlowControl.wf f -> 0 <= max ->
  wp (WtFlowControl.update_recv_max max)
    (fun _ g => g = f <| WtFlowControl.recv_max := max |> /\ WtFlowControl.wf g /\ WtFlowControl.grows f g) (fun g => g = f) f.
Proof.
  intros Hf Hm. unfold WtFlowControl.update_recv_max. destruct (Z.gtb_spec max Varint.MAX_VALUE); [done|].
  apply wp_gets. destruct (Z.leb_spec max (WtFlowControl.recv_max f)); [done|].
  split; [done|]. destruct Hf. split; constructor; cbn; lia.
Qed.

(** ** Streams *)

Lemma map_btree_get_insert {V} k v k' (l : list (Z * V)) :
  is_Some (BoundedMap.btree_get k' (BoundedMap.btree_insert k v l)) -> k' = k \/ is_Some (BoundedMap.btree_get k' l).
Proof.
  induction l as [|[q w] l IH]; cbn.
  - destruct (Z.eqb_spec k' k); [by left|]. by intros [].
  - destruct (k <? q); [cbn; destruct (Z.eqb_spec k' k); [by left|auto]|].
    destruct (Z.eqb_spec k q) as [->|]; cbn.
    + destruct (Z.eqb_spec k' q); [by left|auto].
    + destruct (Z.eqb_spec k' q); [eauto|auto].
Qed.

Lemma map_btree_get_evict {V} max k (l : list (Z * V)) :
  is_Some (BoundedMap.btree_get k (BoundedMap.evict max l)) -> is_Some (BoundedMap.btree_get k l).
Proof.
  induction l as [|[q w] l IH]; [done|]. cbn [BoundedMap.evict].
  destruct (_ >? _); [|done]. intros H. cbn. destruct (k =? q); [eauto|auto].
Qed.

Lemma map_contains_insert {V} k v k' (m : BoundedMap.t V) :
  BoundedMap.contains k' (BoundedMap.insert k v m) = true -> k' = k \/ BoundedMap.contains k' m = true.
Proof.
  unfold BoundedMap.contains, BoundedMap.get, BoundedMap.insert. cbn.
  destruct (BoundedMap.btree_get k' (BoundedMap.evict _ _)) eqn:E; [|done]. intros _.
  destruct (map_btree_get_insert k v k' (BoundedMap.inner m)) as [|[w Hw]]; [|by left|right; by rewrite Hw].
  eapply map_btree_get_evict. rewrite E. eauto.
Qed.

(** The identity of a stream, which none of its methods changes. *)
Definition same_stream (st st' : WtStream.t) : Prop :=
  WtStream.id st' = WtStream.id st /\ WtStream.bidirectional st' = WtStream.bidirectional st /\
  WtStream.locally_initiated st' = WtStream.locally_initiated st.

Definition with_stream (id : Z) (st : WtStream.t) (s : t) : t :=
  s <| streams := <[id := st]> (streams s) |>.

Lemma same_stream_ok s id st st' :
  stream_ok s id st -> same_stream st st' -> WtStream.wf st' -> stream_ok s id st'.
Proof. intros [] (E1 & E2 & E3) Hw. constructor; congruence || done. Qed.

Lemma with_stream_wf x id st st' s :
  wf_but x s -> streams s !! id = Some st -> same_stream st st' -> WtStream.wf st' ->
  x = Some id \/ x = None ->
  wf_but (if WtStream.is_closed st' then Some id else None) (with_stream id st' s).
Proof.
  intros [] Hst (Ei & Eb & El) Hst' Hx. constructor; try done.
  - cbn. intros id' st1 [[<- <-]|[Hn H1]]%lookup_insert_Some.
    + destruct (same_stream_ok s id st st' (wf_streams0 id st Hst)); [done..|]. by constructor.
    + destruct (wf_streams0 id' st1 H1). by constructor.
  - cbn. intros id' st1 [[<- <-]|[Hn H1]]%lookup_insert_Some Hne.
    + by destruct (WtStream.is_closed st').
    + apply (wf_open0 id' st1 H1). destruct Hx as [->| ->]; [congruence|done].
Qed.

Lemma with_stream_good id st st' s :
  wf s -> streams s !! id = Some st -> same_stream st st' -> WtStream.wf st' ->
  good_but (if WtStream.is_closed st' then Some id else None) s (with_stream id st' s).
Proof.
  intros H Hst He Hw. apply wt_quiet; try done.
  eapply with_stream_wf; eauto.
Qed.

Lemma wf_but_weaken x s : wf s -> wf_but x s.
Proof. intros []. constructor; try done. intros id st Hst _. by apply (wf_open0 id st Hst). Qed.

Lemma wf_but_any id s b : wf_but (if b : bool then Some id else None) s -> wf_but (Some id) s.
Proof. destruct b; [done|apply wf_but_weaken]. Qed.

Lemma on_stream_runs {A} id st (m : ST WtStream.t WtError.t A) s r st' :
  m st = (r, st') -> on_stream id st m s = (r, with_stream id st' s).
Proof. unfold on_stream. by intros ->. Qed.

Lemma with_stream_same id st s : streams s !! id = Some st -> with_stream id st s = s.
Proof. intros H. unfold with_stream. destruct s. cbn in *. by rewrite insert_id. Qed.

Lemma remove_if_closed_runs id s :
  remove_if_closed id s =
    (Ok tt,
     match streams s !! id with
     | Some st =>
         if WtStream.is_closed st
         then s <| streams := delete id (streams s) |>
                <| closed_stream_send_max := BoundedMap.insert id (WtStream.send_max st) (closed_stream_send_max s) |>
         else s
     | None => s
     end).
Proof.
  unfold remove_if_closed. rewrite bind_gets. destruct (streams s !! id); [|done].
  by destruct (WtStream.is_closed _).
Qed.

Lemma remove_if_closed_good id s :
  wf_but (Some id) s -> good s (remove_if_closed id s).2.
Proof.
  intros H. rewrite remove_if_closed_runs. cbn [snd].
  destruct (streams s !! id) as [st|] eqn:Hst; [destruct (WtStream.is_closed st) eqn:Hc|].
  - apply wt_quiet; try done. destruct H. constructor; try done; cbn.
    + intros id' st' [Hn H1]%lookup_delete_Some. destruct (wf_streams0 id' st' H1). constructor; try done.
      unfold has_closed in *. cbn. destruct (BoundedMap.contains id' (BoundedMap.insert _ _ _)) eqn:E; [|done].
      apply map_contains_insert in E as [E|E]; congruence.
    + intros id' [->|E]%map_contains_insert; [apply (wf_streams0 id st Hst)|by apply wf_closed0].
    + intros id' st' [Hn H1]%lookup_delete_Some _. apply (wf_open0 id' st' H1). congruence.
  - apply wt_good_refl. destruct H. constructor; try done. intros id' st' H1 _.
    destruct (decide (id' = id)) as [->|]; [congruence|]. apply (wf_open0 id' st' H1). congruence.
  - apply wt_good_refl. destruct H. constructor; try done. intros id' st' H1 _.
    apply (wf_open0 id' st' H1). congruence.
Qed.

Lemma remove_if_closed_after {A} id s s1 (k : unit -> M A) :
  good_but (Some id) s s1 ->
  (forall s', good s s' -> wp (k tt) (fun _ => good s) (good s) s') ->
  wp (remove_if_closed id ;! k tt) (fun _ => good s) (good s) s1.
Proof.
  intros H Hk. apply wp_bind. unfold wp at 1. pose proof (remove_if_closed_good id s1 (proj1 H)) as G.
  rewrite remove_if_closed_runs in *. cbn [snd] in G. apply Hk. by eapply wt_good_trans.
Qed.

Lemma remove_if_closed_end id s s1 :
  good_but (Some id) s s1 -> wp (remove_if_closed id) (fun _ => good s) (good s) s1.
Proof.
  intros H. unfold wp. pose proof (remove_if_closed_good id s1 (proj1 H)) as G.
  rewrite remove_if_closed_runs in *. cbn [snd] in G. by eapply wt_good_trans.
Qed.

(** ** The methods that send *)

Lemma wt_op_seq_with {A B} (P : A -> t -> Prop) (m : M A) (k : A -> M B) s :
  wp m (fun a s' => good s s' /\ P a s') (good s) s ->
  (forall a s', good s s' -> P a s' -> op (k a) s') -> op (bind m k) s.
Proof.
  intros Hm Hk. eapply wp_seq; [exact Hm| |done].
  cbn. intros a s' [Hs HP]. apply wt_op_after; [done|]. by apply Hk.
Qed.

Lemma wf_capsule_small c : Wire.fields_ok c -> len (Wire.payload c) <= 24 -> Wire.wf c.
Proof. intros H Hl. split; [done|]. unfold Varint.MAX_VALUE. lia. Qed.

(** A capsule of one varint, and of two. *)
Ltac small_capsule :=
  apply wf_capsule_small; [by cbn; auto|
    cbn [Wire.payload]; rewrite ?len_app, ?Varint.len_octets;
    repeat match goal with |- context [ Varint.encoded_len ?v ] =>
      lazymatch goal with _ : 1 <= Varint.encoded_len v <= 8 |- _ => fail | _ =>
        pose proof (Varint.encoded_len_bounds v) end end; lia].

Lemma send_max_data_op max s : wf s -> 0 <= max -> op (send_max_data max) s.
Proof.
  intros H Hm. unfold send_max_data.
  apply (wt_op_seq_with (fun _ s' => Varint.ok max)).
  - apply wp_zoom. eapply wp_mono; [by apply update_recv_max_flow; [apply H|]| |].
    + cbn. intros _ f (-> & Hf & Hg). split; [|split; [done|apply Hf]].
      apply wt_quiet; try done. eapply wf_other; [exact H|try done; try apply H..].
    + cbn. intros f ->. destruct s. by apply wt_good_refl.
  - intros _ s' [Hs' _] Hv. apply emit_op; [small_capsule|done|done].
Qed.

Lemma send_max_stream_data_op id max s : wf s -> 0 <= max -> op (send_max_stream_data id max) s.
Proof.
  intros H Hm. unfold send_max_stream_data. apply wt_op_if; intros Hv; [auto with wt|].
  apply wt_op_stream_mut; [done|]. intros st Hst.
  apply wt_op_if; intros _; [auto with wt|]. apply wt_op_if; intros _; [auto with wt|].
  apply wt_op_lift; [done|by unfold check_max_stream_data_recv_state; case_match|]. intros _ _.
  apply wt_op_if; intros Ha; [auto with wt|]. zbool.
  pose proof (wf_streams _ _ H id st Hst) as Hok. pose proof (so_wf _ _ _ Hok) as [].
  set (st' := st <| WtStream.recv_max := max |>).
  assert (WtStream.update_recv_max max st = (Ok tt, st')) as E.
  { unfold WtStream.update_recv_max. destruct (Z.gtb_spec max Varint.MAX_VALUE); [lia|].
    rewrite bind_gets. destruct (Z.gtb_spec max (WtStream.recv_max st)); [done|lia]. }
  apply (wt_op_runs _ _ _ _ _ (on_stream_runs id st _ s _ _ E)).
  - pose proof (with_stream_good id st st' s H Hst) as G.
    replace (WtStream.is_closed st') with false in G by (symmetry; apply (wf_open _ _ H id st Hst); done).
    apply G; [done|]. constructor; cbn; lia.
  - pose proof (with_stream_good id st st' s H Hst) as G.
    replace (WtStream.is_closed st') with false in G by (symmetry; apply (wf_open _ _ H id st Hst); done).
    destruct G as [G _]; [done|constructor; cbn; lia|].
    apply emit_op; [|done|done]. pose proof (so_range _ _ _ Hok). unfold Varint.ok in *. small_capsule.
Qed.

Lemma send_max_streams_op max b s : wf s -> 0 <= max -> op (send_max_streams max b) s.
Proof.
  intros H Hm. unfold send_max_streams. apply wt_op_gets. apply wt_op_if; intros _; [auto with wt|].
  apply (wt_op_seq_with (fun _ s' => Varint.ok max)).
  - apply wp_zoom. unfold WtFlowControl.update_max_streams_local. apply wp_gets.
    unfold WtFlowControl.check_max_streams_increase. destruct H as [? ? Hf]. destruct Hf.
    destruct (Z.gtb_spec max MAX_STREAMS_LIMIT).
    { destruct s. by apply wt_good_refl. }
    destruct (Z.leb_spec max (if b then WtFlowControl.max_streams_bidi_local (flow_control s)
      else WtFlowControl.max_streams_uni_local (flow_control s))).
    { destruct s. by apply wt_good_refl. }
    apply wp_lift_ok. unfold MAX_STREAMS_LIMIT in *. destruct b; (split; [|unfold Varint.ok, Varint.MAX_VALUE; lia]);
    (apply wt_quiet; try done; [|constructor; cbn; lia];
     eapply wf_other; [by constructor|try done..]; constructor; cbn; unfold MAX_STREAMS_LIMIT; lia).
  - intros _ s' [Hs' _] Hv. apply emit_op; [small_capsule|done|done].
Qed.

Lemma wt_checked_add_ok a b e c : @ok_or WtError.t Z (checked_add a b) e = Ok c -> c = a + b.
Proof. unfold checked_add. case_match; [by intros [= <-]|done]. Qed.
Lemma checked_add_safe a b e : @ok_or WtError.t Z (checked_add a b) e <> Panic.
Proof. unfold checked_add. by case_match. Qed.

Lemma grow_recv_window_op n s : wf s -> 0 <= n -> op (grow_recv_window n) s.
Proof.
  intros H Hn. unfold grow_recv_window. apply wt_op_gets. apply wt_op_lift; [done|apply checked_add_safe|].
  intros m ->%wt_checked_add_ok. apply send_max_data_op; [done|]. destruct (wf_flow _ _ H). lia.
Qed.

Lemma grow_stream_recv_window_op id n s : wf s -> 0 <= n -> op (grow_stream_recv_window id n) s.
Proof.
  intros H Hn. unfold grow_stream_recv_window. apply wt_op_stream_mut; [done|]. intros st Hst.
  apply wt_op_lift; [done|apply checked_add_safe|].
  intros m ->%wt_checked_add_ok. apply send_max_stream_data_op; [done|].
  destruct (so_wf _ _ _ (wf_streams _ _ H id st Hst)). lia.
Qed.

Lemma grow_max_streams_op n b s : wf s -> 0 <= n -> op (grow_max_streams n b) s.
Proof.
  intros H Hn. unfold grow_max_streams. apply wt_op_gets. apply wt_op_lift; [done|apply checked_add_safe|].
  intros m ->%wt_checked_add_ok. apply send_max_streams_op; [done|]. destruct (wf_flow _ _ H). destruct b; lia.
Qed.

Lemma initiate_op s : wf s -> op initiate s.
Proof. intros H. unfold initiate. apply wt_op_gets, wt_op_if; intros _; [auto with wt|by apply set_state_op]. Qed.

Lemma drain_op s : wf s -> op drain s.
Proof.
  intros H. unfold drain. apply wt_op_gets, wt_op_if; intros _; [auto with wt|].
  apply wt_op_seq; [|intros _ s' [Hs' _]; by apply set_state_op].
  apply emit_op; [by split|done|done].
Qed.

(** What the application passes as data fits a capsule. *)
Definition data_ok (data : list Z) : Prop := bytes_ok data /\ len data + 8 <= Varint.MAX_VALUE.

Lemma send_datagram_op data s : wf s -> data_ok data -> op (send_datagram data) s.
Proof.
  intros H [Hb Hl]. unfold send_datagram. apply wt_op_gets, wt_op_if; intros _; [auto with wt|].
  apply emit_op; [|done|done]. split; [done|]. cbn [Wire.payload]. lia.
Qed.

(** ** Truncating the reason of a close *)

Lemma truncate_end_spec l n :
  (n < length l)%nat ->
  exists m, truncate_end l n = Ok m /\ (m <= n)%nat /\
    (m <> O -> exists b, l !! m = Some b /\ is_continuation b = false).
Proof.
  induction n as [|n IH]; intros Hn; [by exists O|]. cbn [truncate_end].
  destruct (lookup_lt_is_Some_2 l (S n) Hn) as [b Hb].
  assert (@index WtError.t Z l (Z.of_nat (S n)) = Ok b) as ->.
  { unfold index. rewrite (proj2 (Z.leb_le 0 _)) by apply Nat2Z.is_nonneg. by rewrite Nat2Z.id, Hb. }
  cbn [rbind]. destruct (is_continuation b) eqn:E.
  - destruct IH as (m & -> & Hm & Hb'); [lia|]. exists m. split_and!; [done|lia|done].
  - exists (S n). split_and!; [done|lia|eauto].
Qed.

(** The octets of a tail of a character are continuations. *)
Lemma tail_continuation b : u8_ok b -> Syntax.utf8_tail b = true -> is_continuation b = true.
Proof.
  intros Hb Ht. revert Ht. apply implb_true_iff. revert b Hb.
  apply (u8_check (fun b => implb (Syntax.utf8_tail b) (is_continuation b))). by vm_compute.
Qed.

Lemma second_continuation (c d : bool) lo hi b :
  Syntax.in_range (if c then lo else 0x80) (if d then hi else 0xBF) b = true ->
  0x80 <= lo -> hi <= 0xBF -> u8_ok b -> is_continuation b = true.
Proof.
  intros H Hlo Hhi Hb. apply tail_continuation; [done|]. unfold Syntax.utf8_tail, Syntax.in_range in *.
  destruct c, d; lia.
Qed.

(** Cutting valid UTF-8 in front of an octet that starts a character. *)
Lemma utf8_take l m b :
  bytes_ok l -> Syntax.utf8_valid l = true -> l !! m = Some b -> is_continuation b = false ->
  Syntax.utf8_valid (take m l) = true.
Proof.
  revert m. induction l as [l IH] using (induction_ltof1 _ (@length Z)). unfold ltof in IH.
  intros m Hl Hv Hm Hb. destruct m as [|m]; [done|].
  destruct l as [|b0 l1]; [done|]. cbn [take Syntax.utf8_valid lookup list_lookup] in *.
  apply Forall_cons in Hl as [H0 Hl].
  destruct (b0 <? 0x80); [by apply (IH l1 ltac:(cbn; lia) m)|].
  destruct l1 as [|b1 l2]; [done|]. apply Forall_cons in Hl as [H1 Hl].
  destruct (Syntax.in_range 0xC2 0xDF b0).
  { apply andb_true_iff in Hv as [T1 Hv]. apply (tail_continuation _ H1) in T1 as C1.
    destruct m as [|m]; [cbn in Hm; congruence|]. cbn [take lookup list_lookup] in *. rewrite T1.
    by apply (IH l2 ltac:(cbn; lia) m). }
  destruct l2 as [|b2 l3]; [done|]. apply Forall_cons in Hl as [H2 Hl].
  destruct (Syntax.in_range 0xE0 0xEF b0).
  { apply andb_true_iff in Hv as [[R1 T2]%andb_true_iff Hv]. apply (tail_continuation _ H2) in T2 as C2.
    pose proof (second_continuation _ _ _ _ _ R1 ltac:(lia) ltac:(lia) H1) as C1.
    destruct m as [|[|m]]; [cbn in Hm; congruence..|]. cbn [take lookup list_lookup] in *. rewrite R1, T2.
    by apply (IH l3 ltac:(cbn; lia) m). }
  destruct l3 as [|b3 l4]; [done|]. apply Forall_cons in Hl as [H3 Hl].
  apply andb_true_iff in Hv as [[[[R0 R1]%andb_true_iff T2]%andb_true_iff T3]%andb_true_iff Hv].
  apply (tail_continuation _ H2) in T2 as C2. apply (tail_continuation _ H3) in T3 as C3.
  pose proof (second_continuation _ _ _ _ _ R1 ltac:(lia) ltac:(lia) H1) as C1.
  destruct m as [|[|[|m]]]; [cbn in Hm; congruence..|]. cbn [take lookup list_lookup] in *.
  rewrite R0, R1, T2, T3. by apply (IH l4 ltac:(cbn; lia) m).
Qed.

(** The reason of a close: at most 1024 octets of valid UTF-8, cut where a
    character starts. *)
Lemma close_reason_ok reason :
  bytes_ok reason -> Syntax.utf8_valid reason = true ->
  exists cut,
    (if len reason >? MAX_CLOSE_REASON_LEN then
       let? end_ := truncate_end reason (Z.to_nat MAX_CLOSE_REASON_LEN) in
       str_prefix reason end_
     else Ok reason) = Ok cut /\
    bytes_ok cut /\ Syntax.utf8_valid cut = true /\ len cut <= MAX_CLOSE_REASON_LEN /\
    exists rest, reason = cut ++ rest.
Proof.
  intros Hb Hv. destruct (Z.gtb_spec (len reason) MAX_CLOSE_REASON_LEN) as [Hl|Hl].
  - unfold MAX_CLOSE_REASON_LEN in *. set (n := Z.to_nat 1024).
    destruct (truncate_end_spec reason n) as (m & -> & Hm & Hc).
    { subst n. unfold len in Hl. lia. }
    cbn [rbind]. exists (take m reason). unfold str_prefix.
    assert (len (take m reason) <= 1024) by (rewrite len_take; subst n; lia).
    destruct m as [|m].
    + split_and!; [done|constructor|done|done|]. by exists reason.
    + destruct Hc as (b & Eb & Ec); [done|]. rewrite Eb, Ec.
      split_and!; [done|by apply Forall_take|by eapply utf8_take|done|].
      exists (drop (S m) reason). by rewrite take_drop.
  - exists reason. split_and!; [done..|lia|]. exists []. by rewrite app_nil_r.
Qed.

Lemma close_op code reason s :
  wf s -> u32_ok code -> bytes_ok reason -> Syntax.utf8_valid reason = true -> op (close code reason) s.
Proof.
  intros H Hc Hb Hv. unfold close. apply wt_op_gets, wt_op_if; intros _; [auto with wt|].
  destruct (close_reason_ok reason Hb Hv) as (cut & -> & Hb' & Hv' & Hl & _).
  apply wt_op_lift; [done|done|]. intros ? [= <-].
  apply wt_op_seq; [|intros _ s' [Hs' _]; by apply set_state_op].
  apply emit_op; [|done|done]. split; [done|]. cbn [Wire.payload]. rewrite len_app, len_u32_to_be.
  unfold MAX_CLOSE_REASON_LEN, Varint.MAX_VALUE in *. lia.
Qed.

Lemma error_code_capsule id code :
  Varint.ok id -> 0 <= code -> (code >? MAX_APPLICATION_ERROR_CODE) = false -> Wire.wf (Capsule.WtStopSending id code).
Proof.
  intros Hi Hc Hm. rewrite Z.gtb_ltb in Hm. zbool. split; [cbn; split; [done|lia]|].
  cbn [Wire.payload]. rewrite len_app, !Varint.len_octets.
  pose proof (Varint.encoded_len_bounds id). pose proof (Varint.encoded_len_bounds code).
  unfold Varint.MAX_VALUE. lia.
Qed.

Lemma stop_sending_op id code s : wf s -> 0 <= code -> op (stop_sending id code) s.
Proof.
  intros H Hc. unfold stop_sending. apply wt_op_if; intros Hm; [auto with wt|].
  apply wt_op_stream_mut; [done|]. intros st Hst.
  do 3 (apply wt_op_if; intros _; [auto with wt|]).
  pose proof (wf_streams _ _ H id st Hst) as Hok. pose proof (so_range _ _ _ Hok).
  assert (Wire.wf (Capsule.WtStopSending id code)) as Hw by by apply error_code_capsule.
  apply (wt_op_runs _ _ _ _ _ (emit_runs _ s Hw (wf_encoder _ _ H))); [by apply wt_emit_good|].
  pose proof (wt_emit_good _ s Hw eq_refl H) as [H1 _].
  unfold op, wp. erewrite on_stream_runs by reflexivity.
  pose proof (with_stream_good id st (WtStream.set_stop_sending_sent st) _ H1 Hst) as G.
  replace (WtStream.is_closed (WtStream.set_stop_sending_sent st)) with false in G
    by (symmetry; apply (wf_open _ _ H id st Hst); done).
  apply G; [done|]. destruct (so_wf _ _ _ Hok). by constructor.
Qed.

Lemma reset_stream_op id code s : wf s -> 0 <= code -> op (reset_stream id code) s.
Proof.
  intros H Hc. unfold reset_stream. apply wt_op_if; intros Hm; [auto with wt|].
  apply wt_op_stream_mut; [done|]. intros st Hst.
  do 2 (apply wt_op_if; intros _; [auto with wt|]).
  pose proof (wf_streams _ _ H id st Hst) as Hok. pose proof (so_range _ _ _ Hok). pose proof (so_wf _ _ _ Hok) as Hw.
  set (c := Capsule.WtResetStream id code (WtStream.send_offset st)).
  assert (Wire.wf c) as Hwc.
  { rewrite Z.gtb_ltb in Hm. zbool. destruct Hw. unfold Varint.ok in *. apply wf_capsule_small; [cbn; unfold Varint.ok; lia|].
    cbn [Wire.payload c]. rewrite !len_app, !Varint.len_octets.
    pose proof (Varint.encoded_len_bounds id). pose proof (Varint.encoded_len_bounds code).
    pose proof (Varint.encoded_len_bounds (WtStream.send_offset st)). lia. }
  apply (wt_op_runs _ _ _ _ _ (emit_runs c s Hwc (wf_encoder _ _ H))); [by apply wt_emit_good|].
  pose proof (wt_emit_good c s Hwc eq_refl H) as [H1 _].
  unfold op. apply wp_bind. unfold wp at 1. erewrite on_stream_runs by reflexivity.
  apply remove_if_closed_end. split; [|apply (with_stream_good id st _ _ H1 Hst); [done|by destruct Hw]].
  eapply wf_but_any, (with_stream_wf None id st); [exact H1|exact Hst|done|by destruct Hw|by right].
Qed.

(** ** Sending stream data *)

Lemma saturating_add_small a b : 0 <= a + b < 2 ^ 64 -> saturating_add a b = a + b.
Proof. unfold saturating_add, USIZE_MAX. lia. Qed.

(** What [send_data] does to a stream that may send. *)
Definition stream_sent (size : Z) (fin : bool) (st : WtStream.t) : WtStream.t :=
  st <| WtStream.send_offset := WtStream.send_offset st + size |>
     <| WtStream.send_state := if fin then SendState.DataRecvd else SendState.Send |>.

Lemma send_data_runs size fin st :
  WtStream.wf st -> 0 <= size <= Varint.MAX_VALUE -> WtStream.can_send st = true ->
  WtStream.send_data size fin st =
    if WtStream.send_offset st + size >? WtStream.send_max st
    then (Err (WtError.flow_control_error "stream send limit exceeded"), st)
    else (Ok tt, stream_sent size fin st).
Proof.
  intros [] Hs Hc. unfold WtStream.send_data, Varint.MAX_VALUE in *. rewrite bind_gets, Hc. cbn [negb].
  rewrite !bind_gets, saturating_add_small by lia.
  destruct (_ >? _); [done|]. by destruct fin.
Qed.

Lemma stream_sent_wf size fin st :
  WtStream.wf st -> 0 <= size -> WtStream.send_offset st + size <= WtStream.send_max st ->
  WtStream.wf (stream_sent size fin st).
Proof. intros [] ??. constructor; cbn; lia. Qed.

Lemma stream_sent_open size st :
  WtStream.is_closed st = false -> WtStream.has_send_part st = true ->
  WtStream.is_closed (stream_sent size false st) = false.
Proof.
  unfold WtStream.is_closed, WtStream.has_send_part. cbn.
  destruct (WtStream.bidirectional st), (WtStream.locally_initiated st); done.
Qed.

Definition flow_sent (size : Z) (f : WtFlowControl.t) : WtFlowControl.t :=
  f <| WtFlowControl.send_offset := WtFlowControl.send_offset f + size |>.

Lemma consume_send_runs size f :
  WtFlowControl.wf f -> 0 <= size <= WtFlowControl.send_available f ->
  WtFlowControl.consume_send size f = (Ok tt, flow_sent size f).
Proof.
  unfold WtFlowControl.send_available, saturating_sub, Varint.MAX_VALUE. intros [] Hs.
  unfold Varint.MAX_VALUE in *. unfold WtFlowControl.consume_send. rewrite !bind_gets, saturating_add_small by lia.
  destruct (Z.gtb_spec (WtFlowControl.send_offset f + size) (WtFlowControl.send_max f)); [lia|done].
Qed.

(** The session behind the capsule of stream data. *)
Definition data_sent (id : Z) (st : WtStream.t) (data : list Z) (fin : bool) (s : t) : t :=
  (with_stream id (stream_sent (len data) fin st) s)
    <| flow_control := flow_sent (len data) (flow_control s) |>
    <| output_buffer := output_buffer s ++ Wire.wire (Capsule.WtStream id data fin) |>.

Lemma data_sent_good id st data fin s :
  wf s -> streams s !! id = Some st -> data_ok data ->
  len data <= WtFlowControl.send_available (flow_control s) ->
  WtStream.send_offset st + len data <= WtStream.send_max st ->
  good_but (if WtStream.is_closed (stream_sent (len data) fin st) then Some id else None) s (data_sent id st data fin s).
Proof.
  intros H Hst [Hb Hl] Ha Hm. pose proof (wf_streams _ _ H id st Hst) as Hok.
  pose proof (len_nonneg data). pose proof (wf_flow _ _ H) as Hf.
  assert (WtFlowControl.wf (flow_sent (len data) (flow_control s))) as Hf'.
  { unfold WtFlowControl.send_available, saturating_sub in Ha. destruct Hf. constructor; cbn; lia. }
  assert (WtFlowControl.grows (flow_control s) (flow_sent (len data) (flow_control s))) as Hg by (constructor; cbn; lia).
  split.
  - pose proof (with_stream_wf None id st (stream_sent (len data) fin st) s H Hst) as W.
    eapply wf_other; [apply W; [done|by apply stream_sent_wf; [apply Hok|..]|by right]|done..|apply H|done|done|done|done].
  - constructor; try done.
    + exists [Capsule.WtStream id data fin]. split_and!.
      * constructor; [|done]. split; [split; [apply Hok|done]|]. cbn [Wire.payload].
        rewrite len_app, Varint.len_octets. pose proof (Varint.encoded_len_bounds id). lia.
      * unfold wires. cbn. by rewrite app_nil_r.
      * cbn. lia.
    + exists []. rewrite app_nil_r. split; [done|cbn; lia].
Qed.

(** All of a successful [send_stream_data]. *)
Lemma send_stream_data_runs id st data fin s :
  wf s -> data_ok data -> is_open s = true -> streams s !! id = Some st ->
  WtStream.can_send st = true -> WtStream.has_send_part st = true ->
  len data <= WtFlowControl.send_available (flow_control s) ->
  WtStream.send_offset st + len data <= WtStream.send_max st ->
  send_stream_data id data fin s =
    (Ok tt, if fin then (remove_if_closed id (data_sent id st data fin s)).2 else data_sent id st data fin s).
Proof.
  intros H Hd Ho Hst Hc Hp Ha Hm. pose proof Hd as [Hb Hl]. pose proof (len_nonneg data).
  pose proof (wf_streams _ _ H id st Hst) as Hok.
  unfold send_stream_data. rewrite bind_gets, Ho. cbn [negb].
  erewrite bind_Ok by (unfold stream_mut; rewrite bind_gets, Hst; reflexivity).
  rewrite Hc, Hp. cbn [negb]. rewrite bind_gets.
  destruct (Z.gtb_spec (len data) (WtFlowControl.send_available (flow_control s))); [lia|].
  erewrite bind_Ok.
  2: { apply on_stream_runs. rewrite send_data_runs by (apply Hok || done || lia).
       destruct (Z.gtb_spec (WtStream.send_offset st + len data) (WtStream.send_max st)); [lia|done]. }
  erewrite bind_Ok.
  2: { unfold on_flow_control, zoom. cbn [flow_control with_stream set_field].
       rewrite consume_send_runs by (apply H || lia). reflexivity. }
  erewrite bind_Ok.
  2: { apply emit_runs; [|apply H]. split; [split; [apply Hok|done]|]. cbn [Wire.payload].
       rewrite len_app, Varint.len_octets. pose proof (Varint.encoded_len_bounds id). lia. }
  change (_ <| output_buffer := _ |>) with (data_sent id st data fin s).
  destruct fin; [|done]. rewrite remove_if_closed_runs. done.
Qed.

Lemma send_stream_data_op id data fin s : wf s -> data_ok data -> op (send_stream_data id data fin) s.
Proof.
  intros H Hd.
  destruct (is_open s) eqn:Ho.
  2: { unfold send_stream_data. apply wt_op_gets. rewrite Ho. by apply (wt_op_throw (A:=unit)). }
  destruct (streams s !! id) as [st|] eqn:Hst.
  2: { unfold send_stream_data. apply wt_op_gets. rewrite Ho. cbn [negb].
       apply wt_op_stream_mut; [done|]. intros st E. congruence. }
  pose proof (wf_streams _ _ H id st Hst) as Hok. pose proof (len_nonneg data).
  destruct (decide (WtStream.can_send st = true /\ WtStream.has_send_part st = true /\
    len data <= WtFlowControl.send_available (flow_control s) /\
    WtStream.send_offset st + len data <= WtStream.send_max st)) as [(Hc & Hp & Ha & Hm)|Hn].
  - unfold op, wp. rewrite (send_stream_data_runs id st) by done.
    pose proof (data_sent_good id st data fin s H Hst Hd Ha Hm) as G.
    destruct fin.
    + eapply wt_good_trans; [exact G|]. apply remove_if_closed_good. eapply wf_but_any, G.
    + by rewrite (stream_sent_open (len data) st (wf_open _ _ H id st Hst ltac:(done)) Hp) in G.
  - unfold send_stream_data. apply wt_op_gets. rewrite Ho. cbn [negb].
    apply wt_op_stream_mut; [done|]. intros st' E. assert (st' = st) as -> by congruence.
    apply wt_op_if; intros Hc; [auto with wt|]. apply wt_op_if; intros Hp; [auto with wt|]. zbool.
    apply wt_op_gets, wt_op_if; intros Ha; [auto with wt|]. rewrite Z.gtb_ltb in Ha. zbool.
    unfold op. apply wp_bind. unfold wp at 1.
    erewrite on_stream_runs.
    2: { rewrite send_data_runs; [|apply Hok|unfold data_ok in Hd; lia|done].
         destruct (Z.gtb_spec (WtStream.send_offset st + len data) (WtStream.send_max st)); [reflexivity|].
         exfalso. apply Hn. split_and!; done || lia. }
    rewrite with_stream_same by done. by apply wt_good_refl.
Qed.
