(* ===== verification/WtSafe.v ===== *)
(** * WtSafe: the other methods of a WebTransport session

    Opening streams and handling capsules keep the invariant of [WtInv] and do
    not panic; the loop that creates a peer's streams ends and opens every
    lower one. *)

From S2P Require Import Prelude Syntax Config Bounded ConnBase.
From S2P Require Import WtVarint WtStream WtCapsule WtCodec WtInit WtSession WtInv.
Import WtSession WtInvariant.

(** ** Stream identifiers *)

Lemma land_low id m : 0 <= m <= 3 -> Z.land id m = Z.land (id mod 4) m.
Proof.
  intros Hm. change 4 with (2 ^ 2). rewrite <- Z.land_ones by lia. rewrite <- Z.land_assoc. f_equal.
  assert (m = 0 \/ m = 1 \/ m = 2 \/ m = 3) as [->|[->|[->| ->]]] by lia; done.
Qed.

(** The type of an identifier is its remainder by four. *)
Lemma id_type client b n :
  let id := StreamId.first client b + 4 * n in
  StreamId.is_bidirectional id = b /\ StreamId.is_unidirectional id = negb b /\
  StreamId.is_client_initiated id = client /\ StreamId.is_server_initiated id = negb client /\
  id mod 4 = StreamId.first client b.
Proof.
  intros id. assert (id mod 4 = StreamId.first client b) as E.
  { subst id. rewrite (Z.mul_comm 4), Z.mod_add by lia. by destruct client, b. }
  unfold StreamId.is_bidirectional, StreamId.is_unidirectional, StreamId.is_client_initiated,
    StreamId.is_server_initiated.
  rewrite (land_low id 1), (land_low id 2), E by lia. by destruct client, b.
Qed.

Lemma id_step id : StreamId.is_bidirectional (id + 4) = StreamId.is_bidirectional id /\
  StreamId.is_client_initiated (id + 4) = StreamId.is_client_initiated id /\
  StreamId.is_server_initiated (id + 4) = StreamId.is_server_initiated id /\
  Z.land (id + 4) 3 = Z.land id 3.
Proof.
  unfold StreamId.is_bidirectional, StreamId.is_client_initiated, StreamId.is_server_initiated.
  rewrite !(land_low (id + 4)), !(land_low id) by lia.
  by replace ((id + 4) mod 4) with (id mod 4) by (rewrite <- (Z.mod_add id 1 4) by lia; f_equal; lia).
Qed.

Lemma first_bounds c b : 0 <= StreamId.first c b <= 3.
Proof. destruct c, b; vm_compute; split; discriminate. Qed.

(** ** Opening a stream *)

Definition opened (b : bool) (s : t) : Z :=
  if b then WtFlowControl.opened_streams_bidi (flow_control s) else WtFlowControl.opened_streams_uni (flow_control s).
Definition next_id (b : bool) (s : t) : Z := if b then next_bidi_stream_id s else next_uni_stream_id s.

(** The session that has opened a stream. *)
Definition with_opened (b : bool) (s : t) : t :=
  let id := next_id b s in
  let st :=
    if b
    then WtStream.new id (WtConfig.initial_max_stream_data_bidi_remote (peer_config s))
           (WtConfig.initial_max_stream_data_bidi_local (config s)) true true
    else WtStream.new id (WtConfig.initial_max_stream_data_uni (peer_config s))
           (WtConfig.initial_max_stream_data_uni (config s)) false true in
  let f := flow_control s in
  if b
  then s <| next_bidi_stream_id := id + 4 |> <| streams := <[id := st]> (streams s) |>
         <| flow_control := f <| WtFlowControl.opened_streams_bidi := WtFlowControl.opened_streams_bidi f + 1 |> |>
  else s <| next_uni_stream_id := id + 4 |> <| streams := <[id := st]> (streams s) |>
         <| flow_control := f <| WtFlowControl.opened_streams_uni := WtFlowControl.opened_streams_uni f + 1 |> |>.

Definition can_open (b : bool) (s : t) : bool :=
  if b then WtFlowControl.can_open_bidi_stream (flow_control s) else WtFlowControl.can_open_uni_stream (flow_control s).

Lemma next_id_facts b s :
  wf s -> can_open b s = true ->
  next_id b s = StreamId.first (bool_decide (role s = Role.Client)) b + 4 * opened b s /\
  0 <= opened b s < 2 ^ 60 /\ Varint.ok (next_id b s).
Proof.
  intros H Hc. pose proof (first_bounds (bool_decide (role s = Role.Client)) b).
  assert (next_id b s = StreamId.first (bool_decide (role s = Role.Client)) b + 4 * opened b s) as E.
  { destruct b; [apply (wf_next_bidi _ _ H)|apply (wf_next_uni _ _ H)]. }
  assert (0 <= opened b s < 2 ^ 60) as Ho.
  { destruct (wf_flow _ _ H). revert Hc. unfold can_open, opened, MAX_STREAMS_LIMIT in *.
    destruct b; intros Hc; apply Z.ltb_lt in Hc; lia. }
  split_and!; [done|lia..|]. unfold Varint.ok, Varint.MAX_VALUE. lia.
Qed.

Definition flow_opened (b : bool) (f : WtFlowControl.t) : WtFlowControl.t :=
  if b then f <| WtFlowControl.opened_streams_bidi := WtFlowControl.opened_streams_bidi f + 1 |>
  else f <| WtFlowControl.opened_streams_uni := WtFlowControl.opened_streams_uni f + 1 |>.

Lemma opened_stream_runs (b : bool) f :
  (if b then WtFlowControl.opened_streams_bidi f else WtFlowControl.opened_streams_uni f) + 1 < 2 ^ 64 ->
  WtFlowControl.opened_stream b f = (Ok tt, flow_opened b f).
Proof.
  intros H. unfold WtFlowControl.opened_stream, succ_u64. destruct b; rewrite bind_gets;
    match goal with |- context [ ?x <? ?y ] => destruct (Z.ltb_spec x y); [done|lia] end.
Qed.

Lemma open_stream_runs b s :
  wf s -> is_open s = true -> can_open b s = true ->
  open_stream b s = (Ok (next_id b s), with_opened b s).
Proof.
  intros H Ho Hc. destruct (next_id_facts b s H Hc) as (_ & Hn & Hv).
  unfold Varint.ok, Varint.MAX_VALUE in Hv.
  unfold open_stream. rewrite bind_gets, Ho. cbn [negb]. rewrite bind_gets.
  unfold can_open in Hc.
  assert (@StreamId.next WtError.t (next_id b s) = Ok (next_id b s + 4)) as En
    by (unfold StreamId.next; destruct (Z.ltb_spec (next_id b s + 4) (2 ^ 64)); [done|lia]).
  assert (forall s', flow_control s' = flow_control s ->
    on_flow_control (WtFlowControl.opened_stream b) s' = (Ok tt, s' <| flow_control := flow_opened b (flow_control s) |>)) as Ef.
  { intros s' E. unfold on_flow_control, zoom. rewrite E, opened_stream_runs; [done|].
    unfold opened in Hn. destruct b; lia. }
  destruct b; cbn [negb andb next_id] in *; rewrite Hc; cbn [negb];
    rewrite bind_assoc, bind_gets, En, bind_assoc, bind_lift_Ok, bind_assoc, bind_modify, bind_ret, bind_gets, bind_modify;
    erewrite bind_Ok by (by apply Ef); reflexivity.
Qed.

Lemma new_stream_ok s s' id st :
  role s' = role s -> WtStream.id st = id -> Varint.ok id -> WtStream.wf st ->
  WtStream.bidirectional st = StreamId.is_bidirectional id ->
  WtStream.locally_initiated st = negb (is_peer_initiated id s) ->
  is_uncreated_local_id id s' = false ->
  (is_peer_initiated id s = true -> WtFlowControl.can_accept_stream id (flow_control s') = true) ->
  has_closed id s' = false -> stream_ok s' id st.
Proof. intros Er. rewrite <- (is_peer_role id s s') by done. by constructor. Qed.

Lemma with_opened_good b s :
  wf s -> can_open b s = true -> good s (with_opened b s).
Proof.
  intros H Hc. destruct (next_id_facts b s H Hc) as (En & Hn & Hv).
  destruct (id_type (bool_decide (role s = Role.Client)) b (opened b s)) as (Tb & _ & Tc & Ts & _).
  rewrite <- En in Tb, Tc, Ts.
  assert (is_peer_initiated (next_id b s) s = false) as Hp.
  { unfold is_peer_initiated. destruct (role s) eqn:Er; cbn in Tc, Ts; [exact Ts|exact Tc]. }
  assert (is_uncreated_local_id (next_id b s) s = true) as Hu.
  { unfold is_uncreated_local_id. rewrite Hp, Tb. destruct b; cbn; apply Z.geb_le; lia. }
  assert (has_closed (next_id b s) s = false) as Hf.
  { destruct (has_closed (next_id b s) s) eqn:E; [|done]. apply (wf_closed _ _ H) in E. congruence. }
  assert (keeps s (with_opened b s)) as K by (destruct b; constructor; cbn; done || lia).
  assert (WtFlowControl.wf (flow_control (with_opened b s)) /\
    WtFlowControl.grows (flow_control s) (flow_control (with_opened b s))) as [Hfl Hg].
  { unfold can_open in Hc. destruct (wf_flow _ _ H). unfold WtFlowControl.can_open_bidi_stream, WtFlowControl.can_open_uni_stream in Hc.
    destruct b; apply Z.ltb_lt in Hc; split; constructor; cbn; lia. }
  apply wt_quiet; [|destruct b; try done; cbn; lia..].
  pose proof (wf_config _ _ H) as []. pose proof (wf_peer _ _ H) as [].
  assert (is_uncreated_local_id (next_id b s) (with_opened b s) = false) as Hu'.
  { unfold is_uncreated_local_id. rewrite (is_peer_role _ s) by apply K. rewrite Hp, Tb.
    destruct b; cbn; rewrite Z.geb_leb; lia. }
  unfold Varint.ok in *. constructor; try (by destruct b, H); try done.
  - intros id st. intros Hst.
    assert (id = next_id b s /\ stream_ok (with_opened b s) id st \/ streams s !! id = Some st) as [[_ ?]|Hold]; [|done|].
    + destruct b; cbn [next_id] in *; cbn in Hst; apply lookup_insert_Some in Hst as [[<- <-]|[_ ?]]; [left|by right|left|by right];
        (split; [done|]); (apply (new_stream_ok s); cbn; try done;
          [constructor; cbn; lia|by rewrite Hp|by rewrite Hp]).
    + pose proof (wf_streams _ _ H id st Hold) as Hok. apply (stream_ok_keeps s); [done| |done].
      unfold has_closed. destruct b; apply Hok.
  - intros id Hcl. eapply is_uncreated_mono; [apply K..|]. apply (wf_closed _ _ H). by destruct b.
  - intros id st Hst _. destruct b; cbn in Hst; apply lookup_insert_Some in Hst as [[<- <-]|[_ ?]]; try done;
      by apply (wf_open _ _ H id st).
  - destruct b; cbn; rewrite (wf_next_bidi _ _ H); lia.
  - destruct b; cbn; rewrite (wf_next_uni _ _ H); lia.
Qed.

Lemma open_stream_op b s : wf s -> op (open_stream b) s.
Proof.
  intros H. destruct (is_open s) eqn:Ho.
  2: { unfold open_stream. apply wt_op_gets. rewrite Ho. by apply (wt_op_throw (A:=Z)). }
  destruct (can_open b s) eqn:Hc.
  - unfold op, wp. rewrite open_stream_runs by done. by apply with_opened_good.
  - unfold open_stream. apply wt_op_gets. rewrite Ho. cbn [negb]. apply wt_op_gets.
    unfold can_open in Hc. destruct b; cbn [andb negb]; rewrite Hc; by apply (wt_op_throw (A:=Z)).
Qed.

(** ** Creating the peer's streams *)

(** The session that has created one stream of the peer. *)
Definition created (b : bool) (s : t) (id : Z) : t :=
  let st := WtStream.new id (initial_send_max_for_peer_stream b s)
    (if b then WtConfig.initial_max_stream_data_bidi_remote (config s)
     else WtConfig.initial_max_stream_data_uni (config s)) b false in
  s <| streams := <[id := st]> (streams s) |> <| events := events s ++ [WtEvent.StreamOpened id b] |>.

Definition known (id : Z) (s : t) : bool := has_stream id s || has_closed id s.

Definition create_all (b : bool) (ids : list Z) (s : t) : t :=
  fold_left (fun s id => if known id s then s else created b s id) ids s.

(** The identifiers from one on, of its type. *)
Fixpoint ids_from (id : Z) (n : nat) : list Z :=
  match n with O => [] | S n => id :: ids_from (id + 4) n end.

Lemma create_loop_runs n fuel id b s :
  (n < fuel)%nat -> id + 4 * Z.of_nat n < 2 ^ 64 ->
  create_loop fuel id (id + 4 * Z.of_nat n - 4) b s = (Ok tt, create_all b (ids_from id n) s).
Proof.
  revert fuel id s. induction n as [|n IH]; intros [|fuel] id s Hf Hl; try lia; cbn [create_loop].
  - destruct (Z.leb_spec id (id + 4 * Z.of_nat 0 - 4)); [lia|done].
  - destruct (Z.leb_spec id (id + 4 * Z.of_nat (S n) - 4)); [|lia]. rewrite bind_gets.
    replace (id + 4 * Z.of_nat (S n) - 4) with ((id + 4) + 4 * Z.of_nat n - 4) by lia.
    assert ((if negb (has_stream id s || has_closed id s) then create_peer_stream id b else ret tt) s
            = (Ok tt, if known id s then s else created b s id)) as E.
    { unfold known. by destruct (_ || _). }
    rewrite (bind_Ok _ _ _ _ _ E). unfold StreamId.next.
    destruct (Z.ltb_spec (id + 4) (2 ^ 64)); [|lia]. rewrite bind_lift_Ok, IH by lia. done.
Qed.

(** What [create_all] may create. *)
Definition creatable (b : bool) (s : t) (id : Z) : Prop :=
  Varint.ok id /\ is_peer_initiated id s = true /\ StreamId.is_bidirectional id = b /\
  WtFlowControl.can_accept_stream id (flow_control s) = true.

Lemma created_good b s id :
  wf s -> known id s = false -> creatable b s id -> good s (created b s id).
Proof.
  intros H [Hk Hc]%orb_false_iff (Hv & Hp & Hb & Ha).
  pose proof (wf_config _ _ H) as []. pose proof (wf_peer _ _ H) as []. unfold Varint.ok in *.
  split.
  - destruct H. constructor; try done.
    + cbn. intros id' st [[<- <-]|[_ Hst]]%lookup_insert_Some.
      * apply (new_stream_ok s); cbn; try done; [|by rewrite Hp|].
        -- unfold initial_send_max_for_peer_stream. destruct b; constructor; cbn; lia.
        -- unfold is_uncreated_local_id. rewrite (is_peer_role _ s) by done. by rewrite Hp.
      * destruct (wf_streams0 id' st Hst). by constructor.
    + cbn. intros id' st [[<- <-]|[_ Hst]]%lookup_insert_Some _; [by destruct b|by apply (wf_open0 id' st)].
  - constructor; try done; try apply grows_refl.
    + exists []. rewrite app_nil_r. split_and!; [done..|cbn; lia].
    + exists [WtEvent.StreamOpened id b]. split; [done|cbn; lia].
Qed.

Lemma create_all_step b id s :
  let s' := if known id s then s else created b s id in
  flow_control s' = flow_control s /\ role s' = role s /\ state s' = state s /\
  closed_stream_send_max s' = closed_stream_send_max s /\
  stop_sending_received_ids s' = stop_sending_received_ids s /\
  (forall j st, streams s !! j = Some st -> streams s' !! j = Some st) /\ known id s' = true.
Proof.
  cbn. destruct (known id s) eqn:E; [done|]. split_and!; try done.
  - intros j st Hj. cbn. rewrite lookup_insert_ne; [done|]. intros ->.
    unfold known, has_stream in E. rewrite Hj in E. done.
  - unfold known, has_stream. cbn. by rewrite lookup_insert_eq.
Qed.

Lemma known_keeps s s' id :
  closed_stream_send_max s' = closed_stream_send_max s ->
  (forall j st, streams s !! j = Some st -> streams s' !! j = Some st) -> known id s = true -> known id s' = true.
Proof.
  unfold known, has_stream, has_closed. intros -> Hs [H|H]%orb_true_iff; [|by rewrite H, orb_true_r].
  apply bool_decide_eq_true in H as [st Hst]. rewrite (Hs id st Hst). done.
Qed.

Lemma create_all_spec b ids s :
  let s' := create_all b ids s in
  flow_control s' = flow_control s /\ role s' = role s /\ state s' = state s /\
  closed_stream_send_max s' = closed_stream_send_max s /\
  stop_sending_received_ids s' = stop_sending_received_ids s /\
  (forall j st, streams s !! j = Some st -> streams s' !! j = Some st) /\
  Forall (fun id => known id s' = true) ids.
Proof.
  revert s. induction ids as [|id ids IH]; intros s; [done|]. cbn [create_all fold_left].
  destruct (create_all_step b id s) as (E1 & E2 & E3 & E4 & E5 & E6 & E7).
  set (s1 := if known id s then s else created b s id) in *.
  destruct (IH s1) as (F1 & F2 & F3 & F4 & F5 & F6 & F7). unfold create_all in *.
  split_and!; try congruence; [auto|]. constructor; [|done]. by apply (known_keeps s1).
Qed.

Lemma create_all_good b ids s :
  wf s -> Forall (creatable b s) ids -> good s (create_all b ids s).
Proof.
  revert s. induction ids as [|id ids IH]; intros s H Hids; cbn [create_all fold_left]; [by apply wt_good_refl|].
  apply Forall_cons in Hids as [Hid Hids].
  assert (good s (if known id s then s else created b s id)) as G.
  { destruct (known id s) eqn:E; [by apply wt_good_refl|by apply created_good]. }
  destruct (create_all_step b id s) as (E1 & E2 & _).
  eapply wt_good_trans; [exact G|]. apply IH; [apply G|].
  eapply Forall_impl; [exact Hids|]. intros j (Hv & Hp & Hb & Ha).
  split_and!; [done|by rewrite (is_peer_role _ s)|done|by rewrite E1].
Qed.

(** Every identifier of a type up to one is of the type and as acceptable. *)
Lemma ids_creatable b s sid n id :
  creatable b s sid -> 0 <= id -> id mod 4 = sid mod 4 -> id + 4 * Z.of_nat n - 4 <= sid ->
  Forall (creatable b s) (ids_from id n).
Proof.
  intros (Hv & Hp & Hb & Ha). revert id. induction n as [|n IH]; intros id H0 Hm Hl; [constructor|].
  cbn [ids_from]. constructor.
  - unfold creatable, Varint.ok in *.
    assert (forall m, 0 <= m <= 3 -> Z.land id m = Z.land sid m) as E by (intros m Hm'; by rewrite (land_low id m), (land_low sid m), Hm by lia).
    split_and!; [lia|lia| | |].
    + revert Hp. unfold is_peer_initiated, StreamId.is_server_initiated, StreamId.is_client_initiated.
      by rewrite !(E 1) by lia.
    + revert Hb. unfold StreamId.is_bidirectional. by rewrite (E 2) by lia.
    + revert Ha. unfold WtFlowControl.can_accept_stream. rewrite (E 2), (E 3) by lia. rewrite !Z.ltb_lt. lia.
  - apply IH; [lia|rewrite <- Hm; rewrite <- (Z.mod_add id 1 4) by lia; f_equal; lia|lia].
Qed.

Lemma ids_from_last id n : (0 < n)%nat -> id + 4 * Z.of_nat n - 4 ∈ ids_from id n.
Proof.
  revert id. induction n as [|n IH]; intros id Hn; [lia|]. cbn [ids_from]. destruct n as [|n].
  - replace (id + 4 * Z.of_nat 1 - 4) with id by lia. apply list_elem_of_here.
  - apply list_elem_of_further. replace (id + 4 * Z.of_nat (S (S n)) - 4) with ((id + 4) + 4 * Z.of_nat (S n) - 4) by lia.
    apply IH. lia.
Qed.

(** The peer's streams up to an identifier. *)
Definition lower_ids (sid : Z) : list Z := ids_from (sid mod 4) (Z.to_nat (sid / 4 + 1)).

Lemma create_up_to_runs b sid s :
  creatable b s sid -> create_peer_streams_up_to sid b s = (Ok tt, create_all b (lower_ids sid) s).
Proof.
  intros Hc. pose proof Hc as ([Hv0 Hv] & Hp & Hb & Ha). unfold Varint.MAX_VALUE in Hv.
  unfold create_peer_streams_up_to. rewrite bind_gets, Hp. cbn [negb]. rewrite bind_gets, Ha. cbn [negb].
  change 3 with (Z.ones 2). rewrite Z.land_ones by lia. change (2 ^ 2) with 4.
  pose proof (Z.div_mod sid 4 ltac:(lia)) as D. pose proof (Z.mod_pos_bound sid 4 ltac:(lia)).
  pose proof (Z.div_pos sid 4 ltac:(lia) ltac:(lia)).
  set (n := Z.to_nat (sid / 4 + 1)).
  replace sid with (sid mod 4 + 4 * Z.of_nat n - 4) at 3 by (subst n; lia).
  unfold lower_ids. apply create_loop_runs; unfold create_fuel; subst n; lia.
Qed.

Lemma lower_ids_creatable b s sid : creatable b s sid -> Forall (creatable b s) (lower_ids sid) /\ sid ∈ lower_ids sid.
Proof.
  intros Hc. pose proof Hc as ([Hv0 Hv] & _). pose proof (Z.div_mod sid 4 ltac:(lia)) as D.
  pose proof (Z.mod_pos_bound sid 4 ltac:(lia)). pose proof (Z.div_pos sid 4 ltac:(lia) ltac:(lia)).
  unfold lower_ids. split.
  - apply (ids_creatable b s sid); [done|lia|by rewrite Z.mod_mod by lia|lia].
  - set (n := Z.to_nat (sid / 4 + 1)). replace sid with (sid mod 4 + 4 * Z.of_nat n - 4) at 1 by (subst n; lia).
    apply ids_from_last. lia.
Qed.

Lemma create_up_to_op b sid s :
  wf s -> Varint.ok sid -> is_peer_initiated sid s = true -> StreamId.is_bidirectional sid = b ->
  wp (create_peer_streams_up_to sid b)
    (fun _ s' => good s s' /\ s' = create_all b (lower_ids sid) s /\ creatable b s sid)
    (good s) s.
Proof.
  intros H Hv Hp Hb. destruct (WtFlowControl.can_accept_stream sid (flow_control s)) eqn:Ha.
  - assert (creatable b s sid) as Hc by done. unfold wp. rewrite create_up_to_runs by done.
    split_and!; [|done..]. apply create_all_good; [done|]. by apply lower_ids_creatable.
  - unfold create_peer_streams_up_to. apply wp_gets. rewrite Hp. cbn [negb]. apply wp_gets. rewrite Ha.
    by apply wt_good_refl.
Qed.

(** A created identifier is a stream, unless it was closed. *)
Lemma create_all_has b sid s :
  creatable b s sid -> has_closed sid s = false ->
  exists st, streams (create_all b (lower_ids sid) s) !! sid = Some st.
Proof.
  intros Hc Hn. destruct (lower_ids_creatable b s sid Hc) as [_ Hin].
  destruct (create_all_spec b (lower_ids sid) s) as (_ & _ & _ & E & _ & _ & Hall).
  rewrite Forall_forall in Hall. apply Hall in Hin. unfold known in Hin.
  replace (has_closed sid (create_all b (lower_ids sid) s)) with false in Hin
    by (symmetry; unfold has_closed in *; by rewrite E).
  rewrite orb_false_r in Hin. by apply bool_decide_eq_true in Hin.
Qed.

(** ** Handling a capsule *)

(** What stream data does to a stream. *)
Definition stream_received (size : Z) (fin : bool) (st : WtStream.t) : WtStream.t :=
  let st := st <| WtStream.recv_offset := WtStream.recv_offset st + size |> in
  let st := if fin then st <| WtStream.recv_state := RecvState.DataRecvd |> else st in
  if negb (size =? 0) then WtStream.set_has_received_data st else st.

Definition receive_on_stream (size : Z) (fin : bool) : ST WtStream.t WtError.t unit :=
  WtStream.recv_data size fin ;!
  if negb (size =? 0) then modify WtStream.set_has_received_data else ret tt.

Lemma receive_on_stream_runs size fin st :
  WtStream.wf st -> 0 <= size <= Varint.MAX_VALUE ->
  receive_on_stream size fin st =
    if WtStream.can_recv st then
      if WtStream.recv_offset st + size >? WtStream.recv_max st
      then (Err (WtError.flow_control_error "stream recv limit exceeded"), st)
      else (Ok tt, stream_received size fin st)
    else (Err (WtError.stream_state_error "cannot receive in current state"), st).
Proof.
  intros [] Hs. unfold receive_on_stream, WtStream.recv_data, Varint.MAX_VALUE in *.
  rewrite bind_assoc, bind_gets. destruct (WtStream.can_recv st); [|done]. cbn [negb].
  rewrite bind_assoc, bind_gets, saturating_add_small, bind_assoc, bind_gets by lia.
  destruct (_ >? _); [done|]. rewrite bind_assoc, bind_modify. unfold stream_received.
  by destruct fin, (size =? 0).
Qed.

Lemma stream_received_same size fin st : same_stream st (stream_received size fin st).
Proof. unfold stream_received. by destruct fin, (size =? 0). Qed.

Lemma stream_received_wf size fin st :
  WtStream.wf st -> 0 <= size -> WtStream.recv_offset st + size <= WtStream.recv_max st ->
  WtStream.wf (stream_received size fin st).
Proof. intros [] ??. unfold stream_received. destruct fin, (size =? 0); constructor; cbn; lia. Qed.

(** A stream that can receive is not finished by data: the application has yet
    to read it. *)
Lemma stream_received_open size fin st :
  WtStream.can_recv st = true -> WtStream.is_closed st = false ->
  WtStream.is_closed (stream_received size fin st) = false.
Proof.
  unfold WtStream.can_recv, WtStream.is_closed, stream_received.
  destruct (WtStream.recv_state st) eqn:E, fin, (size =? 0); cbn; rewrite ?E; try done;
    destruct (WtStream.bidirectional st), (WtStream.locally_initiated st); cbn; try done; by rewrite !andb_false_r.
Qed.

Definition flow_received (size : Z) (f : WtFlowControl.t) : WtFlowControl.t :=
  f <| WtFlowControl.recv_offset := WtFlowControl.recv_offset f + size |>.

Lemma consume_recv_runs size f :
  WtFlowControl.wf f -> 0 <= size <= Varint.MAX_VALUE ->
  WtFlowControl.consume_recv size f =
    if WtFlowControl.recv_offset f + size >? WtFlowControl.recv_max f
    then (Err (WtError.flow_control_error "recv window exceeded"), f)
    else (Ok tt, flow_received size f).
Proof.
  intros [] Hs. unfold Varint.MAX_VALUE in *. unfold WtFlowControl.consume_recv.
  rewrite !bind_gets, saturating_add_small by lia. by destruct (_ >? _).
Qed.

(** The session behind the event of stream data. *)
Definition data_received (id : Z) (st : WtStream.t) (data : list Z) (fin : bool) (s : t) : t :=
  (with_stream id (stream_received (len data) fin st) s)
    <| flow_control := flow_received (len data) (flow_control s) |>
    <| events := events s ++ [WtEvent.StreamData id data fin] |>.

(** The part of [handle_stream_data] behind the lookup of the stream. *)
Definition deliver_data (id : Z) (data : list Z) (fin : bool) (st : WtStream.t) : M unit :=
  on_stream id st (receive_on_stream (len data) fin) ;!
  on_flow_control (WtFlowControl.consume_recv (len data)) ;!
  push_event (WtEvent.StreamData id data fin).

Lemma data_received_good id st data fin s :
  wf s -> streams s !! id = Some st -> WtStream.can_recv st = true ->
  WtStream.recv_offset st + len data <= WtStream.recv_max st ->
  WtFlowControl.recv_offset (flow_control s) + len data <= WtFlowControl.recv_max (flow_control s) ->
  good s (data_received id st data fin s).
Proof.
  intros H Hst Hc Hm Hf. pose proof (wf_streams _ _ H id st Hst) as Hok. pose proof (len_nonneg data).
  pose proof (wf_flow _ _ H) as Hfw.
  pose proof (with_stream_good id st (stream_received (len data) fin st) s H Hst (stream_received_same _ _ _)
    (stream_received_wf _ _ _ (so_wf _ _ _ Hok) (len_nonneg _) Hm)) as [W _].
  rewrite stream_received_open in W by (done || by apply (wf_open _ _ H id st)).
  split.
  - eapply wf_other; [exact W|try done; try apply H..]; destruct Hfw; constructor; cbn; lia.
  - constructor; try done.
    + constructor; cbn; lia.
    + exists []. rewrite app_nil_r. split_and!; [done..|cbn; lia].
    + exists [WtEvent.StreamData id data fin]. split; [done|cbn; lia].
Qed.

Lemma deliver_data_op id data fin st s :
  wf s -> len data <= Varint.MAX_VALUE -> streams s !! id = Some st -> op (deliver_data id data fin st) s.
Proof.
  intros H Hl Hst. pose proof (wf_streams _ _ H id st Hst) as Hok. pose proof (len_nonneg data).
  unfold op, deliver_data. apply wp_bind. unfold wp at 1.
  destruct (WtStream.can_recv st) eqn:Hc.
  2: { erewrite on_stream_runs by (rewrite receive_on_stream_runs, Hc by (apply Hok || lia); reflexivity).
       rewrite with_stream_same by done. by apply wt_good_refl. }
  destruct (Z.gtb_spec (WtStream.recv_offset st + len data) (WtStream.recv_max st)) as [Hm|Hm].
  { erewrite on_stream_runs.
    2: { rewrite receive_on_stream_runs, Hc by (apply Hok || lia).
         destruct (Z.gtb_spec (WtStream.recv_offset st + len data) (WtStream.recv_max st)); [reflexivity|lia]. }
    rewrite with_stream_same by done. by apply wt_good_refl. }
  erewrite on_stream_runs.
  2: { rewrite receive_on_stream_runs, Hc by (apply Hok || lia).
       destruct (Z.gtb_spec (WtStream.recv_offset st + len data) (WtStream.recv_max st)); [lia|reflexivity]. }
  pose proof (with_stream_good id st (stream_received (len data) fin st) s H Hst (stream_received_same _ _ _)
    (stream_received_wf _ _ _ (so_wf _ _ _ Hok) (len_nonneg _) Hm)) as W.
  rewrite stream_received_open in W by (done || by apply (wf_open _ _ H id st)).
  apply wp_bind. unfold wp at 1, on_flow_control, zoom. cbn [flow_control with_stream set_field].
  rewrite consume_recv_runs by (apply H || lia).
  destruct (Z.gtb_spec (WtFlowControl.recv_offset (flow_control s) + len data) (WtFlowControl.recv_max (flow_control s))).
  - destruct s. exact W.
  - by apply (data_received_good id st data fin s).
Qed.

Lemma handle_stream_data_op id data fin s :
  wf s -> Varint.ok id -> len data <= Varint.MAX_VALUE -> op (handle_stream_data id data fin) s.
Proof.
  intros H Hv Hl. unfold handle_stream_data. apply wt_op_gets, wt_op_if; intros Hc; [auto with wt|].
  do 3 apply wt_op_gets. apply wt_op_if; intros _; [auto with wt|].
  assert (forall s', wf s' -> (exists st, streams s' !! id = Some st) ->
    op (let! o := gets (fun s => streams s !! id) in
        match o with None => panic | Some stream => deliver_data id data fin stream end) s') as K.
  { intros s' H' [st Hst]. apply wt_op_gets. rewrite Hst. by apply deliver_data_op. }
  destruct (has_stream id s) eqn:Hh; cbn [negb].
  - apply (wt_op_seq_with (fun _ s' => s' = s)).
    + destruct (negb (StreamId.is_bidirectional id) && _); [by apply wt_good_refl|].
      split; [by apply wt_good_refl|done].
    + intros _ s' [Hs' _] ->. apply K; [done|]. by apply bool_decide_eq_true in Hh.
  - destruct (is_peer_initiated id s) eqn:Hp; cbn [negb].
    + eapply wp_seq; [by apply create_up_to_op| |done]. intros _ s' (G & -> & Hcr).
      apply wt_op_after; [done|]. apply K; [apply G|]. by apply create_all_has.
    + by apply wt_good_refl.
Qed.

Lemma handle_reset_stream_op id code size s : wf s -> op (handle_reset_stream id code size) s.
Proof.
  intros H. unfold handle_reset_stream. apply wt_op_stream_mut; [done|]. intros st Hst.
  pose proof (so_wf _ _ _ (wf_streams _ _ H id st Hst)) as Hw.
  apply wt_op_if; intros _; [auto with wt|]. apply wt_op_if; intros _; [auto with wt|].
  unfold op. apply wp_bind. unfold wp at 1. erewrite on_stream_runs by reflexivity.
  set (st' := WtStream.recv_reset st).
  assert (WtStream.wf st') as Hw' by by destruct Hw.
  pose proof (with_stream_good id st st' s H Hst ltac:(done) Hw') as [W E].
  apply wp_bind. unfold wp at 1. cbn [push_event modify].
  apply remove_if_closed_end. split.
  - apply wf_but_any in W. eapply wf_other; [exact W|try done; try apply H; apply grows_refl..].
  - eapply wt_evolves_trans; [exact E|]. constructor; try done; try apply grows_refl.
    + exists []. rewrite app_nil_r. split_and!; [done..|cbn; lia].
    + exists [WtEvent.StreamReset id code]. split; [done|cbn; lia].
Qed.

Lemma create_implicit_op id s : wf s -> Varint.ok id -> op (create_implicit_peer_bidi_stream id) s.
Proof.
  intros H Hv. unfold create_implicit_peer_bidi_stream. apply wt_op_gets.
  destruct (will_create_implicit_peer_bidi_stream id s) eqn:E; cbn [negb]; [|auto with wt].
  unfold will_create_implicit_peer_bidi_stream in E. rewrite !andb_true_iff in E. destruct E as [[[Hp Hb] _] _].
  eapply wp_mono; [by apply create_up_to_op| |done]. by intros _ s' [? _].
Qed.

(** A change of a stream's record that leaves it open. *)
Lemma update_stream_op {A} (f : WtStream.t -> WtStream.t) id st (k : unit -> M A) s :
  wf s -> streams s !! id = Some st -> same_stream st (f st) -> WtStream.wf (f st) ->
  WtStream.is_closed (f st) = false ->
  (forall s', good s s' -> op (k tt) s') -> op (bind (on_stream id st (modify f)) k) s.
Proof.
  intros H Hst He Hw Hc Hk. eapply wt_op_runs; [by apply on_stream_runs| |].
  - pose proof (with_stream_good id st (f st) s H Hst He Hw) as G. by rewrite Hc in G.
  - apply Hk. pose proof (with_stream_good id st (f st) s H Hst He Hw) as G. by rewrite Hc in G.
Qed.

Lemma wt_op_attempt {B} (m : M unit) (k : result WtError.t unit -> M B) s :
  op m s -> (forall r s', good s s' -> op (k r) s') -> op (bind (attempt m) k) s.
Proof.
  intros Hm Hk. apply wp_attempt. eapply wp_mono; [exact Hm| |].
  - cbn. intros a s' Hs. by apply wt_op_after, Hk.
  - cbn. intros s' Hs e. by apply wt_op_after, Hk.
Qed.

Lemma handle_stop_sending_op id code s : wf s -> Varint.ok id -> 0 <= code -> op (handle_stop_sending id code) s.
Proof.
  intros H Hv Hc. unfold handle_stop_sending. do 3 (apply wt_op_gets, wt_op_if; intros _; [auto with wt|]).
  apply wt_op_seq; [by apply create_implicit_op|]. intros _ s1 [H1 _].
  assert (forall b s', wf s' -> op (
    modify (fun s => s <| stop_sending_received_ids := BoundedSet.insert id (stop_sending_received_ids s) |>) ;!
    (if b : bool then attempt (reset_stream id code) ;! ret tt else ret tt) ;!
    push_event (WtEvent.StopSending id code)) s') as K.
  { intros b s' H'. apply wt_op_seq.
    - apply wt_quiet; try done; try apply grows_refl.
      eapply wf_other; [exact H'|try done; try apply H'; apply grows_refl..].
    - intros _ s2 [H2 _]. apply wt_op_seq; [|intros _ s3 [H3 _]; by apply wt_push_event_op].
      destruct b; [|auto with wt]. apply wt_op_attempt; [by apply reset_stream_op|].
      intros _ s3 [H3 _]. auto with wt. }
  apply wt_op_gets. destruct (streams s1 !! id) as [st|] eqn:Hst.
  - apply (update_stream_op WtStream.set_stop_sending_received id st); try done.
    + by destruct (so_wf _ _ _ (wf_streams _ _ H1 id st Hst)).
    + by apply (wf_open _ _ H1 id st Hst).
    + intros s2 [H2 _]. by apply (K (WtStream.can_send st)).
  - apply wt_op_seq; [auto with wt|]. intros _ s2 [H2 _]. by apply (K false).
Qed.

(** Recording another limit of a stream that is closed already. *)
Lemma insert_closed_op id v last s :
  wf s -> has_stream id s = false -> BoundedMap.get id (closed_stream_send_max s) = Some last ->
  op (modify (fun s => s <| closed_stream_send_max := BoundedMap.insert id v (closed_stream_send_max s) |>)) s.
Proof.
  intros H Hh Hg. assert (has_closed id s = true) as Hc by (unfold has_closed, BoundedMap.contains; by rewrite Hg).
  apply wt_quiet; try done; try apply grows_refl. destruct H. constructor; try done.
  - intros id' st Hst. destruct (wf_streams0 id' st Hst). constructor; try done.
    unfold has_closed in *. cbn. destruct (BoundedMap.contains id' (BoundedMap.insert _ _ _)) eqn:E; [|done].
    apply map_contains_insert in E as [->|E]; [|congruence].
    cbn in Hst. unfold has_stream in Hh. by rewrite Hst in Hh.
  - intros id' [->|E]%map_contains_insert; [by apply wf_closed0|by apply wf_closed0].
Qed.

Lemma handle_max_stream_data_op id max s :
  wf s -> Varint.ok id -> op (handle_max_stream_data id max) s.
Proof.
  intros H Hv. unfold handle_max_stream_data. do 4 (apply wt_op_gets, wt_op_if; intros _; [auto with wt|]).
  do 2 apply wt_op_gets.
  assert (op (create_implicit_peer_bidi_stream id ;!
              let! o := gets (fun s => streams s !! id) in
              match o with Some stream => on_stream id stream (WtStream.update_send_max max) | None => ret tt end) s) as K.
  { apply wt_op_seq; [by apply create_implicit_op|]. intros _ s1 [H1 _]. apply wt_op_gets.
    destruct (streams s1 !! id) as [st|] eqn:Hst; [|auto with wt].
    pose proof (so_wf _ _ _ (wf_streams _ _ H1 id st Hst)) as []. unfold op, wp.
    destruct (decide (max <= Varint.MAX_VALUE /\ WtStream.send_max st < max)) as [[Hm Hg]|Hn].
    - erewrite on_stream_runs.
      2: { unfold WtStream.update_send_max. destruct (Z.gtb_spec max Varint.MAX_VALUE); [lia|].
           rewrite bind_gets. destruct (Z.leb_spec max (WtStream.send_max st)); [lia|reflexivity]. }
      pose proof (with_stream_good id st (st <| WtStream.send_max := max |>) s1 H1 Hst) as G.
      replace (WtStream.is_closed (st <| WtStream.send_max := max |>)) with false in G
        by (symmetry; by apply (wf_open _ _ H1 id st Hst)).
      apply G; [done|]. constructor; cbn; lia.
    - assert (exists e, WtStream.update_send_max max st = (Err e, st)) as [e E].
      { unfold WtStream.update_send_max. destruct (Z.gtb_spec max Varint.MAX_VALUE); [by eexists|].
        rewrite bind_gets. destruct (Z.leb_spec max (WtStream.send_max st)); [by eexists|lia]. }
      rewrite (on_stream_runs _ _ _ _ _ _ E), with_stream_same by done. by apply wt_good_refl. }
  destruct (has_stream id s) eqn:Hh; [exact K|].
  destruct (BoundedMap.get id (closed_stream_send_max s)) as [last|] eqn:Hg; [|exact K].
  apply wt_op_if; intros _; [auto with wt|]. by eapply insert_closed_op.
Qed.

Lemma handle_blocked_op id s : wf s -> op (handle_stream_data_blocked id) s.
Proof.
  intros H. unfold handle_stream_data_blocked. apply wt_op_stream_mut; [done|]. intros st _.
  apply wt_op_if; intros _; auto with wt.
Qed.

Lemma update_send_max_op max s : wf s -> op (on_flow_control (WtFlowControl.update_send_max max)) s.
Proof.
  intros H. apply flow_op; [done|]. unfold WtFlowControl.update_send_max.
  destruct (Z.gtb_spec max Varint.MAX_VALUE); [done|]. apply wp_gets.
  destruct (Z.leb_spec max (WtFlowControl.send_max (flow_control s))); [done|].
  pose proof (wf_flow _ _ H) as []. split_and!; try done; constructor; cbn; lia.
Qed.

Lemma update_max_streams_op max b s : wf s -> op (on_flow_control (WtFlowControl.update_max_streams max b)) s.
Proof.
  intros H. apply flow_op; [done|]. unfold WtFlowControl.update_max_streams. apply wp_gets.
  unfold WtFlowControl.check_max_streams_increase. destruct (Z.gtb_spec max MAX_STREAMS_LIMIT); [done|].
  match goal with |- context [ max <=? ?x ] => destruct (Z.leb_spec max x); [done|] end.
  apply wp_lift_ok. pose proof (wf_flow _ _ H) as [].
  destruct b; split_and!; try done; constructor; cbn; lia.
Qed.

(** Every capsule that a decoder returns is handled without a panic. *)
Lemma handle_capsule_op c s : wf s -> Wire.wf c -> op (handle_capsule c) s.
Proof.
  intros H [Hc Hl]. unfold handle_capsule. apply wt_op_gets, wt_op_if; intros _; [auto with wt|].
  destruct c; cbn [Wire.fields_ok Wire.payload] in *; destruct_and?; try by auto with wt.
  - by apply wt_push_event_op.
  - by apply handle_reset_stream_op.
  - by apply handle_stop_sending_op.
  - apply handle_stream_data_op; [done..|]. rewrite len_app in Hl. pose proof (len_nonneg (Varint.octets stream_id)). lia.
  - by apply update_send_max_op.
  - by apply handle_max_stream_data_op.
  - by apply update_max_streams_op.
  - by apply handle_blocked_op.
  - apply wt_op_if; intros _; auto with wt.
  - apply wt_op_seq; [by apply set_state_op|]. intros _ s' [H' _]. by apply wt_push_event_op.
  - apply wt_op_if; intros _; [|auto with wt].
    apply wt_op_seq; [by apply set_state_op|]. intros _ s' [H' _]. by apply wt_push_event_op.
Qed.
