(* ===== verification/WtLoop.v ===== *)
(** * WtLoop: the processing loop of a WebTransport session

    The handlers of capsules neither read nor change the capsule decoder, so
    processing is handling the capsules the decoder yields, one after the
    other; it ends, does not panic, and does not depend on how the octets were
    cut. *)

From S2P Require Import Prelude Syntax Config Bounded ConnBase.
From S2P Require Import WtVarint WtStream WtCapsule WtCodec WtInit WtSession WtInv WtSafe.
Import WtSession WtInvariant.

Definition with_capsules (d : CapsuleDecoder.t) (s : t) : t := s <| capsule_decoder := d |>.

(** ** Methods that ignore the capsule decoder *)

Definition blind {A} (X : M A) : Prop :=
  forall d s, X (with_capsules d s) = (fst (X s), with_capsules d (snd (X s))).

Lemma blind_bind {A B} (X : M A) (k : A -> M B) : blind X -> (forall a, blind (k a)) -> blind (bind X k).
Proof.
  intros HX Hk d s. unfold bind. rewrite HX. destruct (X s) as [[a|e|] s']; cbn; [apply Hk|done|done].
Qed.
Lemma blind_ret {A} (a : A) : blind (ret a).
Proof. done. Qed.
Lemma blind_throw {A} e : blind (A:=A) (throw e).
Proof. done. Qed.
Lemma blind_panic {A} : blind (A:=A) panic.
Proof. done. Qed.
Lemma blind_lift {A} (r : result WtError.t A) : blind (lift r).
Proof. done. Qed.
Lemma blind_gets {A} (f : t -> A) : (forall d s, f (with_capsules d s) = f s) -> blind (gets f).
Proof. intros Hf d s. unfold gets. by rewrite Hf. Qed.
Lemma blind_modify (f : t -> t) : (forall d s, f (with_capsules d s) = with_capsules d (f s)) -> blind (modify f).
Proof. intros Hf d s. unfold modify. by rewrite Hf. Qed.
Lemma blind_attempt {A} (X : M A) : blind X -> blind (attempt X).
Proof. intros HX d s. unfold attempt. rewrite HX. by destruct (X s) as [[]]. Qed.
Lemma blind_on_stream {A} id st (m : ST WtStream.t WtError.t A) : blind (on_stream id st m).
Proof. intros d s. unfold on_stream. by destruct (m st). Qed.
Lemma blind_flow {A} (m : ST WtFlowControl.t WtError.t A) : blind (on_flow_control m).
Proof. intros d s. unfold on_flow_control, zoom. cbn. by destruct (m (flow_control s)). Qed.
Lemma blind_encoder {A} (m : ST CapsuleEncoder.t WtError.t A) : blind (on_encoder m).
Proof. intros d s. unfold on_encoder, zoom. cbn. by destruct (m (capsule_encoder s)). Qed.
Create HintDb blind.
#[export] Hint Resolve blind_ret blind_throw blind_panic blind_lift blind_on_stream blind_flow blind_encoder : blind.

Ltac blind_leaf :=
  first
    [ solve [auto with blind]
    | apply blind_gets; intros; reflexivity
    | apply blind_modify; intros; reflexivity ].
Ltac blind :=
  cbv zeta;
  repeat first [ blind_leaf | apply blind_attempt | apply blind_bind; [|intros] | case_match ].

Lemma blind_emit c : blind (emit c).
Proof. unfold emit. blind. Qed.
Lemma blind_push_event e : blind (push_event e).
Proof. unfold push_event. blind. Qed.
Lemma blind_set_state st : blind (set_state st).
Proof. unfold set_state. blind. Qed.
Lemma blind_stream_mut id e : blind (stream_mut id e).
Proof. unfold stream_mut. blind. Qed.
Lemma blind_remove id : blind (remove_if_closed id).
Proof. unfold remove_if_closed. blind. Qed.
#[export] Hint Resolve blind_emit blind_push_event blind_set_state blind_stream_mut blind_remove : blind.

Lemma blind_reset id code : blind (reset_stream id code).
Proof. unfold reset_stream. blind. Qed.
Lemma blind_create id b : blind (create_peer_stream id b).
Proof. unfold create_peer_stream. blind. Qed.
#[export] Hint Resolve blind_reset blind_create : blind.

Lemma blind_create_loop fuel id sid b : blind (create_loop fuel id sid b).
Proof. revert id. induction fuel as [|fuel IH]; intros id; cbn [create_loop]; blind. Qed.
#[export] Hint Resolve blind_create_loop : blind.

Lemma blind_create_up_to sid b : blind (create_peer_streams_up_to sid b).
Proof. unfold create_peer_streams_up_to. blind. Qed.
#[export] Hint Resolve blind_create_up_to : blind.

Lemma blind_implicit id : blind (create_implicit_peer_bidi_stream id).
Proof. unfold create_implicit_peer_bidi_stream. blind. Qed.
#[export] Hint Resolve blind_implicit : blind.

Lemma blind_stream_data id data fin : blind (handle_stream_data id data fin).
Proof. unfold handle_stream_data. blind. Qed.
Lemma blind_reset_stream id code size : blind (handle_reset_stream id code size).
Proof. unfold handle_reset_stream. blind. Qed.
Lemma blind_stop_sending id code : blind (handle_stop_sending id code).
Proof. unfold handle_stop_sending. blind. Qed.
Lemma blind_max_stream_data id max : blind (handle_max_stream_data id max).
Proof. unfold handle_max_stream_data. blind. Qed.
Lemma blind_blocked id : blind (handle_stream_data_blocked id).
Proof. unfold handle_stream_data_blocked. blind. Qed.
#[export] Hint Resolve blind_stream_data blind_reset_stream blind_stop_sending blind_max_stream_data blind_blocked : blind.

Lemma blind_handle c : blind (handle_capsule c).
Proof. unfold handle_capsule. blind. Qed.

(** Handling capsules that were decoded already. *)
Fixpoint handle_capsules (cs : list Capsule.t) : M unit :=
  match cs with
  | [] => ret tt
  | c :: cs => handle_capsule c ;! handle_capsules cs
  end.

Lemma blind_handle_all cs : blind (handle_capsules cs).
Proof. induction cs as [|c cs IH]; cbn [handle_capsules]; [blind|]. apply blind_bind; [apply blind_handle|done]. Qed.

(** The decoder behind a method that ignores it is the one before. *)
Lemma with_capsules_same s : with_capsules (capsule_decoder s) s = s.
Proof. by destruct s. Qed.

Lemma blind_keeps {A} (X : M A) s : blind X -> capsule_decoder (snd (X s)) = capsule_decoder s.
Proof. intros HX. rewrite <- (with_capsules_same s) at 1. by rewrite HX. Qed.

(** ** A turn of the loop *)

(** The octets that wait, and a session with others waiting. *)
Definition waiting (s : t) : list Z := CapsuleDecoder.buffer (capsule_decoder s).
Definition left (rest : list Z) (s : t) : t := with_capsules (with_buffer (capsule_decoder s) rest) s.

Lemma left_left a b s : left a (left b s) = left a s.
Proof. done. Qed.
Lemma left_waiting s : left (waiting s) s = s.
Proof. destruct s as [? ? ? ? ? ? ? ? [] ? ? ? ? ?]. done. Qed.

Lemma blind_left {A} (X : M A) rest s : blind X -> X (left rest s) = (fst (X s), left rest (snd (X s))).
Proof. intros HX. unfold left at 1. by rewrite HX, <- (blind_keeps X s HX). Qed.

Lemma loop_turn fuel s :
  bytes_ok (waiting s) ->
  process_loop (S fuel) s =
    match Wire.frame (waiting s) with
    | None => (Ok tt, s)
    | Some (ty, pl, rest) =>
        match CapsuleDecoder.decode_payload ty pl with
        | Ok c => (handle_capsule c ;! process_loop fuel) (left rest s)
        | Err e => (Err e, s)
        | Panic => (Panic, s)
        end
    end.
Proof.
  intros Hb. cbn [process_loop]. unfold bind at 1, on_decoder, zoom. rewrite decode_frame by done.
  fold (waiting s). pose proof (with_capsules_same s) as Es. unfold with_capsules in Es.
  destruct (Wire.frame (waiting s)) as [[[ty pl] rest]|]; [|by rewrite Es].
  destruct (CapsuleDecoder.decode_payload ty pl); [done|by rewrite Es..].
Qed.

Lemma left_good rest s :
  wf s -> bytes_ok rest -> len rest <= CapsuleDecoder.max_buffer_size (capsule_decoder s) -> good s (left rest s).
Proof.
  intros H Hb Hl. apply wt_quiet; try done; try apply grows_refl.
  eapply wf_other; [exact H|try done; try apply H; apply grows_refl..].
Qed.

(** The loop ends before its fuel does, since a capsule takes octets. *)
Lemma process_loop_op fuel s : wf s -> (length (waiting s) < fuel)%nat -> op (process_loop fuel) s.
Proof.
  revert s. induction fuel as [|fuel IH]; intros s H Hf; [lia|].
  pose proof (wf_decoder _ _ H) as [Hb Hm]. unfold op, wp. rewrite loop_turn by done.
  destruct (Wire.frame (waiting s)) as [[[ty pl] rest]|] eqn:E; [|by apply wt_good_refl].
  destruct (frame_inv _ _ _ _ Hb E) as (Ht & Hp & Hr & Hv & Hl).
  pose proof (decode_payload_safe ty pl Ht Hp) as Hs. pose proof (len_nonneg pl).
  destruct (CapsuleDecoder.decode_payload ty pl) as [c|e|]; [|by apply wt_good_refl|done].
  destruct Hs as [Hfc Hlc]. assert (Wire.wf c) as Hc by (split; [done|lia]).
  assert (good s (left rest s)) as Hg by (apply left_good; [done|done|unfold waiting in Hl; lia]).
  apply (wt_op_after _ s); [done|]. apply wp_bind. unfold wp at 1.
  pose proof (handle_capsule_op c _ (proj1 Hg) Hc) as K. unfold op, wp in K.
  pose proof (blind_keeps (handle_capsule c) (left rest s) (blind_handle c)) as Ed.
  destruct (handle_capsule c (left rest s)) as [[[]|e|] s2]; [|done|done]. cbn in Ed.
  apply wt_op_after; [done|]. apply IH; [apply K|]. unfold waiting in *. rewrite Ed. cbn. unfold len in *. lia.
Qed.

Lemma process_op s : wf s -> op process s.
Proof. intros H. unfold process. apply wt_op_gets. apply process_loop_op; [done|]. unfold waiting. lia. Qed.

(** ** More octets behind those that wait *)

Lemma wt_loop_fuel fuel fuel' s :
  bytes_ok (waiting s) -> (length (waiting s) < fuel)%nat -> (length (waiting s) < fuel')%nat ->
  process_loop fuel s = process_loop fuel' s.
Proof.
  revert fuel' s. induction fuel as [|fuel IH]; intros [|fuel'] s Hb Hf Hf'; try lia.
  rewrite !loop_turn by done. destruct (Wire.frame (waiting s)) as [[[ty pl] rest]|] eqn:E; [|done].
  destruct (frame_inv _ _ _ _ Hb E) as (_ & _ & Hr & _ & Hl). pose proof (len_nonneg pl).
  destruct (CapsuleDecoder.decode_payload ty pl) as [c|e|]; [|done..].
  unfold bind. rewrite blind_left by apply blind_handle.
  destruct (fst (handle_capsule c s)); [|done..]. unfold len in *.
  apply IH; cbn; [done|lia..].
Qed.

Lemma wt_loop_feed fuel fuel' b s :
  bytes_ok (waiting s) -> bytes_ok b -> (length (waiting s) < fuel)%nat ->
  (length (waiting s) + length b < fuel')%nat ->
  match process_loop fuel s with
  | (Ok _, s1) => process_loop fuel' (left (waiting s ++ b) s) = process_loop fuel' (left (waiting s1 ++ b) s1)
                  /\ bytes_ok (waiting s1) /\ len (waiting s1) <= len (waiting s)
  | (Err e, s1) => process_loop fuel' (left (waiting s ++ b) s) = (Err e, left (waiting s1 ++ b) s1)
  | (Panic, _) => True
  end.
Proof.
  revert fuel' s. induction fuel as [|fuel IH]; intros [|fuel'] s Hb Hb' Hf Hf'; try lia.
  pose proof (loop_turn fuel s Hb) as E1.
  pose proof (loop_turn fuel' (left (waiting s ++ b) s) ltac:(by apply bytes_ok_app)) as E2.
  change (waiting (left (waiting s ++ b) s)) with (waiting s ++ b) in E2.
  rewrite E1. destruct (Wire.frame (waiting s)) as [[[ty pl] rest]|] eqn:E; [|by split_and!; [|done|lia]].
  rewrite (frame_extend _ _ _ _ _ Hb Hb' E) in E2. rewrite E2.
  destruct (frame_inv _ _ _ _ Hb E) as (_ & _ & Hr & _ & Hl). pose proof (len_nonneg pl).
  destruct (CapsuleDecoder.decode_payload ty pl) as [c|e|]; [|done..].
  rewrite left_left. unfold bind. rewrite (blind_left _ rest), (blind_left _ (rest ++ b)) by apply blind_handle.
  destruct (handle_capsule c s) as [[[]|e|] s2]; cbn [fst snd]; [|done..]. clear E1 E2.
  assert ((length rest < fuel)%nat /\ (length rest + length b < fuel')%nat) as [F F'] by (unfold len in *; lia).
  pose proof (IH fuel' (left rest s2) Hr Hb' F F') as K. change (waiting (left rest s2)) with rest in K.
  rewrite left_left in K. destruct (process_loop fuel (left rest s2)) as [[[]|e|] s3]; [|done..].
  destruct K as (K & Hb3 & Hl3). split_and!; [|done|lia]. rewrite K.
  apply wt_loop_fuel; [by apply bytes_ok_app|..]; change (waiting (left ?r ?x)) with r; rewrite length_app; unfold len in *; lia.
Qed.

(** The limit of the decoder stays as it is. *)
Definition limit (s : t) : Z := CapsuleDecoder.max_buffer_size (capsule_decoder s).

Lemma loop_limit fuel s : bytes_ok (waiting s) -> limit (snd (process_loop fuel s)) = limit s.
Proof.
  revert s. induction fuel as [|fuel IH]; intros s Hb; [done|]. rewrite loop_turn by done.
  destruct (Wire.frame (waiting s)) as [[[ty pl] rest]|] eqn:E; [|done].
  destruct (frame_inv _ _ _ _ Hb E) as (_ & _ & Hr & _).
  destruct (CapsuleDecoder.decode_payload ty pl) as [c|e|]; [|done..].
  unfold bind. rewrite blind_left by apply blind_handle.
  pose proof (blind_keeps _ s (blind_handle c)) as Ed.
  destruct (handle_capsule c s) as [[[]|e|] s2]; cbn [fst snd] in *; [rewrite IH by done|..];
    unfold limit; cbn; by rewrite Ed.
Qed.

(** ** Receiving octets in pieces *)

(** What a reader does with a piece of the octets of the CONNECT stream. *)
Definition receive (data : list Z) : M unit := feed data ;! process.

Fixpoint receive_all (chunks : list (list Z)) : M unit :=
  match chunks with
  | [] => ret tt
  | chunk :: chunks => receive chunk ;! receive_all chunks
  end.

(** More octets fit the buffer of the decoder. *)
Definition room (data : list Z) (s : t) : Prop :=
  len (waiting s) + len data <= limit s.

Lemma feed_runs data s : room data s -> feed data s = (Ok (len data), left (waiting s ++ data) s).
Proof.
  unfold room, waiting, limit. intros Hr. unfold feed, on_decoder, zoom, CapsuleDecoder.feed.
  pose proof (len_nonneg (CapsuleDecoder.buffer (capsule_decoder s))).
  unfold bind, gets. destruct (Z.gtb_spec (len data) (saturating_sub (CapsuleDecoder.max_buffer_size (capsule_decoder s))
    (len (CapsuleDecoder.buffer (capsule_decoder s))))) as [Hg|_]; [unfold saturating_sub in Hg; lia|done].
Qed.

(** A feed that does not fit changes nothing. *)
Lemma feed_full data s :
  wf s -> limit s < len (waiting s) + len data ->
  feed data s = (Err (WtError.with_reason WtErrorKind.InvalidInput "capsule decoder buffer limit exceeded"), s).
Proof.
  unfold limit, waiting. intros H Hr. pose proof (wf_decoder _ _ H) as [_ Hd].
  unfold feed, on_decoder, zoom, CapsuleDecoder.feed, bind, gets.
  match goal with |- context [ ?x >? ?y ] => destruct (Z.gtb_spec x y) as [_|Hg] end.
  - by destruct s.
  - unfold saturating_sub in Hg. lia.
Qed.

Lemma receive_runs data s : room data s -> receive data s = process (left (waiting s ++ data) s).
Proof. intros Hr. unfold receive. by rewrite (bind_Ok _ _ _ _ _ (feed_runs data s Hr)). Qed.

Lemma waiting_left r s : waiting (left r s) = r.
Proof. done. Qed.

Lemma process_unfold s : process s = process_loop (S (length (waiting s))) s.
Proof. done. Qed.

Lemma fed_good data s : wf s -> bytes_ok data -> room data s -> good s (left (waiting s ++ data) s).
Proof.
  intros H Hb Hr. apply left_good; [done|apply bytes_ok_app; split; [apply (wf_decoder _ _ H)|done]|].
  rewrite len_app. exact Hr.
Qed.

Lemma receive_app a b s :
  wf s -> bytes_ok (a ++ b) -> room (a ++ b) s ->
  match receive a s with
  | (Ok _, s1) => wf s1 /\ room b s1 /\ receive (a ++ b) s = receive b s1
  | (Err e, s1) => receive (a ++ b) s = (Err e, left (waiting s1 ++ b) s1)
  | (Panic, _) => False
  end.
Proof.
  intros H Hab Hr. pose proof Hab as [Ha Hb]%bytes_ok_app.
  pose proof (len_nonneg a). pose proof (len_nonneg b).
  assert (room a s) as Hra by (unfold room in *; rewrite len_app in Hr; lia).
  rewrite !receive_runs, !process_unfold, !waiting_left by done.
  set (s0 := left (waiting s ++ a) s). pose proof (fed_good a s H Ha Hra) as [Hs0 _]. fold s0 in Hs0.
  pose proof (process_loop_op (S (length (waiting s ++ a))) s0 Hs0 (Nat.lt_succ_diag_r _)) as W.
  pose proof (wf_decoder _ _ Hs0) as [Hb0 _].
  pose proof (wt_loop_feed (S (length (waiting s ++ a))) (S (length (waiting s ++ a ++ b))) b s0 Hb0 Hb (Nat.lt_succ_diag_r _)) as K.
  change (waiting s0) with (waiting s ++ a) in K. rewrite <- app_assoc, !length_app in K.
  specialize (K ltac:(lia)). change (left (waiting s ++ a ++ b) s0) with (left (waiting s ++ a ++ b) s) in K.
  pose proof (loop_limit (S (length (waiting s ++ a))) s0 Hb0) as El.
  unfold op, wp in W. rewrite !length_app in *.
  destruct (process_loop _ s0) as [[[]|e|] s1]; [|done|done].
  cbn [snd] in El. destruct K as (K & Hb1 & Hl1). destruct W as [W Ev].
  change (waiting s0) with (waiting s ++ a) in Hl1.
  assert (room b s1) as Hr1.
  { unfold room in *. rewrite El. change (limit s0) with (limit s). rewrite !len_app in *. lia. }
  split_and!; [done|done|]. rewrite K, receive_runs, process_unfold, waiting_left by done.
  apply wt_loop_fuel; rewrite ?waiting_left; [by apply bytes_ok_app| |lia].
  rewrite !length_app. unfold len in *. rewrite length_app in Hl1. lia.
Qed.

Lemma feed_op data s : wf s -> bytes_ok data -> op (feed data) s.
Proof.
  intros H Hb. unfold op, wp. destruct (Z.le_gt_cases (len (waiting s) + len data) (limit s)) as [Hr|Hr].
  - rewrite feed_runs by done. by apply fed_good.
  - rewrite feed_full by done. by apply wt_good_refl.
Qed.

Lemma receive_op data s : wf s -> bytes_ok data -> op (receive data) s.
Proof.
  intros H Hb. unfold receive. apply wt_op_seq; [by apply feed_op|]. intros _ s' [H' _]. by apply process_op.
Qed.

(** ** New sessions *)

Lemma new_wf r c p : config_ok c -> config_ok p -> wf (new r c p).
Proof.
  intros Hc Hp. pose proof Hc as []. pose proof Hp as []. unfold Varint.ok in *.
  constructor; try done.
  - constructor; cbn; lia.
  - by cbn; destruct r.
  - by cbn; destruct r.
  - split; [constructor|by vm_compute].
Qed.

Lemma default_config_ok : config_ok WtConfig.default.
Proof. constructor; split; by vm_compute. Qed.

Definition sample_session (r : Role.t) : t := (new r WtConfig.default WtConfig.default) <| state := WtSessionState.Active |>.

Lemma sample_session_wf r : wf (sample_session r).
Proof.
  pose proof (initiate_op _ (new_wf r _ _ default_config_ok default_config_ok)) as H. by destruct H.
Qed.

(** ** Properties *)

Lemma receive_all_app chunks s :
  chunks <> [] -> wf s -> bytes_ok (concat chunks) -> room (concat chunks) s ->
  let '(r, s1) := receive_all chunks s in
  exists rest, receive (concat chunks) s = (r, left rest s1) /\ (r = Ok tt -> rest = waiting s1).
Proof.
  revert s. induction chunks as [|a chunks IH]; intros s Hne H Hb Hr; [done|]. cbn [receive_all concat] in *.
  pose proof (receive_app a (concat chunks) s H Hb Hr) as K. unfold bind.
  destruct (receive a s) as [[[]|e|] s1] eqn:Ea; [|by eexists|done].
  destruct K as (H1 & Hr1 & K). destruct chunks as [|b chunks].
  - cbn [receive_all concat] in *. exists (waiting s1). rewrite left_waiting. split; [|done].
    by rewrite app_nil_r, Ea.
  - rewrite K. apply IH; [done|done| |done]. by apply bytes_ok_app in Hb as [_ Hb].
Qed.

(** C22: How the octets of the CONNECT stream are cut into pieces does not
    matter: feeding and processing them piece by piece gives the result, the
    streams, the events and the output of feeding them at once. On an error
    only the octets that still wait may differ. All the octets, with those that
    wait already, fit the decoder's buffer of 16 MiB ([room]): beyond it a piece
    can be refused that would have been processed if it came in smaller ones. *)
Theorem session_chunking_invariant chunks s :
  chunks <> [] -> wf s -> bytes_ok (concat chunks) -> room (concat chunks) s ->
  let '(r, s1) := receive_all chunks s in
  r <> Panic /\
  exists rest, receive (concat chunks) s = (r, left rest s1) /\ (r = Ok tt -> rest = waiting s1).
Proof.
  intros Hne H Hb Hr. pose proof (receive_all_app chunks s Hne H Hb Hr) as K.
  pose proof (receive_op (concat chunks) s H Hb) as W. unfold op, wp in W.
  destruct (receive_all chunks s) as [r s1]. split; [|done]. intros ->.
  by destruct K as (rest & E & _); rewrite E in W.
Qed.

(** Three datagrams, the last one cut short. *)
Definition sample_chunks : list (list Z) := [[0]; [2; 7; 8; 0]; [1]; [9; 0; 4; 1]].

Lemma session_chunking_invariant_witness :
  let '(r, s1) := receive_all sample_chunks (sample_session Role.Server) in
  r = Ok tt /\ events s1 = [WtEvent.DatagramReceived [7; 8]; WtEvent.DatagramReceived [9]] /\ waiting s1 = [0; 4; 1] /\
  r <> Panic /\
  exists rest, receive (concat sample_chunks) (sample_session Role.Server) = (r, left rest s1) /\
    (r = Ok tt -> rest = waiting s1).
Proof.
  assert (sample_chunks <> []) as H1 by done.
  assert (bytes_ok (concat sample_chunks)) as H2 by (repeat constructor; by vm_compute).
  assert (room (concat sample_chunks) (sample_session Role.Server)) as H3 by (by vm_compute).
  pose proof (session_chunking_invariant sample_chunks _ H1 (sample_session_wf Role.Server) H2 H3) as K.
  assert (let '(r, s1) := receive_all sample_chunks (sample_session Role.Server) in
    r = Ok tt /\ events s1 = [WtEvent.DatagramReceived [7; 8]; WtEvent.DatagramReceived [9]] /\ waiting s1 = [0; 4; 1]) as C
    by (vm_compute; auto).
  revert C K. generalize (receive_all sample_chunks (sample_session Role.Server)). intros [r s1]. tauto.
Defined.
