(* ===== verification/WtApi.v ===== *)
(** * WtApi: every sequence of calls of a WebTransport session

    The public methods as data ([call]), running a sequence of them as an
    application does ([run]: an error is returned and the next call goes on),
    and what then holds of the session, of the octets polled from it and of the
    events it delivered. *)

From S2P Require Import Prelude Syntax Config Bounded ConnBase.
From S2P Require Import WtVarint WtStream WtCapsule WtCodec WtInit WtSession WtInv WtSafe WtLoop.
Import WtSession WtInvariant.

Inductive call : Type :=
| Initiate
| Feed (data : list Z)
| Process
| PollOutput
| PollEvent
| OpenStream (bidirectional : bool)
| SendStreamData (stream_id : Z) (data : list Z) (fin : bool)
| ResetStream (stream_id error_code : Z)
| StopSending (stream_id error_code : Z)
| SendDatagram (data : list Z)
| Close (error_code : Z) (reason : list Z)
| SendMaxData (maximum : Z)
| SendMaxStreamData (stream_id maximum : Z)
| SendMaxStreams (maximum : Z) (bidirectional : bool)
| GrowRecvWindow (increment : Z)
| GrowStreamRecvWindow (stream_id increment : Z)
| GrowMaxStreams (increment : Z) (bidirectional : bool)
| Drain.

Inductive reply : Type :=
| Done
| Number (n : Z)
| Output (octets : option (list Z))
| Event (event : option WtEvent.t).

Definition done_ (m : M unit) : M reply := m ;! ret Done.

Definition run_call (x : call) : M reply :=
  match x with
  | Initiate => done_ initiate
  | Feed data => let! n := feed data in ret (Number n)
  | Process => done_ process
  | PollOutput => let! o := poll_output in ret (Output o)
  | PollEvent => let! e := poll_event in ret (Event e)
  | OpenStream b => let! id := open_stream b in ret (Number id)
  | SendStreamData id data fin => done_ (send_stream_data id data fin)
  | ResetStream id code => done_ (reset_stream id code)
  | StopSending id code => done_ (stop_sending id code)
  | SendDatagram data => done_ (send_datagram data)
  | Close code reason => done_ (close code reason)
  | SendMaxData max => done_ (send_max_data max)
  | SendMaxStreamData id max => done_ (send_max_stream_data id max)
  | SendMaxStreams max b => done_ (send_max_streams max b)
  | GrowRecvWindow n => done_ (grow_recv_window n)
  | GrowStreamRecvWindow id n => done_ (grow_stream_recv_window id n)
  | GrowMaxStreams n b => done_ (grow_max_streams n b)
  | Drain => done_ drain
  end.

(** An error ends its call only; a panic ends the program. *)
Fixpoint run (xs : list call) (s : t) : option (list (result WtError.t reply) * t) :=
  match xs with
  | [] => Some ([], s)
  | x :: xs =>
      match run_call x s with
      | (Panic, _) => None
      | (r, s) => match run xs s with Some (rs, s) => Some (r :: rs, s) | None => None end
      end
  end.

(** Arguments of the types of the source: octets, a [u32] error code and a
    [&str] reason of a close, and unsigned numbers; data short enough for a
    capsule. *)
Definition call_ok (x : call) : Prop :=
  match x with
  | Feed data => bytes_ok data
  | SendStreamData _ data _ | SendDatagram data => data_ok data
  | ResetStream _ code | StopSending _ code => 0 <= code
  | Close code reason => u32_ok code /\ bytes_ok reason /\ Syntax.utf8_valid reason = true
  | SendMaxData n | SendMaxStreamData _ n | SendMaxStreams n _ => 0 <= n
  | GrowRecvWindow n | GrowStreamRecvWindow _ n | GrowMaxStreams n _ => 0 <= n
  | _ => True
  end.

(** What the polls gave the application. *)
Definition polled (rs : list (result WtError.t reply)) : list Z :=
  concat (map (fun r => match r with Ok (Output (Some l)) => l | _ => [] end) rs).
Definition delivered (rs : list (result WtError.t reply)) : list WtEvent.t :=
  omap (fun r => match r with Ok (Event e) => e | _ => None end) rs.

(** ** The change of a call

    [steps out evs s s']: the call handed out the octets [out] and the events
    [evs]; whole capsules were written, and both sides count. *)
Record steps (out : list Z) (evs : list WtEvent.t) (s s' : t) : Prop := {
  st_role : role s' = role s;
  st_config : config s' = config s;
  st_peer : peer_config s' = peer_config s;
  st_grows : WtFlowControl.grows (flow_control s) (flow_control s');
  st_output : exists caps,
    Forall Wire.wf caps /\ out ++ output_buffer s' = output_buffer s ++ wires caps /\
    WtFlowControl.send_offset (flow_control s') = WtFlowControl.send_offset (flow_control s) + sent caps;
  st_events : exists es,
    evs ++ events s' = events s ++ es /\
    WtFlowControl.recv_offset (flow_control s') = WtFlowControl.recv_offset (flow_control s) + received es
}.

Lemma evolves_steps s s' : evolves s s' -> steps [] [] s s'.
Proof. by intros []. Qed.

Lemma steps_refl s : steps [] [] s s.
Proof. apply evolves_steps, wt_evolves_refl. Qed.

Lemma steps_trans o1 e1 o2 e2 s s1 s2 : steps o1 e1 s s1 -> steps o2 e2 s1 s2 -> steps (o1 ++ o2) (e1 ++ e2) s s2.
Proof.
  intros [? ? ? ? (a & Ha & Ea & Sa) (c & Ec & Rc)] [? ? ? ? (b & Hb & Eb & Sb) (d & Ed & Rd)].
  constructor; try congruence; [by eapply grows_trans|..].
  - exists (a ++ b). rewrite wires_cat, sent_app, <- app_assoc, Eb, app_assoc, Ea, app_assoc.
    split_and!; [by apply Forall_app|done|lia].
  - exists (c ++ d). rewrite received_app, <- app_assoc, Ed, app_assoc, Ec, app_assoc. split; [done|lia].
Qed.

(** ** Each call *)

Definition out_of (r : result WtError.t reply) : list Z := polled [r].
Definition event_of (r : result WtError.t reply) : list WtEvent.t := delivered [r].

Definition call_good (m : M reply) (s : t) : Prop :=
  let '(r, s') := m s in r <> Panic /\ wf s' /\ steps (out_of r) (event_of r) s s'.

Lemma call_op {A} (m : M A) (f : A -> reply) s :
  (forall a, out_of (Ok (f a)) = [] /\ event_of (Ok (f a)) = []) ->
  op m s -> call_good (let! a := m in ret (f a)) s.
Proof.
  intros Hf H. unfold call_good, op, wp, bind in *.
  destruct (m s) as [[a|e|] s']; [|split_and!; [done|apply H|apply evolves_steps, H]|done].
  destruct (Hf a) as [E1 E2]. unfold ret. rewrite E1, E2.
  split_and!; [done|apply H|apply evolves_steps, H].
Qed.

Lemma poll_output_good s : wf s -> call_good (let! o := poll_output in ret (Output o)) s.
Proof.
  intros H. unfold call_good, poll_output, bind, gets. destruct (Z.eqb_spec (len (output_buffer s)) 0) as [E|E]; cbn.
  - split_and!; [done|done|apply steps_refl].
  - split_and!; [done| |].
    + eapply wf_other; [exact H|try done; try apply H; apply grows_refl..].
    + constructor; try done; try apply grows_refl.
      * exists []. cbn. rewrite !app_nil_r. split_and!; [done..|lia].
      * exists []. cbn. rewrite !app_nil_r. split; [done|lia].
Qed.

(** Marking the data of a stream as read, and forgetting the stream if that
    closed it. *)
Lemma data_read_good id s :
  wf s ->
  exists s2,
    (let! o := gets (fun s => streams s !! id) in
     match o with
     | Some stream => modify (fun s => s <| streams := <[id := WtStream.mark_data_read stream]> (streams s) |>)
     | None => ret tt
     end ;!
     remove_if_closed id) s = (Ok tt, s2) /\ good s s2.
Proof.
  intros H. rewrite bind_gets. destruct (streams s !! id) as [st|] eqn:Hst.
  - rewrite bind_modify. fold (with_stream id (WtStream.mark_data_read st) s).
    pose proof (wf_streams _ _ H id st Hst) as Hok.
    assert (same_stream st (WtStream.mark_data_read st) /\ WtStream.wf (WtStream.mark_data_read st)) as [Hs Hw].
    { unfold WtStream.mark_data_read. destruct (so_wf _ _ _ Hok). case_match; (split; [done|by constructor]). }
    pose proof (with_stream_good id st _ s H Hst Hs Hw) as G.
    rewrite remove_if_closed_runs. eexists; split; [done|].
    pose proof (remove_if_closed_good id _ (wf_but_any _ _ _ (proj1 G))) as R. rewrite remove_if_closed_runs in R.
    by eapply wt_good_trans.
  - rewrite bind_ret, remove_if_closed_runs. eexists; split; [done|].
    pose proof (remove_if_closed_good id s (wf_but_weaken _ _ H)) as R. by rewrite remove_if_closed_runs in R.
Qed.

Lemma poll_event_good s : wf s -> call_good (let! e := poll_event in ret (Event e)) s.
Proof.
  intros H. unfold call_good, poll_event. rewrite bind_assoc, bind_gets.
  destruct (events s) as [|e es] eqn:Ee; [by split_and!; [|done|apply steps_refl]|].
  set (s1 := s <| events := es |>).
  assert (wf s1) as H1 by (eapply wf_other; [exact H|try done; try apply H; apply grows_refl..]).
  assert (steps [] [e] s s1) as G1.
  { constructor; try done; try apply grows_refl.
    - exists []. cbn. rewrite app_nil_r. split_and!; [done..|lia].
    - exists []. cbn. rewrite app_nil_r, Ee. split; [done|lia]. }
  assert (forall m : M unit, (exists s2, m s1 = (Ok tt, s2) /\ good s1 s2) ->
    let '(r, s') := (let! o := (modify (fun s => s <| events := es |>) ;! m ;! ret (Some e)) in ret (Event o)) s in
    r <> Panic /\ wf s' /\ steps (out_of r) (event_of r) s s') as K.
  { intros m (s2 & Em & H2 & E2). unfold bind, modify. fold s1. rewrite Em. cbn.
    split_and!; [done|done|]. apply (steps_trans [] [e] [] [] s s1 s2); [done|by apply evolves_steps]. }
  apply K. destruct e as [| id data [] | | | | |]; try by (eexists; split; [reflexivity|by apply wt_good_refl]).
  by apply data_read_good.
Qed.

Lemma run_call_good x s : wf s -> call_ok x -> call_good (run_call x) s.
Proof.
  intros H Hx. destruct x; cbn [run_call call_ok] in *; unfold done_.
  - by apply (call_op _ (fun _ => Done)), initiate_op.
  - by apply (call_op _ Number), feed_op.
  - by apply (call_op _ (fun _ => Done)), process_op.
  - by apply poll_output_good.
  - by apply poll_event_good.
  - by apply (call_op _ Number), open_stream_op.
  - by apply (call_op _ (fun _ => Done)), send_stream_data_op.
  - by apply (call_op _ (fun _ => Done)), reset_stream_op.
  - by apply (call_op _ (fun _ => Done)), stop_sending_op.
  - by apply (call_op _ (fun _ => Done)), send_datagram_op.
  - destruct Hx as (? & ? & ?). by apply (call_op _ (fun _ => Done)), close_op.
  - by apply (call_op _ (fun _ => Done)), send_max_data_op.
  - by apply (call_op _ (fun _ => Done)), send_max_stream_data_op.
  - by apply (call_op _ (fun _ => Done)), send_max_streams_op.
  - by apply (call_op _ (fun _ => Done)), grow_recv_window_op.
  - by apply (call_op _ (fun _ => Done)), grow_stream_recv_window_op.
  - by apply (call_op _ (fun _ => Done)), grow_max_streams_op.
  - by apply (call_op _ (fun _ => Done)), drain_op.
Qed.

Lemma polled_cons r rs : polled (r :: rs) = out_of r ++ polled rs.
Proof. unfold out_of, polled. cbn. by rewrite app_nil_r. Qed.
Lemma delivered_cons r rs : delivered (r :: rs) = event_of r ++ delivered rs.
Proof. unfold event_of, delivered. destruct r as [[| | |[]]| |]; done. Qed.

Lemma run_good xs s :
  wf s -> Forall call_ok xs ->
  exists rs s', run xs s = Some (rs, s') /\ length rs = length xs /\ wf s' /\ steps (polled rs) (delivered rs) s s'.
Proof.
  intros H Hxs. revert s H. induction Hxs as [|x xs Hx _ IH]; intros s H.
  { exists [], s. split_and!; [done|done|done|apply steps_refl]. }
  pose proof (run_call_good x s H Hx) as G. unfold call_good in G. cbn [run].
  destruct (run_call x s) as [r s1]. destruct G as (Hr & H1 & G1).
  destruct (IH s1 H1) as (rs & s2 & -> & Hl & H2 & G2).
  exists (r :: rs), s2. rewrite polled_cons, delivered_cons.
  destruct r; [| |done]; (split_and!; [done|cbn; by rewrite Hl|done|by eapply steps_trans]).
Qed.

(** ** Properties *)

(** C21: No sequence of calls makes a WebTransport session panic. Whatever
    arguments of the right types the application passes, whatever octets it
    feeds, in whatever pieces, and however it goes on after errors, every call
    returns a value or an error, and the session satisfies its invariant: the
    offsets of the session and of every stream are within their limits, the
    limits can be carried by a varint, every stream's direction and initiator
    are those its identifier says, no stream of the map is closed, and the
    identifiers this side used are below the next one. *)
Theorem wt_session_never_panics (r : Role.t) (c p : WtConfig.t) (xs : list call) :
  config_ok c -> config_ok p -> Forall call_ok xs ->
  exists rs s, run xs (new r c p) = Some (rs, s) /\ length rs = length xs /\ wf s.
Proof.
  intros Hc Hp Hxs. destruct (run_good xs _ (new_wf r c p Hc Hp) Hxs) as (rs & s & Hrun & Hl & Hs & _). eauto.
Qed.

Definition sample_calls : list call :=
  [Initiate; OpenStream true; SendStreamData 0 [1; 2; 3] false; SendDatagram [9]; PollOutput;
   Feed [0; 1; 7]; Feed (Varint.octets CapsuleType.WT_STREAM_FIN ++ [2; 1; 5]); Process; PollEvent; PollEvent; PollEvent;
   ResetStream 0 8; Drain; Close 1 []; PollOutput].

Lemma sample_calls_ok : Forall call_ok sample_calls.
Proof.
  unfold sample_calls.
  repeat (constructor; [first [exact I
    | (split; [repeat constructor; by vm_compute|]); by vm_compute
    | repeat constructor; by vm_compute
    | split_and!; [split; by vm_compute|constructor|reflexivity]] |]).
  constructor.
Qed.

Lemma wt_session_never_panics_witness :
  exists rs s, run sample_calls (new Role.Client WtConfig.default WtConfig.default) = Some (rs, s) /\
    length rs = 15%nat /\ wf s.
Proof.
  exact (wt_session_never_panics Role.Client WtConfig.default WtConfig.default sample_calls
    default_config_ok default_config_ok sample_calls_ok).
Defined.

(** C23: What a session sends and delivers is counted: at any time the octets
    polled from it, with those it still buffers, are whole well-formed capsules;
    the octets of stream data they carry are the send offset, which never passes
    the limit the peer granted; and the octets of stream data in the events
    delivered and queued are the receive offset, which never passes the limit
    this side granted. *)
Theorem wt_traffic_is_accounted (r : Role.t) (c p : WtConfig.t) (xs : list call) rs s :
  config_ok c -> config_ok p -> Forall call_ok xs -> run xs (new r c p) = Some (rs, s) ->
  (exists caps,
     Forall Wire.wf caps /\ polled rs ++ output_buffer s = wires caps /\
     sent caps = WtFlowControl.send_offset (flow_control s)) /\
  WtFlowControl.send_offset (flow_control s) <= WtFlowControl.send_max (flow_control s) /\
  received (delivered rs ++ events s) = WtFlowControl.recv_offset (flow_control s) /\
  WtFlowControl.recv_offset (flow_control s) <= WtFlowControl.recv_max (flow_control s).
Proof.
  intros Hc Hp Hxs Hrun. destruct (run_good xs _ (new_wf r c p Hc Hp) Hxs) as (rs' & s' & Hrun' & _ & Hs & G).
  assert (rs' = rs /\ s' = s) as [-> ->] by (rewrite Hrun in Hrun'; by injection Hrun').
  destruct G as [_ _ _ _ (caps & Hw & Eo & Es) (es & Ee & Er)].
  change (events (new r c p)) with (@nil WtEvent.t) in Ee. change (output_buffer (new r c p)) with (@nil Z) in Eo.
  change (WtFlowControl.send_offset (flow_control (new r c p))) with 0 in Es.
  change (WtFlowControl.recv_offset (flow_control (new r c p))) with 0 in Er.
  cbn [app] in *. destruct (wf_flow _ _ Hs) as []. split_and!; [|lia|rewrite Ee; lia|lia].
  exists caps. split_and!; [done|done|lia].
Qed.

Lemma wt_traffic_is_accounted_witness :
  let result := run sample_calls (new Role.Client WtConfig.default WtConfig.default) in
  match result with
  | Some (rs, s) =>
      polled rs <> [] /\ received (delivered rs) = 1 /\
      (exists caps,
         Forall Wire.wf caps /\ polled rs ++ output_buffer s = wires caps /\
         sent caps = WtFlowControl.send_offset (flow_control s)) /\
      WtFlowControl.send_offset (flow_control s) <= WtFlowControl.send_max (flow_control s)
  | None => False
  end.
Proof.
  pose proof (wt_traffic_is_accounted Role.Client WtConfig.default WtConfig.default sample_calls) as K.
  specialize (fun rs s => K rs s default_config_ok default_config_ok sample_calls_ok).
  assert (match run sample_calls (new Role.Client WtConfig.default WtConfig.default) with
    | Some (rs, _) => polled rs <> [] /\ received (delivered rs) = 1 | None => False end) as C by by vm_compute.
  revert C K. cbv zeta. generalize (run sample_calls (new Role.Client WtConfig.default WtConfig.default)).
  intros [[rs s]|] C K; [|done]. destruct (K rs s eq_refl) as (K1 & K2 & _). tauto.
Defined.
