(* ===== verification/WtDeliver.v ===== *)
(** * WtDeliver: stream data from one session to another

    A sender writes pieces of data to a stream; the octets of its output,
    carried to another session and cut in any way, become the events of these
    pieces there, in order. *)

From S2P Require Import Prelude Syntax Config Bounded ConnBase.
From S2P Require Import WtVarint WtStream WtCapsule WtCodec WtInit WtSession WtInv WtSafe WtLoop.
Import WtSession WtInvariant.

(** The octets of some pieces. *)
Definition total (pieces : list (list Z)) : Z := len (concat pieces).

Lemma pieces_total_cons p pieces : total (p :: pieces) = len p + total pieces.
Proof. apply len_app. Qed.

(** The capsules and the events of pieces of which the last one may end the
    stream. *)
Definition capsules_of (id : Z) (pieces : list (list Z)) (last : list Z) (fin : bool) : list Capsule.t :=
  map (fun p => Capsule.WtStream id p false) pieces ++ [Capsule.WtStream id last fin].
Definition events_of (id : Z) (pieces : list (list Z)) (last : list Z) (fin : bool) : list WtEvent.t :=
  map (fun p => WtEvent.StreamData id p false) pieces ++ [WtEvent.StreamData id last fin].

Lemma wires_capsules_cons id p pieces last fin :
  wires (capsules_of id (p :: pieces) last fin) =
  Wire.wire (Capsule.WtStream id p false) ++ wires (capsules_of id pieces last fin).
Proof. done. Qed.

(** ** The sender *)

Fixpoint send_pieces (id : Z) (pieces : list (list Z)) (last : list Z) (fin : bool) : M unit :=
  match pieces with
  | [] => send_stream_data id last fin
  | p :: pieces => send_stream_data id p false ;! send_pieces id pieces last fin
  end.

(** A stream of an open session that takes [n] more octets. *)
Record can_take (id n : Z) (s : t) : Prop := {
  take_open : is_open s = true;
  take_flow : n <= WtFlowControl.send_available (flow_control s);
  take_stream : exists st, streams s !! id = Some st /\
    WtStream.can_send st = true /\ WtStream.has_send_part st = true /\ n <= WtStream.send_available st
}.

Lemma send_available_sent m n f :
  WtFlowControl.wf f -> 0 <= m -> 0 <= n -> n + m <= WtFlowControl.send_available f ->
  m <= WtFlowControl.send_available (flow_sent n f).
Proof. intros []. unfold WtFlowControl.send_available, saturating_sub. cbn. lia. Qed.

Lemma stream_available_sent m n st :
  WtStream.wf st -> 0 <= m -> 0 <= n -> n + m <= WtStream.send_available st ->
  m <= WtStream.send_available (stream_sent n false st).
Proof. intros []. unfold WtStream.send_available, saturating_sub. cbn. lia. Qed.

Lemma send_one id data fin n s :
  wf s -> data_ok data -> 0 <= n -> can_take id (len data + n) s ->
  exists s', send_stream_data id data fin s = (Ok tt, s') /\ wf s' /\
    output_buffer s' = output_buffer s ++ Wire.wire (Capsule.WtStream id data fin) /\
    (fin = false -> can_take id n s').
Proof.
  intros H Hd Hn [Ho Hf (st & Hst & Hc & Hp & Ha)]. pose proof (len_nonneg data).
  pose proof (so_wf _ _ _ (wf_streams _ _ H id st Hst)) as Hw.
  assert (WtStream.send_offset st + len data <= WtStream.send_max st) as Hm.
  { destruct Hw. unfold WtStream.send_available, saturating_sub in Ha. lia. }
  assert (len data <= WtFlowControl.send_available (flow_control s)) as Hf' by lia.
  eexists. rewrite (send_stream_data_runs id st) by done. split; [done|].
  pose proof (send_stream_data_op id data fin s H Hd) as W. unfold op, wp in W.
  rewrite (send_stream_data_runs id st) in W by done. split; [apply W|]. split.
  - destruct fin; [|done]. rewrite remove_if_closed_runs. cbn [snd]. by repeat case_match.
  - intros ->. split; [done|by apply send_available_sent; [apply H|..]|].
    exists (stream_sent (len data) false st). split_and!; [apply lookup_insert_eq|done..|].
    by apply stream_available_sent.
Qed.

Lemma send_pieces_runs id pieces last fin s :
  wf s -> Forall data_ok pieces -> data_ok last -> can_take id (total pieces + len last) s ->
  exists s', send_pieces id pieces last fin s = (Ok tt, s') /\ wf s' /\
    output_buffer s' = output_buffer s ++ wires (capsules_of id pieces last fin).
Proof.
  intros H Hp Hl Ht. revert s H Ht. induction Hp as [|p pieces Hp _ IH]; intros s H Ht.
  - destruct (send_one id last fin 0 s H Hl (Z.le_refl 0)) as (s' & E & H' & Eo & _).
    { cbn in Ht. by rewrite Z.add_0_r. }
    exists s'. split_and!; [done|done|]. rewrite Eo. unfold wires. cbn. by rewrite app_nil_r.
  - pose proof (len_nonneg (concat pieces)). pose proof (len_nonneg last). rewrite pieces_total_cons, <- Z.add_assoc in Ht.
    destruct (send_one id p false (total pieces + len last) s H Hp ltac:(unfold total; lia) Ht) as (s1 & E & W1 & Eo & Ht1).
    destruct (IH s1 W1 (Ht1 eq_refl)) as (s2 & E2 & W2 & Eo2).
    exists s2. cbn [send_pieces]. rewrite (bind_Ok _ _ _ _ _ E). split_and!; [done|done|].
    by rewrite Eo2, Eo, <- app_assoc, wires_capsules_cons.
Qed.

(** ** The receiver *)

(** The session once the stream of an identifier is there: it is created, and
    so are those of its type below it. *)
Definition opened_for (id : Z) (s : t) : t :=
  if has_stream id s then s else create_all (StreamId.is_bidirectional id) (lower_ids id) s.

(** A stream that exists, and takes [n] more octets. *)
Record receives (id n : Z) (s : t) : Prop := {
  rc_open : is_closed s = false;
  rc_flow : WtFlowControl.recv_offset (flow_control s) + n <= WtFlowControl.recv_max (flow_control s);
  rc_direction : StreamId.is_bidirectional id || is_peer_initiated id s = true;
  rc_stream : exists st, streams s !! id = Some st /\ WtStream.can_recv st = true /\
    WtStream.recv_offset st + n <= WtStream.recv_max st
}.

(** A session that takes [n] octets on a stream, old or new. *)
Record accepts (id n : Z) (s : t) : Prop := {
  ac_fresh : has_closed id s = false;
  ac_creatable : has_stream id s = false -> creatable (StreamId.is_bidirectional id) s id;
  ac_receives : receives id n (opened_for id s)
}.

(** What the handler checks and does before it delivers: nothing for a stream
    that is there. *)
Lemma handle_stream_data_opened id data fin s n :
  wf s -> data <> [] \/ fin = true -> accepts id n s ->
  exists st, streams (opened_for id s) !! id = Some st /\ good s (opened_for id s) /\
    handle_stream_data id data fin s = deliver_data id data fin st (opened_for id s).
Proof.
  intros H Hd [Hf Hcr [Ho Hfl Hdir (st & Hst & Hc & Hm)]].
  assert ((len data =? 0) && negb fin = false) as Hne.
  { destruct Hd as [Hd| ->]; [|by rewrite andb_false_r]. destruct data; [done|]. rewrite len_cons.
    pose proof (len_nonneg data). by replace (1 + len data =? 0) with false by lia. }
  exists st. split; [done|]. unfold handle_stream_data. rewrite bind_gets, Hf, !bind_gets.
  match goal with |- context [ if ?b then throw _ else _ ] => replace b with false end.
  2: { symmetry. revert Hne. destruct (len data =? 0), fin; cbn; try done. all: by rewrite ?andb_false_r. }
  unfold opened_for in *. destruct (has_stream id s) eqn:Hh; cbn [negb].
  - split; [by apply wt_good_refl|]. rewrite <- negb_orb, Hdir. cbn [negb]. rewrite bind_ret, bind_gets, Hst. done.
  - specialize (Hcr eq_refl). pose proof Hcr as (_ & Hp & _). rewrite Hp. cbn [negb].
    split; [by apply create_all_good; [|apply lower_ids_creatable]|].
    rewrite (bind_Ok _ _ _ _ _ (create_up_to_runs _ _ _ Hcr)), bind_gets, Hst. done.
Qed.

Lemma deliver_data_runs id data fin st s :
  wf s -> streams s !! id = Some st -> WtStream.can_recv st = true ->
  WtStream.recv_offset st + len data <= WtStream.recv_max st ->
  WtFlowControl.recv_offset (flow_control s) + len data <= WtFlowControl.recv_max (flow_control s) ->
  deliver_data id data fin st s = (Ok tt, data_received id st data fin s).
Proof.
  intros H Hst Hc Hm Hf. pose proof (so_wf _ _ _ (wf_streams _ _ H id st Hst)) as Hw. pose proof (len_nonneg data).
  assert (len data <= Varint.MAX_VALUE) by (destruct Hw; lia).
  unfold deliver_data. erewrite bind_Ok.
  2: { apply on_stream_runs. rewrite receive_on_stream_runs, Hc by (done || lia).
       destruct (Z.gtb_spec (WtStream.recv_offset st + len data) (WtStream.recv_max st)); [lia|done]. }
  erewrite bind_Ok.
  2: { unfold on_flow_control, zoom. cbn [flow_control with_stream set_field].
       rewrite consume_recv_runs by (apply H || lia).
       destruct (Z.gtb_spec (WtFlowControl.recv_offset (flow_control s) + len data) (WtFlowControl.recv_max (flow_control s)));
         [lia|reflexivity]. }
  done.
Qed.

(** Data on a stream becomes its event. *)
Lemma receive_one id data fin n s :
  wf s -> data <> [] \/ fin = true -> 0 <= n -> accepts id (len data + n) s ->
  exists s', handle_capsule (Capsule.WtStream id data fin) s = (Ok tt, s') /\ wf s' /\
    events s' = events (opened_for id s) ++ [WtEvent.StreamData id data fin] /\
    (fin = false -> accepts id n s' /\ opened_for id s' = s').
Proof.
  intros H Hd Hn Ha. pose proof (len_nonneg data).
  destruct (handle_stream_data_opened id data fin s _ H Hd Ha) as (st & Hst & G & E).
  destruct Ha as [Hf Hcr [Ho Hfl Hdir (st' & Hst' & Hc & Hm)]]. assert (st' = st) as -> by congruence.
  set (s1 := opened_for id s) in *.
  exists (data_received id st data fin s1).
  assert (wf (data_received id st data fin s1)) as W by (apply data_received_good; [apply G|done|done|lia|lia]).
  split_and!; [| done | done |].
  - unfold handle_capsule. rewrite bind_gets. destruct (bool_decide_reflect (state s = WtSessionState.Closed)) as [Hs|_].
    { exfalso. revert Ho. unfold s1, opened_for, is_closed. destruct (has_stream id s); [by rewrite Hs|].
      destruct (create_all_spec (StreamId.is_bidirectional id) (lower_ids id) s) as (_ & _ & -> & _). by rewrite Hs. }
    rewrite E. by apply deliver_data_runs; [apply G|done|done|lia|lia].
  - intros ->. assert (has_stream id (data_received id st data false s1) = true) as Hh.
    { unfold has_stream. cbn. by rewrite lookup_insert_eq. }
    assert (opened_for id (data_received id st data false s1) = data_received id st data false s1) as Eo
      by (unfold opened_for; by rewrite Hh).
    split; [|done]. constructor; [| by rewrite Hh |rewrite Eo].
    + apply (so_fresh _ _ _ (wf_streams _ _ W id (stream_received (len data) false st) ltac:(apply lookup_insert_eq))).
    + constructor; [done|cbn; lia|done|]. exists (stream_received (len data) false st).
      split_and!; [apply lookup_insert_eq|..]; unfold stream_received; destruct (len data =? 0); cbn; done || lia.
Qed.

Lemma receive_pieces id pieces last fin s :
  wf s -> Forall (fun p => p <> []) pieces -> last <> [] \/ fin = true ->
  accepts id (total pieces + len last) s ->
  exists s', handle_capsules (capsules_of id pieces last fin) s = (Ok tt, s') /\ wf s' /\
    events s' = events (opened_for id s) ++ events_of id pieces last fin.
Proof.
  intros H Hp Hl Ha. revert s H Ha. induction Hp as [|p pieces Hp _ IH]; intros s H Ha.
  - destruct (receive_one id last fin 0 s H Hl (Z.le_refl 0)) as (s' & E & W & Ee & _).
    { cbn in Ha. by rewrite Z.add_0_r. }
    exists s'. cbn [capsules_of map app handle_capsules]. by rewrite (bind_Ok _ _ _ _ _ E).
  - pose proof (len_nonneg (concat pieces)). pose proof (len_nonneg last). rewrite pieces_total_cons, <- Z.add_assoc in Ha.
    destruct (receive_one id p false (total pieces + len last) s H (or_introl Hp) ltac:(unfold total; lia) Ha)
      as (s1 & E & W1 & Ee & K).
    destruct (K eq_refl) as [Ha1 Eo]. destruct (IH s1 W1 Ha1) as (s2 & E2 & W2 & Ee2).
    exists s2. change (capsules_of id (p :: pieces) last fin) with (Capsule.WtStream id p false :: capsules_of id pieces last fin).
    cbn [handle_capsules]. rewrite (bind_Ok _ _ _ _ _ E). split_and!; [done|done|].
    by rewrite Ee2, Eo, Ee, <- app_assoc.
Qed.

(** ** The transport *)

(** Processing the octets of capsules is handling the capsules. *)
Lemma loop_wires fuel cs s s' :
  Forall Wire.wf cs -> (length (wires cs) < fuel)%nat -> handle_capsules cs s = (Ok tt, s') ->
  process_loop fuel (left (wires cs) s) = (Ok tt, left [] s').
Proof.
  intros Hcs. revert fuel s. induction Hcs as [|c cs Hc Hcs IH]; intros [|fuel] s Hf E; try (cbn in Hf; lia).
  - injection E as <-. by rewrite loop_turn by constructor.
  - assert (bytes_ok (wires (c :: cs))) as Hb by (apply wires_bytes; by constructor).
    rewrite loop_turn by done. change (waiting (left (wires (c :: cs)) s)) with (Wire.wire c ++ wires cs).
    rewrite frame_wire by (done || by apply wires_bytes). destruct Hc as [Hfo Hl].
    rewrite decode_payload_wire, left_left by done. unfold bind. rewrite blind_left by apply blind_handle.
    cbn [handle_capsules] in E. unfold bind in E.
    destruct (handle_capsule c s) as [[[]|e|] s1]; [|done|done]. cbn [fst snd].
    apply IH; [|done]. change (wires (c :: cs)) with (Wire.wire c ++ wires cs) in Hf. rewrite length_app in Hf.
    pose proof (Varint.encoded_len_bounds (Wire.capsule_type c)).
    unfold Wire.wire in Hf. rewrite !length_app in Hf. rewrite <- (Varint.len_octets (Wire.capsule_type c)) in *.
    unfold len in *. lia.
Qed.

Lemma capsules_of_wf id pieces last fin :
  Varint.ok id -> Forall data_ok pieces -> data_ok last -> Forall Wire.wf (capsules_of id pieces last fin).
Proof.
  intros Hi Hp Hl. assert (forall p b, data_ok p -> Wire.wf (Capsule.WtStream id p b)) as K.
  { intros p b [Hb Hs]. split; [done|]. cbn [Wire.payload]. rewrite len_app, Varint.len_octets.
    pose proof (Varint.encoded_len_bounds id). lia. }
  apply Forall_app. split; [|by constructor; [apply K|]]. apply Forall_map. eapply Forall_impl; [exact Hp|]. intros p. apply K.
Qed.

Lemma receive_wires cs s s' :
  waiting s = [] -> Forall Wire.wf cs -> room (wires cs) s -> handle_capsules cs s = (Ok tt, s') ->
  receive (wires cs) s = (Ok tt, left [] s').
Proof.
  intros Hw Hcs Hr E. rewrite receive_runs, process_unfold, waiting_left, Hw by done.
  apply loop_wires; [done|cbn; lia|done].
Qed.

(** Both ends together. *)
Lemma pieces_arrive c s id pieces last fin :
  wf c -> can_take id (total pieces + len last) c ->
  Forall data_ok pieces -> data_ok last -> Forall (fun p => p <> []) pieces -> last <> [] \/ fin = true ->
  wf s -> accepts id (total pieces + len last) s -> waiting s = [] ->
  let octets := wires (capsules_of id pieces last fin) in
  room octets s ->
  exists c',
    send_pieces id pieces last fin c = (Ok tt, c') /\ output_buffer c' = output_buffer c ++ octets /\
    forall chunks, concat chunks = octets ->
    exists s',
      receive_all chunks s = (Ok tt, s') /\ wf s' /\ waiting s' = [] /\
      events s' = events (opened_for id s) ++ events_of id pieces last fin.
Proof.
  intros Hc Ht Hp Hl Hne Hlast Hs Ha Hw octets Hr.
  destruct (send_pieces_runs id pieces last fin c Hc Hp Hl Ht) as (c' & E & _ & Eo).
  exists c'. split_and!; [done|done|]. intros chunks Hch.
  assert (Varint.ok id) as Hi by (destruct Ht as [_ _ (st & Hst & _)]; apply (wf_streams _ _ Hc id st Hst)).
  pose proof (capsules_of_wf id pieces last fin Hi Hp Hl) as Hwf.
  destruct (receive_pieces id pieces last fin s Hs Hne Hlast Ha) as (s1 & E1 & W1 & Ee).
  pose proof (receive_wires _ s s1 Hw Hwf Hr E1) as E2. fold octets in E2. rewrite <- Hch in *.
  assert (chunks <> []) as Hn.
  { intros ->. apply (f_equal (@length Z)) in Hch. revert Hch. unfold octets. cbn.
    unfold capsules_of, wires, Wire.wire. rewrite map_app, concat_app. cbn [map concat app]. rewrite !length_app.
    pose proof (Varint.encoded_len_bounds (Wire.capsule_type (Capsule.WtStream id last fin))) as B.
    rewrite <- Varint.len_octets in B. unfold len in B. lia. }
  assert (bytes_ok (concat chunks)) as Hb by (rewrite Hch; by apply wires_bytes).
  pose proof (receive_all_app chunks s Hn Hs Hb Hr) as K.
  pose proof (receive_op (concat chunks) s Hs Hb) as W. unfold op, wp in W. rewrite E2 in W.
  destruct (receive_all chunks s) as [r s2]. destruct K as (rest & E3 & Hrest). rewrite E2 in E3.
  apply pair_equal_spec in E3 as [<- E3]. rewrite (Hrest eq_refl), left_waiting in E3. subst s2.
  exists (left [] s1). split_and!; [done|apply W|done|done].
Qed.

(** ** Properties *)

(** What is sent on a WebTransport stream arrives. A session that may send
    pieces of data on a stream (within the windows of the stream and of the
    session) sends them, and its output is the octets of their capsules. When
    the other session, which takes that many octets on the stream, old or new,
    is fed these octets, cut into chunks in any way, no chunk is refused or
    fails, and it reports exactly these pieces, in order and with the end of
    the stream where it was sent, behind the streams it opened for them. *)
Theorem stream_data_is_delivered c s id pieces last fin :
  wf c -> can_take id (total pieces + len last) c ->
  Forall data_ok pieces -> data_ok last -> Forall (fun p => p <> []) pieces -> last <> [] \/ fin = true ->
  wf s -> accepts id (total pieces + len last) s -> waiting s = [] ->
  let octets := wires (capsules_of id pieces last fin) in
  room octets s ->
  exists c',
    send_pieces id pieces last fin c = (Ok tt, c') /\ output_buffer c' = output_buffer c ++ octets /\
    forall chunks, concat chunks = octets ->
    exists s',
      receive_all chunks s = (Ok tt, s') /\ wf s' /\ waiting s' = [] /\
      events s' = events (opened_for id s) ++ events_of id pieces last fin.
Proof. intros. by apply pieces_arrive. Qed.

(** A client that has opened a stream, and two pieces with the end. *)
Definition sample_client : t := snd (open_stream true (sample_session Role.Client)).
Definition sample_pieces : list (list Z) := [[1; 2]; [3]].

Lemma sample_client_wf : wf sample_client.
Proof. exact (proj1 (open_stream_op true _ (sample_session_wf Role.Client))). Qed.

Lemma sample_take : can_take 0 5 sample_client.
Proof. constructor; [done|by vm_compute|]. eexists. split; [reflexivity|by vm_compute]. Qed.

Lemma sample_accepts : accepts 0 5 (sample_session Role.Server).
Proof.
  constructor; [done|intros _; repeat split; by vm_compute|]. constructor; [done|by vm_compute|done|].
  eexists. split; [reflexivity|by vm_compute].
Qed.

Lemma stream_data_is_delivered_witness :
  exists c' s',
    send_pieces 0 sample_pieces [4; 5] true sample_client = (Ok tt, c') /\
    receive_all (map (fun b => [b]) (output_buffer c')) (sample_session Role.Server) = (Ok tt, s') /\
    events s' = WtEvent.StreamOpened 0 true :: events_of 0 sample_pieces [4; 5] true.
Proof.
  assert (forall l, concat (map (fun b : Z => [b]) l) = l) as Hcat by (induction l; cbn; by f_equal).
  destruct (stream_data_is_delivered sample_client (sample_session Role.Server) 0 sample_pieces [4; 5] true)
    as (c' & E & Eo & K).
  - apply sample_client_wf.
  - apply sample_take.
  - repeat constructor; by vm_compute.
  - split; [repeat constructor; by vm_compute|by vm_compute].
  - by repeat constructor.
  - by left.
  - apply sample_session_wf.
  - apply sample_accepts.
  - done.
  - by vm_compute.
  - destruct (K (map (fun b => [b]) (output_buffer c'))) as (s' & E' & _ & _ & Ee).
    { rewrite Hcat, Eo. reflexivity. }
    exists c', s'. split_and!; [exact E|exact E'|]. rewrite Ee. reflexivity.
Defined.
