(* ===== verification/WtStreams.v ===== *)
(** * WtStreams: the data of many streams between two sessions

    A session writes to any of its streams, in any order; the other session
    takes the octets.  Nothing is said here of windows: the writes the sender
    accepted and the octets the receiver accepted are what the lemmas are
    about, so they hold across whatever opened the windows in between. *)

From S2P Require Import Prelude Syntax Config Bounded ConnBase.
From S2P Require Import WtVarint WtStream WtCapsule WtCodec WtInit WtSession WtInv WtSafe WtLoop WtDeliver.
Import WtSession WtInvariant.

(** ** Writes *)

(** Data for a stream, and whether it ends there. *)
Record write : Type := Write { target : Z; content : list Z; final : bool }.

Definition capsule_of (w : write) : Capsule.t := Capsule.WtStream (target w) (content w) (final w).
Definition written_octets (ws : list write) : list Z := wires (map capsule_of ws).

(** What was written to one stream. *)
Definition piece_of (id : Z) (w : write) : option (list Z * bool) :=
  if target w =? id then Some (content w, final w) else None.
Definition pieces_of (id : Z) (ws : list write) : list (list Z * bool) := omap (piece_of id) ws.

(** Only the last piece of a stream ends it. *)
Fixpoint in_order (ended : bool) (ps : list (list Z * bool)) : Prop :=
  match ps with
  | [] => True
  | (_, fin) :: ps => ended = false /\ in_order fin ps
  end.

Lemma written_octets_cons w ws : written_octets (w :: ws) = Wire.wire (capsule_of w) ++ written_octets ws.
Proof. done. Qed.

(** ** The sender *)

Fixpoint send_all (ws : list write) : M unit :=
  match ws with
  | [] => ret tt
  | w :: ws => send_stream_data (target w) (content w) (final w) ;! send_all ws
  end.

(** A write that is accepted met a stream that takes it. *)
Lemma send_stream_data_Ok id data fin s s' :
  wf s -> data_ok data -> send_stream_data id data fin s = (Ok tt, s') ->
  exists st, streams s !! id = Some st /\ WtStream.can_send st = true /\
    s' = if fin then snd (remove_if_closed id (data_sent id st data fin s)) else data_sent id st data fin s.
Proof.
  intros H Hd E. pose proof E as E0. unfold send_stream_data in E0. rewrite bind_gets in E0.
  destruct (is_open s) eqn:Ho; [|done]. cbn [negb] in E0. unfold stream_mut in E0. rewrite bind_assoc, bind_gets in E0.
  destruct (streams s !! id) as [st|] eqn:Hst; [|done]. cbn [ok_or] in E0. rewrite bind_lift_Ok in E0.
  destruct (WtStream.can_send st) eqn:Hc; [|done]. destruct (WtStream.has_send_part st) eqn:Hp; [|done].
  cbn [negb] in E0. rewrite bind_gets in E0. destruct Hd as [Hb Hl]. pose proof (len_nonneg data).
  pose proof (wf_streams _ _ H id st Hst) as Hok.
  destruct (Z.gtb_spec (len data) (WtFlowControl.send_available (flow_control s))) as [|Ha]; [done|].
  assert (WtStream.send_offset st + len data <= WtStream.send_max st) as Hm.
  { apply Z.nlt_ge. intros Hm. revert E0. unfold bind, on_stream at 1.
    rewrite send_data_runs by (apply Hok || done || lia).
    by destruct (Z.gtb_spec (WtStream.send_offset st + len data) (WtStream.send_max st)); [|lia]. }
  rewrite (send_stream_data_runs id st) in E by done. injection E as <-. exists st. by split_and!.
Qed.

(** A stream that takes no more data. *)
Definition shut (id : Z) (s : t) : Prop := forall st, streams s !! id = Some st -> WtStream.can_send st = false.

Lemma streams_removed id j s :
  streams (snd (remove_if_closed id s)) !! j = streams s !! j \/ j = id /\ streams (snd (remove_if_closed id s)) !! j = None.
Proof.
  rewrite remove_if_closed_runs. cbn [snd]. destruct (decide (j = id)) as [->|Hj].
  - repeat case_match; try (by left). right. split; [done|]. cbn. apply lookup_delete_eq.
  - left. repeat case_match; try done. cbn. by rewrite lookup_delete_ne.
Qed.

Lemma send_shuts id data fin s s' j :
  wf s -> data_ok data -> send_stream_data id data fin s = (Ok tt, s') ->
  (shut j s -> j <> id /\ shut j s') /\ (fin = true -> shut id s').
Proof.
  intros H Hd E. apply send_stream_data_Ok in E as (st & Hst & Hc & ->); [|done..].
  assert (forall k, streams (data_sent id st data fin s) !! k = if decide (k = id) then Some (stream_sent (len data) fin st) else streams s !! k) as Hk.
  { intros k. cbn. destruct (decide (k = id)) as [->|?]; [apply lookup_insert_eq|by rewrite lookup_insert_ne]. }
  split.
  - intros Hj. assert (j <> id) as Hne by (intros ->; specialize (Hj st Hst); congruence). split; [done|]. intros x Hx. apply Hj.
    rewrite <- Hx. destruct fin; [|by rewrite Hk, decide_False].
    destruct (streams_removed id j (data_sent id st data true s)) as [->|[-> _]]; [by rewrite Hk, decide_False|done].
  - intros -> x. destruct (streams_removed id id (data_sent id st data true s)) as [->|[_ ->]]; [|done].
    rewrite Hk, decide_True by done. by intros [= <-].
Qed.

(** The output is the capsules of the writes, and a stream that was ended took
    no more. *)
Lemma send_all_Ok ws s s' :
  wf s -> Forall (fun w => data_ok (content w)) ws -> send_all ws s = (Ok tt, s') ->
  output_buffer s' = output_buffer s ++ written_octets ws /\ Forall (fun w => Wire.wf (capsule_of w)) ws /\
  forall id ended, (ended = true -> shut id s) -> in_order ended (pieces_of id ws).
Proof.
  intros H Hd. revert s H. induction Hd as [|w ws Hw _ IH]; intros s H.
  { intros [= <-]. cbn. by rewrite app_nil_r. }
  cbn [send_all]. unfold bind. destruct (send_stream_data _ _ _ s) as [[[]|e|] s1] eqn:E; [|done|done]. intros E'.
  pose proof (send_stream_data_op (target w) (content w) (final w) s H Hw) as Hop. unfold op, wp in Hop. rewrite E in Hop.
  destruct Hop as [H1 _]. destruct (IH s1 H1 E') as (Eo & Hwf & Hord).
  pose proof (fun j => send_shuts _ _ _ _ _ j H Hw E) as Hs.
  apply send_stream_data_Ok in E as (st & Hst & Hc & E1); [|done..].
  split_and!.
  - rewrite Eo, E1, written_octets_cons, app_assoc. f_equal.
    unfold capsule_of. destruct (final w); [|done]. rewrite remove_if_closed_runs. cbn [snd]. by repeat case_match.
  - constructor; [|done]. destruct Hw as [Hb Hl]. pose proof (so_range _ _ _ (wf_streams _ _ H _ _ Hst)) as Hi.
    split; [by split|]. cbn [Wire.payload capsule_of]. rewrite len_app, Varint.len_octets.
    pose proof (Varint.encoded_len_bounds (target w)). lia.
  - intros id ended He. unfold pieces_of. cbn. unfold piece_of at 1. destruct (Z.eqb_spec (target w) id) as [<-|Hne].
    + split; [|apply Hord; apply (proj2 (Hs (target w)))]. destruct ended; [|done].
      by destruct (proj1 (Hs (target w)) (He eq_refl)).
    + apply Hord. intros Ht. by apply (proj1 (Hs id)), He.
Qed.

(** ** The receiver *)

(** What one write makes the session report: the streams it opened, then the
    data; no stream goes away. *)
Record told (w : write) (es : list WtEvent.t) (s s' : t) : Prop := {
  told_wf : wf s';
  told_open : is_closed s' = false;
  told_events : events s' = events s ++ es;
  told_shape : exists opened,
    es = map (fun i => WtEvent.StreamOpened i (StreamId.is_bidirectional (target w))) opened
           ++ [WtEvent.StreamData (target w) (content w) (final w)] /\
    (forall j, has_stream j s' = has_stream j s || bool_decide (j ∈ opened)) /\
    (forall j, j ∈ opened -> has_stream j s = false /\ StreamId.is_bidirectional j = StreamId.is_bidirectional (target w)) /\
    has_stream (target w) s' = true
}.

Inductive told_all : list write -> list WtEvent.t -> t -> t -> Prop :=
| told_none s : told_all [] [] s s
| told_more w ws es es' s s1 s' : told w es s s1 -> told_all ws es' s1 s' -> told_all (w :: ws) (es ++ es') s s'.

Lemma told_all_open ws es s s' :
  told_all ws es s s' -> is_closed s = false -> events s' = events s ++ es /\ is_closed s' = false.
Proof.
  induction 1 as [s|w ws es es' s s1 s' Hw _ IH]; [by rewrite app_nil_r|]. intros _. destruct Hw as [? Ho He _].
  destruct (IH Ho) as [-> ?]. by rewrite He, app_assoc.
Qed.

(** *** The streams that are created *)

Lemma created_known b s i j : known j (created b s i) = bool_decide (j = i) || known j s.
Proof.
  unfold known, has_stream, has_closed, created. cbn. destruct (decide (j = i)) as [->|Hj].
  - rewrite (bool_decide_eq_true_2 (i = i)) by done. rewrite lookup_insert_eq. by rewrite bool_decide_eq_true_2.
  - rewrite (bool_decide_eq_false_2 (j = i)) by done. by rewrite lookup_insert_ne.
Qed.

Lemma created_has b s i j : has_stream j (created b s i) = bool_decide (j = i) || has_stream j s.
Proof.
  unfold has_stream, created. cbn. destruct (decide (j = i)) as [->|Hj].
  - rewrite (bool_decide_eq_true_2 (i = i)) by done. rewrite lookup_insert_eq. by rewrite bool_decide_eq_true_2.
  - rewrite (bool_decide_eq_false_2 (j = i)) by done. by rewrite lookup_insert_ne.
Qed.

(** They were unknown, and each is reported. *)
Lemma create_all_events b ids s :
  exists opened, events (create_all b ids s) = events s ++ map (fun i => WtEvent.StreamOpened i b) opened /\
    (forall j, has_stream j (create_all b ids s) = has_stream j s || bool_decide (j ∈ opened)) /\
    (forall j, j ∈ opened -> j ∈ ids /\ known j s = false) /\
    forall j, j ∈ ids -> known j s = false -> j ∈ opened.
Proof.
  revert s. induction ids as [|x ids IH]; intros s.
  { exists []. split_and!; [by rewrite app_nil_r| |by intros j Hj%elem_of_nil|by intros j Hj%elem_of_nil].
    intros j. by rewrite bool_decide_eq_false_2, orb_false_r by apply not_elem_of_nil. }
  unfold create_all. cbn [fold_left]. fold (create_all b ids (if known x s then s else created b s x)).
  destruct (known x s) eqn:Hx.
  - destruct (IH s) as (o & He & Hh & Hin & Ho). exists o. split_and!; [done|done| |].
    + intros j Hj. destruct (Hin j Hj). split; [by right|done].
    + intros j [->|Hj]%elem_of_cons Hk; [congruence|by apply Ho].
  - destruct (IH (created b s x)) as (o & He & Hh & Hin & Ho). exists (x :: o). split_and!.
    + rewrite He. unfold created. cbn. by rewrite <- app_assoc.
    + intros j. rewrite Hh, created_has, (bool_decide_ext (j ∈ x :: o) (j = x \/ j ∈ o)) by apply elem_of_cons.
      rewrite bool_decide_or. destruct (has_stream j s), (bool_decide (j = x)), (bool_decide (j ∈ o)); done.
    + intros j [->|Hj]%elem_of_cons; [split; [by left|done]|]. destruct (Hin j Hj) as [? Hk].
      rewrite created_known in Hk. apply orb_false_iff in Hk as [_ Hk]. split; [by right|done].
    + intros j [->|Hj]%elem_of_cons Hk; [by left|]. destruct (decide (j = x)) as [->|Hjx]; [by left|]. right. apply Ho; [done|].
      rewrite created_known, Hk, bool_decide_eq_false_2 by done. done.
Qed.

(** *** A capsule that was accepted *)

Lemma deliver_data_Ok id data fin st s s' :
  wf s -> streams s !! id = Some st -> len data <= Varint.MAX_VALUE ->
  deliver_data id data fin st s = (Ok tt, s') -> s' = data_received id st data fin s.
Proof.
  intros H Hst Hl. pose proof (wf_streams _ _ H id st Hst) as Hok. pose proof (len_nonneg data).
  unfold deliver_data, bind at 1, on_stream. rewrite receive_on_stream_runs by (apply Hok || lia).
  destruct (WtStream.can_recv st); [|done].
  destruct (Z.gtb_spec (WtStream.recv_offset st + len data) (WtStream.recv_max st)); [done|].
  unfold bind, on_flow_control, zoom. cbn [flow_control set_field]. rewrite consume_recv_runs by (apply H || lia).
  destruct (Z.gtb_spec (WtFlowControl.recv_offset (flow_control s) + len data) (WtFlowControl.recv_max (flow_control s))); [done|].
  by intros [= <-].
Qed.

Lemma data_received_has id st data fin s j :
  streams s !! id = Some st -> has_stream j (data_received id st data fin s) = has_stream j s.
Proof.
  intros Hst. unfold has_stream, data_received. cbn. apply bool_decide_ext. destruct (decide (j = id)) as [->|Hj].
  - rewrite lookup_insert_eq, Hst. split; by intros.
  - by rewrite lookup_insert_ne.
Qed.

(** What comes behind the checks of [handle_stream_data], in a session in which
    the stream is there. *)
Lemma delivered_tells id data fin s s1 s' opened :
  wf s1 -> is_closed s = false -> state s1 = state s -> len data <= Varint.MAX_VALUE -> wf s' ->
  events s1 = events s ++ map (fun i => WtEvent.StreamOpened i (StreamId.is_bidirectional id)) opened ->
  (forall j, has_stream j s1 = has_stream j s || bool_decide (j ∈ opened)) ->
  (forall j, j ∈ opened -> has_stream j s = false /\ StreamId.is_bidirectional j = StreamId.is_bidirectional id) ->
  (let! o := gets (fun s => streams s !! id) in
   match o with None => panic | Some stream => deliver_data id data fin stream end) s1 = (Ok tt, s') ->
  exists es, told (Write id data fin) es s s'.
Proof.
  intros H1 Ho Hst Hl Hw He Hh Hin. rewrite bind_gets. destruct (streams s1 !! id) as [st|] eqn:Es; [|done].
  intros E. apply deliver_data_Ok in E as ->; [|done..].
  exists (map (fun i => WtEvent.StreamOpened i (StreamId.is_bidirectional id)) opened ++ [WtEvent.StreamData id data fin]).
  constructor; [done| | |].
  - revert Ho. unfold is_closed. cbn. by rewrite Hst.
  - cbn. by rewrite He, app_assoc.
  - exists opened. split_and!; [done| |done|].
    + intros j. by rewrite data_received_has.
    + rewrite data_received_has by done. unfold has_stream. cbn [target]. by rewrite Es.
Qed.

Lemma lower_ids_direction b s sid j : creatable b s sid -> j ∈ lower_ids sid -> StreamId.is_bidirectional j = b.
Proof. intros Hc Hj. destruct (lower_ids_creatable b s sid Hc) as [Hall _]. rewrite Forall_forall in Hall. by destruct (Hall j Hj) as (_ & _ & ? & _). Qed.

Lemma handle_capsule_tells w s s' :
  wf s -> is_closed s = false -> Wire.wf (capsule_of w) -> handle_capsule (capsule_of w) s = (Ok tt, s') ->
  exists es, told w es s s'.
Proof.
  intros H Ho Hc E. pose proof (handle_capsule_op _ _ H Hc) as Hw. unfold op, wp in Hw. rewrite E in Hw. destruct Hw as [Hw _].
  destruct w as [id data fin]. unfold capsule_of in *. cbn [target content final] in *. destruct Hc as [[Hv Hb] Hl].
  assert (len data <= Varint.MAX_VALUE) as Hl'.
  { cbn [Wire.payload] in Hl. rewrite len_app, Varint.len_octets in Hl. pose proof (Varint.encoded_len_bounds id). lia. }
  unfold handle_capsule in E. rewrite bind_gets in E. unfold is_closed in Ho. rewrite Ho in E.
  unfold handle_stream_data in E. rewrite bind_gets in E. destruct (has_closed id s); [done|]. rewrite !bind_gets in E.
  match type of E with (if ?b then _ else _) _ = _ => destruct b; [done|] end.
  destruct (has_stream id s) eqn:Hh; cbn [negb] in E.
  - match type of E with bind (if ?b then _ else _) _ _ = _ => destruct b; [done|] end. rewrite bind_ret in E.
    apply (delivered_tells id data fin s s s' []); try done; [by rewrite app_nil_r| |by intros j Hj%elem_of_nil].
    intros j. by rewrite bool_decide_eq_false_2, orb_false_r by apply not_elem_of_nil.
  - destruct (is_peer_initiated id s) eqn:Hp; [|done]. cbn [negb] in E.
    pose proof (create_up_to_op (StreamId.is_bidirectional id) id s H Hv Hp eq_refl) as W. unfold wp in W. unfold bind at 1 in E.
    destruct (create_peer_streams_up_to _ _ s) as [[[]|e|] s1]; [|done|done]. destruct W as ([H1 _] & -> & Hcr).
    destruct (create_all_events (StreamId.is_bidirectional id) (lower_ids id) s) as (opened & He & Hhas & Hin & _).
    destruct (create_all_spec (StreamId.is_bidirectional id) (lower_ids id) s) as (_ & _ & Hst & _).
    eapply delivered_tells; [exact H1|done|exact Hst|done|done|exact He|exact Hhas| |exact E].
    intros j Hj. destruct (Hin j Hj) as [Hids Hk]. apply orb_false_iff in Hk as [? _]. split; [done|]. by eapply lower_ids_direction.
Qed.

Lemma handle_capsules_tell ws s s' :
  wf s -> is_closed s = false -> Forall (fun w => Wire.wf (capsule_of w)) ws ->
  handle_capsules (map capsule_of ws) s = (Ok tt, s') -> exists es, told_all ws es s s'.
Proof.
  intros H Ho Hws. revert s H Ho. induction Hws as [|w ws Hw _ IH]; intros s H Ho.
  { intros [= <-]. exists []. constructor. }
  cbn [map handle_capsules]. unfold bind. destruct (handle_capsule _ s) as [[[]|e|] s1] eqn:E; [|done|done].
  apply handle_capsule_tells in E as [es He]; [|done..]. intros E'.
  destruct (IH s1 (told_wf _ _ _ _ He) (told_open _ _ _ _ He) E') as [es' He']. exists (es ++ es'). by econstructor.
Qed.

(** ** Octets that are cut anywhere *)

(** Processing the first octets of some capsules handles those that are
    complete, and the rest waits. *)
Lemma loop_prefix fuel cs buf more s s' :
  Forall Wire.wf cs -> buf ++ more = wires cs -> (length buf < fuel)%nat ->
  process_loop fuel (left buf s) = (Ok tt, s') ->
  exists cs1 cs2 rest s1, cs = cs1 ++ cs2 /\ rest ++ more = wires cs2 /\ Wire.frame rest = None /\
    handle_capsules cs1 s = (Ok tt, s1) /\ s' = left rest s1.
Proof.
  revert cs buf s. induction fuel as [|fuel IH]; intros cs buf s Hcs Hbuf Hf E; [lia|].
  pose proof (wires_bytes cs Hcs) as Hw. rewrite <- Hbuf in Hw. apply bytes_ok_app in Hw as [Hb Hm].
  rewrite loop_turn in E by done. change (waiting (left buf s)) with buf in E.
  destruct (Wire.frame buf) as [[[ty pl] rest]|] eqn:Ef.
  2: { injection E as <-. by exists [], cs, buf, s. }
  pose proof (frame_extend _ _ _ _ _ Hb Hm Ef) as Ef'. rewrite Hbuf in Ef'.
  destruct cs as [|c cs]; [done|]. apply Forall_cons in Hcs as [Hc Hcs].
  cbn [wires map concat] in Ef'. rewrite frame_wire in Ef' by (done || by apply wires_bytes).
  injection Ef' as <- <- Hr. destruct (frame_inv _ _ _ _ Hb Ef) as (_ & _ & _ & _ & Hl).
  rewrite decode_payload_wire, left_left in E by apply Hc. unfold bind in E. rewrite blind_left in E by apply blind_handle.
  destruct (handle_capsule c s) as [[[]|e|] s1] eqn:Eh; [|done|done]. cbn [fst snd] in E.
  destruct (IH cs rest s1 Hcs (eq_sym Hr)) as (cs1 & cs2 & r & s2 & -> & Hr2 & Hn & Hd & ->); [|done|].
  { pose proof (len_nonneg (Wire.payload c)). unfold len in *. lia. }
  exists (c :: cs1), cs2, r, s2. cbn [handle_capsules]. by rewrite (bind_Ok _ _ _ _ _ Eh).
Qed.

(** The same for writes: what was handled is told, and the rest waits. *)
Lemma writes_prefix ws chunk more s s0 s' n :
  wf s -> is_closed s = false -> Forall (fun w => Wire.wf (capsule_of w)) ws ->
  waiting s ++ chunk ++ more = written_octets ws ->
  feed chunk s = (Ok n, s0) -> process s0 = (Ok tt, s') ->
  exists ws1 ws2 es s1, ws = ws1 ++ ws2 /\ told_all ws1 es s s1 /\ s' = left (waiting s') s1 /\
    waiting s' ++ more = written_octets ws2 /\ Wire.frame (waiting s') = None.
Proof.
  intros H Ho Hws Hw Ef Ep.
  assert (s0 = left (waiting s ++ chunk) s) as ->.
  { destruct (Z.le_gt_cases (len (waiting s) + len chunk) (limit s)) as [Hr|Hr].
    - rewrite feed_runs in Ef by done. by injection Ef.
    - by rewrite feed_full in Ef. }
  rewrite process_unfold in Ep. rewrite app_assoc in Hw.
  apply (loop_prefix _ (map capsule_of ws) _ more) in Ep as (cs1 & cs2 & rest & s1 & Hcs & Hr & Hn & Hh & ->);
    [|by apply Forall_map|done|rewrite waiting_left; lia].
  apply map_eq_app in Hcs as (ws1 & ws2 & -> & <- & <-). apply Forall_app in Hws as [Hws1 _].
  apply handle_capsules_tell in Hh as [es He]; [|done..].
  exists ws1, ws2, es, s1. by split_and!.
Qed.

(** ** What leaves the streams of a session *)

(** The streams, what waits and what is to be reported are as they were. *)
Record quiet (s s' : t) : Prop := {
  qt_events : events s' = events s;
  qt_waiting : waiting s' = waiting s;
  qt_state : state s' = state s;
  qt_has : forall j, has_stream j s' = has_stream j s
}.

#[export] Instance quiet_preorder : PreOrder quiet.
Proof.
  split; [by intros s|]. intros s s1 s2 [E1 W1 S1 H1] [E2 W2 S2 H2]. constructor; [congruence..|]. intros j. by rewrite H2.
Qed.

Definition steady {A} (X : M A) : Prop := forall s, quiet s (snd (X s)).

Lemma steady_bind {A B} (X : M A) (k : A -> M B) : steady X -> (forall a, steady (k a)) -> steady (bind X k).
Proof. intros HX Hk s. specialize (HX s). unfold bind. destruct (X s) as [[a|e|] s1]; [|done..]. etrans; [exact HX|apply Hk]. Qed.
Lemma steady_same {A} (X : M A) : (forall s, snd (X s) = s) -> steady X.
Proof. intros HX s. by rewrite HX. Qed.
Lemma steady_flow {A} (m : ST WtFlowControl.t WtError.t A) : steady (on_flow_control m).
Proof. intros s. unfold on_flow_control, zoom. by destruct (m (flow_control s)). Qed.
Lemma steady_encoder {A} (m : ST CapsuleEncoder.t WtError.t A) : steady (on_encoder m).
Proof. intros s. unfold on_encoder, zoom. by destruct (m (capsule_encoder s)). Qed.
Lemma steady_emit c : steady (emit c).
Proof. unfold emit. apply steady_bind; [apply steady_encoder|]. intros _. by apply steady_bind; [apply steady_encoder|]. Qed.

(** The change of a stream that is there. *)
Lemma quiet_stream {A} id st (m : ST WtStream.t WtError.t A) s :
  streams s !! id = Some st -> quiet s (snd (on_stream id st m s)).
Proof.
  intros Hst. unfold on_stream. destruct (m st) as [r st']. constructor; try done. intros j. unfold has_stream. cbn.
  apply bool_decide_ext. destruct (decide (j = id)) as [->|Hj]; [|by rewrite lookup_insert_ne]. rewrite lookup_insert_eq, Hst. split; by intros.
Qed.

Ltac steady :=
  repeat first
    [ apply steady_flow | apply steady_emit | apply steady_same; intros; reflexivity | apply steady_bind; [|intros] | case_match ].

Lemma steady_grow_recv n : steady (grow_recv_window n).
Proof. unfold grow_recv_window, send_max_data. steady. Qed.
Lemma steady_grow_streams n b : steady (grow_max_streams n b).
Proof. unfold grow_max_streams, send_max_streams. steady. Qed.

Lemma steady_grow_stream id n : steady (grow_stream_recv_window id n).
Proof.
  intros s. unfold grow_stream_recv_window, send_max_stream_data, stream_mut. rewrite bind_assoc, bind_gets.
  destruct (streams s !! id) as [st|] eqn:Hst; [|done]. cbn [ok_or]. rewrite bind_lift_Ok.
  destruct (ok_or (checked_add _ _) _) as [new_max|e|]; [|done..]. rewrite bind_lift_Ok. case_match; [done|].
  rewrite bind_assoc, bind_gets, Hst. cbn [ok_or]. rewrite bind_lift_Ok. do 2 (case_match; [done|]).
  destruct (check_max_stream_data_recv_state st) as [[]|e|]; [|done..]. rewrite bind_lift_Ok. cbv zeta. case_match; [done|].
  pose proof (quiet_stream id st (WtStream.update_recv_max new_max) s Hst) as Hq. unfold bind.
  destruct (on_stream _ _ _ s) as [[[]|e|] s1]; [|done..]. etrans; [exact Hq|]. apply steady_emit.
Qed.

(** Polling takes an event, and a stream away only with the end of its data. *)
Lemma poll_event_keeps s o s' :
  poll_event s = (Ok o, s') ->
  waiting s' = waiting s /\ state s' = state s /\
  forall j, (forall data, o <> Some (WtEvent.StreamData j data true)) -> has_stream j s' = has_stream j s.
Proof.
  unfold poll_event. rewrite bind_gets. destruct (events s) as [|e es]; [by intros [= <- <-]|]. rewrite bind_modify.
  set (s1 := s <| events := es |>).
  assert (forall j, has_stream j s1 = has_stream j s) as Hs by done.
  destruct e as [| id data [] | | | | |]; rewrite ?bind_ret; try (by intros [= <- <-]; split_and!).
  rewrite bind_assoc, bind_gets. set (m := match _ with Some _ => _ | None => _ end).
  assert (exists s2, m s1 = (Ok tt, s2) /\ quiet s1 s2) as (s2 & Em & Q).
  { unfold m. destruct (streams s1 !! id) as [st|] eqn:Hst; [|by exists s1]. eexists. split; [reflexivity|].
    exact (quiet_stream id st (modify WtStream.mark_data_read) s1 Hst). }
  rewrite bind_assoc, (bind_Ok _ _ _ _ _ Em). unfold bind, ret. rewrite remove_if_closed_runs. intros [= <- <-].
  destruct Q as [_ Hw Hst Hh]. split_and!; [by repeat case_match|by repeat case_match|].
  intros j Hj. assert (j <> id) as Hne by (intros ->; by apply (Hj data)).
  rewrite <- Hs, <- Hh. repeat case_match; try done. unfold has_stream. cbn. by rewrite lookup_delete_ne.
Qed.
