(* ===== verification/ConnTunnel.v ===== *)
(** * ConnTunnel: WebTransport over HTTP/2

    The composition of the two halves of the library: the output of a
    WebTransport session, sent as the content of its CONNECT stream by one
    connection, delivered to another and fed to the session there. *)

From S2P Require Import WtVarint WtStream WtCapsule WtCodec WtInit WtSession WtInv WtSafe WtLoop WtDeliver.
From S2P Require Import Prelude Errors StreamIds Config Flow Bounded StreamCore FrameTypes.
From S2P Require Import FrameEncode FrameDecode FrameCodec HpackInteger Syntax HpackTable HpackCodec.
From S2P Require Import Validation Stream ConnBase ConnHeaders ConnRecv ConnInv ConnSafe.
From S2P Require Import ConnSample ConnFlow ConnBlock ConnHandle ConnApi ConnIndep ConnChunks ConnDeliver ConnData.
Import Connection Headers Handlers Invariant Block Api Delivering Delivery.

(** ** Sending content *)

(** A stream on which [n] octets can be sent at once: nothing is queued, and
    both windows let them out. *)
Record sending (sid n : Z) (s : Stream.t) (c : t) : Prop := mk_sending {
  sd_stream : streams c !! sid = Some s;
  sd_open : StreamState.can_send (Stream.get_state s) = true;
  sd_end : Stream.pending_end_stream s = false;
  sd_empty : buffered s = [];
  sd_buffer : n <= DEFAULT_INITIAL_WINDOW_SIZE;
  sd_window : n <= FlowControl.send_available (flow_control c);
  sd_stream_window : n <= FlowControl.send_available (Stream.flow_control s)
}.

(** The stream with the octets in its buffer. *)
Definition queued (data : list Z) (s : Stream.t) : Stream.t :=
  s <| Stream.send_buffer := SendBuffer.mk data (SendBuffer.max_size (Stream.send_buffer s)) |>.

Lemma queued_wf data s :
  Stream.wf s -> bytes_ok data -> len data <= DEFAULT_INITIAL_WINDOW_SIZE -> Stream.wf (queued data s).
Proof. intros (Hf & _ & Hm & _ & Hr) Hb Hl. by split_and!. Qed.

Lemma queue_data_eq sid data s c :
  wf c -> bytes_ok data -> sending sid (len data) s c ->
  queue_data sid data false c = (Ok tt, put sid (queued data s) c).
Proof.
  intros H Hb []. destruct (wf_stream _ _ _ H sd_stream0) as [_ (_ & _ & Hm & _)].
  assert (SendBuffer.can_push (Stream.send_buffer s) (len data) = true) as Hc.
  { unfold SendBuffer.can_push, saturating_add. fold (buffered s). rewrite sd_empty0, len_nil, Hm.
    unfold DEFAULT_INITIAL_WINDOW_SIZE, USIZE_MAX in *. lia. }
  unfold queue_data, require_stream. runs. rewrite sd_stream0. cbn [ok_or]. runs. rewrite Hc. cbn [negb].
  assert (Stream.send_buffer_mut (SendBuffer.push data) s = (Ok 0, queued data s)) as E.
  { unfold Stream.send_buffer_mut, zoom. rewrite send_push_all by (done || rewrite Hm; by vm_compute).
    fold (buffered s). by rewrite sd_empty0. }
  rewrite (bind_Ok _ _ _ _ _ (stream_mut_eq sid s _ c _ _ sd_stream0 E)). done.
Qed.

Lemma sending_allowance sid data s c :
  sending sid (len data) s c -> allowance (queued data s) (put sid (queued data s) c) = len data.
Proof. intros []. unfold allowance. cbn. lia. Qed.

Lemma flush_stream_state sid s c :
  ends s c = false ->
  exists s', (streams c !! sid = Some s -> streams (flushed sid s c) !! sid = Some s') /\
             Stream.get_state s' = Stream.get_state s.
Proof.
  intros He. unfold flushed. rewrite He. destruct (_ && _); [by exists s|].
  exists (after_send (allowance s c) s). split; [|done]. intros _. apply lookup_insert_eq.
Qed.

(** [send_data], without the end of the stream, is queueing and flushing. *)
Lemma send_data_eq nz data s c :
  let sid := StreamId.as_u32 nz in
  wf c -> bytes_ok data -> sending sid (len data) s c ->
  send_data nz data false c = (Ok tt, flushed sid (queued data s) (put sid (queued data s) c)) /\
  wf (put sid (queued data s) c).
Proof.
  intros sid H Hb Hsd. pose proof Hsd as []. destruct (wf_stream _ _ _ H sd_stream0) as [Hid Hsw].
  assert (wf (put sid (queued data s) c)) as W.
  { eapply good_wf, (put_good 0); try done; [by apply queued_wf|]. unfold content. rewrite sd_stream0. cbn. lia. }
  split; [|done]. unfold send_data, require_stream. fold sid. runs. rewrite sd_stream0. cbn [ok_or]. runs.
  rewrite sd_end0. erewrite bind_Ok.
  2: { apply (stream_mut_eq sid s _ c (Ok tt) s); [done|].
       unfold Stream.state_machine_mut, zoom, StateMachine.send_data, Stream.get_state in *. destruct s as [i [st]]. cbn in *.
       by destruct st. }
  rewrite put_id by done.
  rewrite (bind_Ok _ _ _ _ _ (queue_data_eq sid data s c H Hb Hsd)).
  rewrite (bind_Ok _ _ _ _ _ (flush_eq sid (queued data s) _ W (put_lookup _ _ _) sd_open0)).
  destruct (flush_stream_state sid (queued data s) (put sid (queued data s) c)) as (s' & Hs' & Hst).
  { unfold ends. cbn [Stream.pending_end_stream queued set_field]. by rewrite sd_end0. }
  unfold try_remove_closed_stream. runs. rewrite (Hs' (put_lookup _ _ _)), Hst.
  replace (bool_decide (Stream.get_state (queued data s) = StreamState.Closed)) with false; [done|].
  symmetry. apply bool_decide_false. change (Stream.get_state (queued data s)) with (Stream.get_state s).
  intros E. by rewrite E in sd_open0.
Qed.

(** A connection that is ready to take frames up to the size a peer sends. *)
Record listening (sid n : Z) (st : Stream.t) (c r : t) : Prop := mk_listening {
  ls_preface : ~ awaiting r;
  ls_rest : at_rest (frame_decoder r);
  ls_size : peer_max_frame c <= FrameDecoder.max_frame_size (frame_decoder r);
  ls_receiving : receiving sid st n false r
}.

(** The content an application takes from the events of a stream. *)
Definition content_of (sid : Z) (evs : list Event.t) : list (list Z) :=
  omap (fun e => match e with
                 | Event.DataReceived id data _ => if StreamId.as_u32 id =? sid then Some data else None
                 | _ => None
                 end) evs.

Lemma content_of_reports sid fs :
  content_of sid (map (fun f => Event.DataReceived (StreamId.from_wire sid) (payload f) (end_flag f)) fs) = map payload fs.
Proof.
  induction fs as [|f fs IH]; [done|]. unfold content_of in *. cbn [map omap list_omap].
  rewrite from_wire_as_u32, Z.eqb_refl. by rewrite IH.
Qed.

Section tunnel.
Context `{HO : HashOrder, !HashOrderLaws HO} (Ho : order_ignores_decoder HO).

Lemma content_arrives sid data s st c r :
  wf c -> bytes_ok data -> sending sid (len data) s c -> listening sid (len data) st c r ->
  exists c' octets r' evs,
    send_data (StreamId.from_wire sid) data false c = (Ok tt, c') /\
    output_buffer c' = output_buffer c ++ octets /\
    deliver octets r = (Ok tt, r') /\ events r' = events r ++ evs /\ concat (content_of sid evs) = data /\
    Forall (fun e => exists piece, e = Event.DataReceived (StreamId.from_wire sid) piece false) evs.
Proof using Ho HO.
  intros H Hb Hsd [Hpre Hrest Hsize Hrc]. destruct (wf_stream _ _ _ H (sd_stream _ _ _ _ Hsd)) as [Hid _].
  pose proof (from_wire_as_u32 sid) as Es.
  destruct (send_data_eq (StreamId.from_wire sid) data s c) as [E W]; [done|done|by rewrite Es|].
  rewrite Es in E, W. set (c1 := put sid (queued data s) c) in *.
  assert (allowance (queued data s) c1 = len data) as Ha by by apply sending_allowance.
  assert (ends (queued data s) c1 = false) as He.
  { unfold ends. cbn [Stream.pending_end_stream queued set_field]. by rewrite (sd_end _ _ _ _ Hsd). }
  destruct (flush_received sid (queued data s) c1 st r W (put_lookup _ _ _)) as (fs & r1 & Hfit & Hout & _ & Hpay & Hend & Hh & Hev & _).
  { by rewrite Ha, He. }
  assert (Forall (sendable (FrameDecoder.max_frame_size (frame_decoder r))) fs) as Hfs
    by (eapply Forall_impl; [exact Hfit|]; intros f; by apply sendable_weaken).
  destruct (deliver_wires Ho fs r Hpre Hrest Hfs) as (d & (d' & Hdel & Hok) & _).
  rewrite Hh in Hdel, Hok. cbn [fst snd] in Hdel, Hok. specialize (Hok eq_refl). subst d'.
  rewrite He in Hev. cbn [andb] in Hev. rewrite app_nil_r in Hev.
  exists (flushed sid (queued data s) c1), (wires fs), (with_decoder d r1),
    (map (fun f => Event.DataReceived (StreamId.from_wire sid) (payload f) (end_flag f)) fs).
  rewrite He in Hend. split_and!; [done|done|done|done| |].
  2: { apply Forall_map. eapply Forall_impl; [exact Hend|]. intros f Hf. exists (payload f). cbn in Hf |- *. by rewrite Hf. }
  rewrite content_of_reports, Hpay, Ha. cbn [buffered queued Stream.send_buffer SendBuffer.data set_field].
  apply take_ge. unfold len. lia.
Qed.
End tunnel.

(** ** Properties *)

(** C5: WebTransport over HTTP/2 delivers. A WebTransport session sends pieces
    of data on one of its streams; its output is sent as content of the CONNECT
    stream by an HTTP/2 connection whose windows let it out; the octets of that
    connection, delivered to another one, are reported as content in DATA events;
    and the session of the other side, fed these contents as they come, reports
    exactly the pieces, in order and with the end of the stream where it was
    sent. No step on the way fails. *)
Theorem webtransport_crosses_http2 `{HO : HashOrder, !HashOrderLaws HO}
    (* the sessions *) (ws wr : WtSession.WtSession.t) id pieces last fin
    (* the connections *) sid s st (c r : t) :
  let octets := WtCodec.wires (WtDeliver.capsules_of id pieces last fin) in
  let size := WtDeliver.total pieces + len last in
  order_ignores_decoder HO ->
  WtInvariant.wf_but None ws -> WtDeliver.can_take id size ws ->
  Forall WtInv.data_ok pieces -> WtInv.data_ok last -> Forall (fun p => p <> []) pieces -> last <> [] \/ fin = true ->
  wf c -> sending sid (len octets) s c -> listening sid (len octets) st c r ->
  WtInvariant.wf_but None wr -> WtDeliver.accepts id size wr -> WtLoop.waiting wr = [] -> WtLoop.room octets wr ->
  exists ws' c' sent r' evs wr',
    WtDeliver.send_pieces id pieces last fin ws = (Ok tt, ws') /\
    WtSession.WtSession.output_buffer ws' = WtSession.WtSession.output_buffer ws ++ octets /\
    send_data (StreamId.from_wire sid) octets false c = (Ok tt, c') /\
    output_buffer c' = output_buffer c ++ sent /\
    deliver sent r = (Ok tt, r') /\ events r' = events r ++ evs /\
    WtLoop.receive_all (content_of sid evs) wr = (Ok tt, wr') /\
    WtSession.WtSession.events wr' =
      WtSession.WtSession.events (WtDeliver.opened_for id wr) ++ WtDeliver.events_of id pieces last fin.
Proof.
  intros octets size Ho Hws Htake Hp Hl Hne Hlast Hc Hsd Hls Hwr Hacc Hwait Hroom.
  destruct (WtDeliver.pieces_arrive ws wr id pieces last fin) as (ws' & E & Eo & K); [done..|].
  assert (bytes_ok octets) as Hb.
  { apply WtCodec.wires_bytes, WtDeliver.capsules_of_wf; [|done|done].
    destruct Htake as [_ _ (w & Hw & _)]. apply (WtInvariant.wf_streams _ _ Hws id w Hw). }
  destruct (content_arrives Ho sid octets s st c r Hc Hb Hsd Hls) as (c' & sent & r' & evs & E1 & E2 & E3 & E4 & E5 & _).
  destruct (K _ E5) as (wr' & E6 & _ & _ & E7).
  by exists ws', c', sent, r', evs, wr'.
Qed.

(** The connections of the samples, with nothing queued. *)
Definition tunnel_stream : Stream.t :=
  sending_stream <| Stream.send_buffer := SendBuffer.mk [] DEFAULT_INITIAL_WINDOW_SIZE |> <| Stream.pending_end_stream := false |>.
Definition tunnel_client : t := put 1 tunnel_stream (client sample_limits).
Definition tunnel_server_stream : Stream.t :=
  (Stream.new stream_1 65535 65535) <| Stream.state := StateMachine.mk StreamState.Open |>.
Definition tunnel_server : t := put 1 tunnel_server_stream
  ((server sample_limits) <| state := ConnectionState.Active |> <| preface_received := true |>).

Lemma tunnel_client_wf : wf tunnel_client.
Proof.
  apply (put_good 0); [by apply conn_new_wf, sample_limits_ok|done| |done|by vm_compute].
  by repeat split; try by vm_compute.
Qed.

Lemma webtransport_crosses_http2_witness :
  exists ws' c' sent r' evs wr',
    WtDeliver.send_pieces 0 WtDeliver.sample_pieces [4; 5] true WtDeliver.sample_client = (Ok tt, ws') /\
    send_data stream_1 (WtSession.WtSession.output_buffer ws') false tunnel_client = (Ok tt, c') /\
    output_buffer c' = sent /\ @deliver key_order sent tunnel_server = (Ok tt, r') /\ events r' = evs /\
    WtLoop.receive_all (content_of 1 evs) (WtLoop.sample_session Role.Server) = (Ok tt, wr') /\
    WtSession.WtSession.events wr' =
      WtSession.WtEvent.StreamOpened 0 true :: WtDeliver.events_of 0 WtDeliver.sample_pieces [4; 5] true.
Proof.
  destruct (@webtransport_crosses_http2 key_order key_order_laws WtDeliver.sample_client
    (WtLoop.sample_session Role.Server) 0 WtDeliver.sample_pieces [4; 5] true 1 tunnel_stream tunnel_server_stream
    tunnel_client tunnel_server)
    as (ws' & c' & sent & r' & evs & wr' & E & Eo & E1 & E2 & E3 & E4 & E5 & E6).
  - done.
  - apply WtDeliver.sample_client_wf.
  - apply WtDeliver.sample_take.
  - repeat constructor; by vm_compute.
  - split; [repeat constructor; by vm_compute|by vm_compute].
  - by repeat constructor.
  - by left.
  - apply tunnel_client_wf.
  - constructor; first [apply put_lookup | by vm_compute].
  - constructor; [by intros [_ Hp]|done|by vm_compute|]. constructor; first [by left | by vm_compute].
  - apply WtLoop.sample_session_wf.
  - apply WtDeliver.sample_accepts.
  - done.
  - by vm_compute.
  - exists ws', c', sent, r', evs, wr'. split_and!; [exact E| |exact E2|exact E3|exact E4|exact E5|].
    + rewrite Eo. exact E1.
    + exact E6.
Defined.
