(* ===== verification/WtFindings.v ===== *)
(** * WtFindings: where the WebTransport session departs from its documentation

    Concrete runs of the model. *)

From S2P Require Import Prelude Syntax Config Bounded ConnBase.
From S2P Require Import WtVarint WtStream WtCapsule WtCodec WtInit WtSession WtInv WtSafe WtLoop.
Import WtSession WtInvariant.

(** The kind of the error a method ends with. *)
Definition kind_of {A} (x : result WtError.t A * t) : option WtErrorKind.t :=
  match fst x with Err e => Some (WtError.kind e) | _ => None end.

(** The octets of a capsule of a type with a payload. *)
Definition raw (ty : Z) (pl : list Z) : list Z := Varint.octets ty ++ Varint.octets (len pl) ++ pl.

(** ** A closed session does not ignore what it cannot decode *)

(** The peer closes the session and goes on with a WT_DRAIN_SESSION that has a
    payload. [process] is documented to return [Ok(())] on a closed session, so
    that its driver can answer with END_STREAM, but the capsule is decoded before
    the state is looked at. *)
Definition closed_by_peer : t :=
  snd ((receive (raw CapsuleType.WT_CLOSE_SESSION [0; 0; 0; 0])) (sample_session Role.Server)).
Definition bad_drain : list Z := raw CapsuleType.WT_DRAIN_SESSION [0].

Lemma closed_session_fails_on_malformed :
  is_closed closed_by_peer = true /\
  kind_of (receive bad_drain closed_by_peer) = Some WtErrorKind.CapsuleDecode.
Proof. by vm_compute. Qed.

(** The malformed capsule stays in the decoder: every later [process] fails. *)
Lemma malformed_capsule_stays :
  kind_of (process (snd (receive bad_drain closed_by_peer))) = Some WtErrorKind.CapsuleDecode.
Proof. by vm_compute. Qed.

(** ** Capsules behind WT_CLOSE_SESSION *)

(** [send_max_streams] and the methods that send data look at the state of the
    session; [send_max_data], [send_max_stream_data], [reset_stream] and
    [stop_sending] do not, so they write capsules after the close. *)
Lemma capsules_follow_close :
  exists s,
    (open_stream true ;! close 0 [] ;! send_max_data 2097152 ;! send_max_stream_data 0 524288 ;! stop_sending 0 7 ;!
     reset_stream 0 8) (sample_session Role.Client) = (Ok tt, s) /\
    output_buffer s = wires [Capsule.WtCloseSession 0 []; Capsule.WtMaxData 2097152; Capsule.WtMaxStreamData 0 524288;
                             Capsule.WtStopSending 0 7; Capsule.WtResetStream 0 8 0].
Proof. eexists. split; by vm_compute. Qed.

(** ** A complete capsule that is "incomplete" *)

(** A WT_MAX_DATA capsule without payload has arrived whole, and no octet that
    follows can mend it; the error is [Incomplete], documented as input that is
    not there yet, not [CapsuleDecode]. *)
Lemma short_payload_is_incomplete :
  kind_of (receive (raw CapsuleType.WT_MAX_DATA [] ++ [1; 2; 3]) (sample_session Role.Server)) = Some WtErrorKind.Incomplete.
Proof. by vm_compute. Qed.
