(* ===== verification/WtClosing.v ===== *)
(** * WtClosing: how many streams a peer ends

    An event that ends the receiving part of a stream (data with FIN, a reset)
    comes from a capsule, and a capsule takes octets: a session never reports
    more of them than octets it was fed.  And what a session sends leaves the
    events alone. *)

From S2P Require Import Prelude Syntax Config Bounded ConnBase.
From S2P Require Import WtVarint WtStream WtCapsule WtCodec WtInit WtSession WtInv WtSafe WtLoop.
Import WtSession WtInvariant.

(** The events that end a stream. *)
Definition closes (e : WtEvent.t) : Z :=
  match e with WtEvent.StreamData _ _ true | WtEvent.StreamReset _ _ => 1 | _ => 0 end.
Definition closing (evs : list WtEvent.t) : Z := foldr (fun e n => closes e + n) 0 evs.

Lemma closes_bounds e : 0 <= closes e <= 1.
Proof. destruct e as [| ? ? []| | | | |]; cbn; lia. Qed.
Lemma closing_nonneg evs : 0 <= closing evs.
Proof. induction evs as [|e evs IH]; [done|]. change (0 <= closes e + closing evs). pose proof (closes_bounds e). lia. Qed.
Lemma closing_app a b : closing (a ++ b) = closing a + closing b.
Proof. induction a as [|e a IH]; [done|]. change (closes e + closing (a ++ b) = closes e + closing a + closing b). lia. Qed.

(** ** Methods that leave the events *)

Definition mute {A} (X : M A) : Prop := forall s, events (snd (X s)) = events s.

Lemma mute_bind {A B} (X : M A) (k : A -> M B) : mute X -> (forall a, mute (k a)) -> mute (bind X k).
Proof.
  intros HX Hk s. specialize (HX s). unfold bind. destruct (X s) as [[a|e|] s']; cbn in *; [|done|done]. by rewrite Hk.
Qed.
Lemma mute_ret {A} (a : A) : mute (ret a).
Proof. done. Qed.
Lemma mute_throw {A} e : mute (A:=A) (throw e).
Proof. done. Qed.
Lemma mute_panic {A} : mute (A:=A) panic.
Proof. done. Qed.
Lemma mute_lift {A} (r : result WtError.t A) : mute (lift r).
Proof. done. Qed.
Lemma mute_gets {A} (f : t -> A) : mute (gets f).
Proof. done. Qed.
Lemma mute_modify (f : t -> t) : (forall s, events (f s) = events s) -> mute (modify f).
Proof. intros Hf s. apply Hf. Qed.
Lemma mute_attempt {A} (X : M A) : mute X -> mute (attempt X).
Proof. intros HX s. specialize (HX s). unfold attempt. by destruct (X s) as [[]]. Qed.
Lemma mute_on_stream {A} id st (m : ST WtStream.t WtError.t A) : mute (on_stream id st m).
Proof. intros s. unfold on_stream. by destruct (m st). Qed.
Lemma mute_flow {A} (m : ST WtFlowControl.t WtError.t A) : mute (on_flow_control m).
Proof. intros s. unfold on_flow_control, zoom. by destruct (m (flow_control s)). Qed.
Lemma mute_encoder {A} (m : ST CapsuleEncoder.t WtError.t A) : mute (on_encoder m).
Proof. intros s. unfold on_encoder, zoom. by destruct (m (capsule_encoder s)). Qed.
Lemma mute_decoder {A} (m : ST CapsuleDecoder.t WtError.t A) : mute (on_decoder m).
Proof. intros s. unfold on_decoder, zoom. by destruct (m (capsule_decoder s)). Qed.
Create HintDb mute.
#[export] Hint Resolve mute_ret mute_throw mute_panic mute_lift mute_gets mute_on_stream mute_flow mute_encoder
  mute_decoder : mute.

Ltac mute_leaf := first [ solve [auto with mute] | apply mute_modify; intros; reflexivity ].
Ltac mute :=
  cbv zeta;
  repeat first [ mute_leaf | apply mute_attempt | apply mute_bind; [|intros] | case_match ].

Lemma mute_emit c : mute (emit c).
Proof. unfold emit. mute. Qed.
Lemma mute_set_state st : mute (set_state st).
Proof. unfold set_state. mute. Qed.
Lemma mute_stream_mut id e : mute (stream_mut id e).
Proof. unfold stream_mut. mute. Qed.
Lemma mute_remove id : mute (remove_if_closed id).
Proof. unfold remove_if_closed. mute. Qed.
#[export] Hint Resolve mute_emit mute_set_state mute_stream_mut mute_remove : mute.

Lemma mute_initiate : mute initiate.
Proof. unfold initiate. mute. Qed.
Lemma mute_feed data : mute (feed data).
Proof. unfold feed. mute. Qed.
Lemma mute_poll_output : mute poll_output.
Proof. unfold poll_output. mute. Qed.
Lemma mute_open b : mute (open_stream b).
Proof. unfold open_stream. mute. Qed.
Lemma mute_send_data id data fin : mute (send_stream_data id data fin).
Proof. unfold send_stream_data. mute. Qed.
Lemma mute_reset id code : mute (reset_stream id code).
Proof. unfold reset_stream. mute. Qed.
Lemma mute_stop id code : mute (stop_sending id code).
Proof. unfold stop_sending. mute. Qed.
Lemma mute_datagram data : mute (send_datagram data).
Proof. unfold send_datagram. mute. Qed.
Lemma mute_close code reason : mute (close code reason).
Proof. unfold close. mute. Qed.
Lemma mute_drain : mute drain.
Proof. unfold drain. mute. Qed.
Lemma mute_grow_recv n : mute (grow_recv_window n).
Proof. unfold grow_recv_window, send_max_data. mute. Qed.
Lemma mute_grow_stream id n : mute (grow_stream_recv_window id n).
Proof. unfold grow_stream_recv_window, send_max_stream_data. mute. Qed.
Lemma mute_grow_streams n b : mute (grow_max_streams n b).
Proof. unfold grow_max_streams, send_max_streams. mute. Qed.
#[export] Hint Resolve mute_initiate mute_feed mute_poll_output mute_open mute_send_data mute_reset mute_stop
  mute_datagram mute_close mute_drain mute_grow_recv mute_grow_stream mute_grow_streams : mute.

(** Sending leaves the decoder alone, too. *)
Lemma blind_initiate : blind initiate.
Proof. unfold initiate. blind. Qed.
Lemma blind_poll_output : blind poll_output.
Proof. unfold poll_output. blind. Qed.
Lemma blind_open b : blind (open_stream b).
Proof. unfold open_stream. blind. Qed.
Lemma blind_send_data id data fin : blind (send_stream_data id data fin).
Proof. unfold send_stream_data. blind. Qed.
Lemma blind_stop id code : blind (stop_sending id code).
Proof. unfold stop_sending. blind. Qed.
Lemma blind_datagram data : blind (send_datagram data).
Proof. unfold send_datagram. blind. Qed.
Lemma blind_close code reason : blind (close code reason).
Proof. unfold close. blind. Qed.
Lemma blind_drain : blind drain.
Proof. unfold drain. blind. Qed.
Lemma blind_grow_recv n : blind (grow_recv_window n).
Proof. unfold grow_recv_window, send_max_data. blind. Qed.
Lemma blind_grow_stream id n : blind (grow_stream_recv_window id n).
Proof. unfold grow_stream_recv_window, send_max_stream_data. blind. Qed.
Lemma blind_grow_streams n b : blind (grow_max_streams n b).
Proof. unfold grow_max_streams, send_max_streams. blind. Qed.
#[export] Hint Resolve blind_initiate blind_poll_output blind_open blind_send_data blind_reset blind_stop
  blind_datagram blind_close blind_drain blind_grow_recv blind_grow_stream blind_grow_streams : blind.

(** ** Methods that report at most [k] ends *)

Definition adds (k : Z) {A} (X : M A) : Prop := forall s, closing (events (snd (X s))) <= closing (events s) + k.

Lemma adds_mute {A} (X : M A) : mute X -> adds 0 X.
Proof. intros HX s. rewrite HX. lia. Qed.
Lemma adds_weaken j k {A} (X : M A) : j <= k -> adds j X -> adds k X.
Proof. intros Hk HX s. specialize (HX s). lia. Qed.
Lemma adds_bind j k {A B} (X : M A) (f : A -> M B) :
  0 <= k -> adds j X -> (forall a, adds k (f a)) -> adds (j + k) (bind X f).
Proof.
  intros Hk HX Hf s. specialize (HX s). unfold bind. destruct (X s) as [[a|e|] s']; cbn in *; [|lia|lia].
  specialize (Hf a s'). lia.
Qed.
Lemma adds_first k {A B} (X : M A) (f : A -> M B) : 0 <= k -> adds 0 X -> (forall a, adds k (f a)) -> adds k (bind X f).
Proof. intros. by apply (adds_bind 0 k). Qed.
Lemma adds_last k {A B} (X : M A) (f : A -> M B) : adds k X -> (forall a, adds 0 (f a)) -> adds k (bind X f).
Proof. intros. rewrite <- (Z.add_0_r k). by apply adds_bind. Qed.
Lemma adds_push e : adds (closes e) (push_event e).
Proof.
  intros s. unfold push_event, modify. cbn [snd events set_field]. rewrite closing_app.
  change (closing [e]) with (closes e + 0). lia.
Qed.
Lemma adds_attempt k {A} (X : M A) : adds k X -> adds k (attempt X).
Proof. intros HX s. specialize (HX s). unfold attempt. by destruct (X s) as [[]]. Qed.
Create HintDb adds.
#[export] Hint Extern 2 (adds 0 _) => solve [apply adds_mute; mute] : adds.
#[export] Hint Extern 1 (adds 0 (push_event _)) => exact (adds_push _) : adds.

Ltac adds0 :=
  cbv zeta;
  repeat first [ solve [auto with adds] | apply adds_attempt | apply adds_first; [done| |intros] | case_match ].

Lemma adds_create_loop fuel id sid b : adds 0 (create_loop fuel id sid b).
Proof. revert id. induction fuel as [|fuel IH]; intros id; cbn [create_loop]; unfold create_peer_stream; adds0. Qed.
#[export] Hint Resolve adds_create_loop : adds.
Lemma adds_create_up_to sid b : adds 0 (create_peer_streams_up_to sid b).
Proof. unfold create_peer_streams_up_to. adds0. Qed.
#[export] Hint Resolve adds_create_up_to : adds.
Lemma adds_implicit id : adds 0 (create_implicit_peer_bidi_stream id).
Proof. unfold create_implicit_peer_bidi_stream. adds0. Qed.
#[export] Hint Resolve adds_implicit : adds.

Lemma adds_end id data fin : adds 1 (push_event (WtEvent.StreamData id data fin)).
Proof. eapply adds_weaken; [|apply adds_push]. apply closes_bounds. Qed.

Ltac adds1 :=
  cbv zeta;
  repeat first
    [ apply adds_end | solve [apply (adds_weaken 0 1); [done|adds0]]
    | apply adds_first; [done|solve [adds0]|intros] | case_match ].

Lemma adds_stream_data id data fin : adds 1 (handle_stream_data id data fin).
Proof. unfold handle_stream_data. adds1. Qed.
Lemma adds_reset_stream id code size : adds 1 (handle_reset_stream id code size).
Proof.
  unfold handle_reset_stream. apply adds_first; [done|adds0|intros st]. do 2 (case_match; [adds1|]).
  apply adds_first; [done|adds0|intros _]. apply adds_last; [exact (adds_push (WtEvent.StreamReset id code))|intros _; adds0].
Qed.
Lemma adds_stop_sending id code : adds 0 (handle_stop_sending id code).
Proof. unfold handle_stop_sending. adds0. Qed.
Lemma adds_max_stream_data id max : adds 0 (handle_max_stream_data id max).
Proof. unfold handle_max_stream_data. adds0. Qed.
Lemma adds_blocked id : adds 0 (handle_stream_data_blocked id).
Proof. unfold handle_stream_data_blocked. adds0. Qed.
#[export] Hint Resolve adds_stop_sending adds_max_stream_data adds_blocked : adds.

Lemma adds_handle c : adds 1 (handle_capsule c).
Proof.
  unfold handle_capsule. apply adds_first; [done|adds0|intros st]. case_match; [adds1|].
  destruct c; first [apply adds_stream_data|apply adds_reset_stream|apply (adds_weaken 0 1); [done|adds0]].
Qed.

(** ** Octets that wait and ends that were reported *)

Definition weight (s : t) : Z := closing (events s) + len (waiting s).

Lemma process_loop_weight fuel s : bytes_ok (waiting s) -> weight (snd (process_loop fuel s)) <= weight s.
Proof.
  revert s. induction fuel as [|fuel IH]; intros s Hb; [done|]. rewrite loop_turn by done.
  destruct (Wire.frame (waiting s)) as [[[ty pl] rest]|] eqn:E; [|done].
  destruct (frame_inv _ _ _ _ Hb E) as (_ & _ & Hr & _ & Hl). pose proof (len_nonneg pl).
  destruct (CapsuleDecoder.decode_payload ty pl) as [c|e|]; [|done..].
  pose proof (adds_handle c (left rest s)) as Ha. pose proof (blind_keeps _ (left rest s) (blind_handle c)) as Ed.
  unfold bind. destruct (handle_capsule c (left rest s)) as [r s2]. cbn [snd] in *.
  assert (waiting s2 = rest) as Ew by (unfold waiting; by rewrite Ed).
  assert (weight s2 <= weight s) as Hw2.
  { unfold weight. rewrite Ew. change (events (left rest s)) with (events s) in Ha. unfold waiting in *. lia. }
  destruct r as [[]|e|]; [|done|done]. specialize (IH s2). rewrite Ew in IH. specialize (IH Hr). lia.
Qed.

Lemma process_weight s : wf s -> weight (snd (process s)) <= weight s.
Proof. intros H. rewrite process_unfold. apply process_loop_weight, H. Qed.

Lemma feed_weight data s : wf s -> weight (snd (feed data s)) <= weight s + len data.
Proof.
  intros H. pose proof (len_nonneg data). unfold weight. rewrite mute_feed.
  destruct (Z_le_gt_dec (len (waiting s) + len data) (limit s)) as [Hr|Hr].
  - rewrite feed_runs by done. cbn [snd]. rewrite waiting_left, len_app. change (events (left _ s)) with (events s). lia.
  - rewrite (feed_full data s H) by lia. cbn. lia.
Qed.

(** A method that only sends. *)
Lemma light {A} (X : M A) s : mute X -> blind X -> weight (snd (X s)) = weight s.
Proof. intros Hm Hb. unfold weight, waiting. by rewrite Hm, (blind_keeps X s Hb). Qed.
