(* ===== verification/WtGrants.v ===== *)
(** * WtGrants: the limits a session grants to its peer

    Nothing a peer sends changes what it is allowed; and what a session allows
    it more, it tells it, with a capsule that carries the new limit. *)

From S2P Require Import Prelude Syntax Config Bounded ConnBase.
From S2P Require Import WtVarint WtStream WtCapsule WtCodec WtInit WtSession WtInv WtSafe WtLoop.
Import WtSession WtInvariant.

(** The octets, and the streams of either kind, the peer may send and open. *)
Definition allowed_octets (s : t) : Z := WtFlowControl.recv_max (flow_control s).
Definition allowed_streams (b : bool) (s : t) : Z :=
  if b then WtFlowControl.max_streams_bidi_local (flow_control s)
  else WtFlowControl.max_streams_uni_local (flow_control s).

(** The same is allowed. *)
Definition as_allowed (s s' : t) : Prop :=
  allowed_octets s' = allowed_octets s /\ forall b, allowed_streams b s' = allowed_streams b s.

Lemma as_allowed_refl s : as_allowed s s.
Proof. by split. Qed.
Lemma as_allowed_trans a b c : as_allowed a b -> as_allowed b c -> as_allowed a c.
Proof. intros [H1 K1] [H2 K2]. split; [congruence|]. intros k. by rewrite K2, K1. Qed.
Lemma as_allowed_flow s s' : flow_control s' = flow_control s -> as_allowed s s'.
Proof. intros E. unfold as_allowed, allowed_octets, allowed_streams. by rewrite E. Qed.

(** ** Methods that grant nothing *)

Definition ungranting {A} (X : M A) : Prop := forall s, as_allowed s (snd (X s)).

Lemma ungranting_bind {A B} (X : M A) (k : A -> M B) : ungranting X -> (forall a, ungranting (k a)) -> ungranting (bind X k).
Proof.
  intros HX Hk s. specialize (HX s). unfold bind. destruct (X s) as [[a|e|] s']; [|done|done].
  exact (as_allowed_trans _ _ _ HX (Hk a s')).
Qed.
Lemma ungranting_same {A} (X : M A) : (forall s, flow_control (snd (X s)) = flow_control s) -> ungranting X.
Proof. intros H s. apply as_allowed_flow, H. Qed.
Lemma ungranting_attempt {A} (X : M A) : ungranting X -> ungranting (attempt X).
Proof. intros HX s. specialize (HX s). unfold attempt. by destruct (X s) as [[]]. Qed.
Lemma ungranting_on_stream {A} id st (m : ST WtStream.t WtError.t A) : ungranting (on_stream id st m).
Proof. apply ungranting_same. intros s. unfold on_stream. by destruct (m st). Qed.
Lemma ungranting_encoder {A} (m : ST CapsuleEncoder.t WtError.t A) : ungranting (on_encoder m).
Proof. apply ungranting_same. intros s. unfold on_encoder, zoom. by destruct (m (capsule_encoder s)). Qed.
Lemma ungranting_decoder {A} (m : ST CapsuleDecoder.t WtError.t A) : ungranting (on_decoder m).
Proof. apply ungranting_same. intros s. unfold on_decoder, zoom. by destruct (m (capsule_decoder s)). Qed.

(** The windows that are not this side's grants. *)
Lemma ungranting_flow (m : ST WtFlowControl.t WtError.t unit) :
  (forall f, let f' := snd (m f) in WtFlowControl.recv_max f' = WtFlowControl.recv_max f /\
     WtFlowControl.max_streams_bidi_local f' = WtFlowControl.max_streams_bidi_local f /\
     WtFlowControl.max_streams_uni_local f' = WtFlowControl.max_streams_uni_local f) -> ungranting (on_flow_control m).
Proof.
  intros H s. destruct (H (flow_control s)) as (Hr & Hb & Hu). unfold on_flow_control, zoom. destruct (m (flow_control s)) as [r f].
  split; [exact Hr|]. intros []; [exact Hb|exact Hu].
Qed.

Ltac ungranting_flow :=
  apply ungranting_flow; intros f; unfold WtFlowControl.consume_send, WtFlowControl.consume_recv, WtFlowControl.update_send_max,
    WtFlowControl.update_max_streams, WtFlowControl.opened_stream, bind, lift, gets, modify, throw;
  repeat case_match; simplify_eq/=; done.

Lemma ungranting_consume_send n : ungranting (on_flow_control (WtFlowControl.consume_send n)).
Proof. ungranting_flow. Qed.
Lemma ungranting_consume_recv n : ungranting (on_flow_control (WtFlowControl.consume_recv n)).
Proof. ungranting_flow. Qed.
Lemma ungranting_send_max n : ungranting (on_flow_control (WtFlowControl.update_send_max n)).
Proof. ungranting_flow. Qed.
Lemma ungranting_max_streams n b : ungranting (on_flow_control (WtFlowControl.update_max_streams n b)).
Proof. ungranting_flow. Qed.

Create HintDb ungranting discriminated.
#[export] Hint Resolve ungranting_on_stream ungranting_encoder ungranting_decoder ungranting_consume_send
  ungranting_consume_recv ungranting_send_max ungranting_max_streams : ungranting.

Ltac ungranting :=
  cbv zeta;
  repeat first [ solve [auto with ungranting] | apply ungranting_same; intros; reflexivity
               | apply ungranting_attempt | apply ungranting_bind; [|intros] | case_match ].

Lemma ungranting_emit c : ungranting (emit c).
Proof. unfold emit. ungranting. Qed.
Lemma ungranting_stream_mut id e : ungranting (stream_mut id e).
Proof. unfold stream_mut. ungranting. Qed.
Lemma ungranting_remove id : ungranting (remove_if_closed id).
Proof. unfold remove_if_closed. ungranting. Qed.
#[export] Hint Resolve ungranting_emit ungranting_stream_mut ungranting_remove : ungranting.

Lemma ungranting_reset id code : ungranting (reset_stream id code).
Proof. unfold reset_stream. ungranting. Qed.
Lemma ungranting_create id b : ungranting (create_peer_stream id b).
Proof. unfold create_peer_stream, push_event. ungranting. Qed.
#[export] Hint Resolve ungranting_reset ungranting_create : ungranting.

Lemma ungranting_create_loop fuel id sid b : ungranting (create_loop fuel id sid b).
Proof. revert id. induction fuel as [|fuel IH]; intros id; cbn [create_loop]; ungranting. Qed.
#[export] Hint Resolve ungranting_create_loop : ungranting.

Lemma ungranting_create_up_to sid b : ungranting (create_peer_streams_up_to sid b).
Proof. unfold create_peer_streams_up_to. ungranting. Qed.
#[export] Hint Resolve ungranting_create_up_to : ungranting.

Lemma ungranting_implicit id : ungranting (create_implicit_peer_bidi_stream id).
Proof. unfold create_implicit_peer_bidi_stream. ungranting. Qed.
#[export] Hint Resolve ungranting_implicit : ungranting.

Lemma ungranting_handle c : ungranting (handle_capsule c).
Proof.
  unfold handle_capsule, handle_stream_data, handle_reset_stream, handle_stop_sending, handle_max_stream_data,
    handle_stream_data_blocked, set_state, push_event. ungranting.
Qed.

(** Whatever the peer sends, it is allowed no more and no less than before. *)
Lemma ungranting_process : ungranting process.
Proof.
  unfold process. apply ungranting_bind; [ungranting|]. intros fuel. induction fuel as [|fuel IH]; cbn [process_loop]; [ungranting|].
  apply ungranting_bind; [auto with ungranting|]. intros [c|]; [|ungranting]. apply ungranting_bind; [apply ungranting_handle|done].
Qed.
Lemma ungranting_feed data : ungranting (feed data).
Proof. unfold feed. ungranting. Qed.
Lemma ungranting_grow_stream id n : ungranting (grow_stream_recv_window id n).
Proof. unfold grow_stream_recv_window, send_max_stream_data. ungranting. Qed.
#[export] Hint Resolve ungranting_process ungranting_feed ungranting_grow_stream : ungranting.

(** ** Methods that grant *)

(** The capsules that tell of a change of the limits. *)
Definition octets_told (s s' : t) : list Capsule.t :=
  if allowed_octets s' =? allowed_octets s then [] else [Capsule.WtMaxData (allowed_octets s')].
Definition streams_told (b : bool) (s s' : t) : list Capsule.t :=
  if allowed_streams b s' =? allowed_streams b s then [] else [Capsule.WtMaxStreams (allowed_streams b s') b].
Definition told (s s' : t) : list Capsule.t := octets_told s s' ++ streams_told true s s' ++ streams_told false s s'.

(** [n] octets more are allowed, or [n] streams of the kind [b], and told. *)
Definition grants_octets (n : Z) (s s' : t) : Prop :=
  allowed_octets s' = allowed_octets s + n /\ (forall b, allowed_streams b s' = allowed_streams b s) /\
  WtFlowControl.recv_offset (flow_control s') = WtFlowControl.recv_offset (flow_control s) /\
  output_buffer s' = output_buffer s ++ wires (octets_told s s').
Definition grants_streams (b : bool) (n : Z) (s s' : t) : Prop :=
  allowed_streams b s' = allowed_streams b s + n /\ allowed_streams (negb b) s' = allowed_streams (negb b) s /\
  allowed_octets s' = allowed_octets s /\
  output_buffer s' = output_buffer s ++ wires (streams_told b s s').

Lemma grants_octets_refl s : grants_octets 0 s s.
Proof. split_and!; [lia|done..|]. unfold octets_told. by rewrite Z.eqb_refl, app_nil_r. Qed.
Lemma grants_streams_refl b s : grants_streams b 0 s s.
Proof. split_and!; [lia|done|done|]. unfold streams_told. by rewrite Z.eqb_refl, app_nil_r. Qed.

Lemma emit_told c s s' :
  Wire.wf c -> capsule_encoder s = CapsuleEncoder.new -> emit c s = (Ok tt, s') ->
  s' = s <| output_buffer := output_buffer s ++ wires [c] |>.
Proof. intros Hc H. rewrite emit_runs by done. intros [= <-]. unfold wires. cbn. by rewrite app_nil_r. Qed.

(** Setting a limit of the flow control that then holds. *)
Lemma update_recv_max_Ok n f f' :
  WtFlowControl.update_recv_max n f = (Ok tt, f') ->
  f' = f <| WtFlowControl.recv_max := n |> /\ n <= Varint.MAX_VALUE /\ WtFlowControl.recv_max f < n.
Proof.
  unfold WtFlowControl.update_recv_max. destruct (_ >? _) eqn:E1; [done|]. rewrite bind_gets.
  destruct (_ <=? _) eqn:E2; [done|]. intros [= <-]. split; [done|lia].
Qed.

Definition with_max_streams (b : bool) (n : Z) (f : WtFlowControl.t) : WtFlowControl.t :=
  if b then f <| WtFlowControl.max_streams_bidi_local := n |> else f <| WtFlowControl.max_streams_uni_local := n |>.

Lemma update_max_streams_Ok n b s f' :
  WtFlowControl.update_max_streams_local n b (flow_control s) = (Ok tt, f') ->
  f' = with_max_streams b n (flow_control s) /\ n <= 2 ^ 60 /\ allowed_streams b s < n.
Proof.
  unfold WtFlowControl.update_max_streams_local, WtFlowControl.check_max_streams_increase. rewrite bind_gets.
  fold (allowed_streams b s). destruct (_ >? _) eqn:E1; [done|]. destruct (_ <=? _) eqn:E2; [done|]. rewrite bind_lift_Ok.
  unfold MAX_STREAMS_LIMIT in *. intros E. split; [|lia]. by destruct b; injection E as <-.
Qed.

Lemma on_flow_Ok {B} (m : ST WtFlowControl.t WtError.t unit) (k : unit -> M B) s b s' :
  bind (on_flow_control m) k s = (Ok b, s') ->
  exists f, m (flow_control s) = (Ok tt, f) /\ k tt (s <| flow_control := f |>) = (Ok b, s').
Proof. unfold bind, on_flow_control, zoom. destruct (m (flow_control s)) as [[[]|e|] f]; [by exists f|done|done]. Qed.

Lemma grow_recv_window_grants n s s' :
  wf s -> 0 <= n -> grow_recv_window n s = (Ok tt, s') -> grants_octets n s s'.
Proof.
  intros H Hn. unfold grow_recv_window. rewrite bind_gets. fold (allowed_octets s). unfold checked_add. destruct (_ <? 2 ^ 64); [|done].
  cbn [ok_or]. rewrite bind_lift_Ok. unfold send_max_data. intros (f & (-> & Hmax & Hlt)%update_recv_max_Ok & E)%on_flow_Ok.
  pose proof (WtFlowControl.wf_recv _ (wf_flow _ _ H)) as Hr. unfold allowed_octets in *.
  assert (Varint.ok (WtFlowControl.recv_max (flow_control s) + n)) as Hv by (unfold Varint.ok; lia).
  apply emit_told in E as ->; [|small_capsule|apply H].
  unfold grants_octets, octets_told, allowed_octets, allowed_streams. cbn.
  destruct (Z.eqb_spec (WtFlowControl.recv_max (flow_control s) + n) (WtFlowControl.recv_max (flow_control s))); [lia|by split_and!].
Qed.

Lemma grow_max_streams_grants n b s s' :
  wf s -> 0 <= n -> grow_max_streams n b s = (Ok tt, s') -> grants_streams b n s s'.
Proof.
  intros H Hn. unfold grow_max_streams. rewrite bind_gets. fold (allowed_streams b s). unfold checked_add. destruct (_ <? 2 ^ 64); [|done].
  cbn [ok_or]. rewrite bind_lift_Ok. unfold send_max_streams. rewrite bind_gets. destruct (negb _); [done|].
  intros (f & (-> & Hmax & Hlt)%update_max_streams_Ok & E)%on_flow_Ok.
  assert (0 <= allowed_streams b s) as H0 by (destruct (wf_flow _ _ H); destruct b; cbn; lia).
  assert (Varint.ok (allowed_streams b s + n)) as Hv by (unfold Varint.ok, Varint.MAX_VALUE; lia).
  apply emit_told in E as ->; [|small_capsule|apply H].
  unfold grants_streams, streams_told. destruct b; unfold allowed_streams, allowed_octets in *; cbn in *;
    (case_match; [lia|]); by split_and!.
Qed.

(** The grants of one step after another. *)
Lemma grants_told na nb nu s s1 s2 s3 :
  grants_octets na s s1 -> grants_streams true nb s1 s2 -> grants_streams false nu s2 s3 ->
  output_buffer s3 = output_buffer s ++ wires (told s s3).
Proof.
  intros (Ha & Hs1 & _ & E1) (Hb & Hb2 & Ha2 & E2) (Hu & Hu3 & Ha3 & E3). cbn [negb] in *.
  unfold told, octets_told, streams_told in *. rewrite !wires_cat, E3, E2, E1, <- !app_assoc.
  by rewrite Ha3, Ha2, Hu3, <- (Hs1 true), <- (Hs1 false), <- Hb2.
Qed.
