(* ===== verification/ConnEvents.v ===== *)
(** * ConnEvents: the content of events

    The octets of a DataReceived event are octets, and no more than a window:
    content is charged to the window of the connection before it is reported. *)

From S2P Require Import Prelude Errors StreamIds Config Flow Bounded StreamCore FrameTypes.
From S2P Require Import FrameEncode FrameDecode FrameCodec Syntax HpackTable HpackCodec.
From S2P Require Import Validation Stream ConnBase ConnHeaders ConnRecv ConnInv ConnSafe.
From S2P Require Import ConnSample ConnFlow ConnBlock ConnHandle ConnApi.
Import Connection Headers Handlers Invariant Block Api.

Definition event_ok (e : Event.t) : Prop :=
  match e with
  | Event.DataReceived _ data _ => bytes_ok data /\ len data <= MAX_WINDOW_SIZE
  | _ => True
  end.

Definition events_ok (c : t) : Prop := Forall event_ok (events c).

(** ** Methods that report nothing else *)

Definition quiet {A} (X : M A) : Prop := forall c, events_ok c -> events_ok (snd (X c)).

Lemma quiet_bind {A B} (X : M A) (k : A -> M B) : quiet X -> (forall a, quiet (k a)) -> quiet (bind X k).
Proof.
  intros HX Hk c Hc. specialize (HX c Hc). unfold bind. destruct (X c) as [[a|e|] c']; cbn in *; [by apply Hk|done|done].
Qed.
(** A method that leaves the events. *)
Lemma quiet_same {A} (X : M A) : (forall c, events (snd (X c)) = events c) -> quiet X.
Proof. intros HX c Hc. unfold events_ok. by rewrite HX. Qed.
Lemma quiet_ret {A} (a : A) : quiet (ret a).
Proof. by apply quiet_same. Qed.
Lemma quiet_throw {A} e : quiet (A:=A) (throw e).
Proof. by apply quiet_same. Qed.
Lemma quiet_panic {A} : quiet (A:=A) panic.
Proof. by apply quiet_same. Qed.
Lemma quiet_lift {A} (r : Result A) : quiet (lift r).
Proof. by apply quiet_same. Qed.
Lemma quiet_gets {A} (f : t -> A) : quiet (gets f).
Proof. by apply quiet_same. Qed.
Lemma quiet_modify (f : t -> t) : (forall c, events (f c) = events c) -> quiet (modify f).
Proof. intros Hf. by apply quiet_same. Qed.
Lemma quiet_attempt {A} (X : M A) : quiet X -> quiet (attempt X).
Proof. intros HX c Hc. specialize (HX c Hc). unfold attempt. by destruct (X c) as [[]]. Qed.
Lemma quiet_stream_mut {A} sid (m : ST Stream.t Error.t A) : quiet (stream_mut sid m).
Proof. apply quiet_same. intros c. unfold stream_mut. destruct (streams c !! sid) as [s|]; [|done]. by destruct (m s). Qed.
Lemma quiet_flow {A} (m : ST FlowControl.t Error.t A) : quiet (on_flow_control m).
Proof. apply quiet_same. intros c. unfold on_flow_control, zoom. by destruct (m (flow_control c)). Qed.
Lemma quiet_send_frame f : quiet (send_frame f).
Proof.
  apply quiet_same. intros c. unfold send_frame, bind, zoom, modify. cbn.
  by destruct (FrameEncoder.encode f (frame_encoder c)) as [[]].
Qed.
Lemma quiet_push_event e : event_ok e -> quiet (push_event e).
Proof. intros He c Hc. apply Forall_app. split; [done|by constructor]. Qed.
Create HintDb quiet.
#[export] Hint Resolve quiet_ret quiet_throw quiet_panic quiet_lift quiet_gets quiet_stream_mut quiet_flow
  quiet_send_frame : quiet.
#[export] Hint Extern 1 (quiet (push_event _)) => apply quiet_push_event; exact I : quiet.

Ltac quiet_leaf :=
  first
    [ solve [auto with quiet]
    | apply quiet_modify; intros; first [reflexivity | cbn; repeat case_match; reflexivity] ].
Ltac quiet :=
  cbv zeta;
  repeat first [ quiet_leaf | apply quiet_attempt | apply quiet_bind; [|intros] | case_match ].

Lemma quiet_forget sid : quiet (forget_stream sid).
Proof. unfold forget_stream. quiet. Qed.
Lemma quiet_require sid : quiet (require_stream sid).
Proof. unfold require_stream. quiet. Qed.
Lemma quiet_window_update id n : quiet (send_window_update id n).
Proof. unfold send_window_update. quiet. Qed.
#[export] Hint Resolve quiet_forget quiet_require quiet_window_update : quiet.

Lemma quiet_send_settings : quiet send_settings.
Proof. unfold send_settings, count_settings, send_initial_connection_window_update. quiet. Qed.
Lemma quiet_initiate : quiet initiate.
Proof. unfold initiate, count_settings, send_initial_connection_window_update. quiet. Qed.
Lemma quiet_feed l : quiet (feed l).
Proof. unfold feed, decoder_feed. quiet. Qed.
Lemma quiet_reset id code n : quiet (reset_stream_internal id code n).
Proof. unfold reset_stream_internal. quiet. Qed.
Lemma quiet_flush_step sid n : quiet (flush_step sid n).
Proof. unfold flush_step, send_data_frame. quiet. Qed.
#[export] Hint Resolve quiet_send_settings quiet_initiate quiet_feed quiet_reset quiet_flush_step : quiet.

Lemma quiet_flush_loop fuel sid : quiet (flush_loop fuel sid).
Proof. induction fuel as [|fuel IH]; cbn [flush_loop]; quiet. Qed.
#[export] Hint Resolve quiet_flush_loop : quiet.

Lemma quiet_flush sid : quiet (flush_stream_data sid).
Proof. unfold flush_stream_data, send_data_frame. quiet. Qed.
Lemma quiet_try_remove sid : quiet (try_remove_closed_stream sid).
Proof. unfold try_remove_closed_stream. quiet. Qed.
#[export] Hint Resolve quiet_flush quiet_try_remove : quiet.

Lemma quiet_send_data id l es : quiet (send_data id l es).
Proof. unfold send_data, queue_data. quiet. Qed.
Lemma quiet_flush_streams ids : quiet (flush_streams ids).
Proof. induction ids as [|sid ids IH]; cbn [flush_streams]; quiet. Qed.
#[export] Hint Resolve quiet_send_data quiet_flush_streams : quiet.

(** *** Header blocks, sent *)

Lemma quiet_hpack_encode hs : quiet (hpack_encode hs).
Proof. apply quiet_same. intros c. unfold hpack_encode. repeat case_match; try done. all: cbn; repeat case_match; done. Qed.
#[export] Hint Resolve quiet_hpack_encode : quiet.

Lemma quiet_continuations fuel id max l : quiet (send_continuations fuel id max l).
Proof. revert l. induction fuel as [|fuel IH]; intros l; cbn [send_continuations]; quiet. Qed.
#[export] Hint Resolve quiet_continuations : quiet.
Lemma quiet_header_block id l es : quiet (send_header_block id l es).
Proof. unfold send_header_block, take_size_updates. quiet. Qed.
Lemma quiet_close id : quiet (close_stream id).
Proof. unfold close_stream. quiet. Qed.
#[export] Hint Resolve quiet_header_block quiet_close : quiet.

Lemma quiet_start_stream hs es : quiet (start_stream hs es).
Proof. unfold start_stream, check_peer_header_list_size, expect_non_zero. quiet. Qed.
Lemma quiet_send_response id hs es : quiet (send_response id hs es).
Proof.
  unfold send_response, check_not_tunnel, check_peer_header_list_size, check_send_buffer_empty, expect_non_zero. quiet.
Qed.
Lemma quiet_send_trailers id hs : quiet (send_trailers id hs).
Proof.
  unfold send_trailers, check_not_tunnel, check_peer_header_list_size, check_send_buffer_empty, expect_non_zero. quiet.
Qed.
Lemma quiet_send_goaway code l : quiet (send_goaway code l).
Proof. unfold send_goaway. quiet. Qed.
#[export] Hint Resolve quiet_start_stream quiet_send_response quiet_send_trailers quiet_send_goaway : quiet.

(** *** Header blocks, received *)

Lemma quiet_ensure id : quiet (ensure_stream id).
Proof. unfold ensure_stream. quiet. Qed.
Lemma quiet_check_received id hs es tr : quiet (check_received id hs es tr).
Proof.
  unfold check_received, reset_headers_validation_error, reset_refused_concurrent_stream,
    reset_connect_established_headers. quiet.
Qed.
Lemma quiet_finish id es : quiet (finish_headers id es).
Proof. unfold finish_headers. quiet. Qed.
Lemma quiet_note_initial id hs es : quiet (note_initial_headers id hs es).
Proof. unfold note_initial_headers. quiet. Qed.
Lemma quiet_note_successful sid : quiet (note_successful sid).
Proof. unfold note_successful. quiet. Qed.
#[export] Hint Resolve quiet_ensure quiet_check_received quiet_finish quiet_note_initial quiet_note_successful : quiet.

Lemma quiet_accept id hs es tr cl : quiet (accept_headers id hs es tr cl).
Proof. unfold accept_headers, reset_headers_validation_error, reset_refused_concurrent_stream. quiet. Qed.
#[export] Hint Resolve quiet_accept : quiet.

Lemma quiet_process_headers id hs es : quiet (process_headers id hs es).
Proof. unfold process_headers, reset_headers_validation_error. quiet. Qed.
Lemma quiet_hpack_decode l : quiet (hpack_decode l).
Proof. apply quiet_same. intros c. unfold hpack_decode. by repeat case_match. Qed.
#[export] Hint Resolve quiet_process_headers quiet_hpack_decode : quiet.

Lemma quiet_complete id hs es pc : quiet (complete_header_block id hs es pc).
Proof. unfold complete_header_block, reset_headers_validation_error, reset_refused_concurrent_stream,
  reset_connect_established_headers. quiet. Qed.
#[export] Hint Resolve quiet_complete : quiet.

Lemma quiet_finish_continuation sid : quiet (finish_continuation sid).
Proof. unfold finish_continuation. quiet. Qed.
Lemma quiet_begin sid : quiet (begin_header_block sid).
Proof. unfold begin_header_block, check_concurrent_streams_limit. quiet. Qed.
#[export] Hint Resolve quiet_finish_continuation quiet_begin : quiet.

Lemma quiet_handle_headers f : quiet (handle_headers f).
Proof. unfold handle_headers, await_continuation, check_header_block_fragment_size. quiet. Qed.
Lemma quiet_handle_continuation f : quiet (handle_continuation f).
Proof. unfold handle_continuation, check_header_block_fragment_size. quiet. Qed.

(** *** Other frames *)

Lemma quiet_handle_rst f : quiet (handle_rst_stream f).
Proof. unfold handle_rst_stream, check_not_idle_stream. quiet. Qed.
Lemma quiet_update_windows ids n : quiet (update_windows ids n).
Proof. induction ids as [|sid ids IH]; cbn [update_windows]; quiet. Qed.
Lemma quiet_apply_setting x : quiet (apply_setting x).
Proof. unfold apply_setting, note_setting. quiet. Qed.
Lemma quiet_resize : quiet resize_encoder.
Proof. apply quiet_same. intros c. unfold resize_encoder. by repeat case_match. Qed.
#[export] Hint Resolve quiet_handle_headers quiet_handle_continuation quiet_handle_rst quiet_update_windows
  quiet_apply_setting quiet_resize : quiet.

Lemma quiet_apply_settings l : quiet (apply_settings l).
Proof. induction l as [|x l IH]; cbn [apply_settings]; quiet. Qed.
#[export] Hint Resolve quiet_apply_settings : quiet.

Lemma quiet_handle_settings `{HashOrder} f : quiet (handle_settings f).
Proof. unfold handle_settings, note_table_size, update_stream_windows, flush_all_stream_data. quiet. Qed.
Lemma quiet_handle_window_update `{HashOrder} f : quiet (handle_window_update f).
Proof. unfold handle_window_update, reset_stream, flush_all_stream_data, check_not_idle_stream. quiet. Qed.
Lemma quiet_dispatch_other `{HashOrder} f :
  match f with Frame.Data _ => False | _ => True end -> quiet (dispatch f).
Proof.
  destruct f; intros Hf; [done|..]; cbn [dispatch];
    unfold handle_ping, handle_goaway, handle_priority_update, handle_unknown;
    first [apply quiet_handle_settings|apply quiet_handle_window_update|quiet].
Qed.
Lemma quiet_check_allowed f : quiet (check_frame_allowed f).
Proof. unfold check_frame_allowed. quiet. Qed.

(** ** Content *)

Lemma consume_recv_fits n f f' : FlowControl.consume_recv n f = (Ok tt, f') -> n <= FlowControl.recv_window f.
Proof. unfold_fc. repeat case_match; intros [=]; zbool; simplify_eq; lia. Qed.

Lemma quiet_receive sid id data es (X : M (ErrorCode.t + bool)) n :
  quiet X -> event_ok (Event.DataReceived id data es) ->
  quiet (let! outcome := X in
         match outcome with
         | inl code => reset_stream_internal id code n
         | inr is_closed =>
             push_event (Event.DataReceived id data es) ;!
             if is_closed then push_event (Event.StreamClosed id) ;! forget_stream sid else ret tt
         end).
Proof.
  intros HX He. apply quiet_bind; [done|]. intros [code|closed]; [quiet|].
  apply quiet_bind; [by apply quiet_push_event|]. intros _. quiet.
Qed.

Lemma data_events_ok f c : wf c -> Frame.wf (Frame.Data f) -> events_ok c -> events_ok (snd (handle_data f c)).
Proof.
  intros H Hf Hc. unfold handle_data, check_not_idle_stream. rewrite bind_assoc, bind_gets.
  destruct (is_idle_stream _ c); [done|]. rewrite bind_ret. set (size := flow_control_size f).
  unfold on_flow_control, zoom, bind at 1. destruct (FlowControl.consume_recv size (flow_control c)) as [r fl] eqn:E.
  destruct r as [[]|e|]; [|done|done]. apply consume_recv_fits in E.
  assert (event_ok (Event.DataReceived (StreamId.from (DataFrame.stream_id f)) (DataFrame.data f) (DataFrame.end_stream f))) as He.
  { pose proof (wf_flow _ H) as (_ & _ & _ & Hw). pose proof (flow_control_size_nonneg _ Hf).
    destruct Hf as (_ & Hd & Hp). split; [done|]. unfold size, flow_control_size in *. revert E.
    destruct (DataFrame.pad_length f); unfold Frame.opt_u8_ok, u8_ok in *; lia. }
  set (c1 := c <| flow_control := fl |>). assert (events_ok c1) as Hc1 by done. clearbody c1. revert c1 Hc1.
  change (quiet (let! closed := gets (is_stream_closed (NonZeroStreamId.as_u32 (DataFrame.stream_id f))) in
    let! known := gets (contains_stream (NonZeroStreamId.as_u32 (DataFrame.stream_id f))) in
    if closed || negb known then
      (if size >? 0 then push_event (Event.DataDiscarded (StreamId.from (DataFrame.stream_id f)) size) else ret tt)
    else
      let! _ := require_stream (NonZeroStreamId.as_u32 (DataFrame.stream_id f)) in
      let! outcome := stream_mut (NonZeroStreamId.as_u32 (DataFrame.stream_id f)) (receive_data f size) in
      match outcome with
      | inl code => reset_stream_internal (StreamId.from (DataFrame.stream_id f)) code size
      | inr is_closed =>
          push_event (Event.DataReceived (StreamId.from (DataFrame.stream_id f)) (DataFrame.data f) (DataFrame.end_stream f)) ;!
          if is_closed then
            push_event (Event.StreamClosed (StreamId.from (DataFrame.stream_id f))) ;!
            forget_stream (NonZeroStreamId.as_u32 (DataFrame.stream_id f))
          else ret tt
      end)).
  apply quiet_bind; [quiet|intros closed]. apply quiet_bind; [quiet|intros known]. destruct (_ || _); [quiet|].
  apply quiet_bind; [quiet|intros _]. apply quiet_receive; [quiet|done].
Qed.

Lemma handle_frame_events `{HO : HashOrder, !HashOrderLaws HO} f c :
  wf c -> Frame.wf f -> events_ok c -> events_ok (snd (handle_frame f c)).
Proof.
  intros H Hf Hc. unfold handle_frame. pose proof (quiet_check_allowed f c Hc) as H1.
  pose proof (check_frame_allowed_op f c H) as Hop. unfold op, wp in Hop. unfold bind.
  destruct (check_frame_allowed f c) as [[[]|e|] c1]; cbn [snd] in *; [|done|done]. destruct Hop as [Hw _].
  destruct f; try (by apply quiet_dispatch_other). by apply data_events_ok.
Qed.

Lemma handle_decode_error_events e : quiet (handle_decode_error e).
Proof. unfold handle_decode_error, reset_stream. quiet. Qed.

(** A handler, then the rest of the loop. *)
Lemma turn_events {A} d (X : M A) (k : A -> M unit) c :
  (forall c', proceeds c c' /\ frame_decoder c' = d -> events_ok c' -> forall a, events_ok (snd (k a c'))) ->
  turn_safe d X c -> events_ok (snd (X (with_decoder d c))) -> events_ok (snd ((let! a := X in k a) (with_decoder d c))).
Proof.
  intros Hk HX He. unfold turn_safe, wp in HX. unfold bind. destruct (X (with_decoder d c)) as [[a|e|] c']; [|done|done].
  by apply Hk.
Qed.

Lemma process_loop_events `{HO : HashOrder, !HashOrderLaws HO} fuel c :
  wf c -> room (undecoded c) c -> events_ok c -> events_ok (snd (process_loop fuel c)).
Proof.
  revert c. induction fuel as [|fuel IH]; intros c Hc Hr He; [done|]. rewrite process_loop_turn.
  destruct (FrameDecoder.decode (frame_decoder c)) as [r d] eqn:E.
  destruct (turn_safe_spec c r d Hc Hr E) as [H1 Ht].
  assert (forall c', proceeds c c' /\ frame_decoder c' = d -> events_ok c' -> forall a : unit, events_ok (snd (process_loop fuel c'))) as Hk.
  { intros c' [Hp _] He' _. pose proof Hp as [H2 _]. apply IH; [done|by eapply proceeds_room|done]. }
  assert (events_ok (with_decoder d c)) as He1 by done.
  pose proof (decode_turn _ (wf_frames c Hc)) as Hd. rewrite E in Hd. destruct Hd as [_ Hd]. cbn [fst] in Hd.
  destruct r as [[f|]|e|]; cbn [turn]; [|done| |done].
  - destruct Hd as [Hf _]. apply turn_events; [done|by destruct Ht|]. by apply handle_frame_events.
  - destruct (Error.is_stream_error e); [|done]. apply turn_events; [done|by destruct Ht|]. by apply handle_decode_error_events.
Qed.

(** ** Calls *)

Definition reply_ok (r : result Error.t reply) : Prop :=
  match r with Ok (Polled (Some e)) => event_ok e | _ => True end.

Lemma done_events {A B} (X : M A) (f : A -> B) c : events_ok (snd (X c)) -> events_ok (snd ((let! a := X in ret (f a)) c)).
Proof. unfold bind, ret. by destruct (X c) as [[]]. Qed.

Lemma poll_event_events c :
  events_ok c ->
  events_ok (snd (poll_event c)) /\ match fst (poll_event c) with Ok (Some e) => event_ok e | _ => True end.
Proof.
  unfold events_ok, poll_event, bind, gets, modify, ret. destruct (events c) as [|e es] eqn:E; cbn.
  - by rewrite E.
  - intros He. by inversion He.
Qed.

Lemma run_call_events `{HO : HashOrder, !HashOrderLaws HO} n m x c :
  used n m c -> n < 2 ^ 64 -> events_ok c -> events_ok (snd (run_call x c)).
Proof.
  intros (H & Hn & Hp) Hmax He.
  assert (forall A (X : M A) (f : A -> reply), quiet X -> events_ok (snd ((let! a := X in ret (f a)) c))) as Hq
    by (intros A X f HX; by apply done_events, HX).
  destruct x; cbn [run_call]; unfold mark_preface_received, mark_preface_sent, poll_output, reset_stream, send_ping;
    try (apply Hq; solve [quiet]).
  - apply done_events. unfold process. rewrite bind_gets. apply process_loop_events; [done| |done].
    intros sid. specialize (Hn sid). lia.
  - by apply done_events, poll_event_events.
Qed.

Lemma run_events `{HO : HashOrder, !HashOrderLaws HO} xs n m c rs c' :
  used n m c -> Forall call_ok xs -> n + total_fed xs < 2 ^ 64 -> m + settings_calls xs < 2 ^ 32 ->
  run xs c = Some (rs, c') -> events_ok c -> events_ok c'.
Proof.
  intros Hu Hxs. revert n m c rs Hu. induction Hxs as [|x xs Hx _ IH]; intros n m c rs Hu Hn Hm Hrun He.
  { by injection Hrun as <- <-. }
  change (total_fed (x :: xs)) with (fed x + total_fed xs) in *.
  change (settings_calls (x :: xs)) with (settings_call x + settings_calls xs) in *.
  destruct (totals_nonneg xs). pose proof (call_nonneg x) as [Hfx Hsx].
  pose proof (run_call_safe n m x c Hu Hx ltac:(lia) ltac:(lia)) as Hsafe. unfold call_safe, wp in Hsafe.
  pose proof (run_call_events n m x c Hu ltac:(lia) He) as He1.
  cbn [run] in Hrun. destruct (run_call x c) as [r c1] eqn:Ex.
  assert (r <> Panic /\ used (n + fed x) (m + settings_call x) c1) as (Hr & Hu1) by by destruct r as [| |]; destruct Hsafe.
  destruct (run xs c1) as [[rs1 c2]|] eqn:Er; [|by destruct r].
  assert (c' = c2) as -> by (destruct r; [injection Hrun as <- <-|injection Hrun as <- <-|done]; done).
  exact (IH _ _ c1 rs1 Hu1 ltac:(lia) ltac:(lia) Er He1).
Qed.
