(* ===== verification/Tokio.v ===== *)
(** * Tokio: a connection on an asynchronous transport

    Models [src/crates/tokio-http2/src/error.rs], [connection.rs] and the
    [ServerConnection] of [server.rs]: a sans-I/O connection whose octets go to
    and come from a transport.

    The transport (a [tokio] stream with [rustls] under it) is not code of the
    repository: it is a class, and [TransportLaws] states what is documented of
    it.  An [async fn] runs to its end, returns an error, or is dropped at an
    [await] that never completes, because its future was dropped or nothing
    arrives any more: [Dropped]. *)

From S2P Require Import Prelude Errors StreamIds Config Flow Bounded StreamCore FrameTypes.
From S2P Require Import FrameEncode FrameDecode FrameCodec Syntax HpackTable HpackCodec.
From S2P Require Import Validation Stream ConnBase ConnHeaders ConnRecv.
From S2P Require Import WtVarint.
Import Connection Headers Handlers.

(** ** Errors *)

(** [std::io::Error]: one the transport reports, or [io::Error::other]. *)
Module IoError.
Inductive t : Type := Os (code : Z) | Other (message : string).
End IoError.

Module TokioError.
Inductive t : Type :=
| Io (e : IoError.t)
| Protocol (e : Error.t)
| Tls (code : Z)
| WebTransport (e : WtError.t)
| ConnectionClosed
| InvalidArgument (reason : string).
End TokioError.

(** How an [async] method stops early. *)
Inductive stop (E : Type) : Type := Failed (e : E) | Dropped.
Arguments Failed {E} e.
Arguments Dropped {E}.

Definition map_stop {E F} (f : E -> F) (x : stop E) : stop F :=
  match x with Failed e => Failed (f e) | Dropped => Dropped end.

(** A method of a field, its errors converted. *)
Definition embed {S T E F A} (get : S -> T) (set : T -> S -> S) (f : E -> F) (m : ST T E A) : ST S F A :=
  fun s => let '(r, t) := m (get s) in (map_err f r, set t s).

(** The result of an [await], when there is one. *)
Definition outcome {S E A} (m : ST S (stop E) A) : ST S (stop E) (result E A) :=
  fun s =>
    match m s with
    | (Ok a, s') => (Ok (Ok a), s')
    | (Err (Failed e), s') => (Ok (Err e), s')
    | (Err Dropped, s') => (Err Dropped, s')
    | (Panic, s') => (Panic, s')
    end.

(** ** The transport *)

(** [rustls::ProtocolVersion], as far as the source names its values. *)
Module ProtocolVersion.
Inductive t : Type := TLSv1_0 | TLSv1_1 | TLSv1_2 | TLSv1_3 | Unlisted.
End ProtocolVersion.

(** [AsyncReadExt] and [AsyncWriteExt] on the stream, and what is asked of its
    TLS connection. *)
Class Transport := {
  transport : Type;
  transport_read : Z -> ST transport (stop IoError.t) (list Z);
  transport_read_exact : Z -> ST transport (stop IoError.t) (list Z);
  transport_write_all : list Z -> ST transport (stop IoError.t) unit;
  transport_flush : ST transport (stop IoError.t) unit;
  protocol_version : transport -> option ProtocolVersion.t;
  (** The length of the output, the label and the context: octets, or an error. *)
  export_keying_material : transport -> Z -> list Z -> list Z -> list Z + Z
}.

(** [read] gives at most as many octets as there is room for, [read_exact]
    exactly as many; [write_all] writes its octets, or the first ones of them
    when it does not complete.  [written] is what the peer will read. *)
Class TransportLaws (T : Transport) := {
  written : transport -> list Z;
  read_law : forall n s, 0 <= n ->
    let '(r, s') := transport_read n s in
    written s' = written s /\
    match r with Ok l => len l <= n /\ bytes_ok l | Err _ => True | Panic => False end;
  read_exact_law : forall n s, 0 <= n ->
    let '(r, s') := transport_read_exact n s in
    written s' = written s /\
    match r with Ok l => len l = n /\ bytes_ok l | Err _ => True | Panic => False end;
  write_all_law : forall l s,
    let '(r, s') := transport_write_all l s in
    match r with
    | Ok _ => written s' = written s ++ l
    | Err _ => exists l', l' `prefix_of` l /\ written s' = written s ++ l'
    | Panic => False
    end;
  flush_law : forall s,
    let '(r, s') := transport_flush s in written s' = written s /\ r <> Panic
}.

(** ** The connection *)

Module TokioConnection.

(** The size of [recv_buf]. Its contents are read only right after a read. *)
Definition RECV_BUF_SIZE : Z := 16384.

Section connection.
Context {T : Transport} {HO : HashOrder}.

Record t : Type := mk { stream : transport; inner : Connection.t }.

#[global] Instance eta_tokio : Eta t := fun c => mk (stream c) (inner c).

Definition M (A : Type) : Type := ST t (stop TokioError.t) A.

(** [?] on a method of the connection within, and on one of the stream. *)
Definition on_inner {A} (m : Connection.M A) : M A :=
  embed inner (fun v c => c <| inner := v |>) (fun e => Failed (TokioError.Protocol e)) m.
Definition on_stream {A} (m : ST transport (stop IoError.t) A) : M A :=
  embed stream (fun v c => c <| stream := v |>) (map_stop TokioError.Io) m.

Definition client (s : transport) (limits : Limits.t) : t := mk s (Connection.client limits).
Definition server (s : transport) (limits : Limits.t) : t := mk s (Connection.server limits).

Definition send_preface : M unit :=
  let! r := gets (fun c => role (inner c)) in
  if negb (bool_decide (r = Role.Client)) then
    throw (Failed (TokioError.InvalidArgument "send_preface is for client only"))
  else
    on_stream (transport_write_all CONNECTION_PREFACE) ;!
    on_inner mark_preface_sent.

Definition recv_preface : M unit :=
  let! r := gets (fun c => role (inner c)) in
  if negb (bool_decide (r = Role.Server)) then
    throw (Failed (TokioError.InvalidArgument "recv_preface is for server only"))
  else
    let! preface := on_stream (transport_read_exact 24) in
    if negb (bytes_eqb preface CONNECTION_PREFACE) then
      throw (Failed (TokioError.Protocol
        (Error.connection_error ErrorCode.ProtocolError "invalid connection preface")))
    else on_inner mark_preface_received.

(** The loop of [flush]: [poll_output] hands out everything at once, so the
    second turn ends it. *)
Fixpoint flush_loop (fuel : nat) (has_data : bool) : M bool :=
  match fuel with
  | O => panic
  | S fuel =>
      let! out := on_inner poll_output in
      match out with
      | Some data => on_stream (transport_write_all data) ;! flush_loop fuel true
      | None => ret has_data
      end
  end.

Definition flush : M unit :=
  let! has_data := flush_loop 2 false in
  if has_data then on_stream transport_flush else ret tt.

Definition initiate : M unit := on_inner send_settings ;! flush.

Definition send_request (headers : list HeaderField.t) (end_stream : bool) : M StreamId.t :=
  let! stream_id := on_inner (start_stream headers end_stream) in
  flush ;!
  ret stream_id.

Definition send_response (stream_id : StreamId.t) (headers : list HeaderField.t) (end_stream : bool) : M unit :=
  on_inner (Headers.send_response stream_id headers end_stream) ;! flush.

Definition send_data (stream_id : StreamId.t) (data : list Z) (end_stream : bool) : M unit :=
  on_inner (Connection.send_data stream_id data end_stream) ;! flush.

Definition has_pending_send_data (stream_id : StreamId.t) (c : t) : bool :=
  Connection.has_pending_send_data stream_id (inner c).

Definition reset_stream (stream_id : StreamId.t) (error_code : ErrorCode.t) : M unit :=
  on_inner (Connection.reset_stream stream_id error_code) ;! flush.

Definition send_ping (opaque_data : list Z) : M unit :=
  on_inner (Connection.send_ping opaque_data) ;! flush.

Definition send_goaway (error_code : ErrorCode.t) (debug_data : list Z) : M unit :=
  on_inner (Connection.send_goaway error_code debug_data) ;! flush.

Definition send_trailers (stream_id : StreamId.t) (headers : list HeaderField.t) : M unit :=
  on_inner (Headers.send_trailers stream_id headers) ;! flush.

Definition send_window_update (stream_id : StreamId.t) (increment : Z) : M unit :=
  on_inner (Connection.send_window_update stream_id increment) ;! flush.

Definition poll_event : M (option Event.t) := on_inner Connection.poll_event.

Definition recv : M Z :=
  let! data := on_stream (transport_read RECV_BUF_SIZE) in
  let n := len data in
  if n =? 0 then throw (Failed TokioError.ConnectionClosed)
  else
    on_inner (Connection.feed data) ;!
    on_inner process ;!
    ret n.

Definition drive : M unit := flush ;! recv ;! ret tt.

(** [reads] bounds the reads that complete before the future is dropped. *)
Fixpoint next_event (reads : nat) : M Event.t :=
  flush ;!
  let! e := poll_event in
  match e with
  | Some event => ret event
  | None =>
      match reads with
      | O => throw Dropped
      | S reads => recv ;! next_event reads
      end
  end.

(** [ServerConnection::shutdown] and [Client::shutdown]. *)
Definition shutdown : M unit := send_goaway ErrorCode.NoError [].

(** [Server::accept], from the connection the TLS handshake gave. *)
Definition accept (s : transport) (limits : Limits.t) : result (stop TokioError.t) unit * t :=
  (recv_preface ;! initiate) (server s limits).

(** [Client::connect], from there. *)
Definition connect (s : transport) (limits : Limits.t) : result (stop TokioError.t) unit * t :=
  (send_preface ;! initiate) (client s limits).

(** [ServerConnection::with_tls]. *)
Definition with_tls {A} (f : transport -> A) (c : t) : A := f (stream c).

End connection.
End TokioConnection.
