(* ===== verification/TokioWire.v ===== *)
(** * TokioWire: what a connection writes to its transport

    Every method of the connection on a transport is some calls of the
    connection within ([did]); what these calls hand out is written, in order.
    So what holds of every run of the inner connection holds here. *)

From S2P Require Import Prelude Errors StreamIds Config Flow Bounded StreamCore FrameTypes.
From S2P Require Import FrameEncode FrameDecode FrameCodec Syntax HpackTable HpackCodec.
From S2P Require Import Validation Stream ConnBase ConnHeaders ConnRecv ConnInv ConnSafe.
From S2P Require Import ConnSample ConnFlow ConnBlock ConnHandle ConnApi ConnEvents ConnOutput WtVarint Tokio.
Import Connection Headers Handlers Invariant Block Api TokioConnection.

(** The calls a method makes: they are valid, and the preface is not theirs. *)
Definition call_made (x : call) : Prop := call_ok x /\ x <> Initiate.

(** Nothing was lost while writing. *)
Definition complete {A} (r : result (stop TokioError.t) A) : bool :=
  match r with Err Dropped | Err (Failed (TokioError.Io _)) => false | _ => true end.

Section tokio.
Context {T : Transport} {TL : TransportLaws T} {HO : HashOrder} {HOL : HashOrderLaws HO}.

(** The calls that lead from one state to the other, the octets they were fed
    and the SETTINGS they sent; [whole] if all their output was written. *)
Definition did (reads settings : Z) (whole : bool) (c c' : t) : Prop :=
  exists xs rs, Forall call_made xs /\ total_fed xs <= reads * RECV_BUF_SIZE /\ settings_calls xs <= settings /\
    run xs (inner c) = Some (rs, inner c') /\
    (whole = true -> written (stream c') = written (stream c) ++ concat (map octets rs)).

Lemma did_refl c : did 0 0 true c c.
Proof. exists [], []. split_and!; [done|done|done|done|]. intros _. by rewrite app_nil_r. Qed.

Lemma did_trans n1 m1 w1 n2 m2 w2 c c1 c2 :
  did n1 m1 w1 c c1 -> did n2 m2 w2 c1 c2 -> did (n1 + n2) (m1 + m2) (w1 && w2) c c2.
Proof.
  intros (xs & rs & Hx & Hn & Hm & Hr & Hw) (ys & rs' & Hy & Hn' & Hm' & Hr' & Hw').
  exists (xs ++ ys), (rs ++ rs'). rewrite total_fed_app, settings_calls_app.
  split_and!; [by apply Forall_app|lia|lia|by eapply api_run_app|].
  intros [H1 H2]%andb_true_iff. by rewrite (Hw' H2), (Hw H1), map_app, concat_app, app_assoc.
Qed.

Lemma did_weaken n m w n' m' w' c c' :
  n <= n' -> m <= m' -> (w' = true -> w = true) -> did n m w c c' -> did n' m' w' c c'.
Proof.
  intros Hn Hm Hw (xs & rs & Hx & ? & ? & Hr & H). exists xs, rs. unfold RECV_BUF_SIZE in *.
  split_and!; [done|lia|lia|done|auto].
Qed.

(** What is known of the inner connection before and after. *)
Definition within (n m : Z) (c : t) : Prop := used n m (inner c) /\ events_ok (inner c).
Definition room_for (n m reads settings : Z) : Prop := n + reads * RECV_BUF_SIZE < 2 ^ 64 /\ m + settings < 2 ^ 32.

Lemma did_within n m reads settings w c c' :
  within n m c -> room_for n m reads settings -> did reads settings w c c' ->
  within (n + reads * RECV_BUF_SIZE) (m + settings) c' /\ later (inner c) (inner c').
Proof.
  intros [Hu He] [Hn Hm] (xs & rs & Hx & Hf & Hs & Hr & _).
  assert (Forall call_ok xs) as Hok by (eapply Forall_impl; [exact Hx|by intros x []]).
  destruct (run_safe xs n m _ Hu Hok ltac:(lia) ltac:(lia)) as (rs' & c2 & Hr' & _ & Hu' & Hl).
  rewrite Hr in Hr'. injection Hr' as <- <-. split; [split|done].
  - eapply used_weaken; [..|exact Hu']; lia.
  - eapply (run_events xs n m); [done|done|lia|lia|done|done].
Qed.

(** ** Methods *)

Definition sim {A} (reads settings : Z) (X : M A) (c : t) : Prop :=
  forall n m, within n m c -> room_for n m reads settings ->
  let '(r, c') := X c in r <> Panic /\ did reads settings (complete r) c c'.

Lemma sim_weaken {A} n m n' m' (X : M A) c : 0 <= n <= n' -> 0 <= m <= m' -> sim n m X c -> sim n' m' X c.
Proof.
  intros Hn Hm HX a b Hw [Ha Hb]. unfold RECV_BUF_SIZE in *.
  assert (room_for a b n m) as Hr by (unfold room_for, RECV_BUF_SIZE; lia). specialize (HX a b Hw Hr).
  destruct (X c) as [r c']. destruct HX as [? ?]. split; [done|]. eapply did_weaken; [..|done]; auto; lia.
Qed.

Lemma sim_bind {A B} n1 m1 n2 m2 (X : M A) (k : A -> M B) c :
  0 <= n1 -> 0 <= m1 -> 0 <= n2 -> 0 <= m2 -> sim n1 m1 X c ->
  (forall a c', X c = (Ok a, c') -> did n1 m1 true c c' -> sim n2 m2 (k a) c') -> sim (n1 + n2) (m1 + m2) (bind X k) c.
Proof.
  intros ? ? ? ? HX Hk n m Hw [Ha Hb]. unfold RECV_BUF_SIZE in *.
  assert (room_for n m n1 m1) as Hr by (unfold room_for, RECV_BUF_SIZE; lia). specialize (HX n m Hw Hr).
  unfold bind. destruct (X c) as [[a|e|] c1] eqn:E; [| |by destruct HX].
  - destruct HX as [_ Hd]. destruct (did_within _ _ _ _ _ _ _ Hw Hr Hd) as [Hw1 _].
    assert (room_for (n + n1 * RECV_BUF_SIZE) (m + m1) n2 m2) as Hr2 by (unfold room_for, RECV_BUF_SIZE; lia).
    specialize (Hk a c1 eq_refl Hd _ _ Hw1 Hr2). destruct (k a c1) as [r c2]. destruct Hk as [Hp Hd2].
    split; [done|]. exact (did_trans _ _ _ _ _ _ _ _ _ Hd Hd2).
  - destruct HX as [_ Hd]. split; [done|]. eapply did_weaken; [..|exact Hd]; [lia|lia|]. by destruct e as [[]|].
Qed.

Lemma sim_ret {A} (a : A) c : sim 0 0 (ret a) c.
Proof. intros n m _ _. split; [done|apply did_refl]. Qed.
Lemma sim_throw {A} e c : sim (A:=A) 0 0 (throw e) c.
Proof. intros n m _ _. split; [done|]. eapply did_weaken; [..|apply did_refl]; done. Qed.
Lemma sim_gets {A B} n m (f : t -> A) (k : A -> M B) c : sim n m (k (f c)) c -> sim n m (bind (gets f) k) c.
Proof. done. Qed.

(** A call of the inner connection that hands out no octets. *)
Lemma sim_inner {A} x (m : Connection.M A) (f : A -> reply) c :
  run_call x = (let! a := m in ret (f a)) -> (forall a, octets (Ok (f a)) = []) -> call_made x -> fed x <= RECV_BUF_SIZE ->
  sim (if 0 <? fed x then 1 else 0) (settings_call x) (on_inner m) c.
Proof.
  intros Ex Hf Hx Hfed n k Hw [Hn Hm]. destruct Hw as [Hu _]. pose proof (call_nonneg x) as [Hx0 _].
  set (reads := if 0 <? fed x then 1 else 0) in *.
  assert (fed x <= reads * RECV_BUF_SIZE) as Hle by (unfold reads; destruct (0 <? fed x) eqn:E; zbool; lia).
  pose proof (run_call_safe n k x (inner c) Hu (proj1 Hx) ltac:(lia) ltac:(lia)) as Hsafe.
  rewrite Ex in Hsafe. unfold call_safe, wp, bind, ret in Hsafe. unfold on_inner, embed.
  assert (forall r c1, m (inner c) = (r, c1) -> r <> Panic -> exists r', run_call x (inner c) = (r', c1) /\ r' <> Panic /\ octets r' = []) as K.
  { intros r c1 E Hr. rewrite Ex. unfold bind, ret. rewrite E. destruct r as [a|e|]; [|by eexists|done]. eexists. split_and!; [done|done|apply Hf]. }
  destruct (m (inner c)) as [r c1] eqn:E. assert (r <> Panic) as Hr by by destruct r.
  destruct (K r c1 eq_refl Hr) as (r' & Er & Hr' & Ho). split; [by destruct r|].
  exists [x], [r']. split_and!; [by constructor|cbn; lia|cbn; lia| |].
  - cbn [run]. rewrite Er. by destruct r'.
  - intros _. cbn. by rewrite Ho, app_nil_r.
Qed.

(** ** Flushing *)

(** The connection with nothing to write. *)
Definition drained (c : t) : t := c <| inner := (inner c) <| output_buffer := [] |> |>.

Lemma poll_output_eq c :
  Connection.poll_output (inner c) =
  match output_buffer (inner c) with
  | [] => (Ok None, inner c)
  | out => (Ok (Some out), inner (drained c))
  end.
Proof. unfold Connection.poll_output, bind, gets, modify, ret. by destruct (output_buffer (inner c)). Qed.

Lemma tokio_flush_eq c :
  flush c =
  match output_buffer (inner c) with
  | [] => (Ok tt, c)
  | out => (on_stream (transport_write_all out) ;! on_stream transport_flush) (drained c)
  end.
Proof.
  unfold flush. cbn [flush_loop]. unfold bind, on_inner, embed. rewrite poll_output_eq.
  destruct (output_buffer (inner c)) as [|o os] eqn:E; cbn [map_err].
  { by destruct c. }
  unfold on_stream, embed. cbn. destruct (transport_write_all (o :: os) (stream c)) as [[|e|] s]; done.
Qed.

(** Writing and flushing the stream. *)
Lemma write_spec l c :
  let '(r, c') := (on_stream (transport_write_all l) ;! on_stream transport_flush) c in
  r <> Panic /\ inner c' = inner c /\ (complete r = true -> r = Ok tt) /\
  (r = Ok tt -> written (stream c') = written (stream c) ++ l).
Proof.
  unfold bind, on_stream, embed. pose proof (write_all_law l (stream c)) as Hw.
  destruct (transport_write_all l (stream c)) as [[[]|e|] s]; [| |done]; cbn [map_err].
  - cbn [stream set_field]. pose proof (flush_law s) as Hf. destruct (transport_flush s) as [[[]|e|] s']; destruct Hf as [Hf ?]; [| |done].
    + split_and!; [done|done|done|]. intros _. cbn. by rewrite Hf.
    + split_and!; [done|done|by destruct e|by destruct e].
  - split_and!; [done|done|by destruct e|by destruct e].
Qed.

(** [flush] writes what there is to write, and nothing is left when it ends. *)
Lemma tokio_flush_spec c :
  let '(r, c') := flush c in
  r <> Panic /\ output_buffer (inner c') = [] /\ events (inner c') = events (inner c) /\
  (complete r = true -> r = Ok tt) /\
  (r = Ok tt -> written (stream c') = written (stream c) ++ output_buffer (inner c)).
Proof.
  rewrite tokio_flush_eq. destruct (output_buffer (inner c)) as [|o os] eqn:E.
  { split_and!; try done. by rewrite app_nil_r. }
  pose proof (write_spec (o :: os) (drained c)) as H.
  destruct ((on_stream (transport_write_all (o :: os)) ;! on_stream transport_flush) (drained c)) as [r c'].
  destruct H as (? & -> & ? & ?). by split_and!.
Qed.

Lemma sim_flush c : sim 0 0 flush c.
Proof.
  intros n m _ _. pose proof (tokio_flush_spec c) as H. rewrite tokio_flush_eq in *.
  destruct (output_buffer (inner c)) as [|o os] eqn:E; [split; [done|apply did_refl]|].
  pose proof (write_spec (o :: os) (drained c)) as Hi.
  destruct ((on_stream (transport_write_all (o :: os)) ;! on_stream transport_flush) (drained c)) as [r c'].
  destruct H as (Hr & _ & _ & Hc & Hw), Hi as (_ & Hi & _). split; [done|].
  exists [PollOutput], [Ok (Output (Some (o :: os)))]. split_and!; [by constructor|done|done| |].
  - cbn [run run_call]. unfold bind at 1. rewrite poll_output_eq, E, Hi. done.
  - intros Hd. rewrite (Hw (Hc Hd)). cbn. by rewrite app_nil_r.
Qed.

(** A call of the inner connection, and then a flush. *)
Lemma sim_then_flush {A} x (m : Connection.M A) (f : A -> reply) (k : A -> M A) c :
  run_call x = (let! a := m in ret (f a)) -> (forall a, octets (Ok (f a)) = []) -> call_made x -> fed x = 0 ->
  sim 0 (settings_call x) (on_inner m ;! flush) c.
Proof.
  intros Ex Hf Hx Hfed. pose proof (sim_inner x m f c Ex Hf Hx ltac:(unfold RECV_BUF_SIZE; lia)) as H. rewrite Hfed in H. cbn in H.
  pose proof (call_nonneg x). eapply sim_weaken; [| |apply (sim_bind 0 (settings_call x) 0 0); [lia|lia|done|done|exact H|]]; [lia|lia|].
  intros. apply sim_flush.
Qed.

Lemma sim_send x (m : Connection.M unit) c :
  run_call x = (m ;! ret Done) -> call_made x -> fed x = 0 -> sim 0 (settings_call x) (on_inner m ;! flush) c.
Proof. intros Ex Hx Hf. by apply (sim_then_flush x m (fun _ => Done) (fun _ => ret tt)). Qed.

Lemma sim_initiate c : sim 0 1 initiate c.
Proof. by apply (sim_send SendSettings). Qed.
Lemma sim_send_response id hs es c :
  StreamId.wf id -> headers_ok hs -> sim 0 0 (send_response id hs es) c.
Proof. intros. by apply (sim_send (SendResponse id hs es)). Qed.
Lemma sim_send_trailers id hs c : StreamId.wf id -> headers_ok hs -> sim 0 0 (send_trailers id hs) c.
Proof. intros. by apply (sim_send (SendTrailers id hs)). Qed.
Lemma sim_send_data id l es c : StreamId.wf id -> bytes_ok l -> sim 0 0 (send_data id l es) c.
Proof. intros. by apply (sim_send (SendData id l es)). Qed.
Lemma sim_reset_stream id code c : StreamId.wf id -> code_ok code -> sim 0 0 (reset_stream id code) c.
Proof. intros. by apply (sim_send (ResetStream id code)). Qed.
Lemma sim_send_ping l c : bytes_ok l -> len l = 8 -> sim 0 0 (send_ping l) c.
Proof. intros. by apply (sim_send (SendPing l)). Qed.
Lemma sim_send_goaway code l c :
  code_ok code -> bytes_ok l -> len l <= MAX_MAX_FRAME_SIZE - 8 -> sim 0 0 (send_goaway code l) c.
Proof. intros. by apply (sim_send (SendGoaway code l)). Qed.
Lemma sim_send_window_update id n c : StreamId.wf id -> u32_ok n -> sim 0 0 (send_window_update id n) c.
Proof. intros. by apply (sim_send (SendWindowUpdate id n)). Qed.

Lemma sim_send_request hs es c : headers_ok hs -> sim 0 0 (send_request hs es) c.
Proof.
  intros Hh. apply (sim_bind 0 0 0 0); [done..| |].
  - by apply (sim_inner (StartStream hs es) _ Started).
  - intros id c1 _ _. apply (sim_bind 0 0 0 0); [done..|apply sim_flush|]. intros. apply sim_ret.
Qed.

Lemma sim_poll_event c : sim 0 0 poll_event c.
Proof. by apply (sim_inner PollEvent _ Polled). Qed.

(** ** Reading *)

(** A read of at most [n] octets. *)
Lemma sim_read n c :
  0 <= n -> sim 0 0 (on_stream (transport_read n)) c /\
  forall l c', on_stream (transport_read n) c = (Ok l, c') -> len l <= n /\ bytes_ok l.
Proof.
  intros Hn. unfold on_stream, embed. pose proof (read_law n (stream c) Hn) as H. split.
  - intros a b _ _. unfold on_stream, embed. destruct (transport_read n (stream c)) as [r s]. destruct H as [Hs Hr].
    split; [by destruct r|]. exists [], []. split_and!; [done..|]. intros _. cbn. by rewrite Hs, app_nil_r.
  - intros l c'. destruct (transport_read n (stream c)) as [[l'|e|] s]; intros [=]. subst. apply H.
Qed.

Lemma sim_recv c : sim 1 0 recv c.
Proof.
  destruct (sim_read RECV_BUF_SIZE c) as [Hs Hl]; [done|].
  apply (sim_bind 0 0 1 0); [done..|exact Hs|]. intros l c1 E _. destruct (Hl l c1 E) as [Hle Hb].
  cbv zeta. destruct (len l =? 0); [eapply sim_weaken; [..|apply sim_throw]; done|].
  apply (sim_bind 1 0 0 0); [done..| |].
  - eapply sim_weaken; [| |apply (sim_inner (Feed l) _ Consumed); [done|done|by split|exact Hle]].
    + case_match; lia.
    + done.
  - intros _ c2 _ _. apply (sim_bind 0 0 0 0); [done..| |].
    + by apply (sim_inner Process _ (fun _ => Done)).
    + intros. apply sim_ret.
Qed.

Lemma sim_drive c : sim 1 0 drive c.
Proof.
  apply (sim_bind 0 0 1 0); [done..|apply sim_flush|]. intros _ c1 _ _.
  apply (sim_bind 1 0 0 0); [done..|apply sim_recv|]. intros. apply sim_ret.
Qed.

Lemma sim_next_event reads c : sim (Z.of_nat reads) 0 (next_event reads) c.
Proof.
  revert c. induction reads as [|reads IH]; intros c; cbn [next_event].
  - apply (sim_bind 0 0 0 0); [done..|apply sim_flush|]. intros _ c1 _ _.
    apply (sim_bind 0 0 0 0); [done..|apply sim_poll_event|]. intros [e|] c2 _ _; [apply sim_ret|apply sim_throw].
  - replace (Z.of_nat (S reads)) with (0 + (0 + (1 + Z.of_nat reads))) by lia.
    apply (sim_bind 0 0 _ 0); [done|done|lia|done|apply sim_flush|]. intros _ c1 _ _.
    apply (sim_bind 0 0 _ 0); [done|done|lia|done|apply sim_poll_event|]. intros [e|] c2 _ _.
    + eapply sim_weaken; [| |apply sim_ret]; lia.
    + apply (sim_bind 1 0 _ 0); [done|done|lia|done|apply sim_recv|]. intros. apply IH.
Qed.

Lemma poll_event_output c r c' : poll_event c = (r, c') -> output_buffer (inner c') = output_buffer (inner c).
Proof.
  unfold poll_event, on_inner, embed, Connection.poll_event, bind, gets, modify, ret.
  by destruct (events (inner c)); intros [= <- <-].
Qed.

(** An event comes out with everything written. *)
Lemma next_event_flushed reads c e c' : next_event reads c = (Ok e, c') -> output_buffer (inner c') = [].
Proof.
  revert c. induction reads as [|reads IH]; intros c; cbn [next_event]; unfold bind at 1;
    pose proof (tokio_flush_spec c) as H; destruct (flush c) as [[[]|x|] c1]; try done; destruct H as (_ & Ho & _);
    unfold bind at 1; destruct (poll_event c1) as [[[e1|]|x|] c2] eqn:E; try done; apply poll_event_output in E;
    try (intros [= <- <-]; congruence).
  unfold bind. destruct (recv c2) as [[k|x|] c3]; try done. apply IH.
Qed.

Lemma sim_within {A} reads settings (X : M A) c r c' n m :
  sim reads settings X c -> within n m c -> room_for n m reads settings -> X c = (r, c') ->
  r <> Panic /\ within (n + reads * RECV_BUF_SIZE) (m + settings) c'.
Proof.
  intros HX Hw Hr E. specialize (HX n m Hw Hr). rewrite E in HX. destruct HX as [Hp Hd].
  split; [done|]. exact (proj1 (did_within _ _ _ _ _ _ _ Hw Hr Hd)).
Qed.

Lemma sim_within_0 {A} (X : M A) c r c' n m :
  sim 0 0 X c -> within n m c -> room_for n m 0 0 -> X c = (r, c') -> r <> Panic /\ within n m c'.
Proof. intros HX Hw Hr E. destruct (sim_within 0 0 X c r c' n m HX Hw Hr E) as [? H]. split; [done|]. by rewrite Z.mul_0_l, !Z.add_0_r in H. Qed.

Lemma room_weaken n m n' m' : 0 <= n' <= n -> 0 <= m' <= m -> forall a b, room_for a b n m -> room_for a b n' m'.
Proof. unfold room_for, RECV_BUF_SIZE. lia. Qed.

Lemma poll_event_ok c e c' n m :
  within n m c -> poll_event c = (Ok (Some e), c') -> event_ok e.
Proof.
  intros [_ Hw]. apply poll_event_events in Hw as [_ Hw]. unfold poll_event, on_inner, embed.
  destruct (Connection.poll_event (inner c)) as [[[e1|]|x|] i]; intros [=]. by subst.
Qed.

(** The event is one the inner connection reported. *)
Lemma next_event_ok reads c e c' n m :
  within n m c -> room_for n m (Z.of_nat reads) 0 -> next_event reads c = (Ok e, c') -> event_ok e.
Proof.
  revert n m c. induction reads as [|reads IH]; intros n m c Hw Hr; cbn [next_event]; unfold bind at 1;
    assert (room_for n m 0 0) as Hr0 by (eapply room_weaken; [..|exact Hr]; lia);
    destruct (flush c) as [[[]|x|] c1] eqn:E1; try done; unfold bind at 1;
    destruct (sim_within_0 _ _ _ _ n m (sim_flush c) Hw Hr0 E1) as [_ Hw1];
    destruct (poll_event c1) as [[[e1|]|x|] c2] eqn:E2; try done;
    try (intros [= <- <-]; by eapply poll_event_ok).
  destruct (sim_within_0 _ _ _ _ n m (sim_poll_event c1) Hw1 Hr0 E2) as [_ Hw2].
  unfold bind. destruct (recv c2) as [[k|x|] c3] eqn:E3; try done.
  destruct (sim_within 1 0 _ _ _ _ n m (sim_recv c2) Hw2 ltac:(eapply room_weaken; [..|exact Hr]; lia) E3) as [_ Hw3].
  intros E. apply (IH _ _ _ Hw3 ltac:(unfold room_for, RECV_BUF_SIZE in *; lia) E).
Qed.

(** ** Starting *)

Lemma sim_recv_preface c : sim 0 0 recv_preface c.
Proof.
  unfold recv_preface. apply sim_gets. destruct (negb _); [apply sim_throw|].
  apply (sim_bind 0 0 0 0); [done..| |].
  - intros n m _ _. unfold on_stream, embed. pose proof (read_exact_law 24 (stream c) ltac:(lia)) as H.
    destruct (transport_read_exact 24 (stream c)) as [r s]. destruct H as [Hs Hr]. split; [by destruct r|].
    exists [], []. split_and!; [done..|]. intros _. cbn. by rewrite Hs, app_nil_r.
  - intros l c1 _ _. destruct (negb _); [apply sim_throw|].
    by apply (sim_inner MarkPrefaceReceived _ (fun _ => Done)).
Qed.

(** What [initiate] writes first. *)
Lemma initiate_writes n m c c' :
  within n m c -> room_for n m 0 1 -> output_buffer (inner c) = [] -> initiate c = (Ok tt, c') ->
  exists fs, Forall (sendable MAX_MAX_FRAME_SIZE) (own_settings (inner c) :: fs) /\
    written (stream c') = written (stream c) ++ wires (own_settings (inner c) :: fs) /\ output_buffer (inner c') = [].
Proof.
  intros [Hu _] [Hn Hm] Ho. pose proof Hu as (H & _ & Hp). unfold initiate, bind, on_inner, embed.
  pose proof (send_settings_wp (inner c) H ltac:(unfold settings_room; lia)) as Hs. unfold wp in Hs.
  destruct (send_settings (inner c)) as [[[]|e|] i]; [|done|done]. cbn [map_err].
  destruct Hs as [_ Hs]. destruct (ev_output _ _ _ Hs) as (fs & Hfs & Hout).
  set (c1 := c <| inner := i |>). pose proof (tokio_flush_spec c1) as Hf. intros E. rewrite E in Hf.
  destruct Hf as (_ & Hnil & _ & _ & Hw). exists fs. split_and!.
  - constructor; [by apply own_settings_sendable|done].
  - rewrite (Hw eq_refl). change (stream c1) with (stream c). change (inner c1) with i. rewrite Hout.
    change (own_settings (inner c) :: fs) with ([own_settings (inner c)] ++ fs). rewrite wires_app.
    unfold settings_sent, counted. cbn -[wires own_settings]. by rewrite Ho.
  - done.
Qed.

End tokio.
