(* ===== verification/TokioApi.v ===== *)
(** * TokioApi: every sequence of operations on a transport

    The methods of the connection as data, run as an application does, an error
    or a dropped future ending its method only; and what is then on the wire. *)

From S2P Require Import Prelude Errors StreamIds Config Flow Bounded StreamCore FrameTypes.
From S2P Require Import FrameEncode FrameDecode FrameCodec Syntax HpackTable HpackCodec.
From S2P Require Import Validation Stream ConnBase ConnHeaders ConnRecv ConnInv ConnSafe.
From S2P Require Import ConnSample ConnFlow ConnBlock ConnHandle ConnApi ConnEvents ConnOutput WtVarint Tokio TokioWire.
Import Connection Headers Handlers Invariant Block Api TokioConnection.

(** ** A transport

    A peer that sent [incoming] and then closed, if [closed], or is silent; and
    that takes [capacity] octets before a write blocks. *)
Record script : Type := mk_script {
  incoming : list Z;
  closed : bool;
  capacity : Z;
  sent : list Z;
  tls : option ProtocolVersion.t
}.

#[global] Instance eta_script : Eta script := fun s => mk_script (incoming s) (closed s) (capacity s) (sent s) (tls s).

Definition script_read (n : Z) : ST script (stop IoError.t) (list Z) :=
  let! l := gets incoming in
  let! eof := gets closed in
  if (len l =? 0) && negb eof then throw Dropped
  else
    modify (fun s => s <| incoming := drop (Z.to_nat n) l |>) ;!
    ret (map as_u8 (take (Z.to_nat n) l)).

Definition script_read_exact (n : Z) : ST script (stop IoError.t) (list Z) :=
  let! l := gets incoming in
  let! eof := gets closed in
  if len l <? n then throw (if eof then Failed (IoError.Os 1) else Dropped)
  else
    modify (fun s => s <| incoming := drop (Z.to_nat n) l |>) ;!
    ret (map as_u8 (take (Z.to_nat n) l)).

Definition script_write_all (l : list Z) : ST script (stop IoError.t) unit :=
  let! room := gets capacity in
  let taken := take (Z.to_nat room) l in
  modify (fun s => s <| sent := sent s ++ taken |> <| capacity := room - len taken |>) ;!
  if len taken <? len l then throw Dropped else ret tt.

#[global] Instance script_transport : Transport := {
  transport := script;
  transport_read := script_read;
  transport_read_exact := script_read_exact;
  transport_write_all := script_write_all;
  transport_flush := ret tt;
  protocol_version := tls;
  export_keying_material := fun _ n _ _ => inl (repeat 0 (Z.to_nat n))
}.

Lemma as_u8_bytes_ok l : bytes_ok (map as_u8 l).
Proof. apply Forall_map, Forall_true. intros x. apply Z.mod_pos_bound. lia. Qed.

#[global] Instance script_laws : TransportLaws script_transport.
Proof.
  refine {| written := (sent : transport -> list Z) |}.
  - intros n s Hn. cbn. unfold script_read, bind, gets, modify, ret, throw. destruct (_ && _); [done|].
    split; [done|]. split; [|apply as_u8_bytes_ok]. unfold len. rewrite length_map, length_take. lia.
  - intros n s Hn. cbn. unfold script_read_exact, bind, gets, modify, ret, throw. destruct (_ <? _) eqn:E; [by destruct (closed s)|].
    split; [done|]. zbool. split; [|apply as_u8_bytes_ok]. unfold len in *. rewrite length_map, length_take. lia.
  - intros l s. cbn. unfold script_write_all, bind, gets, modify, ret, throw. destruct (_ <? _) eqn:E; cbn.
    + exists (take (Z.to_nat (capacity s)) l). split; [exists (drop (Z.to_nat (capacity s)) l); symmetry; apply take_drop|done].
    + zbool. f_equal. unfold len in E. apply take_ge. rewrite length_take in E. lia.
  - intros s. cbn. done.
Defined.

(** ** Operations *)

Inductive operation : Type :=
| SendRequest (headers : list HeaderField.t) (end_stream : bool)
| SendResponse (stream_id : StreamId.t) (headers : list HeaderField.t) (end_stream : bool)
| SendData (stream_id : StreamId.t) (data : list Z) (end_stream : bool)
| SendTrailers (stream_id : StreamId.t) (headers : list HeaderField.t)
| ResetStream (stream_id : StreamId.t) (error_code : ErrorCode.t)
| SendPing (opaque_data : list Z)
| SendGoaway (error_code : ErrorCode.t) (debug_data : list Z)
| SendWindowUpdate (stream_id : StreamId.t) (increment : Z)
| PollEvent | Flush | Recv | Drive
| NextEvent (reads : nat).

Section tokio.
Context {T : Transport} {TL : TransportLaws T} {HO : HashOrder} {HOL : HashOrderLaws HO}.

(** What an operation returns besides its success is left out. *)
Definition perform (x : operation) : M unit :=
  match x with
  | SendRequest hs es => send_request hs es ;! ret tt
  | SendResponse id hs es => send_response id hs es
  | SendData id l es => send_data id l es
  | SendTrailers id hs => send_trailers id hs
  | ResetStream id code => reset_stream id code
  | SendPing l => send_ping l
  | SendGoaway code l => send_goaway code l
  | SendWindowUpdate id n => send_window_update id n
  | PollEvent => poll_event ;! ret tt
  | Flush => flush
  | Recv => recv ;! ret tt
  | Drive => drive
  | NextEvent reads => next_event reads ;! ret tt
  end.

Definition operation_ok (x : operation) : Prop :=
  match x with
  | SendRequest hs _ => headers_ok hs
  | SendResponse id hs _ | SendTrailers id hs => StreamId.wf id /\ headers_ok hs
  | SendData id d _ => StreamId.wf id /\ bytes_ok d
  | ResetStream id code => StreamId.wf id /\ code_ok code
  | SendPing d => bytes_ok d /\ len d = 8
  | SendGoaway code d => code_ok code /\ bytes_ok d /\ len d <= MAX_MAX_FRAME_SIZE - 8
  | SendWindowUpdate id n => StreamId.wf id /\ u32_ok n
  | _ => True
  end.

(** The reads an operation may make. *)
Definition reads_of (x : operation) : Z :=
  match x with Recv | Drive => 1 | NextEvent reads => Z.of_nat reads | _ => 0 end.
Definition total_reads (xs : list operation) : Z := foldr (fun x n => reads_of x + n) 0 xs.

(** [None] is a panic. *)
Fixpoint serve (xs : list operation) (c : t) : option (list (result (stop TokioError.t) unit) * t) :=
  match xs with
  | [] => Some ([], c)
  | x :: xs =>
      match perform x c with
      | (Panic, _) => None
      | (r, c') => option_map (fun '(rs, c'') => (r :: rs, c'')) (serve xs c')
      end
  end.

(** A connection once its preface and SETTINGS were sent. *)
Definition start (r : Role.t) (s : transport) (limits : Limits.t) : result (stop TokioError.t) unit * t :=
  match r with Role.Client => connect s limits | Role.Server => accept s limits end.

(** ** Lemmas *)

Lemma reads_nonneg x : 0 <= reads_of x.
Proof. destruct x; cbn; lia. Qed.
Lemma total_reads_nonneg xs : 0 <= total_reads xs.
Proof. induction xs as [|x xs IH]; [done|]. change (0 <= reads_of x + total_reads xs). pose proof (reads_nonneg x). lia. Qed.

Lemma sim_done {A} n m (X : M A) c : 0 <= n -> 0 <= m -> sim n m X c -> sim n m (X ;! ret tt) c.
Proof.
  intros Hn Hm H. rewrite <- (Z.add_0_r n), <- (Z.add_0_r m). apply sim_bind; [done..|]. intros. apply sim_ret.
Qed.

Lemma sim_perform x c : operation_ok x -> sim (reads_of x) 0 (perform x) c.
Proof.
  destruct x; cbn [operation_ok perform reads_of]; intros Hx.
  - by apply sim_done, sim_send_request.
  - by destruct Hx; apply sim_send_response.
  - by destruct Hx; apply sim_send_data.
  - by destruct Hx; apply sim_send_trailers.
  - by destruct Hx; apply sim_reset_stream.
  - by destruct Hx; apply sim_send_ping.
  - by destruct Hx as (? & ? & ?); apply sim_send_goaway.
  - by destruct Hx; apply sim_send_window_update.
  - apply sim_done, sim_poll_event; done.
  - apply sim_flush.
  - apply sim_done, sim_recv; done.
  - apply sim_drive.
  - apply sim_done, sim_next_event; lia.
Qed.

Lemma serve_did xs n m c :
  within n m c -> room_for n m (total_reads xs) 0 -> Forall operation_ok xs ->
  exists rs c', serve xs c = Some (rs, c') /\ length rs = length xs /\ did (total_reads xs) 0 (forallb complete rs) c c'.
Proof.
  intros Hw Hr Hxs. revert n c Hw Hr. induction Hxs as [|x xs Hx _ IH]; intros n c Hw Hr.
  { exists [], c. split_and!; [done|done|apply did_refl]. }
  change (total_reads (x :: xs)) with (reads_of x + total_reads xs) in *.
  pose proof (reads_nonneg x). pose proof (total_reads_nonneg xs). cbn [serve].
  assert (room_for n m (reads_of x) 0) as Hr1 by (eapply room_weaken; [..|exact Hr]; lia).
  pose proof (sim_perform x c Hx n m Hw Hr1) as Hd. destruct (perform x c) as [r c1]. destruct Hd as [Hp Hd].
  destruct (did_within _ _ _ _ _ _ _ Hw Hr1 Hd) as [Hw1 _]. rewrite Z.add_0_r in Hw1.
  destruct (IH _ c1 Hw1) as (rs & c2 & -> & Hl & Hd2); [unfold room_for, RECV_BUF_SIZE in *; lia|].
  exists (r :: rs), c2. split_and!; [by destruct r|cbn; by rewrite Hl|].
  exact (did_trans _ _ _ _ _ _ _ _ _ Hd Hd2).
Qed.

Lemma send_preface_spec c c' :
  send_preface c = (Ok tt, c') ->
  inner c' = (inner c) <| preface_sent := true |> /\ written (stream c') = written (stream c) ++ CONNECTION_PREFACE.
Proof.
  unfold send_preface. rewrite bind_gets. destruct (negb _); [done|]. unfold bind, on_stream, on_inner, embed.
  pose proof (write_all_law CONNECTION_PREFACE (stream c)) as H.
  destruct (transport_write_all CONNECTION_PREFACE (stream c)) as [[[]|e|] s]; [|done|done].
  intros [= <-]. by split.
Qed.

Lemma recv_preface_spec c c' :
  recv_preface c = (Ok tt, c') ->
  inner c' = (inner c) <| preface_received := true |> /\ written (stream c') = written (stream c).
Proof.
  unfold recv_preface. rewrite bind_gets. destruct (negb _); [done|]. unfold bind, on_stream, on_inner, embed.
  pose proof (read_exact_law 24 (stream c) ltac:(lia)) as H.
  destruct (transport_read_exact 24 (stream c)) as [[l|e|] s]; [|done|done]. cbn [map_err].
  destruct (negb (bytes_eqb _ _)); [done|]. intros [= <-]. split; [done|]. apply H.
Qed.

(** A new connection once its preface is there. *)
Definition begun (r : Role.t) (s : transport) (limits : Limits.t) : M unit :=
  match r with Role.Client => send_preface | Role.Server => recv_preface end.

Lemma within_fields c c' n m :
  within n m c -> events (inner c') = events (inner c) -> used n m (inner c') -> within n m c'.
Proof. intros [_ He] E Hu. split; [done|]. unfold events_ok. by rewrite E. Qed.

Lemma begun_spec r s l c0 :
  limits_ok l -> begun r s l (mk s (new r l)) = (Ok tt, c0) ->
  within 0 0 c0 /\ output_buffer (inner c0) = [] /\ own_settings (inner c0) = own_settings (new r l) /\
  written (stream c0) = written s ++ preface_of r.
Proof.
  intros Hl. pose proof (new_used r l Hl) as Hu.
  assert (within 0 0 (mk s (new r l))) as Hw by (split; [done|by constructor]).
  destruct (preface_mark_used 0 0 true _ Hu) as [H1 H2].
  destruct r; intros E; [apply send_preface_spec in E as [Ei Ew]|apply recv_preface_spec in E as [Ei Ew]]; cbn [inner stream] in *.
  - split; [apply (within_fields _ c0 0 0 Hw); by rewrite Ei|]. by rewrite Ei, Ew.
  - split; [apply (within_fields _ c0 0 0 Hw); by rewrite Ei|]. rewrite Ei, Ew. cbn [preface_of]. by rewrite app_nil_r.
Qed.

(** The start: the preface of a client, the own SETTINGS, and nothing left. *)
Lemma start_writes r s l c :
  limits_ok l -> start r s l = (Ok tt, c) ->
  within 0 1 c /\ output_buffer (inner c) = [] /\
  exists fs, Forall (sendable MAX_MAX_FRAME_SIZE) (own_settings (new r l) :: fs) /\
    written (stream c) = written s ++ preface_of r ++ wires (own_settings (new r l) :: fs).
Proof.
  intros Hl E.
  assert ((begun r s l ;! initiate) (mk s (new r l)) = (Ok tt, c)) as E' by by destruct r. clear E. unfold bind in E'.
  destruct (begun r s l (mk s (new r l))) as [[[]|e|] c0] eqn:Eb; [|done|done].
  destruct (begun_spec r s l c0 Hl Eb) as (Hw & Ho & Hs & Hp).
  destruct (sim_within 0 1 _ _ _ _ 0 0 (sim_initiate c0) Hw ltac:(done) E') as [_ Hw1].
  destruct (initiate_writes 0 0 c0 c Hw ltac:(done) Ho E') as (fs & Hfs & Hwr & Hnil).
  split; [done|]. split; [done|]. exists fs. rewrite Hs in *. split; [done|]. by rewrite Hwr, Hp, <- app_assoc.
Qed.

(** ** Properties *)

(** C7: A connection on a transport speaks HTTP/2 on the wire. Once it started,
    no sequence of operations makes it panic, whatever the transport reads,
    fails at or blocks on, as long as less than 2^64 octets are read. And as
    long as no write failed or was dropped half way, the octets on the wire are
    the preface of a client, the own SETTINGS frame and whole frames, of which
    the peer, however the octets are cut, decodes exactly these: all of them
    once what the connection still buffers is flushed. *)
Theorem tokio_connection_writes_frames (r : Role.t) (s : transport) (l : Limits.t) (xs : list operation) (c : t) :
  limits_ok l -> Forall operation_ok xs -> total_reads xs * RECV_BUF_SIZE < 2 ^ 64 -> start r s l = (Ok tt, c) ->
  exists rs c', serve xs c = Some (rs, c') /\ length rs = length xs /\ wf (inner c') /\
    (forallb complete rs = true ->
     exists fs bytes, written (stream c') ++ output_buffer (inner c') = written s ++ preface_of r ++ bytes /\
       forall chunks, concat chunks = bytes ->
       exists d, FrameDecoder.drain_chunks chunks (FrameDecoder.new MAX_MAX_FRAME_SIZE) =
                 Some (own_settings (new r l) :: fs, None, d) /\ FrameDecoder.buf d = []).
Proof.
  intros Hl Hxs Hr Hs. destruct (start_writes r s l c Hl Hs) as (Hw & Ho & fs & Hfs & Hwr).
  assert (room_for 0 1 (total_reads xs) 0) as Hroom by (unfold room_for; lia).
  destruct (serve_did xs 0 1 c Hw Hroom Hxs) as (rs & c' & Hserve & Hlen & Hdid).
  destruct (did_within _ _ _ _ _ _ _ Hw Hroom Hdid) as [[(H' & _) _] _].
  exists rs, c'. split_and!; [done|done|done|]. intros Hc.
  destruct Hdid as (ys & os & Hys & Hf & Hset & Hrun & Hwritten).
  assert (Forall call_ok ys /\ Forall (fun x => x <> Initiate) ys) as [Hok Hni] by (by apply Forall_and).
  destruct (run_appends ys 0 1 (inner c) os (inner c') (proj1 Hw) (or_intror Hni) Hok) as (gs & Hgs & Hout); [lia|lia|done|].
  exists (fs ++ gs), (wires (own_settings (new r l) :: fs ++ gs)).
  change (own_settings (new r l) :: fs ++ gs) with ((own_settings (new r l) :: fs) ++ gs).
  split; [|intros chunks Hch; apply wires_decode; [by apply Forall_app|done]].
  unfold ConnOutput.written in Hout. rewrite Ho in Hout. cbn [app] in Hout.
  rewrite (Hwritten Hc), <- app_assoc, Hout, Hwr, wires_app, <- !app_assoc. done.
Qed.
End tokio.

(** A server whose client sent a preface, SETTINGS and a PING. *)
Definition sample_transport : transport :=
  mk_script (CONNECTION_PREFACE ++ [0; 0; 0; 4; 0; 0; 0; 0; 0] ++ [0; 0; 8; 6; 0; 0; 0; 0; 0; 1; 2; 3; 4; 5; 6; 7; 8])
    false 100000 [] (Some ProtocolVersion.TLSv1_3).
Definition sample_server : @t script_transport :=
  Eval vm_compute in snd (@start script_transport Role.Server sample_transport sample_limits).
Definition sample_operations : list operation := [NextEvent 1; NextEvent 1; SendPing [8; 7; 6; 5; 4; 3; 2; 1]; NextEvent 1].

Lemma tokio_connection_writes_frames_witness :
  exists rs c', @serve script_transport key_order sample_operations sample_server = Some (rs, c') /\ length rs = 4%nat /\
    wf (inner c') /\
    (forallb complete rs = true ->
     exists fs bytes, written (stream c') ++ output_buffer (inner c') = [] ++ preface_of Role.Server ++ bytes /\
       forall chunks, concat chunks = bytes ->
       exists d, FrameDecoder.drain_chunks chunks (FrameDecoder.new MAX_MAX_FRAME_SIZE) =
                 Some (own_settings (new Role.Server sample_limits) :: fs, None, d) /\ FrameDecoder.buf d = []).
Proof.
  apply (@tokio_connection_writes_frames script_transport script_laws key_order key_order_laws Role.Server sample_transport
    sample_limits sample_operations sample_server); [apply sample_limits_ok| |done|by vm_compute].
  repeat (constructor; [first [exact I|repeat constructor; by vm_compute]|]). constructor.
Defined.
