(* ===== verification/Driver.v ===== *)
(** * Driver: the task that drives a WebTransport session

    Models [src/crates/tokio-http2/src/webtransport.rs]: the request that is
    accepted or rejected, and the driver task that owns the HTTP/2 connection
    and the session, takes commands from the application and hands it what
    arrives.

    The channels of [tokio::sync] are not code of the repository.  What the
    driver does to them is recorded in order, in [effects]: the packets it sends
    into the channel of a stream, the streams and datagrams it announces, the
    acknowledgements of commands.  A channel is the number [unbounded_channel]
    gave it; a [send] whose receiver is gone is ignored, as in the code. *)

From S2P Require Import Prelude Errors StreamIds Config Syntax HpackTable Validation Stream ConnBase ConnHeaders ConnRecv.
From S2P Require Import WtVarint WtStream WtCapsule WtInit WtProtocols WtSession Tokio.

Definition WEBTRANSPORT_PROTOCOL : list Z := bstr "webtransport".
Definition WT_SEND_CHUNK_SIZE : Z := DEFAULT_INITIAL_WINDOW_SIZE.

(** ** The streams of the application *)

Module StreamPacket.
Inductive t : Type :=
| Data (data : list Z) (fin : bool)
| Reset (error_code : Z).
End StreamPacket.

(** [WtBidiStream] and [WtUniRecvStream]: both receive alike. *)
Module RecvStream.
Record t : Type := mk { stream_id : Z; data_rx : Z; recv_finished : bool }.

#[global] Instance eta_recv_stream : Eta t := fun s => mk (stream_id s) (data_rx s) (recv_finished s).

(** [recv], given what [data_rx.recv().await] yields when it is asked. *)
Definition recv (received : option StreamPacket.t) : ST t TokioError.t (option (list Z)) :=
  let! finished := gets recv_finished in
  if finished then ret None
  else
    match received with
    | Some (StreamPacket.Data data fin) =>
        (if fin then modify (fun s => s <| recv_finished := true |>) else ret tt) ;!
        ret (Some data)
    | Some (StreamPacket.Reset error_code) =>
        modify (fun s => s <| recv_finished := true |>) ;!
        throw (TokioError.InvalidArgument "stream reset by peer (error_code={error_code})")
    | None =>
        modify (fun s => s <| recv_finished := true |>) ;!
        ret None
    end.
End RecvStream.

Module Reply.
(** What a command is acknowledged with. *)
Inductive t : Type :=
| Done
| Bidi (s : RecvStream.t)
| UniSend (stream_id : Z)
| Octets (l : list Z).
End Reply.

Module DriverCmd.
Inductive t : Type :=
| SendStreamData (stream_id : Z) (data : list Z) (fin : bool) (ack : Z)
| OpenBidi (ack : Z)
| OpenUni (ack : Z)
| SendDatagram (data : list Z) (ack : Z)
| ResetStream (stream_id error_code : Z) (ack : Z)
| StopSending (stream_id error_code : Z) (ack : Z)
| Close (error_code : Z) (reason : list Z) (ack : Z)
| Drain (ack : Z)
| ExportKeyingMaterial (app_label app_context : list Z) (length : Z) (ack : Z).
End DriverCmd.

Module Effect.
Inductive t : Type :=
| Packet (channel : Z) (packet : StreamPacket.t)
| SenderDropped (channel : Z)
| AcceptBidi (s : RecvStream.t)
| AcceptUni (s : RecvStream.t)
| Datagram (data : list Z)
| Acked (ack : Z) (r : result TokioError.t Reply.t).
End Effect.

(** ** Helpers *)

Definition wt_http2_error_code (kind : WtErrorKind.t) : option ErrorCode.t :=
  match kind with
  | WtErrorKind.StreamStateError => Some ErrorCode.WtStreamStateError
  | WtErrorKind.FlowControlError => Some ErrorCode.WtFlowControlError
  | WtErrorKind.SessionStateError => Some ErrorCode.WtError
  | _ => None
  end.

Definition describe_tls_version (version : option ProtocolVersion.t) : string :=
  match version with
  | Some ProtocolVersion.TLSv1_3 => "TLS 1.3"
  | Some ProtocolVersion.TLSv1_2 => "TLS 1.2"
  | Some ProtocolVersion.TLSv1_0 => "TLS 1.0"
  | Some ProtocolVersion.TLSv1_1 => "TLS 1.1"
  | Some _ => "unsupported TLS version"
  | None => "no TLS version negotiated"
  end.

(** [slice::chunks]: pieces of [size] octets, the last one shorter. *)
Fixpoint chunks_loop (fuel : nat) (size : Z) (l : list Z) : list (list Z) :=
  match fuel, l with
  | _, [] | O, _ => []
  | S fuel, _ => take (Z.to_nat size) l :: chunks_loop fuel size (drop (Z.to_nat size) l)
  end.
Definition chunks (size : Z) (l : list Z) : list (list Z) := chunks_loop (length l) size l.

(** ** The driver *)

Module Driver.

Section driver.
Context {T : Transport} {HO : Connection.HashOrder}.

Record t : Type := mk {
  conn : TokioConnection.t;
  connect_stream_id : StreamId.t;
  wt_session : WtSession.t;
  stream_channels : gmap Z Z;
  peer_closed_bidi_count : Z;
  peer_closed_uni_count : Z;
  responded_end_stream_on_close : bool;
  stop_sending_sent_streams : gset Z;
  next_channel : Z;
  effects : list Effect.t
}.

#[global] Instance eta_driver : Eta t := fun d =>
  mk (conn d) (connect_stream_id d) (wt_session d) (stream_channels d) (peer_closed_bidi_count d)
     (peer_closed_uni_count d) (responded_end_stream_on_close d) (stop_sending_sent_streams d)
     (next_channel d) (effects d).

Definition new (conn : TokioConnection.t) (stream_id : StreamId.t) (wt_session : WtSession.t) : t :=
  mk conn stream_id wt_session ∅ 0 0 false ∅ 0 [].

Definition M (A : Type) : Type := ST t (stop TokioError.t) A.

Definition on_conn {A} (m : TokioConnection.M A) : M A := zoom conn (fun v d => d <| conn := v |>) m.
(** [?] on a method of the session. *)
Definition on_wt {A} (m : ST WtSession.t WtError.t A) : M A :=
  embed wt_session (fun v d => d <| wt_session := v |>) (fun e => Failed (TokioError.WebTransport e)) m.
(** Its result, not propagated. *)
Definition try_wt {A} (m : ST WtSession.t WtError.t A) : M (WtResult A) :=
  fun d =>
    match m (wt_session d) with
    | (Panic, s) => (Panic, d <| wt_session := s |>)
    | (r, s) => (Ok r, d <| wt_session := s |>)
    end.

(** *** Channels *)

Definition record (e : Effect.t) : M unit := modify (fun d => d <| effects := effects d ++ [e] |>).

Definition unbounded_channel : M Z :=
  let! ch := gets next_channel in
  modify (fun d => d <| next_channel := ch + 1 |>) ;!
  ret ch.

(** A sender taken from the map is dropped. *)
Definition drop_sender (o : option Z) : M unit :=
  match o with Some ch => record (Effect.SenderDropped ch) | None => ret tt end.

Definition insert_channel (stream_id ch : Z) : M unit :=
  let! old := gets (fun d => stream_channels d !! stream_id) in
  modify (fun d => d <| stream_channels := <[stream_id := ch]> (stream_channels d) |>) ;!
  drop_sender old.

Definition remove_channel (stream_id : Z) : M (option Z) :=
  let! old := gets (fun d => stream_channels d !! stream_id) in
  modify (fun d => d <| stream_channels := delete stream_id (stream_channels d) |>) ;!
  ret old.

(** *** Output *)

Fixpoint send_chunks (stream_id : StreamId.t) (l : list (list Z)) : M unit :=
  match l with
  | [] => ret tt
  | chunk :: l =>
      on_conn (TokioConnection.send_data stream_id chunk false) ;!
      send_chunks stream_id l
  end.

(** [poll_output] hands out everything at once, so the second turn ends it. *)
Fixpoint flush_wt_output_loop (fuel : nat) : M unit :=
  match fuel with
  | O => panic
  | S fuel =>
      let! out := on_wt WtSession.poll_output in
      match out with
      | Some out =>
          let! stream_id := gets connect_stream_id in
          send_chunks stream_id (chunks WT_SEND_CHUNK_SIZE out) ;!
          flush_wt_output_loop fuel
      | None => ret tt
      end
  end.
Definition flush_wt_output : M unit := flush_wt_output_loop 2.

(** *** Commands *)

(** Tells whether the driver goes on. *)
Definition send_cmd_result (res : result TokioError.t Reply.t) (ack : Z) : M bool :=
  match res with
  | Panic => panic
  | Err e => record (Effect.Acked ack (Err e)) ;! ret true
  | Ok value =>
      let! flushed := outcome flush_wt_output in
      match flushed with
      | Ok _ => record (Effect.Acked ack (Ok value)) ;! ret true
      | Err e => record (Effect.Acked ack (Err e)) ;! ret false
      | Panic => panic
      end
  end.

(** A session method whose result is only success. *)
Definition run_wt {A} (m : ST WtSession.t WtError.t A) : M (result TokioError.t Reply.t) :=
  outcome (on_wt m ;! ret Reply.Done).

Definition open_bidi : M Reply.t :=
  let! stream_id := on_wt WtSession.open_bidi_stream in
  let! ch := unbounded_channel in
  insert_channel stream_id ch ;!
  ret (Reply.Bidi (RecvStream.mk stream_id ch false)).

Definition note_stop_sending (stream_id : Z) (res : result TokioError.t Reply.t) : M unit :=
  let! receiving := gets (fun d =>
    match WtSession.streams (wt_session d) !! stream_id with
    | Some s => WtStream.can_recv s
    | None => false
    end) in
  if is_ok res && receiving
  then modify (fun d => d <| stop_sending_sent_streams := {[stream_id]} ∪ stop_sending_sent_streams d |>)
  else ret tt.

(** The closing handshake: what is left to send, then END_STREAM. *)
Definition close_output : M (result TokioError.t Reply.t) :=
  let! stream_id := gets connect_stream_id in
  let! flushed := outcome flush_wt_output in
  match flushed with
  | Err e => ret (Err e)
  | Panic => panic
  | Ok _ =>
      let! ended := outcome (on_conn (TokioConnection.send_data stream_id [] true)) in
      match ended with
      | Err e => ret (Err e)
      | Panic => panic
      | Ok _ =>
          let! pending := gets (fun d => TokioConnection.has_pending_send_data stream_id (conn d)) in
          if pending then ret (Err TokioError.ConnectionClosed)
          else
            modify (fun d => d <| responded_end_stream_on_close := true |>) ;!
            ret (Ok Reply.Done)
      end
  end.

(** [vec![0u8; length]]: above [isize::MAX] octets the capacity overflows. *)
Definition ISIZE_MAX : Z := 2 ^ 63 - 1.
Definition vec_zeroed (length : Z) : result TokioError.t unit :=
  if length <=? ISIZE_MAX then Ok tt else Panic.

Definition export (app_label app_context : list Z) (length : Z) (d : t) : result TokioError.t Reply.t :=
  if length =? 0 then Err (TokioError.InvalidArgument "export length must be greater than zero")
  else
    let session_id := StreamId.as_u32 (connect_stream_id d) in
    let? ctx := map_err TokioError.WebTransport (serialize_exporter_context session_id app_label app_context) in
    let? _ := vec_zeroed length in
    match TokioConnection.with_tls
            (fun tls => export_keying_material tls length (bstr "EXPORTER-WebTransport") ctx) (conn d) with
    | inl output => Ok (Reply.Octets output)
    | inr e => Err (TokioError.Tls e)
    end.

Definition handle_cmd (cmd : DriverCmd.t) : M bool :=
  match cmd with
  | DriverCmd.SendStreamData stream_id data fin ack =>
      let! res := run_wt (WtSession.send_stream_data stream_id data fin) in
      send_cmd_result res ack
  | DriverCmd.OpenBidi ack =>
      let! res := outcome open_bidi in
      send_cmd_result res ack
  | DriverCmd.OpenUni ack =>
      let! res := outcome (let! stream_id := on_wt WtSession.open_uni_stream in ret (Reply.UniSend stream_id)) in
      send_cmd_result res ack
  | DriverCmd.SendDatagram data ack =>
      let! res := run_wt (WtSession.send_datagram data) in
      send_cmd_result res ack
  | DriverCmd.ResetStream stream_id error_code ack =>
      let! res := run_wt (WtSession.reset_stream stream_id error_code) in
      send_cmd_result res ack
  | DriverCmd.StopSending stream_id error_code ack =>
      let! res := run_wt (WtSession.stop_sending stream_id error_code) in
      note_stop_sending stream_id res ;!
      send_cmd_result res ack
  | DriverCmd.Close error_code reason ack =>
      let! res := run_wt (WtSession.close error_code reason) in
      let! res := (if is_ok res then close_output else ret res) in
      record (Effect.Acked ack res) ;!
      ret false
  | DriverCmd.Drain ack =>
      let! res := run_wt WtSession.drain in
      send_cmd_result res ack
  | DriverCmd.ExportKeyingMaterial app_label app_context length ack =>
      let! res := gets (export app_label app_context length) in
      match res with
      | Panic => panic
      | _ => record (Effect.Acked ack res) ;! ret true
      end
  end.

(** *** Events *)

Definition abort_session_with_wt_error (e : WtError.t) : M TokioError.t :=
  match wt_http2_error_code (WtError.kind e) with
  | Some code =>
      let! stream_id := gets connect_stream_id in
      let! _ := outcome (on_conn (TokioConnection.reset_stream stream_id code)) in
      ret tt
  | None => ret tt
  end ;!
  ret (TokioError.WebTransport e).

(** [if let Err(e) = m { return Err(self.abort_session_with_wt_error(e).await) }]. *)
Definition or_abort {A} (m : ST WtSession.t WtError.t A) : M A :=
  let! r := try_wt m in
  match r with
  | Ok a => ret a
  | Err e => let! e := abort_session_with_wt_error e in throw (Failed e)
  | Panic => panic
  end.

Definition maybe_grow_session_window : ST WtSession.t WtError.t unit :=
  let! initial := gets (fun s => WtConfig.initial_max_data (WtSession.config s)) in
  let! low := gets (fun s => WtFlowControl.should_send_max_data initial (WtSession.flow_control s)) in
  if low then WtSession.grow_recv_window initial else ret tt.

(** The initial limit of a stream, by its kind and who opened it. *)
Definition initial_stream_limit (stream_id : Z) (stream : WtStream.t) (s : WtSession.t) : Z :=
  if WtStream.bidirectional stream then
    let locally_initiated :=
      match WtSession.role s with
      | Role.Client => WtStream.StreamId.is_client_initiated stream_id
      | Role.Server => WtStream.StreamId.is_server_initiated stream_id
      end in
    if locally_initiated then WtConfig.initial_max_stream_data_bidi_local (WtSession.config s)
    else WtConfig.initial_max_stream_data_bidi_remote (WtSession.config s)
  else WtConfig.initial_max_stream_data_uni (WtSession.config s).

Definition maybe_grow_stream_window (stream_id : Z) : ST WtSession.t WtError.t unit :=
  let! o := gets (fun s => WtSession.streams s !! stream_id) in
  match o with
  | None => ret tt
  | Some stream =>
      if negb (WtStream.can_recv stream) then ret tt
      else
        let! initial := gets (initial_stream_limit stream_id stream) in
        if WtStream.recv_available stream <? (initial + 1) / 2
        then WtSession.grow_stream_recv_window stream_id initial
        else ret tt
  end.

Definition closed_count (bidirectional : bool) (d : t) : Z :=
  if bidirectional then peer_closed_bidi_count d else peer_closed_uni_count d.
Definition set_closed_count (bidirectional : bool) (n : Z) (d : t) : t :=
  if bidirectional then d <| peer_closed_bidi_count := n |> else d <| peer_closed_uni_count := n |>.
Definition initial_max_streams (bidirectional : bool) (c : WtConfig.t) : Z :=
  if bidirectional then WtConfig.initial_max_streams_bidi c else WtConfig.initial_max_streams_uni c.

(** [closed * 2] is [u64] arithmetic. *)
Definition maybe_grow_max_streams (bidirectional : bool) : M unit :=
  let! initial := gets (fun d => initial_max_streams bidirectional (WtSession.config (wt_session d))) in
  if initial =? 0 then ret tt
  else
    let! closed := gets (closed_count bidirectional) in
    if closed * 2 >=? 2 ^ 64 then panic
    else if closed * 2 >=? initial then
      or_abort (WtSession.grow_max_streams closed bidirectional) ;!
      modify (set_closed_count bidirectional 0)
    else ret tt.

Definition account_peer_stream_closed (stream_id : Z) : M unit :=
  if negb (WtStream.StreamId.is_client_initiated stream_id) then ret tt
  else
    let bidirectional := WtStream.StreamId.is_bidirectional stream_id in
    modify (fun d => set_closed_count bidirectional (saturating_add (closed_count bidirectional d) 1) d).

(** [self.stream_channels.remove(&id);] and the count, after a FIN. *)
Definition finish_stream (stream_id : Z) : M unit :=
  let! ch := remove_channel stream_id in
  drop_sender ch ;!
  account_peer_stream_closed stream_id.

Definition forget_stop_sending (stream_id : Z) : M unit :=
  modify (fun d => d <| stop_sending_sent_streams := stop_sending_sent_streams d ∖ {[stream_id]} |>).

Definition dispatch_wt_event (ev : WtEvent.t) : M unit :=
  match ev with
  | WtEvent.StreamOpened stream_id bidirectional =>
      let! ch := unbounded_channel in
      insert_channel stream_id ch ;!
      record (let s := RecvStream.mk stream_id ch false in
              if bidirectional then Effect.AcceptBidi s else Effect.AcceptUni s)
  | WtEvent.StreamData stream_id data fin =>
      let! stopped := gets (fun d => bool_decide (stream_id ∈ stop_sending_sent_streams d)) in
      if stopped then
        if fin then
          finish_stream stream_id ;!
          forget_stop_sending stream_id
        else ret tt
      else
        let! ch := gets (fun d => stream_channels d !! stream_id) in
        match ch with
        | Some ch => record (Effect.Packet ch (StreamPacket.Data data fin))
        | None => ret tt
        end ;!
        or_abort (maybe_grow_stream_window stream_id) ;!
        if fin then finish_stream stream_id else ret tt
  | WtEvent.StreamReset stream_id error_code =>
      let! ch := remove_channel stream_id in
      match ch with
      | Some ch =>
          record (Effect.Packet ch (StreamPacket.Reset error_code)) ;!
          record (Effect.SenderDropped ch)
      | None => ret tt
      end ;!
      account_peer_stream_closed stream_id ;!
      forget_stop_sending stream_id
  | WtEvent.StopSending _ _ => ret tt
  | WtEvent.DatagramReceived data => record (Effect.Datagram data)
  | WtEvent.SessionDraining | WtEvent.SessionClosed _ _ => ret tt
  end.

(** A turn takes an event, and dispatching adds none. *)
Fixpoint dispatch_loop (fuel : nat) : M unit :=
  match fuel with
  | O => panic
  | S fuel =>
      let! ev := on_wt WtSession.poll_event in
      match ev with
      | Some ev => dispatch_wt_event ev ;! dispatch_loop fuel
      | None => ret tt
      end
  end.

Definition dispatch_events : M unit :=
  let! fuel := gets (fun d => S (length (WtSession.events (wt_session d)))) in
  dispatch_loop fuel.

(** END_STREAM in answer to a closed session, which ends the driver. *)
Definition respond_to_close : M unit :=
  let! closed := gets (fun d => bool_decide (WtSession.state (wt_session d) = WtSessionState.Closed)) in
  let! responded := gets responded_end_stream_on_close in
  if closed && negb responded then
    let! stream_id := gets connect_stream_id in
    on_conn (TokioConnection.send_data stream_id [] true) ;!
    modify (fun d => d <| responded_end_stream_on_close := true |>) ;!
    throw (Failed TokioError.ConnectionClosed)
  else ret tt.

(** WINDOW_UPDATE for the octets received. *)
Definition return_window (n : Z) (end_stream : bool) : M unit :=
  if n >? 0 then
    on_conn (TokioConnection.send_window_update StreamId.Connection n) ;!
    if negb end_stream then
      let! stream_id := gets connect_stream_id in
      on_conn (TokioConnection.send_window_update stream_id n)
    else ret tt
  else ret tt.

Definition handle_data_received (data : list Z) (end_stream : bool) : M unit :=
  let data_len := len data in
  if data_len >? U32_MAX then panic
  else
    or_abort (WtSession.feed data) ;!
    or_abort WtSession.process ;!
    dispatch_events ;!
    respond_to_close ;!
    or_abort maybe_grow_session_window ;!
    maybe_grow_max_streams true ;!
    maybe_grow_max_streams false ;!
    return_window data_len end_stream ;!
    flush_wt_output ;!
    if end_stream then throw (Failed TokioError.ConnectionClosed) else ret tt.

Definition handle_event (ev : Event.t) : M unit :=
  let! connect := gets connect_stream_id in
  match ev with
  | Event.DataReceived stream_id data end_stream =>
      if bool_decide (stream_id = connect) then handle_data_received data end_stream else ret tt
  | Event.StreamReset stream_id _ _ | Event.StreamClosed stream_id =>
      if bool_decide (stream_id = connect) then throw (Failed TokioError.ConnectionClosed) else ret tt
  | _ => ret tt
  end.

(** *** The loop

    A turn of [select!]: a command, the end of the command channel, or the
    connection's next event, waited for through [reads] reads; a wait that is
    [Dropped] gives way to the next turn.  When the turns are over, the task is
    dropped where it waits. *)
Inductive turn : Type :=
| Command (cmd : DriverCmd.t)
| Hangup
| Wait (reads : nat).

(** What a turn leads to: whether the loop goes on. *)
Definition take_turn (x : turn) : M bool :=
  match x with
  | Command cmd => handle_cmd cmd
  | Hangup => ret false
  | Wait reads =>
      let! event := (fun d =>
        match on_conn (TokioConnection.next_event reads) d with
        | (Ok ev, d) => (Ok (Some (Ok ev)), d)
        | (Err (Failed e), d) => (Ok (Some (Err e)), d)
        | (Err Dropped, d) => (Ok None, d)
        | (Panic, d) => (Panic, d)
        end) in
      match event with
      | Some (Ok ev) => handle_event ev ;! ret true
      | Some (Err TokioError.ConnectionClosed) => ret false
      | Some (Err e) => throw (Failed e)
      | Some Panic => panic
      | None => ret true
      end
  end.

Fixpoint run (turns : list turn) : M unit :=
  match turns with
  | [] => throw Dropped
  | x :: turns =>
      let! go_on := take_turn x in
      if go_on then run turns else ret tt
  end.

End driver.
End Driver.

(** ** The application

    The methods of [WtServerSession], [WtSessionHandle] and the streams send a
    command with a oneshot channel to the driver, and wait for its answer. *)
Module Handle.

Fixpoint answer (ack : Z) (log : list Effect.t) : option (result TokioError.t Reply.t) :=
  match log with
  | Effect.Acked a r :: log => if a =? ack then Some r else answer ack log
  | _ :: log => answer ack log
  | [] => None
  end.

(** [rx.await]: the answer in the log of the driver, [ConnectionClosed] once the
    driver is gone without one, and nothing before. *)
Definition await (ack : Z) (gone : bool) (log : list Effect.t) : option (result TokioError.t Reply.t) :=
  match answer ack log with
  | Some r => Some r
  | None => if gone then Some (Err TokioError.ConnectionClosed) else None
  end.

(** What a method does when it is called: the command it sends, if any, and what
    it returns later, given whether the driver is gone and its log. *)
Definition call : Type := option DriverCmd.t * (bool -> list Effect.t -> option (result TokioError.t Reply.t)).

(** [self.cmd_tx.send(..).map_err(..)?; rx.await.map_err(..)?]: the send fails
    when the driver is gone. *)
Definition submit (command : Z -> DriverCmd.t) (ack : Z) (gone : bool) : call :=
  if gone then (None, fun _ _ => Some (Err TokioError.ConnectionClosed))
  else (Some (command ack), await ack).

Definition open_bidi : Z -> bool -> call := submit DriverCmd.OpenBidi.
Definition open_uni : Z -> bool -> call := submit DriverCmd.OpenUni.
Definition send_datagram (data : list Z) : Z -> bool -> call := submit (DriverCmd.SendDatagram data).
Definition export_keying_material (app_label app_context : list Z) (length : Z) : Z -> bool -> call :=
  submit (DriverCmd.ExportKeyingMaterial app_label app_context length).
Definition close (error_code : Z) (reason : list Z) : Z -> bool -> call := submit (DriverCmd.Close error_code reason).
Definition drain : Z -> bool -> call := submit DriverCmd.Drain.
Definition send_stream_data (stream_id : Z) (data : list Z) (fin : bool) : Z -> bool -> call :=
  submit (DriverCmd.SendStreamData stream_id data fin).
Definition stop_sending (stream_id error_code : Z) : Z -> bool -> call := submit (DriverCmd.StopSending stream_id error_code).
Definition reset_stream (stream_id error_code : Z) : Z -> bool -> call := submit (DriverCmd.ResetStream stream_id error_code).
End Handle.

(** ** The request *)

Module WtServerRequest.

Section request.
Context {T : Transport} {HO : Connection.HashOrder}.

Record t : Type := mk { conn : TokioConnection.t; stream_id : StreamId.t; headers : list HeaderField.t }.

Definition from_connection (conn : TokioConnection.t) (stream_id : StreamId.t) (headers : list HeaderField.t) : t :=
  mk conn stream_id headers.

Definition header (name : string) (headers : list HeaderField.t) : option (list Z) :=
  Headers.find_value name headers.

Definition path (headers : list HeaderField.t) : option (list Z) := header ":path" headers.
Definition authority (headers : list HeaderField.t) : option (list Z) := header ":authority" headers.
Definition scheme (headers : list HeaderField.t) : option (list Z) := header ":scheme" headers.
Definition origin (headers : list HeaderField.t) : option (list Z) := header "origin" headers.
Definition webtransport_init (headers : list HeaderField.t) : option (list Z) := header "webtransport-init" headers.
Definition wt_available_protocols (headers : list HeaderField.t) : option (list Z) :=
  header "wt-available-protocols" headers.

Definition invalid {A} (reason : string) : TokioConnection.M A := throw (Failed (TokioError.InvalidArgument reason)).

(** [HeaderField::from_static(b":status", ..)]. *)
Definition status_field (status : string) : HeaderField.t :=
  HeaderField.from_validated_parts (bstr ":status") (bstr status) false.

Definition check_origin (stream_id : StreamId.t) (allowed_origin origin : option (list Z)) : TokioConnection.M unit :=
  match allowed_origin, origin with
  | Some allowed, Some actual =>
      if negb (Validation.eq_ignore_ascii_case actual allowed) then
        TokioConnection.send_response stream_id [status_field "403"] true ;!
        invalid "origin rejected: allowed={}, actual={}"
      else ret tt
  | _, _ => ret tt
  end.

(** The peer's configuration, with what its WebTransport-Init header says. *)
Definition apply_init (stream_id : StreamId.t) (init_bytes : option (list Z)) (peer_config : WtConfig.t)
  : TokioConnection.M WtConfig.t :=
  match init_bytes with
  | None => ret peer_config
  | Some bytes =>
      match WtInit.parse bytes with
      | Ok init => ret (WtConfig.apply_init_as_peer init peer_config)
      | Err e =>
          TokioConnection.send_response stream_id [status_field "400"] true ;!
          throw (Failed (TokioError.WebTransport e))
      | Panic => panic
      end
  end.

Definition check_protocol (available_bytes selected_protocol : option (list Z)) : TokioConnection.M unit :=
  let available :=
    match available_bytes with
    | Some bytes => match WtAvailableProtocols.parse bytes with Ok av => Some av | _ => None end
    | None => None
    end in
  match selected_protocol with
  | None => ret tt
  | Some protocol_bytes =>
      if existsb (fun b => negb (is_printable b)) protocol_bytes
      then invalid "selected_protocol contains non-printable byte"
      else
        let listed :=
          match available with
          | Some av => existsb (bytes_eqb protocol_bytes) (WtAvailableProtocols.protocols av)
          | None => false
          end in
        if negb listed then invalid "selected_protocol is not listed in WT-Available-Protocols" else ret tt
  end.

(** The 200 response, without END_STREAM. *)
Definition response (selected_protocol : option (list Z)) : result TokioError.t (list HeaderField.t) :=
  match selected_protocol with
  | None => Ok [status_field "200"]
  | Some protocol_bytes =>
      let? serialized := map_err TokioError.WebTransport (serialize_wt_protocol protocol_bytes) in
      let? field := map_err (fun _ => TokioError.InvalidArgument "build wt-protocol header: {e}")
        (HeaderField.new (bstr "wt-protocol") serialized) in
      Ok [status_field "200"; field]
  end.

(** Up to the session; the task is spawned with it and the connection. *)
Definition accept_session (stream_id : StreamId.t) (headers : list HeaderField.t) (config : WtConfig.t)
  (allowed_origin selected_protocol : option (list Z)) : TokioConnection.M WtSession.t :=
  let! tls_version := gets (TokioConnection.with_tls protocol_version) in
  if match tls_version with Some ProtocolVersion.TLSv1_3 => false | _ => true end then
    TokioConnection.reset_stream stream_id ErrorCode.ProtocolError ;!
    invalid "WebTransport requires TLS 1.3 (got {})"
  else if negb match scheme headers with
               | Some s => Validation.eq_ignore_ascii_case s (bstr "https")
               | None => false
               end then
    TokioConnection.reset_stream stream_id ErrorCode.ProtocolError ;!
    invalid "WebTransport requires :scheme=https"
  else
    check_origin stream_id allowed_origin (origin headers) ;!
    let! local := gets (fun c => Connection.local_settings (TokioConnection.inner c)) in
    let! remote := gets (fun c => Connection.remote_settings (TokioConnection.inner c)) in
    let config := WtConfig.apply_advertised_settings local config in
    let peer_config := WtConfig.overlay_settings remote WtConfig.peer_default in
    let! peer_config := apply_init stream_id (webtransport_init headers) peer_config in
    check_protocol (wt_available_protocols headers) selected_protocol ;!
    let! fields := lift (map_err Failed (response selected_protocol)) in
    TokioConnection.send_response stream_id fields false ;!
    let '(r, wt_session) := WtSession.initiate (WtSession.server config peer_config) in
    lift (map_err (fun e => Failed (TokioError.WebTransport e)) r) ;!
    ret wt_session.

Definition accept (request : t) (config : WtConfig.t) (allowed_origin selected_protocol : option (list Z))
  : result (stop TokioError.t) Driver.t * TokioConnection.t :=
  let '(r, c) := accept_session (stream_id request) (headers request) config allowed_origin selected_protocol (conn request) in
  match r with
  | Ok wt_session => (Ok (Driver.new c (stream_id request) wt_session), c)
  | Err e => (Err e, c)
  | Panic => (Panic, c)
  end.

Definition reject (request : t) (status : Z) : result (stop TokioError.t) unit * TokioConnection.t :=
  (if negb ((100 <=? status) && (status <=? 599)) then
     throw (Failed (TokioError.Io (IoError.Other
       "reject: status code must be in 100..=599 (RFC 9110 §15), got {status}")))
   else
     let! field := lift (expect (HeaderField.new (bstr ":status") (to_decimal status))) in
     TokioConnection.send_response (stream_id request) [field] true) (conn request).

End request.
End WtServerRequest.
