(* ===== verification/DriverSample.v ===== *)
(** * DriverSample: a client's octets and the server that reads them

    What a client of this library sends to open a WebTransport session, a stream
    and a datagram; and the server that has read the request. *)

From S2P Require Import Prelude Errors StreamIds Config Flow Syntax HpackTable HpackCodec Validation Stream ConnBase ConnHeaders.
From S2P Require Import ConnRecv ConnInv ConnSample ConnBlock ConnOutput.
From S2P Require Import WtVarint WtStream WtCapsule WtSession WtLoop Tokio TokioApi Driver.
Import Driver.

(** Limits that offer WebTransport. *)
Definition wt_limits : Limits.t :=
  let 'Limits.mk a b c d e f _ h _ j k m n o p := sample_limits in
  Limits.mk a b c d e f true h true (Some 65536) (Some 65536) (Some 65536) (Some 4) (Some 4) (Some 65536).

Lemma wt_limits_ok : limits_ok wt_limits.
Proof. repeat split; by vm_compute. Qed.

(** An extended CONNECT request. *)
Definition connect_headers : list HeaderField.t :=
  [field ":method" "CONNECT"; field ":scheme" "https"; field ":path" "/wt"; field ":authority" "a.example";
   field ":protocol" "webtransport"; field "origin" "https://a.example"].

(** The preface, SETTINGS and the request of a client that knows the server's
    SETTINGS. *)
Definition request_octets : list Z := Eval vm_compute in
  Connection.output_buffer
    (snd ((Connection.initiate ;! Headers.start_stream connect_headers false)
       ((Connection.client wt_limits)
          <| Connection.remote_settings := Connection.local_settings (Connection.server wt_limits) |>))).

(** The octets of a DATA frame on the CONNECT stream. *)
Definition data_octets (data : list Z) (end_stream : bool) : list Z := Invariant.wires [data_frame 1 data end_stream].

(** What the session of a client writes: an opened stream, its only data, and a
    datagram. *)
Definition session_octets : list Z := Eval vm_compute in
  WtSession.output_buffer
    (snd ((WtSession.open_bidi_stream ;! WtSession.send_stream_data 0 [104; 105] true ;! WtSession.send_datagram [33])
       (sample_session Role.Client))).

(** The transport of a server whose client sends all of this. *)
Definition wt_transport : @transport script_transport := Eval vm_compute in
  mk_script (request_octets ++ data_octets session_octets false) false 100000 [] (Some ProtocolVersion.TLSv1_3).

(** The server that has read the SETTINGS and the request. *)
Definition wt_operations : list operation := [NextEvent 1; NextEvent 1; NextEvent 0].
Definition wt_results : list (result (stop TokioError.t) unit) := [Ok tt; Ok tt; Ok tt].
Definition wt_started : @TokioConnection.t script_transport := Eval vm_compute in
  snd (@start script_transport Role.Server wt_transport wt_limits).
Definition wt_served : @TokioConnection.t script_transport := Eval vm_compute in
  match @serve script_transport key_order wt_operations wt_started with Some (_, c) => c | None => wt_started end.

(** The session and the driver of the request. *)
Definition wt_origin : option (list Z) := Some (bstr "https://a.example").
Definition wt_accept : result (stop TokioError.t) WtSession.t * @TokioConnection.t script_transport := Eval vm_compute in
  WtServerRequest.accept_session stream_1 connect_headers WtConfig.default wt_origin None wt_served.
Definition wt_accepted : WtSession.t := Eval vm_compute in
  match fst wt_accept with Ok wt => wt | _ => sample_session Role.Server end.
Definition wt_connection : @TokioConnection.t script_transport := Eval vm_compute in snd wt_accept.
Definition wt_driver : @Driver.t script_transport := Eval vm_compute in Driver.new wt_connection stream_1 wt_accepted.

Lemma wt_start_runs : @start script_transport Role.Server wt_transport wt_limits = (Ok tt, wt_started).
Proof. vm_compute. reflexivity. Qed.
Lemma wt_serve_runs : @serve script_transport key_order wt_operations wt_started = Some (wt_results, wt_served).
Proof. vm_compute. reflexivity. Qed.
Lemma wt_accept_runs :
  WtServerRequest.accept_session stream_1 connect_headers WtConfig.default wt_origin None wt_served = (Ok wt_accepted, wt_connection).
Proof. vm_compute. reflexivity. Qed.

(** Turns of every kind. *)
Definition wt_turns : list turn :=
  [Wait 1; Command (DriverCmd.OpenBidi 7); Command (DriverCmd.SendStreamData 0 [1; 2] true 8);
   Command (DriverCmd.ExportKeyingMaterial [1] [2] 4 9); Wait 1; Command (DriverCmd.SendDatagram [3] 10); Hangup].
