(* ===== verification/DriverSafe.v ===== *)
(** * DriverSafe: the driver never panics

    The invariant of the driver ([ok]) puts together those of its connection
    and its session, and bounds the streams it counts as ended by the octets
    received: that keeps its arithmetic in range. *)

From S2P Require Import Prelude Errors StreamIds Config Flow Syntax HpackTable HpackCodec Validation Stream ConnBase ConnHeaders.
From S2P Require Import ConnRecv ConnInv ConnSafe ConnSample ConnHandle ConnApi ConnEvents ConnOutput.
From S2P Require Import WtVarint WtStream WtCapsule WtCodec WtInit WtProtocols WtSession WtInv WtSafe WtLoop WtApi WtClosing.
From S2P Require Import Tokio TokioWire TokioApi Driver.
Import WtInvariant Driver.

Section driver.
Context {T : Transport} {TL : TransportLaws T} {HO : Connection.HashOrder} {HOL : Connection.HashOrderLaws HO}.

(** [n] octets read, [m] SETTINGS sent, and at most [k] streams ended or ends
    that may still come. *)
Record ok (n m k : Z) (d : t) : Prop := {
  ok_conn : within n m (conn d);
  ok_wt : wf (wt_session d);
  ok_out : bytes_ok (WtSession.output_buffer (wt_session d));
  ok_sid : StreamId.wf (connect_stream_id d);
  ok_bidi : 0 <= peer_closed_bidi_count d;
  ok_uni : 0 <= peer_closed_uni_count d;
  ok_weight : peer_closed_bidi_count d + peer_closed_uni_count d + weight (wt_session d) <= k
}.

(** A method that makes at most [reads] reads and takes in [x] more octets. *)
Definition dsafe {A} (reads x : Z) (X : M A) (d : t) : Prop :=
  forall n m k, ok n m k d -> room_for n m reads 0 -> k + x < 2 ^ 63 ->
  let '(r, d') := X d in r <> Panic /\ ok (n + reads * TokioConnection.RECV_BUF_SIZE) m (k + x) d'.

(** ** Composition *)

Lemma ok_weaken n m k n' k' d : n <= n' -> k <= k' -> ok n m k d -> ok n' m k' d.
Proof.
  intros Hn Hk [[Hu He] ? ? ? ? ? ?]. constructor; try done; [|lia].
  split; [|done]. by eapply used_weaken; [..|exact Hu].
Qed.

Lemma dsafe_weaken {A} r x r' x' (X : M A) d : 0 <= r <= r' -> 0 <= x <= x' -> dsafe r x X d -> dsafe r' x' X d.
Proof.
  intros Hr Hx HX n m k Hok Hroom Hk. specialize (HX n m k Hok ltac:(eapply room_weaken; [..|exact Hroom]; lia) ltac:(lia)).
  destruct (X d) as [o d']. destruct HX as [? H']. split; [done|]. unfold TokioConnection.RECV_BUF_SIZE in *.
  eapply ok_weaken; [..|exact H']; lia.
Qed.

Lemma dsafe_bind {A B} r1 x1 r2 x2 (X : M A) (f : A -> M B) d :
  0 <= r1 -> 0 <= x1 -> 0 <= r2 -> 0 <= x2 -> dsafe r1 x1 X d ->
  (forall a d', X d = (Ok a, d') -> dsafe r2 x2 (f a) d') -> dsafe (r1 + r2) (x1 + x2) (bind X f) d.
Proof.
  intros Hr1 Hx1 Hr2 Hx2 HX Hf n m k Hok Hroom Hk.
  specialize (HX n m k Hok ltac:(eapply room_weaken; [..|exact Hroom]; lia) ltac:(lia)).
  unfold bind. destruct (X d) as [[a|e|] d1] eqn:E; [| |by destruct HX].
  - destruct HX as [_ H1]. specialize (Hf a d1 eq_refl _ _ _ H1 ltac:(unfold room_for in *; lia) ltac:(lia)).
    destruct (f a d1) as [o d2]. destruct Hf as [? H2]. split; [done|]. eapply ok_weaken; [..|exact H2]; lia.
  - destruct HX as [_ H1]. split; [done|]. unfold TokioConnection.RECV_BUF_SIZE in *. eapply ok_weaken; [..|exact H1]; lia.
Qed.

(** The parts that read nothing and take nothing in. *)
Lemma dsafe_seq {A B} x (X : M A) (f : A -> M B) d :
  0 <= x -> dsafe 0 0 X d -> (forall a d', X d = (Ok a, d') -> dsafe 0 x (f a) d') -> dsafe 0 x (bind X f) d.
Proof. intros Hx HX Hf. by apply (dsafe_bind 0 0 0 x). Qed.

Lemma dsafe_then {A B} r x (X : M A) (f : A -> M B) d :
  0 <= r -> 0 <= x -> dsafe r x X d -> (forall a d', X d = (Ok a, d') -> dsafe 0 0 (f a) d') -> dsafe r x (bind X f) d.
Proof. intros Hr Hx HX Hf. rewrite <- (Z.add_0_r r), <- (Z.add_0_r x). by apply (dsafe_bind r x 0 0). Qed.

Lemma dsafe_ret {A} (a : A) d : dsafe 0 0 (ret a) d.
Proof. intros n m k H _ _. split; [done|]. by rewrite Z.mul_0_l, !Z.add_0_r. Qed.
Lemma dsafe_throw {A} e d : dsafe (A:=A) 0 0 (throw e) d.
Proof. intros n m k H _ _. split; [done|]. by rewrite Z.mul_0_l, !Z.add_0_r. Qed.
Lemma dsafe_gets {A B} r x (f : t -> A) (k : A -> M B) d : dsafe r x (k (f d)) d -> dsafe r x (bind (gets f) k) d.
Proof. done. Qed.
Lemma dsafe_modify x (f : t -> t) d : (forall n m k, ok n m k d -> ok n m (k + x) (f d)) -> dsafe 0 x (modify f) d.
Proof. intros Hf n m k H _ _. split; [done|]. rewrite Z.mul_0_l, Z.add_0_r. by apply Hf. Qed.
Lemma dsafe_outcome {A} r x (X : M A) d : dsafe r x X d -> dsafe r x (outcome X) d.
Proof.
  intros HX n m k H Hr Hk. specialize (HX n m k H Hr Hk). unfold outcome.
  destruct (X d) as [[a|[e|]|] d']; by destruct HX.
Qed.
Lemma outcome_no_panic {A} (X : M A) d a d' : outcome X d = (Ok a, d') -> a <> Panic.
Proof. unfold outcome. destruct (X d) as [[x|[e|]|] d1]; intros [=]; by subst. Qed.

(** Only fields the invariant does not mention change. *)
Lemma ok_same n m k d d' :
  conn d' = conn d -> wt_session d' = wt_session d -> connect_stream_id d' = connect_stream_id d ->
  peer_closed_bidi_count d' = peer_closed_bidi_count d -> peer_closed_uni_count d' = peer_closed_uni_count d ->
  ok n m k d -> ok n m k d'.
Proof. intros E1 E2 E3 E4 E5 []. constructor; by rewrite ?E1, ?E2, ?E3, ?E4, ?E5. Qed.

Lemma dsafe_keep (f : t -> t) d :
  (forall d, conn (f d) = conn d /\ wt_session (f d) = wt_session d /\ connect_stream_id (f d) = connect_stream_id d /\
    peer_closed_bidi_count (f d) = peer_closed_bidi_count d /\ peer_closed_uni_count (f d) = peer_closed_uni_count d) ->
  dsafe 0 0 (modify f) d.
Proof.
  intros Hf. apply dsafe_modify. intros n m k H. rewrite Z.add_0_r. destruct (Hf d) as (? & ? & ? & ? & ?).
  by eapply ok_same; [..|exact H].
Qed.

(** ** Connection and session *)

Lemma dsafe_conn {A} reads (X : TokioConnection.M A) d :
  (forall n m k, ok n m k d -> sim reads 0 X (conn d)) -> dsafe reads 0 (on_conn X) d.
Proof.
  intros HX n m k H Hr _. specialize (HX n m k H n m (ok_conn _ _ _ _ H) Hr). unfold on_conn, zoom.
  destruct (X (conn d)) as [r c'] eqn:E. destruct HX as [Hp Hd].
  destruct (did_within _ _ _ _ _ _ _ (ok_conn _ _ _ _ H) Hr Hd) as [Hw _]. split; [by destruct r|].
  rewrite !Z.add_0_r in *. destruct H. by constructor.
Qed.

Lemma wt_ok n m k x d s :
  ok n m k d -> good (wt_session d) s -> weight s <= weight (wt_session d) + x -> ok n m (k + x) (d <| wt_session := s |>).
Proof.
  intros [] [Hw He] Hx. constructor; try done; cbn; [|lia].
  destruct (ev_output _ _ He) as (caps & Hc & -> & _). apply bytes_ok_app. split; [done|by apply wires_bytes].
Qed.

Lemma dsafe_try {A} x (m : ST WtSession.t WtError.t A) d :
  (wf (wt_session d) -> op m (wt_session d)) ->
  (wf (wt_session d) -> weight (snd (m (wt_session d))) <= weight (wt_session d) + x) -> dsafe 0 x (try_wt m) d.
Proof.
  intros Hm Hx n m0 k H _ _. specialize (Hm (ok_wt _ _ _ _ H)). specialize (Hx (ok_wt _ _ _ _ H)).
  unfold op, wp in Hm. unfold try_wt. rewrite Z.mul_0_l, Z.add_0_r.
  destruct (m (wt_session d)) as [[a|e|] s]; [| |done]; (split; [done|]); by apply wt_ok.
Qed.

Lemma dsafe_wt {A} (m : ST WtSession.t WtError.t A) d :
  mute m -> blind m -> (wf (wt_session d) -> op m (wt_session d)) -> dsafe 0 0 (on_wt m) d.
Proof.
  intros Hmute Hblind Hm n m0 k H _ _. specialize (Hm (ok_wt _ _ _ _ H)).
  pose proof (light m (wt_session d) Hmute Hblind) as Hx. unfold op, wp in Hm. unfold on_wt, embed.
  rewrite Z.mul_0_l, Z.add_0_r.
  destruct (m (wt_session d)) as [[a|e|] s]; [| |done]; (split; [done|]); apply wt_ok; done || (cbn in Hx; lia).
Qed.

Lemma dsafe_try_light {A} (m : ST WtSession.t WtError.t A) d :
  mute m -> blind m -> (wf (wt_session d) -> op m (wt_session d)) -> dsafe 0 0 (try_wt m) d.
Proof. intros Hmute Hblind Hm. apply dsafe_try; [done|]. intros _. rewrite light by done. lia. Qed.

(** *** Output *)

(** The chunks of some octets: together the octets, none too long. *)
Lemma chunks_loop_spec fuel size l :
  0 < size -> (length l <= fuel)%nat ->
  concat (chunks_loop fuel size l) = l /\ Forall (fun c => c <> [] /\ len c <= size) (chunks_loop fuel size l).
Proof.
  intros Hs. revert l. induction fuel as [|fuel IH]; intros [|b l] Hf; try done; [cbn in Hf; lia|].
  cbn [chunks_loop concat]. destruct (IH (drop (Z.to_nat size) (b :: l))) as [Hc Ha].
  { rewrite length_drop. cbn in *. lia. }
  split; [by rewrite Hc, take_drop|]. constructor; [|done]. split.
  - destruct (Z.to_nat size) eqn:E; [lia|done].
  - rewrite len_take. lia.
Qed.

Lemma chunks_spec size l :
  0 < size -> concat (chunks size l) = l /\ Forall (fun c => c <> [] /\ len c <= size) (chunks size l).
Proof. intros Hs. by apply chunks_loop_spec. Qed.

Lemma chunks_bytes size l : 0 < size -> bytes_ok l -> Forall bytes_ok (chunks size l).
Proof.
  intros Hs Hl. destruct (chunks_spec size l Hs) as [Hc _]. rewrite <- Hc in Hl.
  apply Forall_concat in Hl. done.
Qed.

Lemma send_chunks_safe id l d : Forall bytes_ok l -> StreamId.wf id -> dsafe 0 0 (send_chunks id l) d.
Proof.
  intros Hl Hid. revert d. induction Hl as [|c l Hc _ IH]; intros d; cbn [send_chunks]; [apply dsafe_ret|].
  apply dsafe_seq; [done| |intros; apply IH]. apply dsafe_conn. intros. by apply sim_send_data.
Qed.

Lemma on_conn_wt {A} (X : TokioConnection.M A) d : wt_session (snd (on_conn X d)) = wt_session d.
Proof. unfold on_conn, zoom. by destruct (X (conn d)). Qed.

Lemma send_chunks_wt id l d : wt_session (snd (send_chunks id l d)) = wt_session d.
Proof.
  revert d. induction l as [|c l IH]; intros d; [done|]. cbn [send_chunks]. unfold bind.
  pose proof (on_conn_wt (TokioConnection.send_data id c false) d) as E.
  destruct (on_conn _ d) as [[a|e|] d1]; cbn [snd] in *; [by rewrite IH|done|done].
Qed.

(** The driver with nothing of the session to write. *)
Definition wt_drained (d : t) : t :=
  d <| wt_session := (wt_session d) <| WtSession.output_buffer := [] |> |>.

Lemma wt_poll_output_eq s :
  WtSession.poll_output s =
  match WtSession.output_buffer s with
  | [] => (Ok None, s)
  | out => (Ok (Some out), s <| WtSession.output_buffer := [] |>)
  end.
Proof.
  unfold WtSession.poll_output, bind, gets, modify, ret. destruct (WtSession.output_buffer s) as [|b l] eqn:E; [done|].
  rewrite len_cons. pose proof (len_nonneg l). by replace (1 + len l =? 0) with false by lia.
Qed.

Lemma flush_wt_output_eq d :
  flush_wt_output d =
  match WtSession.output_buffer (wt_session d) with
  | [] => (Ok tt, d)
  | out => send_chunks (connect_stream_id d) (chunks WT_SEND_CHUNK_SIZE out) (wt_drained d)
  end.
Proof.
  unfold flush_wt_output. cbn [flush_wt_output_loop]. unfold on_wt, embed, bind at 1. rewrite wt_poll_output_eq.
  destruct (WtSession.output_buffer (wt_session d)) as [|b l] eqn:E; cbn [map_err].
  { by destruct d. }
  rewrite bind_gets. change (connect_stream_id (d <| wt_session := _ |>)) with (connect_stream_id d).
  fold (wt_drained d). unfold bind at 1. pose proof (send_chunks_wt (connect_stream_id d) (chunks WT_SEND_CHUNK_SIZE (b :: l)) (wt_drained d)) as Hw.
  destruct (send_chunks _ _ (wt_drained d)) as [[[]|e|] d1]; [|done|done]. cbn [snd] in Hw.
  unfold bind. rewrite wt_poll_output_eq. replace (WtSession.output_buffer (wt_session d1)) with (@nil Z) by by rewrite Hw.
  by destruct d1.
Qed.

Lemma flush_wt_output_safe d : dsafe 0 0 flush_wt_output d.
Proof.
  intros n m k H Hr Hk. rewrite flush_wt_output_eq.
  destruct (WtSession.output_buffer (wt_session d)) as [|b l] eqn:E; [by apply dsafe_ret|].
  assert (ok n m k (wt_drained d)) as H1.
  { destruct H. constructor; try done; [|by constructor]. unfold wt_drained. cbn.
    eapply wf_other; [exact ok_wt0|try done; try apply ok_wt0; apply grows_refl..]. }
  apply send_chunks_safe; [|apply H|done..]. apply chunks_bytes; [done|]. rewrite <- E. apply H.
Qed.

(** ** Commands *)

Ltac keep := apply dsafe_keep; intros; by split_and!.

Lemma record_safe e d : dsafe 0 0 (record e) d.
Proof. unfold record. keep. Qed.
Lemma channel_safe d : dsafe 0 0 unbounded_channel d.
Proof. unfold unbounded_channel. apply dsafe_gets, dsafe_seq; [done|keep|]. intros. apply dsafe_ret. Qed.
Lemma drop_sender_safe o d : dsafe 0 0 (drop_sender o) d.
Proof. destruct o; [apply record_safe|apply dsafe_ret]. Qed.
Lemma insert_channel_safe id ch d : dsafe 0 0 (insert_channel id ch) d.
Proof. unfold insert_channel. apply dsafe_gets, dsafe_seq; [done|keep|]. intros. apply drop_sender_safe. Qed.
Lemma remove_channel_safe id d : dsafe 0 0 (remove_channel id) d.
Proof. unfold remove_channel. apply dsafe_gets, dsafe_seq; [done|keep|]. intros. apply dsafe_ret. Qed.

Lemma send_cmd_result_safe res ack d : res <> Panic -> dsafe 0 0 (send_cmd_result res ack) d.
Proof.
  intros Hr. destruct res as [v|e|]; [| |done]; cbn [send_cmd_result].
  - apply dsafe_seq; [done|apply dsafe_outcome, flush_wt_output_safe|]. intros a d1 E.
    destruct a as [|e|]; [| |by apply outcome_no_panic in E].
    + apply dsafe_seq; [done|apply record_safe|]. intros. apply dsafe_ret.
    + apply dsafe_seq; [done|apply record_safe|]. intros. apply dsafe_ret.
  - apply dsafe_seq; [done|apply record_safe|]. intros. apply dsafe_ret.
Qed.

Lemma run_wt_safe {A} (m : ST WtSession.t WtError.t A) d :
  mute m -> blind m -> (wf (wt_session d) -> op m (wt_session d)) -> dsafe 0 0 (run_wt m) d.
Proof.
  intros. apply dsafe_outcome, dsafe_seq; [done|by apply dsafe_wt|]. intros. apply dsafe_ret.
Qed.

(** A session method, and its acknowledgement. *)
Lemma command_safe (X : M Reply.t) (f : result TokioError.t Reply.t -> M unit) ack d :
  dsafe 0 0 X d -> (forall r d', dsafe 0 0 (f r) d') ->
  dsafe 0 0 (let! res := outcome X in f res ;! send_cmd_result res ack) d.
Proof.
  intros HX Hf. apply dsafe_seq; [done|by apply dsafe_outcome|]. intros res d1 E.
  apply dsafe_seq; [done|apply Hf|]. intros. apply send_cmd_result_safe. by apply outcome_no_panic in E.
Qed.

Lemma command_only_safe (X : M Reply.t) ack d :
  dsafe 0 0 X d -> dsafe 0 0 (let! res := outcome X in send_cmd_result res ack) d.
Proof.
  intros HX. apply dsafe_seq; [done|by apply dsafe_outcome|]. intros res d1 E.
  apply send_cmd_result_safe. by apply outcome_no_panic in E.
Qed.

Lemma wt_command_safe {A} (m : ST WtSession.t WtError.t A) (f : A -> Reply.t) ack d :
  mute m -> blind m -> (wf (wt_session d) -> op m (wt_session d)) ->
  dsafe 0 0 (let! res := outcome (let! a := on_wt m in ret (f a)) in send_cmd_result res ack) d.
Proof.
  intros Hmute Hblind Hop. apply command_only_safe, dsafe_seq; [done|by apply dsafe_wt|]. intros. apply dsafe_ret.
Qed.

Lemma send_end_safe d : (forall n m k, ok n m k d -> StreamId.wf (connect_stream_id d)) ->
  dsafe 0 0 (on_conn (TokioConnection.send_data (connect_stream_id d) [] true)) d.
Proof. intros H. apply dsafe_conn. intros n m k Hok. apply sim_send_data; [by eapply H|constructor]. Qed.

(** A method that is safe when the invariant holds. *)
Lemma dsafe_given {A} r x (X : M A) d : ((exists n m k, ok n m k d) -> dsafe r x X d) -> dsafe r x X d.
Proof. intros HX n m k H. by apply HX; eauto. Qed.

Lemma close_output_safe d : dsafe 0 0 close_output d /\ forall r d', close_output d = (Ok r, d') -> r <> Panic.
Proof.
  assert (forall id, StreamId.wf id -> forall d1, dsafe 0 0 (on_conn (TokioConnection.send_data id [] true)) d1) as Hsend.
  { intros id Hid d1. apply dsafe_conn. intros. by apply sim_send_data; [|constructor]. }
  split.
  - apply dsafe_given. intros (n & m & k & Hok). pose proof (ok_sid _ _ _ _ Hok) as Hid. unfold close_output. apply dsafe_gets.
    apply dsafe_seq; [done|apply dsafe_outcome, flush_wt_output_safe|]. intros a d1 E.
    destruct a as [|e|]; [|apply dsafe_ret|by apply outcome_no_panic in E].
    apply dsafe_seq; [done|by apply dsafe_outcome, Hsend|]. intros a2 d2 E2.
    destruct a2 as [|e|]; [|apply dsafe_ret|by apply outcome_no_panic in E2].
    apply dsafe_gets. case_match; [apply dsafe_ret|]. apply dsafe_seq; [done|keep|]. intros. apply dsafe_ret.
  - intros r d'. unfold close_output. rewrite bind_gets. unfold bind at 1.
    destruct (outcome flush_wt_output d) as [[[a|e|]|e|] d1]; try done; [|by intros [= <- _]].
    unfold bind at 1. destruct (outcome _ d1) as [[[a2|e|]|e|] d2]; try done; [|by intros [= <- _]].
    rewrite bind_gets. case_match; [by intros [= <- _]|]. by intros [= <- _].
Qed.

Definition cmd_ok (cmd : DriverCmd.t) : Prop :=
  match cmd with
  | DriverCmd.SendStreamData _ data _ _ | DriverCmd.SendDatagram data _ => data_ok data
  | DriverCmd.ResetStream _ code _ | DriverCmd.StopSending _ code _ => 0 <= code
  | DriverCmd.Close code reason _ => u32_ok code /\ bytes_ok reason /\ Syntax.utf8_valid reason = true
  | DriverCmd.ExportKeyingMaterial _ _ length _ => length <= ISIZE_MAX
  | _ => True
  end.

Lemma export_no_panic label ctx length d : length <= ISIZE_MAX -> export label ctx length d <> Panic.
Proof.
  intros Hl. unfold export, serialize_exporter_context, vec_zeroed. replace (length <=? ISIZE_MAX) with true by lia.
  destruct (length =? 0); [done|]. destruct (len label >? 255); [done|]. destruct (len ctx >? 255); [done|].
  cbn. by destruct (TokioConnection.with_tls _ _).
Qed.

Lemma handle_cmd_safe cmd d : cmd_ok cmd -> dsafe 0 0 (handle_cmd cmd) d.
Proof.
  destruct cmd as [id data fin ack|ack|ack|data ack|id code ack|id code ack|code reason ack|ack|label ctx len ack];
    cbn [handle_cmd cmd_ok]; intros Hc.
  - apply command_only_safe, dsafe_seq; [done| |intros; apply dsafe_ret].
    apply dsafe_wt; [auto with mute|auto with blind|intros; by apply send_stream_data_op].
  - apply command_only_safe. unfold open_bidi. apply dsafe_seq; [done| |intros id d1 _].
    { apply dsafe_wt; [apply mute_open|apply blind_open|intros; by apply open_stream_op]. }
    apply dsafe_seq; [done|apply channel_safe|]. intros ch d2 _. apply dsafe_seq; [done|apply insert_channel_safe|].
    intros. apply dsafe_ret.
  - apply wt_command_safe; [apply mute_open|apply blind_open|intros; by apply open_stream_op].
  - apply command_only_safe, dsafe_seq; [done| |intros; apply dsafe_ret].
    apply dsafe_wt; [auto with mute|auto with blind|intros; by apply send_datagram_op].
  - apply command_only_safe, dsafe_seq; [done| |intros; apply dsafe_ret].
    apply dsafe_wt; [auto with mute|auto with blind|intros; by apply reset_stream_op].
  - apply command_safe.
    + apply dsafe_seq; [done| |intros; apply dsafe_ret].
      apply dsafe_wt; [auto with mute|auto with blind|intros; by apply stop_sending_op].
    + intros r d'. unfold note_stop_sending. apply dsafe_gets. destruct (is_ok r && _); [keep|apply dsafe_ret].
  - apply dsafe_seq; [done| |intros res d1 E].
    { apply run_wt_safe; [auto with mute|auto with blind|intros; by apply close_op; destruct_and?]. }
    apply dsafe_seq; [done|destruct (is_ok res); [apply close_output_safe|apply dsafe_ret]|]. intros.
    apply dsafe_seq; [done|apply record_safe|]. intros. apply dsafe_ret.
  - apply command_only_safe, dsafe_seq; [done| |intros; apply dsafe_ret].
    apply dsafe_wt; [auto with mute|auto with blind|intros; by apply drain_op].
  - apply dsafe_gets. pose proof (export_no_panic label ctx len d Hc).
    destruct (export label ctx len d); [| |done]; (apply dsafe_seq; [done|apply record_safe|]; intros; apply dsafe_ret).
Qed.

(** ** Events of the session *)

Lemma abort_safe e d : dsafe 0 0 (abort_session_with_wt_error e) d.
Proof.
  apply dsafe_seq; [done| |intros; apply dsafe_ret]. destruct (wt_http2_error_code _) as [code|] eqn:E; [|apply dsafe_ret].
  apply dsafe_gets, dsafe_seq; [done| |intros; apply dsafe_ret]. apply dsafe_outcome, dsafe_conn. intros n m k H.
  apply sim_reset_stream; [by apply H|]. destruct (WtError.kind e); simplify_eq/=; by vm_compute.
Qed.

Lemma or_abort_safe {A} x (m : ST WtSession.t WtError.t A) d :
  0 <= x -> (wf (wt_session d) -> op m (wt_session d)) ->
  (wf (wt_session d) -> weight (snd (m (wt_session d))) <= weight (wt_session d) + x) -> dsafe 0 x (or_abort m) d.
Proof.
  intros Hx Hm Hw. unfold or_abort.
  apply (dsafe_then 0 x); [done..|by apply dsafe_try|]. intros r d1 E.
  destruct r as [a|e|]; [apply dsafe_ret| |].
  - apply dsafe_seq; [done|apply abort_safe|]. intros. apply dsafe_throw.
  - unfold try_wt in E. by destruct (m (wt_session d)) as [[]].
Qed.

Lemma or_abort_light {A} (m : ST WtSession.t WtError.t A) d :
  mute m -> blind m -> (wf (wt_session d) -> op m (wt_session d)) -> dsafe 0 0 (or_abort m) d.
Proof. intros Hmute Hblind Hm. apply or_abort_safe; [done|done|]. intros _. rewrite light by done. lia. Qed.

Lemma mute_session_window : mute maybe_grow_session_window.
Proof. unfold maybe_grow_session_window. mute. Qed.
Lemma blind_session_window : blind maybe_grow_session_window.
Proof. unfold maybe_grow_session_window. blind. Qed.
Lemma mute_stream_window id : mute (maybe_grow_stream_window id).
Proof. unfold maybe_grow_stream_window. mute. Qed.
Lemma blind_stream_window id : blind (maybe_grow_stream_window id).
Proof. unfold maybe_grow_stream_window. blind. Qed.

Lemma session_window_op s : wf s -> op maybe_grow_session_window s.
Proof.
  intros H. unfold maybe_grow_session_window. do 2 apply wt_op_gets. pose proof (cfg_data _ (wf_config _ _ H)) as [? _].
  case_match; [by apply grow_recv_window_op|by apply wt_op_ret].
Qed.

Lemma initial_stream_limit_nonneg id st s : wf s -> 0 <= initial_stream_limit id st s.
Proof.
  intros H. destruct (wf_config _ _ H) as [_ [Hl _] [Hr _] [Hu _] _ _]. unfold initial_stream_limit.
  by repeat case_match.
Qed.

Lemma stream_window_op id s : wf s -> op (maybe_grow_stream_window id) s.
Proof.
  intros H. unfold maybe_grow_stream_window. apply wt_op_gets. case_match; [|by apply wt_op_ret].
  case_match; [by apply wt_op_ret|]. apply wt_op_gets. case_match; [|by apply wt_op_ret].
  apply grow_stream_recv_window_op; [done|by apply initial_stream_limit_nonneg].
Qed.

Lemma grow_max_streams_safe b d : dsafe 0 0 (maybe_grow_max_streams b) d.
Proof.
  apply dsafe_given. intros (n & m & k & Hok). unfold maybe_grow_max_streams. apply dsafe_gets.
  case_match; [apply dsafe_ret|]. apply dsafe_gets.
  assert (0 <= closed_count b d) as Hc0 by (destruct Hok; by destruct b).
  intros n' m' k' K Hr Hk. assert (closed_count b d * 2 < 2 ^ 64) as Hc.
  { destruct K. pose proof (closing_nonneg (WtSession.events (wt_session d))). pose proof (len_nonneg (waiting (wt_session d))).
    unfold weight in *. destruct b; cbn [closed_count]; lia. }
  replace (_ >=? 2 ^ 64) with false by lia. revert n' m' k' K Hr Hk.
  match goal with |- context [ if ?b then _ else _ ] => destruct b end; [|exact (dsafe_ret tt d)].
  apply (dsafe_seq 0); [done| |].
  - apply or_abort_light; [auto with mute|auto with blind|intros; by apply grow_max_streams_op].
  - intros _ d1 _. apply dsafe_modify. intros n1 m1 k1 H1. rewrite Z.add_0_r. destruct H1, b; constructor; try done; cbn; lia.
Qed.

Lemma saturating_add_bounds a : 0 <= a -> 0 <= saturating_add a 1 <= a + 1.
Proof. unfold saturating_add, USIZE_MAX. lia. Qed.

Lemma account_safe id d : dsafe 0 1 (account_peer_stream_closed id) d.
Proof.
  unfold account_peer_stream_closed. case_match; [eapply dsafe_weaken; [..|apply dsafe_ret]; lia|].
  apply dsafe_modify. intros n m k []. pose proof (saturating_add_bounds _ ok_bidi0). pose proof (saturating_add_bounds _ ok_uni0).
  destruct (WtStream.StreamId.is_bidirectional id); constructor; try done; cbn; lia.
Qed.

Lemma finish_safe id d : dsafe 0 1 (finish_stream id) d.
Proof.
  unfold finish_stream. apply dsafe_seq; [done|apply remove_channel_safe|]. intros. apply dsafe_seq; [done|apply drop_sender_safe|].
  intros. apply account_safe.
Qed.

Lemma forget_stop_safe id d : dsafe 0 0 (forget_stop_sending id) d.
Proof. unfold forget_stop_sending. keep. Qed.

Lemma dispatch_safe ev d : dsafe 0 (closes ev) (dispatch_wt_event ev) d.
Proof.
  destruct ev as [id b|id data fin|id code| |data| |]; cbn [dispatch_wt_event closes]; try apply dsafe_ret.
  - apply dsafe_seq; [done|apply channel_safe|]. intros ch d1 _. apply dsafe_seq; [done|apply insert_channel_safe|].
    intros. apply record_safe.
  - apply dsafe_gets. destruct (bool_decide _); [destruct fin|].
    + apply (dsafe_then 0 1); [done..|apply finish_safe|]. intros. apply forget_stop_safe.
    + apply dsafe_ret.
    + apply dsafe_gets, dsafe_seq; [by destruct fin| |intros _ d1 _].
      { destruct (stream_channels d !! id); [apply record_safe|apply dsafe_ret]. }
      apply dsafe_seq; [by destruct fin| |intros _ d2 _; destruct fin; [apply finish_safe|apply dsafe_ret]].
      apply or_abort_light; [apply mute_stream_window|apply blind_stream_window|apply stream_window_op].
  - apply dsafe_seq; [done|apply remove_channel_safe|]. intros o d1 _. apply dsafe_seq; [done| |intros _ d2 _].
    { destruct o; [|apply dsafe_ret]. apply dsafe_seq; [done|apply record_safe|]. intros. apply record_safe. }
    apply (dsafe_then 0 1); [done..|apply account_safe|]. intros. apply forget_stop_safe.
  - apply record_safe.
Qed.

(** *** Dispatching adds no events *)

Definition still {A} (X : M A) : Prop := forall d, WtSession.events (wt_session (snd (X d))) = WtSession.events (wt_session d).

Lemma still_bind {A B} (X : M A) (k : A -> M B) : still X -> (forall a, still (k a)) -> still (bind X k).
Proof. intros HX Hk d. specialize (HX d). unfold bind. destruct (X d) as [[a|e|] d']; cbn in *; [by rewrite Hk|done|done]. Qed.
Lemma still_gets {A} (f : t -> A) : still (gets f).
Proof. done. Qed.
Lemma still_ret {A} (a : A) : still (ret a).
Proof. done. Qed.
Lemma still_throw {A} e : still (A:=A) (throw e).
Proof. done. Qed.
Lemma still_panic {A} : still (A:=A) panic.
Proof. done. Qed.
Lemma still_modify f : (forall d, wt_session (f d) = wt_session d) -> still (modify f).
Proof. intros Hf d. cbn. by rewrite Hf. Qed.
Lemma still_conn {A} (X : TokioConnection.M A) : still (on_conn X).
Proof. intros d. by rewrite on_conn_wt. Qed.
Lemma still_outcome {A} (X : M A) : still X -> still (outcome X).
Proof. intros HX d. specialize (HX d). unfold outcome. by destruct (X d) as [[a|[e|]|] d']. Qed.
Lemma still_try {A} (m : ST WtSession.t WtError.t A) : mute m -> still (try_wt m).
Proof. intros Hm d. specialize (Hm (wt_session d)). unfold try_wt. by destruct (m (wt_session d)) as [[]]. Qed.

Ltac still :=
  repeat first
    [ apply still_gets | apply still_ret | apply still_throw | apply still_panic | apply still_conn | apply still_outcome
    | apply still_try; solve [mute] | apply still_modify; intros; reflexivity
    | apply still_bind; [|intros] | case_match ].

Lemma still_or_abort {A} (m : ST WtSession.t WtError.t A) : mute m -> still (or_abort m).
Proof. intros Hm. unfold or_abort, abort_session_with_wt_error. apply still_bind; [by apply still_try|]. intros. still. Qed.

Lemma still_account id : still (account_peer_stream_closed id).
Proof. unfold account_peer_stream_closed. case_match; [still|]. apply still_modify. intros. unfold set_closed_count. by case_match. Qed.

Lemma still_dispatch ev : still (dispatch_wt_event ev).
Proof.
  pose proof still_account as Ha. pose proof (fun id => still_or_abort _ (mute_stream_window id)) as Hs.
  destruct ev; cbn [dispatch_wt_event];
    unfold finish_stream, forget_stop_sending, unbounded_channel, insert_channel, remove_channel, drop_sender, record;
    repeat first [apply Ha | apply Hs | progress still].
Qed.

(** *** Draining the events *)

Lemma wt_poll_event_spec s :
  wf s ->
  match WtSession.events s with
  | [] => WtSession.poll_event s = (Ok None, s)
  | e :: es =>
      exists s', WtSession.poll_event s = (Ok (Some e), s') /\ wf s' /\ WtSession.events s' = es /\
        waiting s' = waiting s /\
        exists caps, Forall Wire.wf caps /\ WtSession.output_buffer s' = WtSession.output_buffer s ++ wires caps
  end.
Proof.
  intros H. unfold WtSession.poll_event. rewrite bind_gets. destruct (WtSession.events s) as [|e es] eqn:Ee; [done|].
  set (s1 := s <| WtSession.events := es |>).
  assert (wf s1) as H1 by (eapply wf_other; [exact H|try done; try apply H; apply grows_refl..]).
  assert (forall m : ST WtSession.t WtError.t unit, mute m -> blind m -> (exists s2, m s1 = (Ok tt, s2) /\ good s1 s2) ->
    exists s', (modify (fun s => s <| WtSession.events := es |>) ;! m ;! ret (Some e)) s = (Ok (Some e), s') /\ wf s' /\
      WtSession.events s' = es /\ waiting s' = waiting s /\
      exists caps, Forall Wire.wf caps /\ WtSession.output_buffer s' = WtSession.output_buffer s ++ wires caps) as K.
  { intros m Hm Hb (s2 & Em & H2 & E2). exists s2. rewrite bind_modify. fold s1. rewrite (bind_Ok _ _ _ _ _ Em).
    pose proof (Hm s1) as Hm1. pose proof (blind_keeps m s1 Hb) as Hb1. rewrite Em in Hm1, Hb1. cbn in Hm1, Hb1.
    destruct (ev_output _ _ E2) as (caps & Hc & Eo & _).
    split_and!; [done|done|done|unfold waiting; by rewrite Hb1|by exists caps]. }
  destruct e as [| id data [] | | | | |]; try (by apply K; [mute|blind|eexists; split; [reflexivity|by apply wt_good_refl]]).
  apply K; [mute|blind|by apply WtApi.data_read_good].
Qed.

Lemma dispatch_loop_safe fuel d :
  (length (WtSession.events (wt_session d)) < fuel)%nat -> dsafe 0 0 (dispatch_loop fuel) d.
Proof.
  revert d. induction fuel as [|fuel IH]; intros d Hf n m k H Hr Hk; [lia|]. cbn [dispatch_loop]. unfold bind at 1, on_wt, embed.
  pose proof (wt_poll_event_spec (wt_session d) (ok_wt _ _ _ _ H)) as E.
  destruct (WtSession.events (wt_session d)) as [|e es] eqn:Ee.
  { rewrite E. cbn [map_err]. replace (d <| wt_session := wt_session d |>) with d by by destruct d. by apply dsafe_ret. }
  destruct E as (s' & -> & Hw & Hes & Hwait & caps & Hc & Ho). cbn [map_err]. set (d1 := d <| wt_session := s' |>).
  pose proof (closes_bounds e) as Hcl.
  assert (ok n m (k - closes e) d1) as H1.
  { destruct H. constructor; try done; cbn.
    - rewrite Ho. apply bytes_ok_app. split; [done|by apply wires_bytes].
    - unfold weight in *. rewrite Hes, Hwait. rewrite Ee in ok_weight0. change (closing (e :: es)) with (closes e + closing es) in *. lia. }
  assert (dsafe 0 (closes e) (dispatch_wt_event e ;! dispatch_loop fuel) d1) as Hd.
  { apply (dsafe_then 0); [done|lia|apply dispatch_safe|]. intros a d2 E2. apply IH.
    pose proof (still_dispatch e d1) as Hst. rewrite E2 in Hst. cbn [snd] in Hst. rewrite Hst. cbn. rewrite Hes. cbn in Hf. lia. }
  specialize (Hd n m _ H1 Hr ltac:(lia)). destruct ((dispatch_wt_event e ;! dispatch_loop fuel) d1) as [r d2].
  destruct Hd as [? H2]. split; [done|]. by replace (k + 0) with (k - closes e + closes e) by lia.
Qed.

Lemma dispatch_events_safe d : dsafe 0 0 dispatch_events d.
Proof. unfold dispatch_events. apply dsafe_gets, dispatch_loop_safe. lia. Qed.

(** ** Events of the connection *)

Lemma respond_safe d : dsafe 0 0 respond_to_close d.
Proof.
  unfold respond_to_close. do 2 apply dsafe_gets. case_match; [|apply dsafe_ret]. apply dsafe_gets, dsafe_seq; [done| |].
  - apply dsafe_conn. intros n m k Hok. apply sim_send_data; [apply Hok|constructor].
  - intros. apply dsafe_seq; [done|keep|]. intros. apply dsafe_throw.
Qed.

Lemma return_window_safe l es d : u32_ok l -> dsafe 0 0 (return_window l es) d.
Proof.
  intros Hl. unfold return_window. case_match; [|apply dsafe_ret]. apply dsafe_seq; [done| |].
  - apply dsafe_conn. intros. by apply sim_send_window_update.
  - intros. case_match; [|apply dsafe_ret]. apply dsafe_gets, dsafe_conn. intros n m k Hok.
    apply sim_send_window_update; [apply Hok|done].
Qed.

Lemma handle_data_safe data es d :
  bytes_ok data -> len data <= MAX_WINDOW_SIZE -> dsafe 0 (len data) (handle_data_received data es) d.
Proof.
  intros Hb Hl. pose proof (len_nonneg data) as Hn. unfold handle_data_received. unfold MAX_WINDOW_SIZE in *.
  replace (len data >? U32_MAX) with false by (unfold U32_MAX; lia).
  apply (dsafe_then 0); [done|done| |intros n1 d1 _].
  { apply or_abort_safe; [done|intros; by apply feed_op|intros; by apply feed_weight]. }
  apply dsafe_seq; [done| |intros _ d2 _].
  { apply or_abort_safe; [done|intros; by apply process_op|]. intros H. pose proof (process_weight _ H). lia. }
  apply dsafe_seq; [done|apply dispatch_events_safe|intros _ d3 _].
  apply dsafe_seq; [done|apply respond_safe|intros _ d4 _].
  apply dsafe_seq; [done|apply or_abort_light; [apply mute_session_window|apply blind_session_window|apply session_window_op]|intros _ d5 _].
  apply dsafe_seq; [done|apply grow_max_streams_safe|intros _ d6 _].
  apply dsafe_seq; [done|apply grow_max_streams_safe|intros _ d7 _].
  apply dsafe_seq; [done|apply return_window_safe; unfold u32_ok; lia|intros _ d8 _].
  apply dsafe_seq; [done|apply flush_wt_output_safe|intros _ d9 _].
  destruct es; [apply dsafe_throw|apply dsafe_ret].
Qed.

Lemma handle_event_safe ev d : event_ok ev -> dsafe 0 MAX_WINDOW_SIZE (handle_event ev) d.
Proof.
  intros He. unfold handle_event. apply dsafe_gets. pose proof (dsafe_ret tt d) as Hret.
  assert (forall X : M unit, dsafe 0 0 X d -> dsafe 0 MAX_WINDOW_SIZE X d) as K
    by (intros X HX; eapply dsafe_weaken; [..|exact HX]; done).
  destruct ev as [| | |id data es| |id ? ?| |id| | | | | ]; try (by apply K); try (apply K; case_match; [apply dsafe_throw|done]).
  case_match; [|by apply K]. destruct He as [Hb Hl]. pose proof (len_nonneg data).
  eapply dsafe_weaken; [..|by apply handle_data_safe]; lia.
Qed.

(** ** The loop *)

Definition turn_reads (x : turn) : Z := match x with Wait reads => Z.of_nat reads | _ => 0 end.
Definition driver_reads (xs : list turn) : Z := foldr (fun x n => turn_reads x + n) 0 xs.
Definition turn_cmd_ok (x : turn) : Prop := match x with Command cmd => cmd_ok cmd | _ => True end.

Lemma take_turn_safe x d : turn_cmd_ok x -> dsafe (turn_reads x) MAX_WINDOW_SIZE (take_turn x) d.
Proof.
  destruct x as [cmd| |reads]; cbn [turn_cmd_ok turn_reads take_turn]; intros Hx.
  - eapply dsafe_weaken; [..|by apply handle_cmd_safe]; done.
  - eapply dsafe_weaken; [..|apply dsafe_ret]; done.
  - intros n m k H Hr Hk. unfold bind at 1.
    pose proof (sim_next_event reads (conn d)) as Hs. pose proof (dsafe_conn (Z.of_nat reads) (TokioConnection.next_event reads) d) as Hd.
    specialize (Hd (fun n m k _ => Hs) n m k H Hr ltac:(unfold MAX_WINDOW_SIZE in *; lia)).
    pose proof (next_event_ok reads (conn d)) as Hev. unfold on_conn, zoom in *.
    destruct (TokioConnection.next_event reads (conn d)) as [[ev|[e|]|] c']; destruct Hd as [Hp H1]; [| | |done].
    + specialize (Hev ev c' n m (ok_conn _ _ _ _ H) Hr eq_refl). rewrite Z.add_0_r in H1.
      assert (forall d1, dsafe 0 MAX_WINDOW_SIZE (handle_event ev ;! ret true) d1) as Hh.
      { intros d1. apply (dsafe_then 0); [done|done|by apply handle_event_safe|]. intros. apply dsafe_ret. }
      specialize (Hh _ _ _ _ H1 ltac:(unfold room_for in *; lia) Hk).
      destruct ((handle_event ev ;! ret true) _) as [r d2]. destruct Hh as [? H2]. split; [done|].
      eapply ok_weaken; [..|exact H2]; lia.
    + assert (ok (n + Z.of_nat reads * TokioConnection.RECV_BUF_SIZE) m (k + MAX_WINDOW_SIZE) (d <| conn := c' |>)) as H2
        by (eapply ok_weaken; [..|exact H1]; unfold MAX_WINDOW_SIZE; lia).
      by destruct e.
    + split; [done|]. eapply ok_weaken; [..|exact H1]; unfold MAX_WINDOW_SIZE; lia.
Qed.

Lemma turns_nonneg xs : 0 <= driver_reads xs.
Proof.
  induction xs as [|x xs IH]; [done|]. change (0 <= turn_reads x + driver_reads xs). destruct x; cbn [turn_reads]; lia.
Qed.

Lemma run_turns_safe xs d :
  Forall turn_cmd_ok xs -> dsafe (driver_reads xs) (len xs * MAX_WINDOW_SIZE) (run xs) d.
Proof.
  intros Hxs. revert d. induction Hxs as [|x xs Hx _ IH]; intros d; [apply dsafe_throw|].
  change (driver_reads (x :: xs)) with (turn_reads x + driver_reads xs). rewrite len_cons.
  pose proof (turns_nonneg xs). pose proof (len_nonneg xs). unfold MAX_WINDOW_SIZE in *.
  replace ((1 + len xs) * 2147483647) with (2147483647 + len xs * 2147483647) by lia.
  assert (0 <= turn_reads x) by (destruct x; cbn; lia). cbn [run].
  apply dsafe_bind; [done|done|done|lia|by apply take_turn_safe|]. intros go d1 _.
  destruct go; [apply IH|]. eapply dsafe_weaken; [..|apply dsafe_ret]; lia.
Qed.

End driver.
