(* ===== verification/DriverAccept.v ===== *)
(** * DriverAccept: which requests become sessions

    What the server makes of a WebTransport request, as a function of the TLS
    version, the header fields and the arguments; and the driver of an accepted
    one, run for as long as one likes. *)

From S2P Require Import Prelude Errors StreamIds Config Flow Syntax HpackTable HpackCodec Validation Stream ConnBase ConnHeaders.
From S2P Require Import ConnRecv ConnInv ConnSafe ConnSample ConnHandle ConnApi ConnEvents ConnOutput.
From S2P Require Import WtVarint WtStream WtCapsule WtCodec WtInit WtProtocols WtFields WtSession WtInv WtSafe WtLoop WtApi.
From S2P Require Import WtClosing Tokio TokioWire TokioApi Driver DriverSample DriverSafe.
Import WtInvariant Driver.

(** ** What the request says *)

Module Verdict.
Inductive t : Type :=
(** RST_STREAM with PROTOCOL_ERROR. *)
| Reset (reason : string)
(** A response that ends the stream. *)
| Forbidden (reason : string)
| BadRequest (e : WtError.t)
(** An error of the caller: the client is not answered. *)
| NotOffered (reason : string)
| Accepted (init : WtInit.t).
End Verdict.

Section verdict.
Context (tls : option ProtocolVersion.t) (headers : list HeaderField.t)
  (allowed_origin selected_protocol : option (list Z)).

Definition value (name : string) : option (list Z) := Headers.find_value name headers.

Definition is_tls13 : bool := match tls with Some ProtocolVersion.TLSv1_3 => true | _ => false end.
Definition is_https : bool :=
  match value ":scheme" with Some s => Validation.eq_ignore_ascii_case s (bstr "https") | None => false end.
(** An Origin is compared when both sides name one. *)
Definition origin_allowed : bool :=
  match allowed_origin, value "origin" with
  | Some allowed, Some actual => Validation.eq_ignore_ascii_case actual allowed
  | _, _ => true
  end.
(** A header that is not there says nothing. *)
Definition initial_values : WtResult WtInit.t :=
  match value "webtransport-init" with Some bytes => WtInit.parse bytes | None => Ok WtInit.default end.
Definition offered (protocol : list Z) : bool :=
  match value "wt-available-protocols" with
  | Some bytes =>
      match WtAvailableProtocols.parse bytes with
      | Ok av => existsb (bytes_eqb protocol) (WtAvailableProtocols.protocols av)
      | _ => false
      end
  | None => false
  end.

Definition verdict : Verdict.t :=
  if negb is_tls13 then Verdict.Reset "WebTransport requires TLS 1.3 (got {})"
  else if negb is_https then Verdict.Reset "WebTransport requires :scheme=https"
  else if negb origin_allowed then Verdict.Forbidden "origin rejected: allowed={}, actual={}"
  else
    match initial_values with
    | Err e => Verdict.BadRequest e
    | Panic => Verdict.NotOffered ""
    | Ok init =>
        match selected_protocol with
        | None => Verdict.Accepted init
        | Some p =>
            if negb (forallb is_printable p)
            then Verdict.NotOffered "selected_protocol contains non-printable byte"
            else if negb (offered p)
            then Verdict.NotOffered "selected_protocol is not listed in WT-Available-Protocols"
            else Verdict.Accepted init
        end
    end.

(** The fields of the response to an accepted request. *)
Definition accepting_fields : list HeaderField.t :=
  WtServerRequest.status_field "200" ::
  match selected_protocol with
  | Some p => [HeaderField.from_validated_parts (bstr "wt-protocol") (quoted p) false]
  | None => []
  end.

(** The session that begins: active, with the limits both sides announced. *)
Definition begun_session (local remote : Settings.t) (init : WtInit.t) (config : WtConfig.t) : WtSession.t :=
  (WtSession.server (WtConfig.apply_advertised_settings local config)
     (WtConfig.apply_init_as_peer init (WtConfig.overlay_settings remote WtConfig.peer_default)))
    <| WtSession.state := WtSessionState.Active |>.
End verdict.

(** ** Lemmas: the fields *)

Lemma existsb_negb_forallb {A} (p : A -> bool) l : existsb (fun x => negb (p x)) l = negb (forallb p l).
Proof. induction l as [|x l IH]; [done|]. cbn. rewrite IH. by destruct (p x). Qed.

Lemma printable_value_ok p : forallb is_printable p = true -> Syntax.value_ok (quoted p) = true.
Proof.
  intros H. unfold quoted, Syntax.value_ok.
  assert (last ([Ch.DQUOTE] ++ escape p ++ [Ch.DQUOTE]) = Some Ch.DQUOTE) as ->
    by (rewrite app_assoc; apply last_snoc).
  cbn -[Ch.DQUOTE]. rewrite forallb_app. cbn. rewrite andb_true_r.
  induction p as [|b p IH]; [done|]. cbn [escape forallb] in *. apply andb_true_iff in H as [Hb H].
  rewrite forallb_app. apply andb_true_iff. split; [by case_match|]. cbn. rewrite (IH H), andb_true_r.
  unfold is_printable, Syntax.in_range in Hb. unfold Syntax.is_nul_cr_lf. zbool. lia.
Qed.

Lemma response_runs sp :
  match sp with Some p => forallb is_printable p = true | None => True end ->
  WtServerRequest.response sp = Ok (accepting_fields sp).
Proof.
  destruct sp as [p|]; [|done]. intros Hp. unfold WtServerRequest.response, accepting_fields.
  rewrite serialize_quoted by done. cbn [map_err rbind].
  assert (Syntax.field_ok (bstr "wt-protocol") (quoted p) = true) as Hok.
  { unfold Syntax.field_ok. rewrite printable_value_ok by done. by vm_compute. }
  pose proof (new_with_sensitive_spec (bstr "wt-protocol") (quoted p) false) as H. rewrite Hok in H.
  unfold HeaderField.new. by rewrite H.
Qed.

Lemma initial_values_no_panic hs : initial_values hs <> Panic.
Proof.
  unfold initial_values. case_match; [|done]. pose proof (init_parse_safe l) as H0. by destruct (WtInit.parse l).
Qed.

Lemma begun_runs local remote init config :
  WtSession.initiate (WtSession.server (WtConfig.apply_advertised_settings local config)
    (WtConfig.apply_init_as_peer init (WtConfig.overlay_settings remote WtConfig.peer_default))) =
  (Ok tt, begun_session local remote init config).
Proof. done. Qed.

Section accept.
Context {T : Transport} {TL : TransportLaws T} {HO : Connection.HashOrder} {HOL : Connection.HashOrderLaws HO}.

Definition invalid_argument (reason : string) : stop TokioError.t := Failed (TokioError.InvalidArgument reason).

(** The answers. *)
Definition answer (id : StreamId.t) (config : WtConfig.t) (selected_protocol : option (list Z)) (v : Verdict.t)
  : TokioConnection.M WtSession.t :=
  match v with
  | Verdict.Reset reason =>
      TokioConnection.reset_stream id ErrorCode.ProtocolError ;! throw (invalid_argument reason)
  | Verdict.Forbidden reason =>
      TokioConnection.send_response id [WtServerRequest.status_field "403"] true ;! throw (invalid_argument reason)
  | Verdict.BadRequest e =>
      TokioConnection.send_response id [WtServerRequest.status_field "400"] true ;! throw (Failed (TokioError.WebTransport e))
  | Verdict.NotOffered reason => throw (invalid_argument reason)
  | Verdict.Accepted init =>
      let! local := gets (fun c => Connection.local_settings (TokioConnection.inner c)) in
      let! remote := gets (fun c => Connection.remote_settings (TokioConnection.inner c)) in
      TokioConnection.send_response id (accepting_fields selected_protocol) false ;!
      ret (begun_session local remote init config)
  end.

Lemma check_protocol_spec hs sp c :
  WtServerRequest.check_protocol (WtServerRequest.wt_available_protocols hs) sp c =
  match sp with
  | None => (Ok tt, c)
  | Some p =>
      if negb (forallb is_printable p)
      then (Err (invalid_argument "selected_protocol contains non-printable byte"), c)
      else if negb (offered hs p)
      then (Err (invalid_argument "selected_protocol is not listed in WT-Available-Protocols"), c)
      else (Ok tt, c)
  end.
Proof.
  unfold WtServerRequest.check_protocol. destruct sp as [p|]; [|done]. rewrite existsb_negb_forallb.
  destruct (forallb is_printable p); [|done]. cbn [negb]. unfold offered, value, WtServerRequest.wt_available_protocols,
    WtServerRequest.header.
  destruct (Headers.find_value "wt-available-protocols" hs) as [bytes|]; [|done].
  destruct (WtAvailableProtocols.parse bytes) as [av|e|]; [|done|done]. by destruct (existsb _ _).
Qed.

(** C14: A WebTransport request is answered as its verdict says. It is refused
    with RST_STREAM unless the connection uses TLS 1.3 and its scheme is https,
    with 403 when it names an origin other than the allowed one, and with 400
    when its WebTransport-Init header does not parse; a selected protocol that
    is not printable or that the client did not list is an error of the caller
    and nothing is sent. Otherwise the answer is a 200 response that leaves the
    stream open and names the selected protocol, always a field that can be
    built, and the session that begins is active with the limits that the
    SETTINGS of both sides and the header announced. *)
Theorem request_is_answered_by_verdict id hs config ao sp (c : TokioConnection.t) :
  WtServerRequest.accept_session id hs config ao sp c =
  answer id config sp (verdict (protocol_version (TokioConnection.stream c)) hs ao sp) c.
Proof.
  unfold WtServerRequest.accept_session, verdict. rewrite bind_gets. unfold TokioConnection.with_tls, is_tls13.
  destruct (protocol_version (TokioConnection.stream c)) as [[]|]; try done. cbn [negb].
  change (WtServerRequest.scheme hs) with (value hs ":scheme"). unfold is_https.
  destruct (match value hs ":scheme" with Some s => _ | None => false end); [|done]. cbn [negb].
  unfold WtServerRequest.check_origin, origin_allowed. change (WtServerRequest.origin hs) with (value hs "origin").
  assert (forall A C B (X : TokioConnection.M A) (e : stop TokioError.t) (k : C -> TokioConnection.M B),
    bind (X ;! throw e) k c = (X ;! throw e) c) as Hthrow by (intros; unfold bind; by destruct (X c) as [[]]).
  destruct (match ao with Some allowed => match value hs "origin" with Some actual => _ | None => true end | None => true end) eqn:Eo.
  2:{ destruct ao as [allowed|]; [|done]. destruct (value hs "origin") as [actual|]; [|done]. rewrite Eo. apply Hthrow. }
  replace (match ao with Some allowed => match value hs "origin" with Some actual => _ | None => _ end | None => _ end)
    with (ret tt : TokioConnection.M unit).
  2:{ destruct ao as [allowed|]; [|done]. destruct (value hs "origin") as [actual|]; [|done]. by rewrite Eo. }
  rewrite bind_ret, !bind_gets. cbn [negb].
  unfold WtServerRequest.apply_init. change (WtServerRequest.webtransport_init hs) with (value hs "webtransport-init").
  pose proof (initial_values_no_panic hs) as Hi. unfold initial_values in *.
  assert (forall init,
    (WtServerRequest.check_protocol (WtServerRequest.wt_available_protocols hs) sp ;!
     let! fields := lift (map_err Failed (WtServerRequest.response sp)) in
     TokioConnection.send_response id fields false ;!
     (let '(r, wt_session) := WtSession.initiate (WtSession.server
        (WtConfig.apply_advertised_settings (Connection.local_settings (TokioConnection.inner c)) config)
        (WtConfig.apply_init_as_peer init (WtConfig.overlay_settings
          (Connection.remote_settings (TokioConnection.inner c)) WtConfig.peer_default))) in
      lift (map_err (fun e => Failed (TokioError.WebTransport e)) r) ;! ret wt_session)) c =
    answer id config sp
      match sp with
      | None => Verdict.Accepted init
      | Some p => if negb (forallb is_printable p)
          then Verdict.NotOffered "selected_protocol contains non-printable byte"
          else if negb (offered hs p)
          then Verdict.NotOffered "selected_protocol is not listed in WT-Available-Protocols"
          else Verdict.Accepted init
      end c) as K.
  { intros init. unfold bind at 1. rewrite check_protocol_spec, begun_runs. pose proof (response_runs sp) as Hr.
    destruct sp as [p|]; [destruct (forallb is_printable p); [destruct (offered hs p); [|done]|done]|]; cbn [negb];
      rewrite Hr by done; done. }
  destruct (value hs "webtransport-init") as [bytes|].
  - destruct (WtInit.parse bytes) as [init|e|]; [|apply Hthrow|done]. rewrite bind_ret. apply K.
  - rewrite bind_ret. exact (K WtInit.default).
Qed.

(** ** Lemmas: an accepted request *)

Definition selected_ok (sp : option (list Z)) : Prop :=
  match sp with Some p => len p <= 2 ^ 60 | None => True end.

Lemma printable_bytes p : forallb is_printable p = true -> bytes_ok (quoted p) /\ len (quoted p) <= 2 * len p + 2.
Proof.
  intros H. unfold quoted. rewrite !len_app. change (len [Ch.DQUOTE]) with 1.
  assert (bytes_ok (escape p) /\ len (escape p) <= 2 * len p) as [Hb Hl].
  { induction p as [|b p IH]; [by split; [constructor|]|]. cbn [escape forallb] in *. apply andb_true_iff in H as [Hp H].
    destruct (IH H) as [Hb Hl]. unfold is_printable, Syntax.in_range in Hp. rewrite !len_app, len_cons.
    assert (u8_ok b) as Hu by (unfold u8_ok; zbool; lia). split.
    - apply bytes_ok_app. split; [case_match; by repeat constructor|]. by constructor.
    - destruct (_ || _); rewrite ?len_cons; change (len (@nil Z)) with 0; lia. }
  split; [|lia]. apply bytes_ok_app. split; [by repeat constructor|]. apply bytes_ok_app. split; [done|by repeat constructor].
Qed.

Lemma accepting_fields_ok sp :
  match sp with Some p => forallb is_printable p = true | None => True end -> selected_ok sp ->
  headers_ok (accepting_fields sp).
Proof.
  intros Hp Hl. destruct sp as [p|]; [|split; [repeat constructor; by vm_compute|by vm_compute]].
  destruct (printable_bytes p Hp) as [Hb Hlen]. cbn [selected_ok] in Hl.
  assert (sendable_field (WtServerRequest.status_field "200")) as H200 by (repeat constructor; by vm_compute).
  split.
  - constructor; [done|]. constructor; [|done]. split; [split; [repeat constructor; by vm_compute|done]|].
    split; [by vm_compute|]. change (len (quoted p) < 2 ^ 62). lia.
  - change (HeaderField.size (WtServerRequest.status_field "200") +
      (len (bstr "wt-protocol") + len (quoted p) + 32 + 0) < USIZE_MAX).
    change (HeaderField.size (WtServerRequest.status_field "200")) with 42. change (len (bstr "wt-protocol")) with 11.
    unfold USIZE_MAX. lia.
Qed.

Lemma verdict_accepted tls hs ao sp init :
  verdict tls hs ao sp = Verdict.Accepted init ->
  initial_values hs = Ok init /\ match sp with Some p => forallb is_printable p = true | None => True end.
Proof.
  unfold verdict. do 3 (destruct (negb _); [done|]). destruct (initial_values hs) as [i|e|]; [|done|done].
  destruct sp as [p|]; [|by intros [= <-]]. destruct (forallb is_printable p); [|done].
  destruct (offered hs p); [|done]. by intros [= <-].
Qed.

Lemma overlay_ok s c : Settings.wf s -> config_ok c -> config_ok (WtConfig.overlay_settings s c).
Proof.
  intros (_ & _ & _ & _ & _ & H1 & H2 & H3 & H4 & H5 & H6) [].
  unfold WtConfig.overlay_settings, WtConfig.if_some, Settings.opt_u32_ok, u32_ok in *.
  unfold Varint.ok, Varint.MAX_VALUE, MAX_STREAMS_LIMIT in *.
  destruct (Settings.wt_initial_max_data s), (Settings.wt_initial_max_stream_data_uni s),
    (Settings.wt_initial_max_stream_data_bidi_local s), (Settings.wt_initial_max_stream_data_bidi_remote s),
    (Settings.wt_initial_max_streams_bidi s), (Settings.wt_initial_max_streams_uni s);
    constructor; cbn; unfold Varint.ok, Varint.MAX_VALUE, MAX_STREAMS_LIMIT; lia.
Qed.

Lemma peer_default_ok : config_ok WtConfig.peer_default.
Proof. constructor; by vm_compute. Qed.

Lemma apply_init_ok i c : init_ok i -> config_ok c -> config_ok (WtConfig.apply_init_as_peer i c).
Proof.
  intros Hi []. unfold init_ok in Hi. unfold WtConfig.apply_init_as_peer, WtConfig.if_some.
  assert (forall n, WtInit.u i = Some n \/ WtInit.bl i = Some n \/ WtInit.br i = Some n -> Varint.ok n) as Hv.
  { intros n Hn. specialize (Hi n Hn). unfold Varint.ok, Varint.MAX_VALUE. lia. }
  unfold Varint.ok in *.
  destruct (WtInit.u i) as [u|]; [pose proof (Hv u (or_introl eq_refl))|];
  (destruct (WtInit.bl i) as [bl|]; [pose proof (Hv bl (or_intror (or_introl eq_refl)))|]);
  (destruct (WtInit.br i) as [br|]; [pose proof (Hv br (or_intror (or_intror eq_refl)))|]);
  constructor; cbn; unfold Varint.ok; done || lia.
Qed.

Lemma initial_values_ok hs init : initial_values hs = Ok init -> init_ok init.
Proof.
  unfold initial_values. case_match; [|intros [= <-] n [|[|]]; done].
  pose proof (init_parse_safe l) as H0. intros E. by rewrite E in H0.
Qed.

Lemma begun_session_wf local remote init config :
  Settings.wf local -> Settings.wf remote -> init_ok init -> wf (begun_session local remote init config).
Proof.
  intros Hl Hr Hi.
  assert (config_ok (WtConfig.apply_advertised_settings local config)) as H1 by (apply overlay_ok; [done|apply peer_default_ok]).
  assert (config_ok (WtConfig.apply_init_as_peer init (WtConfig.overlay_settings remote WtConfig.peer_default))) as H2
    by (apply apply_init_ok; [done|]; apply overlay_ok; [done|apply peer_default_ok]).
  pose proof (initiate_op _ (new_wf Role.Server _ _ H1 H2)) as H. unfold op, wp in H.
  fold (WtSession.server (WtConfig.apply_advertised_settings local config)
    (WtConfig.apply_init_as_peer init (WtConfig.overlay_settings remote WtConfig.peer_default))) in H.
  rewrite begun_runs in H. apply H.
Qed.

(** The driver of an accepted request begins well. *)
Lemma accepted_ok n m id hs config ao sp c wt c' :
  within n m c -> room_for n m 0 0 -> StreamId.wf id -> selected_ok sp ->
  WtServerRequest.accept_session id hs config ao sp c = (Ok wt, c') -> ok n m 0 (Driver.new c' id wt).
Proof.
  intros Hw Hr Hid Hsel. rewrite request_is_answered_by_verdict.
  assert (forall A (X : TokioConnection.M A) e, (X ;! throw e) c = (Ok wt, c') -> False) as Hthrow
    by (intros A X e; unfold bind; by destruct (X c) as [[]]).
  destruct (verdict _ hs ao sp) as [reason|reason|e|reason|init] eqn:Ev; cbn [answer];
    try (by intros K; apply Hthrow in K); [done|].
  apply verdict_accepted in Ev as [Hi Hp]. rewrite !bind_gets. unfold bind.
  pose proof (fun r x => sim_within_0 _ c r x n m (sim_send_response id (accepting_fields sp) false c Hid (accepting_fields_ok sp Hp Hsel)) Hw Hr) as K.
  destruct (TokioConnection.send_response id (accepting_fields sp) false c) as [[[]|e|] c1]; [|done|done].
  intros [= <- <-]. destruct (K _ _ eq_refl) as [_ Hw1]. destruct Hw as [(H & _) _].
  constructor; try done.
  - apply begun_session_wf; [apply (Invariant.wf_local _ H)|apply (Invariant.wf_remote _ H)|by apply (initial_values_ok hs)].
  - by constructor.
Qed.

(** From the start to the driver. *)
Lemma served_ok (s : transport) (l : Limits.t) (ops : list operation) c0 rs c id hs config ao sp wt c' :
  limits_ok l -> Forall operation_ok ops -> StreamId.wf id -> selected_ok sp ->
  total_reads ops * TokioConnection.RECV_BUF_SIZE < 2 ^ 64 ->
  start Role.Server s l = (Ok tt, c0) -> serve ops c0 = Some (rs, c) ->
  WtServerRequest.accept_session id hs config ao sp c = (Ok wt, c') ->
  ok (total_reads ops * TokioConnection.RECV_BUF_SIZE) 1 0 (Driver.new c' id wt).
Proof.
  intros Hl Hops Hid Hsel Hreads Hstart Hserve Haccept. pose proof (total_reads_nonneg ops).
  destruct (start_writes _ _ _ _ Hl Hstart) as (Hw & _ & _).
  assert (room_for 0 1 (total_reads ops) 0) as Hr0 by (unfold room_for in *; lia).
  destruct (serve_did ops 0 1 c0 Hw Hr0 Hops) as (rs' & c1 & Hserve' & _ & Hdid).
  rewrite Hserve in Hserve'. injection Hserve' as <- <-.
  destruct (did_within _ _ _ _ _ _ _ Hw Hr0 Hdid) as [Hw1 _]. rewrite Z.add_0_l, Z.add_0_r in Hw1.
  eapply accepted_ok; [exact Hw1| |done|exact Hsel|exact Haccept]. unfold room_for, TokioConnection.RECV_BUF_SIZE in *; lia.
Qed.

(** ** Properties *)

(** C8: The driver never panics. A server starts on a transport, serves any
    operations, accepts a request, and its driver takes any turns: commands
    with arguments of their types, waits for events of the connection that are
    given up at any point, whatever the peer sends and wherever the transport
    fails or blocks. The length of an export of keying material is at most
    [isize::MAX] ([cmd_ok]): above it the source's [vec![0u8; length]] panics
    ([DriverFindings.export_length_panics]). Data handed over fits a capsule (less
    than 2^62 octets), the protocol selected has at most 2^60 octets, and the debug
    data of a GOAWAY at most 2^24 - 9. Running out of memory is not modelled. As long as less than 2^64 octets are read and fewer than
    2^32 turns are taken, nothing panics, neither the two layers below nor the
    driver's own counters and conversions, every loop of the driver ends within
    its fuel, and the connection and the session satisfy their invariants. *)
Theorem driver_never_panics (s : transport) (l : Limits.t) (ops : list operation) c0 rs c
    id hs config ao sp wt c' (turns : list turn) :
  limits_ok l -> Forall operation_ok ops -> StreamId.wf id -> selected_ok sp -> Forall turn_cmd_ok turns ->
  (total_reads ops + driver_reads turns) * TokioConnection.RECV_BUF_SIZE < 2 ^ 64 -> len turns < 2 ^ 32 ->
  start Role.Server s l = (Ok tt, c0) -> serve ops c0 = Some (rs, c) ->
  WtServerRequest.accept_session id hs config ao sp c = (Ok wt, c') ->
  let '(r, d) := run turns (Driver.new c' id wt) in
  r <> Panic /\ Invariant.wf (TokioConnection.inner (conn d)) /\ wf (wt_session d).
Proof.
  intros Hl Hops Hid Hsel Hturns Hreads Hlen Hstart Hserve Haccept.
  pose proof (turns_nonneg turns). pose proof (total_reads_nonneg ops). unfold TokioConnection.RECV_BUF_SIZE in *.
  assert (ok (total_reads ops * TokioConnection.RECV_BUF_SIZE) 1 0 (Driver.new c' id wt)) as Hok.
  { eapply served_ok; [exact Hl|exact Hops|exact Hid|exact Hsel| |exact Hstart|exact Hserve|exact Haccept].
    unfold TokioConnection.RECV_BUF_SIZE. lia. }
  pose proof (run_turns_safe turns (Driver.new c' id wt) Hturns _ _ _ Hok) as Hrun.
  destruct (run turns (Driver.new c' id wt)) as [r d].
  destruct Hrun as [Hp Hd]; [unfold room_for, TokioConnection.RECV_BUF_SIZE; lia|unfold MAX_WINDOW_SIZE; lia|].
  split; [done|]. destruct Hd as [[(Hc & _) _] ? _ _ _ _ _]. done.
Qed.
End accept.

(** The driver when the client's request was accepted. *)
Lemma wt_driver_ok : @ok script_transport (total_reads wt_operations * TokioConnection.RECV_BUF_SIZE) 1 0 wt_driver.
Proof.
  refine (@served_ok script_transport script_laws key_order key_order_laws wt_transport wt_limits wt_operations
    wt_started wt_results wt_served stream_1 connect_headers WtConfig.default wt_origin None wt_accepted wt_connection
    wt_limits_ok _ _ _ _ wt_start_runs wt_serve_runs wt_accept_runs).
  - repeat constructor.
  - by vm_compute.
  - exact I.
  - by vm_compute.
Qed.

Lemma driver_never_panics_witness :
  let '(r, d) := @run script_transport key_order wt_turns wt_driver in
  r <> Panic /\ Invariant.wf (TokioConnection.inner (conn d)) /\ wf (wt_session d).
Proof.
  refine (@driver_never_panics script_transport script_laws key_order key_order_laws wt_transport wt_limits
    wt_operations wt_started wt_results wt_served stream_1 connect_headers WtConfig.default wt_origin None
    wt_accepted wt_connection wt_turns wt_limits_ok _ _ _ _ _ _ wt_start_runs wt_serve_runs wt_accept_runs).
  - repeat constructor.
  - by vm_compute.
  - exact I.
  - repeat constructor; by vm_compute.
  - by vm_compute.
  - by vm_compute.
Defined.
