(* ===== verification/DriverAnswer.v ===== *)
(** * DriverAnswer: what an acknowledgement means

    Every command is answered once and in order, and the answers are to be
    relied on: success says that the octets were handed to the transport. *)

From S2P Require Import Prelude Errors StreamIds Config Flow FrameTypes Syntax HpackTable HpackCodec Validation Stream ConnBase ConnHeaders.
From S2P Require Import ConnRecv ConnInv ConnSafe ConnSample ConnFlow ConnSend ConnHandle ConnApi ConnEvents ConnOutput.
From S2P Require Import WtVarint WtStream WtCapsule WtCodec WtInit WtProtocols WtSession WtInv WtSafe WtLoop WtApi WtClosing.
From S2P Require Import Tokio TokioWire TokioApi Driver DriverSample DriverSafe DriverAccept.
Import Delivery WtInvariant Driver.

(** ** The log *)

(** The acknowledgements of a log, in order. *)
Definition acked (e : Effect.t) : option (Z * result TokioError.t Reply.t) :=
  match e with Effect.Acked ack r => Some (ack, r) | _ => None end.
Definition answers (log : list Effect.t) : list (Z * result TokioError.t Reply.t) := omap acked log.

Definition ack_of (cmd : DriverCmd.t) : Z :=
  match cmd with
  | DriverCmd.SendStreamData _ _ _ ack | DriverCmd.OpenBidi ack | DriverCmd.OpenUni ack | DriverCmd.SendDatagram _ ack
  | DriverCmd.ResetStream _ _ ack | DriverCmd.StopSending _ _ ack | DriverCmd.Close _ _ ack | DriverCmd.Drain ack
  | DriverCmd.ExportKeyingMaterial _ _ _ ack => ack
  end.
(** The commands among some turns, by the channels they are answered on. *)
Definition asked (turns : list turn) : list Z :=
  omap (fun x => match x with Command cmd => Some (ack_of cmd) | _ => None end) turns.

Lemma answers_app l l' : answers (l ++ l') = answers l ++ answers l'.
Proof. unfold answers. induction l as [|e l IH]; [done|]. cbn. rewrite IH. by destruct (acked e). Qed.

(** What a method waits for is the first answer on its channel. *)
Lemma answer_answers ack log l r :
  ack ∉ l.*1 -> answers log = l ++ [(ack, r)] -> Handle.answer ack log = Some r.
Proof.
  revert l. induction log as [|e log IH]; intros l Hl E; [by destruct l|]. unfold answers in *. cbn in E |- *.
  destruct e as [| | | | |a r']; cbn in E; try by eapply IH. destruct l as [|[a1 r1] l]; cbn in *.
  - injection E as -> -> _. by rewrite Z.eqb_refl.
  - injection E as -> -> E. apply not_elem_of_cons in Hl as [Ha Hl]. replace (a1 =? ack) with false by lia. by eapply IH.
Qed.

Section driver.
Context {T : Transport} {TL : TransportLaws T} {HO : Connection.HashOrder}.

(** ** Methods that answer nothing *)

Definition unanswering {A} (X : M A) : Prop := forall d, answers (effects (snd (X d))) = answers (effects d).

Lemma unanswering_bind {A B} (X : M A) (k : A -> M B) : unanswering X -> (forall a, unanswering (k a)) -> unanswering (bind X k).
Proof. intros HX Hk d. specialize (HX d). unfold bind. destruct (X d) as [[a|e|] d']; cbn in *; [by rewrite Hk|done|done]. Qed.
Lemma unanswering_gets {A} (f : t -> A) : unanswering (gets f).
Proof. done. Qed.
Lemma unanswering_ret {A} (a : A) : unanswering (ret a).
Proof. done. Qed.
Lemma unanswering_throw {A} e : unanswering (A:=A) (throw e).
Proof. done. Qed.
Lemma unanswering_panic {A} : unanswering (A:=A) panic.
Proof. done. Qed.
Lemma unanswering_modify f : (forall d, effects (f d) = effects d) -> unanswering (modify f).
Proof. intros Hf d. cbn. by rewrite Hf. Qed.
Lemma unanswering_record e : acked e = None -> unanswering (record e).
Proof. intros He d. cbn. rewrite answers_app. cbn. by rewrite He, app_nil_r. Qed.
Lemma unanswering_conn {A} (X : TokioConnection.M A) : unanswering (on_conn X).
Proof. intros d. unfold on_conn, zoom. by destruct (X (conn d)). Qed.
Lemma unanswering_wt {A} (m : ST WtSession.t WtError.t A) : unanswering (on_wt m).
Proof. intros d. unfold on_wt, embed. by destruct (m (wt_session d)). Qed.
Lemma unanswering_try {A} (m : ST WtSession.t WtError.t A) : unanswering (try_wt m).
Proof. intros d. unfold try_wt. by destruct (m (wt_session d)) as [[]]. Qed.
Lemma unanswering_outcome {A} (X : M A) : unanswering X -> unanswering (outcome X).
Proof. intros HX d. specialize (HX d). unfold outcome. by destruct (X d) as [[a|[e|]|] d']. Qed.
Lemma unanswering_chunks id l : unanswering (send_chunks id l).
Proof. induction l as [|c l IH]; [apply unanswering_ret|]. apply unanswering_bind; [apply unanswering_conn|]. by intros. Qed.

Ltac unanswering :=
  repeat first
    [ apply unanswering_gets | apply unanswering_ret | apply unanswering_throw | apply unanswering_panic
    | apply unanswering_conn | apply unanswering_wt | apply unanswering_try | apply unanswering_outcome
    | apply unanswering_chunks | apply unanswering_record; reflexivity | apply unanswering_modify; intros; reflexivity
    | apply unanswering_bind; [|intros] | case_match ].

Lemma unanswering_flush : unanswering flush_wt_output.
Proof. intros d. rewrite flush_wt_output_eq. case_match; [done|]. by rewrite unanswering_chunks. Qed.

Lemma unanswering_or_abort {A} (m : ST WtSession.t WtError.t A) : unanswering (or_abort m).
Proof. unfold or_abort, abort_session_with_wt_error. unanswering. Qed.

Lemma unanswering_account id : unanswering (account_peer_stream_closed id).
Proof. unfold account_peer_stream_closed. case_match; [unanswering|]. apply unanswering_modify. intros. unfold set_closed_count. by case_match. Qed.

Lemma unanswering_dispatch ev : unanswering (dispatch_wt_event ev).
Proof.
  pose proof unanswering_account as Ha. pose proof (fun id => unanswering_or_abort (maybe_grow_stream_window id)) as Hs.
  destruct ev; cbn [dispatch_wt_event];
    unfold finish_stream, forget_stop_sending, unbounded_channel, insert_channel, remove_channel, drop_sender;
    repeat first [apply Ha | apply Hs | progress unanswering].
Qed.

Lemma unanswering_dispatch_loop fuel : unanswering (dispatch_loop fuel).
Proof.
  induction fuel as [|fuel IH]; [apply unanswering_panic|]. cbn [dispatch_loop]. apply unanswering_bind; [unanswering|].
  intros [e|]; [|unanswering]. apply unanswering_bind; [apply unanswering_dispatch|]. by intros.
Qed.

Lemma unanswering_grow b : unanswering (maybe_grow_max_streams b).
Proof.
  unfold maybe_grow_max_streams. pose proof (fun n => unanswering_or_abort (WtSession.grow_max_streams n b)) as Hs.
  repeat first [apply Hs | apply unanswering_modify; intros; unfold set_closed_count; by destruct b | progress unanswering].
Qed.

Lemma unanswering_event ev : unanswering (handle_event ev).
Proof.
  assert (forall data es, unanswering (handle_data_received data es)) as H.
  { intros. unfold handle_data_received, respond_to_close, return_window, dispatch_events.
    pose proof unanswering_flush. pose proof unanswering_grow. pose proof unanswering_dispatch_loop.
    pose proof (fun A => @unanswering_or_abort A). repeat first [solve [auto] | progress unanswering]. }
  unfold handle_event. unanswering; apply H.
Qed.

(** ** Every command is answered *)

(** Ends with one acknowledgement when it ends, and has none otherwise. *)
Definition answering (ack : Z) (X : M bool) : Prop :=
  forall d, let '(o, d') := X d in
  match o with
  | Ok _ => exists r, answers (effects d') = answers (effects d) ++ [(ack, r)]
  | _ => answers (effects d') = answers (effects d)
  end.

Lemma answering_bind {A} ack (X : M A) (k : A -> M bool) :
  unanswering X -> (forall a, answering ack (k a)) -> answering ack (bind X k).
Proof.
  intros HX Hk d. specialize (HX d). unfold bind. destruct (X d) as [[a|e|] d1]; cbn in HX; [|done|done].
  specialize (Hk a d1). by rewrite HX in Hk.
Qed.

Lemma answering_record ack r go : answering ack (record (Effect.Acked ack r) ;! ret go).
Proof. intros d. exists r. cbn. by rewrite answers_app. Qed.

Lemma answering_result res ack : res <> Panic -> answering ack (send_cmd_result res ack).
Proof.
  intros Hr. destruct res as [v|e|]; [|apply answering_record|done]. cbn [send_cmd_result].
  pose proof (unanswering_outcome _ unanswering_flush) as Hf. intros d. specialize (Hf d). unfold bind at 1.
  destruct (outcome flush_wt_output d) as [[a|e|] d1] eqn:E; cbn in Hf; [|done|done].
  rewrite <- Hf. destruct a as [u|e|]; [apply answering_record..|by apply outcome_no_panic in E].
Qed.

(** A session method and what follows it, then its acknowledgement. *)
Lemma answering_command (X : M Reply.t) (f : result TokioError.t Reply.t -> M unit) ack :
  unanswering X -> (forall r, unanswering (f r)) ->
  answering ack (let! res := outcome X in f res ;! send_cmd_result res ack).
Proof.
  intros HX Hf d. pose proof (unanswering_outcome _ HX d) as Ho. unfold bind at 1.
  destruct (outcome X d) as [[res|e|] d1] eqn:E; cbn in Ho; [|done|done]. rewrite <- Ho.
  apply answering_bind; [done|]. intros _. apply answering_result. by apply outcome_no_panic in E.
Qed.

Lemma answering_only (X : M Reply.t) ack : unanswering X -> answering ack (let! res := outcome X in send_cmd_result res ack).
Proof. intros HX. exact (answering_command X (fun _ => ret tt) ack HX ltac:(intros; unanswering)). Qed.

Lemma unanswering_open_bidi : unanswering open_bidi.
Proof. unfold open_bidi, unbounded_channel, insert_channel, drop_sender. unanswering. Qed.

Lemma unanswering_close_output : unanswering close_output.
Proof.
  unfold close_output. apply unanswering_bind; [unanswering|]. intros id.
  apply unanswering_bind; [apply unanswering_outcome, unanswering_flush|]. intros r. unanswering.
Qed.

Lemma handle_cmd_answering cmd : answering (ack_of cmd) (handle_cmd cmd).
Proof.
  destruct cmd as [id data fin ack|ack|ack|data ack|id code ack|id code ack|code reason ack|ack|label ctx len ack];
    cbn [handle_cmd ack_of]; try (unfold run_wt; apply answering_only; unanswering; fail).
  - apply answering_only, unanswering_open_bidi.
  - apply answering_command; [unanswering|]. intros. unfold note_stop_sending. unanswering.
  - apply answering_bind; [unfold run_wt; unanswering|]. intros res.
    apply answering_bind; [case_match; [apply unanswering_close_output|unanswering]|]. intros. apply answering_record.
  - intros d. unfold bind at 1, gets.
    destruct (export label ctx len d) eqn:E; [eexists; cbn; by rewrite answers_app..|done].
Qed.

(** So the caller whose channel is new gets its answer, whether the driver goes
    on or is gone by then. *)
Lemma call_answered cmd d go d' gone :
  handle_cmd cmd d = (Ok go, d') -> ack_of cmd ∉ (answers (effects d)).*1 ->
  exists r, answers (effects d') = answers (effects d) ++ [(ack_of cmd, r)] /\
    Handle.await (ack_of cmd) gone (effects d') = Some r.
Proof.
  intros E Hn. pose proof (handle_cmd_answering cmd d) as H. rewrite E in H. destruct H as [r Hr]. exists r. split; [done|].
  unfold Handle.await. by rewrite (answer_answers _ _ _ r Hn Hr).
Qed.

(** The turns that ended, and left the driver to the next. *)
Fixpoint completed (turns : list turn) (d : t) : list turn :=
  match turns with
  | [] => []
  | x :: turns =>
      match take_turn x d with
      | (Ok true, d') => x :: completed turns d'
      | (Ok false, _) | (Err (Failed _), _) => [x]
      | _ => []
      end
  end.

Lemma asked_cons x xs : asked (x :: xs) = asked [x] ++ asked xs.
Proof. by destruct x. Qed.

Lemma handle_cmd_no_error cmd d e d' : handle_cmd cmd d <> (Err (Failed e), d').
Proof.
  assert (forall A (X : M A) (k : result TokioError.t A -> M bool) d,
    (forall a d, k a d <> (Err (Failed e), d')) -> (let! r := outcome X in k r) d <> (Err (Failed e), d')) as Ho.
  { intros A X k d0 Hk. unfold bind, outcome. destruct (X d0) as [[a|[e1|]|] d1]; try apply Hk; done. }
  assert (forall res ack d, send_cmd_result res ack d <> (Err (Failed e), d')) as Hs.
  { intros [v|e1|] ack d0; cbn [send_cmd_result]; [apply Ho; intros []; done|done|done]. }
  destruct cmd; cbn [handle_cmd]; try (apply Ho; intros r; apply Hs); try done.
  - apply Ho. intros r d0. unfold note_stop_sending. rewrite bind_assoc, bind_gets. destruct (is_ok r && _); apply Hs.
  - apply Ho. intros [v|e1|] d0; try done. cbn [is_ok]. unfold close_output. rewrite bind_assoc, bind_gets, bind_assoc.
    apply Ho. intros [v1|e1|] d1; try done. rewrite bind_assoc. apply Ho. intros [v2|e2|] d2; try done.
    rewrite bind_assoc, bind_gets. by case_match.
  - rewrite bind_gets. by case_match.
Qed.

Lemma take_turn_answers x d :
  let '(o, d') := take_turn x d in
  (answers (effects d')).*1 = (answers (effects d)).*1 ++
    match o with Ok _ | Err (Failed _) => asked [x] | _ => [] end.
Proof.
  assert (forall {A} (X : M A) d, unanswering X ->
    let '(o, d') := X d in (answers (effects d')).*1 = (answers (effects d)).*1 ++ []) as K.
  { intros A X d0 HX. specialize (HX d0). destruct (X d0) as [o d1]. cbn in HX. by rewrite HX, app_nil_r. }
  assert (unanswering (take_turn x) -> asked [x] = [] -> let '(o, d') := take_turn x d in
    (answers (effects d')).*1 = (answers (effects d)).*1 ++ match o with Ok _ | Err (Failed _) => asked [x] | _ => [] end) as K'.
  { intros Hx Ha. specialize (K _ (take_turn x) d Hx). destruct (take_turn x d) as [o d1]. rewrite K, Ha. by destruct o as [|[]|]. }
  destruct x as [cmd| |reads]; [|by apply K'; [apply unanswering_ret|]|apply K'; [|done]].
  - pose proof (handle_cmd_answering cmd d) as H. pose proof (handle_cmd_no_error cmd d) as Hn. cbn [take_turn].
    destruct (handle_cmd cmd d) as [[go|[e|]|] d1]; [|by destruct (Hn e d1)| |].
    + destruct H as [r ->]. by rewrite fmap_app.
    + by rewrite H, app_nil_r.
    + by rewrite H, app_nil_r.
  - cbn [take_turn]. apply unanswering_bind.
    + intros d0. pose proof (unanswering_conn (TokioConnection.next_event reads) d0) as E.
      by destruct (on_conn _ d0) as [[ev|[e|]|] d1].
    + intros [[ev|e|]|]; [apply unanswering_bind; [apply unanswering_event|]; intros; unanswering|unanswering..].
Qed.

(** ** What success means *)

(** Nothing waits to be written, in the session and in the connection. *)
Definition wt_sent (d : t) : Prop := WtSession.output_buffer (wt_session d) = [].
Definition flushed (d : t) : Prop := Connection.output_buffer (TokioConnection.inner (conn d)) = [].

(** What was written to the transport, and what waits for it in the connection. *)
Definition on_its_way (d : t) : list Z :=
  written (TokioConnection.stream (conn d)) ++ Connection.output_buffer (TokioConnection.inner (conn d)).

(** The octets in the send buffer of the CONNECT stream. *)
Definition waits_for_window (d : t) : list Z :=
  unsent (StreamId.as_u32 (connect_stream_id d)) (TokioConnection.inner (conn d)).

(** DATA frames [fs] of the CONNECT stream were written: what they carry and
    what still waits for a window are what waited before and [octets]. *)
Record carries (octets : list Z) (fs : list Frame.t) (d d' : t) : Prop := mk_carries {
  cr_frames : Forall (data_of (StreamId.as_u32 (connect_stream_id d))) fs;
  cr_octets : concat (map payload fs) ++ waits_for_window d' = waits_for_window d ++ octets;
  cr_written : on_its_way d' = on_its_way d ++ Invariant.wires fs
}.

(** What is kept from one flush to the next. *)
Definition sound (d : t) : Prop := Invariant.wf (TokioConnection.inner (conn d)).

Lemma carries_nothing d : carries [] [] d d.
Proof. constructor; [constructor|by rewrite app_nil_r|by rewrite app_nil_r]. Qed.

Lemma carries_trans a fs b gs d d1 d2 :
  connect_stream_id d1 = connect_stream_id d -> carries a fs d d1 -> carries b gs d1 d2 -> carries (a ++ b) (fs ++ gs) d d2.
Proof.
  intros Hid [F1 O1 W1] [F2 O2 W2]. rewrite Hid in F2. constructor; [by apply Forall_app| |].
  - by rewrite map_app, concat_app, <- app_assoc, O2, app_assoc, O1, app_assoc.
  - by rewrite W2, W1, wires_app, app_assoc.
Qed.

(** The rest of the driver does not matter. *)
Lemma carries_same a fs d d1 d' d1' :
  conn d1 = conn d -> connect_stream_id d1 = connect_stream_id d -> conn d1' = conn d' -> connect_stream_id d1' = connect_stream_id d' ->
  carries a fs d d' -> carries a fs d1 d1'.
Proof. intros E1 E2 E3 E4 []. constructor; unfold on_its_way, waits_for_window in *; by rewrite ?E1, ?E2, ?E3, ?E4. Qed.

Lemma tokio_send_data_sends id l es c c' :
  Invariant.wf (TokioConnection.inner c) -> bytes_ok l -> TokioConnection.send_data id l es c = (Ok tt, c') ->
  exists fs, ConnSend.sends (StreamId.as_u32 id) l fs (TokioConnection.inner c)
      ((TokioConnection.inner c') <| Connection.output_buffer := Connection.output_buffer (TokioConnection.inner c) ++ Invariant.wires fs |>) /\
    Invariant.wf (TokioConnection.inner c') /\ Connection.output_buffer (TokioConnection.inner c') = [] /\
    written (TokioConnection.stream c') = written (TokioConnection.stream c) ++ Connection.output_buffer (TokioConnection.inner c) ++ Invariant.wires fs /\
    if es then TokioConnection.has_pending_send_data id c' = false -> ended_by_last fs else unended fs.
Proof.
  intros H Hl. unfold TokioConnection.send_data. intros ([] & c1 & E1 & E2)%bind_inv_Ok.
  unfold TokioConnection.on_inner, embed in E1. destruct (Connection.send_data id l es (TokioConnection.inner c)) as [[[]|e|] i] eqn:Es; [|done|done].
  assert (c1 = c <| TokioConnection.inner := i |>) as -> by (by apply (f_equal snd) in E1). clear E1.
  destruct (send_data_sends id l es _ _ H Hl Es) as (fs & [Hf Ho Hw] & Hi & He). exists fs. set (c1 := c <| TokioConnection.inner := i |>) in *.
  pose proof (tokio_flush_spec c1) as Hs. rewrite E2 in Hs. destruct Hs as (_ & Hout & _ & _ & Hwr). specialize (Hwr eq_refl).
  assert (TokioConnection.inner c' = i <| Connection.output_buffer := [] |>) as Ei.
  { rewrite tokio_flush_eq in E2. destruct (Connection.output_buffer (TokioConnection.inner c1)) as [|o os] eqn:Eo.
    - injection E2 as <-. unfold c1 in *. cbn in *. destruct i. cbn in Eo. by subst.
    - pose proof (write_spec (o :: os) (drained c1)) as K. rewrite E2 in K. by destruct K as (_ & -> & _). }
  rewrite Ei in *. split_and!; [by constructor|by apply wf_output|done| |].
  - rewrite Hwr. change (Connection.output_buffer (TokioConnection.inner c1)) with (Connection.output_buffer i). by rewrite Hw.
  - unfold TokioConnection.has_pending_send_data. rewrite Ei. exact He.
Qed.

Lemma on_conn_sends id l es d d' :
  id = connect_stream_id d -> sound d -> bytes_ok l -> on_conn (TokioConnection.send_data id l es) d = (Ok tt, d') ->
  exists fs, carries l fs d d' /\ sound d' /\ flushed d' /\ wt_session d' = wt_session d /\ connect_stream_id d' = connect_stream_id d /\
    if es then TokioConnection.has_pending_send_data id (conn d') = false -> ended_by_last fs else unended fs.
Proof.
  intros Hid Hs Hl. unfold on_conn, zoom. destruct (TokioConnection.send_data id l es (conn d)) as [r c] eqn:E.
  intros E'. assert (r = Ok tt /\ d' = d <| conn := c |>) as [-> ->] by (by injection E' as -> <-).
  destruct (tokio_send_data_sends _ _ _ _ _ Hs Hl E) as (fs & [Hf Ho _] & Hw & Hout & Hwr & Hend).
  exists fs. subst id. split_and!; try done. constructor; [done|exact Ho|]. unfold on_its_way. cbn [conn set_field]. by rewrite Hout, Hwr, app_nil_r, app_assoc.
Qed.

Lemma send_chunks_sends id l d d' :
  id = connect_stream_id d -> sound d -> Forall bytes_ok l -> send_chunks id l d = (Ok tt, d') ->
  exists fs, carries (concat l) fs d d' /\ sound d' /\ (flushed d -> flushed d') /\ connect_stream_id d' = connect_stream_id d /\ unended fs.
Proof.
  intros Hid Hs Hl. revert d Hid Hs. induction Hl as [|c l Hc _ IH]; intros d Hid Hs.
  { intros [= <-]. exists []. split_and!; [apply carries_nothing|done|done|done|constructor]. }
  cbn [send_chunks]. intros ([] & d1 & E1 & E2)%bind_inv_Ok.
  destruct (on_conn_sends _ _ _ _ _ Hid Hs Hc E1) as (fs & C1 & S1 & F1 & _ & I1 & N1).
  destruct (IH d1 ltac:(congruence) S1 E2) as (gs & C2 & S2 & F2 & I2 & N2). exists (fs ++ gs). cbn [concat].
  split_and!; [by eapply carries_trans|done|auto|congruence|by apply Forall_app].
Qed.

(** The session's output is carried whole. *)
Lemma flush_wt_output_sends d d' :
  sound d -> bytes_ok (WtSession.output_buffer (wt_session d)) -> flush_wt_output d = (Ok tt, d') ->
  exists fs, carries (WtSession.output_buffer (wt_session d)) fs d d' /\ sound d' /\ (flushed d -> flushed d') /\
    wt_sent d' /\ connect_stream_id d' = connect_stream_id d /\ unended fs.
Proof.
  intros Hs Hb. rewrite flush_wt_output_eq. destruct (WtSession.output_buffer (wt_session d)) as [|b l] eqn:E.
  { intros [= <-]. exists []. split_and!; [apply carries_nothing|done|done|done|done|constructor]. }
  pose proof (send_chunks_wt (connect_stream_id d) (chunks WT_SEND_CHUNK_SIZE (b :: l)) (wt_drained d)) as Hw. intros E1. rewrite E1 in Hw.
  destruct (send_chunks_sends (connect_stream_id d) _ (wt_drained d) d' eq_refl Hs (chunks_bytes WT_SEND_CHUNK_SIZE _ eq_refl Hb) E1) as (fs & C & S & F & I & N).
  rewrite (proj1 (chunks_spec WT_SEND_CHUNK_SIZE (b :: l) eq_refl)) in C. exists fs.
  split_and!; [by eapply carries_same; [..|exact C]|done|done| |done|done].
  cbn [snd] in Hw. unfold wt_sent. by rewrite Hw.
Qed.

(** A command that writes capsules; the one that ends the session. *)
Definition sends (cmd : DriverCmd.t) : bool := match cmd with DriverCmd.ExportKeyingMaterial _ _ _ _ => false | _ => true end.
Definition closes (cmd : DriverCmd.t) : bool := match cmd with DriverCmd.Close _ _ _ => true | _ => false end.

(** The session's part of a command. *)
Definition session_step (cmd : DriverCmd.t) : ST WtSession.t WtError.t unit :=
  match cmd with
  | DriverCmd.SendStreamData stream_id data fin _ => WtSession.send_stream_data stream_id data fin
  | DriverCmd.OpenBidi _ => WtSession.open_bidi_stream ;! ret tt
  | DriverCmd.OpenUni _ => WtSession.open_uni_stream ;! ret tt
  | DriverCmd.SendDatagram data _ => WtSession.send_datagram data
  | DriverCmd.ResetStream stream_id error_code _ => WtSession.reset_stream stream_id error_code
  | DriverCmd.StopSending stream_id error_code _ => WtSession.stop_sending stream_id error_code
  | DriverCmd.Close error_code reason _ => WtSession.close error_code reason
  | DriverCmd.Drain _ => WtSession.drain
  | DriverCmd.ExportKeyingMaterial _ _ _ _ => ret tt
  end.

Lemma session_step_op cmd s : wf s -> cmd_ok cmd -> op (session_step cmd) s.
Proof.
  intros H Hc. destruct cmd; cbn [session_step cmd_ok] in *.
  - by apply send_stream_data_op.
  - apply wt_op_seq; [by apply open_stream_op|intros ? ? []; by apply wt_op_ret].
  - apply wt_op_seq; [by apply open_stream_op|intros ? ? []; by apply wt_op_ret].
  - by apply send_datagram_op.
  - by apply reset_stream_op.
  - by apply stop_sending_op.
  - apply close_op; by destruct_and?.
  - by apply drain_op.
  - by apply wt_op_ret.
Qed.

(** The session after its part of a command, and what it then has to write. *)
Lemma session_step_bytes cmd s s' :
  wf s -> cmd_ok cmd -> bytes_ok (WtSession.output_buffer s) -> session_step cmd s = (Ok tt, s') -> bytes_ok (WtSession.output_buffer s').
Proof.
  intros H Hc Hb E. pose proof (session_step_op cmd s H Hc) as K. unfold op, wp in K. rewrite E in K.
  destruct K as [_ K]. destruct (ev_output _ _ K) as (caps & Hw & -> & _). apply bytes_ok_app. split; [done|by apply wires_bytes].
Qed.

(** Methods that leave the connection alone. *)
Definition apart {A} (X : M A) : Prop := forall d, conn (snd (X d)) = conn d.

Lemma apart_bind {A B} (X : M A) (k : A -> M B) : apart X -> (forall a, apart (k a)) -> apart (bind X k).
Proof. intros HX Hk d. specialize (HX d). unfold bind. destruct (X d) as [[a|e|] d']; cbn in *; [by rewrite Hk|done|done]. Qed.
Lemma apart_wt {A} (m : ST WtSession.t WtError.t A) : apart (on_wt m).
Proof. intros d. unfold on_wt, embed. by destruct (m (wt_session d)). Qed.
Lemma apart_outcome {A} (X : M A) : apart X -> apart (outcome X).
Proof. intros HX d. specialize (HX d). unfold outcome. by destruct (X d) as [[a|[e|]|] d']. Qed.
Lemma apart_local {A} (X : M A) : (forall d, conn (snd (X d)) = conn d) -> apart X.
Proof. done. Qed.

Ltac apart :=
  repeat first [ apply apart_wt | apply apart_outcome | apply apart_local; intros; reflexivity | apply apart_bind; [|intros] | case_match ].

(** The session did its part, and the connection was left alone. *)
Definition stepping (cmd : DriverCmd.t) {A} (X : M A) : Prop :=
  forall d a d', X d = (Ok a, d') ->
    session_step cmd (wt_session d) = (Ok tt, wt_session d') /\ connect_stream_id d' = connect_stream_id d.

Lemma stepping_run cmd {A} (m : ST WtSession.t WtError.t A) (a : Reply.t) :
  (forall s x s', m s = (Ok x, s') -> session_step cmd s = (Ok tt, s')) -> stepping cmd (on_wt m ;! ret a).
Proof.
  intros Hm d x d' (y & d1 & E & E')%bind_inv_Ok. unfold on_wt, embed in E. destruct (m (wt_session d)) as [[z|e|] s] eqn:Em; [|done|done].
  assert (d1 = d <| wt_session := s |>) as -> by (by apply (f_equal snd) in E). injection E' as _ <-. split; [by eapply Hm|done].
Qed.

(** What follows a step and touches neither the session nor the connection. *)
Definition idle {A} (X : M A) : Prop :=
  forall d, let d' := snd (X d) in
  conn d' = conn d /\ wt_session d' = wt_session d /\ connect_stream_id d' = connect_stream_id d.

Lemma idle_bind {A B} (X : M A) (k : A -> M B) : idle X -> (forall a, idle (k a)) -> idle (bind X k).
Proof.
  intros HX Hk d. specialize (HX d). unfold bind. destruct (X d) as [[a|e|] d1]; [|done|done]. cbn [snd] in HX.
  destruct HX as (E1 & E2 & E3), (Hk a d1) as (F1 & F2 & F3). by rewrite F1, F2, F3.
Qed.
Lemma idle_local {A} (X : M A) :
  (forall d, let d' := snd (X d) in conn d' = conn d /\ wt_session d' = wt_session d /\ connect_stream_id d' = connect_stream_id d) -> idle X.
Proof. done. Qed.
Lemma idle_apart {A} (X : M A) : idle X -> apart X.
Proof. intros HX d. apply HX. Qed.

Ltac idle := repeat first [ apply idle_local; intros; split_and!; reflexivity | apply idle_bind; [|intros] | case_match ].

Lemma stepping_bind cmd {A B} (X : M A) (k : A -> M B) : stepping cmd X -> (forall a, idle (k a)) -> stepping cmd (bind X k).
Proof.
  intros HX Hk d b d' (a & d1 & E1 & E2)%bind_inv_Ok. destruct (HX _ _ _ E1) as [Hs Hi]. destruct (Hk a d1) as (_ & Hs2 & Hi2).
  rewrite E2 in Hs2, Hi2. cbn [snd] in Hs2, Hi2. by rewrite Hs2, Hi2.
Qed.

Lemma stepping_wt cmd {A} (m : ST WtSession.t WtError.t A) :
  (forall s x s', m s = (Ok x, s') -> session_step cmd s = (Ok tt, s')) -> stepping cmd (on_wt m).
Proof.
  intros Hm d x d' E. unfold on_wt, embed in E. destruct (m (wt_session d)) as [[z|e|] s] eqn:Em; [|done|done].
  assert (d' = d <| wt_session := s |>) as -> by (by apply (f_equal snd) in E). split; [by eapply Hm|done].
Qed.

(** What a command finds, and what one that succeeds does. *)
Definition fit (cmd : DriverCmd.t) (d : t) : Prop :=
  sound d /\ wf (wt_session d) /\ bytes_ok (WtSession.output_buffer (wt_session d)) /\ cmd_ok cmd.

Definition carried_out (cmd : DriverCmd.t) (d d' : t) : Prop :=
  exists s fs, session_step cmd (wt_session d) = (Ok tt, s) /\ carries (WtSession.output_buffer s) fs d d' /\
    wt_sent d' /\ (flushed d -> flushed d') /\
    if closes cmd then ended_by_last fs /\ flushed d' /\ waits_for_window d' = [] else unended fs.

Definition answer_spec (cmd : DriverCmd.t) (d d' : t) (go : bool) (r : result TokioError.t Reply.t) : Prop :=
  if is_ok r then go = true /\ (sends cmd = true -> carried_out cmd d d') else go = true -> conn d' = conn d.

Lemma record_answers ack r d : answers (effects (snd (record (Effect.Acked ack r) d))) = answers (effects d) ++ [(ack, r)].
Proof. cbn. by rewrite answers_app. Qed.

(** A state reached by the session's part of a command. *)
Record stepped (cmd : DriverCmd.t) (d d1 : t) : Prop := mk_stepped {
  sp_session : session_step cmd (wt_session d) = (Ok tt, wt_session d1);
  sp_conn : conn d1 = conn d;
  sp_id : connect_stream_id d1 = connect_stream_id d
}.

Lemma stepped_flush cmd d d1 d' :
  fit cmd d -> stepped cmd d d1 -> flush_wt_output d1 = (Ok tt, d') ->
  exists fs, carries (WtSession.output_buffer (wt_session d1)) fs d d' /\ sound d' /\ (flushed d -> flushed d') /\
    wt_sent d' /\ connect_stream_id d' = connect_stream_id d /\ unended fs.
Proof.
  intros (Hs & Hw & Hb & Hc) [E1 E2 E3] E.
  assert (sound d1) as Hs1 by (unfold sound; by rewrite E2).
  destruct (flush_wt_output_sends d1 d' Hs1 (session_step_bytes _ _ _ Hw Hc Hb E1) E) as (fs & C & S & F & W & I & N).
  exists fs. unfold flushed in *. rewrite E2 in F. split_and!; [by eapply carries_same; [..|exact C]|done|done|done|congruence|done].
Qed.

Lemma send_cmd_result_spec cmd res ack d0 d go d' :
  fit cmd d0 -> closes cmd = false -> conn d = conn d0 -> (is_ok res = true -> stepped cmd d0 d) -> send_cmd_result res ack d = (Ok go, d') ->
  exists r, answers (effects d') = answers (effects d) ++ [(ack, r)] /\ answer_spec cmd d0 d' go r.
Proof.
  intros Hfit Hcl Hconn Hstep. destruct res as [v|e|]; cbn [send_cmd_result]; [| |done].
  - unfold bind at 1, outcome. pose proof (unanswering_flush d) as Ha.
    destruct (flush_wt_output d) as [[[]|[e|]|] d1] eqn:E; cbn [snd] in Ha; try done; intros E'.
    + exists (Ok v). rewrite <- Ha. destruct (stepped_flush _ _ _ _ Hfit (Hstep eq_refl) E) as (fs & C & _ & F & W & _ & N).
      injection E' as <- <-. split; [apply record_answers|]. split; [done|]. intros _. exists (wt_session d), fs. rewrite Hcl.
      split_and!; [apply (Hstep eq_refl)|by eapply carries_same; [..|exact C]|done|done|done].
    + exists (Err e). injection E' as <- <-. rewrite <- Ha. split; [apply record_answers|]. by intros [=].
  - intros [= <- <-]. exists (Err e). split; [apply record_answers|]. by intros _.
Qed.

Lemma command_spec cmd (X : M Reply.t) (f : result TokioError.t Reply.t -> M unit) ack d go d' :
  fit cmd d -> closes cmd = false -> unanswering X -> apart X -> stepping cmd X -> (forall r, unanswering (f r)) -> (forall r, idle (f r)) ->
  (let! res := outcome X in f res ;! send_cmd_result res ack) d = (Ok go, d') ->
  exists r, answers (effects d') = answers (effects d) ++ [(ack, r)] /\ answer_spec cmd d d' go r.
Proof.
  intros Hfit Hcl HX HX' Hstep Hf Hf' (res & d1 & E1 & E)%bind_inv_Ok.
  pose proof (unanswering_outcome _ HX d) as Ha. pose proof (apart_outcome _ HX' d) as Hc. rewrite E1 in Ha, Hc. cbn [snd] in Ha, Hc.
  apply bind_inv_Ok in E as ([] & d2 & E2 & E). pose proof (Hf res d1) as Ha1. destruct (Hf' res d1) as (Hc1 & Hw1 & Hi1).
  rewrite E2 in Ha1, Hc1, Hw1, Hi1. cbn [snd] in *.
  destruct (send_cmd_result_spec cmd res ack d d2 go d' Hfit Hcl ltac:(congruence)) as (r & Hr & Hs); [|exact E|].
  - intros Hok. unfold outcome in E1. destruct (X d) as [[v|[e|]|] d3] eqn:EX; try done; injection E1 as <- <-; [|done].
    destruct (Hstep _ _ _ EX) as [Hs Hi]. constructor; congruence.
  - exists r. by rewrite Hr, Ha1, Ha.
Qed.

Lemma only_spec cmd (X : M Reply.t) ack d go d' :
  fit cmd d -> closes cmd = false -> unanswering X -> apart X -> stepping cmd X ->
  (let! res := outcome X in send_cmd_result res ack) d = (Ok go, d') ->
  exists r, answers (effects d') = answers (effects d) ++ [(ack, r)] /\ answer_spec cmd d d' go r.
Proof.
  intros Hfit Hcl HX HX' Hs E. apply (command_spec cmd X (fun _ => ret tt) ack); [done..|intros; unanswering|intros; idle|exact E].
Qed.

Lemma ended_after fs gs : unended fs -> ended_by_last gs -> ended_by_last (fs ++ gs).
Proof.
  intros Hf [n Hn]. exists (length fs + n)%nat. rewrite map_app, Hn, replicate_add, <- app_assoc. f_equal.
  induction Hf as [|f fs E _ IH]; [done|]. cbn. by rewrite E, IH.
Qed.

Lemma nothing_waits id c : TokioConnection.has_pending_send_data id c = false -> unsent (StreamId.as_u32 id) (TokioConnection.inner c) = [].
Proof.
  unfold TokioConnection.has_pending_send_data, Connection.has_pending_send_data, unsent. destruct (Connection.streams _ !! _) as [s|]; [|done].
  intros [E%negb_false_iff _]%orb_false_iff. rewrite buffer_empty_len in E. destruct (buffered s) as [|b l]; [done|].
  rewrite len_cons in E. pose proof (len_nonneg l). lia.
Qed.

(** The closing handshake that succeeds. *)
Lemma close_output_spec cmd d0 d res d' :
  fit cmd d0 -> closes cmd = true -> stepped cmd d0 d -> close_output d = (Ok res, d') ->
  answers (effects d') = answers (effects d) /\ (is_ok res = true -> carried_out cmd d0 d').
Proof.
  intros Hfit Hcl Hstep E. pose proof (unanswering_close_output d) as Ha. rewrite E in Ha. split; [done|]. revert E. clear Ha.
  unfold close_output. rewrite bind_gets. unfold bind at 1, outcome at 1.
  destruct (flush_wt_output d) as [[[]|[e|]|] d1] eqn:E1; try done; [|by intros [= <- _]].
  destruct (stepped_flush _ _ _ _ Hfit Hstep E1) as (fs & C1 & S1 & _ & W1 & I1 & N1). unfold bind at 1, outcome.
  destruct (on_conn _ d1) as [[[]|[e|]|] d2] eqn:E2; try done; [|by intros [= <- _]].
  assert (connect_stream_id d = connect_stream_id d1) as Hid by (rewrite I1; apply Hstep).
  destruct (on_conn_sends _ _ _ _ _ Hid S1 ltac:(constructor) E2) as (gs & C2 & S2 & F2 & W2 & I2 & N2).
  rewrite bind_gets. case_match eqn:Hp; [by intros [= <- _]|]. intros E _. specialize (N2 eq_refl).
  assert (d' = d2 <| responded_end_stream_on_close := true |>) as -> by (by apply (f_equal snd) in E).
  exists (wt_session d), (fs ++ gs). rewrite Hcl. pose proof (carries_trans _ _ _ _ _ _ _ I1 C1 C2) as C. rewrite app_nil_r in C.
  split_and!; [apply Hstep|by eapply carries_same; [..|exact C]|by unfold wt_sent in *; cbn; rewrite W2|by intros _|by apply ended_after|done|].
  unfold waits_for_window. cbn. rewrite I2, <- Hid. by apply nothing_waits.
Qed.

(** ** Properties *)

(** C11: Every command is answered, once and in order. Whatever turns the driver
    takes, the acknowledgements it sends are those of the commands it was handed,
    up to the one at which it ended or that still waits for the transport: none
    is left out, answered twice or overtaken, whether it succeeds, fails, or
    ends the driver. *)
Theorem commands_are_answered_in_order (turns : list turn) (d : t) :
  let d' := snd (run turns d) in
  (answers (effects d')).*1 = (answers (effects d)).*1 ++ asked (completed turns d).
Proof.
  cbv zeta. revert d. induction turns as [|x turns IH]; intros d; [by rewrite app_nil_r|]. cbn [run completed].
  pose proof (take_turn_answers x d) as H. unfold bind. destruct (take_turn x d) as [[[]|[e|]|] d1]; cbn [snd]; [|done..].
  by rewrite IH, H, (asked_cons x (completed turns d1)), app_assoc.
Qed.

(** What an answer [r] promises, [go] telling whether the driver goes on. *)
Definition answer_holds (cmd : DriverCmd.t) (d d' : t) (go : bool) (r : result TokioError.t Reply.t) : Prop :=
  (is_ok r = true -> sends cmd = true -> carried_out cmd d d') /\
  (closes cmd = true -> go = false) /\
  (is_ok r = false -> go = true -> conn d' = conn d) /\
  (closes cmd = false -> go = false -> is_ok r = false).

(** C12: An acknowledgement can be relied on. When a command that sends is told
    it succeeded, the session did its part of it, and of the session's whole
    output nothing is lost: DATA frames of the CONNECT stream were added to what
    is on its way to the transport, and the octets they carry, followed by those
    that still wait for a window in the stream's send buffer, are those that
    waited there before followed by the session's output. The session has nothing
    more to write, and if the connection had nothing to write before, all these
    frames are written. Only a close ends the stream: if it succeeds, END_STREAM
    is on the last of the frames and on no other, nothing waits for a window any
    more, and all is written; no frame of another command has it. A command that
    fails while the driver goes on did not touch the connection. And the driver
    ends at a close, or when an answer tells a failure. *)
Theorem acknowledged_commands_are_sent (n m k : Z) (cmd : DriverCmd.t) (d : t) (go : bool) (d' : t) :
  ok n m k d -> cmd_ok cmd -> handle_cmd cmd d = (Ok go, d') ->
  exists r, answers (effects d') = answers (effects d) ++ [(ack_of cmd, r)] /\ answer_holds cmd d d' go r.
Proof.
  intros [[(Hs & _) _] Hw Hb _ _ _ _] Hcmd. assert (fit cmd d) as Hfit by done. clear Hs Hw Hb Hcmd.
  assert (closes cmd = false -> (exists r, answers (effects d') = answers (effects d) ++ [(ack_of cmd, r)] /\ answer_spec cmd d d' go r) ->
    exists r, answers (effects d') = answers (effects d) ++ [(ack_of cmd, r)] /\ answer_holds cmd d d' go r) as K.
  { intros Hc (r & Hr & H). exists r. split; [done|]. unfold answer_spec, answer_holds in *. rewrite Hc.
    destruct (is_ok r); [destruct H as [-> H]|]; split_and!; naive_solver. }
  destruct cmd as [id data fin ack|ack|ack|data ack|id code ack|id code ack|code reason ack|ack|label ctx len ack];
    cbn [handle_cmd]; intros E;
    try (apply K; [done|]; unfold run_wt in E; refine (only_spec _ _ _ _ _ _ Hfit eq_refl _ _ _ E);
      [unanswering|apart|apply stepping_run; intros s [] s' Em; exact Em]; fail).
  - apply K; [done|]. refine (only_spec _ _ _ _ _ _ Hfit eq_refl unanswering_open_bidi _ _ E);
      unfold open_bidi, unbounded_channel, insert_channel, drop_sender, record; [apart|].
    apply stepping_bind; [|intros; idle]. apply stepping_wt. intros s x s' Em. cbn [session_step]. by rewrite (bind_Ok _ _ _ _ _ Em).
  - apply K; [done|]. refine (only_spec _ _ _ _ _ _ Hfit eq_refl _ _ _ E); [unanswering|apart|].
    apply stepping_bind; [|intros; idle]. apply stepping_wt. intros s x s' Em. cbn [session_step]. by rewrite (bind_Ok _ _ _ _ _ Em).
  - apply K; [done|]. unfold run_wt in E.
    refine (command_spec _ _ (fun r => note_stop_sending id r) _ _ _ _ Hfit eq_refl _ _ _ _ _ E); [unanswering|apart|..].
    + apply stepping_run. intros s [] s' Em. exact Em.
    + intros. unfold note_stop_sending. unanswering.
    + intros. unfold note_stop_sending. idle.
  - clear K. unfold answer_holds. cbn [ack_of closes sends].
    pose proof (unanswering_outcome (on_wt (WtSession.close code reason) ;! ret Reply.Done) ltac:(unanswering) d) as Ha.
    apply bind_inv_Ok in E as (res & d1 & E1 & E). unfold run_wt in E1. rewrite E1 in Ha. cbn [snd] in Ha.
    destruct (is_ok res) eqn:Hok.
    + apply bind_inv_Ok in E as (res2 & d2 & E2 & E).
      assert (stepped (DriverCmd.Close code reason ack) d d1) as Hstep.
      { unfold outcome in E1. destruct ((on_wt _ ;! ret Reply.Done) d) as [[v|[e|]|] d3] eqn:EX; try done; injection E1 as <- <-; [|done].
        pose proof (stepping_run (DriverCmd.Close code reason ack) _ Reply.Done (fun s '(tt) s' Em => Em) _ _ _ EX) as [Hs Hi].
        constructor; [done| |done]. pose proof (apart_wt (WtSession.close code reason) d) as Hc. apply bind_inv_Ok in EX as (? & d4 & E4 & EX).
        rewrite E4 in Hc. cbn in Hc. by injection EX as _ <-. }
      apply (close_output_spec _ d d1 res2 d2 Hfit eq_refl Hstep) in E2 as [Ha2 Hs].
      apply bind_inv_Ok in E as ([] & d3 & E3 & E).
      assert (d' = d2 <| effects := effects d2 ++ [Effect.Acked ack res2] |> /\ go = false) as [-> ->].
      { unfold record in E3. cbn in E3. injection E3 as <-. by injection E as <- <-. }
      exists res2. rewrite <- Ha, <- Ha2. split; [cbn; by rewrite answers_app|]. split_and!; [|done|done|done].
      intros Hok2 _. destruct (Hs Hok2) as (s & fs & E5 & C & W & F & H). exists s, fs.
      split_and!; [done|by eapply carries_same; [..|exact C]|done|done|exact H].
    + injection E as <- <-. exists res. rewrite <- Ha. split; [apply record_answers|]. rewrite Hok. naive_solver.
  - apply K; [done|]. unfold bind at 1, gets in E. destruct (export label ctx len d) as [r|e|]; [..|done];
      (injection E as <- <-; eexists; split; [apply record_answers|done]).
Qed.
End driver.

(** A stream opened, and the session closed. *)
Definition opened_driver : @Driver.t script_transport :=
  snd (@handle_cmd script_transport (DriverCmd.OpenBidi 1) wt_driver).

Lemma opened_driver_ok : @ok script_transport (total_reads wt_operations * TokioConnection.RECV_BUF_SIZE) 1 0 opened_driver.
Proof.
  pose proof (@handle_cmd_safe script_transport script_laws key_order key_order_laws (DriverCmd.OpenBidi 1) wt_driver I _ _ _ wt_driver_ok) as H.
  unfold opened_driver. destruct (handle_cmd (DriverCmd.OpenBidi 1) wt_driver) as [r d].
  destruct H as [_ H]; [by vm_compute|by vm_compute|]. by rewrite !Z.add_0_r in H.
Qed.

Lemma acknowledged_commands_are_sent_witness :
  exists d', @handle_cmd script_transport (DriverCmd.Close 0 [98; 121; 101] 2) opened_driver = (Ok false, d') /\
    answers (effects d') = answers (effects opened_driver) ++ [(2, Ok Reply.Done)] /\
    @answer_holds script_transport script_laws (DriverCmd.Close 0 [98; 121; 101] 2) opened_driver d' false (Ok Reply.Done).
Proof.
  assert (cmd_ok (DriverCmd.Close 0 [98; 121; 101] 2)) as Hcmd.
  { split; [split; by vm_compute|]. split; [repeat constructor; by vm_compute|reflexivity]. }
  assert (last (answers (effects (snd (@handle_cmd script_transport (DriverCmd.Close 0 [98; 121; 101] 2) opened_driver)))) =
    Some (2, Ok Reply.Done)) as Hlast by (vm_compute; reflexivity).
  destruct (@handle_cmd script_transport (DriverCmd.Close 0 [98; 121; 101] 2) opened_driver) as [o d'] eqn:E.
  assert (o = Ok false) as -> by (apply (f_equal fst) in E; vm_compute in E; symmetry; exact E).
  destruct (@acknowledged_commands_are_sent script_transport script_laws _ _ _ _ _ _ _ opened_driver_ok Hcmd E) as (r & Hr & H).
  exists d'. assert (r = Ok Reply.Done) as ->.
  { cbn [snd] in Hlast. rewrite Hr, last_snoc in Hlast. by injection Hlast. }
  split; [reflexivity|]. split; [exact Hr|exact H].
Defined.
