(* ===== verification/DriverWindows.v ===== *)
(** * DriverWindows: the peer may go on sending

    After the octets of a DATA event are handled the driver has given back the
    credit they used, in both layers. *)

From S2P Require Import Prelude Errors StreamIds Config Flow Bounded StreamCore FrameTypes FrameEncode Syntax HpackTable HpackCodec Validation Stream ConnBase ConnHeaders.
From S2P Require Import ConnRecv ConnInv ConnSafe ConnSample ConnHandle ConnApi ConnEvents ConnOutput.
From S2P Require Import WtVarint WtStream WtCapsule WtCodec WtInit WtProtocols WtSession WtInv WtSafe WtLoop WtApi WtClosing WtGrants.
From S2P Require Import Tokio TokioWire TokioApi Driver DriverSample DriverSafe DriverAccept.
Import WtInvariant.

(** ** Receive windows of a connection *)

Definition conn_credit (c : Connection.t) : Z := FlowControl.recv_window (Connection.flow_control c).
Definition credit (s : Stream.t) : Z := FlowControl.recv_window (Stream.flow_control s).

(** The connection's receive window grew by [n], that of the stream [sid] by
    [m], and all else kept its window or ended. *)
Definition credited (n : Z) (sid m : Z) (c c' : Connection.t) : Prop :=
  conn_credit c' = conn_credit c + n /\
  forall i s', Connection.streams c' !! i = Some s' ->
    exists s, Connection.streams c !! i = Some s /\ credit s' = credit s + (if i =? sid then m else 0).

Notation uncredited := (credited 0 0 0).

Lemma uncredited_refl c : uncredited c c.
Proof. split; [lia|]. intros i s' E. exists s'. split; [done|]. case_match; lia. Qed.

Lemma credited_trans n1 n2 sid m1 m2 c c1 c2 :
  credited n1 sid m1 c c1 -> credited n2 sid m2 c1 c2 -> credited (n1 + n2) sid (m1 + m2) c c2.
Proof.
  intros [H1 K1] [H2 K2]. split; [lia|]. intros i s' E. destruct (K2 i s' E) as (s1 & E1 & Hs1).
  destruct (K1 i s1 E1) as (s & Es & Hs). exists s. split; [done|]. case_match; lia.
Qed.

Lemma uncredited_any sid c c' : uncredited c c' -> credited 0 sid 0 c c'.
Proof. intros [H K]. split; [done|]. intros i s' E. destruct (K i s' E) as (s & ? & Hs). exists s. split; [done|]. repeat case_match; lia. Qed.

Lemma uncredited_same c c' :
  Connection.flow_control c' = Connection.flow_control c -> Connection.streams c' = Connection.streams c -> uncredited c c'.
Proof. intros E1 E2. unfold credited, conn_credit. rewrite E1, E2. apply uncredited_refl. Qed.

(** Methods that give no credit. *)
Definition free {A} (X : Connection.M A) : Prop := forall c, uncredited c (snd (X c)).

Lemma free_bind {A B} (X : Connection.M A) (k : A -> Connection.M B) : free X -> (forall a, free (k a)) -> free (bind X k).
Proof.
  intros HX Hk c. specialize (HX c). unfold bind. destruct (X c) as [[a|e|] c1]; [|done|done]. cbn [snd] in *.
  exact (credited_trans 0 0 0 0 0 _ _ _ HX (Hk a c1)).
Qed.
Lemma free_same {A} (X : Connection.M A) :
  (forall c, Connection.flow_control (snd (X c)) = Connection.flow_control c /\ Connection.streams (snd (X c)) = Connection.streams c) -> free X.
Proof. intros H c. destruct (H c). by apply uncredited_same. Qed.

Lemma free_stream {A} sid (m : ST Stream.t Error.t A) : (forall s, credit (snd (m s)) = credit s) -> free (Connection.stream_mut sid m).
Proof.
  intros Hm c. unfold Connection.stream_mut. destruct (Connection.streams c !! sid) as [s|] eqn:Es; [|apply uncredited_refl].
  specialize (Hm s). destruct (m s) as [r s1]. cbn [snd] in *. split; [unfold conn_credit; cbn; lia|]. intros i s' E. cbn in E.
  destruct (decide (i = sid)) as [->|Hi].
  - rewrite lookup_insert_eq in E. injection E as <-. exists s. split; [done|]. case_match; lia.
  - rewrite lookup_insert_ne in E by done. exists s'. split; [done|]. case_match; lia.
Qed.

Lemma free_forget sid : free (Connection.forget_stream sid).
Proof.
  intros c. split; [unfold conn_credit; cbn; lia|]. intros i s' E. cbn in E. apply lookup_delete_Some in E as [_ E]. exists s'. split; [done|]. case_match; lia.
Qed.

Lemma free_send_frame f : free (Connection.send_frame f).
Proof.
  unfold Connection.send_frame. apply free_bind; [|intros; apply free_bind; [by apply free_same|intros]];
    apply free_same; intros c; unfold zoom.
  - by destruct (FrameEncoder.encode f (Connection.frame_encoder c)).
  - by destruct (FrameEncoder.clear (Connection.frame_encoder c)).
Qed.

Lemma consume_send_credit n f : FlowControl.recv_window (snd (FlowControl.consume_send n f)) = FlowControl.recv_window f.
Proof. unfold FlowControl.consume_send, FlowControl.i64_try_from, bind, lift, gets, modify, throw. by repeat case_match; simplify_eq/=. Qed.

Lemma free_consume_conn n : free (Connection.on_flow_control (FlowControl.consume_send n)).
Proof.
  intros c. pose proof (consume_send_credit n (Connection.flow_control c)) as H. unfold Connection.on_flow_control, zoom.
  destruct (FlowControl.consume_send n _) as [r f]. split; [cbn in *; unfold conn_credit; cbn; lia|].
  intros i s' E. exists s'. split; [done|]. case_match; lia.
Qed.

Lemma free_consume_stream sid n : free (Connection.stream_mut sid (Stream.flow_control_mut (FlowControl.consume_send n))).
Proof.
  apply free_stream. intros s. pose proof (consume_send_credit n (Stream.flow_control s)) as H. unfold Stream.flow_control_mut, zoom.
  by destruct (FlowControl.consume_send n _).
Qed.

Lemma free_lift {A} (r : Result A) : free (lift r).
Proof. by apply free_same. Qed.

Create HintDb free discriminated.
#[local] Hint Resolve free_lift free_send_frame free_forget free_consume_conn free_consume_stream : free.

Ltac free :=
  repeat first
    [ solve [auto with free] | apply free_same; intros; split; reflexivity
    | apply free_stream; intros; unfold Stream.send_buffer_mut, Stream.state_machine_mut, Stream.set_pending_end_stream, modify, zoom, gets, bind; repeat case_match; simplify_eq/=; reflexivity
    | apply free_bind; [|intros] | case_match ].

Lemma free_data_frame sid d es : free (Connection.send_data_frame sid d es).
Proof. unfold Connection.send_data_frame. free. Qed.
#[local] Hint Resolve free_data_frame : free.

Lemma free_flush_step sid n : free (Connection.flush_step sid n).
Proof. unfold Connection.flush_step. free. Qed.
#[local] Hint Resolve free_flush_step : free.

Lemma free_flush_loop fuel sid : free (Connection.flush_loop fuel sid).
Proof. induction fuel as [|fuel IH]; cbn [Connection.flush_loop]; free. Qed.
#[local] Hint Resolve free_flush_loop : free.

Lemma free_send_data id d es : free (Connection.send_data id d es).
Proof.
  unfold Connection.send_data, Connection.require_stream, Connection.queue_data, Connection.flush_stream_data,
    Connection.try_remove_closed_stream. free.
Qed.

(** WINDOW_UPDATE gives its increment. *)
Lemma add_recv_window_credit n f f' : FlowControl.add_recv_window n f = (Ok tt, f') -> FlowControl.recv_window f' = FlowControl.recv_window f + n.
Proof. unfold FlowControl.add_recv_window. case_match; [done|]. rewrite bind_gets. case_match; [done|]. by intros [= <-]. Qed.

Lemma send_window_update_credit id n c c' :
  Connection.send_window_update id n c = (Ok tt, c') ->
  match id with
  | StreamId.Connection => credited n 0 0 c c'
  | _ => credited 0 (StreamId.as_u32 id) n c c'
  end.
Proof.
  unfold Connection.send_window_update. do 2 (case_match; [done|]). set (K := fun _ : unit => _).
  assert (forall u, free (K u)) as HK by (intros u; unfold K; free).
  assert (forall sid m k (X : Connection.M unit), (forall c1, X c = (Ok tt, c1) -> credited m sid k c c1) ->
    bind X K c = (Ok tt, c') -> credited m sid k c c') as HB.
  { intros sid m k X HX. unfold bind. destruct (X c) as [[[]|e|] c1]; [|done|done]. intros E.
    pose proof (HK tt c1) as H2. rewrite E in H2. specialize (HX c1 eq_refl). cbn [snd] in H2. clear K HK E.
    pose proof (credited_trans m 0 sid k 0 c c1 c' HX (uncredited_any sid _ _ H2)) as H3. by rewrite !Z.add_0_r in H3. }
  assert (forall sid, (forall c1,
    (let! s := gets (fun c => Connection.streams c !! sid) in
     match s with Some _ => Connection.stream_mut sid (Stream.flow_control_mut (FlowControl.add_recv_window n)) | None => ret tt end) c
      = (Ok tt, c1) -> credited 0 sid n c c1)) as Hs.
  { intros sid c1. rewrite bind_gets. unfold Connection.stream_mut, Stream.flow_control_mut, zoom.
    destruct (Connection.streams c !! sid) as [s|] eqn:Es.
    - rewrite Es. destruct (FlowControl.add_recv_window n (Stream.flow_control s)) as [r f] eqn:Ef. intros [= -> <-].
      apply add_recv_window_credit in Ef. split; [cbn; unfold conn_credit; cbn; lia|]. intros i s' E. cbn in E.
      destruct (decide (i = sid)) as [->|Hi].
      + rewrite lookup_insert_eq in E. injection E as <-. exists s. rewrite Z.eqb_refl. split; [done|exact Ef].
      + rewrite lookup_insert_ne in E by done. exists s'. split; [done|]. case_match; lia.
    - intros [= <-]. split; [lia|]. intros i s' E. exists s'. split; [done|]. case_match; [|lia]. assert (i = sid) by lia. congruence. }
  destruct id; [|eapply HB, Hs..]. apply HB. intros c1. unfold Connection.on_flow_control, zoom.
  destruct (FlowControl.add_recv_window n _) as [r f] eqn:Ef. intros [= -> <-]. apply add_recv_window_credit in Ef.
  split; [exact Ef|]. intros i s' E. exists s'. split; [done|]. case_match; lia.
Qed.

(** ** The driver *)

Section driver.
Context {T : Transport} {TL : TransportLaws T} {HO : Connection.HashOrder} {HOL : Connection.HashOrderLaws HO}.
Import Driver.

Definition inner_of (d : t) : Connection.t := TokioConnection.inner (conn d).

Lemma tokio_flush_credit c : uncredited (TokioConnection.inner c) (TokioConnection.inner (snd (TokioConnection.flush c))).
Proof.
  rewrite tokio_flush_eq. destruct (Connection.output_buffer (TokioConnection.inner c)) as [|o os]; [apply uncredited_refl|].
  pose proof (write_spec (o :: os) (drained c)) as H. destruct (bind _ _ (drained c)) as [r c1]. destruct H as (_ & Hi & _).
  cbn [snd]. rewrite Hi. by apply uncredited_same.
Qed.

(** A call of the inner connection that gives credit, and then a flush. *)
Lemma tokio_credit n sid m (X : Connection.M unit) c c' :
  (forall i, X (TokioConnection.inner c) = (Ok tt, i) -> credited n sid m (TokioConnection.inner c) i) ->
  (TokioConnection.on_inner X ;! TokioConnection.flush) c = (Ok tt, c') ->
  credited n sid m (TokioConnection.inner c) (TokioConnection.inner c').
Proof.
  intros HX. unfold bind, TokioConnection.on_inner, embed. destruct (X (TokioConnection.inner c)) as [[[]|e|] i]; [|done|done].
  cbn [map_err]. specialize (HX i eq_refl). set (c1 := c <| TokioConnection.inner := i |>). intros E.
  pose proof (tokio_flush_credit c1) as Hf. rewrite E in Hf. cbn [snd] in Hf.
  pose proof (credited_trans n 0 sid m 0 _ _ _ HX (uncredited_any sid _ _ Hf)) as K. by rewrite !Z.add_0_r in K.
Qed.

Lemma on_conn_credit {A} n sid m (X : TokioConnection.M A) a d d' :
  (forall c', X (conn d) = (Ok a, c') -> credited n sid m (inner_of d) (TokioConnection.inner c')) ->
  on_conn X d = (Ok a, d') -> credited n sid m (inner_of d) (inner_of d') /\ wt_session d' = wt_session d /\
    connect_stream_id d' = connect_stream_id d.
Proof. intros HX. unfold on_conn, zoom. destruct (X (conn d)) as [r c']. intros [= -> <-]. split; [by apply HX|done]. Qed.

Lemma send_chunks_credit id l d d' : send_chunks id l d = (Ok tt, d') -> uncredited (inner_of d) (inner_of d').
Proof.
  revert d. induction l as [|c l IH]; intros d; [intros [= <-]; apply uncredited_refl|]. cbn [send_chunks]. unfold bind at 1.
  destruct (on_conn _ d) as [[[]|e|] d1] eqn:E; [|done|done]. intros E'. apply IH in E'.
  assert (uncredited (inner_of d) (inner_of d1)) as H1.
  { eapply on_conn_credit; [|exact E]. intros c'. apply tokio_credit. intros i Ei.
    pose proof (free_send_data id c false (inner_of d)) as H. unfold inner_of in *. by rewrite Ei in H. }
  exact (credited_trans 0 0 0 0 0 _ _ _ H1 E').
Qed.

(** The chunks change the connection only. *)
Lemma send_chunks_same id l d :
  exists c, snd (send_chunks id l d) = d <| conn := c |>.
Proof.
  revert d. induction l as [|c l IH]; intros d; [exists (conn d); by destruct d|]. cbn [send_chunks]. unfold bind, on_conn, zoom.
  destruct (TokioConnection.send_data id c false (conn d)) as [[a|e|] c1]; [|by exists c1..].
  destruct (IH (d <| conn := c1 |>)) as [c2 ->]. by exists c2.
Qed.

Lemma flush_credit d d' :
  flush_wt_output d = (Ok tt, d') ->
  uncredited (inner_of d) (inner_of d') /\
  exists c out, d' = d <| conn := c |> <| wt_session := (wt_session d) <| WtSession.output_buffer := out |> |>.
Proof.
  rewrite flush_wt_output_eq. destruct (WtSession.output_buffer (wt_session d)) as [|b l] eqn:E.
  { intros [= <-]. split; [apply uncredited_refl|]. exists (conn d), []. rewrite <- E. by destruct d as [? ? []]. }
  intros E'. destruct (send_chunks_same (connect_stream_id d) (chunks WT_SEND_CHUNK_SIZE (b :: l)) (wt_drained d)) as [c Hc].
  rewrite E' in Hc. cbn [snd] in Hc. split; [by apply send_chunks_credit in E'|]. by exists c, [].
Qed.

Lemma or_abort_Ok {A} (m : ST WtSession.t WtError.t A) a d d' :
  or_abort m d = (Ok a, d') -> exists s, m (wt_session d) = (Ok a, s) /\ d' = d <| wt_session := s |>.
Proof.
  unfold or_abort, try_wt, bind at 1. destruct (m (wt_session d)) as [[x|e|] s]; [intros [= <- <-]; by eexists| |done].
  unfold bind. by destruct (abort_session_with_wt_error e _) as [[]].
Qed.

(** Dispatching leaves the connection alone when it succeeds. *)
Definition aside {A} (X : M A) : Prop :=
  forall d a d', X d = (Ok a, d') -> conn d' = conn d /\ connect_stream_id d' = connect_stream_id d.

Lemma aside_bind {A B} (X : M A) (k : A -> M B) : aside X -> (forall a, aside (k a)) -> aside (bind X k).
Proof.
  intros HX Hk d b d'. unfold bind. destruct (X d) as [[a|e|] d1] eqn:E; [|done|done]. intros E'.
  destruct (HX _ _ _ E), (Hk _ _ _ _ E'). split; congruence.
Qed.
Lemma aside_local {A} (X : M A) :
  (forall d, conn (snd (X d)) = conn d /\ connect_stream_id (snd (X d)) = connect_stream_id d) -> aside X.
Proof. intros HX d a d' E. specialize (HX d). by rewrite E in HX. Qed.
Lemma aside_or_abort {A} (m : ST WtSession.t WtError.t A) : aside (or_abort m).
Proof. intros d a d' E. apply or_abort_Ok in E as (s & _ & ->). done. Qed.
Lemma aside_wt {A} (m : ST WtSession.t WtError.t A) : aside (on_wt m).
Proof. apply aside_local. intros d. unfold on_wt, embed. by destruct (m (wt_session d)). Qed.

Ltac aside :=
  repeat first
    [ apply aside_or_abort | apply aside_wt | apply aside_local; intros; by split
    | apply aside_local; intros d; unfold modify, set_closed_count; cbn [snd]; by case_match
    | apply aside_bind; [|intros] | case_match ].

Lemma aside_dispatch ev : aside (dispatch_wt_event ev).
Proof.
  destruct ev; cbn [dispatch_wt_event]; unfold finish_stream, forget_stop_sending, unbounded_channel, insert_channel,
    remove_channel, drop_sender, record, account_peer_stream_closed; aside.
Qed.

Lemma aside_dispatch_loop fuel : aside (dispatch_loop fuel).
Proof.
  induction fuel as [|fuel IH]; cbn [dispatch_loop]; [aside|]. apply aside_bind; [aside|].
  intros [e|]; [|aside]. apply aside_bind; [apply aside_dispatch|done].
Qed.

Lemma aside_respond : aside respond_to_close.
Proof.
  intros d [] d'. unfold respond_to_close. rewrite !bind_gets. case_match; [|by intros [= <-]].
  rewrite bind_gets. unfold bind. by destruct (on_conn _ d) as [[]].
Qed.

(** ** Streams that ended *)

(** An event that ends the receiving half of a stream of the kind [b] that the
    client opened. *)
Definition ends (b : bool) (e : WtEvent.t) : Z :=
  match e with
  | WtEvent.StreamData id _ true | WtEvent.StreamReset id _ =>
      if WtStream.StreamId.is_client_initiated id && Bool.eqb (WtStream.StreamId.is_bidirectional id) b then 1 else 0
  | _ => 0
  end.
Definition ended (b : bool) (evs : list WtEvent.t) : Z := foldr (fun e n => ends b e + n) 0 evs.

Lemma ends_nonneg b e : 0 <= ends b e.
Proof. destruct e as [| ? ? []| | | | |]; cbn; try lia; by case_match. Qed.
Lemma ended_nonneg b evs : 0 <= ended b evs.
Proof. induction evs as [|e evs IH]; [done|]. change (0 <= ends b e + ended b evs). pose proof (ends_nonneg b e). lia. Qed.

Definition counter_ok (b : bool) (d : t) : Prop := 0 <= closed_count b d <= USIZE_MAX.

(** A method that, when it succeeds, counts [n] more streams of the kind [b] as
    ended and grants nothing. *)
Definition counts (b : bool) (n : Z) {A} (X : M A) : Prop :=
  forall d a d', X d = (Ok a, d') -> counter_ok b d ->
    closed_count b d' = saturating_add (closed_count b d) n /\ as_allowed (wt_session d) (wt_session d').

Lemma counted_ok b n d d' : 0 <= n -> counter_ok b d -> closed_count b d' = saturating_add (closed_count b d) n -> counter_ok b d'.
Proof. unfold counter_ok, saturating_add, USIZE_MAX. lia. Qed.

Lemma counts_bind b n m {A B} (X : M A) (k : A -> M B) :
  0 <= n -> 0 <= m -> counts b n X -> (forall a, counts b m (k a)) -> counts b (n + m) (bind X k).
Proof.
  intros Hn Hm HX Hk d x d'. unfold bind. destruct (X d) as [[a|e|] d1] eqn:E; [|done|done]. intros E' Hc.
  destruct (HX _ _ _ E Hc) as [H1 A1]. destruct (Hk a _ _ _ E' (counted_ok _ _ _ _ Hn Hc H1)) as [H2 A2].
  split; [|by eapply as_allowed_trans]. rewrite H2, H1. unfold counter_ok, saturating_add, USIZE_MAX in *. lia.
Qed.
Lemma counts_seq b m {A B} (X : M A) (k : A -> M B) :
  0 <= m -> counts b 0 X -> (forall a, counts b m (k a)) -> counts b m (bind X k).
Proof. intros Hm. by apply (counts_bind b 0 m). Qed.
Lemma counts_then b n {A B} (X : M A) (k : A -> M B) :
  0 <= n -> counts b n X -> (forall a, counts b 0 (k a)) -> counts b n (bind X k).
Proof. intros Hn HX Hk. rewrite <- (Z.add_0_r n). by apply counts_bind. Qed.
Lemma counts_none b {A} (X : M A) :
  (forall d, closed_count b (snd (X d)) = closed_count b d /\ wt_session (snd (X d)) = wt_session d) -> counts b 0 X.
Proof.
  intros H d a d' E Hc. destruct (H d) as [H1 H2]. rewrite E in H1, H2. cbn in H1, H2. rewrite H1, H2.
  split; [unfold counter_ok, saturating_add, USIZE_MAX in *; lia|apply as_allowed_refl].
Qed.
Lemma counts_or_abort b {A} (m : ST WtSession.t WtError.t A) : ungranting m -> counts b 0 (or_abort m).
Proof.
  intros Hm d a d' E Hc. apply or_abort_Ok in E as (s & Es & ->). specialize (Hm (wt_session d)). rewrite Es in Hm. split; [|done].
  change (closed_count b (d <| wt_session := s |>)) with (closed_count b d).
  unfold counter_ok, saturating_add, USIZE_MAX in *. lia.
Qed.

Ltac uncounted :=
  repeat first [ apply counts_none; intros; split;
                 [match goal with |- closed_count ?b _ = _ => destruct b; reflexivity end|reflexivity]
               | apply counts_seq; [done| |intros] | case_match ].

Lemma counts_account b id :
  counts b (if WtStream.StreamId.is_client_initiated id && Bool.eqb (WtStream.StreamId.is_bidirectional id) b then 1 else 0)
    (account_peer_stream_closed id).
Proof.
  unfold account_peer_stream_closed. destruct (WtStream.StreamId.is_client_initiated id); [|by apply counts_none].
  destruct (WtStream.StreamId.is_bidirectional id), b; (try by apply counts_none); intros d a d' [= <- <-] _; by split.
Qed.

Lemma counts_finish b id data : counts b (ends b (WtEvent.StreamData id data true)) (finish_stream id).
Proof.
  unfold finish_stream, remove_channel, drop_sender, record. apply counts_seq; [apply ends_nonneg|by uncounted|intros].
  apply counts_seq; [apply ends_nonneg|by uncounted|intros; apply counts_account].
Qed.

Lemma ungranting_stream_window id : ungranting (maybe_grow_stream_window id).
Proof. unfold maybe_grow_stream_window. ungranting. Qed.

Lemma counts_dispatch b ev : counts b (ends b ev) (dispatch_wt_event ev).
Proof.
  pose proof (ends_nonneg b ev) as Hn.
  destruct ev as [id bi|id data fin|id code| |data| |]; cbn [dispatch_wt_event]; try by apply counts_none.
  - unfold unbounded_channel, insert_channel, drop_sender, record. uncounted.
  - apply counts_seq; [done|by uncounted|]. intros [].
    + destruct fin; [|by apply counts_none]. apply counts_then; [done|apply counts_finish|intros]. unfold forget_stop_sending. uncounted.
    + apply counts_seq; [done|by uncounted|intros]. apply counts_seq; [done|unfold record; by uncounted|intros].
      apply counts_seq; [done|apply counts_or_abort, ungranting_stream_window|intros].
      destruct fin; [apply counts_finish|by apply counts_none].
  - unfold remove_channel, record, forget_stop_sending. apply counts_seq; [done|by uncounted|intros].
    apply counts_seq; [done|by uncounted|intros]. apply counts_then; [done|apply counts_account|intros; by uncounted].
Qed.

Lemma poll_event_takes s r s' :
  WtSession.poll_event s = (Ok r, s') ->
  match WtSession.events s with
  | [] => r = None /\ s' = s
  | e :: es => r = Some e /\ WtSession.events s' = es /\ as_allowed s s'
  end.
Proof.
  unfold WtSession.poll_event. rewrite bind_gets. destruct (WtSession.events s) as [|e es]; [by intros [= <- <-]|].
  rewrite bind_modify. intros (x & s1 & E1 & [= <- <-])%bind_inv_Ok. split; [done|].
  set (s0 := s <| WtSession.events := es |>) in E1.
  match type of E1 with ?m s0 = _ => assert (mute m) as Hm by mute; assert (ungranting m) as Hg by ungranting end.
  specialize (Hm s0). specialize (Hg s0). rewrite E1 in Hm, Hg. by split.
Qed.

(** Dispatching the events counts those that ended a stream. *)
Lemma counts_dispatch_loop b fuel es d d' :
  WtSession.events (wt_session d) = es -> dispatch_loop fuel d = (Ok tt, d') -> counter_ok b d ->
  closed_count b d' = saturating_add (closed_count b d) (ended b es) /\ as_allowed (wt_session d) (wt_session d').
Proof.
  revert es d. induction fuel as [|fuel IH]; intros es d Ee E Hc; [done|].
  cbn [dispatch_loop] in E. apply bind_inv_Ok in E as (ev & d1 & E1 & E).
  unfold on_wt, embed in E1. destruct (WtSession.poll_event (wt_session d)) as [[r|e|] s] eqn:Ep; [|done|done].
  assert (ev = r /\ d1 = d <| wt_session := s |>) as [-> ->] by (by injection E1 as <- <-).
  apply poll_event_takes in Ep. rewrite Ee in Ep. destruct es as [|e es].
  { destruct Ep as [-> ->]. assert (d' = d) as -> by (apply (f_equal snd) in E; destruct d; by symmetry).
    split; [|apply as_allowed_refl]. change (ended b []) with 0.
    unfold counter_ok, saturating_add, USIZE_MAX in *. lia. }
  destruct Ep as (-> & Es & As). apply bind_inv_Ok in E as ([] & d2 & E2 & E3). clear E1. set (d1 := d <| wt_session := s |>) in *.
  assert (counter_ok b d1) as Hc1 by done. destruct (counts_dispatch b e _ _ _ E2 Hc1) as [C2 A2].
  pose proof (still_dispatch e d1) as Hs. rewrite E2 in Hs. cbn [snd] in Hs.
  destruct (IH es d2) as [C3 A3]; [by rewrite Hs|done|exact (counted_ok _ _ _ _ (ends_nonneg b e) Hc1 C2)|].
  split; [|exact (as_allowed_trans _ _ _ As (as_allowed_trans _ _ _ A2 A3))].
  change (ended b (e :: es)) with (ends b e + ended b es). change (closed_count b d1) with (closed_count b d) in C2.
  pose proof (ends_nonneg b e). pose proof (ended_nonneg b es). unfold counter_ok, saturating_add, USIZE_MAX in *. lia.
Qed.

(** ** Windows of the session *)

Definition session_open (d : t) : Prop :=
  WtFlowControl.should_send_max_data (WtConfig.initial_max_data (WtSession.config (wt_session d)))
    (WtSession.flow_control (wt_session d)) = false.

(** Fewer than half of the streams the peer was first allowed have ended since
    it was last told of more. *)
Definition streams_open (b : bool) (d : t) : Prop :=
  let initial := initial_max_streams b (WtSession.config (wt_session d)) in
  initial = 0 \/ closed_count b d * 2 < initial.

Definition available (s : WtSession.t) : Z := WtFlowControl.recv_available (WtSession.flow_control s).

(** A method that receives nothing does not narrow the window. *)
Lemma mute_available {A} (m : ST WtSession.t WtError.t A) s r s' :
  mute m -> op m s -> m s = (r, s') ->
  available s <= available s' /\ WtSession.config s' = WtSession.config s.
Proof.
  intros Hm Hop E. specialize (Hm s). unfold op, wp in Hop. rewrite E in Hop, Hm. cbn [snd] in Hm.
  assert (good s s') as [_ He] by by destruct r. split; [|apply (ev_config _ _ He)].
  destruct (ev_events _ _ He) as (evs & Hev & Hoff), (ev_flow _ _ He). rewrite Hm in Hev.
  assert (evs = []) as -> by (destruct evs; [done|]; apply (f_equal length) in Hev; rewrite length_app in Hev; cbn in Hev; lia).
  cbn in Hoff. unfold available, WtFlowControl.recv_available, saturating_sub. lia.
Qed.

Lemma emit_flow c s : WtSession.flow_control (snd (WtSession.emit c s)) = WtSession.flow_control s.
Proof.
  unfold WtSession.emit, WtSession.on_encoder, bind, zoom. destruct (WtCapsule.CapsuleEncoder.encode c _) as [[[]|e|] x]; [|done|done].
  by destruct (WtCapsule.CapsuleEncoder.take _) as [[]].
Qed.

Lemma session_window_grants s s' :
  maybe_grow_session_window s = (Ok tt, s') -> wf s ->
  (exists n, grants_octets n s s') /\
  WtFlowControl.should_send_max_data (WtConfig.initial_max_data (WtSession.config s)) (WtSession.flow_control s') = false.
Proof.
  unfold maybe_grow_session_window. rewrite !bind_gets. intros E H. destruct (cfg_data _ (wf_config _ _ H)) as [Hn _].
  case_match eqn:Hlow; [|injection E as <-; split; [exists 0; apply grants_octets_refl|done]].
  apply (grow_recv_window_grants _ _ _ H Hn) in E as G. split; [by eexists|].
  destruct (WtFlowControl.wf_recv _ (wf_flow _ _ H)). destruct G as (Hm & _ & Ho & _).
  unfold allowed_octets, WtFlowControl.should_send_max_data, WtFlowControl.recv_available, saturating_sub in *.
  apply Z.ltb_lt in Hlow. apply Z.ltb_ge. Z.to_euclidean_division_equations. lia.
Qed.

(** The streams of the kind [b] the peer may have open, and those that ended
    since it was last told of more. *)
Definition streams_granted (b : bool) (d : t) : Z := allowed_streams b (wt_session d) + closed_count b d.

Lemma grow_max_streams_opens b d d' :
  maybe_grow_max_streams b d = (Ok tt, d') -> wf (wt_session d) -> 0 <= closed_count b d ->
  streams_open b d' /\ streams_granted b d' = streams_granted b d /\
  (exists n, grants_streams b n (wt_session d) (wt_session d')) /\ wf (wt_session d') /\
  conn d' = conn d /\ connect_stream_id d' = connect_stream_id d /\ closed_count (negb b) d' = closed_count (negb b) d /\
  available (wt_session d) <= available (wt_session d') /\ WtSession.config (wt_session d') = WtSession.config (wt_session d).
Proof.
  unfold maybe_grow_max_streams. rewrite bind_gets. intros E H Hc.
  assert (0 <= initial_max_streams b (WtSession.config (wt_session d))) as Hi by (destruct (wf_config _ _ H), b; cbn; lia).
  assert (forall x, d' = x -> x = d -> streams_open b d -> streams_open b d' /\ streams_granted b d' = streams_granted b d /\
    (exists n, grants_streams b n (wt_session d) (wt_session d')) /\ wf (wt_session d') /\
    conn d' = conn d /\ connect_stream_id d' = connect_stream_id d /\ closed_count (negb b) d' = closed_count (negb b) d /\
    available (wt_session d) <= available (wt_session d') /\ WtSession.config (wt_session d') = WtSession.config (wt_session d)) as K.
  { intros ? -> -> Ho. split_and!; try done. exists 0. apply grants_streams_refl. }
  case_match eqn:E0; [injection E as <-; apply (K d); [done..|left; lia]|]. rewrite bind_gets in E.
  case_match; [done|]. case_match eqn:E2; [|injection E as <-; apply (K d); [done..|right; lia]]. clear K.
  apply bind_inv_Ok in E as ([] & d1 & E1 & E). apply or_abort_Ok in E1 as (s & Es & ->).
  assert (d' = set_closed_count b 0 (d <| wt_session := s |>)) as -> by (by apply (f_equal snd) in E).
  pose proof (grow_max_streams_grants _ _ _ _ H Hc Es) as G. pose proof G as (Ga & _).
  pose proof (grow_max_streams_op (closed_count b d) b _ H Hc) as Hop.
  destruct (mute_available _ _ _ _ (mute_grow_streams _ b) Hop Es) as [Ha Hcfg].
  unfold op, wp in Hop. rewrite Es in Hop. destruct Hop as [Hs _].
  unfold streams_open, streams_granted. destruct b; (split_and!; [right; cbn in *; rewrite Hcfg; lia|cbn in *; lia|by eexists|done..]).
Qed.

(** ** The credit given back *)

Lemma return_window_credit n d d' :
  return_window n false d = (Ok tt, d') -> 0 <= n -> connect_stream_id d <> StreamId.Connection ->
  credited n (StreamId.as_u32 (connect_stream_id d)) n (inner_of d) (inner_of d') /\ exists c, d' = d <| conn := c |>.
Proof.
  unfold return_window. intros E Hn Hid. case_match.
  2:{ injection E as <-. assert (n = 0) as -> by lia. split; [apply uncredited_any, uncredited_refl|]. exists (conn d). by destruct d. }
  unfold bind at 1 in E. destruct (on_conn _ d) as [[[]|e|] d1] eqn:E1; [|done|done]. cbn [negb] in E. rewrite bind_gets in E.
  assert (forall id d1 d2, on_conn (TokioConnection.send_window_update id n) d1 = (Ok tt, d2) ->
    match id with StreamId.Connection => credited n 0 0 | _ => credited 0 (StreamId.as_u32 id) n end (inner_of d1) (inner_of d2) /\
    exists c, d2 = d1 <| conn := c |>) as K.
  { intros id da db Eab. split.
    - pose proof (send_window_update_credit id n (inner_of da)) as Hs.
      destruct id; (eapply on_conn_credit; [|exact Eab]); intros c'; apply tokio_credit; intros i Ei; exact (Hs i Ei).
    - unfold on_conn, zoom in Eab. destruct (TokioConnection.send_window_update id n (conn da)) as [r c]. injection Eab as _ <-. by exists c. }
  apply K in E1 as [H1 (c1 & ->)], E as [H2 (c2 & ->)]. split; [|by exists c2].
  change (connect_stream_id (d <| conn := c1 |>)) with (connect_stream_id d) in H2.
  set (sid := StreamId.as_u32 (connect_stream_id d)) in *.
  assert (credited 0 sid n (inner_of (d <| conn := c1 |>)) (inner_of (d <| conn := c1 |> <| conn := c2 |>))) as H2'
    by by destruct (connect_stream_id d).
  assert (credited n sid 0 (inner_of d) (inner_of (d <| conn := c1 |>))) as H1'.
  { destruct H1 as [H1 H1s]. split; [done|]. intros i s' Ei. destruct (H1s i s' Ei) as (s & ? & Hs). exists s. split; [done|]. repeat case_match; lia. }
  pose proof (credited_trans _ _ _ _ _ _ _ _ H1' H2') as H3. by rewrite Z.add_0_r in H3.
Qed.

Lemma dsafe_Ok {A} r x (X : M A) n m k d a d' :
  dsafe r x X d -> ok n m k d -> room_for n m r 0 -> k + x < 2 ^ 63 -> X d = (Ok a, d') ->
  ok (n + r * TokioConnection.RECV_BUF_SIZE) m (k + x) d'.
Proof. intros HX H Hr Hk E. specialize (HX n m k H Hr Hk). rewrite E in HX. apply HX. Qed.

(** The handling of a DATA event in its three parts. *)
Definition take_in (data : list Z) : M unit :=
  or_abort (WtSession.feed data) ;! or_abort WtSession.process ;! dispatch_events ;! respond_to_close.
Definition open_windows : M unit :=
  or_abort maybe_grow_session_window ;! maybe_grow_max_streams true ;! maybe_grow_max_streams false.

Lemma handle_data_parts data d :
  len data <= U32_MAX ->
  handle_data_received data false d =
    (take_in data ;! open_windows ;! return_window (len data) false ;! flush_wt_output) d.
Proof.
  intros Hl. unfold handle_data_received. replace (len data >? U32_MAX) with false by lia.
  unfold take_in, open_windows, bind, ret. repeat (case_match; simplify_eq/=; try done).
  by repeat match goal with u : unit |- _ => destruct u end.
Qed.

Lemma take_in_Ok n m k data d d' :
  ok n m k d -> room_for n m 0 0 -> k + len data < 2 ^ 63 -> bytes_ok data -> take_in data d = (Ok tt, d') ->
  ok n m (k + len data) d' /\ conn d' = conn d /\ connect_stream_id d' = connect_stream_id d.
Proof.
  intros H Hr Hk Hb E. pose proof (len_nonneg data) as Hn. split.
  - rewrite <- (Z.add_0_r n), <- (Z.mul_0_l TokioConnection.RECV_BUF_SIZE).
    eapply dsafe_Ok; [|exact H|exact Hr|exact Hk|exact E]. unfold take_in.
    apply (dsafe_then 0); [done|done| |intros].
    { apply or_abort_safe; [done|intros; by apply feed_op|intros; by apply feed_weight]. }
    apply dsafe_seq; [done| |intros; apply dsafe_seq; [done|apply dispatch_events_safe|intros; apply respond_safe]].
    apply or_abort_safe; [done|intros; by apply process_op|]. intros Hw. pose proof (process_weight _ Hw). lia.
  - revert E. apply aside_bind; [apply aside_or_abort|intros]. apply aside_bind; [apply aside_or_abort|intros].
    apply aside_bind; [|intros; apply aside_respond]. unfold dispatch_events. apply aside_bind; [aside|apply aside_dispatch_loop].
Qed.

Lemma open_windows_Ok d d' :
  wf (wt_session d) -> 0 <= peer_closed_bidi_count d -> 0 <= peer_closed_uni_count d ->
  open_windows d = (Ok tt, d') ->
  session_open d' /\ (forall b, streams_open b d' /\ streams_granted b d' = streams_granted b d) /\
  WtSession.output_buffer (wt_session d') = WtSession.output_buffer (wt_session d) ++ wires (told (wt_session d) (wt_session d')) /\
  conn d' = conn d /\ connect_stream_id d' = connect_stream_id d.
Proof.
  intros H Hb Hu. unfold open_windows. intros ([] & d1 & E1 & E)%bind_inv_Ok. apply bind_inv_Ok in E as ([] & d2 & E2 & E3).
  apply or_abort_Ok in E1 as (s & Es & ->).
  pose proof (session_window_op _ H) as Hs. unfold op, wp in Hs. rewrite Es in Hs. destruct Hs as [Hs1 _].
  destruct (session_window_grants _ _ Es H) as [[n Hn] Ho].
  destruct (mute_available _ _ _ _ mute_session_window (session_window_op _ H) Es) as [_ Hcfg].
  set (d1 := d <| wt_session := s |>) in *.
  destruct (grow_max_streams_opens true d1 d2 E2 Hs1 Hb) as (Hsb & Hgb & [nb Hnb] & H2 & Hc2 & Hi2 & Hu2 & Ha2 & Hg2).
  cbn [negb closed_count] in Hu2. assert (0 <= peer_closed_uni_count d2) as Hu' by by rewrite Hu2.
  destruct (grow_max_streams_opens false d2 d' E3 H2 Hu') as (Hsu & Hgu & [nu Hnu] & H3 & Hc3 & Hi3 & Hb3 & Ha3 & Hg3). cbn [negb closed_count] in Hb3.
  split_and!; [| |exact (grants_told _ _ _ _ _ _ _ Hn Hnb Hnu)|by rewrite Hc3, Hc2|by rewrite Hi3, Hi2].
  - unfold session_open, WtFlowControl.should_send_max_data, available in *. rewrite Hg3, Hg2.
    change (WtSession.config (wt_session d1)) with (WtSession.config s). rewrite Hcfg. change (wt_session d1) with s in *. zbool. lia.
  - destruct Hn as (_ & Hns & _), Hnb as (_ & Hnb & _), Hnu as (_ & Hnu & _). cbn [negb] in *.
    unfold streams_open, streams_granted in *. cbn [closed_count] in *. change (wt_session d1) with s in *.
    change (peer_closed_bidi_count d1) with (peer_closed_bidi_count d) in *. change (peer_closed_uni_count d1) with (peer_closed_uni_count d) in *.
    intros []; cbn [closed_count].
    + split; [by rewrite Hg3, Hb3|]. rewrite Hb3, Hnu, Hgb, Hns. done.
    + split; [done|]. rewrite Hgu, Hnb, Hns, Hu2. done.
Qed.

(** What a DATA event made of the session's events. *)
Definition reports (data : list Z) (s : WtSession.t) (evs : list WtEvent.t) : Prop :=
  exists x s0 s1, WtSession.feed data s = (Ok x, s0) /\ WtSession.process s0 = (Ok tt, s1) /\ WtSession.events s1 = evs.

(** Every stream that ended is counted, whatever the session had reported of it. *)
Lemma take_in_counts n m k data d d' :
  ok n m k d -> k + len data < 2 ^ 63 -> ok n m (k + len data) d' -> take_in data d = (Ok tt, d') ->
  exists evs, reports data (wt_session d) evs /\
    forall b, streams_granted b d' = streams_granted b d + ended b evs /\
      allowed_streams b (wt_session d') = allowed_streams b (wt_session d) /\
      allowed_octets (wt_session d') = allowed_octets (wt_session d).
Proof.
  intros H Hk H' (x & d1 & E1 & E)%bind_inv_Ok. apply or_abort_Ok in E1 as (s1 & Ef & ->).
  apply bind_inv_Ok in E as ([] & d2 & E2 & E). apply or_abort_Ok in E2 as (s2 & Ep & ->).
  apply bind_inv_Ok in E as ([] & d3 & E3 & E4). exists (WtSession.events s2). split; [by exists x, s1, s2|].
  pose proof (ungranting_feed data (wt_session d)) as A1. pose proof (ungranting_process s1) as A2. rewrite Ef in A1. 
  change (WtSession.process s1 = (Ok tt, s2)) in Ep. rewrite Ep in A2. cbn [snd] in A1, A2.
  assert (d' = d3) as ->. { revert E4. unfold respond_to_close. rewrite !bind_gets. case_match; [|by intros [= <-]].
    rewrite bind_gets. intros (? & ? & _ & E4)%bind_inv_Ok. by apply bind_inv_Ok in E4 as (? & ? & _ & ?). }
  intros b. unfold dispatch_events in E3. rewrite bind_gets in E3.
  destruct H as [_ _ _ _ Hb Hu Hw], H' as [_ _ _ _ Hb' Hu' Hw'].
  assert (forall s, 0 <= weight s) as Hw0.
  { intros s. unfold weight. pose proof (closing_nonneg (WtSession.events s)). pose proof (len_nonneg (waiting s)). lia. }
  pose proof (Hw0 (wt_session d)). pose proof (Hw0 (wt_session d3)). pose proof (len_nonneg data).
  destruct (counts_dispatch_loop b _ _ _ _ eq_refl E3) as [C A3].
  { unfold counter_ok, USIZE_MAX. destruct b; cbn; lia. }
  pose proof (as_allowed_trans _ _ _ A1 (as_allowed_trans _ _ _ A2 A3)) as [Ao As]. split_and!; [|apply As|done].
  unfold streams_granted. rewrite As. pose proof (ended_nonneg b (WtSession.events s2)).
  change (closed_count b _) with (closed_count b d) in C at 2. cbn in C.
  unfold saturating_add, USIZE_MAX in C. destruct b; cbn [closed_count] in *; lia.
Qed.

(** C10: The peer may go on sending. When the octets of a DATA event were handled,
    the driver has given back their credit in both layers: the receive windows of
    the connection and of the CONNECT stream have grown by exactly the octets, and
    no other receive window changed; the window of the session is at least half
    its initial size. No stream that ended is lost from the account: for either
    kind, what the client may open and what is counted as ended and not yet given
    back have together grown by exactly the streams that the events of this data
    end, and fewer than half of those first allowed are left to be given back
    (when any were allowed). And the client is told: before the last flush, which
    succeeds, the session's output ends with the capsules that carry every limit of
    the session that changed. A stream counts as ended when
    its receiving half ends (with FIN or a reset) and the client opened it; the
    sending half of a bidirectional one may still be open
    ([DriverFindings.half_closed_streams_are_counted]). *)
Theorem handled_data_returns_credit (n m k : Z) (data : list Z) (d d' : t) :
  ok n m k d -> room_for n m 0 0 -> k + len data < 2 ^ 63 -> bytes_ok data -> len data <= MAX_WINDOW_SIZE ->
  connect_stream_id d <> StreamId.Connection -> handle_data_received data false d = (Ok tt, d') ->
  credited (len data) (StreamId.as_u32 (connect_stream_id d)) (len data) (inner_of d) (inner_of d') /\
  session_open d' /\
  (exists evs, reports data (wt_session d) evs /\
     forall b, streams_open b d' /\ streams_granted b d' = streams_granted b d + ended b evs) /\
  (exists d2 before, flush_wt_output d2 = (Ok tt, d') /\
     WtSession.output_buffer (wt_session d2) = before ++ wires (told (wt_session d) (wt_session d'))).
Proof.
  intros H Hr Hk Hb Hl Hid. pose proof (len_nonneg data) as Hn. unfold MAX_WINDOW_SIZE in Hl.
  rewrite handle_data_parts by (unfold U32_MAX; lia). intros ([] & d1 & E1 & E)%bind_inv_Ok.
  destruct (take_in_Ok _ _ _ _ _ _ H Hr Hk Hb E1) as (H1 & Hc1 & Hi1).
  destruct (take_in_counts _ _ _ _ _ _ H Hk H1 E1) as (evs & Hevs & Hcounts).
  apply bind_inv_Ok in E as ([] & d2 & E2 & E).
  apply open_windows_Ok in E2 as (Hs & Hopen & Hout & Hc2 & Hi2); [|exact (ok_wt _ _ _ _ H1)|exact (ok_bidi _ _ _ _ H1)|exact (ok_uni _ _ _ _ H1)].
  apply bind_inv_Ok in E as ([] & d3 & E3 & E4).
  apply return_window_credit in E3 as [Hcr (c & ->)]; [|done|by rewrite Hi2, Hi1].
  pose proof E4 as Eflush. apply flush_credit in E4 as [Hf (c' & out & ->)]. split_and!; [|exact Hs| |].
  - rewrite Hi2, Hi1 in Hcr. assert (inner_of d2 = inner_of d) as Ei by (unfold inner_of; congruence). rewrite Ei in Hcr.
    pose proof (credited_trans _ 0 _ _ 0 _ _ _ Hcr (uncredited_any _ _ _ Hf)) as K. by rewrite !Z.add_0_r in K.
  - exists evs. split; [done|]. intros b. destruct (Hopen b) as [Ho Hg], (Hcounts b) as [Hg' _]. split; [exact Ho|].
    rewrite <- Hg', <- Hg. done.
  - eexists _, _. split; [exact Eflush|]. refine (eq_trans Hout _). f_equal.
    destruct (Hcounts true) as (_ & Ht & Ha), (Hcounts false) as (_ & Hf' & _).
    unfold told, octets_told, streams_told. by rewrite Ha, Ht, Hf'.
Qed.
End driver.

Import Driver.

Lemma handled_data_returns_credit_witness :
  exists d', @handle_data_received script_transport session_octets false wt_driver = (Ok tt, d') /\
    credited (len session_octets) (StreamId.as_u32 (connect_stream_id wt_driver)) (len session_octets)
      (inner_of wt_driver) (inner_of d') /\
    session_open d' /\
    (exists evs, @reports session_octets (wt_session wt_driver) evs /\
       forall b, streams_open b d' /\ streams_granted b d' = streams_granted b wt_driver + ended b evs) /\
    (exists d2 before, @flush_wt_output script_transport d2 = (Ok tt, d') /\
       WtSession.output_buffer (wt_session d2) = before ++ wires (told (wt_session wt_driver) (wt_session d'))).
Proof.
  destruct (@handle_data_received script_transport session_octets false wt_driver) as [o d'] eqn:E.
  assert (o = Ok tt) as -> by (apply (f_equal fst) in E; vm_compute in E; symmetry; exact E).
  exists d'. split; [reflexivity|].
  apply (@handled_data_returns_credit script_transport script_laws key_order key_order_laws
    (total_reads wt_operations * TokioConnection.RECV_BUF_SIZE) 1 0 session_octets wt_driver d' wt_driver_ok); [..|exact E].
  - clear. by vm_compute.
  - clear. by vm_compute.
  - clear. repeat constructor; by vm_compute.
  - clear. by vm_compute.
  - clear. by vm_compute.
Defined.
