(* ===== verification/DriverDeliver.v ===== *)
(** * DriverDeliver: what the application reads

    Every stream has a channel of its own, and what a client's session wrote to
    a stream is what the application reads from it. *)

From S2P Require Import Prelude Errors StreamIds Config Flow Syntax HpackTable HpackCodec Validation Stream ConnBase ConnHeaders.
From S2P Require Import ConnRecv ConnInv ConnSafe ConnSample ConnHandle ConnApi ConnEvents ConnOutput.
From S2P Require Import WtVarint WtStream WtCapsule WtCodec WtInit WtProtocols WtSession WtInv WtSafe WtLoop WtApi WtDeliver WtStreams WtClosing.
From S2P Require Import Tokio TokioWire TokioApi Driver DriverSample DriverSafe DriverAccept DriverWindows.
Import WtInvariant.

(** The packets sent into a channel, in order. *)
Definition packet_of (ch : Z) (e : Effect.t) : option StreamPacket.t :=
  match e with Effect.Packet c p => if c =? ch then Some p else None | _ => None end.
Definition packets (ch : Z) (log : list Effect.t) : list StreamPacket.t := omap (packet_of ch) log.

Lemma packets_app ch l l' : packets ch (l ++ l') = packets ch l ++ packets ch l'.
Proof. unfold packets. induction l as [|e l IH]; [done|]. cbn. rewrite IH. by destruct (packet_of ch e). Qed.

Lemma packets_none ch log : (forall p, Effect.Packet ch p ∉ log) -> packets ch log = [].
Proof.
  intros H. unfold packets. induction log as [|e log IH]; [done|]. cbn.
  assert (packet_of ch e = None) as ->.
  { destruct e as [c p| | | | |]; try done. cbn. case_match; [|done]. assert (c = ch) as -> by lia. destruct (H p). by left. }
  apply IH. intros p Hp. apply (H p). by right.
Qed.

(** [recv] called once per packet. *)
Fixpoint recv_each (ps : list StreamPacket.t) : ST RecvStream.t TokioError.t (list (option (list Z))) :=
  match ps with
  | [] => ret []
  | p :: ps =>
      let! o := RecvStream.recv (Some p) in
      let! os := recv_each ps in
      ret (o :: os)
  end.

(** The packets of some pieces of which the last may end the stream. *)
Definition packets_of (pieces : list (list Z)) (last : list Z) (fin : bool) : list StreamPacket.t :=
  map (fun p => StreamPacket.Data p false) pieces ++ [StreamPacket.Data last fin].

Lemma recv_pieces pieces last fin s :
  RecvStream.recv_finished s = false ->
  recv_each (packets_of pieces last fin) s =
    (Ok (map Some (pieces ++ [last])), s <| RecvStream.recv_finished := fin |>).
Proof.
  intros Hs. induction pieces as [|p pieces IH]; cbn [packets_of map app recv_each].
  - unfold RecvStream.recv, bind, gets, modify, ret. rewrite Hs. destruct fin; [done|]. destruct s. cbn in *. by subst.
  - unfold RecvStream.recv at 1, bind at 1. rewrite bind_gets, Hs, bind_ret. cbn [ret]. unfold bind. fold (packets_of pieces last fin).
    by rewrite IH.
Qed.

Section driver.
Context {T : Transport} {TL : TransportLaws T} {HO : Connection.HashOrder} {HOL : Connection.HashOrderLaws HO}.
Import Driver.

(** ** Channels are private *)

(** The channels handed out so far bound those in the map and in the log, and
    no two streams share one. *)
Record private (d : t) : Prop := {
  pv_map : forall id ch, stream_channels d !! id = Some ch -> 0 <= ch < next_channel d;
  pv_log : forall ch p, Effect.Packet ch p ∈ effects d -> 0 <= ch < next_channel d;
  pv_apart : forall i j ch, stream_channels d !! i = Some ch -> stream_channels d !! j = Some ch -> i = j;
  pv_next : 0 <= next_channel d
}.

(** *** What is handed to the application *)

(** The stream and the channel whose receiver an effect hands out. *)
Definition hands (e : Effect.t) : option (Z * Z) :=
  match e with
  | Effect.AcceptBidi s | Effect.AcceptUni s | Effect.Acked _ (Ok (Reply.Bidi s)) =>
      Some (RecvStream.stream_id s, RecvStream.data_rx s)
  | _ => None
  end.
Definition handed_out (log : list Effect.t) : list (Z * Z) := omap hands log.

Lemma handed_out_app l l' : handed_out (l ++ l') = handed_out l ++ handed_out l'.
Proof. unfold handed_out. induction l as [|e l IH]; [done|]. cbn. rewrite IH. by destruct (hands e). Qed.
Lemma handed_out_snoc e l : handed_out (l ++ [e]) = handed_out l ++ match hands e with Some h => [h] | None => [] end.
Proof. rewrite handed_out_app. unfold handed_out. cbn. by destruct (hands e). Qed.

(** Each channel is handed out at most once, and before anything is sent into it. *)
Record announced (d : t) : Prop := {
  an_packets : forall before ch p after,
    effects d = before ++ Effect.Packet ch p :: after -> ch ∈ (handed_out before).*2;
  an_once : NoDup (handed_out (effects d)).*2;
  an_range : forall id ch, (id, ch) ∈ handed_out (effects d) -> 0 <= ch < next_channel d
}.

(** The channels in use were handed out, each as that of its stream. *)
Definition in_use (d : t) : Prop :=
  forall id ch, stream_channels d !! id = Some ch -> (id, ch) ∈ handed_out (effects d).

Definition sealed (d : t) : Prop := private d /\ announced d /\ in_use d.

(** ** What every method keeps *)

(** Neither a packet nor a stream for the application. *)
Definition silent (e : Effect.t) : Prop := hands e = None /\ forall ch p, e <> Effect.Packet ch p.

Definition logged (e : Effect.t) (d : t) : t := d <| effects := effects d ++ [e] |>.
Definition forgotten (id : Z) (d : t) : t := d <| stream_channels := delete id (stream_channels d) |>.

(** A property of the channels and of the log that the single steps keep. *)
Class Kept (P : t -> Prop) := {
  kept_same : forall d d', stream_channels d' = stream_channels d -> effects d' = effects d -> next_channel d' = next_channel d -> P d -> P d';
  kept_log : forall e d, silent e -> P d -> P (logged e d);
  kept_remove : forall id d, P d -> P (forgotten id d);
  kept_packet : forall id ch p d, stream_channels d !! id = Some ch -> P d -> P (logged (Effect.Packet ch p) d);
  kept_opened : forall id b d, P d -> P (snd (dispatch_wt_event (WtEvent.StreamOpened id b) d))
}.

Section kept.
Context (P : t -> Prop) {K : Kept P}.

Definition tidy {A} (X : M A) : Prop := forall d, P d -> P (snd (X d)).

Lemma tidy_bind {A B} (X : M A) (k : A -> M B) : tidy X -> (forall a, tidy (k a)) -> tidy (bind X k).
Proof using Type. intros HX Hk d H. specialize (HX d H). unfold bind. destruct (X d) as [[a|e|] d']; [by apply Hk|done|done]. Qed.
Lemma tidy_same {A} (X : M A) :
  (forall d, stream_channels (snd (X d)) = stream_channels d /\ effects (snd (X d)) = effects d /\ next_channel (snd (X d)) = next_channel d) ->
  tidy X.
Proof using K. intros HX d H. destruct (HX d) as (E1 & E2 & E3). by apply (kept_same d). Qed.
Lemma tidy_record e : silent e -> tidy (record e).
Proof using K. intros He d H. by apply (kept_log e d). Qed.
Lemma tidy_outcome {A} (X : M A) : tidy X -> tidy (outcome X).
Proof using Type. intros HX d H. specialize (HX d H). unfold outcome. by destruct (X d) as [[a|[e|]|] d']. Qed.
Lemma tidy_conn {A} (X : TokioConnection.M A) : tidy (on_conn X).
Proof using K. apply tidy_same. intros d. unfold on_conn, zoom. by destruct (X (conn d)). Qed.
Lemma tidy_wt {A} (m : ST WtSession.t WtError.t A) : tidy (on_wt m).
Proof using K. apply tidy_same. intros d. unfold on_wt, embed. by destruct (m (wt_session d)). Qed.
Lemma tidy_try {A} (m : ST WtSession.t WtError.t A) : tidy (try_wt m).
Proof using K. apply tidy_same. intros d. unfold try_wt. by destruct (m (wt_session d)) as [[]]. Qed.
Lemma tidy_chunks id l : tidy (send_chunks id l).
Proof using K. induction l as [|c l IH]; [by apply tidy_same|]. apply tidy_bind; [apply tidy_conn|]. by intros. Qed.
Lemma tidy_drop o : tidy (drop_sender o).
Proof using K. destruct o; [by apply tidy_record|by apply tidy_same]. Qed.
Lemma tidy_remove id : tidy (remove_channel id).
Proof using K. intros d H. by apply (kept_remove id d). Qed.

Ltac tidy :=
  repeat first
    [ apply tidy_conn | apply tidy_wt | apply tidy_try | apply tidy_outcome | apply tidy_chunks | apply tidy_drop | apply tidy_remove
    | apply tidy_record; split; [reflexivity|intros; discriminate]
    | apply tidy_same; intros; split_and!; reflexivity
    | apply tidy_same; intros d; unfold modify, set_closed_count; cbn [snd]; by case_match
    | apply tidy_bind; [|intros] | case_match ].

Lemma tidy_data {A} id p (k : M A) :
  tidy k ->
  tidy (let! ch := gets (fun d => stream_channels d !! id) in
        match ch with Some ch => record (Effect.Packet ch p) | None => ret tt end ;! k).
Proof using K.
  intros Hk d H. rewrite bind_gets. destruct (stream_channels d !! id) as [ch|] eqn:E; [|by apply Hk].
  apply Hk. by apply (kept_packet id ch p d).
Qed.

(** The last packet of a channel. *)
Lemma tidy_reset {A} id code (k : M A) :
  tidy k ->
  tidy (let! ch := remove_channel id in
        match ch with
        | Some ch => record (Effect.Packet ch (StreamPacket.Reset code)) ;! record (Effect.SenderDropped ch)
        | None => ret tt
        end ;! k).
Proof using K.
  intros Hk d H. unfold remove_channel. rewrite bind_assoc, bind_gets, bind_assoc, bind_modify, bind_ret.
  destruct (stream_channels d !! id) as [ch|] eqn:E; [|by apply Hk, (kept_remove id d)].
  apply Hk. apply (kept_log (Effect.SenderDropped ch)); [done|].
  apply (kept_remove id (logged (Effect.Packet ch (StreamPacket.Reset code)) d)). by apply (kept_packet id).
Qed.

Lemma tidy_or_abort {A} (m : ST WtSession.t WtError.t A) : tidy (or_abort m).
Proof using K. unfold or_abort, abort_session_with_wt_error. tidy. Qed.

Lemma tidy_account id : tidy (account_peer_stream_closed id).
Proof using K. unfold account_peer_stream_closed. tidy. Qed.

Lemma tidy_dispatch ev : tidy (dispatch_wt_event ev).
Proof using K.
  destruct ev as [id b|id data fin|id code| | | |]; [intros d; apply (kept_opened id b d)|..]; cbn [dispatch_wt_event];
    unfold finish_stream, forget_stop_sending; try (tidy; fail).
  - apply tidy_bind; [by apply tidy_same|]. intros stopped. destruct stopped; [destruct fin; tidy; apply tidy_account|].
    apply tidy_data, tidy_bind; [apply tidy_or_abort|]. intros. destruct fin; tidy. apply tidy_account.
  - apply tidy_reset, tidy_bind; [apply tidy_account|]. intros. tidy.
Qed.

Lemma tidy_dispatch_loop fuel : tidy (dispatch_loop fuel).
Proof using K.
  induction fuel as [|fuel IH]; cbn [dispatch_loop]; [tidy|]. apply tidy_bind; [tidy|].
  intros [e|]; [|tidy]. apply tidy_bind; [apply tidy_dispatch|done].
Qed.

Lemma tidy_flush : tidy flush_wt_output.
Proof using K. unfold flush_wt_output. cbn [flush_wt_output_loop]. tidy. Qed.

Lemma tidy_grow b : tidy (maybe_grow_max_streams b).
Proof using K. unfold maybe_grow_max_streams. repeat first [apply tidy_or_abort | progress tidy]. Qed.

Lemma tidy_event ev : tidy (handle_event ev).
Proof using K.
  assert (forall data es, tidy (handle_data_received data es)) as H.
  { intros. unfold handle_data_received, respond_to_close, return_window, dispatch_events.
    repeat first [apply tidy_or_abort | apply tidy_grow | apply tidy_flush | apply tidy_dispatch_loop | progress tidy]. }
  unfold handle_event. tidy; apply H.
Qed.

(** An answer that hands no stream out. *)
Definition plain (r : result TokioError.t Reply.t) : Prop := forall s, r <> Ok (Reply.Bidi s).
Definition plainly (X : M (result TokioError.t Reply.t)) : Prop := forall d r d', X d = (Ok r, d') -> plain r.

Lemma plain_silent ack r : plain r -> silent (Effect.Acked ack r).
Proof using Type. intros Hr. split; [|done]. destruct r as [[|s| |]|e|]; try done. by destruct (Hr s). Qed.

Lemma tidy_bind_plainly {A} (X : M (result TokioError.t Reply.t)) (k : result TokioError.t Reply.t -> M A) :
  tidy X -> plainly X -> (forall r, plain r -> tidy (k r)) -> tidy (bind X k).
Proof using Type.
  intros HX Hp Hk d H. specialize (HX d H). specialize (Hp d). unfold bind. destruct (X d) as [[r|e|] d']; [|done|done].
  apply Hk; [by eapply Hp|done].
Qed.

Lemma tidy_result res ack : plain res -> tidy (send_cmd_result res ack).
Proof using K.
  intros Hr. unfold send_cmd_result. destruct res as [v|e|]; [|tidy..]. apply tidy_bind; [apply tidy_outcome, tidy_flush|].
  intros [u|e|]; [|tidy..]. apply tidy_bind; [by apply tidy_record, plain_silent|]. intros. tidy.
Qed.

Lemma run_wt_plainly {A} (m : ST WtSession.t WtError.t A) : plainly (run_wt m).
Proof using Type.
  intros d r d'. unfold run_wt, outcome, bind, on_wt, embed. by destruct (m (wt_session d)) as [[a|e|] s]; intros [= <- _].
Qed.

Lemma export_plain label ctx length d : plain (export label ctx length d).
Proof using Type.
  intros s. unfold export, serialize_exporter_context, vec_zeroed. destruct (length =? 0); [done|].
  destruct (len label >? 255); [done|]. destruct (len ctx >? 255); [done|]. cbn. destruct (length <=? ISIZE_MAX); [|done].
  by destruct (TokioConnection.with_tls _ _).
Qed.

(** Every command but the one that opens a bidirectional stream. *)
Lemma tidy_cmd cmd : (forall ack, cmd <> DriverCmd.OpenBidi ack) -> tidy (handle_cmd cmd).
Proof using K.
  intros Hcmd. assert (forall {A} (m : ST WtSession.t WtError.t A), tidy (run_wt m)) as Hrun by (intros; unfold run_wt; tidy).
  destruct cmd as [id data fin ack|ack|ack|data ack|id code ack|id code ack|code reason ack|ack|label ctx len ack];
    cbn [handle_cmd]; [| by destruct (Hcmd ack)|..];
    try (apply tidy_bind_plainly; [apply Hrun|apply run_wt_plainly|intros; by apply tidy_result]; fail).
  - apply tidy_bind_plainly; [tidy| |intros; by apply tidy_result]. intros d r d'.
    unfold outcome, bind, on_wt, embed. by destruct (WtSession.open_uni_stream (wt_session d)) as [[a|e|] s]; intros [= <- _].
  - apply tidy_bind_plainly; [apply Hrun|apply run_wt_plainly|intros]. apply tidy_bind; [unfold note_stop_sending; tidy|].
    intros. by apply tidy_result.
  - apply tidy_bind_plainly; [apply Hrun|apply run_wt_plainly|intros res Hres].
    assert (tidy close_output) as Hclose by (unfold close_output; repeat first [apply tidy_flush | progress tidy]).
    apply tidy_bind_plainly; [destruct (is_ok res); [done|tidy]| |intros; apply tidy_bind; [by apply tidy_record, plain_silent|intros; tidy]].
    destruct (is_ok res); [|by intros d r d' [= <- _]]. intros d r d'. unfold close_output. rewrite bind_gets.
    intros (f & d1 & _ & E)%bind_inv_Ok. destruct f as [u|e|]; [|by injection E as <- _|done].
    apply bind_inv_Ok in E as (g & d2 & _ & E). destruct g as [u'|e|]; [|by injection E as <- _|done].
    rewrite bind_gets in E. by case_match; injection E as <- _.
  - intros d H. rewrite bind_gets. pose proof (export_plain label ctx len d) as Hp.
    destruct (export label ctx len d); [..|done]; (apply tidy_bind; [by apply tidy_record, plain_silent|intros; tidy|done]).
Qed.

Lemma tidy_wait reads : tidy (take_turn (Wait reads)).
Proof using K.
  cbn [take_turn]. apply tidy_bind.
  - intros d H. pose proof (tidy_conn (TokioConnection.next_event reads) d H) as H1.
    by destruct (on_conn _ d) as [[ev|[e|]|] d1].
  - intros [[ev|e|]|]; [apply tidy_bind; [apply tidy_event|]; intros; tidy|tidy..].
Qed.

Lemma tidy_turn x : (forall ack, x <> Command (DriverCmd.OpenBidi ack)) -> tidy (take_turn x).
Proof using K.
  intros Hx. destruct x as [cmd| |reads]; [|cbn [take_turn]; tidy|apply tidy_wait]. apply tidy_cmd.
  intros ack ->. by apply (Hx ack).
Qed.
End kept.

(** *** A stream opens *)

(** The driver with a new channel for a stream. *)
Definition with_channel (id : Z) (d : t) : t :=
  let d1 := d <| next_channel := next_channel d + 1 |> <| stream_channels := <[id := next_channel d]> (stream_channels d) |> in
  match stream_channels d !! id with Some old => logged (Effect.SenderDropped old) d1 | None => d1 end.

Lemma open_channel_eq {A} id (k : Z -> M A) d :
  (let! ch := unbounded_channel in insert_channel id ch ;! k ch) d = k (next_channel d) (with_channel id d).
Proof.
  unfold unbounded_channel, insert_channel, with_channel.
  rewrite bind_assoc, bind_gets, bind_assoc, bind_modify, bind_ret, bind_assoc, bind_gets, bind_assoc, bind_modify.
  cbn [stream_channels next_channel set_field]. by destruct (stream_channels d !! id).
Qed.

Lemma with_channel_map id d i ch :
  stream_channels (with_channel id d) !! i = Some ch -> (i = id /\ ch = next_channel d) \/ stream_channels d !! i = Some ch.
Proof.
  assert (stream_channels (with_channel id d) = <[id := next_channel d]> (stream_channels d)) as ->
    by (unfold with_channel; by case_match).
  destruct (decide (i = id)) as [->|Hi]; [rewrite lookup_insert_eq; intros [= <-]; by left|].
  rewrite lookup_insert_ne by done. by right.
Qed.
Lemma with_channel_next id d : next_channel (with_channel id d) = next_channel d + 1.
Proof. unfold with_channel. by case_match. Qed.
Lemma with_channel_log id d :
  handed_out (effects (with_channel id d)) = handed_out (effects d) /\
  forall ch p, Effect.Packet ch p ∈ effects (with_channel id d) -> Effect.Packet ch p ∈ effects d.
Proof.
  unfold with_channel. case_match; [|done]. cbn. rewrite handed_out_snoc, app_nil_r. split; [done|].
  intros ch p [H1|H1]%elem_of_app; [done|]. by apply list_elem_of_singleton in H1.
Qed.

Lemma private_channel id d : private d -> private (with_channel id d).
Proof.
  intros []. destruct (with_channel_log id d) as [_ Hlog]. constructor; rewrite ?with_channel_next.
  - intros i ch [[_ ->]|E]%with_channel_map; [lia|]. specialize (pv_map0 i ch E). lia.
  - intros ch p H. specialize (pv_log0 ch p (Hlog _ _ H)). lia.
  - intros i j ch [[-> Ec]|Ei]%with_channel_map [[-> Ec']|Ej]%with_channel_map; [done| | |by eapply pv_apart0].
    + specialize (pv_map0 j _ Ej). lia.
    + specialize (pv_map0 i _ Ei). lia.
  - lia.
Qed.

#[export] Instance private_kept : Kept private.
Proof.
  assert (forall e d, (forall ch p, e <> Effect.Packet ch p) -> private d -> private (logged e d)) as Hlog.
  { intros e d He []. constructor; try done. cbn. intros ch p [H|H]%elem_of_app; [by eapply pv_log0|].
    apply list_elem_of_singleton in H. by destruct (He ch p). }
  constructor.
  - intros d d' E1 E2 E3 []. constructor; by rewrite ?E1, ?E2, ?E3.
  - intros e d [_ He]. by apply Hlog.
  - intros id d []. constructor; cbn; try done.
    + intros i ch [_ E]%lookup_delete_Some. by eapply pv_map0.
    + intros i j ch [_ Ei]%lookup_delete_Some [_ Ej]%lookup_delete_Some. by eapply pv_apart0.
  - intros id ch p d E []. constructor; try done. cbn. intros c q [H|H]%elem_of_app; [by eapply pv_log0|].
    apply list_elem_of_singleton in H. injection H as -> ->. by eapply pv_map0.
  - intros id b d H. cbn [dispatch_wt_event]. rewrite open_channel_eq. apply Hlog; [by destruct b|by apply private_channel].
Qed.

(** *** Nothing goes into a channel the application was not given *)

(** A new channel that is not handed out yet. *)
Definition pending (id : Z) (d d1 : t) : Prop :=
  stream_channels d1 = stream_channels (with_channel id d) /\ effects d1 = effects (with_channel id d) /\
  next_channel d1 = next_channel (with_channel id d).

Lemma announced_log e d :
  (forall ch p, e = Effect.Packet ch p -> ch ∈ (handed_out (effects d)).*2) ->
  (forall id ch, hands e = Some (id, ch) -> 0 <= ch < next_channel d /\ ch ∉ (handed_out (effects d)).*2) ->
  announced d -> announced (logged e d).
Proof.
  intros Hp Hh []. constructor; cbn [effects logged set_field next_channel].
  - intros before ch p after E. destruct after as [|x after _] using rev_ind.
    + apply app_inj_tail in E as [<- ->]. by eapply Hp.
    + rewrite app_comm_cons, app_assoc in E. apply app_inj_tail in E as [E _]. by eapply an_packets0.
  - rewrite handed_out_snoc. destruct (hands e) as [[i c]|] eqn:E; [|by rewrite app_nil_r]. rewrite fmap_app.
    apply NoDup_app. split_and!; [done| |apply NoDup_singleton]. intros x Hx [->|Hn]%elem_of_cons; [|by apply elem_of_nil in Hn].
    by destruct (Hh _ _ eq_refl).
  - intros i c. rewrite handed_out_snoc. intros [H|H]%elem_of_app; [by eapply an_range0|].
    destruct (hands e) as [[i' c']|] eqn:E; [|by apply elem_of_nil in H]. apply list_elem_of_singleton in H. injection H as -> ->.
    by destruct (Hh _ _ eq_refl).
Qed.

Lemma announced_silent e d : silent e -> announced d -> announced (logged e d).
Proof. intros [He Hp] H. apply announced_log; [|by rewrite He|done]. intros ch p ->. by destruct (Hp ch p). Qed.

Lemma announced_same d d' : effects d' = effects d -> next_channel d <= next_channel d' -> announced d -> announced d'.
Proof. intros E Hn []. constructor; rewrite E; [done|done|]. intros i c H. specialize (an_range0 i c H). lia. Qed.

Lemma pending_announced id d d1 : announced d -> pending id d d1 -> announced d1.
Proof.
  intros H (_ & E & En). apply (announced_same (with_channel id d)); [done|lia|]. unfold with_channel. case_match.
  - apply announced_silent; [done|]. eapply announced_same; [..|exact H]; cbn; [done|lia].
  - eapply announced_same; [..|exact H]; cbn; [done|lia].
Qed.

Lemma in_use_log e d : in_use d -> in_use (logged e d).
Proof. intros H i ch E. cbn. rewrite handed_out_snoc. apply elem_of_app. left. by apply H. Qed.

(** Handing the new channel out seals the driver again. *)
Lemma pending_handed id d d1 e :
  sealed d -> pending id d d1 -> hands e = Some (id, next_channel d) -> sealed (logged e d1).
Proof.
  intros (Hp & Ha & Hu) Hd1 He. pose proof (pending_announced id d d1 Ha Hd1) as Ha1. destruct Hd1 as (Em & El & En).
  destruct (with_channel_log id d) as [Hh _]. rewrite <- El in Hh. rewrite with_channel_next in En.
  split_and!.
  - apply (kept_same (logged e (with_channel id d))); [done|by cbn; rewrite El|by cbn; rewrite En, with_channel_next|].
    pose proof (private_channel id d Hp) as []. constructor; try done. cbn. intros ch p [H|H]%elem_of_app; [by eapply pv_log0|].
    apply list_elem_of_singleton in H. by subst e.
  - apply announced_log; [by intros ch p ->|intros i c E; rewrite He in E; injection E as <- <-|done]. rewrite En.
    pose proof (pv_next _ Hp). split; [lia|]. rewrite Hh. intros ([i c] & Ec & Hic)%list_elem_of_fmap. cbn in Ec. subst c.
    pose proof (an_range _ Ha _ _ Hic) as Hr. lia.
  - intros i ch E. cbn in E |- *. rewrite Em in E. rewrite handed_out_snoc, He, Hh. apply elem_of_app.
    apply with_channel_map in E as [[-> ->]|E]; [right; by left|left; by apply Hu].
Qed.

#[export] Instance sealed_kept : Kept sealed.
Proof.
  constructor.
  - intros d d' E1 E2 E3 (Hp & Ha & Hu). split_and!; [by eapply kept_same; [..|exact Hp]|by eapply announced_same; [..|exact Ha]; [|lia]|].
    unfold in_use. by rewrite E1, E2.
  - intros e d He (Hp & Ha & Hu). split_and!; [by apply kept_log|by apply announced_silent|by apply in_use_log].
  - intros id d (Hp & Ha & Hu). split_and!; [by apply kept_remove|by eapply announced_same; [..|exact Ha]|].
    intros i ch E. unfold forgotten in E. cbn in E. apply lookup_delete_Some in E as [_ E]. by apply Hu.
  - intros id ch p d E (Hp & Ha & Hu). split_and!; [by eapply kept_packet|apply announced_log; [|done..]|by apply in_use_log].
    intros c q [= -> ->]. apply list_elem_of_fmap. exists (id, c). split; [done|by apply Hu].
  - intros id b d H. cbn [dispatch_wt_event]. rewrite open_channel_eq. refine (pending_handed id d _ _ H _ _); [done|by destruct b].
Qed.

Lemma flush_leaves d :
  let d' := snd (flush_wt_output d) in
  stream_channels d' = stream_channels d /\ effects d' = effects d /\ next_channel d' = next_channel d.
Proof.
  rewrite flush_wt_output_eq. destruct (WtSession.output_buffer (wt_session d)) as [|b l]; [done|].
  by destruct (send_chunks_same (connect_stream_id d) (chunks WT_SEND_CHUNK_SIZE (b :: l)) (wt_drained d)) as [c ->].
Qed.

(** The command that opens a stream hands it out with its answer, or ends the
    driver. *)
Lemma open_bidi_seals ack d :
  sealed d ->
  let '(o, d') := handle_cmd (DriverCmd.OpenBidi ack) d in private d' /\ announced d' /\ (o = Ok true -> in_use d').
Proof.
  intros H. cbn [handle_cmd]. unfold open_bidi. unfold bind at 1, outcome at 1. unfold bind at 1, on_wt, embed.
  assert (forall s, sealed (d <| wt_session := s |>)) as Hs by (intros s; by apply (kept_same d)).
  destruct (WtSession.open_bidi_stream (wt_session d)) as [[id|e|] s]; cbn [map_err]; specialize (Hs s); set (d1 := d <| wt_session := s |>) in *.
  2: { cbn. pose proof (tidy_result sealed (Err (TokioError.WebTransport e)) ack ltac:(done) d1 Hs) as Hr. by destruct Hr as (? & ? & ?). }
  2: { by destruct Hs as (? & ? & ?). }
  rewrite open_channel_eq. cbn [ret send_cmd_result]. unfold bind at 1, outcome.
  pose proof (flush_leaves (with_channel id d1)) as Hf. destruct (flush_wt_output (with_channel id d1)) as [o d2]. cbn [snd] in Hf.
  assert (pending id d1 d2) as Hpend by done.
  pose proof (private_channel id d1 (proj1 Hs)) as Hp1. assert (private d2) as Hp2 by (destruct Hf as (? & ? & ?); by apply (kept_same (with_channel id d1))).
  pose proof (pending_announced id d1 d2 (proj1 (proj2 Hs)) Hpend) as Ha2.
  destruct o as [[]|[e|]|]; [| |by split_and!..].
  - destruct (pending_handed id d1 d2 (Effect.Acked ack (Ok (Reply.Bidi (RecvStream.mk id (next_channel d1) false)))) Hs Hpend eq_refl) as (? & ? & ?).
    by split_and!.
  - cbn. split_and!; [by apply (kept_log (Effect.Acked ack (Err e)))|by apply (announced_silent (Effect.Acked ack (Err e)))|done].
Qed.

Lemma turn_seals x d :
  sealed d -> let '(o, d') := take_turn x d in private d' /\ announced d' /\ (o = Ok true -> in_use d').
Proof.
  intros H. assert ((forall ack, x <> Command (DriverCmd.OpenBidi ack)) \/ exists ack, x = Command (DriverCmd.OpenBidi ack)) as [Hx|[ack ->]].
  { destruct x as [[]| |]; first [by left | right; by eexists]. }
  - pose proof (tidy_turn sealed x Hx d H) as H'. destruct (take_turn x d) as [o d']. by destruct H' as (? & ? & ?).
  - by apply open_bidi_seals.
Qed.

Lemma new_sealed c id wt : sealed (new c id wt).
Proof.
  split_and!.
  - constructor; [by intros|intros ch p H; by apply elem_of_nil in H|by intros|done].
  - constructor; [intros [] ? ? ? [=]|constructor|intros i ch H; by apply elem_of_nil in H].
  - by intros i ch E.
Qed.

Lemma new_private c id wt : private (new c id wt).
Proof. apply new_sealed. Qed.

(** The driver after turns all of which left it running. *)
Fixpoint goes_on (turns : list turn) (d : t) : option t :=
  match turns with
  | [] => Some d
  | x :: turns => match take_turn x d with (Ok true, d1) => goes_on turns d1 | _ => None end
  end.

Lemma goes_on_sealed turns d d' : sealed d -> goes_on turns d = Some d' -> sealed d'.
Proof.
  revert d. induction turns as [|x turns IH]; intros d H; cbn [goes_on]; [by intros [= <-]|].
  pose proof (turn_seals x d H) as Ht. destruct (take_turn x d) as [[[]|e|] d1]; try done. destruct Ht as (? & ? & Hu).
  apply IH. split_and!; [done|done|by apply Hu].
Qed.

(** C13: Every stream has a channel of its own. Whatever turns a driver takes
    from its start, no two streams share a channel; no channel is handed out to
    the application twice; and before a packet is sent into a channel, its
    receiver was handed out, with the stream it was accepted as or with the
    answer to the command that opened it. And as long as the driver goes on, the
    channel a stream uses is the one that was handed out as that stream's. *)
Theorem channels_stay_private (c : TokioConnection.t) (id : StreamId.t) (wt : WtSession.t) (turns : list turn) :
  (let d := snd (run turns (new c id wt)) in private d /\ announced d) /\
  (forall d, goes_on turns (new c id wt) = Some d -> in_use d).
Proof.
  split; [|intros d Hd; by apply (goes_on_sealed _ _ _ (new_sealed c id wt)) in Hd as (_ & _ & ?)].
  cbv zeta. generalize (new c id wt), (new_sealed c id wt). induction turns as [|x turns IH]; intros d H; [by destruct H as (? & ? & _)|].
  cbn [run]. unfold bind. pose proof (turn_seals x d H) as Ht. destruct (take_turn x d) as [[[]|e|] d1]; destruct Ht as (Hp & Ha & Hu);
    [|by split..]. apply IH. split_and!; [done|done|by apply Hu].
Qed.

(** ** Dispatching *)

(** The events dispatched in order; polling each changes the session only. *)
Inductive dispatched : list WtEvent.t -> t -> t -> Prop :=
| dispatched_nil d : dispatched [] d d
| dispatched_cons e es d s d1 d' :
    dispatch_wt_event e (d <| wt_session := s |>) = (Ok tt, d1) -> dispatched es d1 d' -> dispatched (e :: es) d d'.

Lemma wt_poll_event_Ok s o s' :
  WtSession.poll_event s = (Ok o, s') ->
  match WtSession.events s with
  | [] => o = None /\ s' = s
  | e :: es => o = Some e /\ WtSession.events s' = es
  end.
Proof.
  unfold WtSession.poll_event. rewrite bind_gets. destruct (WtSession.events s) as [|e es] eqn:Ee; [by intros [= <- <-]|].
  rewrite bind_modify. set (s1 := s <| WtSession.events := es |>). intros E.
  revert E. match goal with |- (?m ;! _) _ = _ -> _ => generalize (ltac:(repeat case_match; mute) : mute m); generalize m end.
  intros m Hm. specialize (Hm s1). unfold bind. destruct (m s1) as [[[]|x|] s2]; [|done|done]. intros [= <- <-]. by split.
Qed.

Lemma dispatch_loop_dispatched fuel d d' :
  dispatch_loop fuel d = (Ok tt, d') -> dispatched (WtSession.events (wt_session d)) d d'.
Proof.
  revert d. induction fuel as [|fuel IH]; intros d; [done|]. cbn [dispatch_loop]. unfold bind at 1, on_wt, embed.
  destruct (WtSession.poll_event (wt_session d)) as [[o|e|] s] eqn:Ep; [|done|done]. cbn [map_err]. apply wt_poll_event_Ok in Ep.
  destruct (WtSession.events (wt_session d)) as [|e es].
  - destruct Ep as [-> ->]. intros E. assert (d' = d) as -> by (injection E as <-; clear; by destruct d). constructor.
  - destruct Ep as [-> Hes]. unfold bind. pose proof (still_dispatch e (d <| wt_session := s |>)) as Hst.
    destruct (dispatch_wt_event e _) as [[[]|x|] d1] eqn:Ed; [|done|done]. intros E. econstructor; [exact Ed|].
    cbn [snd] in Hst. change (WtSession.events (wt_session (d <| wt_session := s |>))) with (WtSession.events s) in Hst.
    rewrite <- Hes, <- Hst. by apply IH.
Qed.

Lemma dispatched_cons_inv e es d d' :
  dispatched (e :: es) d d' -> exists s d1, dispatch_wt_event e (d <| wt_session := s |>) = (Ok tt, d1) /\ dispatched es d1 d'.
Proof. inversion 1; subst. eauto. Qed.
Lemma dispatched_nil_inv d d' : dispatched [] d d' -> d' = d.
Proof. by inversion 1. Qed.

Lemma dispatched_app es es' d d' : dispatched (es ++ es') d d' -> exists d1, dispatched es d d1 /\ dispatched es' d1 d'.
Proof.
  revert d. induction es as [|e es IH]; intros d H; [by exists d; split; [constructor|]|].
  apply dispatched_cons_inv in H as (s & d1 & E & H). destruct (IH _ H) as (d2 & ? & ?). exists d2. split; [|done]. by econstructor.
Qed.

(** What the application is handed when a stream opens. *)
Definition handed (id : Z) (bidirectional : bool) (ch : Z) : Effect.t :=
  let s := RecvStream.mk id ch false in if bidirectional then Effect.AcceptBidi s else Effect.AcceptUni s.

(** Between two drivers: the log grew, nothing was sent into a channel, and who
    is not to send any more is as before. *)
Definition opened_more (log : list Effect.t) (d d' : t) : Prop :=
  effects d' = effects d ++ log /\ (forall ch, packets ch log = []) /\
  stop_sending_sent_streams d' = stop_sending_sent_streams d /\ next_channel d <= next_channel d'.

Lemma dispatch_opened id b d d' :
  dispatch_wt_event (WtEvent.StreamOpened id b) d = (Ok tt, d') ->
  exists log, opened_more log d d' /\ handed id b (next_channel d) ∈ log /\
    stream_channels d' = <[id := next_channel d]> (stream_channels d).
Proof.
  cbn [dispatch_wt_event]. unfold unbounded_channel, insert_channel, drop_sender, record.
  rewrite bind_assoc, bind_gets, bind_assoc, bind_modify, bind_ret, bind_assoc, bind_gets, bind_assoc, bind_modify.
  unfold bind, modify, ret. cbn. destruct (stream_channels d !! id) as [old|]; intros [= <-].
  - exists [Effect.SenderDropped old; handed id b (next_channel d)]. unfold opened_more. cbn. rewrite <- app_assoc.
    split_and!; [done|by destruct b|done|lia|set_solver|done].
  - exists [handed id b (next_channel d)]. unfold opened_more. cbn. split_and!; [done|by destruct b|done|lia|set_solver|done].
Qed.

Lemma opened_more_trans l1 l2 d d1 d2 : opened_more l1 d d1 -> opened_more l2 d1 d2 -> opened_more (l1 ++ l2) d d2.
Proof.
  intros (E1 & P1 & S1 & N1) (E2 & P2 & S2 & N2). split_and!; [by rewrite E2, E1, app_assoc| |congruence|lia].
  intros ch. by rewrite packets_app, P1, P2.
Qed.

Lemma dispatched_opened b ids d d' :
  private d -> dispatched (map (fun id => WtEvent.StreamOpened id b) ids) d d' ->
  private d' /\ exists log, opened_more log d d' /\
    forall id, (id ∈ ids -> exists ch, stream_channels d' !! id = Some ch /\ handed id b ch ∈ log /\ next_channel d <= ch) /\
      (id ∉ ids -> stream_channels d' !! id = stream_channels d !! id).
Proof.
  revert d. induction ids as [|x ids IH]; intros d Hpv H.
  { apply dispatched_nil_inv in H as ->. split; [done|]. exists []. split; [split_and!; by rewrite ?app_nil_r|]. intros id. split; [|done]. by intros Hn%elem_of_nil. }
  apply dispatched_cons_inv in H as (s & d1 & E & H).
  pose proof (tidy_dispatch private (WtEvent.StreamOpened x b) (d <| wt_session := s |>)) as Hp1. rewrite E in Hp1.
  assert (private (d <| wt_session := s |>)) as Hpv' by (destruct Hpv; by constructor). specialize (Hp1 Hpv'). cbn [snd] in Hp1.
  apply dispatch_opened in E as (log1 & H1 & Hh & Hm).
  destruct (IH _ Hp1 H) as (Hp2 & log2 & H2 & Hids). split; [done|]. exists (log1 ++ log2).
  assert (next_channel d <= next_channel d1) as Hnext.
  { assert (stream_channels d1 !! x = Some (next_channel d)) as Ex by (rewrite Hm; apply lookup_insert_eq).
    destruct (pv_map _ Hp1 _ _ Ex). lia. }
  split; [exact (opened_more_trans _ _ _ _ _ H1 H2)|]. intros id. destruct (Hids id) as [Hin Hout]. split.
  - intros Hid. destruct (decide (id ∈ ids)) as [Hi|Hi].
    + destruct (Hin Hi) as (ch & ? & ? & ?). exists ch. split_and!; [done|apply elem_of_app; by right|lia].
    + assert (id = x) as -> by set_solver. exists (next_channel d). split_and!; [|apply elem_of_app; by left|done].
      rewrite (Hout Hi), Hm. apply lookup_insert_eq.
  - intros Hid. apply not_elem_of_cons in Hid as [Hx Hid]. rewrite (Hout Hid), Hm. by rewrite lookup_insert_ne.
Qed.

Lemma dispatch_data id ch data fin d d' :
  stream_channels d !! id = Some ch -> id ∉ stop_sending_sent_streams d ->
  dispatch_wt_event (WtEvent.StreamData id data fin) d = (Ok tt, d') ->
  effects d' = effects d ++ Effect.Packet ch (StreamPacket.Data data fin) :: (if fin then [Effect.SenderDropped ch] else []) /\
  (fin = false -> stream_channels d' = stream_channels d /\ stop_sending_sent_streams d' = stop_sending_sent_streams d).
Proof.
  intros Hch Hst. cbn [dispatch_wt_event]. rewrite bind_gets, bool_decide_eq_false_2 by done. rewrite bind_gets, Hch.
  unfold bind at 1, record at 1, modify at 1. set (d1 := d <| effects := _ |>).
  unfold bind at 1. destruct (or_abort _ d1) as [[[]|e|] d2] eqn:E; [|done|done]. apply or_abort_Ok in E as (s & _ & ->).
  destruct fin; [|by intros [= <-]]. unfold finish_stream, remove_channel. rewrite bind_assoc, bind_gets, bind_assoc, bind_modify, bind_ret.
  cbn [stream_channels set_field d1]. change (stream_channels (d1 <| wt_session := s |>)) with (stream_channels d). rewrite Hch.
  unfold drop_sender, record. rewrite bind_modify. unfold account_peer_stream_closed, modify, set_closed_count, ret. intros E. split; [|done].
  revert E. case_match; [|case_match]; intros [= <-]; unfold d1; cbn; by rewrite <- app_assoc.
Qed.

Lemma dispatched_data id ch pieces last fin d d' :
  stream_channels d !! id = Some ch -> id ∉ stop_sending_sent_streams d ->
  dispatched (events_of id pieces last fin) d d' ->
  exists log, effects d' = effects d ++ log /\ packets ch log = packets_of pieces last fin.
Proof.
  intros Hch Hst. revert d Hch Hst. induction pieces as [|p pieces IH]; intros d Hch Hst H.
  - apply dispatched_cons_inv in H as (s & d1 & E & H). apply dispatched_nil_inv in H as ->.
    set (d0 := d <| wt_session := s |>) in E. destruct (dispatch_data id ch last fin d0 d1 Hch Hst E) as [He _]. eexists. split; [exact He|].
    cbn. rewrite Z.eqb_refl. by destruct fin.
  - apply dispatched_cons_inv in H as (s & d1 & E & H).
    set (d0 := d <| wt_session := s |>) in E. destruct (dispatch_data id ch p false d0 d1 Hch Hst E) as [He Hsame].
    destruct (Hsame eq_refl) as [Hm Hs]. destruct (IH d1) as (log & Hlog & Hp); [by rewrite Hm|by rewrite Hs|exact H|].
    exists (Effect.Packet ch (StreamPacket.Data p false) :: log). split.
    + rewrite Hlog, He. by rewrite <- app_assoc.
    + cbn. rewrite Z.eqb_refl. f_equal. exact Hp.
Qed.

(** ** From the octets to the application *)

Lemma lower_ids_last id : 0 <= id -> id ∈ lower_ids id.
Proof.
  intros Hi. assert (forall n x, x + 4 * Z.of_nat n ∈ ids_from x (S n)) as H.
  { induction n as [|n IH]; intros x; [rewrite Z.add_0_r; left|]. right. replace (x + 4 * Z.of_nat (S n)) with (x + 4 + 4 * Z.of_nat n) by lia. apply IH. }
  pose proof (Z.div_pos id 4 Hi ltac:(lia)). unfold lower_ids. replace (Z.to_nat (id / 4 + 1)) with (S (Z.to_nat (id / 4))) by lia.
  replace id with (id mod 4 + 4 * Z.of_nat (Z.to_nat (id / 4))) at 1; [apply H|]. rewrite Z2Nat.id by lia.
  pose proof (Z.div_mod id 4 ltac:(lia)). lia.
Qed.

Lemma opened_events id s :
  0 <= id -> WtSession.events s = [] -> WtSession.has_closed id s = false ->
  exists opened, WtSession.events (opened_for id s) =
      map (fun i => WtEvent.StreamOpened i (WtStream.StreamId.is_bidirectional id)) opened /\
    (WtSession.has_stream id s = true -> opened = []) /\ (WtSession.has_stream id s = false -> id ∈ opened).
Proof.
  intros Hi He Hc. unfold opened_for. destruct (WtSession.has_stream id s) eqn:Hs; [by exists []|].
  destruct (create_all_events (WtStream.StreamId.is_bidirectional id) (lower_ids id) s) as (o & E & _ & _ & Ho).
  exists o. split_and!; [by rewrite E, He|done|]. intros _. apply Ho; [by apply lower_ids_last|]. unfold known. by rewrite Hs, Hc.
Qed.

(** ** What follows the dispatching *)

(** The channels and the log are as before, and so are the streams. *)
Record settled (d d' : t) : Prop := {
  se_effects : effects d' = effects d;
  se_channels : stream_channels d' = stream_channels d;
  se_next : next_channel d' = next_channel d;
  se_stopped : stop_sending_sent_streams d' = stop_sending_sent_streams d;
  se_connect : connect_stream_id d' = connect_stream_id d;
  se_session : quiet (wt_session d) (wt_session d')
}.

#[local] Instance settled_preorder : PreOrder settled.
Proof. split; [by intros d|]. intros d d1 d2 [] []. constructor; [congruence..|]. by etrans. Qed.

Lemma settled_or_abort {A} (m : ST WtSession.t WtError.t A) a d d' :
  steady m -> or_abort m d = (Ok a, d') -> settled d d'.
Proof. intros Hm E. apply or_abort_Ok in E as (s & E & ->). specialize (Hm (wt_session d)). rewrite E in Hm. by constructor. Qed.

Lemma settled_grow b d d' : maybe_grow_max_streams b d = (Ok tt, d') -> settled d d'.
Proof.
  unfold maybe_grow_max_streams. rewrite bind_gets. case_match; [by intros [= <-]|]. rewrite bind_gets. case_match; [done|].
  case_match; [|by intros [= <-]]. unfold bind. destruct (or_abort _ d) as [[[]|e|] d1] eqn:E; [|done|done]. intros [= <-].
  apply settled_or_abort in E; [|apply steady_grow_streams]. etrans; [exact E|]. by destruct b.
Qed.

Lemma settled_conn {A} (X : TokioConnection.M A) d : settled d (snd (on_conn X d)).
Proof. unfold on_conn, zoom. by destruct (X (conn d)). Qed.

Lemma settled_return n es d d' : return_window n es d = (Ok tt, d') -> settled d d'.
Proof.
  unfold return_window. case_match; [|by intros [= <-]]. unfold bind at 1.
  pose proof (settled_conn (TokioConnection.send_window_update StreamId.Connection n) d) as H1.
  destruct (on_conn _ d) as [[[]|e|] d1]; [|done|done]. case_match; [|intros [= <-]; exact H1]. rewrite bind_gets. intros E.
  pose proof (settled_conn (TokioConnection.send_window_update (connect_stream_id d1) n) d1) as H2. rewrite E in H2. by etrans.
Qed.

Lemma steady_session_window : steady maybe_grow_session_window.
Proof. intros s. unfold maybe_grow_session_window. rewrite !bind_gets. case_match; [apply steady_grow_recv|done]. Qed.

Lemma settled_rest n d d' : (open_windows ;! return_window n false ;! flush_wt_output) d = (Ok tt, d') -> settled d d'.
Proof.
  unfold open_windows, bind. destruct (or_abort maybe_grow_session_window d) as [[[]|e|] d1] eqn:E1; [|done|done].
  destruct (maybe_grow_max_streams true d1) as [[[]|e|] d2] eqn:E2; [|done|done].
  destruct (maybe_grow_max_streams false d2) as [[[]|e|] d3] eqn:E3; [|done|done].
  destruct (return_window n false d3) as [[[]|e|] d4] eqn:E4; [|done|done]. intros E5.
  apply settled_or_abort in E1; [|apply steady_session_window]. apply settled_grow in E2, E3. apply settled_return in E4.
  apply flush_credit in E5 as (_ & c & out & ->). etrans; [exact E1|]. etrans; [exact E2|]. etrans; [exact E3|]. etrans; [exact E4|]. done.
Qed.

Lemma respond_same d d' : respond_to_close d = (Ok tt, d') -> d' = d.
Proof.
  unfold respond_to_close. rewrite !bind_gets. case_match; [|by intros [= <-]]. rewrite bind_gets. unfold bind.
  by destruct (on_conn _ d) as [[]].
Qed.

(** The steps of handling a DATA event that succeeds. *)
Lemma handle_data_steps data d d' :
  handle_data_received data false d = (Ok tt, d') ->
  exists n s0 s d1, WtSession.feed data (wt_session d) = (Ok n, s0) /\ WtSession.process s0 = (Ok tt, s) /\
    dispatch_events (d <| wt_session := s |>) = (Ok tt, d1) /\ settled d1 d'.
Proof.
  intros E. assert (len data <= U32_MAX) as Hl.
  { destruct (Z.leb_spec (len data) U32_MAX); [done|]. revert E. unfold handle_data_received. by replace (len data >? U32_MAX) with true by lia. }
  rewrite handle_data_parts in E by done. unfold bind at 1 in E.
  destruct (take_in data d) as [[[]|e|] d1] eqn:E1; [|done|done]. unfold take_in, bind at 1 in E1.
  destruct (or_abort (WtSession.feed data) d) as [[n|e|] da] eqn:Ea; [|done|done]. apply or_abort_Ok in Ea as (s0 & Hf & ->).
  unfold bind at 1 in E1. destruct (or_abort WtSession.process _) as [[[]|e|] db] eqn:Eb; [|done|done].
  apply or_abort_Ok in Eb as (s & Hp & ->). change (d <| wt_session := s0 |> <| wt_session := s |>) with (d <| wt_session := s |>) in E1.
  unfold bind in E1. destruct (dispatch_events _) as [[[]|e|] dc] eqn:Ec; [|done|done]. apply respond_same in E1 as ->.
  exists n, s0, s, dc. split_and!; [done|exact Hp|done|]. exact (settled_rest _ _ _ E).
Qed.

(** The events a DATA event leads to are dispatched, and nothing else is logged. *)
Lemma handle_data_dispatched data d d' :
  handle_data_received data false d = (Ok tt, d') ->
  exists n s0 s d1, WtSession.feed data (wt_session d) = (Ok n, s0) /\ WtSession.process s0 = (Ok tt, s) /\
    dispatched (WtSession.events s) (d <| wt_session := s |>) d1 /\ effects d' = effects d1.
Proof.
  intros E. apply handle_data_steps in E as (n & s0 & s & d1 & Hf & Hp & Hd & Hs). exists n, s0, s, d1.
  split_and!; [done|done|by apply dispatch_loop_dispatched in Hd|apply Hs].
Qed.

(** What is written to a stream is what the application reads. A client's
    session writes pieces of data to a stream, and the octets of its output
    arrive at the driver in a DATA event. When it is handled, one channel was sent
    exactly these pieces, in order and with the end of the stream where it was
    written: the channel of the stream if there was one, else a new one that was
    handed to the application with the stream. And the application that asks that
    stream once per packet gets these pieces, and is told the end exactly if the
    last one carried it. *)
Theorem stream_is_read_as_written (n m k : Z) (client : WtSession.t) (d d' : t)
    (id : Z) (pieces : list (list Z)) (last : list Z) (fin : bool) :
  let session := wt_session d in
  let octets := wires (capsules_of id pieces last fin) in
  wf client -> can_take id (total pieces + len last) client ->
  Forall data_ok pieces -> data_ok last -> Forall (fun p => p <> []) pieces -> last <> [] \/ fin = true ->
  ok n m k d -> private d -> accepts id (total pieces + len last) session ->
  waiting session = [] -> WtSession.events session = [] -> room octets session ->
  (WtSession.has_stream id session = true -> is_Some (stream_channels d !! id)) -> id ∉ stop_sending_sent_streams d ->
  handle_data_received octets false d = (Ok tt, d') ->
  (exists client', send_pieces id pieces last fin client = (Ok tt, client') /\
     WtSession.output_buffer client' = WtSession.output_buffer client ++ octets) /\
  exists log ch, effects d' = effects d ++ log /\
    (if WtSession.has_stream id session then stream_channels d !! id = Some ch
     else handed id (WtStream.StreamId.is_bidirectional id) ch ∈ log /\ packets ch (effects d) = []) /\
    packets ch log = packets_of pieces last fin /\
    recv_each (packets ch log) (RecvStream.mk id ch false) = (Ok (map Some (pieces ++ [last])), RecvStream.mk id ch fin).
Proof.
  intros session octets Hc Ht Hps Hl Hne Hlast Hok Hpv Ha Hw He Hr Hch Hst E.
  destruct (pieces_arrive client session id pieces last fin Hc Ht Hps Hl Hne Hlast (ok_wt _ _ _ _ Hok) Ha Hw Hr)
    as (client' & Es & Eo & Harr). split; [by exists client'|].
  destruct (Harr [octets]) as (s1 & Erecv & _ & _ & Hev); [cbn; by rewrite app_nil_r|].
  apply handle_data_dispatched in E as (q & s0 & s & d1 & Ef & Ep & Hd & ->).
  assert (s = s1) as ->.
  { revert Erecv. cbn [receive_all]. unfold receive, bind. fold session in Ef. rewrite Ef, Ep. by intros [= <-]. }
  assert (0 <= id) as Hid by (destruct Ht as [_ _ (st & Hs & _)]; apply (wf_streams _ _ Hc id st Hs)).
  destruct (opened_events id session Hid He (ac_fresh _ _ _ Ha)) as (opened & Eop & Hold & Hnew).
  rewrite Hev, Eop in Hd. apply dispatched_app in Hd as (d0 & H1 & H2).
  assert (private (d <| wt_session := s1 |>)) as Hpv1 by (destruct Hpv; by constructor).
  destruct (dispatched_opened _ _ _ _ Hpv1 H1) as (_ & log1 & (El1 & Hp1 & Hs1 & _) & Hids). destruct (Hids id) as [Hin Hout].
  assert (exists ch, stream_channels d0 !! id = Some ch /\
    if WtSession.has_stream id session then stream_channels d !! id = Some ch
    else handed id (WtStream.StreamId.is_bidirectional id) ch ∈ log1 /\ packets ch (effects d) = []) as (ch & Ech & Hcase).
  { destruct (WtSession.has_stream id session).
    - destruct (Hch eq_refl) as [ch Ech]. exists ch. split; [|done]. rewrite Hout; [done|]. rewrite (Hold eq_refl). set_solver.
    - destruct (Hin (Hnew eq_refl)) as (ch & Ech & Hh & Hge). exists ch. split_and!; [done|done|].
      apply packets_none. intros p Hp. pose proof (pv_log _ Hpv _ _ Hp). change (next_channel (d <| wt_session := s1 |>)) with (next_channel d) in Hge. lia. }
  destruct (dispatched_data id ch pieces last fin d0 d1 Ech) as (log2 & El2 & Hp2); [by rewrite Hs1|exact H2|].
  exists (log1 ++ log2), ch. assert (packets ch (log1 ++ log2) = packets_of pieces last fin) as Hp.
  { by rewrite packets_app, Hp1, Hp2. }
  split_and!; [by rewrite El2, El1, app_assoc| |done|by rewrite Hp, recv_pieces].
  destruct (WtSession.has_stream id session); [done|]. destruct Hcase. split; [apply elem_of_app; by left|done].
Qed.
End driver.
Import Driver.

Definition sample_octets : list Z := Eval vm_compute in wires (capsules_of 0 sample_pieces [4; 5] true).

Lemma wt_driver_accepts : accepts 0 5 (wt_session wt_driver).
Proof.
  constructor; [by vm_compute|intros _; repeat split; by vm_compute|]. constructor; [by vm_compute..|].
  eexists. split; [vm_compute; reflexivity|split; [by vm_compute|by vm_compute]].
Qed.

Lemma wt_driver_private : private wt_driver.
Proof. exact (new_private wt_connection stream_1 wt_accepted). Qed.

Lemma stream_is_read_as_written_witness :
  exists d' log ch, @handle_data_received script_transport sample_octets false wt_driver = (Ok tt, d') /\
    effects d' = effects wt_driver ++ log /\ packets ch log = packets_of sample_pieces [4; 5] true /\
    recv_each (packets ch log) (RecvStream.mk 0 ch false) = (Ok (map Some (sample_pieces ++ [[4; 5]])), RecvStream.mk 0 ch true).
Proof.
  destruct (@handle_data_received script_transport sample_octets false wt_driver) as [o d'] eqn:E.
  assert (o = Ok tt) as -> by (apply (f_equal fst) in E; vm_compute in E; symmetry; exact E).
  assert (wires (capsules_of 0 sample_pieces [4; 5] true) = sample_octets) as Eo by (vm_compute; reflexivity).
  destruct (@stream_is_read_as_written script_transport script_laws key_order key_order_laws
    (total_reads wt_operations * TokioConnection.RECV_BUF_SIZE) 1 0 WtDeliver.sample_client wt_driver d' 0 sample_pieces [4; 5] true)
    as (_ & log & ch & El & _ & Hp & Hr).
  - apply sample_client_wf.
  - apply sample_take.
  - clear. repeat constructor; by vm_compute.
  - clear. split; [repeat constructor; by vm_compute|by vm_compute].
  - clear. by repeat constructor.
  - by left.
  - apply wt_driver_ok.
  - apply wt_driver_private.
  - apply wt_driver_accepts.
  - clear. vm_compute. reflexivity.
  - clear. vm_compute. reflexivity.
  - clear. by vm_compute.
  - clear. intros H. vm_compute in H. discriminate.
  - clear. assert (stop_sending_sent_streams wt_driver = ∅) as -> by (vm_compute; reflexivity). set_solver.
  - rewrite Eo. exact E.
  - exists d', log, ch. split_and!; [reflexivity|exact El|exact Hp|exact Hr].
Defined.
