(* ===== verification/DriverStreams.v ===== *)
(** * DriverStreams: many streams, in any number of DATA events

    A peer writes to many streams, the octets of all of them arrive in one
    sequence that is cut anywhere, and the windows are opened in between: what
    the application reads from each stream is what was written to that one. *)

From S2P Require Import Prelude Errors StreamIds Config Flow Syntax HpackTable HpackCodec Validation Stream ConnBase ConnHeaders.
From S2P Require Import ConnRecv ConnInv ConnSafe ConnSample ConnHandle ConnApi ConnEvents ConnOutput.
From S2P Require Import WtVarint WtStream WtCapsule WtCodec WtInit WtProtocols WtSession WtInv WtSafe WtLoop WtApi WtDeliver WtStreams WtClosing.
From S2P Require Import Tokio TokioWire TokioApi Driver DriverSample DriverSafe DriverAccept DriverWindows DriverDeliver.
Import WtInvariant.

(** ** Pieces *)

Definition packet_for (p : list Z * bool) : StreamPacket.t := StreamPacket.Data p.1 p.2.

(** Whether a stream has ended behind some pieces. *)
Definition ended_after (ended : bool) (ps : list (list Z * bool)) : bool := fold_left (fun _ p => p.2) ps ended.

Lemma in_order_app ended ps qs : in_order ended (ps ++ qs) -> in_order ended ps /\ in_order (ended_after ended ps) qs.
Proof.
  revert ended. induction ps as [|[data fin] ps IH]; intros ended; [done|]. cbn [app in_order]. intros [-> H].
  apply IH in H as [H1 H2]. by split_and!.
Qed.

Lemma in_order_open ended ps p : in_order ended ps -> ended_after ended ps = false -> p ∈ ps -> p.2 = false.
Proof.
  revert ended. induction ps as [|[data fin] ps IH]; intros ended; [by intros _ _ Hp%elem_of_nil|].
  cbn [in_order]. intros [-> H] He [->|Hp]%elem_of_cons; [|by apply (IH fin)].
  cbn. destruct fin; [|done]. destruct ps as [|[? ?] ps]; [done|]. by destruct H.
Qed.

Lemma recv_in_order ps s :
  in_order (RecvStream.recv_finished s) ps ->
  recv_each (map packet_for ps) s =
    (Ok (map (fun p => Some p.1) ps), s <| RecvStream.recv_finished := ended_after (RecvStream.recv_finished s) ps |>).
Proof.
  revert s. induction ps as [|[data fin] ps IH]; intros s; [by destruct s|]. cbn [in_order map recv_each packet_for].
  intros [Hs H]. cbn [packet_for fst snd].
  assert (RecvStream.recv (Some (StreamPacket.Data data fin)) s = (Ok (Some data), s <| RecvStream.recv_finished := fin |>)) as Er.
  { unfold RecvStream.recv. rewrite bind_gets, Hs. destruct fin; [done|]. destruct s. cbn in *. by subst. }
  rewrite (bind_Ok _ _ _ _ _ Er). unfold bind. by rewrite IH.
Qed.

Section driver.
Context {T : Transport} {TL : TransportLaws T} {HO : Connection.HashOrder} {HOL : Connection.HashOrderLaws HO}.
Import Driver.

(** ** A stream, seen from the driver *)

(** It was not opened yet; it has a channel; it has ended. *)
Inductive status : Type := Unopened | Reading (ch : Z) | Ended (ch : Z).

Definition is_ended (st : status) : bool := match st with Ended _ => true | _ => false end.

(** A channel that was handed out and is no other stream's. *)
Definition owned (id ch : Z) (d : t) : Prop :=
  ch < next_channel d /\ forall j, stream_channels d !! j = Some ch -> j = id.

(** What the session [s] and the driver know of the stream. *)
Definition linked (id : Z) (st : status) (s : WtSession.t) (d : t) : Prop :=
  match st with
  | Unopened => WtSession.has_stream id s = false
  | Reading ch => WtSession.has_stream id s = true /\ stream_channels d !! id = Some ch /\ owned id ch d
  | Ended ch => owned id ch d
  end.

Definition seen (st : status) (d : t) : list StreamPacket.t :=
  match st with Unopened => [] | Reading ch | Ended ch => packets ch (effects d) end.

(** From [d] to [d'] the stream got some pieces. *)
Record advanced (id : Z) (ps : list (list Z * bool)) (log : list Effect.t) (st st' : status) (d d' : t) : Prop := {
  adv_log : effects d' = effects d ++ log;
  adv_seen : seen st' d' = seen st d ++ map packet_for ps;
  adv_ended : is_ended st' = ended_after (is_ended st) ps;
  adv_next : next_channel d <= next_channel d';
  adv_status :
    match st with
    | Unopened =>
        match st' with
        | Unopened => True
        | Reading ch | Ended ch => next_channel d <= ch /\ handed id (WtStream.StreamId.is_bidirectional id) ch ∈ log
        end
    | Reading ch => st' = Reading ch \/ st' = Ended ch
    | Ended ch => st' = Ended ch
    end
}.

Lemma ended_after_app ended ps qs : ended_after ended (ps ++ qs) = ended_after (ended_after ended ps) qs.
Proof. apply fold_left_app. Qed.

Lemma advanced_trans id ps qs log log' st st1 st2 d d1 d2 :
  advanced id ps log st st1 d d1 -> advanced id qs log' st1 st2 d1 d2 -> advanced id (ps ++ qs) (log ++ log') st st2 d d2.
Proof.
  intros [L1 S1 E1 N1 T1] [L2 S2 E2 N2 T2]. constructor.
  - by rewrite L2, L1, app_assoc.
  - by rewrite S2, S1, map_app, app_assoc.
  - by rewrite E2, E1, ended_after_app.
  - lia.
  - destruct st as [|ch|ch].
    + destruct st1 as [|c|c]; [destruct st2 as [|c|c]; [done|..]; (split; [lia|apply elem_of_app; right; apply T2])|..].
      * destruct T1 as [? ?]. destruct T2 as [-> | ->]; (split; [done|apply elem_of_app; by left]).
      * destruct T1 as [? ?]. subst st2. split; [done|apply elem_of_app; by left].
    + destruct T1 as [-> | ->]; [done|]. by right.
    + by subst st1.
Qed.

Lemma advanced_refl id st d : advanced id [] [] st st d d.
Proof.
  constructor; [by rewrite app_nil_r|by rewrite app_nil_r|done|lia|]. destruct st; auto.
Qed.

(** The session of the driver plays no part. *)
Lemma advanced_session id ps log st st' d d' s : advanced id ps log st st' (d <| wt_session := s |>) d' -> advanced id ps log st st' d d'.
Proof. intros []. by constructor. Qed.
Lemma linked_session id st s d s0 : linked id st s d -> linked id st s (d <| wt_session := s0 |>).
Proof. by destruct st. Qed.
Lemma private_session d s : private d -> private (d <| wt_session := s |>).
Proof. intros []. by constructor. Qed.

Lemma private_new ch d : private d -> next_channel d <= ch -> packets ch (effects d) = [].
Proof. intros H Hch. apply packets_none. intros p Hp. pose proof (pv_log _ H _ _ Hp). lia. Qed.

(** *** Streams that open *)

Lemma opened_advance id b opened st s s' d d' :
  private d -> dispatched (map (fun i => WtEvent.StreamOpened i b) opened) d d' -> linked id st s d ->
  (forall j, WtSession.has_stream j s' = WtSession.has_stream j s || bool_decide (j ∈ opened)) ->
  (forall j, j ∈ opened -> WtSession.has_stream j s = false /\ WtStream.StreamId.is_bidirectional j = b) ->
  exists st' log, advanced id [] log st st' d d' /\ linked id st' s' d' /\ private d' /\
    stop_sending_sent_streams d' = stop_sending_sent_streams d.
Proof.
  intros Hpv H Hl Hh Ho. destruct (dispatched_opened b opened d d' Hpv H) as (Hpv' & log & (El & Hp & Hs & Hn) & Hids).
  assert (forall ch, ch < next_channel d -> owned id ch d -> owned id ch d') as Hown.
  { intros ch Hch [_ Hj]. split; [lia|]. intros j E. destruct (Hids j) as [Hin Hout]. destruct (decide (j ∈ opened)) as [Hjo|Hjo].
    - destruct (Hin Hjo) as (c & Ec & _ & Hc). rewrite E in Ec. injection Ec as ->. lia.
    - apply Hj. by rewrite <- Hout. }
  assert (forall ch, packets ch (effects d') = packets ch (effects d)) as Hsame by (intros ch; by rewrite El, packets_app, Hp, app_nil_r).
  destruct st as [|ch|ch]; cbn [linked] in Hl.
  - destruct (decide (id ∈ opened)) as [Hid|Hid].
    + destruct (Hids id) as [Hin _]. destruct (Hin Hid) as (ch & Ech & Hhand & Hge). destruct (Ho id Hid) as [_ Hb].
      exists (Reading ch), log. split_and!; [|cbn [linked]|done|done].
      * constructor; [done| |done|done|by rewrite Hb]. cbn [seen]. rewrite Hsame. by rewrite (private_new ch d).
      * split_and!; [rewrite Hh, Hl; by rewrite bool_decide_eq_true_2|done|]. destruct (pv_map _ Hpv' _ _ Ech).
        split; [lia|]. intros j Ej. by apply (pv_apart _ Hpv' _ _ _ Ej Ech).
    + exists Unopened, log. split_and!; [by constructor|cbn [linked]|done|done]. by rewrite Hh, Hl, bool_decide_eq_false_2.
  - destruct Hl as (Hhas & Ech & Hown0). exists (Reading ch), log. split_and!; [|cbn [linked]|done|done].
    + constructor; [done| |done|done|by left]. cbn [seen]. by rewrite Hsame, app_nil_r.
    + split_and!; [by rewrite Hh, Hhas| |apply Hown; [apply Hown0|done]]. destruct (Hids id) as [_ Hout]. rewrite Hout; [done|].
      intros Hid. destruct (Ho id Hid). congruence.
  - exists (Ended ch), log. split_and!; [|apply Hown; [apply Hl|done]|done|done].
    constructor; [done| |done|done|done]. cbn [seen]. by rewrite Hsame, app_nil_r.
Qed.

(** *** Data *)

Lemma finish_stream_Ok id d d' :
  finish_stream id d = (Ok tt, d') ->
  effects d' = effects d ++ match stream_channels d !! id with Some ch => [Effect.SenderDropped ch] | None => [] end /\
  stream_channels d' = delete id (stream_channels d) /\ next_channel d' = next_channel d /\
  stop_sending_sent_streams d' = stop_sending_sent_streams d /\ wt_session d' = wt_session d.
Proof.
  unfold finish_stream, remove_channel. rewrite bind_assoc, bind_gets, bind_assoc, bind_modify, bind_ret.
  unfold account_peer_stream_closed, drop_sender, record, bind, modify, set_closed_count, ret.
  destruct (stream_channels d !! id); repeat case_match; intros [= <-]; cbn; by rewrite ?app_nil_r.
Qed.

(** What data does to the channels and the log. *)
Lemma dispatch_data_keeps i data fin d d' :
  dispatch_wt_event (WtEvent.StreamData i data fin) d = (Ok tt, d') ->
  exists log, effects d' = effects d ++ log /\ (forall ch p, Effect.Packet ch p ∈ log -> stream_channels d !! i = Some ch) /\
    next_channel d' = next_channel d /\
    (forall j ch, stream_channels d' !! j = Some ch -> stream_channels d !! j = Some ch) /\
    (forall j, j <> i -> stream_channels d' !! j = stream_channels d !! j) /\
    stop_sending_sent_streams d' ⊆ stop_sending_sent_streams d.
Proof.
  cbn [dispatch_wt_event]. rewrite bind_gets. case_match.
  - destruct fin; [|intros [= <-]; exists []; rewrite app_nil_r; by split_and!; [|intros ?? H0%elem_of_nil|..]].
    unfold bind. destruct (finish_stream i d) as [[[]|e|] d1] eqn:E; [|done|done]. apply finish_stream_Ok in E as (Ee & Em & En & Es & _).
    intros [= <-]. eexists. cbn. rewrite Em, En, Es. split_and!; [exact Ee| |done| | |set_solver].
    + intros ch p. destruct (stream_channels d !! i); set_solver.
    + intros j ch [_ Hj]%lookup_delete_Some. done.
    + intros j Hj. by rewrite lookup_delete_ne.
  - rewrite bind_gets. set (log := match stream_channels d !! i with Some ch => [Effect.Packet ch (StreamPacket.Data data fin)] | None => [] end).
    assert (match stream_channels d !! i with Some ch => record (Effect.Packet ch (StreamPacket.Data data fin)) | None => ret tt end d
            = (Ok tt, d <| effects := effects d ++ log |>)) as Er.
    { unfold log. destruct (stream_channels d !! i); [done|]. rewrite app_nil_r. by destruct d. }
    rewrite (bind_Ok _ _ _ _ _ Er). set (d1 := d <| effects := _ |>). unfold bind at 1.
    destruct (or_abort _ d1) as [[[]|e|] d2] eqn:E; [|done|done]. apply or_abort_Ok in E as (s & _ & ->).
    assert (forall ch p, Effect.Packet ch p ∈ log -> stream_channels d !! i = Some ch) as Hlog.
    { intros ch p. unfold log. destruct (stream_channels d !! i); set_solver. }
    destruct fin; [|intros [= <-]; by exists log].
    intros E. apply finish_stream_Ok in E as (Ee & Em & En & Es & _). eexists. rewrite Ee, Em, En, Es. cbn.
    rewrite <- app_assoc. split_and!; [reflexivity| |done| | |done].
    + intros ch p [Hp|Hp]%elem_of_app; [by eapply Hlog|]. destruct (stream_channels d !! i); set_solver.
    + intros j ch [_ Hj]%lookup_delete_Some. done.
    + intros j Hj. by rewrite lookup_delete_ne.
Qed.

Lemma data_advance id i data fin st s d d' :
  private d -> dispatch_wt_event (WtEvent.StreamData i data fin) d = (Ok tt, d') -> linked id st s d ->
  WtSession.has_stream i s = true -> id ∉ stop_sending_sent_streams d ->
  in_order (is_ended st) (pieces_of id [Write i data fin]) ->
  exists st' log, advanced id (pieces_of id [Write i data fin]) log st st' d d' /\ linked id st' s d' /\ private d' /\
    id ∉ stop_sending_sent_streams d'.
Proof.
  intros Hpv E Hl Hi Hst Hord. pose proof (tidy_dispatch private (WtEvent.StreamData i data fin) d Hpv) as Hpv'. rewrite E in Hpv'. cbn [snd] in Hpv'.
  destruct (dispatch_data_keeps i data fin d d' E) as (log & El & Hp & En & Hsub & Hother & Hs).
  assert (forall ch, owned id ch d -> owned id ch d') as Hown.
  { intros ch [? Hj]. split; [lia|]. intros j Ej. by apply Hj, Hsub. }
  unfold pieces_of, piece_of in *. cbn [omap list_omap target content final] in *.
  destruct (Z.eqb_spec i id) as [->|Hne].
  - destruct st as [|ch|ch]; cbn [linked is_ended] in *; [congruence| |by destruct Hord].
    destruct Hl as (_ & Ech & Ho). destruct (dispatch_data id ch data fin d d' Ech Hst E) as [Ee Hsame].
    assert (log = Effect.Packet ch (StreamPacket.Data data fin) :: (if fin then [Effect.SenderDropped ch] else [])) as ->.
    { rewrite El in Ee. by apply app_inv_head in Ee. }
    exists (if fin then Ended ch else Reading ch). eexists. split_and!; [constructor; [exact El| | |lia|]| |done|set_solver].
    + assert (forall st', (st' = Ended ch \/ st' = Reading ch) -> seen st' d' = packets ch (effects d')) as Hseen by (intros st' [-> | ->]; done).
      rewrite Hseen by (destruct fin; auto). cbn [seen]. rewrite El, packets_app. f_equal. cbn. rewrite Z.eqb_refl. by destruct fin.
    + by destruct fin.
    + destruct fin; auto.
    + destruct fin; cbn [linked]; [by apply Hown|]. destruct (Hsame eq_refl) as [Hm _]. rewrite Hm. split_and!; [done|done|by apply Hown].
  - exists st, log. assert (forall ch, owned id ch d -> packets ch log = []) as Hnone.
    { intros ch [_ Hj]. apply packets_none. intros p Hin. apply Hp in Hin. apply Hj in Hin. done. }
    split_and!; [|destruct st as [|ch|ch]; cbn [linked] in *|done|set_solver].
    + constructor; [done| |done|lia|destruct st; auto]. cbn [map]. rewrite app_nil_r.
      destruct st as [|ch|ch]; cbn [seen linked] in *; [done|..]; rewrite El, packets_app, (Hnone ch), app_nil_r; [done|apply Hl|done|done].
    + done.
    + destruct Hl as (? & ? & ?). split_and!; [done|by rewrite Hother|by apply Hown].
    + by apply Hown.
Qed.

(** *** Writes that are handled and dispatched *)

Lemma write_advances id w es st s s' d d' :
  private d -> told w es s s' -> dispatched es d d' -> linked id st s d -> id ∉ stop_sending_sent_streams d ->
  in_order (is_ended st) (pieces_of id [w]) ->
  exists st' log, advanced id (pieces_of id [w]) log st st' d d' /\ linked id st' s' d' /\ private d' /\
    id ∉ stop_sending_sent_streams d'.
Proof.
  intros Hpv [_ _ _ (opened & -> & Hh & Ho & Hi)] H Hl Hst Hord. apply dispatched_app in H as (d0 & H1 & H2).
  apply dispatched_cons_inv in H2 as (sx & d1 & E & H2). apply dispatched_nil_inv in H2 as ->.
  destruct (opened_advance id _ opened st s s' d d0 Hpv H1 Hl Hh Ho) as (st1 & log1 & A1 & L1 & P1 & S1).
  destruct w as [i data fin]. cbn [target content final] in *.
  destruct (data_advance id i data fin st1 s' (d0 <| wt_session := sx |>) d1) as (st2 & log2 & A2 & L2 & P2 & S2);
    [by apply private_session|done|by apply linked_session|done|cbn; by rewrite S1| |].
  { by rewrite (adv_ended _ _ _ _ _ _ _ A1). }
  exists st2, (log1 ++ log2). split_and!; [|done|done|done]. apply advanced_session in A2.
  exact (advanced_trans _ [] _ _ _ _ _ _ _ _ _ A1 A2).
Qed.

Lemma pieces_of_cons id w ws : pieces_of id (w :: ws) = pieces_of id [w] ++ pieces_of id ws.
Proof. unfold pieces_of. cbn. by destruct (piece_of id w). Qed.

Lemma writes_advance id ws es st s s' d d' :
  told_all ws es s s' -> private d -> dispatched es d d' -> linked id st s d -> id ∉ stop_sending_sent_streams d ->
  in_order (is_ended st) (pieces_of id ws) ->
  exists st' log, advanced id (pieces_of id ws) log st st' d d' /\ linked id st' s' d' /\ private d' /\
    id ∉ stop_sending_sent_streams d'.
Proof.
  intros Ht. revert st d. induction Ht as [s|w ws es es' s s1 s' Hw _ IH]; intros st d Hpv H Hl Hst Hord.
  { apply dispatched_nil_inv in H as ->. exists st, []. split_and!; [apply advanced_refl|done..]. }
  rewrite pieces_of_cons in Hord. apply in_order_app in Hord as [Ho1 Ho2]. apply dispatched_app in H as (d1 & H1 & H2).
  destruct (write_advances id w es st s s1 d d1 Hpv Hw H1 Hl Hst Ho1) as (st1 & log1 & A1 & L1 & P1 & S1).
  destruct (IH st1 d1 P1 H2 L1 S1) as (st2 & log2 & A2 & L2 & P2 & S2); [by rewrite (adv_ended _ _ _ _ _ _ _ A1)|].
  exists st2, (log1 ++ log2). split_and!; [|done..]. rewrite pieces_of_cons. by eapply advanced_trans.
Qed.

(** ** The session while its events are dispatched *)

(** A method that leaves the streams of the session when it succeeds. *)
Definition calm {A} (X : M A) : Prop := forall d a d', X d = (Ok a, d') -> quiet (wt_session d) (wt_session d').

Lemma calm_bind {A B} (X : M A) (k : A -> M B) : calm X -> (forall a, calm (k a)) -> calm (bind X k).
Proof.
  intros HX Hk d b d'. unfold bind. destruct (X d) as [[a|e|] d1] eqn:E; [|done|done]. intros E'.
  etrans; [exact (HX _ _ _ E)|exact (Hk _ _ _ _ E')].
Qed.
Lemma calm_local {A} (X : M A) : (forall d, wt_session (snd (X d)) = wt_session d) -> calm X.
Proof. intros HX d a d' E. specialize (HX d). rewrite E in HX. cbn [snd] in HX. by rewrite HX. Qed.

Lemma steady_stream_window id : steady (maybe_grow_stream_window id).
Proof.
  intros s. unfold maybe_grow_stream_window. rewrite bind_gets. case_match; [|done]. case_match; [done|]. rewrite bind_gets.
  case_match; [apply steady_grow_stream|done].
Qed.

Lemma calm_window id : calm (or_abort (maybe_grow_stream_window id)).
Proof. intros d a d' E. apply settled_or_abort in E; [apply E|apply steady_stream_window]. Qed.
Lemma calm_account id : calm (account_peer_stream_closed id).
Proof. unfold account_peer_stream_closed. case_match; [by apply calm_local|]. apply calm_local. intros d. unfold modify, set_closed_count. by case_match. Qed.

Lemma calm_dispatch ev : calm (dispatch_wt_event ev).
Proof.
  destruct ev; cbn [dispatch_wt_event];
    unfold finish_stream, forget_stop_sending, unbounded_channel, insert_channel, remove_channel, drop_sender, record;
    repeat first [ apply calm_window | apply calm_account | apply calm_local; intros; reflexivity | apply calm_bind; [|intros] | case_match ].
Qed.

(** Dispatching empties the queue, and only the end of its data takes a stream
    away. *)
Lemma dispatch_loop_keeps fuel d d' :
  dispatch_loop fuel d = (Ok tt, d') ->
  let s := wt_session d in let s' := wt_session d' in
  WtSession.events s' = [] /\ waiting s' = waiting s /\ WtSession.state s' = WtSession.state s /\
  forall j, (forall data, WtEvent.StreamData j data true ∉ WtSession.events s) -> WtSession.has_stream j s' = WtSession.has_stream j s.
Proof.
  revert d. induction fuel as [|fuel IH]; intros d; [done|]. cbn [dispatch_loop]. unfold bind at 1, on_wt, embed.
  destruct (WtSession.poll_event (wt_session d)) as [[o|e|] s1] eqn:Ep; [|done|done]. cbn [map_err].
  pose proof (poll_event_keeps _ _ _ Ep) as (Hw & Hst & Hh). apply wt_poll_event_Ok in Ep.
  destruct (WtSession.events (wt_session d)) as [|e es] eqn:Ee.
  - destruct Ep as [-> ->]. intros [= <-]. by split_and!.
  - destruct Ep as [-> Hes]. unfold bind. destruct (dispatch_wt_event e _) as [[[]|x|] d1] eqn:Ed; [|done|done]. intros E.
    destruct (calm_dispatch e _ _ _ Ed) as [Qe Qw Qs Qh]. cbn in Qe, Qw, Qs, Qh. destruct (IH d1 E) as (He' & Hw' & Hs' & Hh').
    split_and!; [done|congruence|congruence|]. intros j Hj. rewrite Hh', Qh, Hh; [done|..].
    + intros data [= ->]. apply (Hj data). by left.
    + intros data Hin. apply (Hj data). right. by rewrite <- Hes, <- Qe.
Qed.

(** ** A DATA event *)

(** The events of writes carry the pieces of each stream. *)
Lemma told_piece id ws es s s' data fin :
  told_all ws es s s' -> WtEvent.StreamData id data fin ∈ es -> (data, fin) ∈ pieces_of id ws.
Proof.
  induction 1 as [s|w ws es es' s s1 s' [_ _ _ (opened & -> & _)] _ IH]; [by intros Hn%elem_of_nil|].
  rewrite pieces_of_cons. intros [[Ho|Hd]%elem_of_app|He]%elem_of_app; apply elem_of_app; [left|left|right; by apply IH].
  - apply list_elem_of_fmap in Ho as (i & [=] & _).
  - apply list_elem_of_singleton in Hd as [= -> -> ->]. unfold pieces_of, piece_of. cbn. rewrite Z.eqb_refl. by left.
Qed.

(** The driver between DATA events, with [ws] still to come as [more]. *)
Record between (id : Z) (st : status) (ws : list write) (more : list Z) (d : t) : Prop := {
  bw_private : private d;
  bw_linked : linked id st (wt_session d) d;
  bw_going : id ∉ stop_sending_sent_streams d;
  bw_order : in_order (is_ended st) (pieces_of id ws);
  bw_events : WtSession.events (wt_session d) = [];
  bw_open : WtSession.is_closed (wt_session d) = false;
  bw_octets : waiting (wt_session d) ++ more = written_octets ws
}.

Lemma data_event_advances id st ws chunk more d d' :
  wf (wt_session d) -> Forall (fun w => Wire.wf (capsule_of w)) ws -> between id st ws (chunk ++ more) d ->
  handle_data_received chunk false d = (Ok tt, d') ->
  exists ws1 ws2 st' log, ws = ws1 ++ ws2 /\ advanced id (pieces_of id ws1) log st st' d d' /\ between id st' ws2 more d' /\
    Wire.frame (waiting (wt_session d')) = None.
Proof.
  intros Hwf Hws [Hpv Hl Hst Hord He Ho Hoct] E.
  apply handle_data_steps in E as (n & s0 & s & d1 & Ef & Ep & Ed & [Se Sc Sn Ss _ [Qe Qw Qs Qh]]).
  destruct (writes_prefix ws chunk more _ s0 s n Hwf Ho Hws Hoct Ef Ep) as (ws1 & ws2 & es & s1 & -> & Ht & Es & Hrest & Hnone).
  assert (pieces_of id (ws1 ++ ws2) = pieces_of id ws1 ++ pieces_of id ws2) as Hp by (unfold pieces_of; apply omap_app).
  rewrite Hp in Hord. apply in_order_app in Hord as [Ho1 Ho2].
  destruct (told_all_open _ _ _ _ Ht Ho) as [Hev Hop]. rewrite He in Hev. cbn [app] in Hev.
  assert (WtSession.events s = es /\ WtSession.is_closed s = false /\ forall j, WtSession.has_stream j s = WtSession.has_stream j s1) as (Hes & Hcl & Hhs).
  { rewrite Es. by split_and!. }
  pose proof Ed as Hdis. unfold dispatch_events in Ed, Hdis. rewrite bind_gets in Ed, Hdis.
  apply dispatch_loop_dispatched in Hdis. apply dispatch_loop_keeps in Ed as (Ke & Kw & Ks & Kh). cbn in Hdis, Ke, Kw, Ks, Kh.
  rewrite Hes in Hdis, Kh.
  destruct (writes_advance id ws1 es st _ s1 (d <| wt_session := s |>) d1 Ht) as (st' & log & A & L & P & S);
    [by apply private_session|done|by apply linked_session|done|done|]. apply advanced_session in A.
  exists ws1, ws2, st', log. split_and!; [done| | |by rewrite Qw, Kw].
  - destruct A as [A1 A2 A3 A4 A5]. constructor; [by rewrite Se| |done|lia|done]. rewrite <- A2. destruct st'; cbn [seen]; by rewrite ?Se.
  - constructor; [|destruct st' as [|ch|ch]; cbn [linked] in *| | | | |].
    + destruct P as [P1 P2 P3 P4]. constructor; by rewrite ?Sc, ?Se, ?Sn.
    + rewrite Qh, Kh, Hhs; [done|]. intros data Hin. apply (told_piece _ _ _ _ _ _ _ Ht) in Hin.
      pose proof (in_order_open _ _ _ Ho1 (eq_sym (adv_ended _ _ _ _ _ _ _ A)) Hin). done.
    + destruct L as (Lh & Lc & Lo1 & Lo2). split_and!; [|by rewrite Sc|split; [by rewrite Sn|by rewrite Sc]].
      rewrite Qh, Kh, Hhs; [done|]. intros data Hin. apply (told_piece _ _ _ _ _ _ _ Ht) in Hin.
      pose proof (in_order_open _ _ _ Ho1 (eq_sym (adv_ended _ _ _ _ _ _ _ A)) Hin). done.
    + destruct L. split; [by rewrite Sn|by rewrite Sc].
    + by rewrite Ss.
    + by rewrite (adv_ended _ _ _ _ _ _ _ A).
    + by rewrite Qe.
    + revert Hcl. unfold WtSession.is_closed. by rewrite Qs, Ks.
    + by rewrite Qw, Kw.
Qed.

(** ** Any number of them *)

Fixpoint handle_all (chunks : list (list Z)) : M unit :=
  match chunks with
  | [] => ret tt
  | chunk :: chunks => handle_data_received chunk false ;! handle_all chunks
  end.

Lemma data_events_advance n m k id st ws chunks d d' :
  ok n m k d -> room_for n m 0 0 -> k + len (concat chunks) < 2 ^ 63 -> Forall (fun c => len c <= MAX_WINDOW_SIZE) chunks ->
  Forall (fun w => Wire.wf (capsule_of w)) ws -> between id st ws (concat chunks) d ->
  Wire.frame (waiting (wt_session d)) = None -> handle_all chunks d = (Ok tt, d') ->
  exists st' log, advanced id (pieces_of id ws) log st st' d d' /\ is_ended st' = ended_after (is_ended st) (pieces_of id ws).
Proof.
  intros Hok Hr Hk Hc. revert k st ws d Hok Hk. induction Hc as [|chunk chunks Hl _ IH]; intros k st ws d Hok Hk Hws Hb Hn.
  - intros [= <-]. pose proof (bw_octets _ _ _ _ _ Hb) as Ho. cbn in Ho. rewrite app_nil_r in Ho.
    assert (ws = []) as ->.
    { apply map_eq_nil with (f := capsule_of). apply (frame_none_wires _ _ ltac:(by apply Forall_map) Ho Hn). }
    exists st, []. split; [apply advanced_refl|done].
  - cbn [concat handle_all] in *. unfold bind. destruct (handle_data_received chunk false d) as [[[]|e|] d1] eqn:E; [|done|done]. intros E'.
    rewrite len_app in Hk. pose proof (len_nonneg (concat chunks)). pose proof (len_nonneg chunk).
    assert (bytes_ok chunk) as Hbytes.
    { pose proof (wires_bytes (map capsule_of ws) ltac:(by apply Forall_map)) as Hw. change (wires (map capsule_of ws)) with (written_octets ws) in Hw.
      rewrite <- (bw_octets _ _ _ _ _ Hb) in Hw. apply bytes_ok_app in Hw as [_ Hw]. by apply bytes_ok_app in Hw as [? _]. }
    destruct (data_event_advances id st ws chunk _ d d1 (ok_wt _ _ _ _ Hok) Hws Hb E) as (ws1 & ws2 & st1 & log1 & -> & A1 & Hb1 & Hn1).
    apply Forall_app in Hws as [_ Hws2].
    pose proof (dsafe_Ok _ _ _ _ _ _ _ _ _ (handle_data_safe chunk false d Hbytes Hl) Hok Hr ltac:(lia) E) as Hok1.
    rewrite Z.mul_0_l, Z.add_0_r in Hok1.
    destruct (IH (k + len chunk) st1 ws2 d1 Hok1 ltac:(lia) Hws2 Hb1 Hn1 E') as (st2 & log2 & A2 & He2).
    exists st2, (log1 ++ log2). assert (pieces_of id (ws1 ++ ws2) = pieces_of id ws1 ++ pieces_of id ws2) as -> by (unfold pieces_of; apply omap_app).
    split; [by eapply advanced_trans|]. by rewrite He2, ended_after_app, <- (adv_ended _ _ _ _ _ _ _ A1).
Qed.

(** The channel of a stream that got a piece. *)
Lemma advanced_channel id ps log st st' d d' :
  private d -> ps <> [] -> advanced id ps log st st' d d' ->
  exists ch, packets ch log = map packet_for ps /\
    match st with
    | Unopened => handed id (WtStream.StreamId.is_bidirectional id) ch ∈ log /\ packets ch (effects d) = []
    | Reading c | Ended c => c = ch
    end.
Proof.
  intros Hpv Hps [El Hs _ _ Ht]. destruct st as [|c|c].
  - destruct st' as [|ch|ch]; cbn [seen] in Hs; [by destruct ps|..]; destruct Ht as [Hge Hh]; exists ch;
      pose proof (private_new ch d Hpv Hge) as Hnew; rewrite El, packets_app, Hnew in Hs; by split_and!.
  - exists c. split; [|done]. assert (seen st' d' = packets c (effects d')) as Ho by (destruct Ht as [-> | ->]; done).
    rewrite Ho, El, packets_app in Hs. by apply app_inv_head in Hs.
  - exists c. split; [|done]. subst st'. cbn [seen] in Hs. rewrite El, packets_app in Hs. by apply app_inv_head in Hs.
Qed.

(** A driver that is ready for the octets of a session: nothing waits, and it
    has a channel for the stream if the stream is there. *)
Record ready (n m k : Z) (id size : Z) (d : t) : Prop := {
  rd_ok : ok n m k d;
  rd_room : room_for n m 0 0;
  rd_count : k + size < 2 ^ 63;
  rd_private : private d;
  rd_waiting : waiting (wt_session d) = [];
  rd_events : WtSession.events (wt_session d) = [];
  rd_open : WtSession.is_closed (wt_session d) = false;
  rd_channel : WtSession.has_stream id (wt_session d) = true -> is_Some (stream_channels d !! id);
  rd_going : id ∉ stop_sending_sent_streams d
}.

(** What the application is handed for a stream that got some pieces. *)
Definition read_by_application (id : Z) (ps : list (list Z * bool)) (d d' : t) : Prop :=
  exists log ch, effects d' = effects d ++ log /\
    (if WtSession.has_stream id (wt_session d) then stream_channels d !! id = Some ch
     else handed id (WtStream.StreamId.is_bidirectional id) ch ∈ log /\ packets ch (effects d) = []) /\
    packets ch log = map packet_for ps /\
    recv_each (packets ch log) (RecvStream.mk id ch false) =
      (Ok (map (fun p => Some p.1) ps), RecvStream.mk id ch (ended_after false ps)).

Lemma ready_between n m k id ws octets d :
  ready n m k id (len octets) d -> octets = written_octets ws -> in_order false (pieces_of id ws) ->
  exists st, between id st ws octets d /\ Wire.frame (waiting (wt_session d)) = None /\
    if WtSession.has_stream id (wt_session d) then exists c, st = Reading c /\ stream_channels d !! id = Some c else st = Unopened.
Proof.
  intros [_ _ _ Hpv Hw He Ho Hch Hst] Eo Hord.
  assert (exists st, linked id st (wt_session d) d /\ is_ended st = false /\
    if WtSession.has_stream id (wt_session d) then exists c, st = Reading c /\ stream_channels d !! id = Some c else st = Unopened)
    as (st & Hl & Hne & Hcase).
  { destruct (WtSession.has_stream id (wt_session d)) eqn:Hh; [|by exists Unopened]. destruct (Hch eq_refl) as [c Ec]. exists (Reading c).
    split; [|split; [done|by exists c]]. destruct (pv_map _ Hpv _ _ Ec). split; [done|]. split; [done|]. split; [done|].
    intros j Ej. by apply (pv_apart _ Hpv _ _ _ Ej Ec). }
  exists st. split; [|by rewrite Hw]. constructor; [done|exact Hl|done|by rewrite Hne|done|done|]. by rewrite Hw.
Qed.

Lemma writes_are_read n m k id ws chunks d d' :
  Forall (fun w => Wire.wf (capsule_of w)) ws -> in_order false (pieces_of id ws) ->
  concat chunks = written_octets ws -> Forall (fun c => len c <= MAX_WINDOW_SIZE) chunks ->
  ready n m k id (len (concat chunks)) d -> handle_all chunks d = (Ok tt, d') -> pieces_of id ws <> [] ->
  read_by_application id (pieces_of id ws) d d'.
Proof.
  intros Hws Hord Hcat Hlen Hrd E Hps. pose proof Hrd as [Hok Hr Hk Hpv _ _ _ _ _].
  destruct (ready_between n m k id ws _ d Hrd Hcat Hord) as (st & Hb & Hn & Hcase).
  destruct (data_events_advance n m k id st ws chunks d d' Hok Hr Hk Hlen Hws Hb Hn E) as (st' & log & A & _).
  destruct (advanced_channel id _ log st st' d d' Hpv Hps A) as (ch & Hp & Hst').
  exists log, ch. split_and!; [apply A| |done|by rewrite Hp, recv_in_order].
  destruct (WtSession.has_stream id (wt_session d)); [destruct Hcase as (c & -> & Ec); by subst c|by subst st].
Qed.

(** C9: What is written to each of many streams is what the application reads
    from it. The session of a client accepts writes to any of its streams, in any
    order, and its octets arrive at the driver cut into DATA events anywhere,
    inside of capsules as well. If the driver handles them all, whatever windows
    it opened in between, then for every stream that was written to, one channel
    was sent exactly the pieces written to that stream, in their order, each with
    the end where it was written, and nothing of other streams: the channel the
    stream had, else a new one that was handed to the application with it. And
    the application that asks the stream once per packet gets these pieces, and
    is told the end exactly if the last one carried it. *)
Theorem streams_are_read_as_written (n m k : Z) (client client' : WtSession.t) (ws : list write)
    (chunks : list (list Z)) (d d' : t) (id : Z) :
  wf client -> WtSession.output_buffer client = [] -> Forall (fun w => data_ok (content w)) ws ->
  send_all ws client = (Ok tt, client') ->
  concat chunks = WtSession.output_buffer client' -> Forall (fun c => len c <= MAX_WINDOW_SIZE) chunks ->
  ready n m k id (len (concat chunks)) d -> handle_all chunks d = (Ok tt, d') -> pieces_of id ws <> [] ->
  exists log ch, effects d' = effects d ++ log /\
    (if WtSession.has_stream id (wt_session d) then stream_channels d !! id = Some ch
     else handed id (WtStream.StreamId.is_bidirectional id) ch ∈ log /\ packets ch (effects d) = []) /\
    packets ch log = map packet_for (pieces_of id ws) /\
    recv_each (packets ch log) (RecvStream.mk id ch false) =
      (Ok (map (fun p => Some p.1) (pieces_of id ws)), RecvStream.mk id ch (ended_after false (pieces_of id ws))).
Proof.
  intros Hc Hob Hd Es Hcat Hlen Hrd E Hps.
  destruct (send_all_Ok ws client client' Hc Hd Es) as (Eo & Hws & Hord). rewrite Hob in Eo. cbn [app] in Eo.
  apply (writes_are_read n m k id ws chunks d d'); try done; [by apply Hord|by rewrite Hcat].
Qed.
End driver.
Import Driver.

(** A client that has opened two streams and writes to both in turn. *)
Definition two_streams : WtSession.t :=
  snd (WtSession.open_stream true (snd (WtSession.open_stream true (sample_session Role.Client)))).
Definition sample_writes : list write :=
  [Write 4 [1; 2] false; Write 0 [3] false; Write 4 [4] true; Write 0 [5; 6; 7] false; Write 0 [8] true].
Definition sample_sender : WtSession.t := Eval vm_compute in snd (send_all sample_writes two_streams).

(** Its octets, three at a time. *)
Definition sample_cuts : list (list Z) :=
  Eval vm_compute in
  (fix cut (n : nat) (l : list Z) := match n with O => [] | S n => take 3 l :: cut n (drop 3 l) end)
    (Z.to_nat (len (WtSession.output_buffer sample_sender) / 3 + 1)) (WtSession.output_buffer sample_sender).

Lemma two_streams_wf : wf two_streams.
Proof. exact (proj1 (open_stream_op true _ (proj1 (open_stream_op true _ (sample_session_wf Role.Client))))). Qed.

Lemma wt_driver_ready size :
  size < 2 ^ 63 -> @ready script_transport (total_reads wt_operations * TokioConnection.RECV_BUF_SIZE) 1 0 0 size wt_driver.
Proof.
  intros Hs. constructor.
  - apply wt_driver_ok.
  - clear. by vm_compute.
  - exact Hs.
  - apply wt_driver_private.
  - clear. vm_compute. reflexivity.
  - clear. vm_compute. reflexivity.
  - clear. vm_compute. reflexivity.
  - clear. intros H. vm_compute in H. discriminate.
  - clear. assert (stop_sending_sent_streams wt_driver = ∅) as -> by (vm_compute; reflexivity). set_solver.
Qed.

Lemma streams_are_read_as_written_witness :
  exists d' log ch, @handle_all script_transport sample_cuts wt_driver = (Ok tt, d') /\
    effects d' = effects wt_driver ++ log /\ handed 0 true ch ∈ log /\
    packets ch log = map packet_for [([3], false); ([5; 6; 7], false); ([8], true)] /\
    recv_each (packets ch log) (RecvStream.mk 0 ch false) = (Ok [Some [3]; Some [5; 6; 7]; Some [8]], RecvStream.mk 0 ch true).
Proof.
  destruct (@handle_all script_transport sample_cuts wt_driver) as [o d'] eqn:E.
  assert (o = Ok tt) as -> by (apply (f_equal fst) in E; vm_compute in E; symmetry; exact E).
  destruct (@streams_are_read_as_written script_transport script_laws key_order key_order_laws
    (total_reads wt_operations * TokioConnection.RECV_BUF_SIZE) 1 0 two_streams sample_sender sample_writes sample_cuts wt_driver d' 0)
    as (log & ch & El & Hc & Hp & Hr).
  - apply two_streams_wf.
  - clear. vm_compute. reflexivity.
  - clear. repeat constructor; by vm_compute.
  - clear. vm_compute. reflexivity.
  - clear. vm_compute. reflexivity.
  - clear. repeat constructor; by vm_compute.
  - apply wt_driver_ready. clear. by vm_compute.
  - exact E.
  - clear. by vm_compute.
  - exists d', log, ch. assert (WtSession.has_stream 0 (wt_session wt_driver) = false) as Hh by (clear; vm_compute; reflexivity).
    rewrite Hh in Hc. destruct Hc as [Hh' _]. split_and!; [reflexivity|exact El|exact Hh'|exact Hp|exact Hr].
Defined.
