(* ===== verification/DriverTunnel.v ===== *)
(** * DriverTunnel: from the session of a client to the application of a server

    The two halves of the library and the driver together: what a client's
    WebTransport session wrote crosses two HTTP/2 connections and is read by the
    application that holds the streams. *)

From S2P Require Import Prelude Errors StreamIds Config Flow Bounded StreamCore FrameTypes FrameEncode FrameDecode FrameCodec.
From S2P Require Import HpackInteger Syntax HpackTable HpackCodec Validation Stream ConnBase ConnHeaders ConnRecv.
From S2P Require Import ConnInv ConnSafe ConnSample ConnFlow ConnBlock ConnHandle ConnApi ConnIndep ConnChunks ConnDeliver ConnData ConnTunnel.
From S2P Require Import WtVarint WtStream WtCapsule WtCodec WtInit WtProtocols WtSession WtInv WtSafe WtLoop WtApi WtDeliver WtStreams WtClosing.
From S2P Require Import Tokio TokioWire TokioApi Driver DriverSample DriverSafe DriverAccept DriverWindows DriverDeliver DriverStreams.

Section driver.
Context {T : Transport} {TL : TransportLaws T} {HO : Connection.HashOrder} {HOL : Connection.HashOrderLaws HO}.
Import Driver.

(** ** Events of the connection *)

Fixpoint handle_events (evs : list Event.t) : M unit :=
  match evs with
  | [] => ret tt
  | ev :: evs => handle_event ev ;! handle_events evs
  end.

Lemma handle_data_connect data d d' :
  handle_data_received data false d = (Ok tt, d') -> connect_stream_id d' = connect_stream_id d.
Proof.
  intros E. apply handle_data_steps in E as (n & s0 & s & d1 & _ & _ & Ed & Hs). rewrite (se_connect _ _ Hs).
  unfold dispatch_events in Ed. rewrite bind_gets in Ed. by apply aside_dispatch_loop in Ed as [_ ->].
Qed.

(** Content of the CONNECT stream is what the driver takes in. *)
Lemma handle_events_content sid evs d d' :
  connect_stream_id d = StreamId.from_wire sid ->
  Forall (fun e => exists piece, e = Event.DataReceived (StreamId.from_wire sid) piece false) evs ->
  handle_events evs d = (Ok tt, d') -> handle_all (content_of sid evs) d = (Ok tt, d').
Proof.
  intros Hc Hevs. revert d Hc. induction Hevs as [|e evs [piece ->] _ IH]; intros d Hc; [done|].
  cbn [handle_events]. unfold content_of. cbn [omap list_omap]. rewrite from_wire_as_u32, Z.eqb_refl.
  cbn [handle_all]. unfold bind at 1. unfold handle_event at 1. rewrite bind_gets, Hc, bool_decide_eq_true_2 by done.
  unfold bind. destruct (handle_data_received piece false d) as [[[]|e|] d1] eqn:E; [|done|done]. intros E'.
  apply (IH d1); [by rewrite (handle_data_connect _ _ _ E)|done].
Qed.

Lemma len_concat_elem (x : list Z) l : x ∈ l -> len x <= len (concat l).
Proof.
  induction l as [|y l IH]; [by intros H%elem_of_nil|]. cbn [concat]. rewrite len_app. pose proof (len_nonneg y).
  pose proof (len_nonneg (concat l)). intros [->|H']%elem_of_cons; [lia|]. specialize (IH H'). lia.
Qed.

(** C6: What a client wrote to its streams is what the application of the server
    reads. The session of a client accepts writes to any of its streams, in any
    order; its octets are sent as content of the CONNECT stream by an HTTP/2
    connection whose windows let them out, and what that connection writes is
    delivered to another one: both succeed, and the other connection reports
    events. A driver of that CONNECT stream that handles these events without an
    error has handed its application, for every stream that was written to,
    exactly the pieces of that stream, in order and with the end where it was
    written. *)
Theorem webtransport_reaches_application (Ho : order_ignores_decoder HO)
    (* the client *) (client client' : WtSession.t) (ws : list write) (sid : Z) (s : Stream.t) (c : Connection.t)
    (* the server *) (st : Stream.t) (r : Connection.t) :
  let octets := WtSession.output_buffer client' in
  WtInvariant.wf_but None client -> WtSession.output_buffer client = [] -> Forall (fun w => data_ok (content w)) ws ->
  send_all ws client = (Ok tt, client') ->
  Invariant.wf c -> sending sid (len octets) s c -> listening sid (len octets) st c r ->
  exists c' sent r' evs,
    Connection.send_data (StreamId.from_wire sid) octets false c = (Ok tt, c') /\
    Connection.output_buffer c' = Connection.output_buffer c ++ sent /\
    Delivering.deliver sent r = (Ok tt, r') /\ Connection.events r' = Connection.events r ++ evs /\
    forall n m k id (d d' : Driver.t),
      connect_stream_id d = StreamId.from_wire sid -> ready n m k id (len octets) d ->
      handle_events evs d = (Ok tt, d') -> pieces_of id ws <> [] ->
      exists log ch, effects d' = effects d ++ log /\
        (if WtSession.has_stream id (wt_session d) then stream_channels d !! id = Some ch
         else handed id (WtStream.StreamId.is_bidirectional id) ch ∈ log /\ packets ch (effects d) = []) /\
        packets ch log = map packet_for (pieces_of id ws) /\
        recv_each (packets ch log) (RecvStream.mk id ch false) =
          (Ok (map (fun p => Some p.1) (pieces_of id ws)), RecvStream.mk id ch (ended_after false (pieces_of id ws))).
Proof.
  intros octets Hcl Hob Hd Es Hc Hsd Hls.
  destruct (send_all_Ok ws client client' Hcl Hd Es) as (Eo & Hws & Hord). rewrite Hob in Eo. cbn [app] in Eo. fold octets in Eo.
  assert (bytes_ok octets) as Hb by (rewrite Eo; apply wires_bytes; by apply Forall_map).
  destruct (content_arrives Ho sid octets s st c r Hc Hb Hsd Hls) as (c' & sent & r' & evs & E1 & E2 & E3 & E4 & E5 & E6).
  exists c', sent, r', evs. split_and!; [done..|]. intros n m k id d d' Hconn Hrd E Hps.
  apply (writes_are_read n m k id ws (content_of sid evs) d d'); try done; [by apply Hord|by rewrite E5| | |].
  - apply Forall_forall. intros piece Hin. apply len_concat_elem in Hin. rewrite E5 in Hin.
    pose proof (sd_buffer _ _ _ _ Hsd). unfold DEFAULT_INITIAL_WINDOW_SIZE, MAX_WINDOW_SIZE in *. lia.
  - by rewrite E5.
  - by apply handle_events_content.
Qed.
End driver.
Import Driver.

(** The octets of the client of [DriverStreams] on the way to its driver. *)
Definition tunnel_sent : list Z :=
  Eval vm_compute in
  Connection.output_buffer (snd (@Connection.send_data stream_1 (WtSession.output_buffer sample_sender) false tunnel_client)).
Definition tunnel_events : list Event.t :=
  Eval vm_compute in Connection.events (snd (@Delivering.deliver key_order tunnel_sent tunnel_server)).

Lemma key_order_blind : order_ignores_decoder key_order.
Proof. done. Qed.

Lemma webtransport_reaches_application_witness :
  exists r' d' log ch,
    @Delivering.deliver key_order tunnel_sent tunnel_server = (Ok tt, r') /\ Connection.events r' = tunnel_events /\
    @handle_events script_transport tunnel_events wt_driver = (Ok tt, d') /\
    effects d' = effects wt_driver ++ log /\ handed 0 true ch ∈ log /\
    packets ch log = map packet_for [([3], false); ([5; 6; 7], false); ([8], true)] /\
    recv_each (packets ch log) (RecvStream.mk 0 ch false) = (Ok [Some [3]; Some [5; 6; 7]; Some [8]], RecvStream.mk 0 ch true).
Proof.
  destruct (@handle_events script_transport tunnel_events wt_driver) as [o d'] eqn:E.
  assert (o = Ok tt) as -> by (apply (f_equal fst) in E; vm_compute in E; symmetry; exact E).
  destruct (@webtransport_reaches_application script_transport script_laws key_order key_order_laws key_order_blind
    two_streams sample_sender sample_writes 1 tunnel_stream tunnel_client tunnel_server_stream tunnel_server)
    as (c' & sent & r' & evs & E1 & E2 & E3 & E4 & K).
  - apply two_streams_wf.
  - clear. vm_compute. reflexivity.
  - clear. repeat constructor; by vm_compute.
  - clear. vm_compute. reflexivity.
  - apply tunnel_client_wf.
  - clear. constructor; first [apply put_lookup | by vm_compute].
  - clear. constructor; [by intros [_ Hp]|done|by vm_compute|]. constructor; first [by left | by vm_compute].
  - assert (sent = tunnel_sent) as ->.
    { apply (f_equal (fun x => Connection.output_buffer (snd x))) in E1. cbn [snd] in E1. rewrite E2 in E1. clear - E1.
      vm_compute in E1. symmetry. exact E1. }
    assert (evs = tunnel_events) as ->.
    { apply (f_equal (fun x => Connection.events (snd x))) in E3. cbn [snd] in E3. rewrite E4 in E3. clear - E3.
      vm_compute in E3. symmetry. exact E3. }
    destruct (K (total_reads wt_operations * TokioConnection.RECV_BUF_SIZE) 1 0 0 wt_driver d') as (log & ch & El & Hc & Hp & Hr).
    + clear. vm_compute. reflexivity.
    + apply wt_driver_ready. clear. by vm_compute.
    + exact E.
    + clear. by vm_compute.
    + assert (WtSession.has_stream 0 (wt_session wt_driver) = false) as Hh by (clear; vm_compute; reflexivity).
      rewrite Hh in Hc. destruct Hc as [Hh' _]. exists r', d', log, ch.
      split_and!; [exact E3| |reflexivity|exact El|exact Hh'|exact Hp|exact Hr].
      rewrite E4. clear. vm_compute. reflexivity.
Defined.
