(* ===== verification/DriverFindings.v ===== *)
(** * DriverFindings: what the tokio layer does not do

    Computed examples of behaviour that departs from what the code documents or
    from what a peer may expect. *)

From S2P Require Import Prelude Errors StreamIds Config Flow FrameTypes FrameEncode Syntax HpackTable Validation Stream ConnBase ConnHeaders.
From S2P Require Import ConnRecv ConnInv ConnSample ConnBlock ConnHandle.
From S2P Require Import WtVarint WtStream WtCapsule WtSession WtInv WtLoop Tokio TokioApi Driver DriverSample DriverAnswer DriverDeliver.
Import Driver.

(** The driver of an accepted request that has handled what came with it. *)
Definition idle_driver : @Driver.t script_transport :=
  snd (@take_turn script_transport key_order (Wait 0) wt_driver).

(** Octets arrive, and [n] more can be written before a write blocks. *)
Definition arrive (l : list Z) (n : Z) (d : @Driver.t script_transport) : @Driver.t script_transport :=
  d <| conn := (conn d) <| TokioConnection.stream :=
    (TokioConnection.stream (conn d) : script) <| incoming := l |> <| capacity := n |> |> |>.
Definition wire_of (d : @Driver.t script_transport) : list Z := sent (TokioConnection.stream (conn d)).

Definition ping (ack : bool) : list Z := Invariant.wires [Frame.Ping (PingFrame.mk ack [1; 2; 3; 4; 5; 6; 7; 8])].
Definition turn_ (x : turn) (d : @Driver.t script_transport) := @take_turn script_transport key_order x d.

(** ** A flush that is given up *)

(** A PING arrives, and three octets of its answer are written before the write
    blocks. A command comes: the wait is dropped, and with it the octets that
    [poll_output] had handed out. The command is told it succeeded, and the frame
    it sent follows the three octets. *)
Definition blocked_driver : @Driver.t script_transport := snd (turn_ (Wait 1) (arrive (ping false) 3 idle_driver)).

Example dropped_flush_loses_octets :
  let '(r, d) := turn_ (Command (DriverCmd.SendDatagram [7] 1)) (arrive [] 1000 blocked_driver) in
  fst (turn_ (Wait 1) (arrive (ping false) 3 idle_driver)) = Ok true /\ r = Ok true /\
  answers (effects d) = [(1, Ok Reply.Done)] /\
  wire_of d = wire_of idle_driver ++ take 3 (ping true) ++ data_octets [0; 1; 7] false.
Proof. vm_compute. by split_and!. Qed.

(** ** The end of a stream *)

(** A stream's data comes without FIN, and then the client resets the CONNECT
    stream. The driver ends, the channel closes, and the application is told the
    end of the stream just as after a FIN. *)
Definition open_octets : list Z :=
  WtSession.output_buffer
    (snd ((WtSession.open_bidi_stream ;! WtSession.send_stream_data 0 [104; 105] false) (sample_session Role.Client))).
Definition reset_driver : result (stop TokioError.t) unit * @Driver.t script_transport :=
  (handle_event (Event.DataReceived stream_1 open_octets false) ;!
   handle_event (Event.StreamReset stream_1 ErrorCode.Cancel 0)) wt_driver.

Example cut_stream_ends_cleanly :
  fst reset_driver = Err (Failed TokioError.ConnectionClosed) /\
  packets 0 (effects (snd reset_driver)) = [StreamPacket.Data [104; 105] false] /\
  (recv_each [StreamPacket.Data [104; 105] false] ;! RecvStream.recv None) (RecvStream.mk 0 0 false)
    = (Ok None, RecvStream.mk 0 0 true).
Proof. vm_compute. by split_and!. Qed.

(** ** An export that is too long *)

(** A length no vector can have: the driver's task panics, and the session with it. *)
Example export_length_panics :
  fst (@handle_cmd script_transport (DriverCmd.ExportKeyingMaterial [1] [2] (ISIZE_MAX + 1) 9) wt_driver) = Panic /\
  fst (@handle_cmd script_transport (DriverCmd.ExportKeyingMaterial [1] [2] 32 9) wt_driver) = Ok true.
Proof. vm_compute. by split. Qed.

(** ** Counting closed streams *)

(** The client opens two of the four streams it may open, and ends its half of
    each. The server has not ended its own: both are open, and yet the client is
    allowed two more. *)
Definition two_streams : list Z :=
  WtSession.output_buffer
    (snd ((WtSession.open_bidi_stream ;! WtSession.send_stream_data 0 [1] true ;!
           WtSession.open_bidi_stream ;! WtSession.send_stream_data 4 [2] true) (sample_session Role.Client))).
Definition counting_driver : result (stop TokioError.t) unit * @Driver.t script_transport :=
  handle_event (Event.DataReceived stream_1 two_streams false) wt_driver.

Example half_closed_streams_are_counted :
  let s := wt_session (snd counting_driver) in
  fst counting_driver = Ok tt /\
  option_map WtStream.send_state (WtSession.streams s !! 0) = Some SendState.Ready /\
  option_map WtStream.send_state (WtSession.streams s !! 4) = Some SendState.Ready /\
  WtConfig.initial_max_streams_bidi (WtSession.config s) = 4 /\
  WtFlowControl.max_streams_bidi_local (WtSession.flow_control s) = 6.
Proof. vm_compute. by split_and!. Qed.
