(* ===== verification/NgTypes.v ===== *)
(** * NgTypes: the types of the nghttp2 wrapper

    Models [src/crates/shiguredo_nghttp2/src/types.rs] and the [Error] of
    [error.rs]: setting identifiers, header fields, frame types, error codes and
    the events that a session over the C library nghttp2 reports.  Strings that
    the C library produces are octets. *)

From S2P Require Import Prelude.
From S2P Require Import Syntax.

(** ** [String::from_utf8_lossy]

    Every longest piece of octets that starts a character but does not end one
    becomes the replacement character. *)
Definition REPLACEMENT_CHARACTER : list Z := [0xEF; 0xBF; 0xBD].

Fixpoint from_utf8_lossy (l : list Z) : list Z :=
  match l with
  | [] => []
  | b0 :: l1 =>
      if b0 <? 0x80 then b0 :: from_utf8_lossy l1
      else match l1 with
      | [] => REPLACEMENT_CHARACTER
      | b1 :: l2 =>
          if Syntax.in_range 0xC2 0xDF b0 then
            if Syntax.utf8_tail b1 then b0 :: b1 :: from_utf8_lossy l2
            else REPLACEMENT_CHARACTER ++ from_utf8_lossy l1
          else if Syntax.in_range 0xE0 0xEF b0 then
            if Syntax.in_range (if b0 =? 0xE0 then 0xA0 else 0x80) (if b0 =? 0xED then 0x9F else 0xBF) b1 then
              match l2 with
              | [] => REPLACEMENT_CHARACTER
              | b2 :: l3 =>
                  if Syntax.utf8_tail b2 then b0 :: b1 :: b2 :: from_utf8_lossy l3
                  else REPLACEMENT_CHARACTER ++ from_utf8_lossy l2
              end
            else REPLACEMENT_CHARACTER ++ from_utf8_lossy l1
          else if Syntax.in_range 0xF0 0xF4 b0 then
            if Syntax.in_range (if b0 =? 0xF0 then 0x90 else 0x80) (if b0 =? 0xF4 then 0x8F else 0xBF) b1 then
              match l2 with
              | [] => REPLACEMENT_CHARACTER
              | b2 :: l3 =>
                  if Syntax.utf8_tail b2 then
                    match l3 with
                    | [] => REPLACEMENT_CHARACTER
                    | b3 :: l4 =>
                        if Syntax.utf8_tail b3 then b0 :: b1 :: b2 :: b3 :: from_utf8_lossy l4
                        else REPLACEMENT_CHARACTER ++ from_utf8_lossy l3
                    end
                  else REPLACEMENT_CHARACTER ++ from_utf8_lossy l2
              end
            else REPLACEMENT_CHARACTER ++ from_utf8_lossy l1
          else REPLACEMENT_CHARACTER ++ from_utf8_lossy l1
      end
  end.

(** ** Setting identifiers *)
Module SettingsId.

Inductive t : Type :=
| HeaderTableSize | EnablePush | MaxConcurrentStreams | InitialWindowSize
| MaxFrameSize | MaxHeaderListSize | EnableConnectProtocol | NoRfc7540Priorities.

(** [self as u16 as i32]: the discriminants. *)
Definition as_i32 (self : t) : Z :=
  match self with
  | HeaderTableSize => 0x01 | EnablePush => 0x02 | MaxConcurrentStreams => 0x03
  | InitialWindowSize => 0x04 | MaxFrameSize => 0x05 | MaxHeaderListSize => 0x06
  | EnableConnectProtocol => 0x08 | NoRfc7540Priorities => 0x09
  end.

End SettingsId.

(** ** Header fields *)
Module Header.

Record t : Type := mk { name : list Z; value : list Z; sensitive : bool }.

Definition new (name value : list Z) : t := mk name value false.
(** [Header::sensitive]; the field has that name. *)
Definition new_sensitive (name value : list Z) : t := mk name value true.
Definition method (method : list Z) : t := new (bstr ":method") method.
Definition scheme (scheme : list Z) : t := new (bstr ":scheme") scheme.
Definition authority (authority : list Z) : t := new (bstr ":authority") authority.
Definition path (path : list Z) : t := new (bstr ":path") path.
Definition status (status : Z) : t := new (bstr ":status") (to_decimal status).
Definition name_str (self : t) : option (list Z) :=
  if Syntax.utf8_valid (name self) then Some (name self) else None.
Definition value_str (self : t) : option (list Z) :=
  if Syntax.utf8_valid (value self) then Some (value self) else None.

End Header.

(** ** Frame types *)
Module FrameType.

Inductive t : Type :=
| Data | Headers | Priority | RstStream | Settings | PushPromise | Ping | Goaway
| WindowUpdate | Continuation.

Definition from_u8 (value : Z) : option t :=
  match value with
  | 0x00 => Some Data
  | 0x01 => Some Headers
  | 0x02 => Some Priority
  | 0x03 => Some RstStream
  | 0x04 => Some Settings
  | 0x05 => Some PushPromise
  | 0x06 => Some Ping
  | 0x07 => Some Goaway
  | 0x08 => Some WindowUpdate
  | 0x09 => Some Continuation
  | _ => None
  end.

End FrameType.

(** ** Error codes *)
Module ErrorCode.

Inductive t : Type :=
| NoError | ProtocolError | InternalError | FlowControlError | SettingsTimeout
| StreamClosed | FrameSizeError | RefusedStream | Cancel | CompressionError
| ConnectError | EnhanceYourCalm | InadequateSecurity | Http11Required
| Unknown (code : Z).

Definition from_u32 (value : Z) : t :=
  match value with
  | 0x00 => NoError
  | 0x01 => ProtocolError
  | 0x02 => InternalError
  | 0x03 => FlowControlError
  | 0x04 => SettingsTimeout
  | 0x05 => StreamClosed
  | 0x06 => FrameSizeError
  | 0x07 => RefusedStream
  | 0x08 => Cancel
  | 0x09 => CompressionError
  | 0x0a => ConnectError
  | 0x0b => EnhanceYourCalm
  | 0x0c => InadequateSecurity
  | 0x0d => Http11Required
  | other => Unknown other
  end.

Definition as_u32 (self : t) : Z :=
  match self with
  | NoError => 0x00
  | ProtocolError => 0x01
  | InternalError => 0x02
  | FlowControlError => 0x03
  | SettingsTimeout => 0x04
  | StreamClosed => 0x05
  | FrameSizeError => 0x06
  | RefusedStream => 0x07
  | Cancel => 0x08
  | CompressionError => 0x09
  | ConnectError => 0x0a
  | EnhanceYourCalm => 0x0b
  | InadequateSecurity => 0x0c
  | Http11Required => 0x0d
  | Unknown code => code
  end.

End ErrorCode.

(** ** Events *)
Module Http2Event.

Inductive t : Type :=
| HeadersReceived (stream_id : Z) (headers : list Header.t) (end_stream : bool)
| DataReceived (stream_id : Z) (data : list Z) (end_stream : bool)
| StreamClosed (stream_id : Z) (error_code : ErrorCode.t)
| GoawayReceived (last_stream_id : Z) (error_code : ErrorCode.t) (debug_data : list Z)
| PingReceived (opaque_data : list Z) (ack : bool)
| SettingsReceived (ack : bool)
| WindowUpdateReceived (stream_id increment : Z)
| FrameSent (stream_id : Z) (frame_type : FrameType.t)
| FrameNotSent (stream_id : Z) (frame_type : FrameType.t) (lib_error_code : Z)
| InvalidFrameReceived (stream_id : Z) (frame_type : FrameType.t) (lib_error_code : Z)
| InvalidHeaderReceived (stream_id : Z) (name value : list Z).

End Http2Event.

(** ** Errors *)
Module NgError.

Inductive t : Type :=
| Nghttp2 (message : list Z) (code : Z)
| InvalidArgument (message : list Z)
| BufferTooSmall
| StreamNotFound (stream_id : Z)
| SessionClosed
| Callback (message : list Z)
| Internal (message : list Z).

End NgError.

(** ** Facts *)

Lemma utf8_lossy_of_valid l : Syntax.utf8_valid l = true -> from_utf8_lossy l = l.
Proof.
  induction l as [l IH] using (induction_ltof1 _ length). unfold ltof in IH.
  destruct l as [|b0 l1]; [done|]. cbn [Syntax.utf8_valid from_utf8_lossy].
  destruct (b0 <? 0x80); [intros H; rewrite IH; [done|cbn; lia|done]|].
  destruct l1 as [|b1 l2]; [done|].
  destruct (Syntax.in_range 0xC2 0xDF b0).
  { intros [-> H]%andb_true_iff. rewrite IH; [done|cbn; lia|done]. }
  destruct l2 as [|b2 l3]; [done|].
  destruct (Syntax.in_range 0xE0 0xEF b0).
  { intros [[-> ->]%andb_true_iff H]%andb_true_iff. rewrite IH; [done|cbn; lia|done]. }
  destruct l3 as [|b3 l4]; [done|].
  intros [[[[-> ->]%andb_true_iff ->]%andb_true_iff ->]%andb_true_iff H]%andb_true_iff.
  rewrite IH; [done|cbn; lia|done].
Qed.

(** A code from the wire is given back unchanged. *)
Lemma ng_error_code_round_trip n : 0 <= n -> ErrorCode.as_u32 (ErrorCode.from_u32 n) = n.
Proof. intros H. destruct n as [|n|n]; [done| |lia]. do 4 (destruct n as [n|n|]; try done). Qed.

Lemma settings_id_inj : Inj (=) (=) SettingsId.as_i32.
Proof. by intros [] []. Qed.
