(* ===== verification/Nghttp2.v ===== *)
(** * Nghttp2: the C library, as its wrapper sees it

    What [src/crates/nghttp2-sys/src/bindings.rs] declares of the library and
    [src/crates/shiguredo_nghttp2/src/] uses: the constants and structs, and the
    functions, which are parameters (class [Nghttp2]).  A function of the
    library may call back before it returns, and what it does next may depend on
    the answer; so it gives a [script].  [Nghttp2Laws] states what the comments
    in [bindings.rs] document.  At the end the parts of the wrapper that have no
    state: [error.rs], [options.rs], [validation.rs] and [lib.rs]. *)

From S2P Require Import Prelude Syntax NgTypes.

(** ** Constants *)

Definition NGHTTP2_ERR_DEFERRED : Z := -508.
Definition NGHTTP2_ERR_CALLBACK_FAILURE : Z := -902.

Definition NGHTTP2_FLAG_NONE : Z := 0.
Definition NGHTTP2_FLAG_END_STREAM : Z := 1.
Definition NGHTTP2_FLAG_ACK : Z := 1.
Definition NGHTTP2_NV_FLAG_NONE : Z := 0.
Definition NGHTTP2_NV_FLAG_NO_INDEX : Z := 1.
Definition NGHTTP2_DATA_FLAG_EOF : Z := 1.
Definition NGHTTP2_DATA_FLAG_NO_END_STREAM : Z := 2.

Definition NGHTTP2_DATA : Z := 0.
Definition NGHTTP2_HEADERS : Z := 1.
Definition NGHTTP2_SETTINGS : Z := 4.
Definition NGHTTP2_PUSH_PROMISE : Z := 5.
Definition NGHTTP2_PING : Z := 6.
Definition NGHTTP2_GOAWAY : Z := 7.
Definition NGHTTP2_WINDOW_UPDATE : Z := 8.

(** ** Structs

    Of [nghttp2_frame_hd] the members that are read; of the union
    [nghttp2_frame] what is read through each member.  A pointer with a length
    is a list, or [None] where the source tests for the null pointer. *)
Module CFrameHd.
Record t : Type := mk { stream_id : Z; type_ : Z; flags : Z }.
End CFrameHd.

Module CFrame.
Record t : Type := mk {
  hd : CFrameHd.t;
  ping_opaque_data : list Z;
  goaway_last_stream_id : Z;
  goaway_error_code : Z;
  goaway_opaque_data : option (list Z);
  window_size_increment : Z
}.
End CFrame.

Module CNv.
Record t : Type := mk { name : list Z; value : list Z; flags : Z }.
End CNv.

(** ** Callbacks

    The callbacks that are registered with a session, and the read callback of
    a data provider, with their arguments. *)
Module CallbackKind.
Inductive t : Type :=
| FrameRecv | DataChunkRecv | StreamClose | Header | BeginHeaders | FrameSend
| FrameNotSend | InvalidFrameRecv | InvalidHeader | Error2.
End CallbackKind.

Inductive callback : Type :=
| OnBeginHeaders (frame : CFrame.t)
| OnHeader (frame : CFrame.t) (name value : list Z) (flags : Z)
| OnFrameRecv (frame : CFrame.t)
| OnDataChunkRecv (flags stream_id : Z) (data : list Z)
| OnStreamClose (stream_id error_code : Z)
| OnFrameSend (frame : CFrame.t)
| OnFrameNotSend (frame : CFrame.t) (lib_error_code : Z)
| OnInvalidFrameRecv (frame : CFrame.t) (lib_error_code : Z)
| OnInvalidHeader (frame : CFrame.t) (name value : list Z) (flags : Z)
| OnError (lib_error_code : Z) (msg : list Z)
| ReadData (stream_id length data_flags : Z).

(** What the read callback leaves: the code it returns, the octets it stored in
    the buffer, and the flags. *)
Module ReadReply.
Record t : Type := mk { ret : Z; buf : list Z; data_flags : Z }.
End ReadReply.

Definition answer (c : callback) : Type :=
  match c with ReadData _ _ _ => ReadReply.t | _ => Z end.

(** A callback with its answer. *)
Inductive exchange : Type := Exchange (c : callback) (a : answer c).

(** What a function of the library does: return, or call back and go on. *)
Inductive script (A : Type) : Type :=
| Return (a : A)
| Call (c : callback) (k : answer c -> script A).
Arguments Return {A} a.
Arguments Call {A} c k.

(** The script returns the value after these callbacks had these answers. *)
Inductive leads {A} : script A -> list exchange -> A -> Prop :=
| leads_return a : leads (Return a) [] a
| leads_call c k a h r : leads (k a) h r -> leads (Call c k) (Exchange c a :: h) r.

Lemma leads_inv {A} (p : script A) h r : leads p h r ->
  match p with
  | Return a => h = [] /\ r = a
  | Call c k => exists a h', h = Exchange c a :: h' /\ leads (k a) h' r
  end.
Proof. destruct 1; eauto. Qed.

(** ** The functions that change a session, with their arguments *)
Module Request.
Inductive t : Type :=
| submit_settings (flags : Z) (iv : list (Z * Z))
| submit_request2 (nva : list CNv.t) (data_prd : bool)
| submit_response2 (stream_id : Z) (nva : list CNv.t) (data_prd : bool)
| resume_data (stream_id : Z)
| submit_rst_stream (flags stream_id error_code : Z)
| submit_goaway (flags last_stream_id error_code : Z) (opaque_data : list Z)
| submit_ping (flags : Z) (opaque_data : list Z)
| submit_window_update (flags stream_id window_size_increment : Z)
| submit_trailer (stream_id : Z) (nva : list CNv.t)
| submit_headers (flags stream_id : Z) (nva : list CNv.t)
| submit_shutdown_notice
| terminate_session (error_code : Z)
| set_local_window_size (flags stream_id window_size : Z)
| consume (stream_id size : Z)
| consume_connection (size : Z)
| consume_stream (stream_id size : Z).
End Request.

(** Those that only read it. *)
Module Query.
Inductive t : Type :=
| want_write | want_read
| get_remote_settings (id : Z) | get_local_settings (id : Z)
| get_outbound_queue_size | get_next_stream_id | get_last_proc_stream_id
| get_remote_window_size | get_local_window_size
| get_stream_remote_window_size (stream_id : Z)
| get_stream_local_window_size (stream_id : Z).
End Query.

(** The setters of [nghttp2_option]. *)
Module OptionSetter.
Inductive t : Type :=
| no_auto_window_update (val : Z)
| peer_max_concurrent_streams (val : Z)
| no_auto_ping_ack (val : Z)
| max_send_header_block_length (val : Z)
| max_deflate_dynamic_table_size (val : Z)
| max_outbound_ack (val : Z)
| max_settings (val : Z)
| stream_reset_rate_limit (burst rate : Z)
| max_continuations (val : Z)
| glitch_rate_limit (burst rate : Z).
End OptionSetter.

(** The [nghttp2_check_*] functions. *)
Module Checker.
Inductive t : Type := header_name | header_value_rfc9113 | method | path | authority.
End Checker.

(** ** The library

    A code is negative for an error.  [mem_send] returns a length and the memory
    at the pointer it assigns.  [queued] is no function of the library: it
    bounds how often [mem_send] can still return octets that were not read from
    a data provider. *)
Class Nghttp2 := {
  csession : Type;
  coption : Type;
  strerror : Z -> option (list Z);
  http2_strerror_ptr : Z -> option (list Z);
  version_str : option (option (list Z));
  is_fatal_code : Z -> Z;
  check : Checker.t -> list Z -> Z;
  option_new : Z * coption;
  option_set : OptionSetter.t -> coption -> coption;
  callbacks_new : Z;
  session_client_new : list CallbackKind.t -> Z * csession;
  session_client_new2 : list CallbackKind.t -> coption -> Z * csession;
  session_server_new : list CallbackKind.t -> Z * csession;
  session_server_new2 : list CallbackKind.t -> coption -> Z * csession;
  mem_recv : list Z -> csession -> script (Z * csession);
  mem_send : csession -> script (Z * list Z * csession);
  request : Request.t -> csession -> script (Z * csession);
  query : Query.t -> csession -> Z;
  queued : csession -> nat
}.

(** The octets an exchange took from the wrapper. *)
Definition octets_read (x : exchange) : list Z :=
  match x with
  | Exchange (ReadData _ _ _) r => ReadReply.buf r
  | _ => []
  end.

(** Answers that do not stop the library: zero, and at most as many octets as
    there is room for. *)
Definition answer_ok (x : exchange) : Prop :=
  match x with
  | Exchange (ReadData _ length _) r =>
      0 <= length ->
      len (ReadReply.buf r) <= length /\
      (ReadReply.ret r = len (ReadReply.buf r) \/ ReadReply.ret r = NGHTTP2_ERR_DEFERRED /\ ReadReply.buf r = [])
  | Exchange (OnBeginHeaders _) a => a = 0
  | Exchange (OnHeader _ _ _ _) a => a = 0
  | Exchange (OnFrameRecv _) a => a = 0
  | Exchange (OnDataChunkRecv _ _ _) a => a = 0
  | Exchange (OnStreamClose _ _) a => a = 0
  | Exchange (OnFrameSend _) a => a = 0
  | Exchange (OnFrameNotSend _ _) a => a = 0
  | Exchange (OnInvalidFrameRecv _ _) a => a = 0
  | Exchange (OnInvalidHeader _ _ _ _) a => a = 0
  | Exchange (OnError _ _) a => a = 0
  end.

(** What [bindings.rs] documents of the functions that move octets.
    [produced] is what [mem_send] returned so far. *)
Class Nghttp2Laws (N : Nghttp2) := {
  produced : csession -> list Z;
  (** "this function always tries to processes |inlen| bytes of input data
      unless either an error occurs or [NGHTTP2_ERR_PAUSE] is returned" *)
  mem_recv_law : forall l c h n c',
    leads (mem_recv l c) h (n, c') -> Forall answer_ok h ->
    produced c' = produced c /\ (0 <= n -> n = len l);
  (** "returns the length of the data pointed by the |*data_ptr| if it succeeds,
      or one of the following negative error codes"; "To get all data, call this
      function repeatedly until it returns 0": every call that returns octets
      sent a part of what was queued, or octets of a data provider *)
  mem_send_law : forall c h n mem c',
    leads (mem_send c) h (n, mem, c') -> Forall answer_ok h ->
    (0 <= n -> len mem = n) /\
    produced c' = produced c ++ (if 0 <? n then mem else []) /\
    (0 < n -> (queued c' < queued c + length (concat (map octets_read h)))%nat);
  request_law : forall r c h n c',
    leads (request r c) h (n, c') -> Forall answer_ok h -> produced c' = produced c;
  new_law : forall ks, produced (session_client_new ks).2 = [] /\ produced (session_server_new ks).2 = [];
  new2_law : forall ks o, produced (session_client_new2 ks o).2 = [] /\ produced (session_server_new2 ks o).2 = []
}.

(** ** Without a session *)

Section stateless.
Context {N : Nghttp2}.

(** [CStr::to_str], when the octets are UTF-8. *)
Definition cstr_to_str (s : list Z) : option (list Z) := if Syntax.utf8_valid s then Some s else None.

Definition from_nghttp2 (code : Z) : NgError.t :=
  NgError.Nghttp2
    (match strerror code with
     | None => bstr "unknown error"
     | Some ptr => from_utf8_lossy ptr
     end) code.

Definition check_nghttp2 (code : Z) : result NgError.t unit :=
  if code <? 0 then Err (from_nghttp2 code) else Ok tt.

Definition nghttp2_version : list Z :=
  match version_str with
  | None | Some None => bstr "unknown"
  | Some (Some s) => match cstr_to_str s with Some v => v | None => bstr "unknown" end
  end.

Definition check_header_name (name : list Z) : bool := negb (check Checker.header_name name =? 0).
Definition check_header_value_rfc9113 (value : list Z) : bool := negb (check Checker.header_value_rfc9113 value =? 0).
Definition check_method (method : list Z) : bool := negb (check Checker.method method =? 0).
Definition check_path (path : list Z) : bool := negb (check Checker.path path =? 0).
Definition check_authority (authority : list Z) : bool := negb (check Checker.authority authority =? 0).

Definition http2_strerror (error_code : ErrorCode.t) : list Z :=
  match http2_strerror_ptr (ErrorCode.as_u32 error_code) with
  | None => bstr "unknown error"
  | Some ptr => match cstr_to_str ptr with Some s => s | None => bstr "unknown error" end
  end.

Definition is_fatal (lib_error_code : Z) : bool := negb (is_fatal_code lib_error_code =? 0).

End stateless.

(** ** Session options *)
Module SessionOptions.

Section options.
Context {N : Nghttp2}.

Record t : Type := mk { option : coption }.

Definition new : result NgError.t t :=
  let '(code, option) := option_new in
  let? _ := check_nghttp2 code in
  Ok (mk option).

(** [val as c_int]. *)
Definition as_int (val : bool) : Z := if val then 1 else 0.

Definition set (x : OptionSetter.t) (self : t) : t := mk (option_set x (option self)).

Definition no_auto_window_update (val : bool) : t -> t := set (OptionSetter.no_auto_window_update (as_int val)).
Definition peer_max_concurrent_streams (val : Z) : t -> t := set (OptionSetter.peer_max_concurrent_streams val).
Definition no_auto_ping_ack (val : bool) : t -> t := set (OptionSetter.no_auto_ping_ack (as_int val)).
Definition max_send_header_block_length (val : Z) : t -> t := set (OptionSetter.max_send_header_block_length val).
Definition max_deflate_dynamic_table_size (val : Z) : t -> t := set (OptionSetter.max_deflate_dynamic_table_size val).
Definition max_outbound_ack (val : Z) : t -> t := set (OptionSetter.max_outbound_ack val).
Definition max_settings (val : Z) : t -> t := set (OptionSetter.max_settings val).
Definition stream_reset_rate_limit (burst rate : Z) : t -> t := set (OptionSetter.stream_reset_rate_limit burst rate).
Definition max_continuations (val : Z) : t -> t := set (OptionSetter.max_continuations val).
Definition glitch_rate_limit (burst rate : Z) : t -> t := set (OptionSetter.glitch_rate_limit burst rate).
Definition as_ptr (self : t) : coption := option self.

End options.
End SessionOptions.
