(* ===== verification/NgSession.v ===== *)
(** * NgSession: a session over nghttp2

    Models [src/crates/shiguredo_nghttp2/src/session.rs]: the session with its
    queue of events and its buffers, the callbacks that fill and empty them, and
    every method.  A method calls functions of the library ([Nghttp2]); [run]
    lets the callbacks of their scripts act on the session. *)

From S2P Require Import Prelude NgTypes Nghttp2.

Module SessionRole.
Inductive t : Type := Client | Server.
#[global] Instance role_eq_dec : EqDecision t.
Proof. solve_decision. Defined.
End SessionRole.

Module StreamSendBuffer.
Record t : Type := mk { data : list Z; end_stream : bool; no_end_stream : bool }.
#[global] Instance eta_buffer : Eta t := fun b => mk (data b) (end_stream b) (no_end_stream b).
(** The buffer every method starts from. *)
Definition empty : t := mk [] false false.
End StreamSendBuffer.

(** [x as i32] of an [isize]. *)
Definition as_i32 (x : Z) : Z := (x + 2 ^ 31) mod 2 ^ 32 - 2 ^ 31.

Definition has_flag (flags flag : Z) : bool := negb (Z.land flags flag =? 0).

Module Session.

Section session.
Context {N : Nghttp2}.

(** [user_data] tells whether the pointer registered with the C session is that
    of the session, or null.  [history] is no field of the source: it logs the
    callbacks and their answers. *)
Record t : Type := mk {
  session : csession;
  user_data : bool;
  role : SessionRole.t;
  events : list Http2Event.t;
  output : list Z;
  pending_headers : gmap Z (list Header.t);
  pending_data : gmap Z (list Z);
  send_buffers : gmap Z StreamSendBuffer.t;
  last_error_message : option (list Z);
  history : list exchange
}.

#[global] Instance eta_session : Eta t := fun s =>
  mk (session s) (user_data s) (role s) (events s) (output s) (pending_headers s)
     (pending_data s) (send_buffers s) (last_error_message s) (history s).

Definition M (A : Type) : Type := ST t NgError.t A.

(** ** What the callbacks do *)

Definition push_event (event : Http2Event.t) (s : t) : t := s <| events := events s ++ [event] |>.

Definition push_header (stream_id : Z) (header : Header.t) (s : t) : t :=
  s <| pending_headers := <[stream_id := default [] (pending_headers s !! stream_id) ++ [header]]> (pending_headers s) |>.

Definition take_headers (stream_id : Z) (s : t) : list Header.t * t :=
  (default [] (pending_headers s !! stream_id), s <| pending_headers := delete stream_id (pending_headers s) |>).

Definition push_data (stream_id : Z) (data : list Z) (s : t) : t :=
  s <| pending_data := <[stream_id := default [] (pending_data s !! stream_id) ++ data]> (pending_data s) |>.

Definition take_data (stream_id : Z) (s : t) : list Z * t :=
  (default [] (pending_data s !! stream_id), s <| pending_data := delete stream_id (pending_data s) |>).

(** [if let Some(session) = get_session(user_data) { ... }], then [0]. *)
Definition with_session (k : t -> t) (s : t) : Z * t := (0, if user_data s then k s else s).

(** EOF, and in the mode for trailers no END_STREAM. *)
Definition eof_flags (b : StreamSendBuffer.t) (data_flags : Z) : Z :=
  let data_flags := Z.lor data_flags NGHTTP2_DATA_FLAG_EOF in
  if StreamSendBuffer.no_end_stream b then Z.lor data_flags NGHTTP2_DATA_FLAG_NO_END_STREAM else data_flags.

Definition is_empty {A} (l : list A) : bool := match l with [] => true | _ => false end.

Definition data_source_read_callback (stream_id length data_flags : Z) (s : t) : ReadReply.t * t :=
  if negb (user_data s) then (ReadReply.mk NGHTTP2_ERR_CALLBACK_FAILURE [] data_flags, s)
  else
    match send_buffers s !! stream_id with
    | None => (ReadReply.mk NGHTTP2_ERR_DEFERRED [] data_flags, s)
    | Some send_buf =>
        if is_empty (StreamSendBuffer.data send_buf) then
          if StreamSendBuffer.end_stream send_buf then (ReadReply.mk 0 [] (eof_flags send_buf data_flags), s)
          else (ReadReply.mk NGHTTP2_ERR_DEFERRED [] data_flags, s)
        else
          let copy_len := Z.min length (len (StreamSendBuffer.data send_buf)) in
          let buf := take (Z.to_nat copy_len) (StreamSendBuffer.data send_buf) in
          let send_buf := send_buf <| StreamSendBuffer.data := drop (Z.to_nat copy_len) (StreamSendBuffer.data send_buf) |> in
          let s := s <| send_buffers := <[stream_id := send_buf]> (send_buffers s) |> in
          (ReadReply.mk copy_len buf
             (if is_empty (StreamSendBuffer.data send_buf) && StreamSendBuffer.end_stream send_buf
              then eof_flags send_buf data_flags else data_flags), s)
    end.

Definition on_begin_headers_callback (frame : CFrame.t) (s : t) : Z * t := (0, s).

Definition on_header_callback (frame : CFrame.t) (name value : list Z) (flags : Z) : t -> Z * t :=
  with_session (fun s => push_header (CFrameHd.stream_id (CFrame.hd frame)) (Header.new name value) s).

Definition on_frame_recv_callback (frame : CFrame.t) : t -> Z * t :=
  with_session (fun s =>
    let hd := CFrame.hd frame in
    let frame_type := CFrameHd.type_ hd in
    let stream_id := CFrameHd.stream_id hd in
    if frame_type =? NGHTTP2_SETTINGS then
      push_event (Http2Event.SettingsReceived (has_flag (CFrameHd.flags hd) NGHTTP2_FLAG_ACK)) s
    else if frame_type =? NGHTTP2_PING then
      push_event (Http2Event.PingReceived (CFrame.ping_opaque_data frame) (has_flag (CFrameHd.flags hd) NGHTTP2_FLAG_ACK)) s
    else if frame_type =? NGHTTP2_GOAWAY then
      push_event (Http2Event.GoawayReceived (CFrame.goaway_last_stream_id frame)
        (ErrorCode.from_u32 (CFrame.goaway_error_code frame)) (default [] (CFrame.goaway_opaque_data frame))) s
    else if frame_type =? NGHTTP2_WINDOW_UPDATE then
      push_event (Http2Event.WindowUpdateReceived stream_id (as_u32 (CFrame.window_size_increment frame))) s
    else if frame_type =? NGHTTP2_HEADERS then
      let end_stream := has_flag (CFrameHd.flags hd) NGHTTP2_FLAG_END_STREAM in
      let '(headers, s) := take_headers stream_id s in
      push_event (Http2Event.HeadersReceived stream_id headers end_stream) s
    else if frame_type =? NGHTTP2_DATA then
      let end_stream := has_flag (CFrameHd.flags hd) NGHTTP2_FLAG_END_STREAM in
      let '(data, s) := take_data stream_id s in
      if negb (is_empty data) || end_stream then push_event (Http2Event.DataReceived stream_id data end_stream) s
      else s
    else s).

Definition on_data_chunk_recv_callback (flags stream_id : Z) (data : list Z) : t -> Z * t :=
  with_session (push_data stream_id data).

Definition on_stream_close_callback (stream_id error_code : Z) : t -> Z * t :=
  with_session (fun s =>
    let s := s <| send_buffers := delete stream_id (send_buffers s) |> in
    let s := s <| pending_headers := delete stream_id (pending_headers s) |> in
    let s := s <| pending_data := delete stream_id (pending_data s) |> in
    push_event (Http2Event.StreamClosed stream_id (ErrorCode.from_u32 error_code)) s).

(** [if let Some(frame_type) = FrameType::from_u8(frame.hd.type_)]. *)
Definition frame_event (f : Z -> FrameType.t -> Http2Event.t) (frame : CFrame.t) (s : t) : t :=
  match FrameType.from_u8 (CFrameHd.type_ (CFrame.hd frame)) with
  | Some frame_type => push_event (f (CFrameHd.stream_id (CFrame.hd frame)) frame_type) s
  | None => s
  end.

Definition on_frame_send_callback (frame : CFrame.t) : t -> Z * t :=
  with_session (frame_event Http2Event.FrameSent frame).

Definition on_frame_not_send_callback (frame : CFrame.t) (lib_error_code : Z) : t -> Z * t :=
  with_session (frame_event (fun id ty => Http2Event.FrameNotSent id ty lib_error_code) frame).

Definition on_invalid_frame_recv_callback (frame : CFrame.t) (lib_error_code : Z) : t -> Z * t :=
  with_session (frame_event (fun id ty => Http2Event.InvalidFrameReceived id ty lib_error_code) frame).

Definition on_invalid_header_callback (frame : CFrame.t) (name value : list Z) (flags : Z) : t -> Z * t :=
  with_session (push_event (Http2Event.InvalidHeaderReceived (CFrameHd.stream_id (CFrame.hd frame)) name value)).

Definition on_error_callback2 (lib_error_code : Z) (msg : list Z) : t -> Z * t :=
  with_session (fun s => s <| last_error_message := Some (from_utf8_lossy msg) |>).

(** The callback that [new] registered for each kind. *)
Definition handle (c : callback) : t -> answer c * t :=
  match c with
  | OnBeginHeaders frame => on_begin_headers_callback frame
  | OnHeader frame name value flags => on_header_callback frame name value flags
  | OnFrameRecv frame => on_frame_recv_callback frame
  | OnDataChunkRecv flags stream_id data => on_data_chunk_recv_callback flags stream_id data
  | OnStreamClose stream_id error_code => on_stream_close_callback stream_id error_code
  | OnFrameSend frame => on_frame_send_callback frame
  | OnFrameNotSend frame code => on_frame_not_send_callback frame code
  | OnInvalidFrameRecv frame code => on_invalid_frame_recv_callback frame code
  | OnInvalidHeader frame name value flags => on_invalid_header_callback frame name value flags
  | OnError code msg => on_error_callback2 code msg
  | ReadData stream_id length data_flags => data_source_read_callback stream_id length data_flags
  end.

(** A script with the callbacks of this session. *)
Fixpoint run {A} (p : script A) (s : t) : A * t :=
  match p with
  | Return a => (a, s)
  | Call c k => let '(a, s) := handle c s in run (k a) (s <| history := history s ++ [Exchange c a] |>)
  end.

(** A call of a function of the library. *)
Definition call {A} (f : csession -> script (A * csession)) : M A := fun s =>
  let '((a, c), s) := run (f (session s)) s in (Ok a, s <| session := c |>).

(** ** Construction *)

Definition registered : list CallbackKind.t :=
  [CallbackKind.FrameRecv; CallbackKind.DataChunkRecv; CallbackKind.StreamClose; CallbackKind.Header;
   CallbackKind.BeginHeaders; CallbackKind.FrameSend; CallbackKind.FrameNotSend; CallbackKind.InvalidFrameRecv;
   CallbackKind.InvalidHeader; CallbackKind.Error2].

Definition new (role : SessionRole.t) (options : option SessionOptions.t) : result NgError.t t :=
  let? _ := check_nghttp2 callbacks_new in
  let '(result, session) :=
    match role, options with
    | SessionRole.Client, Some opts => session_client_new2 registered (SessionOptions.as_ptr opts)
    | SessionRole.Client, None => session_client_new registered
    | SessionRole.Server, Some opts => session_server_new2 registered (SessionOptions.as_ptr opts)
    | SessionRole.Server, None => session_server_new registered
    end in
  let? _ := check_nghttp2 result in
  Ok (mk session false role [] [] ∅ ∅ ∅ None []).

Definition set_user_data (s : t) : t := s <| user_data := true |>.

Definition client : result NgError.t t :=
  let? session := new SessionRole.Client None in Ok (set_user_data session).
Definition server : result NgError.t t :=
  let? session := new SessionRole.Server None in Ok (set_user_data session).
Definition client_with_options (options : SessionOptions.t) : result NgError.t t :=
  let? session := new SessionRole.Client (Some options) in Ok (set_user_data session).
Definition server_with_options (options : SessionOptions.t) : result NgError.t t :=
  let? session := new SessionRole.Server (Some options) in Ok (set_user_data session).

(** ** Receiving and sending *)

Definition recv (data : list Z) : M Z :=
  let! result := call (mem_recv data) in
  if result <? 0 then throw (from_nghttp2 (as_i32 result)) else ret result.

(** The octets that wait in the send buffers. *)
Definition buffered (s : t) : nat :=
  map_fold (fun _ b n => (length (StreamSendBuffer.data b) + n)%nat) 0%nat (send_buffers s).

Fixpoint send_loop (fuel : nat) : M unit :=
  match fuel with
  | O => panic
  | S fuel =>
      let! sent := call mem_send in
      let '(length, data_ptr) := sent in
      if length <? 0 then throw (from_nghttp2 (as_i32 length))
      else if length =? 0 then ret tt
      else
        let! slice := lift (slice data_ptr 0 length) in
        modify (fun s => s <| output := output s ++ slice |>) ;!
        send_loop fuel
  end.

Definition send : M (list Z) :=
  modify (fun s => s <| output := [] |>) ;!
  let! fuel := gets (fun s => S (queued (session s) + buffered s)) in
  send_loop fuel ;!
  let! out := gets output in
  modify (fun s => s <| output := [] |>) ;!
  ret out.

Definition poll_event : M (option Http2Event.t) := fun s =>
  match events s with
  | [] => (Ok None, s)
  | event :: rest => (Ok (Some event), s <| events := rest |>)
  end.

(** ** Submitting *)

Definition headers_to_nva (headers : list Header.t) : list CNv.t :=
  map (fun h => CNv.mk (Header.name h) (Header.value h)
    (if Header.sensitive h then NGHTTP2_NV_FLAG_NO_INDEX else NGHTTP2_NV_FLAG_NONE)) headers.

(** [check_nghttp2(nghttp2_...(self.session, ...))]. *)
Definition checked (r : Request.t) : M unit :=
  let! code := call (request r) in
  lift (check_nghttp2 code).

Definition insert_buffer (stream_id : Z) (b : StreamSendBuffer.t) : M unit :=
  modify (fun s => s <| send_buffers := <[stream_id := b]> (send_buffers s) |>).

Definition submit_settings (settings : list (SettingsId.t * Z)) : M unit :=
  checked (Request.submit_settings NGHTTP2_FLAG_NONE (map (fun '(id, value) => (SettingsId.as_i32 id, value)) settings)).

Definition submit_request (headers : list Header.t) (data : option (list Z)) (end_stream : bool) : M Z :=
  let nva := headers_to_nva headers in
  let! stream_id :=
    if bool_decide (data = None) && end_stream then call (request (Request.submit_request2 nva false))
    else
      let! stream_id := call (request (Request.submit_request2 nva true)) in
      (if 0 <? stream_id then
         insert_buffer stream_id
           (match data with
            | Some d => StreamSendBuffer.mk d end_stream false
            | None => StreamSendBuffer.empty
            end)
       else ret tt) ;!
      ret stream_id in
  if stream_id <? 0 then throw (from_nghttp2 stream_id) else ret stream_id.

Definition submit_response (stream_id : Z) (headers : list Header.t) (end_stream : bool) : M unit :=
  let nva := headers_to_nva headers in
  if end_stream then checked (Request.submit_response2 stream_id nva false)
  else
    checked (Request.submit_response2 stream_id nva true) ;!
    insert_buffer stream_id StreamSendBuffer.empty.

(** [self.send_buffers.entry(stream_id).or_insert_with(...)], changed. *)
Definition update_buffer (stream_id : Z) (f : StreamSendBuffer.t -> StreamSendBuffer.t) : M unit :=
  modify (fun s =>
    s <| send_buffers := <[stream_id := f (default StreamSendBuffer.empty (send_buffers s !! stream_id))]> (send_buffers s) |>).

Definition submit_data (stream_id : Z) (data : list Z) (end_stream : bool) : M unit :=
  update_buffer stream_id (fun send_buf =>
    let send_buf := send_buf <| StreamSendBuffer.data := StreamSendBuffer.data send_buf ++ data |> in
    if end_stream then send_buf <| StreamSendBuffer.end_stream := true |> else send_buf) ;!
  checked (Request.resume_data stream_id).

Definition submit_data_for_trailer (stream_id : Z) (data : list Z) : M unit :=
  update_buffer stream_id (fun send_buf =>
    StreamSendBuffer.mk (StreamSendBuffer.data send_buf ++ data) true true) ;!
  checked (Request.resume_data stream_id).

Definition submit_rst_stream (stream_id : Z) (error_code : ErrorCode.t) : M unit :=
  checked (Request.submit_rst_stream NGHTTP2_FLAG_NONE stream_id (ErrorCode.as_u32 error_code)).

Definition submit_goaway (last_stream_id : Z) (error_code : ErrorCode.t) (debug_data : list Z) : M unit :=
  checked (Request.submit_goaway NGHTTP2_FLAG_NONE last_stream_id (ErrorCode.as_u32 error_code) debug_data).

Definition submit_ping (opaque_data : list Z) : M unit :=
  checked (Request.submit_ping NGHTTP2_FLAG_NONE opaque_data).

Definition submit_window_update (stream_id increment : Z) : M unit :=
  checked (Request.submit_window_update NGHTTP2_FLAG_NONE stream_id increment).

Definition submit_trailer (stream_id : Z) (headers : list Header.t) : M unit :=
  checked (Request.submit_trailer stream_id (headers_to_nva headers)).

Definition submit_headers (stream_id : Z) (headers : list Header.t) (end_stream : bool) : M unit :=
  let nva := headers_to_nva headers in
  let flags := if end_stream then NGHTTP2_FLAG_END_STREAM else NGHTTP2_FLAG_NONE in
  let! result := call (request (Request.submit_headers flags stream_id nva)) in
  if result <? 0 then throw (from_nghttp2 result) else ret tt.

Definition submit_shutdown_notice : M unit := checked Request.submit_shutdown_notice.
Definition terminate_session (error_code : ErrorCode.t) : M unit :=
  checked (Request.terminate_session (ErrorCode.as_u32 error_code)).

(** ** Windows *)

Definition set_local_window_size (stream_id window_size : Z) : M unit :=
  checked (Request.set_local_window_size NGHTTP2_FLAG_NONE stream_id window_size).
Definition consume (stream_id size : Z) : M unit := checked (Request.consume stream_id size).
Definition consume_connection (size : Z) : M unit := checked (Request.consume_connection size).
Definition consume_stream (stream_id size : Z) : M unit := checked (Request.consume_stream stream_id size).

(** ** Queries *)

Definition ask (q : Query.t) (s : t) : Z := query q (session s).

Definition want_write (s : t) : bool := negb (ask Query.want_write s =? 0).
Definition want_read (s : t) : bool := negb (ask Query.want_read s =? 0).
Definition get_remote_settings (id : SettingsId.t) : t -> Z := ask (Query.get_remote_settings (as_u32 (SettingsId.as_i32 id))).
Definition get_local_settings (id : SettingsId.t) : t -> Z := ask (Query.get_local_settings (as_u32 (SettingsId.as_i32 id))).
Definition get_outbound_queue_size : t -> Z := ask Query.get_outbound_queue_size.
Definition get_next_stream_id : t -> Z := ask Query.get_next_stream_id.
Definition get_last_proc_stream_id : t -> Z := ask Query.get_last_proc_stream_id.
Definition get_remote_window_size : t -> Z := ask Query.get_remote_window_size.
Definition get_local_window_size : t -> Z := ask Query.get_local_window_size.

Definition get_stream_remote_window_size (stream_id : Z) (s : t) : result NgError.t Z :=
  let result := ask (Query.get_stream_remote_window_size stream_id) s in
  if result <? 0 then Err (NgError.StreamNotFound stream_id) else Ok result.
Definition get_stream_local_window_size (stream_id : Z) (s : t) : result NgError.t Z :=
  let result := ask (Query.get_stream_local_window_size stream_id) s in
  if result <? 0 then Err (NgError.StreamNotFound stream_id) else Ok result.

End session.
End Session.
