(* ===== verification/NgPlayer.v ===== *)
(** * NgPlayer: a library that plays a part

    An instance of [Nghttp2] that keeps the documented behaviour: each call of
    [mem_recv] makes the callbacks that were laid down for it, and [mem_send]
    sends the octets that were laid down, or reads them from the session.  It
    serves the concrete runs of the development. *)

From S2P Require Import Prelude NgTypes Nghttp2.

(** What [mem_send] has to send: octets, or a read of at most so many octets. *)
Inductive part : Type :=
| Octets (l : list Z)
| FromStream (stream_id : Z) (length : nat).

Record player : Type := mk_player { plays : list (list callback); parts : list part; sent : list Z }.

Section play.
Context {A : Type}.

Fixpoint play (cs : list callback) (k : script A) : script A :=
  match cs with
  | [] => k
  | c :: cs => Call c (fun _ => play cs k)
  end.

Lemma leads_play cs k h a : leads (play cs k) h a -> exists h', leads k h' a.
Proof.
  revert h. induction cs as [|c cs IH]; intros h H; cbn in H; [eauto|].
  apply leads_inv in H as (r & h' & -> & H). by eapply IH.
Qed.

End play.

Definition play_recv (l : list Z) (p : player) : script (Z * player) :=
  match plays p with
  | [] => Return (len l, p)
  | cs :: rest => play cs (Return (len l, mk_player rest (parts p) (sent p)))
  end.

Fixpoint play_parts (ps : list part) (p : player) : script (Z * list Z * player) :=
  match ps with
  | [] => Return (0, [], mk_player (plays p) [] (sent p))
  | Octets [] :: ps => play_parts ps p
  | Octets l :: ps => Return (len l, l, mk_player (plays p) ps (sent p ++ l))
  | FromStream id n :: ps =>
      Call (ReadData id (Z.of_nat n) 0) (fun r =>
        if 0 <? ReadReply.ret r
        then Return (ReadReply.ret r, ReadReply.buf r, mk_player (plays p) ps (sent p ++ ReadReply.buf r))
        else play_parts ps p)
  end.

(** The first request opens stream 1; stream 99 has no deferred data. *)
Definition play_request (r : Request.t) (p : player) : script (Z * player) :=
  Return (match r with
          | Request.submit_request2 _ _ => 1
          | Request.resume_data id => if id =? 99 then -501 else 0
          | _ => 0
          end, p).

Definition player_library (ps : list (list callback)) (qs : list part) : Nghttp2 := {|
  csession := player;
  coption := unit;
  strerror := fun _ => Some (bstr "error");
  http2_strerror_ptr := fun _ => None;
  version_str := Some (Some (bstr "1.0.0"));
  is_fatal_code := fun code => if code <? -900 then 1 else 0;
  check := fun _ l => if len l =? 0 then 0 else 1;
  option_new := (0, tt);
  option_set := fun _ o => o;
  callbacks_new := 0;
  session_client_new := fun _ => (0, mk_player ps qs []);
  session_client_new2 := fun _ _ => (0, mk_player ps qs []);
  session_server_new := fun _ => (0, mk_player ps qs []);
  session_server_new2 := fun _ _ => (0, mk_player ps qs []);
  mem_recv := play_recv;
  mem_send := fun p => play_parts (parts p) p;
  request := play_request;
  query := fun _ _ => 0;
  queued := fun p => length (parts p)
|}.

Lemma leads_parts qs p h n mem p' :
  leads (play_parts qs p) h (n, mem, p') -> Forall answer_ok h ->
  (0 <= n -> len mem = n) /\ sent p' = sent p ++ (if 0 <? n then mem else []) /\
  (0 < n -> (length (parts p') < length qs)%nat).
Proof.
  revert h. induction qs as [|q qs IH]; intros h H Hh; cbn [play_parts] in H.
  - apply leads_inv in H as [-> [= -> -> ->]]. cbn. rewrite app_nil_r. split_and!; [done|done|lia].
  - destruct q as [[|o l]|id k].
    + destruct (IH h H Hh) as (? & ? & Hl). split_and!; [done|done|]. intros Hn. specialize (Hl Hn). cbn. lia.
    + apply leads_inv in H as [-> [= -> -> ->]]. pose proof (len_nonneg l). rewrite len_cons.
      assert ((0 <? 1 + len l) = true) as -> by lia. split_and!; [done|done|]. cbn. lia.
    + apply leads_inv in H as (r & h' & -> & Hl). apply Forall_cons in Hh as [Hok Hh]. cbn in Hok.
      destruct (Hok ltac:(lia)) as [_ Hr].
      destruct (0 <? ReadReply.ret r) eqn:E.
      * apply leads_inv in Hl as [-> [= -> -> ->]]. rewrite E. destruct Hr as [Hr|[Hr _]]; [|zbool; rewrite Hr in E; done].
        split_and!; [by rewrite Hr|done|]. cbn. lia.
      * destruct (IH h' Hl Hh) as (? & ? & Hlt). split_and!; [done|done|]. intros Hn. specialize (Hlt Hn). cbn. lia.
Qed.

#[global] Instance player_laws ps qs : Nghttp2Laws (player_library ps qs).
Proof.
  refine {| produced := (sent : @csession (player_library ps qs) -> list Z) |}.
  - cbn. unfold play_recv. intros l c h n c' H _. destruct (plays c) as [|cs rest].
    + by apply leads_inv in H as [-> [= -> ->]].
    + apply leads_play in H as [h' H]. by apply leads_inv in H as [-> [= -> ->]].
  - cbn. intros c h n mem c' H Hh. destruct (leads_parts _ _ _ _ _ _ H Hh) as (? & ? & Hl).
    split_and!; [done|done|]. intros Hn. specialize (Hl Hn). lia.
  - cbn. intros r c h n c' H _. by apply leads_inv in H as [-> [= -> ->]].
  - done.
  - done.
Defined.
