(* ===== verification/NgApi.v ===== *)
(** * NgApi: sequences of calls of an nghttp2 session

    The methods of the session as a type of calls, their transcript (what each
    call returned and which callbacks the library made meanwhile), and what
    every script does to a session: the answers are such that the library goes
    on, they are logged, and the registered pointer stays. *)

From S2P Require Import Prelude NgTypes Nghttp2 NgSession.
Import Session.

(** ** Scripts *)

Section scripts.
Context {N : Nghttp2}.

(** A callback, answered and logged. *)
Definition respond (c : callback) (s : t) : answer c * t :=
  let '(a, s) := handle c s in (a, s <| history := history s ++ [Exchange c a] |>).

Lemma run_call_eq {A} c (k : answer c -> script A) s :
  run (Call c k) s = (let '(a, s') := respond c s in run (k a) s').
Proof. cbn [run]. unfold respond. by destruct (handle c s). Qed.

(** A relation that every answered callback and every sequence of them has. *)
Lemma run_preserves (R : t -> list exchange -> t -> Prop) :
  (forall s, R s [] s) ->
  (forall s h1 s1 h2 s2, R s h1 s1 -> R s1 h2 s2 -> R s (h1 ++ h2) s2) ->
  (forall c s, let '(a, s') := respond c s in R s [Exchange c a] s') ->
  forall {A} (p : script A) s, let '(a, s') := run p s in exists h, leads p h a /\ R s h s'.
Proof.
  intros Hr Ht Hc A p. induction p as [a|c k IH]; intros s.
  - exists []. split; [constructor|apply Hr].
  - rewrite run_call_eq. specialize (Hc c s). destruct (respond c s) as [a s1].
    specialize (IH a s1). destruct (run (k a) s1) as [r s2]. destruct IH as (h & Hl & HR).
    exists (Exchange c a :: h). split; [by constructor|]. exact (Ht _ _ _ _ _ Hc HR).
Qed.

(** What a callback leaves alone. *)
Lemma handle_frame c s :
  let '(a, s') := handle c s in
  session s' = session s /\ user_data s' = user_data s /\ role s' = role s /\
  output s' = output s /\ history s' = history s /\
  (user_data s = true -> answer_ok (Exchange c a)).
Proof.
  destruct c; cbn [handle answer_ok];
    unfold on_begin_headers_callback, on_header_callback, on_frame_recv_callback, on_data_chunk_recv_callback,
      on_stream_close_callback, on_frame_send_callback, on_frame_not_send_callback, on_invalid_frame_recv_callback,
      on_invalid_header_callback, on_error_callback2, with_session, frame_event, take_headers, take_data;
    try (destruct (user_data s) eqn:Eu; repeat case_match; by rewrite ?Eu).
  unfold data_source_read_callback. destruct (user_data s) eqn:Eu; cbn [negb]; [|by rewrite Eu].
  destruct (send_buffers s !! stream_id) as [b|].
  2:{ rewrite Eu. do 5 (split; [done|]). intros _ Hl. split; [exact Hl|by right]. }
  pose proof (len_nonneg (StreamSendBuffer.data b)) as Hb.
  destruct (is_empty (StreamSendBuffer.data b)) eqn:Ee.
  - destruct (StreamSendBuffer.end_stream b); rewrite Eu; (do 5 (split; [done|])); intros _ Hl; (split; [exact Hl|]); [by left|by right].
  - do 5 (split; [done|]). intros _ Hl. cbn.
    rewrite len_take, Z2Nat.id by lia. split; [lia|left; lia].
Qed.

(** The callbacks that change the send buffers. *)
Definition feeds (c : callback) : bool :=
  match c with ReadData _ _ _ | OnStreamClose _ _ => true | _ => false end.

Lemma handle_buffers c s : feeds c = false -> send_buffers (handle c s).2 = send_buffers s.
Proof.
  destruct c; intros H; try done; cbn [handle];
    unfold on_begin_headers_callback, on_header_callback, on_frame_recv_callback, on_data_chunk_recv_callback,
      on_frame_send_callback, on_frame_not_send_callback, on_invalid_frame_recv_callback,
      on_invalid_header_callback, on_error_callback2, with_session, frame_event, take_headers, take_data;
    cbn [snd]; repeat case_match; done.
Qed.

(** What every script leaves, with the log of its exchanges. *)
Definition logged (s : t) (h : list exchange) (s' : t) : Prop :=
  session s' = session s /\ user_data s' = user_data s /\ role s' = role s /\ output s' = output s /\
  history s' = history s ++ h /\ (user_data s = true -> Forall answer_ok h).

Lemma logged_refl s : logged s [] s.
Proof. unfold logged. by rewrite app_nil_r. Qed.

Lemma logged_trans s h1 s1 h2 s2 : logged s h1 s1 -> logged s1 h2 s2 -> logged s (h1 ++ h2) s2.
Proof.
  intros (? & E & ? & ? & Eh & Ho) (? & ? & ? & ? & Eh' & Ho').
  unfold logged. rewrite Eh', Eh, app_assoc. split_and!; try congruence.
  intros Hu. apply Forall_app. split; [auto|]. apply Ho'. congruence.
Qed.

Lemma respond_logged c s : let '(a, s') := respond c s in logged s [Exchange c a] s'.
Proof.
  unfold respond. pose proof (handle_frame c s) as H. destruct (handle c s) as [a s'].
  destruct H as (? & ? & ? & ? & Eh & Ho). unfold logged. cbn. rewrite Eh. split_and!; auto.
Qed.

(** A call of the library: the script it was, with what happened to the session;
    [R] is a further relation of the caller's. *)
Lemma call_runs (R : t -> list exchange -> t -> Prop) :
  (forall s, R s [] s) ->
  (forall s h1 s1 h2 s2, R s h1 s1 -> R s1 h2 s2 -> R s (h1 ++ h2) s2) ->
  (forall c s, let '(a, s') := respond c s in R s [Exchange c a] s') ->
  forall {A} (f : csession -> script (A * csession)) s,
  exists a c h s', call f s = (Ok a, s' <| session := c |>) /\ leads (f (session s)) h (a, c) /\ logged s h s' /\ R s h s'.
Proof.
  intros Hr Ht Hc A f s. unfold call.
  pose proof (run_preserves (fun s h s' => logged s h s' /\ R s h s')
    (fun s => conj (logged_refl s) (Hr s))
    (fun s h1 s1 h2 s2 H1 H2 => conj (logged_trans _ _ _ _ _ (proj1 H1) (proj1 H2)) (Ht _ _ _ _ _ (proj2 H1) (proj2 H2)))) as H.
  specialize (H ltac:(intros c s0; pose proof (respond_logged c s0); specialize (Hc c s0); by destruct (respond c s0))).
  specialize (H _ (f (session s)) s). destruct (run (f (session s)) s) as [[a c] s']. destruct H as (h & Hl & Hg & HR).
  by exists a, c, h, s'.
Qed.

End scripts.

(** ** Calls *)

Inductive call : Type :=
| Recv (data : list Z)
| Send
| PollEvent
| SubmitSettings (settings : list (SettingsId.t * Z))
| SubmitRequest (headers : list Header.t) (data : option (list Z)) (end_stream : bool)
| SubmitResponse (stream_id : Z) (headers : list Header.t) (end_stream : bool)
| SubmitData (stream_id : Z) (data : list Z) (end_stream : bool)
| SubmitDataForTrailer (stream_id : Z) (data : list Z)
| SubmitRstStream (stream_id : Z) (error_code : ErrorCode.t)
| SubmitGoaway (last_stream_id : Z) (error_code : ErrorCode.t) (debug_data : list Z)
| SubmitPing (opaque_data : list Z)
| SubmitWindowUpdate (stream_id increment : Z)
| SubmitTrailer (stream_id : Z) (headers : list Header.t)
| SubmitHeaders (stream_id : Z) (headers : list Header.t) (end_stream : bool)
| SubmitShutdownNotice
| TerminateSession (error_code : ErrorCode.t)
| SetLocalWindowSize (stream_id window_size : Z)
| Consume (stream_id size : Z)
| ConsumeConnection (size : Z)
| ConsumeStream (stream_id size : Z).

Inductive reply : Type :=
| Done
| Count (n : Z)
| Output (out : list Z)
| Event (e : option Http2Event.t).

Section calls.
Context {N : Nghttp2}.

Definition done (m : M unit) : M reply := m ;! ret Done.

Definition run_call (x : call) : M reply :=
  match x with
  | Recv data => let! n := recv data in ret (Count n)
  | Send => let! out := send in ret (Output out)
  | PollEvent => let! e := poll_event in ret (Event e)
  | SubmitSettings settings => done (submit_settings settings)
  | SubmitRequest headers data end_stream => let! id := submit_request headers data end_stream in ret (Count id)
  | SubmitResponse id headers end_stream => done (submit_response id headers end_stream)
  | SubmitData id data end_stream => done (submit_data id data end_stream)
  | SubmitDataForTrailer id data => done (submit_data_for_trailer id data)
  | SubmitRstStream id code => done (submit_rst_stream id code)
  | SubmitGoaway id code debug => done (submit_goaway id code debug)
  | SubmitPing opaque => done (submit_ping opaque)
  | SubmitWindowUpdate id increment => done (submit_window_update id increment)
  | SubmitTrailer id headers => done (submit_trailer id headers)
  | SubmitHeaders id headers end_stream => done (submit_headers id headers end_stream)
  | SubmitShutdownNotice => done submit_shutdown_notice
  | TerminateSession code => done (terminate_session code)
  | SetLocalWindowSize id size => done (set_local_window_size id size)
  | Consume id size => done (consume id size)
  | ConsumeConnection size => done (consume_connection size)
  | ConsumeStream id size => done (consume_stream id size)
  end.

(** A call, what it returned, and the callbacks meanwhile. *)
Record entry : Type := Entry { made : call; returned : result NgError.t reply; meanwhile : list exchange }.

(** The calls one after the other; an error ends its call only, a panic the
    program. *)
Fixpoint transcript (xs : list call) (s : t) : list entry * t :=
  match xs with
  | [] => ([], s)
  | x :: xs =>
      let '(r, s1) := run_call x s in
      let e := Entry x r (drop (length (history s)) (history s1)) in
      match r with
      | Panic => ([e], s1)
      | _ => let '(es, s2) := transcript xs s1 in (e :: es, s2)
      end
  end.

(** The sessions the application can get. *)
Definition created (s : t) : Prop :=
  client = Ok s \/ server = Ok s \/
  exists options, client_with_options options = Ok s \/ server_with_options options = Ok s.

Lemma created_start s : created s ->
  user_data s = true /\ events s = [] /\ pending_headers s = ∅ /\ pending_data s = ∅ /\ send_buffers s = ∅ /\ history s = [] /\ output s = [].
Proof.
  unfold created, client, server, client_with_options, server_with_options.
  intros H. assert (exists role o, (let? x := new role o in Ok (set_user_data x)) = Ok s) as (role & o & Hs).
  { destruct H as [H|[H|[o [H|H]]]]; by do 2 eexists. }
  unfold new in Hs. destruct (check_nghttp2 callbacks_new); [|done|done]. cbn [rbind] in Hs.
  destruct role, o; cbn in Hs;
    repeat match type of Hs with context [let '(_, _) := ?p in _] => destruct p end;
    (destruct (check_nghttp2 _); cbn in Hs; [|done|done]); injection Hs as <-; done.
Qed.

End calls.

(** ** What a method does besides *)

Section acts.
Context {N : Nghttp2}.

(** A relation between the states before and after, and the exchanges between
    them, that callbacks have and that looks neither at the C session nor at the
    output. *)
Class Acting (R : t -> list exchange -> t -> Prop) : Prop := {
  acting_refl : forall s, R s [] s;
  acting_trans : forall s h1 s1 h2 s2, R s h1 s1 -> R s1 h2 s2 -> R s (h1 ++ h2) s2;
  acting_respond : forall c s, let '(a, s') := respond c s in R s [Exchange c a] s';
  acting_session : forall s c, R s [] (s <| session := c |>);
  acting_output : forall s o, R s [] (s <| output := o |>)
}.

Context (R : t -> list exchange -> t -> Prop) {HR : Acting R}.

Definition acts {A} (m : M A) (s : t) : Prop :=
  let '(_, s') := m s in exists h, history s' = history s ++ h /\ R s h s'.

Lemma acts_still {A} (m : M A) s : (let '(_, s') := m s in history s' = history s /\ R s [] s') -> acts m s.
Proof. unfold acts. destruct (m s) as [r s']. intros [E H]. exists []. by rewrite app_nil_r. Qed.

Lemma acts_ret {A} (a : A) s : acts (ret a) s.
Proof. apply acts_still. split; [done|apply acting_refl]. Qed.
Lemma acts_throw {A} e s : acts (A:=A) (throw e) s.
Proof. apply acts_still. split; [done|apply acting_refl]. Qed.
Lemma acts_lift {A} (r : result NgError.t A) s : acts (lift r) s.
Proof. apply acts_still. split; [done|apply acting_refl]. Qed.

Lemma acts_bind {A B} (m : M A) (k : A -> M B) s : acts m s -> (forall a s', m s = (Ok a, s') -> acts (k a) s') -> acts (bind m k) s.
Proof.
  unfold acts, bind. intros Hm Hk. destruct (m s) as [[a|e|] s1] eqn:E; [|done|done].
  destruct Hm as (h1 & E1 & H1). specialize (Hk a s1 eq_refl). destruct (k a s1) as [r s2].
  destruct Hk as (h2 & E2 & H2). exists (h1 ++ h2). split; [by rewrite E2, E1, app_assoc|].
  by eapply acting_trans.
Qed.

Lemma acts_call {A} (f : csession -> script (A * csession)) s : acts (Session.call f) s.
Proof.
  destruct (call_runs R acting_refl acting_trans acting_respond f s) as (a & c & h & s' & E & _ & (_ & _ & _ & _ & Eh & _) & H).
  unfold acts. rewrite E. exists h. split; [done|]. rewrite <- (app_nil_r h). eapply acting_trans; [done|apply acting_session].
Qed.

Lemma acts_checked r s : acts (checked r) s.
Proof. apply acts_bind; [apply acts_call|]. intros. apply acts_lift. Qed.

Lemma acts_done (m : M unit) s : acts m s -> acts (done m) s.
Proof. intros H. apply acts_bind; [done|]. intros. apply acts_ret. Qed.

Lemma acts_recv data s : acts (recv data) s.
Proof. apply acts_bind; [apply acts_call|]. intros n s' _. destruct (n <? 0); [apply acts_throw|apply acts_ret]. Qed.

Lemma acts_send_loop fuel s : acts (send_loop fuel) s.
Proof.
  revert s. induction fuel as [|fuel IH]; intros s; [apply acts_still; split; [done|apply acting_refl]|].
  cbn [send_loop]. apply acts_bind; [apply acts_call|]. intros [n mem] s1 _.
  destruct (n <? 0); [apply acts_throw|]. destruct (n =? 0); [apply acts_ret|].
  apply acts_bind; [apply acts_lift|]. intros out s2 _. apply acts_bind.
  - apply acts_still. split; [done|apply acting_output].
  - intros. apply IH.
Qed.

Lemma acts_send s : acts send s.
Proof.
  apply acts_bind; [apply acts_still; split; [done|apply acting_output]|]. intros _ s1 _.
  apply (acts_bind (gets _)); [apply acts_still; split; [done|apply acting_refl]|]. intros fuel s2 _.
  apply acts_bind; [apply acts_send_loop|]. intros _ s3 _.
  apply acts_bind; [apply acts_still; split; [done|apply acting_refl]|]. intros out s4 _.
  apply acts_bind; [apply acts_still; split; [done|apply acting_output]|]. intros. apply acts_ret.
Qed.

Lemma acts_submit_headers id headers fin s : acts (submit_headers id headers fin) s.
Proof. apply acts_bind; [apply acts_call|]. intros n s' _. destruct (n <? 0); [apply acts_throw|apply acts_ret]. Qed.

(** The calls that neither take an event nor change a send buffer. *)
Definition plain (x : call) : bool :=
  match x with
  | PollEvent | SubmitRequest _ _ _ | SubmitResponse _ _ _ | SubmitData _ _ _ | SubmitDataForTrailer _ _ => false
  | _ => true
  end.

Lemma acts_plain x s : plain x = true -> acts (run_call x) s.
Proof.
  destruct x; intros H; try done; cbn [run_call];
    (apply acts_bind; [first [apply acts_recv | apply acts_send | apply acts_checked | apply acts_submit_headers]|]);
    intros; apply acts_ret.
Qed.

(** The exchanges of a call are what was added to the log. *)
Lemma acts_meanwhile {A} (m : M A) s :
  acts m s -> let '(_, s') := m s in R s (drop (length (history s)) (history s')) s'.
Proof. unfold acts. destruct (m s) as [r s']. intros (h & -> & H). by rewrite drop_app_length. Qed.

End acts.

(** What happens in a script is logged. *)
#[global] Instance trivial_acting `{Nghttp2} : Acting (fun _ _ _ => True).
Proof. constructor; try done. intros c s. by destruct (respond c s). Qed.
