(* ===== verification/NgProvider.v ===== *)
(** * NgProvider: what the data provider gives to nghttp2

    The ledger of a stream is read off a transcript alone: the octets the
    application submitted since the stream was opened, and those the library has
    read.  Whatever the library does, the send buffer of the session holds the
    difference ([balanced]), and an answer that says EOF comes when everything
    was read. *)

From S2P Require Import Prelude NgTypes Nghttp2 NgSession.
Import Session.
From S2P Require Import NgPlayer NgApi.

(** ** The ledger *)

(** An answer with EOF: what was submitted and supplied by then, whether the end
    was asked for, with trailers to follow, and whether the answer tells the
    library to leave out END_STREAM. *)
Record eof : Type := Eof {
  eof_submitted : list Z;
  eof_supplied : list Z;
  eof_ended : bool;
  eof_trailers : bool;
  eof_no_end_stream : bool
}.

Record ledger : Type := Ledger {
  submitted : list Z;
  supplied : list Z;
  ended : bool;
  trailers : bool;
  eofs : list eof
}.

#[global] Instance eta_ledger : Eta ledger := fun l =>
  Ledger (submitted l) (supplied l) (ended l) (trailers l) (eofs l).

Definition fresh : ledger := Ledger [] [] false false [].

Section ledgers.
Context {N : Nghttp2}.

(** A new buffer: the stream was opened, or it is gone. *)
Definition reopen (data : list Z) (fin : bool) (l : ledger) : ledger := Ledger data [] fin false (eofs l).

(** Octets submitted, with the end of the stream or of what precedes trailers. *)
Definition queue (data : list Z) (fin tr : bool) (l : ledger) : ledger :=
  Ledger (submitted l ++ data) (supplied l) (ended l || fin) (trailers l || tr) (eofs l).

Definition take_out (flags : Z) (r : ReadReply.t) (l : ledger) : ledger :=
  let l := l <| supplied := supplied l ++ ReadReply.buf r |> in
  if (flags =? 0) && has_flag (ReadReply.data_flags r) NGHTTP2_DATA_FLAG_EOF then
    l <| eofs := eofs l ++ [Eof (submitted l) (supplied l) (ended l) (trailers l)
                              (has_flag (ReadReply.data_flags r) NGHTTP2_DATA_FLAG_NO_END_STREAM)] |>
  else l.

Definition note (id : Z) (l : ledger) (x : exchange) : ledger :=
  match x with
  | Exchange (ReadData i _ flags) r => if i =? id then take_out flags r l else l
  | Exchange (OnStreamClose i _) _ => if i =? id then reopen [] false l else l
  | _ => l
  end.

(** A submitted piece counts before the library is called; a buffer for a new
    message is made after the library accepted it. *)
Definition note_entry (id : Z) (l : ledger) (e : entry) : ledger :=
  let noted := foldl (note id) l (meanwhile e) in
  match made e with
  | SubmitData i data fin => foldl (note id) (if i =? id then queue data fin false l else l) (meanwhile e)
  | SubmitDataForTrailer i data => foldl (note id) (if i =? id then queue data true true l else l) (meanwhile e)
  | SubmitRequest _ data fin =>
      match data, fin, returned e with
      | None, true, _ => noted
      | None, false, Ok (Count i) => if (0 <? i) && (i =? id) then reopen [] false noted else noted
      | Some d, _, Ok (Count i) => if (0 <? i) && (i =? id) then reopen d fin noted else noted
      | _, _, _ => noted
      end
  | SubmitResponse i _ false => if is_ok (returned e) && (i =? id) then reopen [] false noted else noted
  | _ => noted
  end.

Definition ledger_of (id : Z) (es : list entry) : ledger := foldl (note_entry id) fresh es.

(** ** Balance *)

Definition sound (e : eof) : Prop :=
  eof_supplied e = eof_submitted e /\ eof_ended e = true /\ eof_no_end_stream e = eof_trailers e.

Definition buffer_of (id : Z) (s : t) : StreamSendBuffer.t := default StreamSendBuffer.empty (send_buffers s !! id).

Record balanced (id : Z) (l : ledger) (s : t) : Prop := {
  bal_octets : supplied l ++ StreamSendBuffer.data (buffer_of id s) = submitted l;
  bal_ended : ended l = StreamSendBuffer.end_stream (buffer_of id s);
  bal_trailers : trailers l = StreamSendBuffer.no_end_stream (buffer_of id s);
  bal_eofs : Forall sound (eofs l)
}.

Lemma balanced_same id l s s' : send_buffers s' = send_buffers s -> balanced id l s -> balanced id l s'.
Proof. intros E []. constructor; unfold buffer_of in *; by rewrite ?E. Qed.

Lemma balanced_reopen id data fin l s s' :
  buffer_of id s' = StreamSendBuffer.mk data fin false -> balanced id l s -> balanced id (reopen data fin l) s'.
Proof. intros E []. by constructor; rewrite ?E. Qed.

Lemma balanced_queue id data fin tr l s s' :
  buffer_of id s' = StreamSendBuffer.mk (StreamSendBuffer.data (buffer_of id s) ++ data)
    (StreamSendBuffer.end_stream (buffer_of id s) || fin) (StreamSendBuffer.no_end_stream (buffer_of id s) || tr) ->
  balanced id l s -> balanced id (queue data fin tr l) s'.
Proof.
  intros E [Ho He Ht Hs]. constructor; rewrite ?E; cbn; [|by rewrite He|by rewrite Ht|done].
  by rewrite app_assoc, Ho.
Qed.

(** The flags of an answer that started from none. *)
Lemma eof_flags_0 b :
  has_flag (eof_flags b 0) NGHTTP2_DATA_FLAG_EOF = true /\
  has_flag (eof_flags b 0) NGHTTP2_DATA_FLAG_NO_END_STREAM = StreamSendBuffer.no_end_stream b.
Proof. unfold eof_flags. by destruct (StreamSendBuffer.no_end_stream b). Qed.

Lemma buffer_some id s b : send_buffers s !! id = Some b -> buffer_of id s = b.
Proof. unfold buffer_of. by intros ->. Qed.

Lemma balanced_take id length flags l s :
  let '(r, s') := data_source_read_callback id length flags s in
  balanced id l s -> balanced id (take_out flags r l) s'.
Proof.
  unfold data_source_read_callback.
  assert (forall ret, balanced id l s -> balanced id (take_out flags (ReadReply.mk ret [] flags) l) s) as Hnone.
  { intros ret [Ho He Ht Hs]. unfold take_out. cbn [ReadReply.buf ReadReply.data_flags].
    assert ((flags =? 0) && has_flag flags NGHTTP2_DATA_FLAG_EOF = false) as ->.
    { destruct (flags =? 0) eqn:E; [|done]. zbool. by subst. }
    constructor; cbn; [by rewrite app_nil_r|done..]. }
  assert (forall buf b, send_buffers s !! id = Some b -> StreamSendBuffer.data b = buf -> StreamSendBuffer.end_stream b = true ->
    balanced id l s ->
    let l' := take_out flags (ReadReply.mk (len buf) buf (eof_flags b flags)) l in
    supplied l' = submitted l' /\ ended l' = true /\ trailers l' = StreamSendBuffer.no_end_stream b /\ Forall sound (eofs l')) as Heof.
  { intros buf b Eb Ed Ee [Ho He Ht Hs]. rewrite (buffer_some _ _ _ Eb) in *.
    unfold take_out. cbn [ReadReply.buf ReadReply.data_flags].
    destruct (flags =? 0) eqn:E; cbn [andb]; [|subst buf; cbn; split_and!; [congruence..|done]].
    zbool. subst flags buf. destruct (eof_flags_0 b) as [-> E2]. cbn. split_and!; [done|congruence|done|].
    apply Forall_app. split; [done|]. constructor; [|done]. split_and!; cbn; congruence. }
  destruct (negb (user_data s)); [apply Hnone|].
  destruct (send_buffers s !! id) as [b|] eqn:Eb; [|apply Hnone].
  destruct (StreamSendBuffer.data b) as [|o os] eqn:Ed; cbn [is_empty].
  - destruct (StreamSendBuffer.end_stream b) eqn:Ee; [|apply Hnone].
    intros Hb. specialize (Heof [] b eq_refl Ed Ee Hb). cbn zeta in Heof. change (len []) with 0 in Heof.
    destruct Heof as (E1 & E2 & E3 & E4). constructor; rewrite ?(buffer_some _ _ _ Eb); [|congruence|done|done].
    by rewrite Ed, app_nil_r.
  - rewrite <- Ed. set (copy_len := Z.min length (len (StreamSendBuffer.data b))).
    set (buf := take (Z.to_nat copy_len) _). set (rest := drop (Z.to_nat copy_len) _).
    assert (buf ++ rest = StreamSendBuffer.data b) as Hsplit by apply take_drop.
    intros Hb. pose proof Hb as [Ho He Ht Hs]. rewrite (buffer_some _ _ _ Eb) in *.
    cbn [StreamSendBuffer.data StreamSendBuffer.end_stream set_field].
    destruct (is_empty rest && StreamSendBuffer.end_stream b) eqn:Eend.
    + apply andb_true_iff in Eend as [Er Ee]. destruct rest; [|done]. rewrite app_nil_r in Hsplit.
      specialize (Heof buf b eq_refl (eq_sym Hsplit) Ee Hb). cbn zeta in Heof. destruct Heof as (E1 & E2 & E3 & E4).
      constructor; unfold buffer_of; cbn [send_buffers]; rewrite ?lookup_insert_eq; cbn [from_option]; [|exact (eq_trans E2 (eq_sym Ee))|done|done].
      exact (eq_trans (app_nil_r _) E1).
    + unfold take_out. cbn [ReadReply.buf ReadReply.data_flags].
      assert ((flags =? 0) && has_flag flags NGHTTP2_DATA_FLAG_EOF = false) as ->.
      { destruct (flags =? 0) eqn:E; [|done]. zbool. by subst. }
      constructor; unfold buffer_of; cbn; rewrite ?lookup_insert_eq; cbn; [|done..].
      by rewrite <- app_assoc, Hsplit.
Qed.

Lemma read_other id i length flags s :
  i <> id -> let '(_, s') := data_source_read_callback i length flags s in buffer_of id s' = buffer_of id s.
Proof.
  intros Hi. unfold data_source_read_callback. destruct (negb _); [done|].
  destruct (send_buffers s !! i) as [b|]; [|done].
  destruct (is_empty _); [by destruct (StreamSendBuffer.end_stream b)|].
  unfold buffer_of. cbn. by rewrite lookup_insert_ne.
Qed.

Lemma balanced_other id l s s' : buffer_of id s' = buffer_of id s -> balanced id l s -> balanced id l s'.
Proof. intros E []. by constructor; rewrite ?E. Qed.

Lemma close_buffer id i code s :
  user_data s = true ->
  let '(_, s') := on_stream_close_callback i code s in
  buffer_of id s' = if i =? id then StreamSendBuffer.empty else buffer_of id s.
Proof.
  intros Hu. unfold on_stream_close_callback, with_session. rewrite Hu. unfold buffer_of. cbn.
  destruct (i =? id) eqn:E; zbool; [subst; by rewrite lookup_delete_eq|by rewrite lookup_delete_ne].
Qed.

(** Every callback keeps the balance of every stream. *)
Definition keeps_balance (s : t) (h : list exchange) (s' : t) : Prop :=
  user_data s = true ->
  user_data s' = true /\ forall id l, balanced id l s -> balanced id (foldl (note id) l h) s'.

Lemma same_keeps s h s' :
  send_buffers s' = send_buffers s -> user_data s' = user_data s ->
  (forall id l, foldl (note id) l h = l) -> keeps_balance s h s'.
Proof. intros E Eu Hn Hu. split; [congruence|]. intros id l. rewrite Hn. by apply balanced_same. Qed.

Lemma respond_keeps c s : let '(a, s') := respond c s in keeps_balance s [Exchange c a] s'.
Proof.
  destruct (feeds c) eqn:Ec.
  2:{ pose proof (handle_frame c s) as Hf. pose proof (handle_buffers c s Ec) as Hb. unfold respond.
      destruct (handle c s) as [a s']. apply same_keeps; [done|apply Hf|by destruct c]. }
  unfold respond. destruct c; try done; cbn [handle].
  - pose proof (fun id => close_buffer id stream_id error_code s) as Hc.
    pose proof (handle_frame (OnStreamClose stream_id error_code) s) as Hf. cbn [handle] in Hf.
    destruct (on_stream_close_callback stream_id error_code s) as [z s'].
    intros Hu. split; [cbn; by destruct Hf as (_ & -> & _)|]. intros id l Hb. specialize (Hc id Hu). cbn [foldl note].
    destruct (stream_id =? id); [by eapply balanced_reopen|by eapply balanced_other].
  - pose proof (fun id => balanced_take id length data_flags) as Ht.
    pose proof (fun id => read_other id stream_id length data_flags s) as Ho.
    pose proof (handle_frame (ReadData stream_id length data_flags) s) as Hf. cbn [handle] in Hf.
    destruct (data_source_read_callback stream_id length data_flags s) as [r s'] eqn:E.
    intros Hu. split; [cbn; by destruct Hf as (_ & -> & _)|]. intros id l Hb. cbn [foldl note].
    destruct (stream_id =? id) eqn:Ei; zbool.
    + subst id. specialize (Ht stream_id l s). rewrite E in Ht. eapply balanced_same, Ht, Hb. done.
    + eapply balanced_other, Hb. by apply Ho.
Qed.

#[global] Instance keeps_balance_acting : Acting keeps_balance.
Proof.
  constructor.
  - intros s Hu. by split.
  - intros s h1 s1 h2 s2 H1 H2 Hu. destruct (H1 Hu) as [Hu1 Hb1]. destruct (H2 Hu1) as [Hu2 Hb2].
    split; [done|]. intros id l Hb. rewrite foldl_app. auto.
  - apply respond_keeps.
  - intros s c. by apply same_keeps.
  - intros s o. by apply same_keeps.
Qed.

(** ** Each call *)

Definition entry_of (x : call) (s : t) : entry :=
  let '(r, s') := run_call x s in Entry x r (drop (length (history s)) (history s')).

Definition entry_keeps (x : call) (s : t) : Prop :=
  user_data s = true ->
  user_data (run_call x s).2 = true /\
  forall id l, balanced id l s -> balanced id (note_entry id l (entry_of x s)) (run_call x s).2.

Lemma plain_note x r h id l : plain x = true -> note_entry id l (Entry x r h) = foldl (note id) l h.
Proof. by destruct x. Qed.

Lemma plain_entry x s : plain x = true -> entry_keeps x s.
Proof.
  intros Hp. pose proof (acts_meanwhile keeps_balance _ _ (acts_plain keeps_balance x s Hp)) as H.
  unfold entry_keeps, entry_of. destruct (run_call x s) as [r s']. intros Hu. destruct (H Hu) as [Hu' Hb].
  split; [done|]. intros id l. rewrite plain_note by done. apply Hb.
Qed.

(** A piece is queued and the library told. *)
Lemma queue_entry x id0 data fin tr (f : StreamSendBuffer.t -> StreamSendBuffer.t) s :
  run_call x = done (update_buffer id0 f ;! checked (Request.resume_data id0)) ->
  (forall id l r h, note_entry id l (Entry x r h) = foldl (note id) (if id0 =? id then queue data fin tr l else l) h) ->
  (forall b, f b = StreamSendBuffer.mk (StreamSendBuffer.data b ++ data) (StreamSendBuffer.end_stream b || fin)
                     (StreamSendBuffer.no_end_stream b || tr)) ->
  entry_keeps x s.
Proof.
  intros Ex En Hf. unfold entry_keeps, entry_of. rewrite Ex.
  set (s1 := s <| send_buffers := <[id0 := f (buffer_of id0 s)]> (send_buffers s) |>).
  change (done (update_buffer id0 f ;! checked (Request.resume_data id0)) s) with (done (checked (Request.resume_data id0)) s1).
  pose proof (acts_meanwhile keeps_balance _ _ (acts_done keeps_balance _ _ (acts_checked keeps_balance (Request.resume_data id0) s1))) as H.
  change (history s) with (history s1). destruct (done _ s1) as [r s']. intros Hu. destruct (H Hu) as [Hu' Hb].
  split; [done|]. intros id l Hl. rewrite En. apply Hb. destruct (id0 =? id) eqn:E; zbool.
  - subst id0. eapply balanced_queue, Hl. rewrite <- Hf. unfold s1, buffer_of. cbn. by rewrite lookup_insert_eq.
  - eapply balanced_other, Hl. unfold s1, buffer_of. cbn. by rewrite lookup_insert_ne.
Qed.

(** A buffer is made for a new message. *)
Lemma insert_keeps id0 data fin s :
  let '(_, s') := insert_buffer id0 (StreamSendBuffer.mk data fin false) s in
  history s' = history s /\ user_data s' = user_data s /\
  forall id l, balanced id l s -> balanced id (if id0 =? id then reopen data fin l else l) s'.
Proof.
  cbn. split_and!; [done|done|]. intros id l Hl. destruct (id0 =? id) eqn:E; zbool.
  - subst id0. eapply balanced_reopen, Hl. unfold buffer_of. cbn. by rewrite lookup_insert_eq.
  - eapply balanced_other, Hl. unfold buffer_of. cbn. by rewrite lookup_insert_ne.
Qed.

(** A function of the library, with the balance it keeps. *)
Lemma call_keeps {A} (f : csession -> script (A * csession)) s :
  exists a h s', Session.call f s = (Ok a, s') /\ history s' = history s ++ h /\ keeps_balance s h s'.
Proof.
  destruct (call_runs keeps_balance acting_refl acting_trans acting_respond f s) as (a & c & h & s' & E & _ & (_ & _ & _ & _ & Eh & _) & H).
  exists a, h, (s' <| session := c |>). split_and!; [done|done|].
  rewrite <- (app_nil_r h). eapply acting_trans; [exact H|apply acting_session].
Qed.

Lemma request_entry headers data fin s : entry_keeps (SubmitRequest headers data fin) s.
Proof.
  unfold entry_keeps, entry_of. cbn [run_call]. unfold submit_request.
  destruct (bool_decide (data = None) && fin) eqn:Eb.
  - destruct (call_keeps (request (Request.submit_request2 (headers_to_nva headers) false)) s) as (id & h & s1 & E & Eh & Hk).
    assert (data = None /\ fin = true) as [-> ->] by (apply andb_true_iff in Eb as [?%bool_decide_eq_true ?]; done).
    unfold bind. rewrite E. intros Hu. destruct (Hk Hu) as [Hu1 Hb].
    destruct (id <? 0); cbn; rewrite Eh, drop_app_length; by split.
  - destruct (call_keeps (request (Request.submit_request2 (headers_to_nva headers) true)) s) as (id & h & s1 & E & Eh & Hk).
    unfold bind. rewrite E. intros Hu. destruct (Hk Hu) as [Hu1 Hb].
    set (d := default [] data). set (fn := match data with Some _ => fin | None => false end).
    assert (forall i l r, note_entry i l (Entry (SubmitRequest headers data fin) r h) =
      match r with Ok (Count j) => if (0 <? j) && (j =? i) then reopen d fn (foldl (note i) l h) else foldl (note i) l h
      | _ => foldl (note i) l h end) as En.
    { intros i l r. destruct data as [d0|], fin; try done; destruct r as [[]| |]; done. }
    destruct (0 <? id) eqn:E0.
    + pose proof (insert_keeps id d fn s1) as Hi.
      replace (match data with Some d0 => StreamSendBuffer.mk d0 fin false | None => StreamSendBuffer.empty end)
        with (StreamSendBuffer.mk d fn false) by by destruct data.
      destruct (insert_buffer id _ s1) as [[[]| |] s2] eqn:E2; try done. destruct Hi as (Eh2 & Hu2 & Hi).
      cbn -[note_entry]. assert ((id <? 0) = false) as -> by (zbool; lia). cbn -[note_entry]. rewrite Eh2, Eh, drop_app_length. split; [congruence|].
      intros i l Hl. rewrite En, E0. cbn [andb]. specialize (Hi i _ (Hb i l Hl)). done.
    + cbn -[note_entry]. destruct (id <? 0); cbn -[note_entry]; rewrite Eh, drop_app_length; (split; [done|]); intros i l Hl; rewrite En, ?E0; by apply Hb.
Qed.

Lemma response_entry id headers fin s : entry_keeps (SubmitResponse id headers fin) s.
Proof.
  unfold entry_keeps, entry_of. cbn [run_call]. unfold submit_response. destruct fin.
  - pose proof (acts_meanwhile keeps_balance _ _ (acts_done keeps_balance _ _
      (acts_checked keeps_balance (Request.submit_response2 id (headers_to_nva headers) false) s))) as H.
    destruct (done _ s) as [r s']. intros Hu. destruct (H Hu) as [Hu' Hb]. by split.
  - pose proof (acts_meanwhile keeps_balance _ _ (acts_checked keeps_balance (Request.submit_response2 id (headers_to_nva headers) true) s)) as H.
    unfold done, bind. destruct (checked _ s) as [[[]|e|] s1]; intros Hu; destruct (H Hu) as [Hu1 Hb]; try (split; [done|]; exact Hb).
    pose proof (insert_keeps id [] false s1) as Hi. fold StreamSendBuffer.empty in Hi.
    destruct (insert_buffer id _ s1) as [[[]| |] s2] eqn:E2; try done. destruct Hi as (Eh2 & Hu2 & Hi).
    cbn. rewrite Eh2. split; [congruence|]. intros i l Hl. exact (Hi i _ (Hb i l Hl)).
Qed.

Lemma call_entry x s : entry_keeps x s.
Proof.
  destruct x as [| | | | | |id data fin|id data| | | | | | | | | | | |] eqn:Ex;
    first [by apply plain_entry | apply request_entry | apply response_entry | idtac].
  - unfold entry_keeps, entry_of. cbn [run_call]. unfold bind, poll_event, ret. intros Hu.
    destruct (events s); cbn; rewrite drop_all; (split; [done|]); intros id ld; by apply balanced_same.
  - eapply (queue_entry _ id data fin false); [done|done|]. intros []. destruct fin; cbn; f_equal; by rewrite ?orb_true_r, ?orb_false_r.
  - eapply (queue_entry _ id data true true); [done|done|]. intros []. cbn. by rewrite !orb_true_r.
Qed.

(** ** Whole runs *)

Lemma transcript_keeps xs : forall s, user_data s = true ->
  let '(es, s') := transcript xs s in
  forall id l, balanced id l s -> balanced id (foldl (note_entry id) l es) s'.
Proof.
  induction xs as [|x xs IH]; intros s Hu; [by intros id l|]. cbn [transcript].
  pose proof (call_entry x s Hu) as [Hu1 Hb]. unfold entry_of in Hb. destruct (run_call x s) as [r s1]. cbn [snd] in *.
  specialize (IH s1 Hu1). destruct r; [| |intros id l Hl; exact (Hb id l Hl)];
    destruct (transcript xs s1) as [es s2]; intros id l Hl; exact (IH id _ (Hb id l Hl)).
Qed.

(** C25: Whatever the library nghttp2 does, and whatever an application calls on a
    session: for every stream, the octets the library was given through the
    read callback, followed by those in the send buffer, are the octets that
    were submitted since the message was begun, in their order; none is lost,
    repeated or reordered, also when a call fails.  Counted as supplied is what
    the callback wrote into the library's buffer.  Every answer with EOF to a call
    whose flags were 0 comes when all submitted octets
    were supplied and the end was asked for, and it suppresses END_STREAM exactly
    when trailers are to follow. *)
Theorem provider_supplies_what_was_submitted s xs id :
  created s ->
  let '(es, s') := transcript xs s in
  let l := ledger_of id es in
  supplied l ++ StreamSendBuffer.data (buffer_of id s') = submitted l /\
  Forall sound (eofs l).
Proof.
  intros Hs. destruct (created_start s Hs) as (Hu & _ & _ & _ & Hb & _).
  pose proof (transcript_keeps xs s Hu) as H. destruct (transcript xs s) as [es s'].
  destruct (H id fresh) as [Ho _ _ He]; [|done].
  constructor; unfold buffer_of; by rewrite ?Hb, ?lookup_empty.
Qed.

End ledgers.

(** A library that reads twice from stream 1, and a client that submits a request
    with content, then content on a stream that is not there. *)
Definition sample_library : Nghttp2 := player_library [] [Octets [0]; FromStream 1 3; FromStream 1 10].
Definition sample_client : @t sample_library :=
  @mk sample_library (mk_player [] [Octets [0]; FromStream 1 3; FromStream 1 10] []) true SessionRole.Client [] [] ∅ ∅ ∅ None [].
Definition sample_calls : list call :=
  [SubmitRequest [Header.method (bstr "POST")] (Some [1; 2; 3]) false; SubmitData 1 [4; 5] true; SubmitData 99 [6] false; Send].

Lemma provider_supplies_what_was_submitted_witness :
  created sample_client /\
  (let '(es, s') := transcript sample_calls sample_client in
   let l := ledger_of 1 es in
   (supplied l ++ StreamSendBuffer.data (buffer_of 1 s') = submitted l /\ Forall sound (eofs l)) /\
   supplied l = [1; 2; 3; 4; 5] /\ length (eofs l) = 1%nat).
Proof.
  assert (created sample_client) as Hc by (left; reflexivity). split; [exact Hc|].
  pose proof (provider_supplies_what_was_submitted sample_client sample_calls 1 Hc) as H.
  destruct (transcript sample_calls sample_client) as [es s'] eqn:E. split; [exact H|].
  assert (es = fst (transcript sample_calls sample_client)) as -> by by rewrite E. vm_compute. by split.
Defined.
