(* ===== verification/NgReports.v ===== *)
(** * NgReports: from the callbacks of nghttp2 to the events of a session

    While it receives, the library calls back many times for one frame: for each
    header field, for each piece of content, and when the frame is complete.
    [callbacks_of] lists these calls for everything the library has to tell, and
    [events_of] the events an application is to see; a session turns the one
    into the other. *)

From S2P Require Import Prelude NgTypes Nghttp2 NgSession.
Import Session.
From S2P Require Import NgPlayer NgApi.

(** ** What the library tells *)

(** A header field of a frame; one the library ignores is reported, too. *)
Inductive item : Type :=
| Field (name value : list Z) (flags : Z)
| BadField (name value : list Z) (flags : Z).

Inductive delivery : Type :=
| HeadersFrame (frame : CFrame.t) (items : list item)
| DataFrame (frame : CFrame.t) (chunks : list (list Z))
| OtherFrame (frame : CFrame.t)
| Closed (stream_id error_code : Z)
| Sent (frame : CFrame.t)
| NotSent (frame : CFrame.t) (lib_error_code : Z)
| Refused (frame : CFrame.t) (lib_error_code : Z)
| Message (lib_error_code : Z) (msg : list Z)
| Asked (stream_id length data_flags : Z).

Definition type_of (f : CFrame.t) : Z := CFrameHd.type_ (CFrame.hd f).
Definition stream_of (f : CFrame.t) : Z := CFrameHd.stream_id (CFrame.hd f).
(** ACK and END_STREAM are the same bit. *)
Definition low_bit (f : CFrame.t) : bool := Z.testbit (CFrameHd.flags (CFrame.hd f)) 0.

Definition delivery_ok (d : delivery) : Prop :=
  match d with
  | HeadersFrame f _ => type_of f = NGHTTP2_HEADERS
  | DataFrame f _ => type_of f = NGHTTP2_DATA
  | OtherFrame f => type_of f <> NGHTTP2_HEADERS /\ type_of f <> NGHTTP2_DATA /\ type_of f <> NGHTTP2_PUSH_PROMISE
  | _ => True
  end.

Definition item_callback (f : CFrame.t) (i : item) : callback :=
  match i with
  | Field n v fl => OnHeader f n v fl
  | BadField n v fl => OnInvalidHeader f n v fl
  end.

(** The order that [bindings.rs] documents. *)
Definition callbacks_of (d : delivery) : list callback :=
  match d with
  | HeadersFrame f items => OnBeginHeaders f :: map (item_callback f) items ++ [OnFrameRecv f]
  | DataFrame f chunks =>
      map (OnDataChunkRecv (CFrameHd.flags (CFrame.hd f)) (stream_of f)) chunks ++ [OnFrameRecv f]
  | OtherFrame f => [OnFrameRecv f]
  | Closed id code => [OnStreamClose id code]
  | Sent f => [OnFrameSend f]
  | NotSent f code => [OnFrameNotSend f code]
  | Refused f code => [OnInvalidFrameRecv f code]
  | Message code msg => [OnError code msg]
  | Asked id length flags => [ReadData id length flags]
  end.

Definition named (f : CFrame.t) (e : FrameType.t -> Http2Event.t) : list Http2Event.t :=
  match FrameType.from_u8 (type_of f) with Some ty => [e ty] | None => [] end.

Definition events_of (d : delivery) : list Http2Event.t :=
  match d with
  | HeadersFrame f items =>
      omap (fun i => match i with BadField n v _ => Some (Http2Event.InvalidHeaderReceived (stream_of f) n v) | _ => None end) items ++
      [Http2Event.HeadersReceived (stream_of f)
         (omap (fun i => match i with Field n v _ => Some (Header.mk n v false) | _ => None end) items) (low_bit f)]
  | DataFrame f chunks =>
      if bool_decide (concat chunks = []) && negb (low_bit f) then []
      else [Http2Event.DataReceived (stream_of f) (concat chunks) (low_bit f)]
  | OtherFrame f =>
      match FrameType.from_u8 (type_of f) with
      | Some FrameType.Settings => [Http2Event.SettingsReceived (low_bit f)]
      | Some FrameType.Ping => [Http2Event.PingReceived (CFrame.ping_opaque_data f) (low_bit f)]
      | Some FrameType.Goaway =>
          [Http2Event.GoawayReceived (CFrame.goaway_last_stream_id f) (ErrorCode.from_u32 (CFrame.goaway_error_code f))
             (default [] (CFrame.goaway_opaque_data f))]
      | Some FrameType.WindowUpdate => [Http2Event.WindowUpdateReceived (stream_of f) (as_u32 (CFrame.window_size_increment f))]
      | _ => []
      end
  | Closed id code => [Http2Event.StreamClosed id (ErrorCode.from_u32 code)]
  | Sent f => named f (Http2Event.FrameSent (stream_of f))
  | NotSent f code => named f (fun ty => Http2Event.FrameNotSent (stream_of f) ty code)
  | Refused f code => named f (fun ty => Http2Event.InvalidFrameReceived (stream_of f) ty code)
  | Message _ _ | Asked _ _ _ => []
  end.

(** ** Callbacks on their own *)

Section reports.
Context {N : Nghttp2}.

(** The fields that the reports depend on. *)
Record same (s s' : t) : Prop := {
  same_user : user_data s = user_data s';
  same_events : events s = events s';
  same_headers : pending_headers s = pending_headers s';
  same_data : pending_data s = pending_data s'
}.

#[global] Instance same_equiv : Equivalence same.
Proof.
  split.
  - by intros s.
  - by intros s s' [].
  - intros s s1 s2 [] []. constructor; congruence.
Qed.

Definition heard (c : callback) (s : t) : t := (handle c s).2.
Definition echo (s : t) (cs : list callback) : t := foldl (fun s c => heard c s) s cs.

(** Events that were taken from the queue before. *)
Definition after (evs : list Http2Event.t) (s : t) : t := s <| events := evs ++ events s |>.

#[global] Instance after_same evs : Proper (same ==> same) (after evs).
Proof. intros s s' []. constructor; cbn; congruence. Qed.

Ltac callbacks :=
  unfold on_begin_headers_callback, on_header_callback, on_frame_recv_callback, on_data_chunk_recv_callback,
    on_stream_close_callback, on_frame_send_callback, on_frame_not_send_callback, on_invalid_frame_recv_callback,
    on_invalid_header_callback, on_error_callback2, with_session, frame_event, take_headers, take_data,
    push_event, push_header, push_data.

Lemma read_same id length flags s : same (data_source_read_callback id length flags s).2 s.
Proof.
  unfold data_source_read_callback. destruct (negb _); [done|]. destruct (send_buffers s !! id) as [b|]; [|done].
  destruct (is_empty _); [by destruct (StreamSendBuffer.end_stream b)|done].
Qed.

#[global] Instance heard_same c : Proper (same ==> same) (heard c).
Proof.
  intros s s' Hs. unfold heard. destruct c; cbn [handle];
    try (destruct Hs as [Hu He Hh Hd]; callbacks; rewrite <- ?Hu; destruct (user_data s) eqn:Eu; cbn [snd];
      repeat (case_match; cbn [snd]); constructor; cbn; congruence).
  transitivity s; [apply read_same|]. transitivity s'; [done|]. symmetry. apply read_same.
Qed.

Lemma heard_after c evs s : same (heard c (after evs s)) (after evs (heard c s)).
Proof.
  unfold heard. destruct c; cbn [handle];
    try (callbacks; unfold after; cbn -[Z.eqb has_flag]; destruct (user_data s) eqn:Eu; cbn [snd];
      repeat (case_match; cbn [snd]); constructor; cbn; rewrite ?app_assoc; done).
  transitivity (after evs s); [apply read_same|]. symmetry. apply after_same, read_same.
Qed.

#[global] Instance echo_same : Proper (same ==> eq ==> same) echo.
Proof.
  intros s s' Hs cs ? <-. revert s s' Hs. induction cs as [|c cs IH]; intros s s' Hs; [done|].
  cbn. apply IH. by rewrite Hs.
Qed.

Lemma echo_after evs s cs : same (echo (after evs s) cs) (after evs (echo s cs)).
Proof.
  revert s. induction cs as [|c cs IH]; intros s; [done|]. cbn. rewrite <- IH. by rewrite heard_after.
Qed.

Lemma echo_app s cs1 cs2 : echo s (cs1 ++ cs2) = echo (echo s cs1) cs2.
Proof. apply foldl_app. Qed.

(** ** Deliveries *)

(** Nothing of a frame is waiting. *)
Definition idle (s : t) : Prop := user_data s = true /\ pending_headers s = ∅ /\ pending_data s = ∅.

Definition plus (evs : list Http2Event.t) (s : t) : t := s <| events := events s ++ evs |>.

Lemma plus_plus e1 e2 s : plus e2 (plus e1 s) = plus (e1 ++ e2) s.
Proof. unfold plus. cbn. by rewrite <- app_assoc. Qed.

Lemma has_flag_low flags : has_flag flags 1 = Z.testbit flags 0.
Proof.
  unfold has_flag. change 1 with (Z.ones 1). rewrite Z.land_ones by lia. change (2 ^ 1) with 2.
  rewrite Zmod_odd, Z.bit0_odd. by destruct (Z.odd flags).
Qed.

(** The fields of a header block while they come in. *)
Lemma echo_items f items : forall s hs,
  user_data s = true -> default [] (pending_headers s !! stream_of f) = hs ->
  exists ph,
    same (echo s (map (item_callback f) items))
         (plus (omap (fun i => match i with BadField n v _ => Some (Http2Event.InvalidHeaderReceived (stream_of f) n v) | _ => None end) items)
               (s <| pending_headers := ph |>)) /\
    default [] (ph !! stream_of f) =
      hs ++ omap (fun i => match i with Field n v _ => Some (Header.mk n v false) | _ => None end) items /\
    delete (stream_of f) ph = delete (stream_of f) (pending_headers s).
Proof.
  induction items as [|i items IH]; intros s hs Hu Hh.
  { exists (pending_headers s). split_and!; [|by rewrite app_nil_r|done]. constructor; cbn; rewrite ?app_nil_r; done. }
  destruct i as [n v fl|n v fl]; cbn [map item_callback echo foldl].
  - assert (heard (OnHeader f n v fl) s = push_header (stream_of f) (Header.new n v) s) as ->.
    { unfold heard. cbn. unfold on_header_callback, with_session. by rewrite Hu. }
    destruct (IH (push_header (stream_of f) (Header.new n v) s) (hs ++ [Header.new n v])) as (ph & Hs & Hd & Hde);
      [done|unfold push_header; cbn; by rewrite lookup_insert_eq, Hh|].
    exists ph. split_and!; [exact Hs|by rewrite Hd, <- app_assoc|].
    rewrite Hde. unfold push_header. cbn. by rewrite delete_insert_eq.
  - assert (heard (OnInvalidHeader f n v fl) s = push_event (Http2Event.InvalidHeaderReceived (stream_of f) n v) s) as ->.
    { unfold heard. cbn. unfold on_invalid_header_callback, with_session. by rewrite Hu. }
    destruct (IH (push_event (Http2Event.InvalidHeaderReceived (stream_of f) n v) s) hs) as (ph & Hs & Hd & Hde); [done|done|].
    exists ph. split_and!; [|done|done]. etransitivity; [exact Hs|].
    constructor; cbn; [done| |done|done]. by rewrite <- app_assoc.
Qed.

(** The content of a frame while it comes in. *)
Lemma echo_chunks fl id chunks : forall s,
  user_data s = true ->
  let s' := echo s (map (OnDataChunkRecv fl id) chunks) in
  user_data s' = true /\ events s' = events s /\ pending_headers s' = pending_headers s /\
  default [] (pending_data s' !! id) = default [] (pending_data s !! id) ++ concat chunks /\
  delete id (pending_data s') = delete id (pending_data s).
Proof.
  induction chunks as [|c chunks IH]; intros s Hu.
  { cbn. by rewrite app_nil_r. }
  cbn [map echo foldl].
  assert (heard (OnDataChunkRecv fl id c) s = push_data id c s) as ->.
  { unfold heard. cbn. unfold on_data_chunk_recv_callback, with_session. by rewrite Hu. }
  destruct (IH (push_data id c s) Hu) as (Hu' & He & Hh & Hd & Hde). split_and!; [done|done|done| |].
  - etransitivity; [exact Hd|]. unfold push_data. cbn. rewrite lookup_insert_eq. cbn. by rewrite app_assoc.
  - etransitivity; [exact Hde|]. unfold push_data. cbn. by rewrite delete_insert_eq.
Qed.

(** The end of a frame. *)
Lemma heard_frame f s : user_data s = true ->
  heard (OnFrameRecv f) s =
  match type_of f with
  | 0 =>
      let '(data, s) := take_data (stream_of f) s in
      if negb (is_empty data) || low_bit f then push_event (Http2Event.DataReceived (stream_of f) data (low_bit f)) s else s
  | 1 =>
      let '(headers, s) := take_headers (stream_of f) s in
      push_event (Http2Event.HeadersReceived (stream_of f) headers (low_bit f)) s
  | 4 => push_event (Http2Event.SettingsReceived (low_bit f)) s
  | 6 => push_event (Http2Event.PingReceived (CFrame.ping_opaque_data f) (low_bit f)) s
  | 7 => push_event (Http2Event.GoawayReceived (CFrame.goaway_last_stream_id f)
           (ErrorCode.from_u32 (CFrame.goaway_error_code f)) (default [] (CFrame.goaway_opaque_data f))) s
  | 8 => push_event (Http2Event.WindowUpdateReceived (stream_of f) (as_u32 (CFrame.window_size_increment f))) s
  | _ => s
  end.
Proof.
  intros Hu. unfold heard. cbn [handle]. unfold on_frame_recv_callback, with_session. rewrite Hu. cbn [snd].
  rewrite !has_flag_low. fold (low_bit f) (stream_of f) (type_of f).
  destruct (type_of f) as [|n|n]; [done| |done]. do 4 (destruct n as [n|n|]; try done).
Qed.

Lemma heard_named f c e s : user_data s = true ->
  heard c s = frame_event (fun id ty => e id ty) f s -> same (heard c s) (plus (named f (e (stream_of f))) s).
Proof.
  intros Hu ->. unfold frame_event, named, type_of, stream_of. destruct (FrameType.from_u8 _);
    constructor; cbn; by rewrite ?app_nil_r.
Qed.

Lemma delivery_reported d s : delivery_ok d -> idle s -> same (echo s (callbacks_of d)) (plus (events_of d) s).
Proof.
  intros Hok (Hu & Hh & Hd). destruct d as [f items|f chunks|f|id code|f|f code|f code|code msg|id length flags]; cbn [callbacks_of events_of].
  - (* HEADERS *)
    match goal with |- same _ ?s' => change (same (echo s (map (item_callback f) items ++ [OnFrameRecv f])) s') end.
    destruct (echo_items f items s [] Hu) as (ph & Hs & Ed & Ede); [by rewrite Hh, lookup_empty|].
    rewrite echo_app, Hs. cbn [echo foldl]. rewrite heard_frame by done. rewrite (Hok : type_of f = 1).
    constructor; cbn; [done| |by rewrite Ede, Hh, delete_empty|done].
    by rewrite Ed, <- app_assoc.
  - (* DATA *)
    rewrite echo_app. destruct (echo_chunks (CFrameHd.flags (CFrame.hd f)) (stream_of f) chunks s Hu) as (Hu' & He & Hh' & Ed & Ede).
    set (s1 := echo s _) in *. cbn [echo foldl]. rewrite heard_frame by done. rewrite (Hok : type_of f = 0).
    unfold take_data. rewrite Ed, Hd, lookup_empty. cbn [default from_option app]. rewrite Hd, delete_empty in Ede.
    destruct (concat chunks) as [|o os]; cbn [is_empty negb orb bool_decide decide_rel andb];
      destruct (low_bit f); constructor; cbn; rewrite ?app_nil_r; congruence.
  - cbn [echo foldl]. rewrite heard_frame by done. destruct Hok as (H1 & H2 & H3).
    destruct (type_of f) as [|n|n]; [done| |by constructor; cbn; rewrite ?app_nil_r].
    do 4 (destruct n as [n|n|]; try done; try (by constructor; cbn; rewrite ?app_nil_r)).
  - cbn [echo foldl]. unfold heard. cbn [handle]. unfold on_stream_close_callback, with_session. rewrite Hu.
    constructor; cbn; [done|done|by rewrite Hh, delete_empty|by rewrite Hd, delete_empty].
  - apply heard_named; [done|]. unfold heard. cbn. unfold on_frame_send_callback, with_session. by rewrite Hu.
  - apply (heard_named f _ (fun id ty => Http2Event.FrameNotSent id ty code)); [done|].
    unfold heard. cbn. unfold on_frame_not_send_callback, with_session. by rewrite Hu.
  - apply (heard_named f _ (fun id ty => Http2Event.InvalidFrameReceived id ty code)); [done|].
    unfold heard. cbn. unfold on_invalid_frame_recv_callback, with_session. by rewrite Hu.
  - cbn [echo foldl]. unfold heard. cbn [handle]. unfold on_error_callback2, with_session. rewrite Hu.
    constructor; cbn; by rewrite ?app_nil_r.
  - cbn [echo foldl]. transitivity s; [apply read_same|]. constructor; cbn; by rewrite ?app_nil_r.
Qed.

Lemma deliveries_reported ds : forall s, Forall delivery_ok ds -> idle s ->
  same (echo s (flat_map callbacks_of ds)) (plus (flat_map events_of ds) s).
Proof.
  induction ds as [|d ds IH]; intros s Hok Hi; [constructor; cbn; by rewrite ?app_nil_r|].
  apply Forall_cons in Hok as [Hd Hok]. cbn [flat_map]. rewrite echo_app, (delivery_reported d s Hd Hi), <- plus_plus.
  apply IH; [done|]. exact Hi.
Qed.

(** ** Whole runs *)

Definition asked (x : exchange) : callback := let 'Exchange c _ := x in c.

(** The session is as after its callbacks alone. *)
Definition echoes (s : t) (h : list exchange) (s' : t) : Prop := same s' (echo s (map asked h)).

#[global] Instance echoes_acting : Acting echoes.
Proof.
  constructor.
  - done.
  - intros s h1 s1 h2 s2 H1 H2. unfold echoes in *. by rewrite map_app, echo_app, <- H1.
  - intros c s. unfold respond, echoes. cbn [map asked echo foldl]. unfold heard. by destruct (handle c s).
  - done.
  - done.
Qed.

(** Changing a send buffer is not seen. *)
Lemma acts_buffers (f : t -> gmap Z StreamSendBuffer.t) s :
  acts echoes (modify (fun s => s <| send_buffers := f s |>)) s.
Proof. by apply acts_still. Qed.

Lemma call_echoes x s : x <> PollEvent -> acts echoes (run_call x) s.
Proof.
  intros Hx. destruct (plain x) eqn:Ep; [exact (acts_plain echoes x s Ep)|].
  destruct x as [| | | |headers data fin|id headers fin|id data fin|id data| | | | | | | | | | | |]; try done; cbn [run_call].
  - apply (acts_bind echoes); [|intros; apply (acts_ret echoes)]. unfold submit_request. apply (acts_bind echoes).
    + destruct (bool_decide _ && fin); [apply (acts_call echoes)|].
      apply (acts_bind echoes); [apply (acts_call echoes)|]. intros n s1 _. apply (acts_bind echoes); [|intros; apply (acts_ret echoes)].
      destruct (0 <? n); [|apply (acts_ret echoes)]. apply acts_buffers.
    + intros n s1 _. destruct (n <? 0); [apply (acts_throw echoes)|apply (acts_ret echoes)].
  - apply (acts_done echoes). unfold submit_response. destruct fin; [apply (acts_checked echoes)|].
    apply (acts_bind echoes); [apply (acts_checked echoes)|]. intros _ s1 _. apply acts_buffers.
  - apply (acts_done echoes), (acts_bind echoes); [|intros; apply (acts_checked echoes)]. apply acts_buffers.
  - apply (acts_done echoes), (acts_bind echoes); [|intros; apply (acts_checked echoes)]. apply acts_buffers.
Qed.

(** The events a transcript handed out. *)
Definition polled (es : list entry) : list Http2Event.t :=
  omap (fun e => match returned e with Ok (Event e) => e | _ => None end) es.

Definition heard_in (es : list entry) : list callback := map asked (concat (map meanwhile es)).

Lemma poll_event_after s e s' : run_call PollEvent s = (Ok (Event e), s') ->
  history s' = history s /\ same (after (option_list e) s') s.
Proof.
  cbn [run_call]. unfold bind, poll_event, ret. destruct (events s) as [|e0 rest] eqn:Ee; intros [= <- <-].
  - split; [done|]. constructor; cbn; done.
  - split; [done|]. constructor; cbn; by rewrite ?Ee.
Qed.

Lemma after_app e1 e2 s : after (e1 ++ e2) s = after e1 (after e2 s).
Proof. unfold after. cbn. by rewrite app_assoc. Qed.

(** One call: what it handed out, put back, gives the state after its
    callbacks. *)
Lemma call_after x s :
  let '(r, s') := run_call x s in
  let e := Entry x r (drop (length (history s)) (history s')) in
  same (after (polled [e]) s') (echo s (heard_in [e])).
Proof.
  assert (forall r h, heard_in [Entry x r h] = map asked h) as Eh by (intros; unfold heard_in; cbn; by rewrite app_nil_r).
  assert (x = PollEvent \/ x <> PollEvent) as [->|Hx] by (destruct x; auto; by right).
  - destruct (run_call PollEvent s) as [[[| | |e]|err|] s'] eqn:E;
      try (exfalso; cbn in E; unfold bind, poll_event, ret in E; destruct (events s); done).
    destruct (poll_event_after _ _ _ E) as [E1 Hs]. cbn zeta. rewrite Eh, E1, drop_all. cbn [map echo foldl]. rewrite <- Hs.
    unfold polled. cbn. by destruct e.
  - pose proof (acts_meanwhile echoes _ _ (call_echoes x s Hx)) as H.
    destruct (run_call x s) as [r s'] eqn:E. unfold echoes in H. cbn zeta. rewrite Eh, <- H.
    replace (polled _) with (@nil Http2Event.t); [constructor; cbn; done|].
    unfold polled. destruct r as [[| | |e]|err|]; try done. exfalso.
    destruct x; try done; cbn [run_call] in E; unfold done, bind, ret in E; repeat (case_match; simplify_eq).
Qed.

Lemma transcript_after xs : forall s,
  let '(es, s') := transcript xs s in same (after (polled es) s') (echo s (heard_in es)).
Proof.
  induction xs as [|x xs IH]; intros s; [constructor; cbn; done|]. cbn [transcript].
  pose proof (call_after x s) as Hc. destruct (run_call x s) as [r s1]. cbn zeta in Hc.
  set (e := Entry x r _) in *.
  assert (forall es s2, same (after (polled es) s2) (echo s1 (heard_in es)) ->
    same (after (polled (e :: es)) s2) (echo s (heard_in (e :: es)))) as K.
  { intros es s2 Hs.
    change (e :: es) with ([e] ++ es). unfold polled, heard_in. rewrite omap_app, map_app, concat_app, map_app, echo_app, after_app.
    fold (polled es) (polled [e]) (heard_in es) (heard_in [e]). by rewrite <- Hc, echo_after, Hs. }
  specialize (IH s1). destruct r; [| |exact Hc];
    (destruct (transcript xs s1) as [es s2]; exact (K es s2 IH)).
Qed.

(** C26: Whatever an application calls on a new session, if the callbacks that
    the library made so far are those for a list of deliveries (header blocks
    with their fields, content in any pieces, other received frames, closed
    streams, frames sent or refused, reads of the data provider; no pushed
    streams), then the events that were polled followed by those in the queue
    are the events of these deliveries, in their order: each header block is one
    event with all of its fields, each DATA frame one event with all of its
    octets, and nothing is kept back. *)
Theorem callbacks_become_events s xs ds :
  created s -> Forall delivery_ok ds ->
  let '(es, s') := transcript xs s in
  heard_in es = flat_map callbacks_of ds ->
  polled es ++ events s' = flat_map events_of ds /\
  pending_headers s' = ∅ /\ pending_data s' = ∅.
Proof.
  intros Hs Hok. destruct (created_start s Hs) as (Hu & He & Hh & Hd & _).
  pose proof (transcript_after xs s) as H. destruct (transcript xs s) as [es s'].
  intros E. rewrite E, (deliveries_reported ds s Hok) in H by done.
  destruct H as [_ Hev Hph Hpd]. cbn in Hev, Hph, Hpd. rewrite He in Hev. split_and!; [exact Hev|by rewrite Hph|by rewrite Hpd].
Qed.

End reports.

(** A response in two reads: the header block, and content in two pieces. *)
Definition frame_of (ty id flags : Z) : CFrame.t := CFrame.mk (CFrameHd.mk id ty flags) [] 0 0 None 0.
Definition sample_deliveries : list delivery :=
  [OtherFrame (frame_of NGHTTP2_SETTINGS 0 0);
   HeadersFrame (frame_of NGHTTP2_HEADERS 1 4) [Field (bstr ":status") (bstr "200") 0; BadField (bstr "x y") [] 0; Field (bstr "a") (bstr "b") 0];
   DataFrame (frame_of NGHTTP2_DATA 1 1) [[1; 2]; [3]]; Closed 1 0].
Definition sample_plays : list (list callback) :=
  let cs := flat_map callbacks_of sample_deliveries in [take 5 cs; drop 5 cs].
Definition peer_library : Nghttp2 := player_library sample_plays [].
Definition peer_session : @t peer_library :=
  @mk peer_library (mk_player sample_plays [] []) true SessionRole.Client [] [] ∅ ∅ ∅ None [].
Definition peer_calls : list call := [Recv [0; 0]; PollEvent; Recv [0]; PollEvent].

Lemma callbacks_become_events_witness :
  created peer_session /\ Forall delivery_ok sample_deliveries /\
  (let '(es, s') := transcript peer_calls peer_session in
   heard_in es = flat_map callbacks_of sample_deliveries /\
   polled es ++ events s' = flat_map events_of sample_deliveries /\ length (events s') = 3%nat).
Proof.
  assert (created peer_session) as Hc by (left; reflexivity).
  assert (Forall delivery_ok sample_deliveries) as Hd by (repeat constructor; done).
  split; [exact Hc|]. split; [exact Hd|].
  pose proof (callbacks_become_events peer_session peer_calls sample_deliveries Hc Hd) as H.
  destruct (transcript peer_calls peer_session) as [es s'] eqn:E.
  assert (heard_in es = flat_map callbacks_of sample_deliveries) as Eh.
  { assert (es = fst (transcript peer_calls peer_session)) as -> by by rewrite E. vm_compute. reflexivity. }
  split; [exact Eh|]. split; [apply H, Eh|].
  assert (s' = snd (transcript peer_calls peer_session)) as -> by by rewrite E. vm_compute. reflexivity.
Defined.
