(* ===== verification/NgOutput.v ===== *)
(** * NgOutput: what an nghttp2 session hands out

    [send] asks the library again and again.  It ends, because the library has
    finitely much to send of its own and every octet it reads from the session
    leaves a send buffer; and it hands out exactly what the library produced
    meanwhile.  So no call panics, and what all calls handed out is what the
    library produced. *)

From S2P Require Import Prelude NgTypes Nghttp2 NgSession.
Import Session.
From S2P Require Import NgPlayer NgApi NgProvider.

Section output.
Context {N : Nghttp2} {L : Nghttp2Laws N}.

(** ** The measure *)

Definition total (m : gmap Z StreamSendBuffer.t) : nat :=
  map_fold (fun _ b n => (length (StreamSendBuffer.data b) + n)%nat) 0%nat m.

Lemma total_delete m id b : m !! id = Some b -> total m = (length (StreamSendBuffer.data b) + total (delete id m))%nat.
Proof. intros H. unfold total. rewrite (map_fold_delete_L _ 0%nat id b m); [done| |done]. intros. lia. Qed.

Lemma total_delete_le m id : (total (delete id m) <= total m)%nat.
Proof. destruct (m !! id) as [b|] eqn:E; [rewrite (total_delete m id b E); lia|by rewrite delete_id]. Qed.

Lemma total_insert m id b b' :
  m !! id = Some b ->
  (total (<[id := b']> m) + length (StreamSendBuffer.data b) = total m + length (StreamSendBuffer.data b'))%nat.
Proof.
  intros H. rewrite (total_delete m id b H), (total_delete (<[id := b']> m) id b') by apply lookup_insert_eq.
  rewrite delete_insert_eq. lia.
Qed.

(** Octets that were read are gone from the buffers. *)
Definition drains (s : t) (h : list exchange) (s' : t) : Prop :=
  (buffered s' + length (concat (map octets_read h)) <= buffered s)%nat.

Lemma read_drains id length flags s :
  let '(r, s') := data_source_read_callback id length flags s in
  (buffered s' + List.length (ReadReply.buf r) <= buffered s)%nat.
Proof.
  unfold data_source_read_callback. destruct (negb _); [cbn; lia|].
  destruct (send_buffers s !! id) as [b|] eqn:Eb; [|cbn; lia].
  destruct (is_empty _) eqn:Ee; [destruct (StreamSendBuffer.end_stream b); cbn; lia|].
  set (k := Z.to_nat _). cbn [ReadReply.buf].
  pose proof (total_insert (send_buffers s) id b (b <| StreamSendBuffer.data := drop k (StreamSendBuffer.data b) |>) Eb) as H.
  unfold total in H. unfold buffered. cbn in H |- *. rewrite length_drop in H. rewrite length_take. lia.
Qed.

Lemma respond_drains c s : let '(a, s') := respond c s in drains s [Exchange c a] s'.
Proof.
  destruct (feeds c) eqn:Ec.
  2:{ pose proof (handle_buffers c s Ec) as Hb. unfold respond, drains, buffered.
      assert (forall a, octets_read (Exchange c a) = []) as Ho by by destruct c.
      destruct (handle c s) as [a s']. cbn in *. rewrite Hb, Ho. cbn. lia. }
  unfold respond, drains. destruct c; try done; cbn [handle].
  - unfold on_stream_close_callback, with_session. destruct (user_data s); [|unfold buffered; cbn; lia].
    pose proof (total_delete_le (send_buffers s) stream_id) as H. unfold total in H. unfold buffered. cbn. lia.
  - pose proof (read_drains stream_id length data_flags s) as H.
    destruct (data_source_read_callback stream_id length data_flags s) as [r s']. unfold buffered in *. cbn in *. rewrite app_nil_r. exact H.
Qed.

#[global] Instance drains_acting : Acting drains.
Proof.
  constructor; unfold drains.
  - intros s. unfold buffered. cbn. lia.
  - intros s h1 s1 h2 s2 H1 H2. rewrite map_app, concat_app, length_app. lia.
  - apply respond_drains.
  - intros s c. unfold buffered. cbn. lia.
  - intros s o. unfold buffered. cbn. lia.
Qed.

(** ** Sending *)

(** The library said that it has nothing to send. *)
Definition nothing_left (c : csession) : Prop :=
  exists c0 h mem, leads (mem_send c0) h (0, mem, c).

Definition library_error (e : NgError.t) : Prop := exists code, code < 0 /\ e = from_nghttp2 code.

Lemma as_i32_negative n : - 2 ^ 31 <= n -> n < 0 -> as_i32 n < 0.
Proof. intros H1 H2. unfold as_i32. rewrite Z.mod_small by lia. lia. Qed.

(** The session after a step of [send]. *)
Definition sends (more : list Z) (s s' : t) : Prop :=
  user_data s' = true /\ output s' = output s ++ more /\ produced (session s') = produced (session s) ++ more.

Lemma sends_trans a b s s1 s2 : sends a s s1 -> sends b s1 s2 -> sends (a ++ b) s s2.
Proof.
  intros (Hu & Ho & Hp) (Hu' & Ho' & Hp'). split_and!; [done| |].
  - by rewrite Ho', Ho, app_assoc.
  - by rewrite Hp', Hp, app_assoc.
Qed.

(** One turn. *)
Lemma mem_send_turn s : user_data s = true ->
  exists n mem c s1, Session.call mem_send s = (Ok (n, mem), s1) /\ session s1 = c /\
    user_data s1 = true /\ output s1 = output s /\
    produced c = produced (session s) ++ (if 0 <? n then mem else []) /\
    (0 <= n -> len mem = n) /\
    (0 < n -> (queued c + buffered s1 < queued (session s) + buffered s)%nat) /\
    (n = 0 -> nothing_left c).
Proof.
  intros Hu. destruct (call_runs drains acting_refl acting_trans acting_respond mem_send s)
    as ([n mem] & c & h & s' & E & Hl & (Es & Eu & _ & Eo & _ & Hok) & Hd).
  exists n, mem, c, (s' <| session := c |>).
  destruct (mem_send_law _ _ _ _ _ Hl (Hok Hu)) as (Hlen & Hp & Hq). unfold drains, buffered in *. cbn.
  split_and!; [done|done|congruence|done|done|done| |].
  - intros Hn. specialize (Hq Hn). lia.
  - intros ->. by exists (session s), h, mem.
Qed.

Lemma send_loop_spec fuel : forall s, user_data s = true -> (queued (session s) + buffered s < fuel)%nat ->
  let '(r, s') := send_loop fuel s in
  (exists more, sends more s s') /\
  match r with
  | Ok _ => nothing_left (session s')
  | Err e => exists code, code < 0 /\ e = from_nghttp2 (as_i32 code)
  | Panic => False
  end.
Proof.
  induction fuel as [|fuel IH]; intros s Hu Hf; [lia|]. cbn [send_loop].
  destruct (mem_send_turn s Hu) as (n & mem & c & s1 & E & Ec & Hu1 & Ho & Hp & Hlen & Hq & Hn).
  unfold bind at 1. rewrite E.
  destruct (n <? 0) eqn:E0; [|destruct (n =? 0) eqn:E1]; zbool.
  - cbn. split; [|eauto]. exists []. unfold sends.
    assert ((0 <? n) = false) as E2 by lia. rewrite E2 in Hp. rewrite Ec, Hp, Ho. by rewrite !app_nil_r.
  - subst n. cbn. split; [|by rewrite Ec; apply Hn]. exists []. unfold sends. cbn in Hp. rewrite Ec, Hp, Ho. by rewrite !app_nil_r.
  - assert ((0 <? n) = true) as E2 by lia. rewrite E2 in Hp.
    assert (slice mem 0 n = @Ok NgError.t _ mem) as Hs.
    { rewrite slice_spec by (rewrite ?Hlen; lia). rewrite Z.sub_0_r. cbn. f_equal. apply take_ge.
      rewrite length_len, Hlen by lia. done. }
    rewrite Hs, bind_lift_Ok, bind_modify.
    set (s2 := s1 <| output := output s1 ++ mem |>).
    assert (sends mem s s2) as Hs2 by (unfold sends, s2; cbn; rewrite Ec, Ho, Hp; done).
    specialize (Hq ltac:(lia)). subst c.
    specialize (IH s2 Hu1 ltac:(change (buffered s2) with (buffered s1); change (session s2) with (session s1); lia)).
    destruct (send_loop fuel s2) as [r s']. destruct IH as [[more Hm] Hr]. split; [|done].
    exists (mem ++ more). by eapply sends_trans.
Qed.

(** [send] ends, and hands out what the library produced; when it fails, the
    octets it already had stay in [output], which the next [send] empties. *)
Lemma send_spec s : user_data s = true ->
  let '(r, s') := send s in
  user_data s' = true /\
  match r with
  | Ok out => produced (session s') = produced (session s) ++ out /\ nothing_left (session s') /\ output s' = []
  | Err e => (exists code, code < 0 /\ e = from_nghttp2 (as_i32 code)) /\
      produced (session s') = produced (session s) ++ output s'
  | Panic => False
  end.
Proof.
  intros Hu. unfold send. rewrite bind_modify, bind_gets. set (s0 := s <| output := [] |>).
  pose proof (send_loop_spec (S (queued (session s0) + buffered s0)) s0 Hu ltac:(lia)) as H.
  unfold bind at 1. destruct (send_loop _ s0) as [[[]|e|] s1]; destruct H as [[more (Hu1 & Ho & Hp)] Hr]; [| |done].
  - rewrite bind_gets, bind_modify. cbn. split_and!; [done|by rewrite Hp, Ho|done|done].
  - split_and!; [done|done|]. by rewrite Hp, Ho.
Qed.

(** ** The other calls *)

Definition hushed {A} (m : M A) : Prop := forall s, user_data s = true ->
  let '(r, s') := m s in
  r <> Panic /\ user_data s' = true /\ produced (session s') = produced (session s) /\ output s' = output s.

Lemma hushed_bind {A B} (m : M A) (k : A -> M B) : hushed m -> (forall a, hushed (k a)) -> hushed (bind m k).
Proof.
  intros Hm Hk s Hu. specialize (Hm s Hu). unfold bind. destruct (m s) as [[a|e|] s1]; [|by destruct Hm as (_ & ? & ? & ?)|by destruct Hm].
  destruct Hm as (_ & Hu1 & Hp & Ho). specialize (Hk a s1 Hu1). destruct (k a s1) as [r s2].
  destruct Hk as (? & ? & Hp' & Ho'). split_and!; [done|done|by rewrite Hp'|by rewrite Ho'].
Qed.

Lemma hushed_ret {A} (a : A) : hushed (ret a).
Proof. intros s Hu. cbn. by split_and!. Qed.
Lemma hushed_throw {A} e : hushed (A:=A) (throw e).
Proof. intros s Hu. cbn. by split_and!. Qed.
Lemma hushed_check code : hushed (lift (check_nghttp2 code)).
Proof. intros s Hu. unfold lift, check_nghttp2. destruct (code <? 0); cbn; by split_and!. Qed.
Lemma hushed_buffers (f : t -> gmap Z StreamSendBuffer.t) : hushed (modify (fun s => s <| send_buffers := f s |>)).
Proof. intros s Hu. cbn. by split_and!. Qed.

Lemma hushed_call {A} (f : csession -> script (A * csession)) :
  (forall c h a c', leads (f c) h (a, c') -> Forall answer_ok h -> produced c' = produced c) -> hushed (Session.call f).
Proof.
  intros Hf s Hu. destruct (call_runs drains acting_refl acting_trans acting_respond f s)
    as (a & c & h & s' & E & Hl & (Es & Eu & _ & Eo & _ & Hok) & _).
  rewrite E. cbn. split_and!; [done|congruence| |done]. by eapply Hf; [exact Hl|apply Hok].
Qed.

Lemma hushed_request r : hushed (Session.call (request r)).
Proof. apply hushed_call. intros c h n c' Hl Ho. by eapply request_law. Qed.
Lemma hushed_checked r : hushed (checked r).
Proof. apply hushed_bind; [apply hushed_request|]. intros. apply hushed_check. Qed.
Lemma hushed_recv data : hushed (recv data).
Proof.
  apply hushed_bind.
  - apply hushed_call. intros c h n c' Hl Ho. by destruct (mem_recv_law _ _ _ _ _ Hl Ho).
  - intros n. destruct (n <? 0); [apply hushed_throw|apply hushed_ret].
Qed.
Lemma hushed_poll : hushed poll_event.
Proof. intros s Hu. unfold poll_event. destruct (events s); cbn; by split_and!. Qed.

Lemma hushed_submit_request headers data fin : hushed (submit_request headers data fin).
Proof.
  unfold submit_request. apply hushed_bind.
  - destruct (bool_decide _ && fin); [apply hushed_request|]. apply hushed_bind; [apply hushed_request|].
    intros id. apply hushed_bind; [|intros; apply hushed_ret]. destruct (0 <? id); [apply hushed_buffers|apply hushed_ret].
  - intros id. destruct (id <? 0); [apply hushed_throw|apply hushed_ret].
Qed.

Lemma hushed_submit_response id headers fin : hushed (submit_response id headers fin).
Proof.
  unfold submit_response. destruct fin; [apply hushed_checked|].
  apply hushed_bind; [apply hushed_checked|]. intros. apply hushed_buffers.
Qed.

Lemma hushed_update id f : hushed (update_buffer id f ;! checked (Request.resume_data id)).
Proof. apply hushed_bind; [apply hushed_buffers|intros; apply hushed_checked]. Qed.

Lemma hushed_submit_headers id headers fin : hushed (submit_headers id headers fin).
Proof. apply hushed_bind; [apply hushed_request|]. intros n. destruct (n <? 0); [apply hushed_throw|apply hushed_ret]. Qed.

End output.

(** Every method of a session but [send]. *)
Ltac hush := first [apply hushed_submit_request | apply hushed_submit_response | apply hushed_submit_headers
  | apply hushed_recv | apply hushed_poll | apply hushed_checked | apply hushed_update].

Section runs.
Context {N : Nghttp2} {L : Nghttp2Laws N}.

Lemma hushed_entry x : x <> Send -> hushed (run_call x).
Proof.
  intros Hx. destruct x; try done; cbn [run_call]; (apply hushed_bind; [hush|intros; apply hushed_ret]).
Qed.

(** ** Whole runs *)

Lemma created_produced s : created s -> produced (session s) = [].
Proof.
  unfold created, client, server, client_with_options, server_with_options.
  intros H. assert (exists role o, (let? x := new role o in Ok (set_user_data x)) = Ok s) as (role & o & Hs).
  { destruct H as [H|[H|[o [H|H]]]]; by do 2 eexists. }
  unfold new in Hs. destruct (check_nghttp2 callbacks_new); [|done|done]. cbn [rbind] in Hs.
  destruct role, o as [o|]; cbn in Hs;
    match type of Hs with context [let '(_, _) := ?p in _] => assert (produced p.2 = []) as Hl; [|destruct p as [code c]] end;
    try (destruct (check_nghttp2 code); cbn in Hs; [|done|done]; injection Hs as <-; exact Hl).
  - apply (new2_law registered (SessionOptions.as_ptr o)).
  - apply (new_law registered).
  - apply (new2_law registered (SessionOptions.as_ptr o)).
  - apply (new_law registered).
Qed.

Definition handed_out (es : list entry) : list Z :=
  concat (map (fun e => match returned e with Ok (Output out) => out | _ => [] end) es).

(** A [send] that failed. *)
Definition send_failed (e : entry) : bool :=
  match made e, returned e with Send, Err _ => true | _, _ => false end.

Lemma only_send_outputs x s out s' : run_call x s = (Ok (Output out), s') -> x = Send.
Proof.
  intros E. destruct x; try done; cbn [run_call] in E; unfold done, bind, ret in E; repeat (case_match; simplify_eq).
Qed.

Lemma call_output x s : user_data s = true ->
  let '(r, s') := run_call x s in
  let e := Entry x r (drop (length (history s)) (history s')) in
  r <> Panic /\ user_data s' = true /\
  (send_failed e = false -> produced (session s') = produced (session s) ++ handed_out [e]).
Proof.
  intros Hu. assert (x = Send \/ x <> Send) as [->|Hx] by (destruct x; auto; by right).
  - pose proof (send_spec s Hu) as H. cbn [run_call]. unfold bind. destruct (send s) as [[out|err|] s'];
      destruct H as [Hu' H]; [| |done]; (split_and!; [done|done|]).
    + intros _. destruct H as [Hp _]. rewrite Hp. unfold handed_out. cbn. by rewrite app_nil_r.
    + done.
  - pose proof (hushed_entry x Hx s Hu) as H. destruct (run_call x s) as [r s'] eqn:E. destruct H as (Hr & Hu' & Hp & _).
    split_and!; [done|done|]. intros _. rewrite Hp. unfold handed_out. cbn.
    destruct r as [[]| |]; rewrite ?app_nil_r; try done. by apply only_send_outputs in E.
Qed.

Lemma transcript_output xs : forall s, user_data s = true ->
  let '(es, s') := transcript xs s in
  Forall (fun e => returned e <> Panic) es /\ user_data s' = true /\
  (Forall (fun e => send_failed e = false) es -> produced (session s') = produced (session s) ++ handed_out es).
Proof.
  induction xs as [|x xs IH]; intros s Hu.
  { cbn. split_and!; [done|done|]. intros _. by rewrite app_nil_r. }
  cbn [transcript]. pose proof (call_output x s Hu) as Hc. destruct (run_call x s) as [r s1].
  cbn zeta in Hc. set (e := Entry x r _) in *. destruct Hc as (Hr & Hu1 & Hp). specialize (IH s1 Hu1).
  destruct r as [a|err|]; [| |done]; destruct (transcript xs s1) as [es s2]; destruct IH as (Hn & Hu2 & Hp2);
    (split_and!; [by constructor|done|]); intros [He Hes]%Forall_cons;
    rewrite (Hp2 Hes), (Hp He), <- app_assoc; unfold handed_out; cbn [map concat]; by rewrite app_nil_r.
Qed.

(** C27: On a new session over a library that keeps its documented behaviour, no
    sequence of calls panics, so that every [send] ends (its fuel, one more than
    what the library has queued and the send buffers hold, is enough); and as
    long as no [send] failed, all the octets that the calls handed out are, in
    order, exactly those that the library produced. *)
Theorem session_hands_out_what_is_produced s xs :
  created s ->
  let '(es, s') := transcript xs s in
  Forall (fun e => returned e <> Panic) es /\
  (Forall (fun e => send_failed e = false) es -> handed_out es = produced (session s')).
Proof.
  intros Hs. destruct (created_start s Hs) as (Hu & _). pose proof (transcript_output xs s Hu) as H.
  destruct (transcript xs s) as [es s']. destruct H as (Hp & _ & H). split; [done|].
  intros Hf. by rewrite (H Hf), (created_produced s Hs).
Qed.

End runs.

Lemma session_hands_out_what_is_produced_witness :
  created sample_client /\
  (let '(es, s') := transcript sample_calls sample_client in
   Forall (fun e => returned e <> Panic) es /\ handed_out es = produced (session s') /\ handed_out es = [0; 1; 2; 3; 4; 5]).
Proof.
  assert (created sample_client) as Hc by (left; reflexivity). split; [exact Hc|].
  pose proof (@session_hands_out_what_is_produced sample_library (player_laws _ _) sample_client sample_calls Hc) as H.
  destruct (transcript sample_calls sample_client) as [es s'] eqn:E. destruct H as [Hp Hh].
  assert (es = fst (transcript sample_calls sample_client)) as Ee by by rewrite E.
  split; [exact Hp|]. split; [apply Hh|]; rewrite Ee; [refine (bool_decide_unpack (Forall (fun e => send_failed e = false) _) _)|]; vm_compute; [exact I|reflexivity].
Defined.
