(* ===== verification/NgTokio.v ===== *)
(** * NgTokio: a connection over nghttp2 on an asynchronous transport

    Models [src/crates/tokio-nghttp2/src/error.rs], [connection.rs] and what
    [client.rs] and [server.rs] add to it: a session of [NgSession] whose octets
    go to and come from a transport ([Tokio]). *)

From S2P Require Import Prelude NgTypes Nghttp2 NgSession Tokio.

(** [CONNECTION_PREFACE] of [lib.rs]. *)
Definition CONNECTION_PREFACE : list Z := bstr "PRI * HTTP/2.0" ++ [13; 10; 13; 10] ++ bstr "SM" ++ [13; 10; 13; 10].

Module NgTokioError.
Inductive t : Type :=
| Io (e : IoError.t)
| Nghttp2 (e : NgError.t)
| Tls (code : Z)
| ConnectionClosed
| Timeout
| InvalidArgument (reason : string).
End NgTokioError.

Module NgConnection.

(** The size of [recv_buf]. Its contents are read only right after a read. *)
Definition RECV_BUF_SIZE : Z := 16384.

Section connection.
Context {N : Nghttp2} {T : Transport}.

Record t : Type := mk { stream : transport; session : Session.t }.

#[global] Instance eta_ng_connection : Eta t := fun c => mk (stream c) (session c).

Definition M (A : Type) : Type := ST t (stop NgTokioError.t) A.

(** [?] on a method of the session, and on one of the stream. *)
Definition on_session {A} (m : Session.M A) : M A :=
  embed session (fun v c => c <| session := v |>) (fun e => Failed (NgTokioError.Nghttp2 e)) m.
Definition on_stream {A} (m : ST transport (stop IoError.t) A) : M A :=
  embed stream (fun v c => c <| stream := v |>) (map_stop NgTokioError.Io) m.

Definition over (s : transport) (session : result NgError.t Session.t) : result NgTokioError.t t :=
  let? session := map_err NgTokioError.Nghttp2 session in Ok (mk s session).

Definition client (s : transport) : result NgTokioError.t t := over s Session.client.
Definition client_with_options (s : transport) (options : SessionOptions.t) : result NgTokioError.t t :=
  over s (Session.client_with_options options).
Definition server (s : transport) : result NgTokioError.t t := over s Session.server.
Definition server_with_options (s : transport) (options : SessionOptions.t) : result NgTokioError.t t :=
  over s (Session.server_with_options options).

Definition send_preface : M unit :=
  let! r := gets (fun c => Session.role (session c)) in
  if negb (bool_decide (r = SessionRole.Client)) then
    throw (Failed (NgTokioError.InvalidArgument "send_preface is for client only"))
  else on_stream (transport_write_all CONNECTION_PREFACE).

Definition recv_preface : M unit :=
  let! r := gets (fun c => Session.role (session c)) in
  if negb (bool_decide (r = SessionRole.Server)) then
    throw (Failed (NgTokioError.InvalidArgument "recv_preface is for server only"))
  else
    let! preface := on_stream (transport_read_exact 24) in
    if negb (bytes_eqb preface CONNECTION_PREFACE) then
      throw (Failed (NgTokioError.InvalidArgument "invalid connection preface"))
    else ret tt.

Definition flush : M unit :=
  let! data := on_session Session.send in
  if negb (Session.is_empty data) then
    on_stream (transport_write_all data) ;!
    on_stream transport_flush
  else ret tt.

Definition submit_settings (settings : list (SettingsId.t * Z)) : M unit :=
  on_session (Session.submit_settings settings) ;! flush.

Definition submit_request (headers : list Header.t) (data : option (list Z)) (end_stream : bool) : M Z :=
  let! stream_id := on_session (Session.submit_request headers data end_stream) in
  flush ;!
  ret stream_id.

Definition submit_response (stream_id : Z) (headers : list Header.t) (end_stream : bool) : M unit :=
  on_session (Session.submit_response stream_id headers end_stream) ;! flush.

Definition submit_rst_stream (stream_id : Z) (error_code : ErrorCode.t) : M unit :=
  on_session (Session.submit_rst_stream stream_id error_code) ;! flush.

Definition submit_goaway (last_stream_id : Z) (error_code : ErrorCode.t) (debug_data : list Z) : M unit :=
  on_session (Session.submit_goaway last_stream_id error_code debug_data) ;! flush.

Definition submit_ping (opaque_data : list Z) : M unit :=
  on_session (Session.submit_ping opaque_data) ;! flush.

Definition submit_window_update (stream_id increment : Z) : M unit :=
  on_session (Session.submit_window_update stream_id increment) ;! flush.

Definition submit_data (stream_id : Z) (data : list Z) (end_stream : bool) : M unit :=
  on_session (Session.submit_data stream_id data end_stream) ;! flush.

Definition submit_data_for_trailer (stream_id : Z) (data : list Z) : M unit :=
  on_session (Session.submit_data_for_trailer stream_id data) ;! flush.

Definition submit_trailer (stream_id : Z) (headers : list Header.t) : M unit :=
  on_session (Session.submit_trailer stream_id headers) ;! flush.

Definition submit_headers (stream_id : Z) (headers : list Header.t) (end_stream : bool) : M unit :=
  on_session (Session.submit_headers stream_id headers end_stream) ;! flush.

Definition terminate_session (error_code : ErrorCode.t) : M unit :=
  on_session (Session.terminate_session error_code) ;! flush.

Definition submit_shutdown_notice : M unit :=
  on_session Session.submit_shutdown_notice ;! flush.

Definition set_local_window_size (stream_id window_size : Z) : M unit :=
  on_session (Session.set_local_window_size stream_id window_size) ;! flush.

Definition consume (stream_id size : Z) : M unit := on_session (Session.consume stream_id size) ;! flush.
Definition consume_connection (size : Z) : M unit := on_session (Session.consume_connection size) ;! flush.
Definition consume_stream (stream_id size : Z) : M unit := on_session (Session.consume_stream stream_id size) ;! flush.

Definition get_stream_remote_window_size (stream_id : Z) (c : t) : result NgTokioError.t Z :=
  map_err NgTokioError.Nghttp2 (Session.get_stream_remote_window_size stream_id (session c)).
Definition get_stream_local_window_size (stream_id : Z) (c : t) : result NgTokioError.t Z :=
  map_err NgTokioError.Nghttp2 (Session.get_stream_local_window_size stream_id (session c)).

Definition poll_event : M (option Http2Event.t) := on_session Session.poll_event.

Definition recv : M Z :=
  let! data := on_stream (transport_read RECV_BUF_SIZE) in
  let n := len data in
  if n =? 0 then throw (Failed NgTokioError.ConnectionClosed)
  else on_session (Session.recv data).

(** The future that does not complete in time is dropped. *)
Definition recv_timeout : M Z := fun c =>
  match recv c with
  | (Err Dropped, c) => (Err (Failed NgTokioError.Timeout), c)
  | r => r
  end.

Definition drive : M unit := flush ;! recv ;! ret tt.

(** [reads] bounds the reads that complete before the future is dropped. *)
Fixpoint next_event (reads : nat) : M Http2Event.t :=
  let! e := poll_event in
  match e with
  | Some event => ret event
  | None =>
      flush ;!
      match reads with
      | O => throw Dropped
      | S reads => recv ;! next_event reads
      end
  end.

Definition into_inner (c : t) : transport := stream c.

(** ** What the client and the server add

    [Client::connect] and [Server::accept] from the TLS stream on, with or
    without options. *)
Definition start (conn : result NgTokioError.t t) : result (stop NgTokioError.t) (result (stop NgTokioError.t) unit * t) :=
  let? conn := map_err Failed conn in Ok (submit_settings [] conn).

Definition connect (s : transport) := start (client s).
Definition connect_with_options (s : transport) (options : SessionOptions.t) := start (client_with_options s options).
Definition accept (s : transport) := start (server s).
Definition accept_with_options (s : transport) (options : SessionOptions.t) := start (server_with_options s options).

(** [Client::shutdown] and [ServerConnection::shutdown]. *)
Definition client_shutdown : M unit := submit_goaway 0 ErrorCode.NoError [].
Definition server_shutdown (last_stream_id : Z) : M unit := submit_goaway last_stream_id ErrorCode.NoError [].

End connection.
End NgConnection.
