(* ===== verification/NgWire.v ===== *)
(** * NgWire: what a connection over nghttp2 writes

    Every method but [send_preface] flushes: it asks the session for its output
    and writes it.  So what reaches the transport is what the library produced,
    in order, with the octets of the preface where [send_preface] was called, as
    long as writing succeeds and no [send] of the session failed. *)

From S2P Require Import Prelude Tokio TokioApi.
From S2P Require Import NgTypes Nghttp2 NgSession NgPlayer NgApi NgProvider NgOutput NgTokio.
Import NgConnection.

Section wire.
Context {N : Nghttp2} {L : Nghttp2Laws N} {T : Transport} {TL : TransportLaws T}.

(** Nothing was lost while writing. *)
Definition complete {A} (r : result (stop NgTokioError.t) A) : bool :=
  match r with Err Dropped | Err (Failed (NgTokioError.Io _)) => false | _ => true end.

(** No octets are left over from a [send] that failed. *)
Definition clean (c : t) : Prop := Session.user_data (session c) = true /\ Session.output (session c) = [].

(** The same octets were produced by the library and written. *)
Definition in_step (c c' : t) : Prop :=
  exists out, produced (Session.session (session c')) = produced (Session.session (session c)) ++ out /\
    written (stream c') = written (stream c) ++ out.

Lemma in_step_refl c : in_step c c.
Proof. exists []. by rewrite !app_nil_r. Qed.
Lemma in_step_trans c c1 c2 : in_step c c1 -> in_step c1 c2 -> in_step c c2.
Proof.
  intros (a & Ha & Wa) (b & Hb & Wb). exists (a ++ b). by rewrite Hb, Ha, Wb, Wa, !app_assoc.
Qed.

(** A method never panics; its value comes with a clean session; and when it
    ends in a clean session with nothing lost, what was produced was written. *)
Definition faithful {A} (m : M A) : Prop := forall c, clean c ->
  let '(r, c') := m c in
  r <> Panic /\ Session.user_data (session c') = true /\
  (is_ok r = true -> clean c') /\
  (complete r = true -> clean c' -> in_step c c').

Lemma faithful_bind {A B} (m : M A) (k : A -> M B) : faithful m -> (forall a, faithful (k a)) -> faithful (bind m k).
Proof.
  intros Hm Hk c Hc. specialize (Hm c Hc). unfold bind. destruct (m c) as [[a|e|] c1]; [| |by destruct Hm].
  - destruct Hm as (_ & _ & Hok & Hs). specialize (Hok eq_refl). specialize (Hk a c1 Hok).
    destruct (k a c1) as [r c2]. destruct Hk as (? & ? & ? & Hs2). split_and!; [done|done|done|].
    intros Hr Hc2. eapply in_step_trans; [by apply Hs|by apply Hs2].
  - destruct Hm as (_ & ? & _ & ?). by split_and!.
Qed.

Lemma faithful_ret {A} (a : A) : faithful (ret a).
Proof. intros c Hc. cbn. split_and!; [done|apply Hc|done|]. intros. apply in_step_refl. Qed.
Lemma faithful_throw {A} e : faithful (A:=A) (throw e).
Proof. intros c Hc. cbn. split_and!; [done|apply Hc|done|]. intros. apply in_step_refl. Qed.

Lemma faithful_session {A} (m : Session.M A) : hushed m -> faithful (on_session m).
Proof.
  intros Hm c [Hu Ho]. specialize (Hm _ Hu). unfold on_session, embed. destruct (m (session c)) as [r s].
  destruct Hm as (Hr & Hu' & Hp & Ho'). split_and!.
  - by destruct r.
  - done.
  - intros _. split; [done|]. cbn. by rewrite Ho'.
  - intros _ _. exists []. cbn. by rewrite Hp, !app_nil_r.
Qed.

Lemma faithful_read {A} (f : ST transport (stop IoError.t) A) :
  (forall s, let '(r, s') := f s in written s' = written s /\ r <> Panic) -> faithful (on_stream f).
Proof.
  intros Hf c [Hu Ho]. unfold on_stream, embed. specialize (Hf (stream c)). destruct (f (stream c)) as [r s].
  destruct Hf as [Hw Hr]. split_and!; [by destruct r|done|done|]. intros _ _. exists []. cbn. by rewrite Hw, !app_nil_r.
Qed.

(** Writing and flushing. *)
Lemma write_flush_spec data c :
  let '(r, c') := (on_stream (transport_write_all data) ;! on_stream transport_flush) c in
  r <> Panic /\ session c' = session c /\ (complete r = true -> written (stream c') = written (stream c) ++ data).
Proof.
  unfold bind, on_stream, embed. pose proof (write_all_law data (stream c)) as Hw.
  destruct (transport_write_all data (stream c)) as [[[]|e|] s]; [| |done]; cbn [map_err].
  - cbn [stream set_field]. pose proof (flush_law s) as Hf. destruct (transport_flush s) as [[[]|e|] s']; destruct Hf as [Hf ?]; [| |done].
    + split_and!; [done|done|]. intros _. cbn. by rewrite Hf.
    + split_and!; [done|done|by destruct e].
  - split_and!; [done|done|by destruct e].
Qed.

Lemma faithful_flush : faithful flush.
Proof.
  intros c [Hu Ho]. unfold flush, bind at 1, on_session, embed.
  pose proof (send_spec (session c) Hu) as Hs. destruct (Session.send (session c)) as [[data|e|] s]; destruct Hs as [Hu' Hs]; [| |done]; cbn [map_err].
  - destruct Hs as (Hp & _ & Ho'). set (c1 := c <| session := s |>).
    destruct data as [|o os].
    + cbn. split_and!; [done|done|done|]. intros _ _. exists []. cbn. by rewrite Hp, !app_nil_r.
    + cbn [Session.is_empty negb]. pose proof (write_flush_spec (o :: os) c1) as Hw.
      destruct (bind _ _ c1) as [r c2]. destruct Hw as (Hr & Es & Hw).
      assert (clean c2) as Hc2 by (unfold clean; by rewrite Es). split_and!; [done|apply Hc2|done|].
      intros Hr' _. exists (o :: os). rewrite Es. split; [exact Hp|by apply Hw].
  - destruct Hs as [_ Hp]. split_and!; [done|done|done|]. intros _ [_ Ho']. cbn in Ho'. exists []. cbn.
    by rewrite Hp, Ho', !app_nil_r.
Qed.

Lemma faithful_then_flush {A} (m : Session.M A) (k : A -> M unit) :
  hushed m -> (forall a, k a = flush) -> faithful (bind (on_session m) k).
Proof. intros Hm Hk. apply faithful_bind; [by apply faithful_session|]. intros a. rewrite Hk. apply faithful_flush. Qed.

(** Receiving writes nothing, also when it does not complete. *)
Lemma recv_spec c : clean c -> let '(r, c') := recv c in r <> Panic /\ clean c' /\ in_step c c'.
Proof.
  intros [Hu Ho]. unfold recv, bind, on_stream, embed. pose proof (read_law RECV_BUF_SIZE (stream c) ltac:(done)) as H.
  destruct (transport_read RECV_BUF_SIZE (stream c)) as [[data|e|] s]; destruct H as [Hw Hr]; [| |done]; cbn [map_err].
  - assert (in_step c (c <| stream := s |>)) as Hs by (exists []; cbn; by rewrite Hw, !app_nil_r).
    destruct (len data =? 0); [by split_and!|].
    pose proof (faithful_session _ (hushed_recv data) (c <| stream := s |>) (conj Hu Ho)) as H.
    pose proof (hushed_recv data (session c) Hu) as Hq. unfold on_session, embed in *. cbn in H |- *.
    destruct (Session.recv data (session c)) as [r s']. destruct Hq as (? & ? & Hp & Ho').
    split_and!; [by destruct r|split; [done|by rewrite <- Ho]|]. exists []. cbn. by rewrite Hp, Hw, !app_nil_r.
  - split_and!; [done|done|]. exists []. cbn. by rewrite Hw, !app_nil_r.
Qed.

Lemma faithful_recv : faithful recv.
Proof.
  intros c Hc. pose proof (recv_spec c Hc) as H. destruct (recv c) as [r c']. destruct H as (? & Hc' & ?).
  split_and!; [done|apply Hc'|done|done].
Qed.

Lemma faithful_recv_timeout : faithful recv_timeout.
Proof.
  intros c Hc. pose proof (recv_spec c Hc) as H. unfold recv_timeout.
  destruct (recv c) as [[n|[e|]|] c']; destruct H as (? & Hc' & ?); (split_and!; [done|apply Hc'|done|done]).
Qed.

Lemma faithful_next_event reads : faithful (next_event reads).
Proof.
  induction reads as [|reads IH]; cbn [next_event]; apply faithful_bind;
    try (apply faithful_session, hushed_poll); intros [e|]; try apply faithful_ret;
    (apply faithful_bind; [apply faithful_flush|intros _]); [apply faithful_throw|].
  apply faithful_bind; [apply faithful_recv|]. intros _. exact IH.
Qed.

(** ** Sequences of calls *)

Inductive op : Type :=
| SendPreface
| Flush
| SubmitSettings (settings : list (SettingsId.t * Z))
| SubmitRequest (headers : list Header.t) (data : option (list Z)) (end_stream : bool)
| SubmitResponse (stream_id : Z) (headers : list Header.t) (end_stream : bool)
| SubmitData (stream_id : Z) (data : list Z) (end_stream : bool)
| SubmitDataForTrailer (stream_id : Z) (data : list Z)
| SubmitTrailer (stream_id : Z) (headers : list Header.t)
| SubmitHeaders (stream_id : Z) (headers : list Header.t) (end_stream : bool)
| SubmitRstStream (stream_id : Z) (error_code : ErrorCode.t)
| SubmitGoaway (last_stream_id : Z) (error_code : ErrorCode.t) (debug_data : list Z)
| SubmitPing (opaque_data : list Z)
| SubmitWindowUpdate (stream_id increment : Z)
| SubmitShutdownNotice
| TerminateSession (error_code : ErrorCode.t)
| SetLocalWindowSize (stream_id window_size : Z)
| Consume (stream_id size : Z)
| ConsumeConnection (size : Z)
| ConsumeStream (stream_id size : Z)
| RecvPreface
| Recv
| RecvTimeout
| Drive
| PollEvent
| NextEvent (reads : nat).

Definition ignore {A} (m : M A) : M unit := m ;! ret tt.

Definition run_op (x : op) : M unit :=
  match x with
  | SendPreface => send_preface
  | Flush => flush
  | SubmitSettings settings => submit_settings settings
  | SubmitRequest headers data end_stream => ignore (submit_request headers data end_stream)
  | SubmitResponse id headers end_stream => submit_response id headers end_stream
  | SubmitData id data end_stream => submit_data id data end_stream
  | SubmitDataForTrailer id data => submit_data_for_trailer id data
  | SubmitTrailer id headers => submit_trailer id headers
  | SubmitHeaders id headers end_stream => submit_headers id headers end_stream
  | SubmitRstStream id code => submit_rst_stream id code
  | SubmitGoaway id code debug => submit_goaway id code debug
  | SubmitPing opaque => submit_ping opaque
  | SubmitWindowUpdate id increment => submit_window_update id increment
  | SubmitShutdownNotice => submit_shutdown_notice
  | TerminateSession code => terminate_session code
  | SetLocalWindowSize id size => set_local_window_size id size
  | Consume id size => consume id size
  | ConsumeConnection size => consume_connection size
  | ConsumeStream id size => consume_stream id size
  | RecvPreface => recv_preface
  | Recv => ignore recv
  | RecvTimeout => ignore recv_timeout
  | Drive => drive
  | PollEvent => ignore poll_event
  | NextEvent reads => ignore (next_event reads)
  end.

(** How a sequence of calls ends: with everything written, at a call that lost
    octets (the transport failed, a future was dropped, or a [send] of the
    session failed half-way), or with a panic. *)
Inductive ending : Type := AllWritten | Lost | Panicked.

Fixpoint run_ops (xs : list op) (c : t) : ending * t :=
  match xs with
  | [] => (AllWritten, c)
  | x :: xs =>
      let '(r, c) := run_op x c in
      match r with
      | Panic => (Panicked, c)
      | _ => if complete r && Session.is_empty (Session.output (session c)) then run_ops xs c else (Lost, c)
      end
  end.

Lemma faithful_ignore {A} (m : M A) : faithful m -> faithful (ignore m).
Proof. intros H. apply faithful_bind; [done|]. intros. apply faithful_ret. Qed.

Lemma faithful_recv_preface : faithful recv_preface.
Proof.
  unfold recv_preface. apply (faithful_bind (gets _)).
  { intros c Hc. cbn. split_and!; [done|apply Hc|done|]. intros. apply in_step_refl. }
  intros r. destruct (negb _); [apply faithful_throw|]. apply faithful_bind.
  - apply faithful_read. intros s. pose proof (read_exact_law 24 s ltac:(done)) as H.
    destruct (transport_read_exact 24 s) as [[l|e|] s']; destruct H; done.
  - intros l. destruct (negb _); [apply faithful_throw|apply faithful_ret].
Qed.

Lemma op_faithful x : x <> SendPreface -> faithful (run_op x).
Proof.
  intros Hx. destruct x; cbn [run_op]; try done;
    try first [apply faithful_flush | apply faithful_recv_preface | apply faithful_then_flush; [hush|done]];
    try apply faithful_ignore.
  - apply faithful_bind; [apply faithful_session; hush|]. intros id.
    apply faithful_bind; [apply faithful_flush|]. intros. apply faithful_ret.
  - apply faithful_recv.
  - apply faithful_recv_timeout.
  - apply faithful_bind; [apply faithful_flush|]. intros _. apply faithful_bind; [apply faithful_recv|]. intros. apply faithful_ret.
  - apply faithful_session. hush.
  - apply faithful_next_event.
Qed.

(** What the application itself puts on the wire: the preface, when a client
    asks for it. *)
Definition own_octets (x : op) (r : result (stop NgTokioError.t) unit) : list Z :=
  match x, r with SendPreface, Ok _ => CONNECTION_PREFACE | _, _ => [] end.

(** What the library produced from one state to the other. *)
Definition newly_produced (c c' : t) : list Z :=
  drop (length (produced (Session.session (session c)))) (produced (Session.session (session c'))).

(** What a sequence of calls puts on the wire. *)
Fixpoint on_wire (xs : list op) (c : t) : list Z :=
  match xs with
  | [] => []
  | x :: xs => let '(r, c1) := run_op x c in own_octets x r ++ newly_produced c c1 ++ on_wire xs c1
  end.

Lemma newly_produced_app c c' out :
  produced (Session.session (session c')) = produced (Session.session (session c)) ++ out -> newly_produced c c' = out.
Proof. unfold newly_produced. intros ->. apply drop_app_length. Qed.

Lemma ng_preface_spec c :
  let '(r, c') := send_preface c in
  r <> Panic /\ session c' = session c /\ (complete r = true -> written (stream c') = written (stream c) ++ own_octets SendPreface r).
Proof.
  unfold send_preface. rewrite bind_gets. destruct (negb _).
  { cbn. split_and!; [done|done|]. intros _. by rewrite app_nil_r. }
  unfold on_stream, embed. pose proof (write_all_law CONNECTION_PREFACE (stream c)) as Hw.
  destruct (transport_write_all CONNECTION_PREFACE (stream c)) as [[[]|e|] s]; [by split_and!| |done].
  cbn [map_err]. split_and!; [done|done|by destruct e].
Qed.

(** A call that lost nothing wrote its own octets and what was produced. *)
Lemma op_wire x c : clean c ->
  let '(r, c') := run_op x c in
  r <> Panic /\ Session.user_data (session c') = true /\
  (complete r = true -> clean c' ->
     exists out, produced (Session.session (session c')) = produced (Session.session (session c)) ++ out /\
       written (stream c') = written (stream c) ++ own_octets x r ++ out).
Proof.
  intros Hc. assert (x = SendPreface \/ x <> SendPreface) as [->|Hx] by (destruct x; [by left|by right..]).
  - pose proof (ng_preface_spec c) as H. cbn [run_op]. destruct (send_preface c) as [r c']. destruct H as (Hr & Es & Hw).
    split_and!; [done|rewrite Es; apply Hc|]. intros E _. exists []. rewrite Es, !app_nil_r. by split; [|apply Hw].
  - pose proof (op_faithful x Hx c Hc) as H. destruct (run_op x c) as [r c']. destruct H as (? & ? & _ & Hs).
    split_and!; [done|done|]. intros E Hc'. destruct (Hs E Hc') as (out & Hp & Hw). exists out. split; [done|]. by destruct x.
Qed.

Lemma run_ops_wire xs : forall c, clean c ->
  let '(e, c') := run_ops xs c in
  e <> Panicked /\
  (e = AllWritten -> written (stream c') = written (stream c) ++ on_wire xs c /\
     (SendPreface ∉ xs -> produced (Session.session (session c')) = produced (Session.session (session c)) ++ on_wire xs c)).
Proof.
  induction xs as [|x xs IH]; intros c Hc; [split; [done|intros _; by rewrite !app_nil_r]|].
  cbn [run_ops on_wire]. pose proof (op_wire x c Hc) as H. destruct (run_op x c) as [r c1].
  destruct H as (Hr & Hu & Hs). destruct (complete r && Session.is_empty (Session.output (session c1))) eqn:E.
  - apply andb_true_iff in E as [Er Ee].
    assert (clean c1) as Hc1 by (split; [done|by destruct (Session.output (session c1))]).
    destruct (Hs Er Hc1) as (out & Hp & Hw). rewrite (newly_produced_app _ _ _ Hp).
    specialize (IH c1 Hc1). destruct (run_ops xs c1) as [e c2]. destruct IH as [He HI].
    assert (e <> Panicked /\ (e = AllWritten ->
      written (stream c2) = written (stream c) ++ own_octets x r ++ out ++ on_wire xs c1 /\
      (SendPreface ∉ x :: xs -> produced (Session.session (session c2)) =
         produced (Session.session (session c)) ++ own_octets x r ++ out ++ on_wire xs c1))) as K.
    { split; [done|]. intros E2. destruct (HI E2) as [HW HP]. split; [by rewrite HW, Hw, <- !app_assoc|].
      intros Hx. apply not_elem_of_cons in Hx as [Hx Hxs]. rewrite (HP Hxs), Hp, <- app_assoc. by destruct x. }
    by destruct r.
  - by destruct r.
Qed.

(** The connection as it is made over a transport. *)
Definition opened (s : transport) (c : t) : Prop :=
  client s = Ok c \/ server s = Ok c \/
  exists options, client_with_options s options = Ok c \/ server_with_options s options = Ok c.

Lemma opened_created s c : opened s c -> stream c = s /\ created (session c).
Proof.
  unfold opened, client, server, client_with_options, server_with_options, over, created.
  intros H. assert (forall r, (let? x := map_err NgTokioError.Nghttp2 r in Ok (mk s x)) = Ok c -> r = Ok (session c) /\ stream c = s) as K.
  { intros [x|e|] E; try done. by injection E as <-. }
  destruct H as [H|[H|[o [H|H]]]]; apply K in H as [H Hs]; (split; [done|]); eauto.
Qed.

(** C28: On a new connection over nghttp2, no sequence of calls panics; and as
    long as the transport takes all octets, no future is dropped in the middle
    and no [send] of the session fails half-way, what is written to the
    transport is, call by call and in order, what the library produced, with the
    24 octets of the preface where a client called [send_preface] and nothing
    else; without such a call it is exactly what the library produced. This holds
    whatever the library and the peer do, and also when calls are refused with an
    error. *)
Theorem nghttp2_connection_writes_what_is_produced s c xs :
  opened s c ->
  let '(e, c') := run_ops xs c in
  e <> Panicked /\
  (e = AllWritten ->
     written (stream c') = written s ++ on_wire xs c /\
     (SendPreface ∉ xs -> written (stream c') = written s ++ produced (Session.session (session c')))).
Proof.
  intros [<- Hc]%opened_created. destruct (created_start _ Hc) as (Hu & _ & _ & _ & _ & _ & Ho).
  assert (clean c) as Hcl by by split.
  pose proof (run_ops_wire xs c Hcl) as H. destruct (run_ops xs c) as [e c']. destruct H as [He Hs].
  split; [done|]. intros E. destruct (Hs E) as [Hw Hp]. split; [done|]. intros Hx. by rewrite (Hp Hx), Hw, (created_produced _ Hc).
Qed.

End wire.

(** A client on a transport whose peer answers and then closes. *)
Definition sample_stream : @transport script_transport := mk_script [0; 0; 0] true 1000 [] None.
Definition sample_connection : @t sample_library script_transport :=
  @mk sample_library script_transport sample_stream sample_client.
Definition sample_ops : list op :=
  [SendPreface; SubmitRequest [Header.method (bstr "POST")] (Some [1; 2; 3; 4]) true; SubmitSettings []; SubmitData 99 [9] false; Drive; Recv].

Lemma nghttp2_connection_writes_what_is_produced_witness :
  opened sample_stream sample_connection /\
  (let '(e, c') := run_ops sample_ops sample_connection in
   e <> Panicked /\ written (stream c') = on_wire sample_ops sample_connection /\
   written (stream c') = CONNECTION_PREFACE ++ [0; 1; 2; 3; 4]).
Proof.
  assert (opened sample_stream sample_connection) as Ho by (left; reflexivity). split; [exact Ho|].
  pose proof (@nghttp2_connection_writes_what_is_produced sample_library (player_laws _ _) script_transport script_laws _ _ sample_ops Ho) as H.
  destruct (run_ops sample_ops sample_connection) as [e c'] eqn:E.
  assert (e = fst (run_ops sample_ops sample_connection)) as Ee by by rewrite E.
  assert (c' = snd (run_ops sample_ops sample_connection)) as Ec by by rewrite E.
  destruct H as [Hp Hw]. split; [exact Hp|]. split; [apply Hw; rewrite Ee; vm_compute; reflexivity|].
  rewrite Ec. vm_compute. reflexivity.
Defined.
