(* ===== verification/NgFindings.v ===== *)
(** * NgFindings: runs of the nghttp2 wrapper that go wrong

    Concrete runs, computed with the models, in which the wrapper does not do
    what it means to. *)

From S2P Require Import Prelude Tokio TokioApi.
From S2P Require Import NgTypes Nghttp2 NgSession NgPlayer NgApi NgReports NgTokio NgWire.

(** A server pushes: PUSH_PROMISE on stream 1 with the fields of the promised
    request, then the response to the request of stream 1. *)
Definition push_plays : list (list callback) :=
  let promise := frame_of NGHTTP2_PUSH_PROMISE 1 4 in
  let response := frame_of NGHTTP2_HEADERS 1 4 in
  [[OnBeginHeaders promise; OnHeader promise (bstr ":method") (bstr "GET") 0; OnHeader promise (bstr ":path") (bstr "/pushed") 0;
    OnFrameRecv promise];
   [OnBeginHeaders response; OnHeader response (bstr ":status") (bstr "200") 0; OnFrameRecv response]].

Definition push_library : Nghttp2 := player_library push_plays [].
Definition push_session : @Session.t push_library :=
  @Session.mk push_library (mk_player push_plays [] []) true SessionRole.Client [] [] ∅ ∅ ∅ None [].

(** The fields of a PUSH_PROMISE are collected under the stream it arrived on,
    and stay there until the next HEADERS of that stream: the response is
    reported with the fields of the promised request in front. *)
Example pushed_fields_join_the_response :
  created push_session /\
  Session.events (snd (transcript [NgApi.Recv [0]; NgApi.Recv [0]] push_session)) =
    [Http2Event.HeadersReceived 1
       [Header.new (bstr ":method") (bstr "GET"); Header.new (bstr ":path") (bstr "/pushed"); Header.new (bstr ":status") (bstr "200")] false].
Proof. split; [by left|]. vm_compute. reflexivity. Qed.

(** A library whose first octets are the connection preface, as [client.rs] and
    the test of [lib.rs] say of nghttp2. *)
Definition magic_library : Nghttp2 := player_library [] [Octets CONNECTION_PREFACE].
Definition magic_connection : @NgConnection.t magic_library script_transport :=
  @NgConnection.mk magic_library script_transport sample_stream
    (@Session.mk magic_library (mk_player [] [Octets CONNECTION_PREFACE] []) true SessionRole.Client [] [] ∅ ∅ ∅ None []).

(** [send_preface] writes the preface, and the first [flush] writes it again. *)
Example preface_is_written_twice :
  opened sample_stream magic_connection /\
  written (NgConnection.stream (snd ((NgConnection.send_preface ;! NgConnection.flush) magic_connection))) =
    CONNECTION_PREFACE ++ CONNECTION_PREFACE.
Proof. split; [by left|]. vm_compute. reflexivity. Qed.
